(* ===== verification/_CoqProject ===== *)
-Q . S2P
Prelude.v
Nan.v
KvTypes.v
Exports.v
JsSanitize.v
Prog.v
Store.v
LmdbApi.v
LmdbEngine.v
LmdbObjects.v
LmdbEnv.v
LmdbTxn.v
LmdbDb.v
LmdbCursor.v
LmdbInv.v
LmdbSystem.v
LmdbSafety.v
LmdbSafetyDb.v
LmdbSafetyRun.v
LmdbSpec.v
LmdbBatch.v
LmdbErrors.v
LmdbScan.v
LvlCoding.v
LvlCrc.v
LvlBase.v
LvlLog.v
LvlLogSpec.v
LvlBlock.v
LvlBlockSpec.v
LvlFilter.v
LvlFilterSpec.v
LvlFormat.v
LvlIterator.v
LvlIteratorSpec.v
LvlTable.v
LvlTableSpec.v
LvlBatch.v
LvlSkipList.v
LvlSkipSpec.v
LvlMemtable.v
RocksBatch.v
LsmApi.v
LsmEngine.v
LvlBind.v
LvlBindSafe.v
LsmBodies.v
LvlBindSpec.v
RocksBind.v
RocksSafe.v
RocksSpec.v
JsMeth.v
JsLib.v
JsLibSpec.v
JsLevel.v
JsRocks.v
JsAuto.v
JsLmdb.v
JsLmdbSpec.v
LvlMerge.v
LvlMergeSpec.v
LvlDbIter.v
LvlDbIterSpec.v
LvlMemIter.v
LvlVersion.v
LvlDb.v
LvlVersionSpec.v
LvlListIter.v
LvlDbSpec.v
LvlWrite.v
LvlWriteSpec.v
LvlEdit.v
