(* ===== verification/Prelude.v ===== *)
(** * node-kv: a verification of the key-value bindings for node

    ** The program

    node-kv gives JavaScript three embedded key-value engines: LMDB, LevelDB
    and RocksDB.  It has three layers.

    - lib: JavaScript classes that check arguments, choose a native class by
      the names of two types, and collect small writes into batches that are
      written when they are full or when a timer runs out.
    - src: a C++ addon with one directory per engine.  Its class templates are
      instantiated for every pair of a key type and a value type of
      kv-types.h, and wrap the handles of the engine.
    - 3rd-party: the engines.

    A call goes down through the layers: [Db.put] of lib/leveldb/db.js runs a
    sanitizer, calls [db<K, V>::put] of src/leveldb/db-lvl.cpp, which makes the
    bytes of the two values and calls [leveldb::DB::Put].

    ** How it is modelled

    Code that computes is a function; memory that is read or written through a
    pointer is a list of bytes and every access is checked, so that undefined
    behaviour is the result [Ub] of [res] (Prelude.v).  A method of the addon
    or of lib is a program of calls to an engine ([meth] and [prog] of Prog.v)
    that changes the heap of the objects of its layer.  What an engine asks of
    its callers and answers them is an [api]: a state machine with the calls
    that are allowed and the answers that are possible.  [wpm] is what makes a
    program run to its end without undefined behaviour or a forbidden call,
    with every answer the contract leaves open; [run_sound] carries it over to
    every engine that keeps to the contract.  V8 and Nan are the class [V8] of
    Nan.v with the laws the proofs use ([V8Laws]); lodash's debounce is the
    class [Debounce] of JsLib.v; path.join is an argument.

    ** The files, from the bottom up

    - Prelude.v: bytes, C strings, wrap-around, undefined behaviour; Nan.v: V8
      and Nan; Prog.v: programs, contracts, weakest preconditions; Store.v:
      the ordered stores engines keep.
    - KvTypes.v: src/kv-types.h and src/kv-types.cpp.
    - Exports.v: the [setup_export] functions and src/node-binding.cpp, and the
      methods the files of lib call on native objects.
    - LMDB.  LmdbApi.v: the calls of lmdb.h and their contract; LmdbEngine.v:
      an executable engine that meets it; LmdbObjects.v: the objects of
      src/lmdb; LmdbEnv.v, LmdbTxn.v, LmdbDb.v, LmdbCursor.v: env-lmdb.cpp,
      txn-lmdb.cpp, db-lmdb.cpp, cursor-lmdb.cpp method by method; LmdbInv.v:
      the invariant between objects and handles; LmdbSystem.v: all calls
      JavaScript can make, with flushes of the thread pool and finalizers;
      LmdbSafety.v, LmdbSafetyDb.v, LmdbSafetyRun.v: safety; LmdbSpec.v,
      LmdbBatch.v, LmdbScan.v, LmdbErrors.v: what the calls do.
    - LevelDB 1.18, data.  LvlCoding.v: util/coding; LvlCrc.v: util/crc32c;
      LvlBase.v: Slice, Status and the bytewise comparator; LvlFormat.v:
      db/dbformat; LvlBatch.v: db/write_batch.cc; LvlEdit.v: db/version_edit.
    - LevelDB, files.  LvlLog.v and LvlLogSpec.v: db/log_writer.cc and
      db/log_reader.cc; LvlBlock.v and LvlBlockSpec.v: table/block_builder.cc
      and table/block.cc; LvlFilter.v and LvlFilterSpec.v: util/bloom.cc and
      table/filter_block.cc; LvlTable.v and LvlTableSpec.v: table/format.cc,
      table/table_builder.cc and table/table.cc.
    - LevelDB, iterators.  LvlIterator.v and LvlIteratorSpec.v: the interface
      of iterators (the class [Iterator]), the wrapper and two-level iterators,
      and [is_cursor], what it is to be an iterator over a sorted list;
      LvlMerge.v and LvlMergeSpec.v: table/merger.cc; LvlDbIter.v and
      LvlDbIterSpec.v: db/db_iter.cc; LvlMemIter.v: the iterator of
      db/memtable.cc.
    - LevelDB, databases.  LvlSkipList.v and LvlSkipSpec.v: db/skiplist.h and
      util/random.h; LvlMemtable.v: db/memtable; LvlVersion.v and
      LvlVersionSpec.v: reading from a version of db/version_set.cc, over the
      interface of the table cache ([TableCache]); LvlListIter.v: tables kept as
      lists, an instance of that interface; LvlDb.v and LvlDbSpec.v: reads of
      db/db_impl.cc; LvlWrite.v and LvlWriteSpec.v: its writes.
    - RocksDB 3.7.  RocksBatch.v: db/write_batch.cc.
    - The bindings of both.  LsmApi.v: the calls and their contract;
      LsmEngine.v: an executable engine; LvlBind.v: src/leveldb; RocksBind.v:
      src/rocksdb; LsmBodies.v: what the two share; LvlBindSafe.v,
      RocksSafe.v: safety; LvlBindSpec.v, RocksSpec.v: what the calls do.
    - lib.  JsSanitize.v: lib/sanitize.js; JsMeth.v: methods of JavaScript;
      JsLib.v: what lib/leveldb and lib/rocksdb share, over an interface
      ([Backend]) of native methods; JsLibSpec.v: its specification and the
      proof against the laws of the interface ([BackendLaws]); JsLevel.v and
      JsRocks.v: the two addons as instances; JsAuto.v: what their calls do;
      JsLmdb.v and JsLmdbSpec.v: lib/lmdb.

    Objects of a class are the entries of a finite map from identities to
    records with the fields of the class; a NULL handle is [None].  A method
    of the class [c] is the definition [c_method], with the identity it is
    called on and the arguments of the JavaScript call.  An exception is the
    pending error of the [info] a native method returns, and the case [Thrown]
    of [jsx] in lib.

    ** What is shown

    - Stored values come back (kv_roundtrip), numeric keys are in the order of
      the numbers (number_key_order), the printing of hex values is right for
      1 to 512 bytes only (hex_v8value_bounds).
    - Every sequence of calls that keeps to a stated discipline is free of
      undefined behaviour and makes allowed calls only, for each of the three
      bindings (lmdb_calls_safe, lvl_calls_safe, rocks_calls_safe); no handle
      is leaked (lmdb_no_leak); calls on closed objects throw, or hand LMDB a
      NULL it does not check (closed_objects_refuse).
    - The databases refine ordered stores (db_refines_store, db_refines_map,
      lvl_refines_store, rocks_refines_stores; the last two also say what an
      engine whose calls fail can leave), transactions and batches are
      atomic (txn_batch_atomic, lvl_batch_atomic, rocks_batch_atomic,
      write_all_or_nothing), cursors show every entry once and in order
      (cursor_scan_complete, cursor_gte_least, cursor_seek_exact,
      lvl_scan_complete).
    - Inside LevelDB and RocksDB: batches are read back and damage is noticed
      (batch_roundtrip, batch_damage_detected, rocks_batch_roundtrip), the skip
      list of distinct keys and the memtable refine a sorted list and a map with
      snapshots
      (skiplist_refines, skiplist_iterates, memtable_refines_map), internal
      keys are ordered as lookups need (internal_key_order, lookup_key_seeks),
      and version edits are decoded as they were encoded
      (version_edit_roundtrip).
    - The files of LevelDB: a log gives back the records that are complete in
      any prefix of it (log_recovers), its checksum is the remainder by the
      polynomial (crc32c_extend), a block and a table are cursors in the sorted
      list they were built of (block_refines, table_refines), and no filter
      denies a key it was built with (filter_block_matches).
    - A LevelDB database as a whole: its iterator is a cursor in the one sorted
      list a snapshot sees, however the entries are spread over memtables and
      files (db_iterator_refines), lookups find in the same list
      (db_get_refines), that list is the map the written records make
      (db_history), and a write adds the records of a group of writers as a
      whole and to be read from then on, or changes nothing that is read, with
      delays, waits for compactions and errors on the way (db_write_read).
    - lib refines a specification with waiting records (jslib_refines), a
      timer writes them (autoflush_alone), batches of lib/lmdb lose nothing and
      are committed as a whole (lenv_batches_keep_all, lenv_batches_commit,
      lenv_flush_atomic), the addon has a class for exactly
      the pairs of types, with the methods lib calls (classes_by_type), and what
      passes a sanitizer is stored as its text says, numbers as the nearest
      double modulo 2^32 (sanitized_stored).
    - Where the code does not do what it should, the theorem says what it does:
      the findings are exists_uses_stale_cursor, put_swallows_commit_error,
      db_ctor_uninitialised, hex_v8value_bounds, lvl_misuse_undefined,
      rocks_misuse_undefined, closed_objects_refuse, autoflush_shared,
      batchDel_second_writer, del_without_value and block_sizes_overflow, the
      answer of get for a missing key in lvl_refines_store and
      rocks_refines_stores, the methods that are missing in classes_by_type, the
      numbers that do not fit in sanitized_stored, and the pointers Clear keeps in
      version_edit_roundtrip.

    ** Bounds and fuel

    Loops of the source are structural where they can be.  The searches of the
    skip list take as fuel the number of nodes times the number of levels, and
    skiplist_refines shows that it is enough; varint loops take ten steps,
    which 64 bits need at most; dec_digits takes twenty, for the digits of 64
    bits.  A scan by a cursor takes the number of its turns as an argument, and
    the theorems hold for every number above that of the entries.  A loop that
    did not end within the rounds it was given has the result [NoEnd] of [Ub],
    and the theorems show results that are [Ok]: the loops over internal entries
    of a database iterator end within more rounds than there are entries, the
    search for a file within one round more than there are files, decoding an
    edit within one round more than it has bytes, and making room for a write
    within three more than the waits for compactions that are left ([left] of
    [ThreadLaws]).  Integers wrap at their width
    ([wrap_u], [wrap_s]); counts of batches are assumed below 2^31 where the
    code keeps them in an int, keys to fit the 32-bit length in front of them,
    and sequence numbers to stay below 2^56.  LMDB refuses keys, and data of a
    database with duplicates, that are empty or longer than 511 bytes: the
    theorems that say what is stored in it ask for other ones ([key_size_ok],
    [data_size_ok]).

    [LMDB_sure] and [LSM_sure] are engines none of whose calls fails for lack of
    memory, space or files; the theorems about [LMDB] and [LSM] hold for every
    answer of the contract.

    ** Not modelled

    - liblmdb and the engine of RocksDB below its write batches: concurrent C
      and C++ around mapped memory and the file system.  The bindings are
      verified for every engine that keeps to LmdbApi or LsmApi, and LmdbEngine
      and LsmEngine show that this is possible.
    - Of LevelDB: the table cache and the block cache, which are the interfaces
      [TableCache] and [BlockCache] with what callers rely on; opening and
      recovery of a database, installing versions and compaction, which move
      entries between files in a background thread; the functions of env.h,
      which are interfaces too; Snappy.  The LsmApi the bindings are verified
      against is not derived from the model of LevelDB for that reason.
    - Threads: a read of a database is that of one thread with no version
      installed in between, a write that releases the mutex calls
      [other_threads], of which [ThreadLaws] says what compactions may do and
      that a writer they make wait goes on in the end, and the skip list is that of a single thread, which is how the writer of
      a memtable uses it.  The references that keep memtables, versions, blocks
      and cache entries alive are left out.
    - lib/cache and lib/rmdir.js, which rotate directories of the file system.
    - Output to the terminal, and the tests, benchmarks and examples. *)
From stdpp Require Export base list gmap strings.
From coqutil Require Export Byte Word.LittleEndianList.
From Stdlib Require Export ZArith Lia.
From Stdlib Require Strings.Byte.

#[global] Open Scope Z_scope.

(** ** Bytes

    A C [char] is a [byte]; what lies behind a [const char*] is a list of
    them.  coqutil's [byte.unsigned] and [byte.of_Z] are the casts to and from
    [unsigned char]. *)
Abbreviation byte := Init.Byte.byte.
Abbreviation bytes := (list byte).

#[export] Instance byte_eq_dec : EqDecision byte := Byte.byte_eq_dec.
#[export] Instance byte_countable : Countable byte :=
  inj_countable' byte.unsigned byte.of_Z byte.of_Z_unsigned.

(** A C string literal, without its terminator. *)
Definition lit (s : string) : bytes := String.list_byte_of_string s.

Definition NUL : byte := Byte.x00.

(** The C string that starts a block of readable memory: the bytes before the
    first NUL, or [None] when a scan for the NUL leaves the block. *)
Fixpoint c_str (mem : bytes) : option bytes :=
  match mem with
  | [] => None
  | b :: mem' => if decide (b = NUL) then Some [] else cons b <$> c_str mem'
  end.

(** ** Machine integers *)
Definition wrap_u (w z : Z) : Z := z mod 2 ^ w.
Definition wrap_s (w z : Z) : Z := (z + 2 ^ (w - 1)) mod 2 ^ w - 2 ^ (w - 1).

(** ** Undefined behaviour as a value

    A computation of the C++ code that the language leaves undefined evaluates
    to [Ub] with the reason.  [AssertFail] stands for a failed [assert] that guards
    a precondition, [NoEnd] for a loop that has not ended within the rounds a
    definition gives it. *)
Inductive ub : Set :=
| OobRead | OobWrite | UninitRead | NullDeref | DanglingPtr | SignedOverflow
| BadUnwrap
| BadConvert
| BadShift
| AssertFail
| NoEnd.

Inductive res (A : Type) : Type :=
| Ok (a : A)
| Ub (u : ub).
Arguments Ok {A} a.
Arguments Ub {A} u.

#[export] Instance ub_eq_dec : EqDecision ub.
Proof. solve_decision. Defined.
#[export] Instance res_ret : MRet res := @Ok.
#[export] Instance res_bind : MBind res := fun A B f m =>
  match m with Ok a => f a | Ub u => Ub u end.

#[export] Instance res_fmap : FMap res := fun A B f m =>
  match m with Ok a => Ok (f a) | Ub u => Ub u end.

Definition of_option {A} (u : ub) (o : option A) : res A :=
  match o with Some a => Ok a | None => Ub u end.

(** ** Automation *)
Create HintDb kv.
Create Rewrite HintDb kvrw.

(** Case analysis on the innermost [match] or [if] of the goal. *)
Ltac split_match :=
  match goal with
  | |- context [match ?x with _ => _ end] => destruct x eqn:?
  end.

Ltac split_match_in H :=
  match type of H with
  | context [match ?x with _ => _ end] => destruct x eqn:?
  end.

(** ** Lemmas shared by the components *)
Lemma byte_range b : 0 <= byte.unsigned b < 256.
Proof. apply byte.unsigned_range. Qed.

Lemma byte_inj a b : byte.unsigned a = byte.unsigned b -> a = b.
Proof. apply byte.unsigned_inj. Qed.

Lemma byte_of_Z_small z : 0 <= z < 256 -> byte.unsigned (byte.of_Z z) = z.
Proof. intros. rewrite byte.unsigned_of_Z. unfold byte.wrap. apply Z.mod_small; lia. Qed.

Lemma c_str_app s rest :
  NUL ∉ s -> c_str (s ++ NUL :: rest) = Some s.
Proof.
  induction s as [|b s IH]; cbn; intros H; [done|].
  apply not_elem_of_cons in H as [Hb Hs].
  rewrite decide_False by done. by rewrite IH.
Qed.

Lemma c_str_NUL_free mem s : c_str mem = Some s -> NUL ∉ s.
Proof.
  revert s; induction mem as [|b mem IH]; cbn; intros s H; [done|].
  case_decide; simplify_eq; [by intros ?%elem_of_nil|].
  destruct (c_str mem) as [s'|]; [|done]. cbn in H. injection H as <-.
  set_solver.
Qed.

Lemma c_str_prefix mem s : c_str mem = Some s -> exists rest, mem = s ++ NUL :: rest.
Proof.
  revert s; induction mem as [|b mem IH]; cbn; intros s H; [done|].
  case_decide; [injection H as <-; subst; by exists mem|].
  destruct (c_str mem) as [s'|]; [|done]. cbn in H. injection H as <-.
  destruct (IH s' eq_refl) as [rest ->]. by exists rest.
Qed.

Lemma wrap_u_range w z : 0 <= w -> 0 <= wrap_u w z < 2 ^ w.
Proof. intros. apply Z.mod_pos_bound. apply Z.pow_pos_nonneg; lia. Qed.

Lemma wrap_u_small w z : 0 <= z < 2 ^ w -> wrap_u w z = z.
Proof. apply Z.mod_small. Qed.

Lemma wrap_s_range w z : 0 < w -> - 2 ^ (w - 1) <= wrap_s w z < 2 ^ (w - 1).
Proof.
  intros. unfold wrap_s.
  assert (2 ^ w = 2 * 2 ^ (w - 1)) as E.
  { rewrite <- Z.pow_succ_r by lia. f_equal; lia. }
  pose proof (Z.mod_pos_bound (z + 2 ^ (w - 1)) (2 ^ w)).
  assert (0 < 2 ^ (w - 1)) by (apply Z.pow_pos_nonneg; lia). lia.
Qed.

Lemma wrap_s_small w z : 0 < w -> - 2 ^ (w - 1) <= z < 2 ^ (w - 1) -> wrap_s w z = z.
Proof.
  intros Hw Hz. unfold wrap_s.
  assert (2 ^ w = 2 * 2 ^ (w - 1)) as E.
  { rewrite <- Z.pow_succ_r by lia. f_equal; lia. }
  rewrite Z.mod_small; lia.
Qed.

(** Reducing modulo [2^w] first does not change the signed value. *)
Lemma wrap_s_mod w z : 0 < w -> wrap_s w (z mod 2 ^ w) = wrap_s w z.
Proof. intros. unfold wrap_s. rewrite Zplus_mod_idemp_l. done. Qed.

#[export] Hint Rewrite byte.of_Z_unsigned length_le_split : kvrw.

(** ** Filters that keep everything or nothing *)
Lemma elem_of_concat {A} (y : A) (ls : list (list A)) : y ∈ concat ls <-> exists l, y ∈ l /\ l ∈ ls.
Proof.
  rewrite list_elem_of_In, in_concat. split; intros (l & H1 & H2); exists l; rewrite ?list_elem_of_In in *; done.
Qed.

Lemma list_filter_all {A} (P : A -> Prop) `{!forall x, Decision (P x)} l : Forall P l -> filter P l = l.
Proof. induction 1 as [|x l Hx _ IH]; [done|]. by rewrite filter_cons_True, IH. Qed.

Lemma list_filter_none {A} (P : A -> Prop) `{!forall x, Decision (P x)} l :
  Forall (fun x => ~ P x) l -> filter P l = [].
Proof. induction 1 as [|x l Hx _ IH]; [done|]. by rewrite filter_cons_False. Qed.
