(* ===== verification/Nan.v ===== *)
(** * The V8 and Nan interface

    The bindings reach JavaScript only through V8 and Nan, which are not part
    of the repository.  [V8] lists the operations they use, [V8Laws] the
    documented behaviour the theorems rely on, and [SimpleV8] is a concrete
    instance that satisfies the laws. *)
From S2P Require Import Prelude.

Class V8 := {
  value : Type;
  v_undefined : value;
  v_null : value;
  v_bool : bool -> value;
  v_object : nat -> value;         (* a reference to a wrapped object *)
  new_int32 : Z -> value;          (* Nan::New(int32_t) *)
  new_uint32 : Z -> value;         (* Nan::New(uint32_t) *)
  new_string : bytes -> value;     (* Nan::New(const char* ), given the C string *)
  copy_buffer : bytes -> value;    (* Nan::CopyBuffer *)
  Int32Value : value -> Z;
  Uint32Value : value -> Z;
  IsNumber : value -> bool;
  NumberValue : value -> option Z;  (* truncated, [None] for NaN and infinities *)
  BooleanValue : value -> bool;
  utf8 : value -> bytes;           (* ToString, in UTF-8: Nan::Utf8String *)
  WriteUtf8 : value -> nat -> bytes;  (* the bytes ToString()->WriteUtf8(p, n) stores *)
  buffer_data : value -> option bytes; (* node::Buffer, [None] for another value *)
  utf8_valid : bytes -> bool;
  new_number : Z -> value;         (* the Number nearest to an integer *)
  (* [IsObject], and the wrapped object the value refers to if it is one *)
  ToObject : value -> option (option nat)
}.

Definition ascii_only (s : bytes) : bool := forallb (fun b => byte.unsigned b <? 128) s.

(** The integer of 53 significant bits nearest to [n >= 0], the even one of two;
    the value of the double nearest to [n] below 2^1024. *)
Definition round53 (n : Z) : Z :=
  let e := Z.log2 n - 52 in
  if e <=? 0 then n
  else
    let q := n / 2 ^ e in
    match n mod 2 ^ e ?= 2 ^ (e - 1) with
    | Lt => q * 2 ^ e
    | Gt => (q + 1) * 2 ^ e
    | Eq => (if Z.even q then q else q + 1) * 2 ^ e
    end.

Definition double_of (z : Z) : Z := Z.sgn z * round53 (Z.abs z).

Lemma double_exact z : - 2 ^ 53 <= z <= 2 ^ 53 -> double_of z = z.
Proof.
  intros Hz. unfold double_of. assert (round53 (Z.abs z) = Z.abs z) as -> by (destruct (decide (Z.abs z = 2 ^ 53)) as [->|];
    [by vm_compute|]; unfold round53; assert (Z.log2 (Z.abs z) < 53) by (destruct (decide (z = 0)) as [->|]; [done|]; apply Z.log2_lt_pow2; lia);
    by rewrite (proj2 (Z.leb_le _ _)) by lia). lia.
Qed.

(** The Number nearest to an integer from 2^1024 on is infinite; [ToInt32] and
    [ToUint32] give 0 for it, as for the multiples of 2^32 nearest to it. *)
Class V8Laws (V : V8) : Prop := {
  Int32Value_range v : - 2 ^ 31 <= Int32Value v < 2 ^ 31;
  Uint32Value_range v : 0 <= Uint32Value v < 2 ^ 32;
  Int32Value_new z : - 2 ^ 31 <= z < 2 ^ 31 -> Int32Value (new_int32 z) = z;
  Uint32Value_new z : 0 <= z < 2 ^ 32 -> Uint32Value (new_uint32 z) = z;
  utf8_valid_ascii s : ascii_only s = true -> utf8_valid s = true;
  utf8_new_string s : utf8_valid s = true -> utf8 (new_string s) = s;
  WriteUtf8_fits v n :
    (length (utf8 v) < n)%nat -> WriteUtf8 v n = utf8 v ++ [NUL];
  buffer_copy b : buffer_data (copy_buffer b) = Some b;
  BooleanValue_bool b : BooleanValue (v_bool b) = b;
  Int32Value_number z : Int32Value (new_number z) = wrap_s 32 (double_of z);
  Uint32Value_number z : Uint32Value (new_number z) = wrap_u 32 (double_of z);
  ToObject_object i : ToObject (v_object i) = Some (Some i);
  ToObject_undefined : ToObject v_undefined = None;
  utf8_undefined : utf8 v_undefined = lit "undefined";
  buffer_undefined : buffer_data v_undefined = None
}.

(** ** What a native method hands back

    [info.GetReturnValue().Set] stores the return value and [Nan::ThrowError]
    schedules an exception; neither leaves the C++ function.  JavaScript sees
    the exception when one is pending and the return value otherwise. *)
Section Info.
Context `{V8}.

Record info := Info { rv : value; pending : option bytes }.

Definition info0 : info := Info v_undefined None.
Definition set_ret (v : value) (i : info) : info := Info v (pending i).
Definition throw_error (msg : bytes) (i : info) : info := Info (rv i) (Some msg).

Inductive js_result :=
| JsReturn (v : value)
| JsThrow (msg : bytes).

Definition js (i : info) : js_result :=
  match pending i with Some m => JsThrow m | None => JsReturn (rv i) end.
End Info.

(** A conversion of a [double] to an unsigned type of [w] bits, undefined for a
    value out of its range. *)
Definition to_unsigned (w : Z) (d : option Z) : res Z :=
  match d with
  | Some z => if (0 <=? z) && (z <? 2 ^ w) then Ok z else Ub BadConvert
  | None => Ub BadConvert
  end.

(** ** Decimal numerals, as [sprintf("%lld")] prints and [atoll] reads them *)
Definition digit (d : Z) : byte := byte.of_Z (48 + d).

Fixpoint dec_digits (fuel : nat) (n : Z) (acc : bytes) : bytes :=
  match fuel with
  | O => acc
  | S f => if n <? 10 then digit n :: acc
           else dec_digits f (n / 10) (digit (n mod 10) :: acc)
  end.

(** Twenty digits hold every 64-bit magnitude. *)
Definition sprintf_lld (z : Z) : bytes :=
  if z <? 0 then Byte.x2d :: dec_digits 20 (- z) [] else dec_digits 20 z [].

Definition is_digit (b : byte) : bool :=
  (48 <=? byte.unsigned b) && (byte.unsigned b <=? 57).

Definition is_space (b : byte) : bool :=
  (byte.unsigned b =? 32) || ((9 <=? byte.unsigned b) && (byte.unsigned b <=? 13)).

Fixpoint skip_space (s : bytes) : bytes :=
  match s with b :: s' => if is_space b then skip_space s' else s | [] => [] end.

Fixpoint dec_value (acc : Z) (s : bytes) : Z :=
  match s with
  | b :: s' => if is_digit b then dec_value (10 * acc + (byte.unsigned b - 48)) s' else acc
  | [] => acc
  end.

(** An optional sign: the sign's factor and the rest of the string. *)
Definition read_sign (s : bytes) : Z * bytes :=
  match s with
  | b :: s' => if decide (b = Byte.x2d) then (-1, s')
               else if decide (b = Byte.x2b) then (1, s') else (1, s)
  | [] => (1, s)
  end.

(** [atoll]; a value outside [long long] is undefined behaviour. *)
Definition atoll (s : bytes) : res Z :=
  let '(sg, ds) := read_sign (skip_space s) in
  let z := sg * dec_value 0 ds in
  if (- 2 ^ 63 <=? z) && (z <? 2 ^ 63) then Ok z else Ub SignedOverflow.

(** *** [atoll] inverts [sprintf("%lld")] *)
Lemma digit_val d : 0 <= d < 10 -> byte.unsigned (digit d) = 48 + d.
Proof. intros. unfold digit. apply byte_of_Z_small. lia. Qed.

Lemma digit_is_digit d : 0 <= d < 10 -> is_digit (digit d) = true.
Proof. intros. unfold is_digit. rewrite digit_val by lia. apply andb_true_intro; split; lia. Qed.

Lemma dec_value_digits fuel n acc k :
  0 <= n < 10 ^ Z.of_nat fuel -> (0 < fuel)%nat ->
  exists p, dec_value k (dec_digits fuel n acc) = dec_value (k * 10 ^ Z.of_nat p + n) acc.
Proof.
  revert n acc k; induction fuel as [|f IH]; intros n acc k Hn Hf; [lia|].
  cbn [dec_digits]. destruct (Z.ltb_spec n 10).
  - exists 1%nat. cbn [dec_value]. rewrite digit_is_digit, digit_val by lia.
    f_equal. lia.
  - assert (0 <= n / 10 < 10 ^ Z.of_nat f) as Hd.
    { split; [apply Z.div_pos; lia|]. apply Z.div_lt_upper_bound; [lia|].
      rewrite Nat2Z.inj_succ, Z.pow_succ_r in Hn by lia. lia. }
    assert (0 < f)%nat by (destruct f; [cbn in Hd; pose proof (Z.div_le_lower_bound n 10 1); lia|lia]).
    destruct (IH (n / 10) (digit (n mod 10) :: acc) k Hd ltac:(done)) as [p Hp].
    exists (S p). rewrite Hp. cbn [dec_value].
    pose proof (Z.mod_pos_bound n 10 ltac:(lia)).
    rewrite digit_is_digit, digit_val by lia. f_equal.
    rewrite Nat2Z.inj_succ, Z.pow_succ_r by lia.
    pose proof (Z.div_mod n 10 ltac:(lia)). lia.
Qed.

Lemma dec_digits_head fuel n acc :
  0 <= n -> (0 < fuel)%nat ->
  exists d r, dec_digits fuel n acc = digit d :: r /\ 0 <= d < 10.
Proof.
  revert n acc; induction fuel as [|f IH]; intros n acc Hn Hf; [lia|].
  cbn [dec_digits]. destruct (Z.ltb_spec n 10); [by exists n, acc|].
  destruct f as [|f].
  - cbn. eexists _, _. split; [done|]. apply Z.mod_pos_bound; lia.
  - apply IH; [apply Z.div_pos; lia|lia].
Qed.

Lemma digit_not_special d :
  0 <= d < 10 ->
  is_space (digit d) = false /\ digit d <> Byte.x2d /\ digit d <> Byte.x2b.
Proof.
  intros Hd. pose proof (digit_val d Hd) as V. split_and!.
  - unfold is_space. rewrite V. apply orb_false_intro; lia.
  - intros E. rewrite E in V. change (45 = 48 + d) in V. lia.
  - intros E. rewrite E in V. change (43 = 48 + d) in V. lia.
Qed.

Lemma dec_value_print n : 0 <= n < 10 ^ 20 -> dec_value 0 (dec_digits 20 n []) = n.
Proof.
  intros. destruct (dec_value_digits 20 n [] 0) as [p ->]; [lia|lia|]. cbn. lia.
Qed.

Lemma atoll_sprintf z : - 2 ^ 63 <= z < 2 ^ 63 -> atoll (sprintf_lld z) = Ok z.
Proof.
  intros Hz. unfold atoll, sprintf_lld.
  assert (2 ^ 63 < 10 ^ 20) by (vm_compute; done).
  destruct (Z.ltb_spec z 0).
  - cbn [skip_space is_space read_sign].
    replace (is_space Byte.x2d) with false by done.
    cbn [read_sign]. rewrite decide_True by done.
    rewrite dec_value_print by lia.
    replace (-1 * - z) with z by lia.
    rewrite (proj2 (andb_true_iff _ _)); [done|]. split; lia.
  - destruct (dec_digits_head 20 z []) as (d & r & E & Hd); [lia|lia|].
    destruct (digit_not_special d Hd) as (S1 & S2 & S3).
    assert (dec_value 0 (digit d :: r) = z) as V by (rewrite <- E; apply dec_value_print; lia).
    rewrite E. cbn [skip_space]. rewrite S1. cbn [read_sign].
    rewrite !decide_False by done. rewrite V, Z.mul_1_l.
    rewrite (proj2 (andb_true_iff _ _)); [done|]. split; lia.
Qed.

(** What [sprintf("%lld")] prints is ASCII without a NUL. *)
Definition plain (s : bytes) : Prop := Forall (fun b => 0 < byte.unsigned b < 128) s.

Lemma plain_ascii s : plain s -> ascii_only s = true.
Proof.
  induction 1 as [|b s Hb _ IH]; cbn; [done|]. rewrite andb_true_iff. split; [lia|done].
Qed.

Lemma plain_NUL_free s : plain s -> NUL ∉ s.
Proof.
  intros H Hin. unfold plain in H. rewrite Forall_forall in H.
  specialize (H _ Hin). change (0 < 0 < 128) in H. lia.
Qed.

Lemma plain_digits fuel n acc : 0 <= n -> plain acc -> plain (dec_digits fuel n acc).
Proof.
  revert n acc; induction fuel as [|f IH]; intros n acc Hn Ha; cbn [dec_digits]; [done|].
  destruct (Z.ltb_spec n 10).
  - constructor; [rewrite digit_val; lia|done].
  - apply IH; [apply Z.div_pos; lia|]. constructor; [|done].
    pose proof (Z.mod_pos_bound n 10 ltac:(lia)). rewrite digit_val; lia.
Qed.

Lemma plain_sprintf z : plain (sprintf_lld z).
Proof.
  unfold sprintf_lld. destruct (Z.ltb_spec z 0).
  - constructor; [by vm_compute|]. apply plain_digits; [lia|constructor].
  - apply plain_digits; [lia|constructor].
Qed.

(** ** A concrete V8

    Integral numbers, ASCII strings, buffers and a few other values, enough to
    run the models. *)
Inductive simple_value :=
| SUndefined | SNull | SBool (b : bool) | SObj (i : nat) | SNum (z : Z) | SStr (s : bytes) | SBuf (b : bytes).

Definition simple_utf8 (v : simple_value) : bytes :=
  match v with
  | SUndefined => lit "undefined"
  | SNull => lit "null"
  | SBool true => lit "true"
  | SBool false => lit "false"
  | SObj _ => lit "[object Object]"
  | SNum z => sprintf_lld z
  | SStr s => s
  | SBuf b => b
  end.

Definition simple_num (v : simple_value) : Z :=
  match v with SNum z => z | SBool true => 1 | _ => 0 end.

Definition simple_write (v : simple_value) (n : nat) : bytes :=
  if (length (simple_utf8 v) <? n)%nat then simple_utf8 v ++ [NUL]
  else take n (simple_utf8 v).

Definition SimpleV8 : V8 := {|
  value := simple_value;
  v_undefined := SUndefined;
  v_null := SNull;
  v_bool := SBool;
  v_object := SObj;
  new_int32 := SNum;
  new_uint32 := SNum;
  new_string := SStr;
  copy_buffer := SBuf;
  Int32Value v := wrap_s 32 (simple_num v);
  Uint32Value v := wrap_u 32 (simple_num v);
  IsNumber v := match v with SNum _ => true | _ => false end;
  NumberValue v := Some (simple_num v);
  BooleanValue v :=
    match v with
    | SUndefined | SNull => false
    | SBool b => b
    | SNum z => negb (z =? 0)
    | SStr s => negb (bool_decide (s = []))
    | SObj _ | SBuf _ => true
    end;
  utf8 := simple_utf8;
  WriteUtf8 := simple_write;
  buffer_data v := match v with SBuf b => Some b | _ => None end;
  utf8_valid := ascii_only;
  new_number z := SNum (double_of z);
  ToObject v := match v with SObj i => Some (Some i) | SBuf _ => Some None | _ => None end
|}.

Lemma SimpleV8_laws : V8Laws SimpleV8.
Proof.
  split; cbn; intros.
  - by apply (wrap_s_range 32).
  - by apply (wrap_u_range 32).
  - by apply wrap_s_small.
  - by apply wrap_u_small.
  - done.
  - done.
  - unfold simple_write. by rewrite (proj2 (Nat.ltb_lt _ _)).
  - done.
  - done.
  - done.
  - done.
  - done.
  - done.
  - done.
  - done.
Qed.
