(* ===== verification/KvTypes.v ===== *)
(** * Key and value types

    The classes of src/src/kv-types.h and src/src/kv-types.cpp that turn a
    JavaScript value into the bytes an engine stores and back, and the
    comparator LevelDB and RocksDB use for numeric keys.  Reads and writes
    through a [char*] are checked against the block the pointer refers to. *)
From S2P Require Import Prelude Nan.

(** ** Checked memory *)

(** A block whose bytes may be uninitialised. *)
Abbreviation block := (list (option byte)).

Definition store {A} (dest : list A) (i : nat) (x : A) : res (list A) :=
  if (i <? length dest)%nat then Ok (<[i := x]> dest) else Ub OobWrite.

Definition load (src : block) (i : nat) : res byte :=
  match src !! i with
  | Some (Some b) => Ok b
  | Some None => Ub UninitRead
  | None => Ub OobRead
  end.

Fixpoint load_n (src : block) (n : nat) : res bytes :=
  match n with
  | O => Ok []
  | S n' => b ← load src 0; bs ← load_n (tail src) n'; Ok (b :: bs)
  end.

(** The C string at the start of a block. *)
Fixpoint block_str (src : block) : res bytes :=
  match src with
  | [] => Ub OobRead
  | None :: _ => Ub UninitRead
  | Some b :: src' =>
      if decide (b = NUL) then Ok [] else s ← block_str src'; Ok (b :: s)
  end.

(** ** Numbers *)
Inductive num_kind := I32 | U32 | I64.

#[export] Instance num_kind_eq_dec : EqDecision num_kind.
Proof. solve_decision. Defined.

Definition num_sizeof (n : num_kind) : nat :=
  match n with I32 | U32 => 4 | I64 => 8 end.

Definition num_range (n : num_kind) (z : Z) : Prop :=
  match n with
  | I32 => - 2 ^ 31 <= z < 2 ^ 31
  | U32 => 0 <= z < 2 ^ 32
  | I64 => - 2 ^ 63 <= z < 2 ^ 63
  end.

(** The value of [NUMBER] a bit pattern stands for. *)
Definition num_wrap (n : num_kind) (z : Z) : Z :=
  match n with I32 => wrap_s 32 z | U32 => wrap_u 32 z | I64 => wrap_s 64 z end.

(** [number_type(const char* val, size_t size)]: [size] is not looked at. *)
Definition number_of_data (n : num_kind) (mem : bytes) (size : nat) : res Z :=
  if (length mem <? num_sizeof n)%nat then Ub OobRead
  else Ok (num_wrap n (le_combine (take (num_sizeof n) mem))).

Definition number_data (n : num_kind) (z : Z) : bytes := le_split (num_sizeof n) z.
Definition number_size (n : num_kind) : nat := num_sizeof n.

Definition number_compare (a b : Z) : Z :=
  if a >? b then 1 else if a <? b then -1 else 0.

Section Values.
Context `{V : V8}.

Definition number_of_value (n : num_kind) (v : value) : res Z :=
  match n with
  | I32 => Ok (Int32Value v)
  | U32 => Ok (Uint32Value v)
  | I64 => atoll (utf8 v)
  end.

Definition number_v8value (n : num_kind) (z : Z) : value :=
  match n with
  | I32 => new_int32 z
  | U32 => new_uint32 z
  | I64 => new_string (sprintf_lld z)
  end.

(** ** Binary *)
Record binary_type := BinaryT { bin_data : bytes; bin_size : nat }.

Definition binary_of_value (v : value) : res binary_type :=
  match buffer_data v with
  | Some b => Ok (BinaryT b (length b))
  | None => Ub BadUnwrap
  end.

Definition binary_of_data (val : bytes) (sz : nat) : binary_type := BinaryT val sz.

Definition binary_v8value (b : binary_type) : res value :=
  copy_buffer <$> load_n (Some <$> bin_data b) (bin_size b).

(** ** Strings *)
Record string_type := StringT { str_data : bytes; str_size : nat; str_is_allocated : bool }.

Definition string_of_value (v : value) : string_type :=
  let buf_size := (length (utf8 v) + 1)%nat in
  let data := WriteUtf8 v buf_size in
  StringT data (length data) true.

Definition string_of_data (val : bytes) (sz : nat) : string_type := StringT val sz false.

Definition string_v8value (s : string_type) : res value :=
  new_string <$> block_str (Some <$> str_data s).

(** ** Hex strings *)
Definition HEX_BUF : nat := 512.      (* sizeof(_buf) *)
Definition HEX_PRINT_BUF : nat := 1025.
#[global] Arguments HEX_BUF : simpl never.
#[global] Arguments HEX_PRINT_BUF : simpl never.

Record hex_type := HexT {
  hex_buf : block;
  hex_size : nat;
  hex_mem : option block;
  hex_is_allocated : bool
}.

Definition hex_digit (b : byte) : option Z :=
  let z := byte.unsigned b in
  if (48 <=? z) && (z <=? 57) then Some (z - 48)
  else if (97 <=? z) && (z <=? 102) then Some (z - 87)
  else if (65 <=? z) && (z <=? 70) then Some (z - 55)
  else None.

Fixpoint hex_value (acc : Z) (s : bytes) : Z :=
  match s with
  | b :: s' => match hex_digit b with Some d => hex_value (16 * acc + d) s' | None => acc end
  | [] => acc
  end.

Definition skip_0x (s : bytes) : bytes :=
  match s with
  | a :: b :: s' =>
      if decide (a = Byte.x30 /\ (b = Byte.x78 \/ b = Byte.x58)) then s' else s
  | _ => s
  end.

(** [strtol(s, NULL, 16)] on a string too short to overflow. *)
Definition strtol16 (s : bytes) : Z :=
  let '(sg, ds) := read_sign (skip_space s) in sg * hex_value 0 (skip_0x ds).

(** One turn of the loop: the two characters at [cur], the second one
    replaced by a zero digit at the end of the string. *)
Definition hex_byte (c0 c1 : byte) : byte :=
  let tmp := [c0; if decide (c1 = NUL) then Byte.x30 else c1; NUL] in
  byte.of_Z (strtol16 (default [] (c_str tmp))).

Fixpoint hex_fill (src : bytes) (todo cnt : nat) (dest : block) : res block :=
  match todo with
  | O => Ok dest
  | S t =>
      c0 ← of_option OobRead (src !! (2 * cnt)%nat);
      c1 ← of_option OobRead (src !! (2 * cnt + 1)%nat);
      dest' ← store dest cnt (Some (hex_byte c0 c1));
      hex_fill src t (S cnt) dest'
  end.

Definition hex_of_value (v : value) : res hex_type :=
  let sz := ((length (utf8 v) + 1) / 2)%nat in
  let heap := (HEX_BUF <? sz)%nat in
  dest ← hex_fill (utf8 v ++ [NUL]) sz 0 (replicate (if heap then sz else HEX_BUF) None);
  Ok (if heap then HexT (replicate HEX_BUF None) sz (Some dest) true
      else HexT dest sz None false).

Definition hex_of_data (val : bytes) (sz : nat) : hex_type :=
  HexT (replicate HEX_BUF None) sz (Some (Some <$> val)) false.

Definition hex_data (h : hex_type) : block :=
  match hex_mem h with Some m => m | None => hex_buf h end.

Definition hex_char (d : Z) : byte :=
  if d <? 10 then byte.of_Z (48 + d) else byte.of_Z (87 + d).

(** [sprintf(cur, "%02hhx", b)]: two characters and the terminator. *)
Definition sprintf_02x (dest : block) (cur : nat) (b : byte) : res block :=
  d1 ← store dest cur (Some (hex_char (byte.unsigned b / 16)));
  d2 ← store d1 (cur + 1) (Some (hex_char (byte.unsigned b mod 16)));
  store d2 (cur + 2) (Some NUL).

Fixpoint hex_print (src : block) (todo i : nat) (dest : block) : res block :=
  match todo with
  | O => Ok dest
  | S t =>
      b ← load src i;
      dest' ← sprintf_02x dest (2 * i) b;
      hex_print src t (S i) dest'
  end.

Definition hex_dest_size (sz : nat) : nat :=
  if (HEX_PRINT_BUF / 2 <? sz)%nat then (sz * 2)%nat else HEX_PRINT_BUF.

Definition hex_v8value (h : hex_type) : res value :=
  dest ← hex_print (hex_data h) (hex_size h) 0 (replicate (hex_dest_size (hex_size h)) None);
  s ← block_str dest;
  Ok (new_string s).

(** ** The types a [db] or [cursor] is instantiated with *)
Inductive kv_type := Binary | Str | Hex | Num (n : num_kind).

Definition num_name (n : num_kind) : bytes :=
  lit match n with I32 => "int32" | U32 => "uint32" | I64 => "int64" end.

Definition type_name (t : kv_type) : bytes :=
  match t with
  | Binary => lit "binary"
  | Str => lit "string"
  | Hex => lit "hex"
  | Num n => num_name n
  end.

(** The slice [data()], [size()] of an object built from a JavaScript value. *)
Definition kv_encode (t : kv_type) (v : value) : res bytes :=
  match t with
  | Binary => b ← binary_of_value v; load_n (Some <$> bin_data b) (bin_size b)
  | Str => let s := string_of_value v in load_n (Some <$> str_data s) (str_size s)
  | Hex => h ← hex_of_value v; load_n (hex_data h) (hex_size h)
  | Num n => z ← number_of_value n v; Ok (number_data n z)
  end.

(** [T(data, size).v8value()], where [mem] is the memory readable from [data]. *)
Definition kv_decode (t : kv_type) (mem : bytes) (sz : nat) : res value :=
  match t with
  | Binary => binary_v8value (binary_of_data mem sz)
  | Str => string_v8value (string_of_data mem sz)
  | Hex => hex_v8value (hex_of_data mem sz)
  | Num n => number_v8value n <$> number_of_data n mem sz
  end.
End Values.

#[export] Instance kv_type_eq_dec : EqDecision kv_type.
Proof. solve_decision. Defined.

(** ** The comparator for numeric keys *)

(** [lvl_rocks_comparator<T, CT, ST>::get_cmp()]: only numbers have one. *)
Definition get_cmp (t : kv_type) : option num_kind :=
  match t with Num n => Some n | _ => None end.

Definition cmp_Compare (n : num_kind) (a b : bytes) : res Z :=
  ka ← number_of_data n a (length a);
  kb ← number_of_data n b (length b);
  Ok (number_compare ka kb).

Definition cmp_Name (n : num_kind) : bytes := type_name (Num n).

(** Both leave the string they are given as it is. *)
Definition FindShortestSeparator (start limit : bytes) : bytes := start.
Definition FindShortSuccessor (key : bytes) : bytes := key.

(** ** Lemmas: checked memory *)
Lemma store_app {A} (pre rest : list A) x y :
  store (pre ++ x :: rest) (length pre) y = Ok (pre ++ y :: rest).
Proof.
  unfold store. rewrite length_app, (proj2 (Nat.ltb_lt _ _)) by (cbn; lia).
  by rewrite insert_app_r_alt, Nat.sub_diag by lia.
Qed.

Lemma store_oob {A} (dest : list A) i x :
  (length dest <= i)%nat -> store dest i x = Ub OobWrite.
Proof. intros. unfold store. by rewrite (proj2 (Nat.ltb_ge _ _)). Qed.

Lemma load_app (pre rest : block) b : load (pre ++ Some b :: rest) (length pre) = Ok b.
Proof. unfold load. by rewrite lookup_app_r, Nat.sub_diag by lia. Qed.

Lemma load_n_app (bs : bytes) rest :
  load_n ((Some <$> bs) ++ rest) (length bs) = Ok bs.
Proof. induction bs as [|b bs IH]; cbn; [done|]. by rewrite IH. Qed.

Lemma load_n_all (bs : bytes) : load_n (Some <$> bs) (length bs) = Ok bs.
Proof. rewrite <- (app_nil_r (Some <$> bs)). apply load_n_app. Qed.

Lemma block_str_c_str (s : bytes) :
  block_str (Some <$> s) = of_option OobRead (c_str s).
Proof.
  induction s as [|b s IH]; cbn; [done|]. case_decide; [done|].
  rewrite IH. by destruct (c_str s).
Qed.

Lemma block_str_app (s : bytes) rest :
  NUL ∉ s -> block_str ((Some <$> s) ++ Some NUL :: rest) = Ok s.
Proof.
  induction s as [|b s IH]; cbn; intros H; [done|].
  apply not_elem_of_cons in H as [? ?].
  rewrite decide_False by done. by rewrite IH.
Qed.

#[export] Hint Rewrite @store_app load_app load_n_app load_n_all block_str_c_str : kvrw.

(** ** Lemmas: numbers *)
Lemma num_sizeof_pos n : (0 < num_sizeof n)%nat.
Proof. destruct n; cbn; lia. Qed.

Lemma num_wrap_mod n z : num_wrap n (z mod 2 ^ (Z.of_nat (num_sizeof n) * 8)) = num_wrap n z.
Proof.
  destruct n; cbn [num_wrap num_sizeof].
  - by apply wrap_s_mod.
  - unfold wrap_u. apply Zmod_mod.
  - by apply wrap_s_mod.
Qed.

Lemma num_wrap_range n z : num_range n (num_wrap n z).
Proof.
  destruct n; cbn [num_wrap num_range].
  - by apply (wrap_s_range 32).
  - by apply (wrap_u_range 32).
  - by apply (wrap_s_range 64).
Qed.

Lemma num_wrap_small n z : num_range n z -> num_wrap n z = z.
Proof.
  destruct n; cbn [num_wrap num_range]; intros.
  - by apply wrap_s_small.
  - by apply wrap_u_small.
  - by apply wrap_s_small.
Qed.

Lemma wrap_s_mod_out w z : 0 < w -> wrap_s w z mod 2 ^ w = z mod 2 ^ w.
Proof.
  intros. unfold wrap_s. rewrite Zminus_mod_idemp_l. f_equal. lia.
Qed.

Lemma num_wrap_bits n z :
  num_wrap n z mod 2 ^ (Z.of_nat (num_sizeof n) * 8) = z mod 2 ^ (Z.of_nat (num_sizeof n) * 8).
Proof.
  destruct n; cbn [num_wrap num_sizeof].
  - by apply (wrap_s_mod_out 32).
  - unfold wrap_u. apply Zmod_mod.
  - by apply (wrap_s_mod_out 64).
Qed.

Lemma length_number_data n z : length (number_data n z) = num_sizeof n.
Proof. apply length_le_split. Qed.

Lemma number_of_data_app n z rest sz :
  num_range n z -> number_of_data n (number_data n z ++ rest) sz = Ok z.
Proof.
  intros Hz. unfold number_of_data.
  rewrite length_app, length_number_data, (proj2 (Nat.ltb_ge _ _)) by lia.
  rewrite take_app_length' by (by rewrite length_number_data).
  unfold number_data. rewrite le_combine_split, num_wrap_mod, num_wrap_small; done.
Qed.

Lemma number_data_of_data n bs sz z :
  length bs = num_sizeof n -> number_of_data n bs sz = Ok z -> number_data n z = bs.
Proof.
  intros Hl. unfold number_of_data. rewrite Hl, Nat.ltb_irrefl.
  rewrite firstn_all2 by lia. intros [= <-]. unfold number_data.
  rewrite le_split_mod, num_wrap_bits, <- le_split_mod.
  by apply split_le_combine'.
Qed.

Lemma number_of_data_total n bs sz :
  (num_sizeof n <= length bs)%nat -> exists z, number_of_data n bs sz = Ok z /\ num_range n z.
Proof.
  intros. unfold number_of_data. rewrite (proj2 (Nat.ltb_ge _ _)) by done.
  eexists; split; [done|apply num_wrap_range].
Qed.

Lemma number_compare_spec a b :
  (number_compare a b = 0 <-> a = b) /\ (number_compare a b < 0 <-> a < b) /\
  number_compare b a = - number_compare a b.
Proof.
  unfold number_compare. rewrite !Z.gtb_ltb.
  destruct (Z.ltb_spec a b), (Z.ltb_spec b a); lia.
Qed.

(** ** Lemmas: hex strings *)

(** The bytes a hex string denotes, two characters at a time. *)
Fixpoint hex_pairs (s : bytes) : bytes :=
  match s with
  | a :: b :: s' => hex_byte a b :: hex_pairs s'
  | [a] => [hex_byte a NUL]
  | [] => []
  end.

(** The lower-case hex string of some bytes. *)
Definition hex_string (bs : bytes) : bytes :=
  bs ≫= fun b => [hex_char (byte.unsigned b / 16); hex_char (byte.unsigned b mod 16)].

Lemma pair_ind {A} (P : list A -> Prop) :
  P [] -> (forall a, P [a]) -> (forall a b l, P l -> P (a :: b :: l)) -> forall l, P l.
Proof.
  intros H0 H1 H2. fix IH 1. intros [|a [|b l]]; [done|done|]. apply H2, IH.
Qed.

Lemma length_hex_pairs s : length (hex_pairs s) = ((length s + 1) / 2)%nat.
Proof.
  induction s as [|a|a b s IH] using pair_ind; [done|done|].
  cbn [hex_pairs length]. rewrite IH.
  replace (S (S (length s)) + 1)%nat with (length s + 1 + 1 * 2)%nat by lia.
  rewrite Nat.div_add by lia. lia.
Qed.

Lemma length_hex_string bs : length (hex_string bs) = (2 * length bs)%nat.
Proof. induction bs as [|b bs IH]; [done|]. cbn. unfold hex_string in IH. rewrite IH. lia. Qed.

Lemma hex_fill_step src pre_s a b rem t pre x junk :
  src = pre_s ++ a :: b :: rem -> length pre_s = (2 * length pre)%nat ->
  hex_fill src (S t) (length pre) (pre ++ x :: junk) =
  hex_fill src t (S (length pre)) (pre ++ Some (hex_byte a b) :: junk).
Proof.
  intros -> Hl.
  assert ((pre_s ++ a :: b :: rem) !! (2 * length pre)%nat = Some a) as E0
    by (by rewrite lookup_app_r, Hl, Nat.sub_diag by lia).
  assert ((pre_s ++ a :: b :: rem) !! (2 * length pre + 1)%nat = Some b) as E1.
  { rewrite lookup_app_r by lia.
    by replace (2 * length pre + 1 - length pre_s)%nat with 1%nat by lia. }
  cbn [hex_fill]. rewrite E0, E1. cbn [mbind res_bind of_option]. by rewrite store_app.
Qed.

Lemma hex_fill_spec rem : forall src pre_s (pre junk : block),
  src = pre_s ++ rem ++ [NUL] -> length pre_s = (2 * length pre)%nat ->
  (length (hex_pairs rem) <= length junk)%nat ->
  hex_fill src (length (hex_pairs rem)) (length pre) (pre ++ junk) =
  Ok (pre ++ (Some <$> hex_pairs rem) ++ drop (length (hex_pairs rem)) junk).
Proof.
  induction rem as [|a|a b rem IH] using pair_ind; intros src pre_s pre junk Hs Hl Hj.
  - done.
  - destruct junk as [|x junk]; cbn in Hj; [lia|]. cbn [hex_pairs length app].
    rewrite (hex_fill_step src pre_s a NUL []) by done. done.
  - destruct junk as [|x junk]; cbn in Hj; [lia|]. cbn [hex_pairs length].
    rewrite (hex_fill_step src pre_s a b (rem ++ [NUL])) by done.
    specialize (IH src (pre_s ++ [a; b]) (pre ++ [Some (hex_byte a b)]) junk).
    rewrite !length_app in IH. cbn [length] in IH. rewrite Nat.add_1_r, <- !app_assoc in IH.
    cbn [app] in IH. rewrite IH; [done|done|cbn; lia|lia].
Qed.

Section HexValues.
Context `{V : V8}.

(** What [hex_type(val)] stores, whichever buffer it uses. *)
Lemma kv_encode_hex v : kv_encode Hex v = Ok (hex_pairs (utf8 v)).
Proof.
  unfold kv_encode, hex_of_value. rewrite <- length_hex_pairs.
  set (n := length (hex_pairs (utf8 v))).
  assert (forall cap, (n <= cap)%nat ->
    hex_fill (utf8 v ++ [NUL]) n 0 (replicate cap None) =
    Ok ((Some <$> hex_pairs (utf8 v)) ++ drop n (replicate cap None))) as F.
  { intros cap Hc. apply (hex_fill_spec (utf8 v) _ [] []); [done|done|].
    by rewrite length_replicate. }
  rewrite F by (destruct (Nat.ltb_spec HEX_BUF n); lia).
  cbn [mbind res_bind]. destruct (HEX_BUF <? n)%nat; apply load_n_app.
Qed.

Lemma sprintf_02x_app (pre rest : block) b x y z :
  sprintf_02x (pre ++ x :: y :: z :: rest) (length pre) b =
  Ok (pre ++ (Some <$> hex_string [b]) ++ Some NUL :: rest).
Proof.
  unfold sprintf_02x. rewrite store_app. cbn.
  replace (length pre + 1)%nat with (length (pre ++ [Some (hex_char (byte.unsigned b / 16))]))
    by (rewrite length_app; cbn; lia).
  rewrite (cons_middle _ pre), (app_assoc pre), store_app. cbn.
  set (c := hex_char (byte.unsigned b mod 16)).
  rewrite (cons_middle (Some c)), app_assoc.
  replace (length pre + 2)%nat with
    (length ((pre ++ [Some (hex_char (byte.unsigned b / 16))]) ++ [Some c]))
    by (rewrite !length_app; cbn; lia).
  rewrite store_app. by rewrite <- !app_assoc.
Qed.

Lemma sprintf_02x_oob (pre : block) b x y :
  sprintf_02x (pre ++ [x; y]) (length pre) b = Ub OobWrite.
Proof.
  unfold sprintf_02x. rewrite store_app. cbn.
  rewrite (cons_middle _ pre), app_assoc.
  replace (length pre + 1)%nat with (length (pre ++ [Some (hex_char (byte.unsigned b / 16))]))
    by (rewrite length_app; cbn; lia).
  rewrite store_app. cbn. apply store_oob. rewrite !length_app. cbn. lia.
Qed.

Lemma hex_print_step bs0 b src_rest t (pre : block) dest dest' :
  length pre = (2 * length bs0)%nat ->
  sprintf_02x dest (length pre) b = Ok dest' ->
  hex_print ((Some <$> bs0) ++ Some b :: src_rest) (S t) (length bs0) dest =
  hex_print ((Some <$> bs0) ++ Some b :: src_rest) t (S (length bs0)) dest'.
Proof.
  intros Hl Hs. cbn [hex_print].
  rewrite <- (length_fmap Some bs0), load_app, length_fmap. cbn -[Nat.mul].
  rewrite <- Hl, Hs. done.
Qed.

(** Printing [b :: bs] with room for the terminator. *)
Lemma hex_print_fits bs : forall b bs0 src_rest (pre rest : block),
  length pre = (2 * length bs0)%nat -> (2 * length (b :: bs) + 1 <= length rest)%nat ->
  hex_print ((Some <$> bs0 ++ b :: bs) ++ src_rest) (length (b :: bs)) (length bs0) (pre ++ rest)
  = Ok (pre ++ (Some <$> hex_string (b :: bs)) ++ Some NUL :: drop (2 * length (b :: bs) + 1) rest).
Proof.
  induction bs as [|b' bs IH]; intros b bs0 src_rest pre rest Hp Hr;
    destruct rest as [|x [|y [|z rest]]]; cbn in Hr; try lia;
    rewrite fmap_app, <- app_assoc; cbn [fmap list_fmap app length].
  - rewrite (hex_print_step _ _ _ _ pre _ _ Hp (sprintf_02x_app _ _ _ _ _ _)). done.
  - rewrite (hex_print_step _ _ _ _ pre _ _ Hp (sprintf_02x_app _ _ _ _ _ _)).
    rewrite app_assoc.
    specialize (IH b' (bs0 ++ [b]) src_rest (pre ++ (Some <$> hex_string [b])) (Some NUL :: rest)).
    rewrite !length_app, length_fmap, length_hex_string in IH. cbn [length] in IH.
    rewrite Nat.add_1_r, !fmap_app, <- !app_assoc in IH. cbn [fmap list_fmap app length] in IH.
    rewrite <- app_assoc, IH by (cbn; lia).
    rewrite !Nat.add_1_r.
    replace (2 * S (S (length bs)))%nat with (S (S (2 * S (length bs)))) by lia. done.
Qed.

(** Printing into a block that has room for the digits only. *)
Lemma hex_print_overflow bs : forall b bs0 src_rest (pre rest : block),
  length pre = (2 * length bs0)%nat -> length rest = (2 * length (b :: bs))%nat ->
  hex_print ((Some <$> bs0 ++ b :: bs) ++ src_rest) (length (b :: bs)) (length bs0) (pre ++ rest)
  = Ub OobWrite.
Proof.
  induction bs as [|b' bs IH]; intros b bs0 src_rest pre rest Hp Hr.
  - destruct rest as [|x [|y [|z rest]]]; cbn in Hr; try lia.
    rewrite fmap_app, <- app_assoc. cbn [fmap list_fmap app length hex_print].
    rewrite <- (length_fmap Some bs0), load_app, length_fmap. cbn -[Nat.mul].
    by rewrite <- Hp, sprintf_02x_oob.
  - destruct rest as [|x [|y [|z rest]]]; cbn in Hr; try lia.
    rewrite fmap_app, <- app_assoc. cbn [fmap list_fmap app length].
    rewrite (hex_print_step _ _ _ _ pre _ _ Hp (sprintf_02x_app _ _ _ _ _ _)).
    rewrite app_assoc.
    specialize (IH b' (bs0 ++ [b]) src_rest (pre ++ (Some <$> hex_string [b])) (Some NUL :: rest)).
    rewrite !length_app, length_fmap, length_hex_string in IH. cbn [length] in IH.
    rewrite Nat.add_1_r, !fmap_app, <- !app_assoc in IH. cbn [fmap list_fmap app length] in IH.
    rewrite <- app_assoc. apply IH; cbn; lia.
Qed.
End HexValues.

Lemma hex_byte_chars b :
  hex_byte (hex_char (byte.unsigned b / 16)) (hex_char (byte.unsigned b mod 16)) = b.
Proof. by destruct b. Qed.

Lemma hex_pairs_string bs : hex_pairs (hex_string bs) = bs.
Proof.
  induction bs as [|b bs IH]; [done|]. cbn -[hex_byte hex_char].
  rewrite hex_byte_chars. f_equal. apply IH.
Qed.

Lemma plain_hex_char d : 0 <= d < 16 -> 0 < byte.unsigned (hex_char d) < 128.
Proof.
  intros. unfold hex_char. destruct (Z.ltb_spec d 10); rewrite byte_of_Z_small; lia.
Qed.

Lemma plain_hex_string bs : plain (hex_string bs).
Proof.
  induction bs as [|b bs IH]; [constructor|]. pose proof (byte_range b).
  repeat constructor; try apply plain_hex_char; try apply IH.
  - split; [apply Z.div_pos; lia|apply Z.div_lt_upper_bound; lia].
  - split; [apply Z.div_pos; lia|apply Z.div_lt_upper_bound; lia].
  - apply Z.mod_pos_bound; lia.
  - apply Z.mod_pos_bound; lia.
Qed.

Section Decode.
Context `{V : V8}.

Lemma hex_dest_large sz : (512 < sz)%nat -> hex_dest_size sz = (2 * sz)%nat.
Proof.
  intros. unfold hex_dest_size, HEX_PRINT_BUF. change (1025 / 2)%nat with 512%nat.
  rewrite (proj2 (Nat.ltb_lt _ _)) by done. lia.
Qed.

Lemma hex_dest_small sz : (sz <= 512)%nat -> hex_dest_size sz = HEX_PRINT_BUF.
Proof.
  intros. unfold hex_dest_size. change (HEX_PRINT_BUF / 2)%nat with 512%nat.
  by rewrite (proj2 (Nat.ltb_ge _ _)).
Qed.

(** Up to 512 bytes print correctly. *)
Lemma hex_decode_small bs rest :
  (0 < length bs <= 512)%nat ->
  kv_decode Hex (bs ++ rest) (length bs) = Ok (new_string (hex_string bs)).
Proof.
  intros Hl. destruct bs as [|b bs]; [cbn in Hl; lia|].
  unfold kv_decode, hex_v8value, hex_of_data, hex_data. cbn [hex_mem hex_size].
  rewrite hex_dest_small by lia.
  pose proof (hex_print_fits bs b [] (Some <$> rest) [] (replicate HEX_PRINT_BUF None) eq_refl)
    as P.
  rewrite !app_nil_l, <- fmap_app, length_replicate in P. change (length []) with O in P.
  rewrite P by (unfold HEX_PRINT_BUF; cbn in *; lia). cbn [mbind res_bind].
  rewrite block_str_app; [done|]. apply plain_NUL_free, plain_hex_string.
Qed.

(** Beyond 512 bytes the terminator of the last [sprintf] is written past
    the end of the heap buffer. *)
Lemma hex_decode_large bs rest :
  (512 < length bs)%nat -> kv_decode Hex (bs ++ rest) (length bs) = Ub OobWrite.
Proof.
  intros Hl. destruct bs as [|b bs]; [cbn in Hl; lia|].
  unfold kv_decode, hex_v8value, hex_of_data, hex_data. cbn [hex_mem hex_size].
  rewrite hex_dest_large by lia.
  pose proof (hex_print_overflow bs b [] (Some <$> rest) []
                (replicate (2 * length (b :: bs)) None) eq_refl) as P.
  rewrite !app_nil_l, <- fmap_app, length_replicate in P. change (length []) with O in P.
  by rewrite P.
Qed.

(** With no byte to print, the buffer handed to [Nan::New] was never written. *)
Lemma hex_decode_empty mem : kv_decode Hex mem 0 = Ub UninitRead.
Proof. done. Qed.

Lemma string_decode s rest sz :
  NUL ∉ s -> kv_decode Str (s ++ NUL :: rest) sz = Ok (new_string s).
Proof.
  intros. unfold kv_decode, string_v8value, string_of_data. cbn [str_data].
  by rewrite block_str_c_str, c_str_app.
Qed.

Lemma binary_decode bs rest :
  kv_decode Binary (bs ++ rest) (length bs) = Ok (copy_buffer bs).
Proof.
  unfold kv_decode, binary_v8value, binary_of_data. cbn [bin_data bin_size].
  by rewrite fmap_app, load_n_app.
Qed.

Context `{!V8Laws V}.

Lemma string_encode v : kv_encode Str v = Ok (utf8 v ++ [NUL]).
Proof.
  unfold kv_encode, string_of_value. cbn [str_data str_size].
  rewrite WriteUtf8_fits by lia. apply load_n_all.
Qed.

Lemma number_of_value_range n v z : number_of_value n v = Ok z -> num_range n z.
Proof.
  destruct n; cbn [number_of_value num_range].
  - intros [= <-]. apply Int32Value_range.
  - intros [= <-]. apply Uint32Value_range.
  - unfold atoll. destruct (read_sign _) as [sg ds].
    destruct (_ && _) eqn:E; [|done]. intros [= <-].
    apply andb_true_iff in E. lia.
Qed.

Lemma number_of_v8value n z : num_range n z -> number_of_value n (number_v8value n z) = Ok z.
Proof.
  destruct n; cbn [number_of_value num_range number_v8value]; intros.
  - by rewrite Int32Value_new.
  - by rewrite Uint32Value_new.
  - rewrite utf8_new_string; [by apply atoll_sprintf|].
    apply utf8_valid_ascii, plain_ascii, plain_sprintf.
Qed.

Lemma number_decode n v bs rest :
  kv_encode (Num n) v = Ok bs ->
  exists z, number_of_value n v = Ok z /\ num_range n z /\
    kv_decode (Num n) (bs ++ rest) (length bs) = Ok (number_v8value n z).
Proof.
  cbn [kv_encode kv_decode]. destruct (number_of_value n v) as [z|] eqn:E; cbn; [|done].
  intros [= <-]. pose proof (number_of_value_range n v z E).
  exists z. split_and!; [done|done|]. by rewrite number_of_data_app.
Qed.
End Decode.

(** ** Properties *)

Definition is_hex (b : byte) : bool := match hex_digit b with Some _ => true | None => false end.
Definition hex_lower (b : byte) : byte :=
  match hex_digit b with Some d => hex_char d | None => b end.

(** An odd number of digits is completed with a zero. *)
Definition hex_pad (s : bytes) : bytes :=
  if Nat.even (length s) then s else s ++ [Byte.x30].

Lemma hex_digit_facts b :
  is_hex b = true ->
  exists d, hex_digit b = Some d /\ 0 <= d < 16 /\ b <> NUL /\ is_space b = false /\
    b <> Byte.x2d /\ b <> Byte.x2b /\ b <> Byte.x78 /\ b <> Byte.x58.
Proof.
  destruct b; intros H; try discriminate H; vm_compute; eexists; split_and!; done.
Qed.

Lemma hex_byte_digits a b da db :
  hex_digit a = Some da -> hex_digit b = Some db -> hex_byte a b = byte.of_Z (16 * da + db).
Proof.
  intros Ha Hb.
  destruct (hex_digit_facts a) as (? & Ea & _ & An & As & Am & Ap & _);
    [unfold is_hex; by rewrite Ha|].
  destruct (hex_digit_facts b) as (? & Eb & _ & Bn & _ & _ & _ & Bx & BX);
    [unfold is_hex; by rewrite Hb|].
  unfold hex_byte. rewrite (decide_False _ _ Bn). cbn [c_str].
  rewrite !decide_False by done. rewrite decide_True by done. cbn [fmap option_fmap option_map default].
  unfold strtol16, id. cbn [skip_space]. rewrite As. cbn [read_sign].
  rewrite !decide_False by done. unfold skip_0x. rewrite decide_False by (by intros [_ [?|?]]).
  cbn [hex_value]. rewrite Ha, Hb. f_equal. lia.
Qed.

Lemma hex_string_byte da db :
  0 <= da < 16 -> 0 <= db < 16 ->
  hex_string [byte.of_Z (16 * da + db)] = [hex_char da; hex_char db].
Proof.
  intros. cbn. rewrite !byte_of_Z_small by lia. f_equal; [|f_equal]; f_equal.
  - replace (16 * da + db) with (db + da * 16) by lia.
    rewrite Z.div_add, Z.div_small by lia. lia.
  - replace (16 * da + db) with (db + da * 16) by lia.
    rewrite Z.mod_add, Z.mod_small by lia. lia.
Qed.

Lemma hex_string_pair a b :
  is_hex a = true -> is_hex b = true ->
  hex_string [hex_byte a b] = [hex_lower a; hex_lower b].
Proof.
  intros Ha Hb. destruct (hex_digit_facts a Ha) as (da & Ea & Ra & _).
  destruct (hex_digit_facts b Hb) as (db & Eb & Rb & _).
  rewrite (hex_byte_digits a b da db) by done. rewrite hex_string_byte by done.
  unfold hex_lower. by rewrite Ea, Eb.
Qed.

Lemma hex_string_app a b : hex_string (a ++ b) = hex_string a ++ hex_string b.
Proof. unfold hex_string. apply bind_app. Qed.

Lemma hex_byte_end a : hex_byte a NUL = hex_byte a Byte.x30.
Proof. done. Qed.

Lemma hex_string_pairs s :
  forallb is_hex s = true -> hex_string (hex_pairs s) = hex_lower <$> hex_pad s.
Proof.
  induction s as [|a|a b s IH] using pair_ind; cbn [forallb hex_pairs]; intros H.
  - done.
  - rewrite hex_byte_end, hex_string_pair by (done || by destruct (is_hex a)). done.
  - rewrite !andb_true_iff in H. destruct H as (Ha & Hb & Hs).
    change (hex_byte a b :: hex_pairs s) with ([hex_byte a b] ++ hex_pairs s).
    rewrite hex_string_app, hex_string_pair, IH by done.
    unfold hex_pad. cbn [length Nat.even]. by destruct (Nat.even (length s)).
Qed.

(** The JavaScript values a type can store and give back. *)
Definition storable `{V8} (t : kv_type) (v : value) : bool :=
  match t with
  | Binary | Num _ => true
  | Str => utf8_valid (utf8 v) && negb (bool_decide (NUL ∈ utf8 v))
  | Hex => (0 <? length (hex_pairs (utf8 v)))%nat && (length (hex_pairs (utf8 v)) <=? 512)%nat
  end.

Section Properties.
Context (V : V8) (L : V8Laws V).

Lemma kv_roundtrip_gen t (v : value) bs rest :
  kv_encode t v = Ok bs -> storable t v = true ->
  exists v', kv_decode t (bs ++ rest) (length bs) = Ok v' /\ kv_encode t v' = Ok bs.
Proof.
  destruct t as [| | |n]; intros E S.
  - exists (copy_buffer bs). split; [apply binary_decode|].
    cbn. unfold binary_of_value. rewrite buffer_copy. cbn. apply load_n_all.
  - rewrite string_encode in E. injection E as <-.
    cbn in S. apply andb_true_iff in S as [Hv Hn].
    apply negb_true_iff, bool_decide_eq_false in Hn.
    exists (new_string (utf8 v)). split.
    + rewrite <- app_assoc. by apply string_decode.
    + by rewrite string_encode, utf8_new_string.
  - rewrite kv_encode_hex in E. injection E as <-.
    unfold storable in S. apply andb_true_iff in S as [S1%Nat.ltb_lt S2%Nat.leb_le].
    eexists. split; [by apply hex_decode_small|].
    rewrite kv_encode_hex, utf8_new_string, hex_pairs_string; [done|].
    apply utf8_valid_ascii, plain_ascii, plain_hex_string.
  - destruct (number_decode n v bs rest E) as (z & Ez & Rz & D).
    exists (number_v8value n z). split; [done|].
    cbn in E |- *. rewrite number_of_v8value by done. by rewrite Ez in E.
Qed.

(** C37. Every key and value type is a faithful codec on what it can store:
    the bytes written for a JavaScript value are read back, whatever follows
    them in memory, as a value that is written as the same bytes again. *)
Theorem kv_roundtrip t (v : value) bs rest :
  kv_encode t v = Ok bs -> storable t v = true ->
  exists v', kv_decode t (bs ++ rest) (length bs) = Ok v' /\ kv_encode t v' = Ok bs.
Proof. apply kv_roundtrip_gen. Qed.
End Properties.

Lemma kv_roundtrip_witness :
  exists bs v', @kv_encode SimpleV8 Hex (SStr (lit "2DB")) = Ok bs /\
    @kv_decode SimpleV8 Hex (bs ++ [NUL]) (length bs) = Ok v' /\
    @kv_encode SimpleV8 Hex v' = Ok bs.
Proof.
  destruct (kv_roundtrip SimpleV8 SimpleV8_laws Hex (SStr (lit "2DB"))
              [Byte.x2d; Byte.xb0] [NUL]) as (v' & D & E).
  - by vm_compute.
  - by vm_compute.
  - exists [Byte.x2d; Byte.xb0], v'. split; [by vm_compute|]. by split.
Defined.

Section HexProperties.
Context (V : V8).

(** A hex key or value reads back as the text that was stored, in lower
    case and completed to an even number of digits. *)
Theorem hex_text_roundtrip (v : value) rest :
  forallb is_hex (utf8 v) = true -> (0 < length (utf8 v) <= 1024)%nat ->
  exists bs, kv_encode Hex v = Ok bs /\
    kv_decode Hex (bs ++ rest) (length bs) = Ok (new_string (hex_lower <$> hex_pad (utf8 v))).
Proof.
  intros Hh Hl. exists (hex_pairs (utf8 v)). split; [apply kv_encode_hex|].
  rewrite <- hex_string_pairs by done. apply hex_decode_small.
  rewrite length_hex_pairs. split.
  - apply Nat.div_str_pos. lia.
  - apply Nat.lt_succ_r, Nat.Div0.div_lt_upper_bound. lia.
Qed.

(** C40. Printing a hex value of any stored size: up to 512 bytes it is the
    hex string of the bytes; an empty value makes [Nan::New] read an
    uninitialised buffer, and more than 512 bytes overrun the heap buffer,
    which has no room for the terminator of the last [sprintf]. *)
Theorem hex_v8value_bounds (mem : bytes) (sz : nat) :
  (sz <= length mem)%nat ->
  kv_decode Hex mem sz =
  if (sz =? 0)%nat then Ub UninitRead
  else if (512 <? sz)%nat then Ub OobWrite
  else Ok (new_string (hex_string (take sz mem))).
Proof.
  intros Hs. rewrite <- (take_drop sz mem) at 1.
  assert (length (take sz mem) = sz) as Hl by (rewrite length_take; lia).
  revert Hl. generalize (drop sz mem), (take sz mem). intros rest bs <-.
  destruct (Nat.eqb_spec (length bs) 0) as [->|Hz]; [done|].
  destruct (Nat.ltb_spec 512 (length bs)).
  - by apply hex_decode_large.
  - apply hex_decode_small. lia.
Qed.
End HexProperties.

Lemma hex_text_roundtrip_witness :
  exists bs, @kv_encode SimpleV8 Hex (SStr (lit "2DB")) = Ok bs /\
    @kv_decode SimpleV8 Hex (bs ++ []) (length bs) = Ok (SStr (lit "2db0")).
Proof.
  apply (hex_text_roundtrip SimpleV8 (SStr (lit "2DB")) []); [by vm_compute|cbn; lia].
Defined.

Lemma hex_v8value_bounds_witness :
  @kv_decode SimpleV8 Hex (replicate 513 Byte.x61) 513 = Ub OobWrite.
Proof.
  apply (hex_v8value_bounds SimpleV8 (replicate 513 Byte.x61) 513).
  by rewrite length_replicate.
Defined.

(** On keys of the key type's size the numeric comparator is a total order
      that never reads outside a key, orders the keys as the numbers they
      encode, and makes two keys equal only when their bytes are. *)
Theorem number_key_order n (a b c : bytes) :
  length a = num_sizeof n -> length b = num_sizeof n -> length c = num_sizeof n ->
  exists za zb ab ba bc ac,
    number_of_data n a (length a) = Ok za /\ number_of_data n b (length b) = Ok zb /\
    cmp_Compare n a b = Ok ab /\ cmp_Compare n b a = Ok ba /\
    cmp_Compare n b c = Ok bc /\ cmp_Compare n a c = Ok ac /\
    ba = - ab /\ (ab < 0 <-> za < zb) /\ (ab = 0 <-> a = b) /\
    (ab <= 0 -> bc <= 0 -> ac <= 0).
Proof.
  intros Ha Hb Hc.
  destruct (number_of_data_total n a (length a)) as (za & Ea & _); [lia|].
  destruct (number_of_data_total n b (length b)) as (zb & Eb & _); [lia|].
  destruct (number_of_data_total n c (length c)) as (zc & Ec & _); [lia|].
  exists za, zb. unfold cmp_Compare. rewrite Ea, Eb, Ec. cbn. do 4 eexists.
  pose proof (number_compare_spec za zb) as (Q1 & Q2 & Q3).
  pose proof (number_compare_spec zb zc) as (Q4 & Q5 & Q6).
  pose proof (number_compare_spec za zc) as (Q7 & Q8 & Q9).
  split_and!; try done; [|lia]. split; intros E.
  - apply Q1 in E. subst zb.
    rewrite <- (number_data_of_data n a _ za Ha Ea). by eapply number_data_of_data.
  - subst b. apply Q1. congruence.
Qed.

Lemma number_key_order_witness :
  exists ab, cmp_Compare I32 (number_data I32 (-1)) (number_data I32 1) = Ok ab /\ ab < 0.
Proof.
  destruct (number_key_order I32 (number_data I32 (-1)) (number_data I32 1) (number_data I32 1))
    as (za & zb & ab & ba & bc & ac & Ea & Eb & Ec & _ & _ & _ & _ & Hlt & _); try done.
  exists ab. split; [exact Ec|]. apply Hlt.
  vm_compute in Ea, Eb. injection Ea as <-. injection Eb as <-. lia.
Defined.
