(* ===== verification/Exports.v ===== *)
(** * What the addon exports

    The [setup_export] functions, [v8export] of each engine and [init] of
    src/src/node-binding.cpp: constructors with the methods of their prototypes,
    under the names the JavaScript side looks them up by.  A native function is
    known by its engine, its class and its name in C++. *)
From S2P Require Import Prelude Nan KvTypes.

Inductive engine := Lmdb | Level | Rocks.

Inductive cls := CEnv | CTxn | CDb (K V : kv_type) | CCursor (K V : kv_type) | CBatch.

Inductive fn :=
| f_ctor | f_setMapSize | f_setMaxDbs | f_open | f_close | f_sync | f_commit | f_abort | f_reset | f_renew
| f_init | f_get | f_put | f_del | f_exists | f_write | f_clear | f_key | f_value | f_next | f_prev | f_nextDup
| f_prevDup | f_first | f_last | f_firstDup | f_lastDup | f_seek | f_gte.

Record native := Native { n_engine : engine; n_class : cls; n_fn : fn }.

#[export] Instance engine_eq_dec : EqDecision engine.
Proof. solve_decision. Defined.
#[export] Instance cls_eq_dec : EqDecision cls.
Proof. solve_decision. Defined.
#[export] Instance fn_eq_dec : EqDecision fn.
Proof. solve_decision. Defined.
#[export] Instance native_eq_dec : EqDecision native.
Proof. solve_decision. Defined.

(** ** Objects of JavaScript *)
Definition object (A : Type) := list (bytes * A).

(** [Set] replaces a property that is there. *)
Fixpoint obj_set {A} (k : bytes) (v : A) (o : object A) : object A :=
  match o with
  | [] => [(k, v)]
  | (k', v') :: o' => if decide (k' = k) then (k, v) :: o' else (k', v') :: obj_set k v o'
  end.

Fixpoint obj_get {A} (k : bytes) (o : object A) : option A :=
  match o with [] => None | (k', v) :: o' => if decide (k' = k) then Some v else obj_get k o' end.

Record FunctionTemplate := Tpl {
  tpl_ctor : native; tpl_name : bytes; tpl_fields : nat; tpl_proto : object native }.

(** [Nan::New<FunctionTemplate>], [SetClassName], [SetInternalFieldCount] *)
Definition new_template (e : engine) (c : cls) (name : bytes) : FunctionTemplate := Tpl (Native e c f_ctor) name 1 [].

Definition SetPrototypeMethod (t : FunctionTemplate) (name : bytes) (f : fn) : FunctionTemplate :=
  Tpl (tpl_ctor t) (tpl_name t) (tpl_fields t)
    (obj_set name (Native (n_engine (tpl_ctor t)) (n_class (tpl_ctor t)) f) (tpl_proto t)).

Definition methods (t : FunctionTemplate) (l : list (bytes * fn)) : FunctionTemplate :=
  foldl (fun t p => SetPrototypeMethod t (fst p) (snd p)) t l.

Definition exports := object FunctionTemplate.
Definition export (name : bytes) (t : FunctionTemplate) (x : exports) : exports := obj_set name t x.

(** [char class_name[64]; sprintf(class_name, "<prefix>_%s_%s", ...)] *)
Definition CLASS_NAME_SIZE : nat := 64.
Definition class_name (prefix : bytes) (K V : kv_type) : res bytes :=
  let s := prefix ++ lit "_" ++ type_name K ++ lit "_" ++ type_name V in
  if (length s <? CLASS_NAME_SIZE)%nat then Ok s else Ub OobWrite.

(** [KV_TYPE_EACH] *)
Definition kv_types : list kv_type := [Binary; Str; Hex; Num I32; Num U32; Num I64].

Fixpoint each_val (K : kv_type) (f : kv_type -> kv_type -> exports -> res exports) (l : list kv_type) (x : exports) : res exports :=
  match l with [] => Ok x | V :: l' => x ← f K V x; each_val K f l' x end.
Fixpoint each_key (f : kv_type -> kv_type -> exports -> res exports) (l : list kv_type) (x : exports) : res exports :=
  match l with [] => Ok x | K :: l' => x ← each_val K f kv_types x; each_key f l' x end.
Definition kv_type_each (f : kv_type -> kv_type -> exports -> res exports) : exports -> res exports := each_key f kv_types.

(** ** LMDB *)
Definition lmdb_env_setup (x : exports) : exports :=
  export (lit "Env")
    (methods (new_template Lmdb CEnv (lit "Env"))
       [(lit "setMapSize", f_setMapSize); (lit "setMaxDbs", f_setMaxDbs);
        (lit "open", f_open); (lit "close", f_close); (lit "sync", f_sync)]) x.

Definition lmdb_txn_setup (x : exports) : exports :=
  export (lit "Txn")
    (methods (new_template Lmdb CTxn (lit "Txn"))
       [(lit "commit", f_commit); (lit "abort", f_abort); (lit "reset", f_reset); (lit "renew", f_renew)]) x.

Definition lmdb_db_methods : list (bytes * fn) :=
  [(lit "close", f_close); (lit "get", f_get); (lit "put", f_put); (lit "del", f_del); (lit "exists", f_exists)].
Definition lmdb_db_setup (K V : kv_type) (x : exports) : res exports :=
  name ← class_name (lit "DB") K V;
  Ok (export name (methods (new_template Lmdb (CDb K V) name) lmdb_db_methods) x).
Definition lmdb_setup_db_export : exports -> res exports := kv_type_each lmdb_db_setup.

Definition lmdb_cursor_methods : list (bytes * fn) :=
  [(lit "close", f_close); (lit "del", f_del); (lit "key", f_key); (lit "val", f_value);
   (lit "next", f_next); (lit "prev", f_prev); (lit "nextDup", f_nextDup); (lit "prevDup", f_prevDup);
   (lit "seek", f_seek); (lit "gte", f_gte); (lit "first", f_first); (lit "last", f_last)].
Definition lmdb_cursor_setup (K V : kv_type) (x : exports) : res exports :=
  name ← class_name (lit "Cursor") K V;
  Ok (export name (methods (new_template Lmdb (CCursor K V) name) lmdb_cursor_methods) x).
Definition lmdb_setup_cursor_export : exports -> res exports := kv_type_each lmdb_cursor_setup.

Definition lmdb_v8export : res exports :=
  x ← lmdb_setup_db_export (lmdb_txn_setup (lmdb_env_setup []));
  lmdb_setup_cursor_export x.

(** ** LevelDB *)
Definition lvl_db_methods : list (bytes * fn) :=
  [(lit "get", f_get); (lit "put", f_put); (lit "del", f_del); (lit "write", f_write)].
Definition lvl_db_setup (K V : kv_type) (x : exports) : res exports :=
  name ← class_name (lit "DB") K V;
  Ok (export name (methods (new_template Level (CDb K V) name) lvl_db_methods) x).
Definition lvl_setup_db_export : exports -> res exports := kv_type_each lvl_db_setup.

Definition lvl_cursor_methods : list (bytes * fn) :=
  [(lit "key", f_key); (lit "val", f_value); (lit "next", f_next); (lit "prev", f_prev);
   (lit "first", f_first); (lit "last", f_last); (lit "gte", f_gte)].
Definition lvl_cursor_setup (K V : kv_type) (x : exports) : res exports :=
  name ← class_name (lit "Cursor") K V;
  Ok (export name (methods (new_template Level (CCursor K V) name) lvl_cursor_methods) x).
Definition lvl_setup_cursor_export : exports -> res exports := kv_type_each lvl_cursor_setup.

Definition lvl_batch_setup (x : exports) : exports :=
  export (lit "Batch") (methods (new_template Level CBatch (lit "Batch")) [(lit "clear", f_clear)]) x.

Definition lvl_v8export : res exports :=
  x ← lvl_setup_db_export [];
  x ← lvl_setup_cursor_export x;
  Ok (lvl_batch_setup x).

(** ** RocksDB *)
Definition rocks_env_setup (x : exports) : exports :=
  export (lit "Env") (methods (new_template Rocks CEnv (lit "Env")) [(lit "open", f_open)]) x.

Definition rocks_db_methods : list (bytes * fn) :=
  [(lit "init", f_init); (lit "get", f_get); (lit "put", f_put); (lit "del", f_del); (lit "write", f_write)].
Definition rocks_db_setup (K V : kv_type) (x : exports) : res exports :=
  name ← class_name (lit "DB") K V;
  Ok (export name (methods (new_template Rocks (CDb K V) name) rocks_db_methods) x).
Definition rocks_setup_db_export : exports -> res exports := kv_type_each rocks_db_setup.

Definition rocks_cursor_methods : list (bytes * fn) :=
  [(lit "key", f_key); (lit "val", f_value); (lit "next", f_next); (lit "prev", f_prev);
   (lit "first", f_first); (lit "last", f_last); (lit "gte", f_gte)].
Definition rocks_cursor_setup (K V : kv_type) (x : exports) : res exports :=
  name ← class_name (lit "Cursor") K V;
  Ok (export name (methods (new_template Rocks (CCursor K V) name) rocks_cursor_methods) x).
Definition rocks_setup_cursor_export : exports -> res exports := kv_type_each rocks_cursor_setup.

Definition rocks_batch_setup (x : exports) : exports :=
  export (lit "Batch") (methods (new_template Rocks CBatch (lit "Batch")) [(lit "clear", f_clear)]) x.

Definition rocks_v8export : res exports :=
  x ← rocks_setup_db_export (rocks_env_setup []);
  x ← rocks_setup_cursor_export x;
  Ok (rocks_batch_setup x).

(** ** The module *)
Definition init : res (object exports) :=
  a ← lmdb_v8export;
  b ← lvl_v8export;
  c ← rocks_v8export;
  Ok (obj_set (lit "rocksdb") c (obj_set (lit "leveldb") b (obj_set (lit "lmdb") a []))).

(** ** What the JavaScript side looks up *)
Definition engine_name (e : engine) : bytes :=
  lit match e with Lmdb => "lmdb" | Level => "leveldb" | Rocks => "rocksdb" end.

(** [['DB', keyType, valType].join('_')] *)
Definition join_name (prefix kt vt : bytes) : bytes := prefix ++ lit "_" ++ kt ++ lit "_" ++ vt.

(** [binding.<engine>[name]] *)
Definition binding_class (e : engine) (name : bytes) : option FunctionTemplate :=
  match init with Ok b => x ← obj_get (engine_name e) b; obj_get name x | Ub _ => None end.

(** ** Lookups *)
Definition type_of_name (s : bytes) : option kv_type := snd <$> list_find (fun K => type_name K = s) kv_types.

(** ** What the JavaScript side calls

    The native objects the classes of lib/ hold, and for each file of lib/ the
    methods it calls on them. *)
Inductive holder := WEnv | WTxn | WDb | WCursor | WBatch.

#[export] Instance holder_eq_dec : EqDecision holder.
Proof. solve_decision. Defined.

Definition calls := list (holder * bytes).

Definition lmdb_env_calls : calls :=
  [(WEnv, lit "setMapSize"); (WEnv, lit "setMaxDbs"); (WEnv, lit "open"); (WEnv, lit "sync"); (WEnv, lit "close")].
Definition lmdb_txn_calls : calls :=
  [(WTxn, lit "commit"); (WTxn, lit "abort"); (WTxn, lit "reset"); (WTxn, lit "renew")].
Definition lmdb_db_calls : calls :=
  [(WDb, lit "close"); (WDb, lit "get"); (WDb, lit "exists"); (WDb, lit "put"); (WDb, lit "del")].
Definition lmdb_cursor_calls : calls :=
  pair WCursor <$> [lit "key"; lit "val"; lit "close"; lit "del"; lit "next"; lit "prev"; lit "nextDup"; lit "prevDup";
                    lit "first"; lit "last"; lit "firstDup"; lit "lastDup"; lit "seek"; lit "gte"].

Definition lvl_db_calls : calls := [(WDb, lit "get"); (WDb, lit "put"); (WDb, lit "del")].
Definition lvl_batch_calls : calls := [(WBatch, lit "clear"); (WDb, lit "write")].
Definition lvl_cursor_calls : calls :=
  pair WCursor <$> [lit "key"; lit "val"; lit "next"; lit "prev"; lit "first"; lit "last"; lit "gte"].

Definition rocks_env_calls : calls := [(WEnv, lit "open"); (WDb, lit "init")].
Definition rocks_db_calls : calls := [(WDb, lit "get"); (WDb, lit "put"); (WDb, lit "del")].
Definition rocks_batch_calls : calls := [(WBatch, lit "clear"); (WDb, lit "write")].
Definition rocks_cursor_calls : calls :=
  pair WCursor <$> [lit "key"; lit "val"; lit "next"; lit "prev"; lit "first"; lit "last"; lit "gte"].

Definition js_calls (e : engine) : calls :=
  match e with
  | Lmdb => lmdb_env_calls ++ lmdb_txn_calls ++ lmdb_db_calls ++ lmdb_cursor_calls
  | Level => lvl_db_calls ++ lvl_batch_calls ++ lvl_cursor_calls
  | Rocks => rocks_env_calls ++ rocks_db_calls ++ rocks_batch_calls ++ rocks_cursor_calls
  end.

(** The class of such an object: one for all, or one for the types [kt], [vt]. *)
Definition class_wanted (w : holder) (kt vt : bytes) : option cls :=
  match w with
  | WEnv => Some CEnv
  | WTxn => Some CTxn
  | WBatch => Some CBatch
  | WDb => K ← type_of_name kt; V ← type_of_name vt; Some (CDb K V)
  | WCursor => K ← type_of_name kt; V ← type_of_name vt; Some (CCursor K V)
  end.

(** The name it is looked up by. *)
Definition name_wanted (w : holder) (kt vt : bytes) : bytes :=
  match w with
  | WEnv => lit "Env"
  | WTxn => lit "Txn"
  | WBatch => lit "Batch"
  | WDb => join_name (lit "DB") kt vt
  | WCursor => join_name (lit "Cursor") kt vt
  end.

(** The name of a function in C++, and the one it has in JavaScript. *)
Definition fn_name (f : fn) : bytes :=
  lit match f with
      | f_ctor => "ctor" | f_setMapSize => "setMapSize" | f_setMaxDbs => "setMaxDbs" | f_open => "open" | f_close => "close"
      | f_sync => "sync" | f_commit => "commit" | f_abort => "abort" | f_reset => "reset" | f_renew => "renew" | f_init => "init"
      | f_get => "get" | f_put => "put" | f_del => "del" | f_exists => "exists" | f_write => "write" | f_clear => "clear"
      | f_key => "key" | f_value => "value" | f_next => "next" | f_prev => "prev" | f_nextDup => "nextDup" | f_prevDup => "prevDup"
      | f_first => "first" | f_last => "last" | f_firstDup => "firstDup" | f_lastDup => "lastDup" | f_seek => "seek" | f_gte => "gte"
      end.
Definition js_fn_name (f : fn) : bytes := match f with f_value => lit "val" | _ => fn_name f end.

(** The methods that are called and not there. *)
Definition unbound (e : engine) (w : holder) (m : bytes) : bool :=
  bool_decide (e = Lmdb /\ w = WCursor /\ (m = lit "firstDup" \/ m = lit "lastDup")).

(** [t] is the class [c]: objects have room for the pointer to the native
    object, each method of the prototype is the function of [c] it is named
    after, and the methods that are called are there. *)
Definition class_good (e : engine) (w : holder) (c : cls) (name : bytes) (t : FunctionTemplate) : bool :=
  bool_decide (tpl_ctor t = Native e c f_ctor) && bool_decide (tpl_name t = name) && bool_decide (tpl_fields t = 1%nat) &&
  forallb (fun p => bool_decide (n_engine (snd p) = e /\ n_class (snd p) = c /\ js_fn_name (n_fn (snd p)) = fst p)) (tpl_proto t) &&
  forallb (fun q => bool_decide (fst q <> w) || bool_decide (is_Some (obj_get (snd q) (tpl_proto t))) && negb (unbound e w (snd q)) ||
                    bool_decide (obj_get (snd q) (tpl_proto t) = None) && unbound e w (snd q)) (js_calls e).

Definition typed_names (prefix : bytes) : list bytes :=
  K ← kv_types; V ← kv_types; [join_name prefix (type_name K) (type_name V)].

Lemma join_split c kt vt x y :
  c ∉ x -> c ∉ y -> kt ++ c :: vt = x ++ c :: y :> bytes -> kt = x /\ vt = y.
Proof.
  revert x. induction kt as [|a kt IH]; intros [|b x] Hx Hy E; cbn in E.
  - by injection E as ->.
  - injection E as -> _. destruct Hx. by left.
  - injection E as -> <-. destruct Hy. apply elem_of_app. right. by left.
  - injection E as -> E. apply not_elem_of_cons in Hx as [_ Hx]. destruct (IH x Hx Hy E) as [-> ->]. done.
Qed.

Lemma obj_get_in {A} k (o : object A) v : obj_get k o = Some v -> k ∈ fst <$> o.
Proof.
  induction o as [|[k' v'] o IH]; [done|]. cbn. case_decide as E; [intros _; subst; by left|]. intros H%IH. by right.
Qed.

(** The names that are exported, by computation. *)
Definition other_names : list bytes := [lit "Env"; lit "Txn"; lit "Batch"].

Lemma exported_names e x : (match init with Ok b => obj_get (engine_name e) b | Ub _ => None end) = Some x ->
  forall n, n ∈ fst <$> x -> n ∈ other_names \/ n ∈ typed_names (lit "DB") \/ n ∈ typed_names (lit "Cursor").
Proof.
  intros E n Hn. apply list_elem_of_In in Hn.
  assert (forallb (fun n => bool_decide (n ∈ other_names ++ typed_names (lit "DB") ++ typed_names (lit "Cursor"))) (fst <$> x) = true) as HF.
  { destruct e; vm_compute in E; injection E as <-; vm_compute; reflexivity. }
  rewrite forallb_forall in HF. specialize (HF n Hn). apply bool_decide_eq_true in HF. by rewrite !elem_of_app in HF.
Qed.

Lemma typed_name_inv p kt vt : p = lit "DB" \/ p = lit "Cursor" ->
  join_name p kt vt ∈ other_names \/ join_name p kt vt ∈ typed_names (lit "DB") \/ join_name p kt vt ∈ typed_names (lit "Cursor") ->
  exists K V, kt = type_name K /\ vt = type_name V.
Proof.
  intros Hp Hin. assert (HU : forall K, Byte.x5f ∉ type_name K) by (intros K; apply (bool_decide_unpack _); by destruct K as [| | |[]]).
  assert (HT : forall q, join_name p kt vt ∈ typed_names q -> q = p -> exists K V, kt = type_name K /\ vt = type_name V).
  { intros q (K & HK & _)%list_elem_of_bind ->. apply list_elem_of_bind in HK as (V & HV & _).
    apply list_elem_of_singleton in HV. unfold join_name in HV. apply app_inv_head in HV. cbn in HV. injection HV as HV.
    destruct (join_split Byte.x5f kt vt (type_name K) (type_name V) (HU K) (HU V) HV). by exists K, V. }
  assert (HX : forall q, q <> p -> q = lit "DB" \/ q = lit "Cursor" -> join_name p kt vt ∈ typed_names q -> False).
  { intros q Hne Hq (K & HK & _)%list_elem_of_bind. apply list_elem_of_bind in HK as (V & HV & _).
    apply list_elem_of_singleton in HV. destruct Hp as [-> | ->], Hq as [-> | ->]; try done. }
  destruct Hin as [Ho|[Hd|Hc]].
  - exfalso. destruct Hp as [-> | ->]; cbn in Ho; repeat (apply elem_of_cons in Ho as [Ho|Ho]; [discriminate Ho|]); by apply elem_of_nil in Ho.
  - destruct (decide (lit "DB" = p)); [by eapply HT|]. destruct (HX (lit "DB")); [done|by left|done].
  - destruct (decide (lit "Cursor" = p)); [by eapply HT|]. destruct (HX (lit "Cursor")); [done|by right|done].
Qed.

Lemma type_of_name_spec K : type_of_name (type_name K) = Some K.
Proof. by destruct K as [| | |[]]. Qed.

Lemma type_of_name_inv s K : type_of_name s = Some K -> s = type_name K.
Proof.
  unfold type_of_name. destruct (list_find _ _) as [[i K']|] eqn:E; [|done]. intros [= ->].
  apply list_find_Some in E as (_ & <- & _). done.
Qed.

Lemma binding_unknown e p kt vt : p = lit "DB" \/ p = lit "Cursor" -> ~ (exists K V, kt = type_name K /\ vt = type_name V) ->
  binding_class e (join_name p kt vt) = None.
Proof.
  intros Hp Hno. destruct (binding_class e (join_name p kt vt)) as [t|] eqn:E; [|done]. destruct Hno.
  apply (typed_name_inv p kt vt Hp). unfold binding_class in E. pose proof (exported_names e) as HE.
  destruct init as [b|]; [|done]. destruct (obj_get (engine_name e) b) as [x|]; [|done]. cbn in E.
  eapply (HE x eq_refl). by eapply obj_get_in.
Qed.

(** The check of all classes there are, by computation. *)
Definition found_good (e : engine) (w : holder) (kt vt : bytes) : bool :=
  match class_wanted w kt vt, binding_class e (name_wanted w kt vt) with
  | Some c, Some t => class_good e w c (name_wanted w kt vt) t
  | _, _ => false
  end.

Lemma types_checked e w K V : w ∈ fst <$> js_calls e -> found_good e w (type_name K) (type_name V) = true.
Proof.
  intros Hw. assert (forallb (fun w => forallb (fun K => forallb (fun V => found_good e w (type_name K) (type_name V)) kv_types) kv_types)
    (fst <$> js_calls e) = true) as H by (destruct e; vm_compute; reflexivity).
  assert (HK : forall K, In K kv_types) by (intros K'; apply list_elem_of_In, (bool_decide_unpack _); by destruct K' as [| | |[]]).
  rewrite forallb_forall in H. specialize (H w (proj1 (list_elem_of_In _ _) Hw)). rewrite forallb_forall in H.
  specialize (H K (HK K)). rewrite forallb_forall in H. exact (H V (HK V)).
Qed.

Lemma classes_checked e w kt vt c : w ∈ fst <$> js_calls e -> class_wanted w kt vt = Some c -> found_good e w kt vt = true.
Proof.
  intros Hw Hc. destruct w; cbn [class_wanted] in Hc; try (exact (types_checked e _ Binary Binary Hw));
    (destruct (type_of_name kt) as [K|] eqn:EK; [|done]); (destruct (type_of_name vt) as [V|] eqn:EV; [|done]);
    apply type_of_name_inv in EK as ->; apply type_of_name_inv in EV as ->; by apply types_checked.
Qed.

Lemma class_unknown e w kt vt : class_wanted w kt vt = None -> binding_class e (name_wanted w kt vt) = None.
Proof.
  intros Hc. destruct w; try done; cbn [class_wanted name_wanted] in Hc |- *; (apply binding_unknown; [auto|]); intros (K & V & -> & ->);
    by rewrite !type_of_name_spec in Hc.
Qed.

(** C23. The addon can be loaded - no class name overruns its buffer of 64
    bytes - and has what lib/ asks of it.  The name lib/ builds from two strings
    finds a class if and only if both are names of types, and then the one for
    these types; its objects have room for the pointer to the native object;
    every method of its prototype is the function of that class it is named
    after ([val] is [value]); and every method that the files of lib/ call on
    such an object is there, but for [firstDup] and [lastDup] of LMDB cursors,
    which are written in C++ and never put on the prototype. *)
Theorem classes_by_type e w kt vt :
  w ∈ fst <$> js_calls e ->
  (exists b, init = Ok b) /\
  match class_wanted w kt vt with
  | None => binding_class e (name_wanted w kt vt) = None
  | Some c => exists t, binding_class e (name_wanted w kt vt) = Some t /\
      tpl_ctor t = Native e c f_ctor /\ tpl_name t = name_wanted w kt vt /\ tpl_fields t = 1%nat /\
      (forall m g, (m, g) ∈ tpl_proto t -> n_engine g = e /\ n_class g = c /\ js_fn_name (n_fn g) = m) /\
      (forall m, (w, m) ∈ js_calls e -> is_Some (obj_get m (tpl_proto t)) <-> unbound e w m = false)
  end.
Proof.
  intros Hw. split; [eexists; vm_compute; reflexivity|]. destruct (class_wanted w kt vt) as [c|] eqn:Hc; [|by apply class_unknown].
  pose proof (classes_checked e w kt vt c Hw Hc) as HF. unfold found_good in HF. rewrite Hc in HF.
  destruct (binding_class e (name_wanted w kt vt)) as [t|]; [|done]. exists t. split; [done|]. unfold class_good in HF.
  rewrite !andb_true_iff, !bool_decide_eq_true, !forallb_forall in HF. destruct HF as [[[[H1 H2] H3] H4] H5]. split_and!; try done.
  - intros m g Hin%list_elem_of_In. by specialize (H4 _ Hin); apply bool_decide_eq_true in H4.
  - intros m Hin%list_elem_of_In. specialize (H5 _ Hin). cbn [fst snd] in H5. rewrite bool_decide_eq_false_2 in H5 by (intros Hn; by apply Hn).
    destruct (unbound e w m); cbn in H5; rewrite ?andb_true_r, ?andb_false_r, ?orb_false_r, ?orb_false_l in H5; apply bool_decide_eq_true in H5.
    + rewrite H5. by split; [intros [? [=]]|].
    + done.
Qed.

Lemma classes_by_type_witness :
  exists t, binding_class Lmdb (lit "Cursor_int32_string") = Some t /\
    is_Some (obj_get (lit "val") (tpl_proto t)) /\ ~ is_Some (obj_get (lit "firstDup") (tpl_proto t)).
Proof.
  destruct (classes_by_type Lmdb WCursor (lit "int32") (lit "string")) as (_ & t & Ht & _ & _ & _ & _ & Hc).
  - apply (bool_decide_unpack _). vm_compute. reflexivity.
  - exists t. split; [exact Ht|]. split.
    + apply Hc; [apply (bool_decide_unpack _); vm_compute; reflexivity|vm_compute; reflexivity].
    + intros HS. apply Hc in HS; [vm_compute in HS; discriminate HS|apply (bool_decide_unpack _); vm_compute; reflexivity].
Defined.
