(* ===== verification/JsSanitize.v ===== *)
(** * The checks of lib/sanitize.js

    What the JavaScript side does to a key or value of a type before it is given
    to the addon: a value or an exception.  A string is its UTF-8 bytes; a regular
    expression of ASCII characters sees the same string in both encodings. *)
From S2P Require Import Prelude Nan KvTypes.

(** The value of an expression, or the message of the [Error] it throws. *)
Inductive jsx (A : Type) := Thrown (msg : bytes) | Value (a : A).
Arguments Thrown {A} msg.
Arguments Value {A} a.

#[export] Instance jsx_ret : MRet jsx := fun A a => Value a.
#[export] Instance jsx_bind : MBind jsx := fun A B f x => match x with Thrown m => Thrown m | Value a => f a end.

(** ** [parseInt] *)
Definition in_range (lo hi : Z) (b : byte) : bool := (lo <=? byte.unsigned b) && (byte.unsigned b <=? hi).
Definition is_byte (z : Z) (b : byte) : bool := byte.unsigned b =? z.

(** White space and line terminators of ECMAScript, in UTF-8. *)
Definition ws2 (a b : byte) : bool := is_byte 0xc2 a && is_byte 0xa0 b.
Definition ws3 (a b c : byte) : bool :=
  (is_byte 0xef a && is_byte 0xbb b && is_byte 0xbf c) ||
  (is_byte 0xe1 a && is_byte 0x9a b && is_byte 0x80 c) ||
  (is_byte 0xe2 a && is_byte 0x80 b && (in_range 0x80 0x8a c || is_byte 0xa8 c || is_byte 0xa9 c || is_byte 0xaf c)) ||
  (is_byte 0xe2 a && is_byte 0x81 b && is_byte 0x9f c) ||
  (is_byte 0xe3 a && is_byte 0x80 b && is_byte 0x80 c).

Fixpoint skip_js_space (s : bytes) : bytes :=
  match s with
  | a :: s1 =>
      if is_space a then skip_js_space s1
      else
        match s1 with
        | b :: s2 =>
            if ws2 a b then skip_js_space s2
            else match s2 with c :: s3 => if ws3 a b c then skip_js_space s3 else s | [] => s end
        | [] => s
        end
  | [] => []
  end.

(** The integer at the start of a string, [None] for NaN. *)
Definition parseInt (s : bytes) : option Z :=
  let '(sg, ds) := read_sign (skip_js_space s) in
  let xs := skip_0x ds in
  if decide (xs = ds) then
    match ds with b :: _ => if is_digit b then Some (sg * dec_value 0 ds) else None | [] => None end
  else
    match xs with b :: _ => if bool_decide (is_Some (hex_digit b)) then Some (sg * hex_value 0 xs) else None | [] => None end.

(** ** The regular expressions *)

(** [/^-?\d+$/] *)
Definition int64_text (s : bytes) : bool :=
  let ds := match s with b :: s' => if decide (b = Byte.x2d) then s' else s | [] => s end in
  negb (bool_decide (ds = [])) && forallb is_digit ds.

(** [/^[0-9a-fA-F]+$/] *)
Definition hex_text (s : bytes) : bool :=
  negb (bool_decide (s = [])) && forallb (fun b => bool_decide (is_Some (hex_digit b))) s.

Section Sanitize.
Context `{V8}.

Definition sanitize_string (v : value) : jsx value := Value v.

Definition sanitize_int32 (v : value) : jsx value :=
  match parseInt (utf8 v) with
  | None => Thrown (lit "int32: Invalid data type.")
  | Some z => Value (new_number z)
  end.

Definition sanitize_uint32 (v : value) : jsx value :=
  match parseInt (utf8 v) with
  | None => Thrown (lit "uint32: Invalid data type.")
  | Some z => if z <? 0 then Thrown (lit "uint32: Invalid data type.") else Value (new_number z)
  end.

Definition sanitize_int64 (v : value) : jsx value :=
  if negb (int64_text (utf8 v)) then Thrown (lit "int64: Invalid data type.") else Value v.

Definition sanitize_hex (v : value) : jsx value :=
  if negb (hex_text (utf8 v)) then Thrown (lit "hex: Invalid data type.") else Value v.

Definition sanitize_binary (v : value) : jsx value :=
  match buffer_data v with None => Thrown (lit "binary: Invalid data type.") | Some _ => Value v end.

(** [sanitize[type]] *)
Definition sanitize (t : kv_type) : value -> jsx value :=
  match t with
  | Binary => sanitize_binary
  | Str => sanitize_string
  | Hex => sanitize_hex
  | Num I32 => sanitize_int32
  | Num U32 => sanitize_uint32
  | Num I64 => sanitize_int64
  end.

(** ** What is stored for a value that was let through *)
Definition stored (t : kv_type) (v : value) : res bytes :=
  match t with
  | Binary => of_option BadUnwrap (buffer_data v)
  | Str => Ok (utf8 v ++ [NUL])
  | Hex => Ok (hex_pairs (utf8 v))
  | Num I64 =>
      let z := let '(sg, ds) := read_sign (utf8 v) in sg * dec_value 0 ds in
      if (- 2 ^ 63 <=? z) && (z <? 2 ^ 63) then Ok (le_split 8 z) else Ub SignedOverflow
  | Num _ => z ← of_option BadConvert (parseInt (utf8 v)); Ok (le_split 4 (double_of z))
  end.

Lemma int64_no_space s : int64_text s = true -> skip_space s = s.
Proof.
  unfold int64_text. destruct s as [|b s]; [done|]. intros [_ Hs]%andb_true_iff. cbn. case_decide as E; [by subst b|].
  cbn in Hs. apply andb_true_iff in Hs as [Hb _]. assert (is_space b = false) as ->; [|done].
  unfold is_digit in Hb. unfold is_space. lia.
Qed.

Lemma le_split_num n z : le_split (num_sizeof n) (num_wrap n z) = le_split (num_sizeof n) z.
Proof. by rewrite le_split_mod, num_wrap_bits, <- le_split_mod. Qed.

(** C22. What lib/sanitize.js lets through can be stored, and as what: a buffer
    and a string as they are, a hex string as its bytes, an [int64] as its
    value, and an [int32] or [uint32] as the double nearest to the integer the
    string starts with, modulo 2^32 - so integers up to 2^53 that differ by a
    multiple of 2^32 are one key, and larger ones first lose their low bits;
    nothing checks that they fit.  There is one hole: the digits of an [int64]
    are counted by nobody, and one outside 64 bits makes [atoll] overflow. *)
Theorem sanitized_stored `{L : !V8Laws _} t v v' :
  sanitize t v = Value v' ->
  kv_encode t v' = stored t v /\
  (t = Num I32 \/ t = Num U32 -> exists z, parseInt (utf8 v) = Some z /\
     (- 2 ^ 53 <= z <= 2 ^ 53 -> kv_encode t v' = Ok (le_split 4 z))).
Proof.
  intros E. assert (Hst : kv_encode t v' = stored t v).
  2: { split; [done|]. rewrite Hst. intros [-> | ->]; cbn in E |- *; unfold sanitize_int32, sanitize_uint32 in E;
       (destruct (parseInt (utf8 v)) as [z|]; [|done]); exists z; (split; [done|]); intros Hz; cbn; by rewrite double_exact. }
  destruct t as [| | |[]]; cbn [sanitize] in E.
  - unfold sanitize_binary in E. destruct (buffer_data v) as [b|] eqn:Hb; [|done]. injection E as <-.
    cbn. unfold binary_of_value. rewrite Hb. cbn. apply load_n_all.
  - injection E as <-. apply string_encode.
  - unfold sanitize_hex in E. destruct (negb _); [done|]. injection E as <-. apply kv_encode_hex.
  - unfold sanitize_int32 in E. cbn.
    destruct (parseInt (utf8 v)) as [z|]; [|done]. injection E as <-. rewrite Int32Value_number. cbn. f_equal.
    apply (le_split_num I32).
  - unfold sanitize_uint32 in E. cbn.
    destruct (parseInt (utf8 v)) as [z|]; [|done]. destruct (z <? 0); [done|]. injection E as <-.
    rewrite Uint32Value_number. cbn. f_equal. apply (le_split_num U32).
  - unfold sanitize_int64 in E. destruct (int64_text (utf8 v)) eqn:Ht; [|done]. injection E as <-. cbn. unfold atoll.
    rewrite int64_no_space by done. destruct (read_sign (utf8 v)) as [sg ds]. by destruct (_ && _).
Qed.
End Sanitize.

Lemma sanitized_stored_witness :
  @kv_encode SimpleV8 (Num I32) (SNum 9007199254740992) = @stored SimpleV8 (Num I32) (SStr (lit " 9007199254740993px")).
Proof.
  apply (@sanitized_stored SimpleV8 SimpleV8_laws (Num I32) (SStr (lit " 9007199254740993px")) (SNum 9007199254740992)).
  vm_compute. reflexivity.
Defined.
