(* ===== verification/Prog.v ===== *)
(** * Programs that call an engine

    The bindings are straight-line C++ around calls into LMDB, LevelDB and
    RocksDB.  A method is a [prog]: a tree of engine calls, a result, or
    undefined behaviour of the method itself.  [run] executes a program on an
    engine; [wp] is what must hold of an engine's abstract state for the
    program to make only calls the engine's contract allows and to end in a
    postcondition, whatever the engine answers within its specification.
    [run_sound] connects the two: on an engine that conforms to the
    specification the program runs to completion and ends as [wp] says. *)
From S2P Require Import Prelude.

Section Prog.
Context {E : Type -> Type}.

Inductive prog (A : Type) : Type :=
| Ret (a : A)
| Crash (u : ub)
| Call (X : Type) (c : E X) (k : X -> prog A).

Fixpoint prog_bind' {A B} (f : A -> prog B) (p : prog A) : prog B :=
  match p with
  | Ret _ a => f a
  | Crash _ u => Crash _ u
  | Call _ X c k => Call _ X c (fun x => prog_bind' f (k x))
  end.
End Prog.
Arguments prog E A : clear implicits.
Arguments Ret {E A} a.
Arguments Crash {E A} u.
Arguments Call {E A X} c k.

#[export] Instance prog_ret {E} : MRet (prog E) := @Ret E.
#[export] Instance prog_bind {E} : MBind (prog E) := @prog_bind' E.

Definition call {E X} (c : E X) : prog E X := Call c Ret.

(** A computation of the method itself. *)
Definition lift {E A} (r : res A) : prog E A :=
  match r with Ok a => Ret a | Ub u => Crash u end.

(** ** Execution *)
Inductive outcome (A : Type) :=
| Done (a : A)
| Undefined (u : ub).
Arguments Done {A} a.
Arguments Undefined {A} u.

Section Run.
Context {E : Type -> Type} {W : Type} (H : forall X, E X -> W -> X * W).

Fixpoint run {A} (p : prog E A) (w : W) : outcome A * W :=
  match p with
  | Ret a => (Done a, w)
  | Crash u => (Undefined u, w)
  | Call c k => let '(x, w') := H _ c w in run (k x) w'
  end.

Lemma run_bind {A B} (f : A -> prog E B) (p : prog E A) w :
  run (p ≫= f) w =
  match run p w with
  | (Done a, w') => run (f a) w'
  | (Undefined u, w') => (Undefined u, w')
  end.
Proof.
  revert w. induction p as [a|u|X c k IH]; intros w; cbn; [done|done|].
  destruct (H X c w) as [x w']. apply IH.
Qed.
End Run.

(** ** Specifications of an engine *)
Record api (E : Type -> Type) := Api {
  ast : Type;                                       (* abstract state *)
  allowed : forall X, ast -> E X -> Prop;           (* the caller's obligation *)
  answers : forall X, ast -> E X -> X -> ast -> Prop  (* the engine's promise *)
}.
Arguments Api {E} _ _ _.
Arguments ast {E} a.
Arguments allowed {E} a {X} _ _.
Arguments answers {E} a {X} _ _ _ _.

Section Wp.
Context {E : Type -> Type} (S : api E).

(** [wpu U p s Q]: every call [p] makes from [s] is allowed, it ends in [Q],
    and the only undefined behaviour of its own it can run into is in [U]. *)
Fixpoint wpu (U : ub -> Prop) {A} (p : prog E A) (s : ast S) (Q : A -> ast S -> Prop) : Prop :=
  match p with
  | Ret a => Q a s
  | Crash u => U u
  | Call c k => allowed S s c /\ forall x s', answers S s c x s' -> wpu U (k x) s' Q
  end.

Lemma wpu_mono (U U' : ub -> Prop) {A} (p : prog E A) s (Q R : A -> ast S -> Prop) :
  wpu U p s Q -> (forall u, U u -> U' u) -> (forall a s', Q a s' -> R a s') -> wpu U' p s R.
Proof.
  revert s. induction p as [a|u|X c k IH]; intros s; cbn; [auto|auto|].
  intros [Ha Hk] HU HQ. split; [done|]. intros x s' Hx. by apply IH; [apply Hk| |].
Qed.

Lemma wpu_bind U {A B} (f : A -> prog E B) (p : prog E A) s Q :
  wpu U (p ≫= f) s Q <-> wpu U p s (fun a s' => wpu U (f a) s' Q).
Proof.
  revert s. induction p as [a|u|X c k IH]; intros s; cbn; [done|done|].
  split; intros [Ha Hk]; (split; [done|]); intros x s' Hx; apply IH, Hk, Hx.
Qed.

(** The results a program may end with, given what the engine may answer. *)
Inductive may {A} : prog E A -> ast S -> A -> ast S -> Prop :=
| may_ret a s : may (Ret a) s a s
| may_call X (c : E X) k s x s1 a s2 :
    answers S s c x s1 -> may (k x) s1 a s2 -> may (Call c k) s a s2.

Lemma wpu_may U {A} (p : prog E A) s Q a s' : wpu U p s Q -> may p s a s' -> Q a s'.
Proof. intros H M. revert H. induction M; cbn; [done|]. intros [_ H']. eauto. Qed.

Lemma wpu_result U {A} (p : prog E A) s Q :
  wpu U p s Q -> wpu U p s (fun a s' => may p s a s' /\ Q a s').
Proof.
  revert s. induction p as [a|u|X c k IH]; intros s; cbn; [|done|].
  - intros HQ. split; [constructor|done].
  - intros [Ha Hk]. split; [done|]. intros x s1 Hx.
    eapply wpu_mono; [exact (IH x s1 (Hk x s1 Hx))|done|]. intros a s2 [HM HQ]. split; [by econstructor|done].
Qed.

(** ** Engines *)
Class Engine {W : Type} (H : forall X, E X -> W -> X * W) (R : W -> ast S -> Prop) : Prop :=
  conforms : forall X (c : E X) w s, R w s -> allowed S s c ->
    exists s', answers S s c (fst (H X c w)) s' /\ R (snd (H X c w)) s'.

Definition ends {A W} (U : ub -> Prop) (Q : A -> ast S -> Prop) (R : W -> ast S -> Prop)
    (r : outcome A * W) : Prop :=
  match fst r with
  | Done a => exists s', R (snd r) s' /\ Q a s'
  | Undefined u => U u
  end.

Lemma run_sound U {A W} (H : forall X, E X -> W -> X * W) (R : W -> ast S -> Prop)
    `{!Engine H R} (p : prog E A) w s Q :
  R w s -> wpu U p s Q -> ends U Q R (run H p w).
Proof.
  revert w s. induction p as [a|u|X c k IH]; intros w s HR; cbn; [|done|].
  - intros HQ. by exists s.
  - intros [Ha Hk]. destruct (conforms X c w s HR Ha) as (s' & Hs & HR').
    destruct (H X c w) as [x w']. cbn in *. apply (IH x w' s' HR'), Hk, Hs.
Qed.

(** A run of a conforming engine is one of the possible results. *)
Lemma run_may U {A W} (H : forall X, E X -> W -> X * W) (R : W -> ast S -> Prop)
    `{!Engine H R} (p : prog E A) w s Q a w' :
  R w s -> wpu U p s Q -> run H p w = (Done a, w') -> exists s', may p s a s' /\ R w' s'.
Proof.
  revert w s. induction p as [b|u|X c k IH]; intros w s HR; cbn; [|done|].
  - intros _ [= <- <-]. exists s. split; [constructor|done].
  - intros [Ha Hk]. destruct (conforms X c w s HR Ha) as (s1 & Hs & HR').
    destruct (H X c w) as [x w1]. cbn in *. intros Hr.
    destruct (IH x w1 s1 HR' (Hk x s1 Hs) Hr) as (s' & HM & HR2).
    exists s'. split; [by econstructor|done].
Qed.
End Wp.
Arguments wpu {E} S U {A} p s Q.
Arguments may {E} S {A} _ _ _ _.
Arguments ends {E} S {A W} U Q R r /.

Abbreviation wp S := (wpu S (fun _ => False)).

(** ** Methods

    A method also reads and writes the C++ objects of the binding: it is a
    program in the state [H] of those objects. *)
Definition meth (E : Type -> Type) (H A : Type) : Type := H -> prog E (A * H).

Section Meth.
Context {E : Type -> Type} {H : Type}.

#[export] Instance meth_ret : MRet (meth E H) := fun A a h => Ret (a, h).
#[export] Instance meth_bind : MBind (meth E H) :=
  fun A B f m h => m h ≫= fun r => f (fst r) (snd r).

(** A call into the engine, a computation of the method itself, an object
    that must be there, and an update of the objects. *)
Definition ffi {X} (c : E X) : meth E H X := fun h => Call c (fun x => Ret (x, h)).
Definition pure {A} (r : res A) : meth E H A :=
  fun h => match r with Ok a => Ret (a, h) | Ub u => Crash u end.
Definition unwrap {A} (f : H -> option A) : meth E H A :=
  fun h => match f h with Some a => Ret (a, h) | None => Crash BadUnwrap end.
Definition modify (f : H -> H) : meth E H unit := fun h => Ret (tt, f h).

(** [if (b) m;] *)
Definition when (b : bool) (m : meth E H unit) : meth E H unit := if b then m else mret tt.
(** The pointer [p] guards the call. *)
Definition when_some {P} (p : option P) (m : P -> meth E H unit) : meth E H unit :=
  match p with Some x => m x | None => mret tt end.
End Meth.

Section WpM.
Context {E : Type -> Type} {H : Type} (S : api E) (U : ub -> Prop).

Definition wpm {A} (m : meth E H A) (h : H) (s : ast S) (Q : A -> H -> ast S -> Prop) : Prop :=
  wpu S U (m h) s (fun r s' => Q (fst r) (snd r) s').

Lemma wpm_bind {A B} (f : A -> meth E H B) (m : meth E H A) h s Q :
  wpm (m ≫= f) h s Q <-> wpm m h s (fun a h' s' => wpm (f a) h' s' Q).
Proof. unfold wpm, mbind, meth_bind. apply wpu_bind. Qed.

Lemma wpm_ret {A} (a : A) h s (Q : A -> H -> ast S -> Prop) : wpm (mret a) h s Q <-> Q a h s.
Proof. done. Qed.

Lemma wpm_ffi {X} (c : E X) h s Q :
  wpm (ffi c) h s Q <-> allowed S s c /\ forall x s', answers S s c x s' -> Q x h s'.
Proof. done. Qed.

Lemma wpm_pure {A} (r : res A) a h s Q : r = Ok a -> Q a h s -> wpm (pure r) h s Q.
Proof. by intros ->. Qed.

Lemma wpm_unwrap {A} (f : H -> option A) a h s Q : f h = Some a -> Q a h s -> wpm (unwrap f) h s Q.
Proof. intros E1 HQ. unfold wpm, unwrap. by rewrite E1. Qed.

Lemma wpm_modify (f : H -> H) h s Q : wpm (modify f) h s Q <-> Q tt (f h) s.
Proof. done. Qed.

Lemma wpm_mono {A} (m : meth E H A) h s (Q R : A -> H -> ast S -> Prop) :
  wpm m h s Q -> (forall a h' s', Q a h' s' -> R a h' s') -> wpm m h s R.
Proof. intros HQ HR. by eapply wpu_mono; [exact HQ|auto|intros [a h'] s'; apply HR]. Qed.
End WpM.
(** A method that is known to be safe, step by step. *)
Section Inversion.
Context {E : Type -> Type} {H A : Type} (S : api E) (U : ub -> Prop).

Lemma unwrap_inv (f : H -> option A) a h s Q : f h = Some a -> wpm S U (unwrap f) h s Q -> Q a h s.
Proof. intros Ha. unfold wpm, unwrap. by rewrite Ha. Qed.

Lemma pure_inv (r : res A) a h s Q : r = Ok a -> wpm S U (pure (E:=E) (H:=H) r) h s Q -> Q a h s.
Proof. intros ->. done. Qed.

Lemma ffi_inv (c : E A) x s' (h : H) s Q :
  answers S s c x s' -> wpm S U (ffi c) h s Q -> allowed S s c /\ Q x h s'.
Proof. intros Ha [Hc HQ]%wpm_ffi. auto. Qed.
End Inversion.

#[global] Arguments wpm : simpl never.

(** What holds whatever an engine answers holds when it answers less. *)
Lemma wpu_stronger {E A St} (al : forall X, St -> E X -> Prop) (an an' : forall X, St -> E X -> X -> St -> Prop)
    U (p : prog E A) s Q :
  (forall X s c x s', an' X s c x s' -> an X s c x s') ->
  wpu (Api St al an) U p s Q -> wpu (Api St al an') U p s Q.
Proof.
  intros Hs. revert s. induction p as [a|u|X c k IH]; intros s; cbn; [done|done|].
  intros [Ha Hk]. split; [done|]. intros x s' Hx. apply IH, Hk, Hs, Hx.
Qed.

(** What a method computes, apart from whether its calls are allowed and from
    its undefined behaviour: [wlp], which a [wpu] makes total. *)
Definition unguarded {E St} (an : forall X, St -> E X -> X -> St -> Prop) : api E :=
  Api St (fun _ _ _ => True) an.

Abbreviation wlp an := (wpm (unguarded an) (fun _ => True)).

Lemma wpm_wlp {E H St A} (al : forall X, St -> E X -> Prop) (an : forall X, St -> E X -> X -> St -> Prop)
    U (m : meth E H A) h s (Q R : A -> H -> St -> Prop) :
  wpm (Api St al an) U m h s Q -> wlp an m h s R ->
  wpm (Api St al an) U m h s (fun a h' s' => Q a h' s' /\ R a h' s').
Proof.
  unfold wpm. generalize (m h). intros p. revert s.
  induction p as [a|u|X c k IH]; intros s; cbn; [by intros|done|].
  intros [Ha Hk] [_ Hk']. split; [done|]. intros x s' Hx. apply IH; auto.
Qed.

(** One step of symbolic execution of a method. *)
Ltac wpm_step :=
  lazymatch goal with
  | |- wpm _ _ (mbind _ _) _ _ _ => apply wpm_bind
  | |- wpm _ _ (mret _) _ _ _ => apply wpm_ret
  | |- wpm _ _ (ffi _) _ _ _ => apply wpm_ffi; split
  | |- wpm _ _ (modify _) _ _ _ => apply wpm_modify
  | |- wpm _ _ (unwrap _) _ _ _ => eapply wpm_unwrap; [eassumption || (cbn; eassumption)|]
  | |- wpm _ _ (pure _) _ _ _ => eapply wpm_pure; [eassumption|]
  | |- wpm _ _ (if ?b then _ else _) _ _ _ => destruct b eqn:?
  end.
