(* ===== verification/Store.v ===== *)
(** * Ordered stores

    What the engines keep: key/data pairs in the order of a comparator.  LMDB
    keeps several data items per key in a database opened with MDB_DUPSORT, in
    the order of a second comparator; LevelDB and RocksDB keep one value per
    key.  The abstract states of the engines are built from these stores. *)
From Stdlib Require Import Sorting.Sorted.
From stdpp Require Import sorting.
From S2P Require Import Prelude.

(** A comparison function and the byte strings it is meant for. *)
Record comparator := Cmp { cmp : bytes -> bytes -> Z; dom : bytes -> bool }.

(** The contract the engines put on a comparator: a total order whose equality
    is equality of the strings. *)
Class CmpLaws (c : comparator) : Prop := {
  cmp_eq a b : dom c a = true -> dom c b = true -> (cmp c a b = 0 <-> a = b);
  cmp_opp a b : dom c a = true -> dom c b = true -> (0 < cmp c b a <-> cmp c a b < 0);
  cmp_trans a b d : dom c a = true -> dom c b = true -> dom c d = true ->
    cmp c a b < 0 -> cmp c b d < 0 -> cmp c a d < 0
}.

(** [memcmp] on unsigned bytes, then the lengths. *)
Fixpoint lex_cmp (a b : bytes) : Z :=
  match a, b with
  | [], [] => 0
  | [], _ => -1
  | _, [] => 1
  | x :: a', y :: b' =>
      if byte.unsigned x <? byte.unsigned y then -1
      else if byte.unsigned y <? byte.unsigned x then 1
      else lex_cmp a' b'
  end.

Definition lexical : comparator := Cmp lex_cmp (fun _ => true).

Abbreviation entries := (list (bytes * bytes)).

Section Store.
(** The key order and, when several data items per key are allowed, the
    order of the data. *)
Context (kc : comparator) (odc : option comparator).

Fixpoint s_get (k : bytes) (l : entries) : option bytes :=
  match l with
  | [] => None
  | (k', v') :: l' => if cmp kc k k' =? 0 then Some v' else s_get k l'
  end.

Fixpoint s_put (k v : bytes) (l : entries) : entries :=
  match l with
  | [] => [(k, v)]
  | (k', v') :: l' =>
      if cmp kc k k' <? 0 then (k, v) :: l
      else if cmp kc k k' =? 0 then
        match odc with
        | None => (k, v) :: l'
        | Some dc =>
            if cmp dc v v' <? 0 then (k, v) :: l
            else if cmp dc v v' =? 0 then l
            else (k', v') :: s_put k v l'
        end
      else (k', v') :: s_put k v l'
  end.

(** All the data of a key, or one pair of it. *)
Definition s_del (k : bytes) (l : entries) : entries :=
  filter (fun p => cmp kc k (fst p) <> 0) l.

Definition same_pair (dc : comparator) (k v : bytes) (p : bytes * bytes) : bool :=
  (cmp kc k (fst p) =? 0) && (cmp dc v (snd p) =? 0).

Definition s_del_pair (dc : comparator) (k v : bytes) (l : entries) : entries :=
  filter (fun p => same_pair dc k v p = false) l.

Definition s_mem (dc : comparator) (k v : bytes) (l : entries) : bool :=
  existsb (same_pair dc k v) l.

(** The index of the first entry that satisfies a test. *)
Fixpoint s_find (P : bytes * bytes -> bool) (l : entries) : option nat :=
  match l with
  | [] => None
  | p :: l' => if P p then Some 0%nat else S <$> s_find P l'
  end.

(** ** Order *)
Definition entry_lt (p q : bytes * bytes) : Prop :=
  cmp kc (fst p) (fst q) < 0 \/
  (cmp kc (fst p) (fst q) = 0 /\
   match odc with Some dc => cmp dc (snd p) (snd q) < 0 | None => False end).

Definition in_dom (p : bytes * bytes) : Prop :=
  dom kc (fst p) = true /\
  match odc with Some dc => dom dc (snd p) = true | None => True end.

Definition store_wf (l : entries) : Prop := Forall in_dom l /\ StronglySorted entry_lt l.
End Store.

(** ** Lemmas *)
Lemma lex_cmp_opp a b : lex_cmp b a = - lex_cmp a b.
Proof.
  revert b; induction a as [|x a IH]; intros [|y b]; cbn; try done.
  destruct (Z.ltb_spec (byte.unsigned x) (byte.unsigned y)),
    (Z.ltb_spec (byte.unsigned y) (byte.unsigned x)); try lia. apply IH.
Qed.

Lemma lex_cmp_eq a b : lex_cmp a b = 0 <-> a = b.
Proof.
  revert b; induction a as [|x a IH]; intros [|y b]; cbn; try done.
  destruct (Z.ltb_spec (byte.unsigned x) (byte.unsigned y)),
    (Z.ltb_spec (byte.unsigned y) (byte.unsigned x)).
  1-3: split; [lia|intros [= -> ->]; lia].
  assert (x = y) as -> by (apply byte_inj; lia). rewrite IH. naive_solver.
Qed.

Lemma lex_cmp_trans a b c : lex_cmp a b < 0 -> lex_cmp b c < 0 -> lex_cmp a c < 0.
Proof.
  revert b c; induction a as [|x a IH]; intros [|y b] [|z c]; cbn; try lia.
  destruct (Z.ltb_spec (byte.unsigned x) (byte.unsigned y)),
    (Z.ltb_spec (byte.unsigned y) (byte.unsigned x)),
    (Z.ltb_spec (byte.unsigned y) (byte.unsigned z)),
    (Z.ltb_spec (byte.unsigned z) (byte.unsigned y)),
    (Z.ltb_spec (byte.unsigned x) (byte.unsigned z)),
    (Z.ltb_spec (byte.unsigned z) (byte.unsigned x)); try lia. apply IH.
Qed.

Lemma cmp_flip (c : comparator) {CL : CmpLaws c} a b :
  dom c a = true -> dom c b = true -> (0 <= cmp c b a <-> cmp c a b <= 0).
Proof. intros Ha Hb. pose proof (cmp_opp b a Hb Ha). lia. Qed.

#[export] Instance lexical_laws : CmpLaws lexical.
Proof.
  split; cbn; intros.
  - apply lex_cmp_eq.
  - rewrite lex_cmp_opp. lia.
  - by eapply lex_cmp_trans.
Qed.

Lemma s_find_Some P l n :
  s_find P l = Some n ->
  exists p, l !! n = Some p /\ P p = true /\ forall m q, (m < n)%nat -> l !! m = Some q -> P q = false.
Proof.
  revert n. induction l as [|p l IH]; cbn; intros n Hn; [done|]. destruct (P p) eqn:Hp.
  - injection Hn as <-. exists p. split_and!; [done|done|]. lia.
  - destruct (s_find P l) as [m|]; [|done]. injection Hn as <-.
    destruct (IH m eq_refl) as (q & Hq & HP & Hlt). exists q. split_and!; [done|done|].
    intros [|m'] q' Hm Hq'; cbn in Hq'; [by simplify_eq|]. apply (Hlt m'); [lia|done].
Qed.

Lemma s_find_None P l q : s_find P l = None -> q ∈ l -> P q = false.
Proof.
  induction l as [|p l IH]; cbn; [by intros _ ?%elem_of_nil|]. destruct (P p) eqn:Hp; [done|].
  intros Hn [->|Hq]%elem_of_cons; [done|]. apply IH; [|done]. by destruct (s_find P l).
Qed.

Lemma s_put_in kc odc k v l p :
  p ∈ s_put kc odc k v l -> p = (k, v) \/ p ∈ l.
Proof.
  induction l as [|[k' v'] l IH]; cbn; [set_solver|].
  repeat case_match; set_solver.
Qed.

Lemma s_get_in kc k l v : s_get kc k l = Some v -> exists k', (k', v) ∈ l.
Proof.
  induction l as [|[k' v'] l IH]; cbn; [done|]. destruct (cmp kc k k' =? 0).
  - intros [= <-]. exists k'. by left.
  - intros Hg. destruct (IH Hg) as [k2 Hk2]. exists k2. by right.
Qed.

Lemma filter_wf kc odc (P : bytes * bytes -> Prop) `{!forall p, Decision (P p)} l :
  store_wf kc odc l -> store_wf kc odc (filter P l).
Proof.
  intros [Hd Hs]. split.
  - apply Forall_forall. intros p [_ Hp]%list_elem_of_filter.
    rewrite Forall_forall in Hd. by apply Hd.
  - induction Hs as [|p l Hs IH Hl]; [constructor|].
    apply Forall_cons_1 in Hd as [_ Hd]. rewrite filter_cons.
    case_decide; [|by apply IH]. constructor; [by apply IH|].
    rewrite Forall_forall in Hl. apply Forall_forall.
    intros q [_ Hq]%list_elem_of_filter. by apply Hl.
Qed.

(** In a sorted store the first entry that passes a test is the smallest. *)
Lemma find_least kc odc P l n p q :
  store_wf kc odc l -> s_find P l = Some n -> l !! n = Some p -> q ∈ l -> P q = true ->
  q = p \/ entry_lt kc odc p q.
Proof.
  intros [_ Hs] Hf Hp [m Hm]%list_elem_of_lookup Hq. destruct (s_find_Some _ _ _ Hf) as (p' & _ & _ & Hlt).
  destruct (lt_eq_lt_dec m n) as [[Hmn| ->]|Hmn].
  - rewrite (Hlt m q) in Hq by done. done.
  - left. congruence.
  - right. rewrite <- (take_drop_middle _ _ _ Hp) in Hs. apply StronglySorted_app_1_r in Hs.
    apply StronglySorted_inv in Hs as [_ Hs]. rewrite Forall_forall in Hs. apply Hs.
    apply list_elem_of_lookup. exists (m - S n)%nat. rewrite lookup_drop. by replace (S n + (m - S n))%nat with m by lia.
Qed.

Section StoreLemmas.
Context (kc : comparator) {KL : CmpLaws kc}.

Lemma cmp_refl (c : comparator) {CL : CmpLaws c} a : dom c a = true -> cmp c a a = 0.
Proof. intros. by apply cmp_eq. Qed.

(** [in_dom] of the keys is all the lookups need. *)
Definition keys_ok (l : entries) : Prop := Forall (fun p => dom kc (fst p) = true) l.

Lemma store_wf_keys odc l : store_wf kc odc l -> keys_ok l.
Proof. intros [H _]. eapply Forall_impl; [exact H|]. by intros p [? _]. Qed.

Lemma get_put_same k v l :
  dom kc k = true -> keys_ok l -> s_get kc k (s_put kc None k v l) = Some v.
Proof.
  intros Hk. induction 1 as [|[k' v'] l Hk' _ IH]; cbn in *; [by rewrite cmp_refl|].
  destruct (Z.ltb_spec (cmp kc k k') 0); cbn; [by rewrite cmp_refl|].
  destruct (Z.eqb_spec (cmp kc k k') 0); cbn; [by rewrite cmp_refl|].
  by rewrite (proj2 (Z.eqb_neq _ _)).
Qed.

Lemma get_put_other odc j k v l :
  dom kc j = true -> dom kc k = true -> j <> k -> keys_ok l ->
  s_get kc j (s_put kc odc k v l) = s_get kc j l.
Proof.
  intros Hj Hk Hne. assert (cmp kc j k <> 0) as Hc by (by rewrite cmp_eq).
  apply Z.eqb_neq in Hc.
  induction 1 as [|[k' v'] l Hk' _ IH]; cbn in *; [by rewrite Hc|].
  destruct (cmp kc k k' <? 0); cbn; [by rewrite Hc|].
  destruct (Z.eqb_spec (cmp kc k k') 0) as [E|]; cbn.
  - apply cmp_eq in E as <-; [|done|done]. rewrite Hc.
    destruct odc as [dc|]; cbn; [|by rewrite Hc].
    repeat case_match; cbn; rewrite Hc; done.
  - by rewrite IH.
Qed.

Lemma s_del_cons k p l :
  s_del kc k (p :: l) = if decide (cmp kc k (fst p) <> 0) then p :: s_del kc k l else s_del kc k l.
Proof. unfold s_del. by rewrite filter_cons. Qed.

Lemma get_del_same k l : s_get kc k (s_del kc k l) = None.
Proof.
  induction l as [|[k' v'] l IH]; [done|]. rewrite s_del_cons. cbn.
  case_decide; cbn; [|done]. by rewrite (proj2 (Z.eqb_neq _ _)).
Qed.

Lemma get_del_other j k l :
  dom kc j = true -> dom kc k = true -> j <> k -> keys_ok l ->
  s_get kc j (s_del kc k l) = s_get kc j l.
Proof.
  intros Hj Hk Hne. induction 1 as [|[k' v'] l Hk' _ IH]; [done|].
  rewrite s_del_cons. cbn in *. case_decide as E; cbn; [by rewrite IH|].
  rewrite (proj2 (Z.eqb_neq _ _)); [done|].
  assert (cmp kc k k' = 0) as E' by lia. apply cmp_eq in E' as <-; [|done|done].
  by rewrite cmp_eq.
Qed.

(** ** A store without duplicates is a finite map *)
Lemma s_get_map k l :
  dom kc k = true -> keys_ok l -> s_get kc k l = (list_to_map l : gmap bytes bytes) !! k.
Proof.
  intros Hk. induction 1 as [|[k' v'] l Hk' _ IH]; cbn in *; [by rewrite lookup_empty|].
  destruct (Z.eqb_spec (cmp kc k k') 0) as [Ec|Ec]; rewrite cmp_eq in Ec by done.
  - subst. by rewrite lookup_insert_eq.
  - by rewrite lookup_insert_ne.
Qed.

Lemma s_put_map k v l :
  dom kc k = true -> keys_ok l ->
  (list_to_map (s_put kc None k v l) : gmap bytes bytes) = <[k := v]> (list_to_map l).
Proof.
  intros Hk. induction 1 as [|[k' v'] l Hk' _ IH]; cbn in *; [done|].
  destruct (cmp kc k k' <? 0); [done|].
  destruct (Z.eqb_spec (cmp kc k k') 0) as [Ec|Ec]; rewrite cmp_eq in Ec by done; cbn.
  - subst. by rewrite insert_insert_eq.
  - rewrite IH. by rewrite insert_insert_ne.
Qed.

Lemma s_del_map k l :
  dom kc k = true -> keys_ok l ->
  (list_to_map (s_del kc k l) : gmap bytes bytes) = delete k (list_to_map l).
Proof.
  intros Hk. induction 1 as [|[k' v'] l Hk' _ IH]; [symmetry; apply delete_empty|].
  rewrite s_del_cons. cbn in *. case_decide as Ec; rewrite cmp_eq in Ec by done; cbn.
  - rewrite IH. by rewrite delete_insert_ne.
  - assert (k' = k) as -> by (by destruct (decide (k' = k)); [|destruct Ec]).
    by rewrite delete_insert_eq, IH.
Qed.

(** ** The order is kept *)
Context (odc : option comparator).
Hypothesis DL : match odc with Some dc => CmpLaws dc | None => True end.

Lemma entry_lt_trans p q r :
  in_dom kc odc p -> in_dom kc odc q -> in_dom kc odc r ->
  entry_lt kc odc p q -> entry_lt kc odc q r -> entry_lt kc odc p r.
Proof.
  destruct p as [k1 v1], q as [k2 v2], r as [k3 v3].
  intros [K1 D1] [K2 D2] [K3 D3] [L1|[E1 L1]] [L2|[E2 L2]]; cbn in *.
  - left. eapply cmp_trans; [..|exact L1|exact L2]; done.
  - left. apply cmp_eq in E2 as <-; done.
  - left. apply cmp_eq in E1 as ->; done.
  - right. destruct odc as [dc|]; [|done].
    apply cmp_eq in E1 as ->; [|done|done]. split; [done|].
    eapply cmp_trans; [..|exact L1|exact L2]; done.
Qed.

Lemma s_put_wf k v l :
  in_dom kc odc (k, v) -> store_wf kc odc l -> store_wf kc odc (s_put kc odc k v l).
Proof.
  intros Hkv [Hd Hs]. split.
  - apply Forall_forall. intros p [->|Hp]%s_put_in; [done|].
    rewrite Forall_forall in Hd. by apply Hd.
  - induction Hs as [|[k' v'] l Hs IH Hl]; cbn; [by repeat constructor|].
    apply Forall_cons_1 in Hd as [Hd1 Hd].
    assert (entry_lt kc odc (k, v) (k', v') ->
            StronglySorted (entry_lt kc odc) ((k, v) :: (k', v') :: l)) as Hfront.
    { intros Hlt. constructor; [by constructor|]. constructor; [done|].
      rewrite Forall_forall in Hl, Hd. apply Forall_forall. intros q Hq.
      eapply entry_lt_trans; [exact Hkv|exact Hd1|by apply Hd|done|by apply Hl]. }
    assert (entry_lt kc odc (k', v') (k, v) ->
            StronglySorted (entry_lt kc odc) ((k', v') :: s_put kc odc k v l)) as Hback.
    { intros Hlt. constructor; [by apply IH|]. rewrite Forall_forall in Hl.
      apply Forall_forall. intros q [->|Hq]%s_put_in; [done|by apply Hl]. }
    destruct Hkv as [Kk Kv], Hd1 as [Kk' Kv']. cbn in *.
    destruct (Z.ltb_spec (cmp kc k k') 0); [apply Hfront; by left|].
    destruct (Z.eqb_spec (cmp kc k k') 0) as [E|].
    + apply cmp_eq in E as <-; [|done|done]. destruct odc as [dc|]; cbn in *.
      * destruct (Z.ltb_spec (cmp dc v v') 0);
          [apply Hfront; right; by rewrite cmp_refl|].
        destruct (Z.eqb_spec (cmp dc v v') 0); [by constructor|].
        apply Hback. right. rewrite cmp_refl by done. split; [done|].
        apply (cmp_opp v' v); [done|done|lia].
      * constructor; [done|]. eapply Forall_impl; [exact Hl|].
        intros [k2 v2] [?|[? []]]. by left.
    + apply Hback. left. apply (cmp_opp k' k); [done|done|lia].
Qed.

End StoreLemmas.

(** ** Several data items per key *)
Section DupLemmas.
Context (kc dc : comparator) {KL : CmpLaws kc} {DL : CmpLaws dc}.

Definition pairs_ok (l : entries) : Prop := Forall (in_dom kc (Some dc)) l.

Lemma same_pair_eq k v p :
  in_dom kc (Some dc) (k, v) -> in_dom kc (Some dc) p ->
  same_pair kc dc k v p = true <-> p = (k, v).
Proof.
  destruct p as [k' v']. intros [Hk Hv] [Hk' Hv']. cbn in *. unfold same_pair. cbn.
  rewrite andb_true_iff, !Z.eqb_eq, !cmp_eq by done. naive_solver.
Qed.

Lemma s_mem_In k v l :
  in_dom kc (Some dc) (k, v) -> pairs_ok l -> s_mem kc dc k v l = true <-> (k, v) ∈ l.
Proof.
  intros Hkv Hl. unfold s_mem. rewrite existsb_exists. unfold pairs_ok in Hl.
  rewrite Forall_forall in Hl. setoid_rewrite list_elem_of_In. split.
  - intros (p & Hp & E). apply same_pair_eq in E as ->; [done|done|].
    apply Hl. by apply list_elem_of_In.
  - intros Hp. exists (k, v). split; [done|]. by apply same_pair_eq.
Qed.

Lemma s_put_dup_in k v l p :
  in_dom kc (Some dc) (k, v) -> pairs_ok l ->
  p ∈ s_put kc (Some dc) k v l <-> p = (k, v) \/ p ∈ l.
Proof.
  intros Hkv. induction 1 as [|[k' v'] l Hp _ IH]; cbn; [set_solver|].
  destruct Hkv as [Hk Hv], Hp as [Hk' Hv']. cbn in *.
  destruct (Z.ltb_spec (cmp kc k k') 0); [set_solver|].
  destruct (Z.eqb_spec (cmp kc k k') 0) as [E|]; [|set_solver].
  apply cmp_eq in E as <-; [|done|done].
  destruct (Z.ltb_spec (cmp dc v v') 0); [set_solver|].
  destruct (Z.eqb_spec (cmp dc v v') 0) as [E|]; [|set_solver].
  apply cmp_eq in E as <-; [|done|done]. set_solver.
Qed.

Lemma s_del_pair_in k v l p :
  in_dom kc (Some dc) (k, v) -> pairs_ok l ->
  p ∈ s_del_pair kc dc k v l <-> p ∈ l /\ p <> (k, v).
Proof.
  intros Hkv Hl. unfold s_del_pair. rewrite list_elem_of_filter.
  unfold pairs_ok in Hl. rewrite Forall_forall in Hl.
  split.
  - intros [E Hp]. split; [done|]. intros ->.
    by rewrite (proj2 (same_pair_eq k v (k, v) Hkv Hkv) eq_refl) in E.
  - intros [Hp Hne]. split; [|done]. apply not_true_iff_false.
    by rewrite same_pair_eq by auto.
Qed.
End DupLemmas.
