(* ===== verification/LmdbApi.v ===== *)
(** * The LMDB interface

    The LMDB functions the binding calls, as the constructors of [mdb_call],
    and the contract of src/3rd-party/include/lmdb/lmdb.h as an abstract state
    machine: what a caller must respect ([mdb_allowed]) and what LMDB then
    answers ([mdb_answers]).  The machine keeps the environments, transactions
    and cursors that are allocated, what each transaction sees, and what is
    committed.  Where lmdb.h leaves something open (error codes, addresses, the
    position of a cursor after an update) any answer is possible. *)
From S2P Require Import Prelude Prog Store.

(** ** Constants of lmdb.h *)
Definition MDB_NOSYNC : Z := 0x10000.
Definition MDB_RDONLY : Z := 0x20000.
Definition MDB_DUPSORT : Z := 0x04.
Definition MDB_CREATE : Z := 0x40000.

Definition MDB_NOTFOUND : Z := -30798.
Definition MDB_INCOMPATIBLE : Z := -30784.
Definition EACCES : Z := 13.
Definition EINVAL : Z := 22.

Inductive MDB_cursor_op : Set :=
| MDB_FIRST | MDB_FIRST_DUP | MDB_GET_BOTH | MDB_GET_BOTH_RANGE | MDB_GET_CURRENT
| MDB_LAST | MDB_LAST_DUP | MDB_NEXT | MDB_NEXT_DUP | MDB_PREV | MDB_PREV_DUP
| MDB_SET | MDB_SET_RANGE.

(** A pointer to an object LMDB allocated; [None] is NULL. *)
Abbreviation ptr := (option nat).

(** A call and what it gives back: the return code and, through the out
    parameters, a handle (written on success only) or a key and data item. *)
Inductive mdb_call : Type -> Type :=
| mdb_env_create : mdb_call (Z * ptr)
| mdb_env_set_mapsize (e : ptr) (size : Z) : mdb_call Z
| mdb_env_set_maxdbs (e : ptr) (dbs : Z) : mdb_call Z
| mdb_env_open (e : ptr) (path : bytes) (flags mode : Z) : mdb_call Z
| mdb_reader_check (e : ptr) : mdb_call Z
| mdb_env_sync (e : ptr) (force : Z) : mdb_call Z
| mdb_env_close (e : ptr) : mdb_call unit
| mdb_txn_begin (e parent : ptr) (flags : Z) : mdb_call (Z * ptr)
| mdb_txn_commit (t : ptr) : mdb_call Z
| mdb_txn_abort (t : ptr) : mdb_call unit
| mdb_txn_reset (t : ptr) : mdb_call unit
| mdb_txn_renew (t : ptr) : mdb_call Z
| mdb_dbi_open (t : ptr) (name : bytes) (flags : Z) : mdb_call (Z * option nat)
| mdb_dbi_close (e : ptr) (dbi : nat) : mdb_call unit
| mdb_set_compare (t : ptr) (dbi : nat) (c : comparator) : mdb_call Z
| mdb_set_dupsort (t : ptr) (dbi : nat) (c : comparator) : mdb_call Z
| mdb_get (t : ptr) (dbi : nat) (k : bytes) : mdb_call (Z * bytes)
| mdb_put (t : ptr) (dbi : nat) (k v : bytes) (flags : Z) : mdb_call Z
| mdb_del (t : ptr) (dbi : nat) (k : bytes) (v : option bytes) : mdb_call Z
| mdb_cursor_open (t : ptr) (dbi : nat) : mdb_call (Z * ptr)
| mdb_cursor_close (c : ptr) : mdb_call unit
| mdb_cursor_renew (t c : ptr) : mdb_call Z
| mdb_cursor_get (c : ptr) (k v : bytes) (op : MDB_cursor_op) : mdb_call (Z * (bytes * bytes))
| mdb_cursor_del (c : ptr) (flags : Z) : mdb_call Z.

(** ** Abstract state *)
Record db_st := MkDb { db_dup : bool; db_kc : comparator; db_dc : comparator; db_data : entries }.

Definition db_odc (d : db_st) : option comparator := if db_dup d then Some (db_dc d) else None.
Definition set_data (l : entries) (d : db_st) : db_st := MkDb (db_dup d) (db_kc d) (db_dc d) l.
Definition set_kc (c : comparator) (d : db_st) : db_st := MkDb (db_dup d) c (db_dc d) (db_data d).
Definition set_dc (c : comparator) (d : db_st) : db_st := MkDb (db_dup d) (db_kc d) c (db_data d).

Record env_st := MkEnv { env_opened : bool; env_dbs : gmap nat db_st; env_names : list (bytes * nat) }.

(** A transaction that is not live is a read-only one that was reset.  [txn_dirty]
    are the databases it has modified; one it has created or opened counts as such. *)
Record txn_st := MkTxn {
  txn_env : nat; txn_ro : bool; txn_live : bool;
  txn_dbs : gmap nat db_st; txn_names : list (bytes * nat); txn_dirty : gset nat
}.

(** A cursor of a read-only transaction outlives it, but is stale once the
    transaction is reset or ended. *)
Record cur_st := MkCur {
  cur_env : nat; cur_txn : nat; cur_ro : bool; cur_stale : bool; cur_dbi : nat;
  cur_pos : option nat
}.

Record lmdb := MkLmdb {
  envs : gmap nat env_st;
  txns : gmap nat txn_st;
  curs : gmap nat cur_st
}.

Definition lmdb0 : lmdb := MkLmdb ∅ ∅ ∅.

Definition upd_env (e : nat) (x : env_st) (s : lmdb) : lmdb := MkLmdb (<[e := x]> (envs s)) (txns s) (curs s).
Definition upd_txn (t : nat) (x : txn_st) (s : lmdb) : lmdb := MkLmdb (envs s) (<[t := x]> (txns s)) (curs s).
Definition upd_cur (c : nat) (x : cur_st) (s : lmdb) : lmdb := MkLmdb (envs s) (txns s) (<[c := x]> (curs s)).
Definition del_env (e : nat) (s : lmdb) : lmdb := MkLmdb (delete e (envs s)) (txns s) (curs s).
Definition del_cur (c : nat) (s : lmdb) : lmdb := MkLmdb (envs s) (txns s) (delete c (curs s)).

Definition outlive (t : nat) (c : cur_st) : cur_st :=
  if cur_ro c && (cur_txn c =? t)%nat
  then MkCur (cur_env c) (cur_txn c) true true (cur_dbi c) (cur_pos c) else c.

(** Ending a transaction frees it; ending a write transaction also frees its
    cursors, those of a read-only one stay allocated. *)
Definition end_txn (t : nat) (ro : bool) (s : lmdb) : lmdb :=
  MkLmdb (envs s) (delete t (txns s))
    (if ro then outlive t <$> curs s
     else filter (fun p => cur_ro (snd p) = true \/ cur_txn (snd p) <> t) (curs s)).
#[global] Arguments end_txn : simpl never.

(** Resetting a read-only transaction keeps the handle. *)
Definition reset_txn (t : nat) (x : txn_st) (s : lmdb) : lmdb :=
  MkLmdb (envs s)
    (<[t := MkTxn (txn_env x) true false (txn_dbs x) (txn_names x) ∅]> (txns s))
    (outlive t <$> curs s).

Definition txn_db (s : lmdb) (t dbi : nat) : option db_st :=
  x ← txns s !! t; if txn_live x then txn_dbs x !! dbi else None.

Definition upd_db (dbi : nat) (d : db_st) (x : txn_st) : txn_st :=
  MkTxn (txn_env x) (txn_ro x) (txn_live x) (<[dbi := d]> (txn_dbs x)) (txn_names x) ({[dbi]} ∪ txn_dirty x).

(** Setting a comparison function modifies no data. *)
Definition set_db (dbi : nat) (d : db_st) (x : txn_st) : txn_st :=
  MkTxn (txn_env x) (txn_ro x) (txn_live x) (<[dbi := d]> (txn_dbs x)) (txn_names x) (txn_dirty x).

Definition fails (rc : Z) : Prop := rc <> 0 /\ rc <> MDB_NOTFOUND.

(** ** Cursor movement *)
Definition key_at (d : db_st) (i : nat) : bytes := from_option fst [] (db_data d !! i).

Definition same_key (d : db_st) (i : nat) (p : bytes * bytes) : bool :=
  cmp (db_kc d) (key_at d i) (fst p) =? 0.

Definition not_found_or (o : option nat) : Z + nat :=
  match o with Some i => inr i | None => inl MDB_NOTFOUND end.

Definition last_index {A} (l : list A) : option nat :=
  match l with [] => None | _ => Some (length l - 1)%nat end.

(** The last index of the run of entries that satisfy [P]. *)
Definition last_such (P : bytes * bytes -> bool) (l : entries) : option nat :=
  (fun i => (length l - 1 - i)%nat) <$> s_find P (reverse l).

(** The entry a cursor moves to, or the code it fails with. *)
Definition cur_move (d : db_st) (pos : option nat) (op : MDB_cursor_op) (k v : bytes) : Z + nat :=
  let l := db_data d in
  let kc := db_kc d in
  match op with
  | MDB_FIRST => not_found_or (if (0 <? length l)%nat then Some 0%nat else None)
  | MDB_LAST => not_found_or (last_index l)
  | MDB_NEXT =>
      match pos with
      | None => not_found_or (if (0 <? length l)%nat then Some 0%nat else None)
      | Some i => not_found_or (if (S i <? length l)%nat then Some (S i) else None)
      end
  | MDB_PREV =>
      match pos with
      | None => not_found_or (last_index l)
      | Some i => not_found_or (if (0 <? i)%nat then Some (i - 1)%nat else None)
      end
  | MDB_NEXT_DUP =>
      match pos with
      | None => not_found_or (if (0 <? length l)%nat then Some 0%nat else None)
      | Some i =>
          match l !! S i with
          | Some p => if negb (db_dup d) || same_key d i p then inr (S i) else inl MDB_NOTFOUND
          | None => inl MDB_NOTFOUND
          end
      end
  | MDB_PREV_DUP =>
      match pos with
      | None => not_found_or (last_index l)
      | Some i =>
          match i with
          | O => inl MDB_NOTFOUND
          | S j => match l !! j with
                   | Some p => if negb (db_dup d) || same_key d i p then inr j else inl MDB_NOTFOUND
                   | None => inl MDB_NOTFOUND
                   end
          end
      end
  | MDB_FIRST_DUP =>
      match pos with
      | None => inl EINVAL
      | Some i => if db_dup d then not_found_or (s_find (same_key d i) l) else inl MDB_INCOMPATIBLE
      end
  | MDB_LAST_DUP =>
      match pos with
      | None => inl EINVAL
      | Some i => if db_dup d then not_found_or (last_such (same_key d i) l) else inl MDB_INCOMPATIBLE
      end
  | MDB_GET_CURRENT =>
      match pos with
      | None => inl EINVAL
      | Some i => not_found_or (if (i <? length l)%nat then Some i else None)
      end
  | MDB_SET => not_found_or (s_find (fun p => cmp kc k (fst p) =? 0) l)
  | MDB_SET_RANGE => not_found_or (s_find (fun p => cmp kc k (fst p) <=? 0) l)
  | MDB_GET_BOTH =>
      if db_dup d then not_found_or (s_find (same_pair kc (db_dc d) k v) l)
      else inl MDB_INCOMPATIBLE
  | MDB_GET_BOTH_RANGE =>
      if db_dup d then
        not_found_or (s_find (fun p => (cmp kc k (fst p) =? 0) && (cmp (db_dc d) v (snd p) <=? 0)) l)
      else inl MDB_INCOMPATIBLE
  end.

(** Operations that look at the key, or at the key and data, they are given. *)
Definition op_uses_key (op : MDB_cursor_op) : bool :=
  match op with MDB_SET | MDB_SET_RANGE | MDB_GET_BOTH | MDB_GET_BOTH_RANGE => true | _ => false end.
Definition op_uses_data (op : MDB_cursor_op) : bool :=
  match op with MDB_GET_BOTH | MDB_GET_BOTH_RANGE => true | _ => false end.

(** ** The caller's obligations *)
Definition is_ro (flags : Z) : bool := negb (Z.land flags MDB_RDONLY =? 0).
Definition is_dup (flags : Z) : bool := negb (Z.land flags MDB_DUPSORT =? 0).

(** No write transaction is open: beginning one would wait for it forever. *)
Definition no_writer (s : lmdb) (e : nat) : Prop :=
  forall t x, txns s !! t = Some x -> txn_env x = e -> txn_ro x = true.

(** A thread has one reader slot per environment. *)
Definition no_reader (s : lmdb) (e : nat) : Prop :=
  forall t x, txns s !! t = Some x -> txn_env x = e -> txn_ro x = true -> txn_live x = false.

(** No existing transaction has modified the database. *)
Definition unmodified (s : lmdb) (e dbi : nat) : Prop :=
  forall t x, txns s !! t = Some x -> txn_env x = e -> dbi ∉ txn_dirty x.

Definition env_ok (s : lmdb) (e : ptr) : Prop := exists h x, e = Some h /\ envs s !! h = Some x.
Definition txn_ok (s : lmdb) (t : ptr) : Prop := forall h, t = Some h -> is_Some (txns s !! h).

(** The bytes given to a comparator must be ones it is meant for. *)
Definition key_ok (s : lmdb) (t : nat) (dbi : nat) (k : bytes) : Prop :=
  forall d, txn_db s t dbi = Some d -> dom (db_kc d) k = true.
Definition data_ok (s : lmdb) (t : nat) (dbi : nat) (v : bytes) : Prop :=
  forall d, txn_db s t dbi = Some d -> db_dup d = true -> dom (db_dc d) v = true.

Definition mdb_allowed X (s : lmdb) (c : mdb_call X) : Prop :=
  match c with
  | mdb_env_create => True
  | mdb_env_set_mapsize e _ =>
      exists h x, e = Some h /\ envs s !! h = Some x /\
        forall t y, txns s !! t = Some y -> txn_env y = h -> txn_live y = false
  | mdb_env_set_maxdbs e _ | mdb_env_open e _ _ _
  | mdb_reader_check e | mdb_env_sync e _ => env_ok s e
  | mdb_dbi_close e dbi => exists h x, e = Some h /\ envs s !! h = Some x /\ unmodified s h dbi
  | mdb_env_close e =>
      forall h, e = Some h -> is_Some (envs s !! h) /\
        (forall t x, txns s !! t = Some x -> txn_env x <> h) /\
        (forall c x, curs s !! c = Some x -> cur_env x <> h)
  | mdb_txn_begin e parent flags =>
      parent = None /\ exists h x, e = Some h /\ envs s !! h = Some x /\ env_opened x = true /\
        (is_ro flags = false -> no_writer s h)
  | mdb_txn_commit t | mdb_txn_abort t | mdb_txn_reset t | mdb_txn_renew t => txn_ok s t
  | mdb_dbi_open t _ _ => exists h x, t = Some h /\ txns s !! h = Some x /\ txn_live x = true
  | mdb_set_compare t dbi _ | mdb_set_dupsort t dbi _ =>
      exists h d, t = Some h /\ txn_db s h dbi = Some d
  | mdb_get t dbi k => txn_ok s t /\ forall h, t = Some h -> key_ok s h dbi k
  | mdb_put t dbi k v _ =>
      txn_ok s t /\ forall h, t = Some h -> key_ok s h dbi k /\ data_ok s h dbi v
  | mdb_del t dbi k ov =>
      txn_ok s t /\ forall h, t = Some h -> key_ok s h dbi k /\
        forall v, ov = Some v -> data_ok s h dbi v
  | mdb_cursor_open t _ => txn_ok s t
  | mdb_cursor_close c => forall h, c = Some h -> is_Some (curs s !! h)
  | mdb_cursor_renew t c => txn_ok s t /\ forall h, c = Some h -> is_Some (curs s !! h)
  | mdb_cursor_get c k v op =>
      forall h, c = Some h -> exists cu x, curs s !! h = Some cu /\ cur_stale cu = false /\
        txns s !! cur_txn cu = Some x /\ txn_live x = true /\
        (op_uses_key op = true -> key_ok s (cur_txn cu) (cur_dbi cu) k) /\
        (op_uses_data op = true -> data_ok s (cur_txn cu) (cur_dbi cu) v)
  | mdb_cursor_del c _ =>
      exists h cu x, c = Some h /\ curs s !! h = Some cu /\ cur_stale cu = false /\
        txns s !! cur_txn cu = Some x /\ txn_live x = true
  end.

(** ** LMDB's answers *)
Definition set_pos (p : option nat) (c : cur_st) : cur_st :=
  MkCur (cur_env c) (cur_txn c) (cur_ro c) (cur_stale c) (cur_dbi c) p.

(** After an update of [dbi] in [t], its cursors there may be anywhere. *)
Definition curs_moved (t dbi : nat) (m m' : gmap nat cur_st) : Prop :=
  forall c, match m !! c, m' !! c with
    | Some a, Some b => exists p, b = set_pos p a /\
        (cur_txn a = t /\ cur_dbi a = dbi \/ p = cur_pos a)
    | None, None => True
    | _, _ => False
    end.

Definition txn_updated (s : lmdb) (t : nat) (x : txn_st) (dbi : nat) (d : db_st) (s' : lmdb) : Prop :=
  envs s' = envs s /\ txns s' = <[t := upd_db dbi d x]> (txns s) /\
  curs_moved t dbi (curs s) (curs s').

Fixpoint assoc (name : bytes) (l : list (bytes * nat)) : option nat :=
  match l with
  | [] => None
  | (n, i) :: l' => if decide (n = name) then Some i else assoc name l'
  end.

Definition opened (x : env_st) : env_st := MkEnv true (env_dbs x) (env_names x).

Definition close_dbi (dbi : nat) (x : env_st) : env_st :=
  MkEnv (env_opened x) (delete dbi (env_dbs x)) (filter (fun p => snd p <> dbi) (env_names x)).

Definition renewed (x : txn_st) (ex : env_st) : txn_st :=
  MkTxn (txn_env x) true true (env_dbs ex) (env_names ex) ∅.

(** The database after a deletion, if there is something to delete. *)
Definition db_after_del (d : db_st) (k : bytes) (ov : option bytes) : option db_st :=
  let present := match s_get (db_kc d) k (db_data d) with Some _ => true | None => false end in
  match (if db_dup d then ov else None) with
  | None => if present then Some (set_data (s_del (db_kc d) k (db_data d)) d) else None
  | Some v =>
      if s_mem (db_kc d) (db_dc d) k v (db_data d)
      then Some (set_data (s_del_pair (db_kc d) (db_dc d) k v (db_data d)) d) else None
  end.

Definition db_after_put (d : db_st) (k v : bytes) : db_st :=
  set_data (s_put (db_kc d) (db_odc d) k v (db_data d)) d.

(** A write transaction that has the database, with its view of it. *)
Definition writable (s : lmdb) (t dbi : nat) : option (txn_st * db_st) :=
  x ← txns s !! t;
  if txn_ro x then None else (fun d => (x, d)) <$> txn_dbs x !! dbi.

Definition mdb_answers X (s : lmdb) (c : mdb_call X) : X -> lmdb -> Prop :=
  match c in mdb_call X return X -> lmdb -> Prop with
  | mdb_env_create => fun r s' =>
      (exists h, r = (0, Some h) /\ envs s !! h = None /\ s' = upd_env h (MkEnv false ∅ []) s)
      \/ (fst r <> 0 /\ snd r = None /\ s' = s)
  | mdb_env_set_mapsize _ _ | mdb_env_set_maxdbs _ _ | mdb_reader_check _ | mdb_env_sync _ _ =>
      fun _ s' => s' = s
  | mdb_env_open e _ _ _ => fun rc s' =>
      (rc = 0 /\ exists h x, e = Some h /\ envs s !! h = Some x /\ s' = upd_env h (opened x) s)
      \/ (rc <> 0 /\ s' = s)
  | mdb_env_close e => fun _ s' => s' = match e with Some h => del_env h s | None => s end
  | mdb_txn_begin e _ flags => fun r s' =>
      (exists h eh ex, r = (0, Some h) /\ e = Some eh /\ envs s !! eh = Some ex /\
         txns s !! h = None /\ (is_ro flags = true -> no_reader s eh) /\
         s' = upd_txn h (MkTxn eh (is_ro flags) true (env_dbs ex) (env_names ex) ∅) s)
      \/ (fst r <> 0 /\ snd r = None /\ s' = s)
  | mdb_txn_commit t => fun rc s' =>
      match t with
      | None => rc = EINVAL /\ s' = s
      | Some h => exists x, txns s !! h = Some x /\
          if txn_ro x then rc = 0 /\ s' = end_txn h true s
          else (rc = 0 /\ exists ex, envs s !! txn_env x = Some ex /\
                  s' = upd_env (txn_env x) (MkEnv (env_opened ex) (txn_dbs x) (txn_names x))
                         (end_txn h false s))
               \/ (rc <> 0 /\ s' = end_txn h false s)
      end
  | mdb_txn_abort t => fun _ s' =>
      match t with
      | None => s' = s
      | Some h => exists x, txns s !! h = Some x /\ s' = end_txn h (txn_ro x) s
      end
  | mdb_txn_reset t => fun _ s' =>
      match t with
      | None => s' = s
      | Some h => exists x, txns s !! h = Some x /\
          s' = if txn_ro x
               then reset_txn h x s else s
      end
  | mdb_txn_renew t => fun rc s' =>
      match t with
      | None => rc = EINVAL /\ s' = s
      | Some h => exists x, txns s !! h = Some x /\
          if txn_ro x && negb (txn_live x) then
            (rc = 0 /\ no_reader s (txn_env x) /\
             exists ex, envs s !! txn_env x = Some ex /\ s' = upd_txn h (renewed x ex) s)
            \/ (rc <> 0 /\ s' = s)
          else rc = EINVAL /\ s' = s
      end
  | mdb_dbi_open t name flags => fun r s' =>
      (exists h x, t = Some h /\ txns s !! h = Some x /\
         ((exists d, r = (0, Some d) /\ assoc name (txn_names x) = Some d /\ s' = s) \/
          (exists d l, r = (0, Some d) /\ assoc name (txn_names x) = None /\
             txn_dbs x !! d = None /\
             s' = upd_txn h (MkTxn (txn_env x) (txn_ro x) true
                               (<[d := MkDb (is_dup flags) lexical lexical l]> (txn_dbs x))
                               ((name, d) :: txn_names x) ({[d]} ∪ txn_dirty x)) s)))
      \/ (fst r <> 0 /\ snd r = None /\ s' = s)
  | mdb_dbi_close e dbi => fun _ s' =>
      exists h x, e = Some h /\ envs s !! h = Some x /\ s' = upd_env h (close_dbi dbi x) s
  | mdb_set_compare t dbi c => fun rc s' =>
      rc = 0 /\ exists h x d, t = Some h /\ txns s !! h = Some x /\ txn_dbs x !! dbi = Some d /\
        s' = upd_txn h (set_db dbi (set_kc c d) x) s
  | mdb_set_dupsort t dbi c => fun rc s' =>
      rc = 0 /\ exists h x d, t = Some h /\ txns s !! h = Some x /\ txn_dbs x !! dbi = Some d /\
        s' = upd_txn h (set_db dbi (set_dc c d) x) s
  | mdb_get t dbi k => fun r s' =>
      s' = s /\
      match t ≫= fun h => txn_db s h dbi with
      | None => fst r = EINVAL
      | Some d =>
          match s_get (db_kc d) k (db_data d) with
          | Some v => r = (0, v)
          | None => fst r = MDB_NOTFOUND
          end \/ fails (fst r)
      end
  | mdb_put t dbi k v _ => fun rc s' =>
      match t ≫= fun h => (pair h) <$> writable s h dbi with
      | None => fails rc /\ s' = s
      | Some (h, (x, d)) =>
          (rc = 0 /\ txn_updated s h x dbi (db_after_put d k v) s') \/ (fails rc /\ s' = s)
      end
  | mdb_del t dbi k ov => fun rc s' =>
      match t ≫= fun h => (pair h) <$> writable s h dbi with
      | None => fails rc /\ s' = s
      | Some (h, (x, d)) =>
          match db_after_del d k ov with
          | Some d' => rc = 0 /\ txn_updated s h x dbi d' s'
          | None => rc = MDB_NOTFOUND /\ s' = s
          end \/ (fails rc /\ s' = s)
      end
  | mdb_cursor_open t dbi => fun r s' =>
      (exists h x c, t = Some h /\ txns s !! h = Some x /\ is_Some (txn_db s h dbi) /\
         r = (0, Some c) /\ curs s !! c = None /\
         s' = upd_cur c (MkCur (txn_env x) h (txn_ro x) false dbi None) s)
      \/ (fails (fst r) /\ snd r = None /\ s' = s)
  | mdb_cursor_close c => fun _ s' =>
      s' = match c with Some h => del_cur h s | None => s end
  | mdb_cursor_renew t c => fun rc s' =>
      (exists th x ch cu, t = Some th /\ c = Some ch /\ txns s !! th = Some x /\
         curs s !! ch = Some cu /\ txn_ro x = true /\ cur_ro cu = true /\
         is_Some (txn_db s th (cur_dbi cu)) /\ rc = 0 /\
         s' = upd_cur ch (MkCur (txn_env x) th true false (cur_dbi cu) None) s)
      \/ (fails rc /\ s' = s)
  | mdb_cursor_get c k v op => fun r s' =>
      match c with
      | None => fst r = EINVAL /\ s' = s
      | Some h => exists cu, curs s !! h = Some cu /\
          ((exists d, txn_db s (cur_txn cu) (cur_dbi cu) = Some d /\
              match cur_move d (cur_pos cu) op k v with
              | inr i => exists p, db_data d !! i = Some p /\ r = (0, p) /\
                           s' = upd_cur h (set_pos (Some i) cu) s
              | inl rc => fst r = rc /\
                  exists p, s' = upd_cur h (set_pos p cu) s /\
                    (op = MDB_GET_CURRENT -> p = cur_pos cu)
              end)
           \/ (fails (fst r) /\ s' = s))
      end
  | mdb_cursor_del c _ => fun rc s' =>
      exists h cu, c = Some h /\ curs s !! h = Some cu /\
        match writable s (cur_txn cu) (cur_dbi cu), cur_pos cu with
        | Some (x, d), Some i =>
            (rc = 0 /\ (i < length (db_data d))%nat /\
             txn_updated s (cur_txn cu) x (cur_dbi cu) (set_data (delete i (db_data d)) d) s')
            \/ (rc <> 0 /\ s' = s)
        | _, _ => fails rc /\ s' = s
        end
  end.

Definition LMDB : api mdb_call := Api lmdb mdb_allowed mdb_answers.

(** LMDB while nothing but another reader of the thread keeps a read-only
    transaction or its cursors from being renewed: no other process grows the
    map, no fatal error of the environment. *)
Definition renewals X (s : lmdb) (c : mdb_call X) : X -> Prop :=
  match c in mdb_call X return X -> Prop with
  | mdb_txn_renew t => fun rc =>
      forall h x, t = Some h -> txns s !! h = Some x -> txn_ro x = true -> txn_live x = false ->
        is_Some (envs s !! txn_env x) -> no_reader s (txn_env x) -> rc = 0
  | mdb_cursor_renew t c => fun rc =>
      forall th x ch cu, t = Some th -> c = Some ch -> txns s !! th = Some x ->
        curs s !! ch = Some cu -> txn_ro x = true -> cur_ro cu = true ->
        is_Some (txn_db s th (cur_dbi cu)) -> rc = 0
  | _ => fun _ => True
  end.

Definition LMDB_steady : api mdb_call :=
  Api lmdb mdb_allowed (fun X s c x s' => mdb_answers X s c x s' /\ renewals X s c x).

(** The sizes lmdb.h asks of keys, and of the data in a database with duplicates;
    511 is [mdb_env_get_maxkeysize].  Other data has up to 2^32 - 1 bytes. *)
Definition MDB_MAXKEYSIZE : nat := 511.
Definition key_size_ok (k : bytes) : Prop := (1 <= length k <= MDB_MAXKEYSIZE)%nat.
Definition data_size_ok (dup : bool) (v : bytes) : Prop := if dup then key_size_ok v else Z.of_nat (length v) <= 0xffffffff.

(** LMDB while it does not run out of anything: every call that can succeed by
    the rules of the interface does, those with a key or data of a size it does
    not support (MDB_BAD_VALSIZE) not among them. *)
Definition succeeds X (s : lmdb) (c : mdb_call X) : X -> Prop :=
  match c in mdb_call X return X -> Prop with
  | mdb_txn_begin e _ flags => fun r =>
      forall h, e = Some h -> (is_ro flags = true -> no_reader s h) -> fst r = 0
  | mdb_txn_commit t => fun rc =>
      forall h x, t = Some h -> txns s !! h = Some x -> is_Some (envs s !! txn_env x) -> rc = 0
  | mdb_get t dbi k => fun r =>
      forall d, t ≫= (fun h => txn_db s h dbi) = Some d -> key_size_ok k -> ~ fails (fst r)
  | mdb_put t dbi k v _ => fun rc =>
      forall h x d, t = Some h -> writable s h dbi = Some (x, d) -> key_size_ok k -> data_size_ok (db_dup d) v ->
        ~ fails rc
  | mdb_del t dbi k ov => fun rc =>
      forall h x d, t = Some h -> writable s h dbi = Some (x, d) -> key_size_ok k ->
        (forall v, ov = Some v -> data_size_ok (db_dup d) v) -> ~ fails rc
  | mdb_cursor_open t dbi => fun r =>
      forall h, t = Some h -> is_Some (txn_db s h dbi) -> fst r = 0
  | mdb_cursor_get c k v op => fun r =>
      forall h cu d, c = Some h -> curs s !! h = Some cu ->
        txn_db s (cur_txn cu) (cur_dbi cu) = Some d ->
        (op_uses_key op = true -> key_size_ok k) -> (op_uses_data op = true -> data_size_ok (db_dup d) v) ->
        match cur_move d (cur_pos cu) op k v with
        | inl rc => fst r = rc
        | inr i => is_Some (db_data d !! i) -> fst r = 0
        end
  | mdb_cursor_del c _ => fun rc =>
      forall h cu x d i, c = Some h -> curs s !! h = Some cu ->
        writable s (cur_txn cu) (cur_dbi cu) = Some (x, d) -> cur_pos cu = Some i ->
        (i < length (db_data d))%nat -> rc = 0
  | _ => fun _ => True
  end.

Definition sure X (s : lmdb) (c : mdb_call X) (x : X) (s' : lmdb) : Prop :=
  mdb_answers X s c x s' /\ renewals X s c x /\ succeeds X s c x.

Definition LMDB_sure : api mdb_call := Api lmdb mdb_allowed sure.
