(* ===== verification/LmdbEngine.v ===== *)
(** * A reference LMDB

    An executable engine that meets the contract of [LmdbApi]: calls succeed
    whenever the contract lets them, and handles come from a counter.  It shows
    that the contract can be met, and runs the witnesses. *)
From S2P Require Import Prelude Prog Store LmdbApi.

Definition MDB_BAD_RSLOT : Z := -30783.

(** The machine state and the next unused handle. *)
Abbreviation world := (lmdb * nat)%type.

Definition reader_free (s : lmdb) (e : nat) : bool :=
  bool_decide (map_Forall
    (fun _ x => txn_env x = e -> txn_ro x = true -> txn_live x = false) (txns s)).

Definition with_env (e : ptr) (s : lmdb) (f : nat -> env_st -> lmdb) : lmdb :=
  match e with
  | Some h => match envs s !! h with Some x => f h x | None => s end
  | None => s
  end.

Definition exec_begin (s : lmdb) (n : nat) (e : ptr) (flags : Z) : (Z * ptr) * world :=
  match e ≫= fun h => (pair h) <$> envs s !! h with
  | Some (h, ex) =>
      if is_ro flags && negb (reader_free s h) then ((MDB_BAD_RSLOT, None), (s, n))
      else ((0, Some n), (upd_txn n (MkTxn h (is_ro flags) true (env_dbs ex) (env_names ex) ∅) s, S n))
  | None => ((EINVAL, None), (s, n))
  end.

Definition exec_commit (s : lmdb) (t : ptr) : Z * lmdb :=
  match t ≫= fun h => (pair h) <$> txns s !! h with
  | Some (h, x) =>
      if txn_ro x then (0, end_txn h true s)
      else match envs s !! txn_env x with
           | Some ex => (0, upd_env (txn_env x) (MkEnv (env_opened ex) (txn_dbs x) (txn_names x))
                              (end_txn h false s))
           | None => (EINVAL, end_txn h false s)
           end
  | None => (EINVAL, s)
  end.

Definition exec_renew (s : lmdb) (t : ptr) : Z * lmdb :=
  match t ≫= fun h => (pair h) <$> txns s !! h with
  | Some (h, x) =>
      if txn_ro x && negb (txn_live x) then
        if reader_free s (txn_env x) then
          match envs s !! txn_env x with
          | Some ex => (0, upd_txn h (renewed x ex) s)
          | None => (EINVAL, s)
          end
        else (MDB_BAD_RSLOT, s)
      else (EINVAL, s)
  | None => (EINVAL, s)
  end.

Definition exec_dbi_open (s : lmdb) (n : nat) (t : ptr) (name : bytes) (flags : Z)
    : (Z * option nat) * world :=
  match t ≫= fun h => (pair h) <$> txns s !! h with
  | Some (h, x) =>
      match assoc name (txn_names x) with
      | Some d => ((0, Some d), (s, n))
      | None =>
          if bool_decide (txn_dbs x !! n = None) then
            ((0, Some n),
             (upd_txn h (MkTxn (txn_env x) (txn_ro x) true
                (<[n := MkDb (is_dup flags) lexical lexical []]> (txn_dbs x))
                ((name, n) :: txn_names x) ({[n]} ∪ txn_dirty x)) s, S n))
          else ((EINVAL, None), (s, n))
      end
  | None => ((EINVAL, None), (s, n))
  end.

Definition exec_set_db (s : lmdb) (t : ptr) (dbi : nat) (f : db_st -> db_st) : lmdb :=
  match t ≫= fun h => (pair h) <$> txns s !! h with
  | Some (h, x) =>
      match txn_dbs x !! dbi with Some d => upd_txn h (set_db dbi (f d) x) s | None => s end
  | None => s
  end.

Definition exec_get (s : lmdb) (t : ptr) (dbi : nat) (k : bytes) : Z * bytes :=
  match t ≫= fun h => txn_db s h dbi with
  | None => (EINVAL, [])
  | Some d => match s_get (db_kc d) k (db_data d) with
              | Some v => (0, v)
              | None => (MDB_NOTFOUND, [])
              end
  end.

Definition exec_put (s : lmdb) (t : ptr) (dbi : nat) (k v : bytes) : Z * lmdb :=
  match t ≫= fun h => (pair h) <$> writable s h dbi with
  | None => (EACCES, s)
  | Some (h, (x, d)) => (0, upd_txn h (upd_db dbi (db_after_put d k v) x) s)
  end.

Definition exec_del (s : lmdb) (t : ptr) (dbi : nat) (k : bytes) (ov : option bytes) : Z * lmdb :=
  match t ≫= fun h => (pair h) <$> writable s h dbi with
  | None => (EACCES, s)
  | Some (h, (x, d)) =>
      match db_after_del d k ov with
      | Some d' => (0, upd_txn h (upd_db dbi d' x) s)
      | None => (MDB_NOTFOUND, s)
      end
  end.

Definition exec_cursor_open (s : lmdb) (n : nat) (t : ptr) (dbi : nat) : (Z * ptr) * world :=
  match t ≫= fun h => (pair h) <$> txns s !! h with
  | Some (h, x) =>
      match txn_db s h dbi with
      | Some _ => ((0, Some n), (upd_cur n (MkCur (txn_env x) h (txn_ro x) false dbi None) s, S n))
      | None => ((EINVAL, None), (s, n))
      end
  | None => ((EINVAL, None), (s, n))
  end.

Definition exec_cursor_renew (s : lmdb) (t c : ptr) : Z * lmdb :=
  match t ≫= fun h => (pair h) <$> txns s !! h, c ≫= fun h => (pair h) <$> curs s !! h with
  | Some (th, x), Some (ch, cu) =>
      if txn_ro x && cur_ro cu then
        match txn_db s th (cur_dbi cu) with
        | Some _ => (0, upd_cur ch (MkCur (txn_env x) th true false (cur_dbi cu) None) s)
        | None => (EINVAL, s)
        end
      else (EINVAL, s)
  | _, _ => (EINVAL, s)
  end.

Definition exec_cursor_get (s : lmdb) (c : ptr) (k v : bytes) (op : MDB_cursor_op)
    : (Z * (bytes * bytes)) * lmdb :=
  match c ≫= fun h => (pair h) <$> curs s !! h with
  | Some (h, cu) =>
      match txn_db s (cur_txn cu) (cur_dbi cu) with
      | Some d =>
          match cur_move d (cur_pos cu) op k v with
          | inr i => match db_data d !! i with
                     | Some p => ((0, p), upd_cur h (set_pos (Some i) cu) s)
                     | None => ((EINVAL, ([], [])), s)
                     end
          | inl rc => ((rc, ([], [])), upd_cur h (set_pos (cur_pos cu) cu) s)
          end
      | None => ((EINVAL, ([], [])), s)
      end
  | None => ((EINVAL, ([], [])), s)
  end.

Definition exec_cursor_del (s : lmdb) (c : ptr) : Z * lmdb :=
  match c ≫= fun h => curs s !! h with
  | Some cu =>
      match writable s (cur_txn cu) (cur_dbi cu), cur_pos cu with
      | Some (x, d), Some i =>
          if (i <? length (db_data d))%nat then
            (0, upd_txn (cur_txn cu) (upd_db (cur_dbi cu) (set_data (delete i (db_data d)) d) x) s)
          else (MDB_NOTFOUND, s)
      | _, _ => (EINVAL, s)
      end
  | None => (EINVAL, s)
  end.

Definition keep {X} (r : X * lmdb) (n : nat) : X * world := (fst r, (snd r, n)).

Definition mdb_exec X (c : mdb_call X) (w : world) : X * world :=
  let '(s, n) := w in
  match c in mdb_call X return X * world with
  | mdb_env_create => ((0, Some n), (upd_env n (MkEnv false ∅ []) s, S n))
  | mdb_env_set_mapsize _ _ | mdb_env_set_maxdbs _ _ | mdb_reader_check _ | mdb_env_sync _ _ =>
      (0, (s, n))
  | mdb_env_open e _ _ _ =>
      (match e with Some _ => 0 | None => EINVAL end, (with_env e s (fun h x => upd_env h (opened x) s), n))
  | mdb_env_close e => (tt, (match e with Some h => del_env h s | None => s end, n))
  | mdb_txn_begin e _ flags => exec_begin s n e flags
  | mdb_txn_commit t => keep (exec_commit s t) n
  | mdb_txn_abort t =>
      (tt, (match t ≫= fun h => (pair h) <$> txns s !! h with
            | Some (h, x) => end_txn h (txn_ro x) s
            | None => s
            end, n))
  | mdb_txn_reset t =>
      (tt, (match t ≫= fun h => (pair h) <$> txns s !! h with
            | Some (h, x) =>
                if txn_ro x then reset_txn h x s else s
            | None => s
            end, n))
  | mdb_txn_renew t => keep (exec_renew s t) n
  | mdb_dbi_open t name flags => exec_dbi_open s n t name flags
  | mdb_dbi_close e dbi => (tt, (with_env e s (fun h x => upd_env h (close_dbi dbi x) s), n))
  | mdb_set_compare t dbi c => (0, (exec_set_db s t dbi (set_kc c), n))
  | mdb_set_dupsort t dbi c => (0, (exec_set_db s t dbi (set_dc c), n))
  | mdb_get t dbi k => (exec_get s t dbi k, (s, n))
  | mdb_put t dbi k v _ => keep (exec_put s t dbi k v) n
  | mdb_del t dbi k ov => keep (exec_del s t dbi k ov) n
  | mdb_cursor_open t dbi => exec_cursor_open s n t dbi
  | mdb_cursor_close c => (tt, (match c with Some h => del_cur h s | None => s end, n))
  | mdb_cursor_renew t c => keep (exec_cursor_renew s t c) n
  | mdb_cursor_get c k v op => keep (exec_cursor_get s c k v op) n
  | mdb_cursor_del c _ => keep (exec_cursor_del s c) n
  end.

(** Every handle in use is below the counter. *)
Definition handles_below (s : lmdb) (n : nat) : Prop :=
  (forall h, is_Some (envs s !! h) -> (h < n)%nat) /\
  (forall h, is_Some (txns s !! h) -> (h < n)%nat) /\
  (forall h, is_Some (curs s !! h) -> (h < n)%nat).

Definition world_abs (w : world) (s : lmdb) : Prop := fst w = s /\ handles_below s (snd w).

(** ** Conformance *)
Lemma below_env h x s n : (h < n)%nat -> handles_below s n -> handles_below (upd_env h x s) n.
Proof.
  intros Hh (E & T & C). split_and!; cbn; [|done|done].
  intros h'. rewrite lookup_insert_is_Some. intros [->|[_ ?]]; [done|by apply E].
Qed.

Lemma below_txn h x s n : (h < n)%nat -> handles_below s n -> handles_below (upd_txn h x s) n.
Proof.
  intros Hh (E & T & C). split_and!; cbn; [done| |done].
  intros h'. rewrite lookup_insert_is_Some. intros [->|[_ ?]]; [done|by apply T].
Qed.

Lemma below_cur h x s n : (h < n)%nat -> handles_below s n -> handles_below (upd_cur h x s) n.
Proof.
  intros Hh (E & T & C). split_and!; cbn; [done|done|].
  intros h'. rewrite lookup_insert_is_Some. intros [->|[_ ?]]; [done|by apply C].
Qed.

Lemma below_S s n : handles_below s n -> handles_below s (S n).
Proof. intros (E & T & C). split_and!; intros h H; [apply E in H|apply T in H|apply C in H]; lia. Qed.

Lemma below_end_txn t ro s n : handles_below s n -> handles_below (end_txn t ro s) n.
Proof.
  intros (E & T & C). unfold end_txn. split_and!; cbn; [done| |].
  - intros h. rewrite lookup_delete_is_Some. intros [_ ?]. by apply T.
  - intros h. destruct ro.
    + rewrite lookup_fmap, fmap_is_Some. apply C.
    + intros [x Hx]. apply map_lookup_filter_Some in Hx as [Hx _]. apply C. by exists x.
Qed.

Lemma below_reset_txn t x s n :
  is_Some (txns s !! t) -> handles_below s n -> handles_below (reset_txn t x s) n.
Proof.
  intros Ht (E & T & C). split_and!; cbn; [done| |].
  - intros h. rewrite lookup_insert_is_Some. intros [<-|[_ ?]]; by apply T.
  - intros h. rewrite lookup_fmap, fmap_is_Some. apply C.
Qed.

Lemma below_del_env h s n : handles_below s n -> handles_below (del_env h s) n.
Proof.
  intros (E & T & C). split_and!; cbn; [|done|done].
  intros h'. rewrite lookup_delete_is_Some. intros [_ ?]. by apply E.
Qed.

Lemma below_del_cur h s n : handles_below s n -> handles_below (del_cur h s) n.
Proof.
  intros (E & T & C). split_and!; cbn; [done|done|].
  intros h'. rewrite lookup_delete_is_Some. intros [_ ?]. by apply C.
Qed.

#[export] Hint Resolve below_env below_txn below_cur below_S below_end_txn below_reset_txn below_del_env
  below_del_cur : kv.

Lemma lookup_below {A} (m : gmap nat A) n :
  (forall h, is_Some (m !! h) -> (h < n)%nat) -> m !! n = None.
Proof. intros H. destruct (m !! n) eqn:E; [|done]. specialize (H n (ex_intro _ _ E)). lia. Qed.

Lemma curs_moved_refl t dbi m : curs_moved t dbi m m.
Proof.
  intros c. destruct (m !! c) as [a|] eqn:E; rewrite ?E; [|done].
  exists (cur_pos a). split; [by destruct a|by right].
Qed.

Lemma txn_updated_upd s t x dbi d : txn_updated s t x dbi d (upd_txn t (upd_db dbi d x) s).
Proof. split_and!; [done|done|apply curs_moved_refl]. Qed.

Lemma reader_free_spec s e : reader_free s e = true -> no_reader s e.
Proof. intros H%bool_decide_eq_true t x Ht. by apply (H t x Ht). Qed.

Lemma writable_Some s h dbi x d : writable s h dbi = Some (x, d) -> txns s !! h = Some x.
Proof.
  unfold writable. destruct (txns s !! h) as [y|]; cbn; [|done].
  destruct (txn_ro y); [done|]. by destruct (txn_dbs y !! dbi); cbn; intros [= <- <-].
Qed.

#[export] Hint Resolve curs_moved_refl txn_updated_upd reader_free_spec : kv.

(** One call of the engine, given that the rest of the state is in order. *)
Definition step_ok {X} (s : lmdb) (n : nat) (c : mdb_call X) (r : X * world) : Prop :=
  exists s', mdb_answers X s c (fst r) s' /\ world_abs (snd r) s'.

Lemma step_intro {X} s n (c : mdb_call X) r :
  mdb_answers X s c (fst r) (fst (snd r)) -> handles_below (fst (snd r)) (snd (snd r)) ->
  step_ok s n c r.
Proof. intros. by exists (fst (snd r)). Qed.

Lemma exec_begin_ok s n e p flags :
  handles_below s n -> mdb_allowed _ s (mdb_txn_begin e p flags) ->
  step_ok s n (mdb_txn_begin e p flags) (exec_begin s n e flags).
Proof.
  intros HB (-> & h & x & -> & Hx & _ & _). unfold exec_begin. cbn. rewrite Hx. cbn.
  destruct (is_ro flags && negb (reader_free s h)) eqn:Er.
  - apply step_intro; cbn; [by right|done].
  - apply step_intro; cbn; [|auto with kv]. left. exists n, h, x. split_and!; try done.
    + apply lookup_below, HB.
    + intros Hro. rewrite Hro in Er. apply reader_free_spec.
      by destruct (reader_free s h).
Qed.

Lemma exec_commit_ok s n t :
  handles_below s n -> mdb_allowed _ s (mdb_txn_commit t) ->
  step_ok s n (mdb_txn_commit t) (keep (exec_commit s t) n).
Proof.
  intros HB HA. unfold exec_commit, keep. destruct t as [h|]; cbn; [|by apply step_intro].
  destruct (HA h eq_refl) as [x Hx]. rewrite Hx. cbn. pose proof HB as (E & T & C).
  destruct (txn_ro x) eqn:Hro.
  - apply step_intro; cbn; [|auto with kv]. cbn. exists x. by rewrite Hro.
  - destruct (envs s !! txn_env x) as [ex|] eqn:He.
    + apply step_intro; cbn; [|eauto with kv]. cbn. exists x. rewrite Hro.
      split; [done|]. left. split; [done|]. by exists ex.
    + apply step_intro; cbn; [|auto with kv]. cbn. exists x. rewrite Hro. split; [done|]. by right.
Qed.

Lemma exec_renew_ok s n t :
  handles_below s n -> mdb_allowed _ s (mdb_txn_renew t) ->
  step_ok s n (mdb_txn_renew t) (keep (exec_renew s t) n).
Proof.
  intros HB HA. unfold exec_renew, keep. destruct t as [h|]; cbn; [|by apply step_intro].
  destruct (HA h eq_refl) as [x Hx]. rewrite Hx. cbn. pose proof HB as (E & T & C).
  destruct (txn_ro x && negb (txn_live x)) eqn:Hro.
  - destruct (reader_free s (txn_env x)) eqn:Hf; [destruct (envs s !! txn_env x) as [ex|] eqn:He|].
    + apply step_intro; cbn; [|eauto with kv]. cbn. exists x. rewrite Hro. split; [done|].
      left. split_and!; [done|auto with kv|]. by exists ex.
    + apply step_intro; cbn; [|done]. cbn. exists x. rewrite Hro. split; [done|by right].
    + apply step_intro; cbn; [|done]. cbn. exists x. rewrite Hro. split; [done|by right].
  - apply step_intro; cbn; [|done]. cbn. exists x. by rewrite Hro.
Qed.

Lemma exec_dbi_open_ok s n t name flags :
  handles_below s n -> mdb_allowed _ s (mdb_dbi_open t name flags) ->
  step_ok s n (mdb_dbi_open t name flags) (exec_dbi_open s n t name flags).
Proof.
  intros HB (h & x & -> & Hx & Hl). pose proof HB as (E & T & C).
  unfold exec_dbi_open. cbn. rewrite Hx. cbn.
  destruct (assoc name (txn_names x)) as [d|] eqn:Ha.
  - apply step_intro; cbn; [|done]. left. exists h, x. split_and!; [done|done|]. left. by exists d.
  - case_bool_decide as Hd.
    + apply step_intro; cbn; [|eauto with kv]. left. exists h, x. split_and!; [done|done|].
      right. by exists n, [].
    + apply step_intro; cbn; [by right|done].
Qed.

Lemma exec_set_db_ok s n t dbi f c :
  handles_below s n -> (exists h d, t = Some h /\ txn_db s h dbi = Some d) ->
  (forall h x d, t = Some h -> txns s !! h = Some x -> txn_dbs x !! dbi = Some d ->
     mdb_answers _ s c 0 (upd_txn h (set_db dbi (f d) x) s)) ->
  step_ok s n c (0, (exec_set_db s t dbi f, n)).
Proof.
  intros HB (h & d & -> & Hd) Hc. pose proof HB as (E & T & C).
  unfold txn_db in Hd. destruct (txns s !! h) as [x|] eqn:Hx; cbn in Hd; [|done].
  destruct (txn_live x); [|done]. unfold exec_set_db. cbn. rewrite Hx. cbn. rewrite Hd.
  apply step_intro; cbn; [by apply Hc|eauto with kv].
Qed.

Lemma exec_put_ok s n t dbi k v fl :
  handles_below s n -> step_ok s n (mdb_put t dbi k v fl) (keep (exec_put s t dbi k v) n).
Proof.
  intros HB. pose proof HB as (E & T & C). unfold exec_put, keep.
  destruct (t ≫= _) as [[h [x d]]|] eqn:Ht; cbn.
  - apply step_intro.
    + cbn. rewrite Ht. left. auto with kv.
    + apply below_txn; [|done]. apply T.
      destruct t as [h'|]; cbn in Ht; [|done].
      destruct (writable s h' dbi) as [[]|] eqn:Hw; cbn in Ht; [|done].
      injection Ht as -> -> ->. apply writable_Some in Hw. by exists x.
  - apply step_intro; cbn; [|done]. cbn. by rewrite Ht.
Qed.

Lemma exec_del_ok s n t dbi k ov :
  handles_below s n -> step_ok s n (mdb_del t dbi k ov) (keep (exec_del s t dbi k ov) n).
Proof.
  intros HB. pose proof HB as (E & T & C). unfold exec_del, keep.
  destruct (t ≫= _) as [[h [x d]]|] eqn:Ht; cbn.
  - destruct (db_after_del d k ov) as [d'|] eqn:Hd; cbn; apply step_intro; try done.
    + cbn. rewrite Ht, Hd. left. auto with kv.
    + apply below_txn; [|done]. apply T.
      destruct t as [h'|]; cbn in Ht; [|done].
      destruct (writable s h' dbi) as [[]|] eqn:Hw; cbn in Ht; [|done].
      injection Ht as -> -> ->. apply writable_Some in Hw. by exists x.
    + cbn. rewrite Ht, Hd. by left.
  - apply step_intro; cbn; [|done]. cbn. by rewrite Ht.
Qed.

Lemma exec_cursor_open_ok s n t dbi :
  handles_below s n -> step_ok s n (mdb_cursor_open t dbi) (exec_cursor_open s n t dbi).
Proof.
  intros HB. unfold exec_cursor_open. destruct t as [h|]; cbn; [|by apply step_intro; cbn; [right|]].
  destruct (txns s !! h) as [x|] eqn:Hx; cbn; [|by apply step_intro; cbn; [right|]].
  destruct (txn_db s h dbi) as [d|] eqn:Hd; [|by apply step_intro; cbn; [right|]].
  apply step_intro; cbn; [|auto with kv]. left. exists h, x, n.
  split_and!; try done. apply lookup_below, HB.
Qed.

Lemma exec_cursor_renew_ok s n t c :
  handles_below s n ->
  step_ok s n (mdb_cursor_renew t c) (keep (exec_cursor_renew s t c) n).
Proof.
  intros HB. pose proof HB as (E & T & C). unfold exec_cursor_renew, keep.
  destruct t as [h|]; cbn; [|by apply step_intro; cbn; [right|]].
  destruct (txns s !! h) as [x|] eqn:Hx; cbn; [|by apply step_intro; cbn; [right|]].
  destruct c as [ch|]; cbn; [|by apply step_intro; cbn; [right|]].
  destruct (curs s !! ch) as [cu|] eqn:Hc; cbn; [|by apply step_intro; cbn; [right|]].
  destruct (txn_ro x && cur_ro cu) eqn:Hro; cbn; [|by apply step_intro; cbn; [right|]].
  apply andb_true_iff in Hro as [Hrx Hrc].
  destruct (txn_db s h (cur_dbi cu)) as [d|] eqn:Hd; cbn; [|by apply step_intro; cbn; [right|]].
  apply step_intro; cbn; [|eauto with kv]. left. by exists h, x, ch, cu.
Qed.

Lemma exec_cursor_get_ok s n c k v op :
  handles_below s n -> mdb_allowed _ s (mdb_cursor_get c k v op) ->
  step_ok s n (mdb_cursor_get c k v op) (keep (exec_cursor_get s c k v op) n).
Proof.
  intros HB HA. pose proof HB as (E & T & C). unfold exec_cursor_get, keep.
  destruct c as [h|]; cbn; [|by apply step_intro].
  destruct (HA h eq_refl) as (cu & x & Hc & _ & _). rewrite Hc. cbn.
  destruct (txn_db s (cur_txn cu) (cur_dbi cu)) as [d|] eqn:Hd;
    [|by apply step_intro; cbn; [exists cu; split; [|right]|]].
  destruct (cur_move d (cur_pos cu) op k v) as [rc|i] eqn:Hm.
  - apply step_intro; cbn; [|eauto with kv]. exists cu. split; [done|]. left. exists d.
    rewrite Hm. split_and!; [done|done|]. by exists (cur_pos cu).
  - destruct (db_data d !! i) as [p|] eqn:Hp;
      [|by apply step_intro; cbn; [exists cu; split; [|right]|]].
    apply step_intro; cbn; [|eauto with kv]. exists cu. split; [done|]. left. exists d.
    rewrite Hm. split; [done|]. by exists p.
Qed.

Lemma exec_cursor_del_ok s n c fl :
  handles_below s n -> mdb_allowed _ s (mdb_cursor_del c fl) ->
  step_ok s n (mdb_cursor_del c fl) (keep (exec_cursor_del s c) n).
Proof.
  intros HB (h & cu & x & -> & Hc & _ & Hx & _). pose proof HB as (E & T & C).
  unfold exec_cursor_del, keep. cbn [mbind option_bind]. rewrite Hc.
  assert (HI : forall r, match writable s (cur_txn cu) (cur_dbi cu), cur_pos cu with
      | Some (x, d), Some i =>
          (fst r = 0 /\ (i < length (db_data d))%nat /\
           txn_updated s (cur_txn cu) x (cur_dbi cu) (set_data (delete i (db_data d)) d) (snd r))
          \/ (fst r <> 0 /\ snd r = s)
      | _, _ => fails (fst r) /\ snd r = s end ->
    handles_below (snd r) n -> step_ok s n (mdb_cursor_del (Some h) fl) (fst r, (snd r, n))).
  { intros r Hr Hb. apply step_intro; cbn; [|done]. by exists h, cu. }
  destruct (writable s (cur_txn cu) (cur_dbi cu)) as [[y d]|] eqn:Hw; [|by apply HI].
  destruct (cur_pos cu) as [i|]; [|by apply HI].
  pose proof (writable_Some _ _ _ _ _ Hw) as Hy.
  destruct (Nat.ltb_spec i (length (db_data d))); apply HI; cbn; [|by eauto with kv|by right|done].
  left. split_and!; auto with kv.
Qed.

(** Every call the contract allows is answered as the contract says. *)
#[export] Instance mdb_exec_conforms : Engine LMDB mdb_exec world_abs.
Proof.
  intros X c [s n] s' [Hw HB] HA. cbn in Hw, HB, s'. subst s'. pose proof HB as (E & T & C).
  change (step_ok s n c (mdb_exec X c (s, n))).
  destruct c; cbn [mdb_exec];
    eauto using exec_begin_ok, exec_commit_ok, exec_renew_ok, exec_dbi_open_ok, exec_put_ok,
      exec_del_ok, exec_cursor_open_ok, exec_cursor_renew_ok, exec_cursor_get_ok,
      exec_cursor_del_ok; try (by apply step_intro).
  - apply step_intro; cbn; [|auto with kv]. left. exists n. split_and!; [done| |done].
    apply lookup_below, E.
  - destruct HA as (h & x & -> & Hx). cbn. rewrite Hx.
    apply step_intro; cbn; [|eauto with kv]. left. split; [done|]. by exists h, x.
  - apply step_intro; cbn; [done|]. destruct e; auto with kv.
  - destruct t as [h|]; cbn; [|by apply step_intro].
    destruct (HA h eq_refl) as [x Hx]. rewrite Hx. cbn.
    apply step_intro; cbn; [|auto with kv]. by exists x.
  - destruct t as [h|]; cbn; [|by apply step_intro].
    destruct (HA h eq_refl) as [x Hx]. rewrite Hx. cbn.
    apply step_intro; cbn; [by exists x|]. destruct (txn_ro x); eauto with kv.
  - destruct HA as (h & x & -> & Hx & _). cbn. rewrite Hx.
    apply step_intro; cbn; [|eauto with kv]. by exists h, x.
  - apply exec_set_db_ok; [done..|]. intros h x d ???. split; [done|]. by exists h, x, d.
  - apply exec_set_db_ok; [done..|]. intros h x d ???. split; [done|]. by exists h, x, d.
  - apply step_intro; cbn; [|done]. split; [done|]. unfold exec_get.
    destruct (t ≫= _); cbn; [|done]. left. by destruct (s_get _ _ _).
  - apply step_intro; cbn; [done|]. destruct c; auto with kv.
Qed.

Lemma lmdb0_abs : world_abs (lmdb0, 0%nat) lmdb0.
Proof. split; [done|]. split_and!; cbn; intros h [x Hx]; by rewrite lookup_empty in Hx. Qed.

(** The reference engine fails only where the interface makes it. *)
Lemma reader_free_complete s e : no_reader s e -> reader_free s e = true.
Proof. intros Hn. apply bool_decide_eq_true. intros t x Ht. by apply (Hn t x). Qed.

Lemma mdb_exec_renews X (c : mdb_call X) s n : renewals X s c (fst (mdb_exec X c (s, n))).
Proof.
  destruct c; cbn; try done.
  - intros h x -> Hx Hr Hl [ex Hex] Hn. unfold exec_renew. cbn. rewrite Hx. cbn.
    by rewrite Hr, Hl, (reader_free_complete s _ Hn), Hex.
  - intros th x ch cu -> -> Hx Hc Hr Hrc [d Hd]. unfold exec_cursor_renew. cbn. rewrite Hx, Hc. cbn.
    by rewrite Hr, Hrc, Hd.
Qed.

Lemma mdb_exec_succeeds X (c : mdb_call X) s n :
  mdb_allowed X s c -> succeeds X s c (fst (mdb_exec X c (s, n))).
Proof.
  destruct c; cbn; try done; intros HA.
  - destruct HA as (_ & h & x & -> & Hx & _). intros h' [= <-] Hn. unfold exec_begin. cbn. rewrite Hx. cbn.
    destruct (is_ro flags) eqn:Hr; cbn; [|done]. by rewrite (reader_free_complete s h (Hn eq_refl)).
  - intros h x -> Hx [ex Hex]. unfold exec_commit. cbn. rewrite Hx. cbn.
    destruct (txn_ro x); [done|]. by rewrite Hex.
  - intros d Hd _. unfold exec_get. rewrite Hd. intros [H0 H1]. by destruct (s_get _ _ _).
  - intros h x d -> Hy _ _. unfold exec_put. cbn. rewrite Hy. cbn. by intros [? _].
  - intros h x d -> Hy _ _. unfold exec_del. cbn. rewrite Hy. cbn. intros [H0 H1].
    by destruct (db_after_del d k v).
  - intros h -> [d Hd]. unfold exec_cursor_open. cbn. pose proof Hd as Hd'. unfold txn_db in Hd'.
    destruct (txns s !! h) as [x|]; cbn in *; [|done]. by rewrite Hd.
  - intros h cu d -> Hc Hd _ _. unfold exec_cursor_get. cbn. rewrite Hc. cbn. rewrite Hd.
    destruct (cur_move d (cur_pos cu) op k v) as [rc|i]; cbn; [done|]. intros [p Hp]. by rewrite Hp.
  - intros h cu x d i -> Hc Hw Hp Hi. unfold exec_cursor_del. cbn [mbind option_bind].
    rewrite Hc, Hw, Hp. by rewrite (proj2 (Nat.ltb_lt _ _) Hi).
Qed.

#[export] Instance mdb_exec_sure : Engine LMDB_sure mdb_exec world_abs.
Proof.
  intros X c [s n] s0 [Hw HB] HA. cbn in Hw. subst s0.
  destruct (mdb_exec_conforms X c (s, n) s ltac:(done) HA) as (s' & Hs & HR). exists s'.
  split; [|done]. split; [done|]. split; [apply mdb_exec_renews|by apply mdb_exec_succeeds].
Qed.

#[export] Instance mdb_exec_steady : Engine LMDB_steady mdb_exec world_abs.
Proof.
  intros X c w s HR HA. destruct (mdb_exec_sure X c w s HR HA) as (s' & (Hs & Hr & _) & HR').
  by exists s'.
Qed.
