(* ===== verification/LmdbObjects.v ===== *)
(** * The objects of the LMDB binding

    The classes [env], [txn], [db] and [cursor] of src/src/lmdb and the heap
    they live in.  JavaScript holds the objects by reference, a [db] points to
    its [env], and several methods update an object another one points to, so
    methods work on the whole heap.  A pointer to an LMDB handle is [None] when
    it is NULL. *)
From S2P Require Import Prelude Nan KvTypes Prog Store LmdbApi.

(** ** Classes *)
Record env := Env { e_env : ptr; e_read_lock : ptr }.
Record txn := Txn { t_readonly : bool; t_txn : ptr; t_env : ptr }.
Record db := Db { key_type : kv_type; value_type : kv_type; d_dbi : nat; d_env : nat; d_cur : ptr }.
Record cursor := Cursor { c_key_type : kv_type; c_value_type : kv_type; c_cursor : ptr }.

(** A flush handed to libuv's thread pool. *)
Record uv_env_sync := UvEnvSync { u_dbenv : ptr; u_callback : nat }.

Record heap := Heap {
  h_env : gmap nat env;
  h_txn : gmap nat txn;
  h_db : gmap nat db;
  h_cur : gmap nat cursor;
  h_sync : list uv_env_sync
}.

Definition heap0 : heap := Heap ∅ ∅ ∅ ∅ [].

Definition up_env (f : gmap nat env -> gmap nat env) (h : heap) : heap :=
  Heap (f (h_env h)) (h_txn h) (h_db h) (h_cur h) (h_sync h).
Definition up_txn (f : gmap nat txn -> gmap nat txn) (h : heap) : heap :=
  Heap (h_env h) (f (h_txn h)) (h_db h) (h_cur h) (h_sync h).
Definition up_db (f : gmap nat db -> gmap nat db) (h : heap) : heap :=
  Heap (h_env h) (h_txn h) (f (h_db h)) (h_cur h) (h_sync h).
Definition up_cur (f : gmap nat cursor -> gmap nat cursor) (h : heap) : heap :=
  Heap (h_env h) (h_txn h) (h_db h) (f (h_cur h)) (h_sync h).
Definition up_sync (f : list uv_env_sync -> list uv_env_sync) (h : heap) : heap :=
  Heap (h_env h) (h_txn h) (h_db h) (h_cur h) (f (h_sync h)).

Abbreviation lmeth := (meth mdb_call heap).

(** [ObjectWrap::Unwrap] and the stores through the pointer it gives. *)
Definition get_env (i : nat) : lmeth env := unwrap (fun h => h_env h !! i).
Definition get_txn (i : nat) : lmeth txn := unwrap (fun h => h_txn h !! i).
Definition get_db (i : nat) : lmeth db := unwrap (fun h => h_db h !! i).
Definition get_cur (i : nat) : lmeth cursor := unwrap (fun h => h_cur h !! i).
Definition put_env (i : nat) (w : env) : lmeth unit := modify (up_env <[i := w]>).
Definition put_txn (i : nat) (w : txn) : lmeth unit := modify (up_txn <[i := w]>).
Definition put_db (i : nat) (w : db) : lmeth unit := modify (up_db <[i := w]>).
Definition put_cur (i : nat) (w : cursor) : lmeth unit := modify (up_cur <[i := w]>).

Definition set_read_lock (t : ptr) (w : env) : env := Env (e_env w) t.
Definition set_cur (c : ptr) (w : db) : db :=
  Db (key_type w) (value_type w) (d_dbi w) (d_env w) c.

(** ** Error texts *)
Class Libc := strerror : Z -> bytes.

Definition MDB_KEYEXIST : Z := -30799.
Definition MDB_LAST_ERRCODE : Z := -30780.

Definition mdb_errstr : list bytes := lit <$> [
  "MDB_KEYEXIST: Key/data pair already exists";
  "MDB_NOTFOUND: No matching key/data pair found";
  "MDB_PAGE_NOTFOUND: Requested page not found";
  "MDB_CORRUPTED: Located page was wrong type";
  "MDB_PANIC: Update of meta page failed";
  "MDB_VERSION_MISMATCH: Database environment version mismatch";
  "MDB_INVALID: File is not an LMDB file";
  "MDB_MAP_FULL: Environment mapsize limit reached";
  "MDB_DBS_FULL: Environment maxdbs limit reached";
  "MDB_READERS_FULL: Environment maxreaders limit reached";
  "MDB_TLS_FULL: Thread-local storage keys full - too many environments open";
  "MDB_TXN_FULL: Transaction has too many dirty pages - transaction too big";
  "MDB_CURSOR_FULL: Internal error - cursor stack limit reached";
  "MDB_PAGE_FULL: Internal error - page has no more space";
  "MDB_MAP_RESIZED: Database contents grew beyond environment mapsize";
  "MDB_INCOMPATIBLE: Operation and DB incompatible, or DB flags changed";
  "MDB_BAD_RSLOT: Invalid reuse of reader locktable slot";
  "MDB_BAD_TXN: Transaction cannot recover - it must be aborted";
  "MDB_BAD_VALSIZE: Unsupported size of key/DB name/data, or wrong DUPFIXED size";
  "MDB_BAD_DBI: The specified DBI handle was closed/changed unexpectedly"]%string.

Section Errors.
Context `{V8} `{Libc}.

Definition mdb_strerror (err : Z) : bytes :=
  if err =? 0 then lit "Successful return: 0"
  else if (MDB_KEYEXIST <=? err) && (err <=? MDB_LAST_ERRCODE) then
    default [] (mdb_errstr !! Z.to_nat (err - MDB_KEYEXIST))
  else strerror err.

(** [Nan::ThrowError(...); return;] and [GetReturnValue().Set(...)] *)
Definition throw (msg : bytes) : lmeth info := mret (throw_error msg info0).
Definition throw_rc (rc : Z) : lmeth info := throw (mdb_strerror rc).
Definition returns (v : value) : lmeth info := mret (set_ret v info0).
Definition done_ : lmeth info := mret info0.
End Errors.

Create HintDb meth.
#[export] Hint Unfold get_env get_txn get_db get_cur put_env put_txn put_db put_cur
  throw throw_rc returns done_ : meth.

(** Steps of a method of the binding, and the reductions between them. *)
Ltac wred := cbn [fst snd negb andb Z.eqb when when_some].
Ltac wstep := autounfold with meth; wpm_step.

(** One step of a method that is known to be safe. *)
Ltac winv H :=
  autounfold with meth in H;
  lazymatch type of H with
  | wpm _ _ (mbind _ _) _ _ _ => apply (proj1 (wpm_bind _ _ _ _ _ _ _)) in H
  | wpm _ _ (mret _) _ _ _ => apply (proj1 (wpm_ret _ _ _ _ _ _)) in H
  | wpm _ _ (unwrap _) _ _ _ => eapply unwrap_inv in H; [|eassumption]
  | wpm _ _ (pure _) _ _ _ => eapply pure_inv in H; [|eassumption]
  end.

(** ** The LMDB comparator of a type *)

(** [mdb_cmp_fn<number_type<N> >] *)
Definition mdb_cmp_fn (n : num_kind) (a b : bytes) : res Z :=
  ta ← number_of_data n a (length a);
  tb ← number_of_data n b (length b);
  Ok (number_compare ta tb).

(** The function LMDB calls through the pointer; it is given keys of the
    number's size only. *)
Definition num_comparator (n : num_kind) : comparator :=
  Cmp (fun a b => match mdb_cmp_fn n a b with Ok z => z | Ub _ => 0 end)
      (fun b => (length b =? num_sizeof n)%nat).

(** The order [mdb_cmp_setter<T>] leaves a database with. *)
Definition type_comparator (t : kv_type) : comparator :=
  match t with Num n => num_comparator n | _ => lexical end.
