(* ===== verification/LmdbEnv.v ===== *)
(** * LMDB environments

    The class [env] of src/src/lmdb/env-lmdb.cpp: its native methods, the
    flush it hands to libuv, and the read transaction it keeps for reads
    outside a transaction.  Output to the terminal is not modelled. *)
From S2P Require Import Prelude Nan KvTypes Prog Store LmdbApi LmdbObjects.

Definition ENV_CLOSED : bytes := lit "The environment is already closed.".

Section Env.
Context `{V8} `{Libc}.

Definition env_ctor (this : nat) : lmeth info :=
  r ← ffi mdb_env_create;
  let '(rc, e) := r in
  if rc =? 0 then
    put_env this (Env e None) ;;
    returns (v_object this)
  else
    ffi (mdb_env_close e) ;;
    throw_rc rc.

Definition env_setMapSize (this : nat) (arg : value) : lmeth info :=
  ew ← get_env this;
  match e_env ew with
  | None => throw ENV_CLOSED
  | Some _ =>
      (if IsNumber arg then
         sz ← pure (to_unsigned 64 (NumberValue arg));
         ffi (mdb_env_set_mapsize (e_env ew) sz) ;; done_
       else done_)
  end.

Definition env_setMaxDbs (this : nat) (arg : value) : lmeth info :=
  ew ← get_env this;
  match e_env ew with
  | None => throw ENV_CLOSED
  | Some _ =>
      (if IsNumber arg then
         ffi (mdb_env_set_maxdbs (e_env ew) (Uint32Value arg)) ;; done_
       else done_)
  end.

Definition env_open (this : nat) (arg : value) : lmeth info :=
  ew ← get_env this;
  match e_env ew with
  | None => throw ENV_CLOSED
  | Some _ =>
      let path := utf8 arg in
      let flags := MDB_NOSYNC in
      rc ← ffi (mdb_env_open (e_env ew) path flags 436);
      if negb (rc =? 0) then
        ffi (mdb_env_close (e_env ew)) ;;
        put_env this (Env None (e_read_lock ew)) ;;
        throw_rc rc
      else
        ffi (mdb_reader_check (e_env ew)) ;;
        done_
  end.

Definition env_close (this : nat) : lmeth info :=
  ew ← get_env this;
  match e_env ew with
  | None => throw ENV_CLOSED
  | Some _ =>
      when_some (e_read_lock ew) (fun t => ffi (mdb_txn_abort (Some t))) ;;
      put_env this (Env (e_env ew) None) ;;
      ffi (mdb_env_close (e_env ew)) ;;
      put_env this (Env None None) ;;
      done_
  end.

(** [sync] queues the request; the thread pool runs [sync_cb] on it later and
    the event loop then [after_sync_cb], which calls the callback. *)
Definition env_sync (this callback : nat) : lmeth info :=
  ew ← get_env this;
  match e_env ew with
  | None => throw ENV_CLOSED
  | Some _ =>
      modify (up_sync (fun l => l ++ [UvEnvSync (e_env ew) callback])) ;;
      done_
  end.

Definition sync_cb (d : uv_env_sync) : lmeth Z := ffi (mdb_env_sync (u_dbenv d) 1).

(** The callback and its argument: null, or an Error with the text. *)
Definition after_sync_cb (d : uv_env_sync) (rc : Z) : nat * option bytes :=
  (u_callback d, if rc =? 0 then None else Some (mdb_strerror rc)).

(** The oldest queued request, from the thread pool to the callback. *)
Definition sync_work : lmeth (option (nat * option bytes)) :=
  l ← unwrap (fun h => Some (h_sync h));
  match l with
  | [] => mret None
  | d :: l' =>
      rc ← sync_cb d;
      modify (up_sync (fun _ => l')) ;;
      mret (Some (after_sync_cb d rc))
  end.

Definition env_dtor (this : nat) : lmeth unit :=
  ew ← get_env this;
  when_some (e_read_lock ew) (fun t => ffi (mdb_txn_abort (Some t))) ;;
  when_some (e_env ew) (fun e => ffi (mdb_env_close (Some e))) ;;
  modify (up_env (delete this)).

Definition require_readlock (this : nat) : lmeth ptr :=
  ew ← get_env this;
  match e_read_lock ew with
  | Some t =>
      ffi (mdb_txn_renew (Some t)) ;;
      mret (Some t)
  | None =>
      r ← ffi (mdb_txn_begin (e_env ew) None MDB_RDONLY);
      match snd r with
      | Some t => put_env this (set_read_lock (Some t) ew) ;; mret (Some t)
      | None => mret None
      end
  end.

Definition release_readlock (this : nat) : lmeth unit :=
  ew ← get_env this;
  ffi (mdb_txn_reset (e_read_lock ew)).
End Env.
