(* ===== verification/LmdbTxn.v ===== *)
(** * LMDB transactions

    The class [txn] of src/src/lmdb/txn-lmdb.cpp. *)
From S2P Require Import Prelude Nan KvTypes Prog Store LmdbApi LmdbObjects.

Definition TXN_CLOSED : bytes := lit "The transaction is already closed.".
Definition TXN_OPENED : bytes := lit "The transaction is still opened.".
Definition TXN_NOT_READONLY : bytes := lit "Only readonly transaction can be reset.".

Section Txn.
Context `{V8} `{Libc}.

Definition set_txn (t : ptr) (w : txn) : txn := Txn (t_readonly w) t (t_env w).

Definition txn_ctor (this envo : nat) (readonly : value) : lmeth info :=
  ew ← get_env envo;
  let p := Txn (BooleanValue readonly) None (e_env ew) in
  r ← ffi (mdb_txn_begin (t_env p) None (if t_readonly p then MDB_RDONLY else 0));
  let '(rc, t) := r in
  if negb (rc =? 0) then throw_rc rc
  else put_txn this (set_txn t p) ;; returns (v_object this).

Definition txn_commit (this : nat) : lmeth info :=
  tw ← get_txn this;
  match t_txn tw with
  | None => throw TXN_CLOSED
  | Some _ =>
      rc ← ffi (mdb_txn_commit (t_txn tw));
      put_txn this (set_txn None tw) ;;
      if negb (rc =? 0) then throw_rc rc else done_
  end.

Definition txn_abort (this : nat) : lmeth info :=
  tw ← get_txn this;
  match t_txn tw with
  | None => throw TXN_CLOSED
  | Some _ =>
      ffi (mdb_txn_abort (t_txn tw)) ;;
      put_txn this (set_txn None tw) ;;
      done_
  end.

Definition txn_reset (this : nat) : lmeth info :=
  tw ← get_txn this;
  match t_txn tw with
  | None => throw TXN_CLOSED
  | Some _ =>
      if negb (t_readonly tw) then throw TXN_NOT_READONLY
      else ffi (mdb_txn_reset (t_txn tw)) ;; done_
  end.

Definition txn_renew (this : nat) : lmeth info :=
  tw ← get_txn this;
  if t_readonly tw then
    match t_txn tw with
    | None => throw TXN_CLOSED
    | Some _ =>
        rc ← ffi (mdb_txn_renew (t_txn tw));
        if negb (rc =? 0) then throw_rc rc else done_
    end
  else
    match t_txn tw with
    | Some _ => throw TXN_OPENED
    | None =>
        r ← ffi (mdb_txn_begin (t_env tw) None 0);
        let '(rc, t) := r in
        put_txn this (set_txn t tw) ;;
        if negb (rc =? 0) then throw_rc rc else done_
    end.

Definition txn_dtor (this : nat) : lmeth unit :=
  tw ← get_txn this;
  when_some (t_txn tw) (fun t => ffi (mdb_txn_abort (Some t))) ;;
  modify (up_txn (delete this)).
End Txn.
