(* ===== verification/LmdbDb.v ===== *)
(** * LMDB databases

    The class template [db] of src/src/lmdb/db-lmdb.cpp and the [txn_scope]
    its methods run in.  An optional transaction argument is the object it
    refers to, or [None] when it is not an object. *)
From S2P Require Import Prelude Nan KvTypes Prog Store LmdbApi LmdbObjects LmdbEnv.

Definition BAD_PARAMS : bytes := lit "Invalid parameters.".

(** ** Transactions for the time of one call *)
Record txn_scope := TxnScope {
  ts_env : option nat; ts_txn : ptr; ts_readonly : bool; ts_created : bool; ts_commit : bool
}.

Definition scope_commit (tc : txn_scope) : txn_scope :=
  TxnScope (ts_env tc) (ts_txn tc) (ts_readonly tc) (ts_created tc) true.

(** [txn_scope(Local<Value> arg, MDB_env *env)] *)
Definition scope_write (arg : option nat) (e : ptr) : lmeth txn_scope :=
  match arg with
  | Some i => tw ← get_txn i; mret (TxnScope None (t_txn tw) false false false)
  | None =>
      r ← ffi (mdb_txn_begin e None 0);
      mret (TxnScope None (snd r) false true false)
  end.

(** [txn_scope(Local<Value> arg, env *env)] *)
Definition scope_read (arg : option nat) (envo : nat) : lmeth txn_scope :=
  match arg with
  | Some i => tw ← get_txn i; mret (TxnScope (Some envo) (t_txn tw) true false false)
  | None =>
      t ← require_readlock envo;
      mret (TxnScope (Some envo) t true true false)
  end.

(** [~txn_scope()] *)
Definition scope_dtor (tc : txn_scope) : lmeth unit :=
  when (ts_created tc)
    (if ts_readonly tc then
       envo ← pure (of_option NullDeref (ts_env tc));
       release_readlock envo
     else if negb (ts_commit tc) then ffi (mdb_txn_abort (ts_txn tc))
     else ffi (mdb_txn_commit (ts_txn tc)) ;; mret tt).

Section Db.
Context `{V8} `{Libc}.
Context (K V : kv_type).

(** [Unwrap<db<K, V> >]: an object of another class is not one. *)
Definition get_kvdb (i : nat) : lmeth db :=
  unwrap (fun h => dw ← h_db h !! i;
    if decide (key_type dw = K /\ value_type dw = V) then Some dw else None).

Definition set_cmp (T : kv_type) (t : ptr) (dbi : nat) : lmeth unit :=
  match T with
  | Num n => ffi (mdb_set_compare t dbi (num_comparator n)) ;; mret tt
  | _ => mret tt
  end.

Definition set_dup_cmp (T : kv_type) (t : ptr) (dbi : nat) : lmeth unit :=
  match T with
  | Num n => ffi (mdb_set_dupsort t dbi (num_comparator n)) ;; mret tt
  | _ => mret tt
  end.

(** The second argument is an object with [name] and [allowDup], or not an
    object.  When no transaction could be begun, [txn] was never written. *)
Definition db_ctor (this envo : nat) (options : option (value * value)) : lmeth info :=
  ew ← get_env envo;
  match options with
  | None => throw BAD_PARAMS
  | Some (name, allowDup) =>
      let allowdup := BooleanValue allowDup in
      r ← ffi (mdb_txn_begin (e_env ew) None 0);
      let '(rc, t) := r in
      if negb (rc =? 0) then
        t' ← pure (of_option UninitRead t);
        ffi (mdb_txn_abort (Some t')) ;;
        throw_rc rc
      else
      r ← ffi (mdb_dbi_open t (utf8 name) (if allowdup then Z.lor MDB_CREATE MDB_DUPSORT else MDB_CREATE));
      let '(rc, d) := r in
      if negb (rc =? 0) then
        ffi (mdb_txn_abort t) ;;
        throw_rc rc
      else
      dbi ← pure (of_option UninitRead d);
      set_cmp K t dbi ;;
      when allowdup (set_dup_cmp V t dbi) ;;
      rc ← ffi (mdb_txn_commit t);
      if negb (rc =? 0) then throw_rc rc
      else
      put_db this (Db K V dbi envo None) ;;
      returns (v_object this)
  end.

Definition db_close (this : nat) : lmeth info :=
  dw ← get_kvdb this;
  ew ← get_env (d_env dw);
  ffi (mdb_dbi_close (e_env ew) (d_dbi dw)) ;;
  when_some (d_cur dw) (fun c =>
    ffi (mdb_cursor_close (Some c)) ;;
    put_db this (set_cur None dw)) ;;
  done_.

Definition db_get (this : nat) (a0 : value) (a1 : option nat) : lmeth info :=
  dw ← get_kvdb this;
  k ← pure (kv_encode K a0);
  tc ← scope_read a1 (d_env dw);
  r ← ffi (mdb_get (ts_txn tc) (d_dbi dw) k);
  let '(rc, v) := r in
  i ← (if rc =? MDB_NOTFOUND then returns v_null
       else if negb (rc =? 0) then throw_rc rc
       else v' ← pure (kv_decode V v (length v)); returns v');
  scope_dtor tc ;;
  mret i.

Definition db_put (this : nat) (a0 a1 : value) (a2 : option nat) : lmeth info :=
  dw ← get_kvdb this;
  k ← pure (kv_encode K a0);
  v ← pure (kv_encode V a1);
  ew ← get_env (d_env dw);
  tc ← scope_write a2 (e_env ew);
  rc ← ffi (mdb_put (ts_txn tc) (d_dbi dw) k v 0);
  if negb (rc =? 0) then scope_dtor tc ;; throw_rc rc
  else scope_dtor (scope_commit tc) ;; returns (v_bool true).

Definition db_del (this : nat) (a0 a1 : value) (a2 : option nat) : lmeth info :=
  dw ← get_kvdb this;
  k ← pure (kv_encode K a0);
  v ← pure (kv_encode V a1);
  ew ← get_env (d_env dw);
  tc ← scope_write a2 (e_env ew);
  rc ← ffi (mdb_del (ts_txn tc) (d_dbi dw) k (Some v));
  if rc =? MDB_NOTFOUND then scope_dtor tc ;; returns (v_bool false)
  else if negb (rc =? 0) then scope_dtor tc ;; throw_rc rc
  else scope_dtor (scope_commit tc) ;; returns (v_bool true).

(** The cursor [exists] uses: the object's own one for reads outside a
    transaction, a new one inside. *)
Definition exists_cursor (this : nat) (dw : db) (tc : txn_scope) : lmeth ptr :=
  if ts_created tc then
    match d_cur dw with
    | None =>
        r ← ffi (mdb_cursor_open (ts_txn tc) (d_dbi dw));
        put_db this (set_cur (snd r) dw) ;;
        mret (snd r)
    | Some c =>
        ffi (mdb_cursor_renew (ts_txn tc) (Some c)) ;;
        mret (Some c)
    end
  else
    r ← ffi (mdb_cursor_open (ts_txn tc) (d_dbi dw));
    mret (snd r).

Definition db_exists (this : nat) (a0 a1 : value) (a2 : option nat) : lmeth info :=
  dw ← get_kvdb this;
  k ← pure (kv_encode K a0);
  v ← pure (kv_encode V a1);
  tc ← scope_read a2 (d_env dw);
  cur ← exists_cursor this dw tc;
  r ← ffi (mdb_cursor_get cur k v MDB_GET_BOTH);
  let rc := fst r in
  when (negb (ts_created tc)) (ffi (mdb_cursor_close cur)) ;;
  i ← (if rc =? MDB_NOTFOUND then returns (v_bool false)
       else if rc =? 0 then returns (v_bool true)
       else throw_rc rc);
  scope_dtor tc ;;
  mret i.

Definition db_dtor (this : nat) : lmeth unit :=
  dw ← get_kvdb this;
  when_some (d_cur dw) (fun c => ffi (mdb_cursor_close (Some c))) ;;
  modify (up_db (delete this)).
End Db.
