(* ===== verification/LmdbCursor.v ===== *)
(** * LMDB cursors

    The class template [cursor] of src/src/lmdb/cursor-lmdb.cpp. *)
From S2P Require Import Prelude Nan KvTypes Prog Store LmdbApi LmdbObjects LmdbDb.

Section Cursor.
Context `{V8} `{Libc}.
Context (K V : kv_type).

Definition get_kvcur (i : nat) : lmeth cursor :=
  unwrap (fun h => cw ← h_cur h !! i;
    if decide (c_key_type cw = K /\ c_value_type cw = V) then Some cw else None).

Definition cursor_ctor (this dbo txno : nat) : lmeth info :=
  dw ← get_kvdb K V dbo;
  tw ← get_txn txno;
  r ← ffi (mdb_cursor_open (t_txn tw) (d_dbi dw));
  let '(rc, cur) := r in
  if negb (rc =? 0) then throw_rc rc
  else put_cur this (Cursor K V cur) ;; returns (v_object this).

Definition cursor_close (this : nat) : lmeth info :=
  cw ← get_kvcur this;
  ffi (mdb_cursor_close (c_cursor cw)) ;;
  put_cur this (Cursor K V None) ;;
  done_.

Definition cursor_del (this : nat) : lmeth info :=
  cw ← get_kvcur this;
  rc ← ffi (mdb_cursor_del (c_cursor cw) 0);
  if negb (rc =? 0) then throw_rc rc else done_.

(** The answer of the three [cursorOp] templates. *)
Definition moved (rc : Z) : lmeth info :=
  if negb (rc =? 0) && negb (rc =? MDB_NOTFOUND) then throw_rc rc
  else returns (v_bool (negb (rc =? MDB_NOTFOUND))).

Definition cursorOp (OP : MDB_cursor_op) (this : nat) : lmeth info :=
  cw ← get_kvcur this;
  r ← ffi (mdb_cursor_get (c_cursor cw) [] [] OP);
  moved (fst r).

Definition cursorKeyOp (OP : MDB_cursor_op) (this : nat) (a0 : value) : lmeth info :=
  cw ← get_kvcur this;
  k ← pure (kv_encode K a0);
  r ← ffi (mdb_cursor_get (c_cursor cw) k [] OP);
  moved (fst r).

Definition cursorKeyValOp (OP : MDB_cursor_op) (this : nat) (a0 a1 : value) : lmeth info :=
  cw ← get_kvcur this;
  k ← pure (kv_encode K a0);
  v ← pure (kv_encode V a1);
  r ← ffi (mdb_cursor_get (c_cursor cw) k v OP);
  moved (fst r).

Definition cursor_key (this : nat) : lmeth info :=
  cw ← get_kvcur this;
  r ← ffi (mdb_cursor_get (c_cursor cw) [] [] MDB_GET_CURRENT);
  let '(rc, (key, data)) := r in
  if rc =? MDB_NOTFOUND then returns v_null
  else if negb (rc =? 0) then throw_rc rc
  else v ← pure (kv_decode K key (length key)); returns v.

Definition cursor_value (this : nat) : lmeth info :=
  cw ← get_kvcur this;
  r ← ffi (mdb_cursor_get (c_cursor cw) [] [] MDB_GET_CURRENT);
  let '(rc, (key, data)) := r in
  if rc =? MDB_NOTFOUND then returns v_null
  else if negb (rc =? 0) then throw_rc rc
  else v ← pure (kv_decode V data (length data)); returns v.

Definition cursor_next := cursorOp MDB_NEXT.
Definition cursor_prev := cursorOp MDB_PREV.
Definition cursor_nextDup := cursorOp MDB_NEXT_DUP.
Definition cursor_prevDup := cursorOp MDB_PREV_DUP.
Definition cursor_first := cursorOp MDB_FIRST.
Definition cursor_last := cursorOp MDB_LAST.
Definition cursor_firstDup := cursorOp MDB_FIRST_DUP.
Definition cursor_lastDup := cursorOp MDB_LAST_DUP.

(** [info.Length() == 1] is the case of no second argument.  A missing first
    argument reads as undefined. *)
Definition cursor_seek (this : nat) (args : list value) : lmeth info :=
  match args with
  | [a0] => cursorKeyOp MDB_SET this a0
  | _ => cursorKeyValOp MDB_GET_BOTH this (nth 0 args v_undefined) (nth 1 args v_undefined)
  end.

Definition cursor_gte (this : nat) (args : list value) : lmeth info :=
  match args with
  | [a0] => cursorKeyOp MDB_SET_RANGE this a0
  | _ => cursorKeyValOp MDB_GET_BOTH_RANGE this (nth 0 args v_undefined) (nth 1 args v_undefined)
  end.

Definition cursor_dtor (this : nat) : lmeth unit :=
  cw ← get_kvcur this;
  when_some (c_cursor cw) (fun c => ffi (mdb_cursor_close (Some c))) ;;
  modify (up_cur (delete this)).
End Cursor.
