(* ===== verification/LmdbInv.v ===== *)
(** * What the LMDB binding keeps true

    The invariant that ties the objects of the binding to the state of LMDB,
    in five groups that each depend on the maps they speak about: environments,
    transactions, databases, cursors and queued flushes.  Inside a method some
    handles are held by local variables only: [X] and [C] are the transactions
    and cursors no object owns yet, [L] the read locks in use.

    The second part shows how each change of LMDB's state or of an object
    carries the invariant over. *)
From S2P Require Import Prelude Nan KvTypes Prog Store LmdbApi LmdbObjects.

Definition handle_of (me : gmap nat env) (i : nat) : ptr := me !! i ≫= e_env.
Definition lock_of (me : gmap nat env) (i : nat) : ptr := me !! i ≫= e_read_lock.

Definition txn_owner (me : gmap nat env) (mt : gmap nat txn) (o : nat + nat) : ptr :=
  match o with inl i => lock_of me i | inr j => mt !! j ≫= t_txn end.

Definition cur_owner (md : gmap nat db) (mc : gmap nat cursor) (o : nat + nat) : ptr :=
  match o with inl j => md !! j ≫= d_cur | inr j => mc !! j ≫= c_cursor end.

(** LMDB compares the keys and data of the database as the types say. *)
Definition db_typed (K V : kv_type) (d : db_st) : Prop :=
  db_kc d = type_comparator K /\ (db_dup d = true -> db_dc d = type_comparator V).

(** A view of the databases of an environment has the database [w] with its
    types; a snapshot from before it was opened may not have it. *)
Definition view_has (strict : bool) (w : db) (m : gmap nat db_st) : Prop :=
  match m !! d_dbi w with
  | Some d => db_typed (key_type w) (value_type w) d
  | None => strict = false
  end.

Record envs_ok (me : gmap nat env) (E : gmap nat env_st) : Prop := {
  env_alive i e : handle_of me i = Some e -> is_Some (E !! e);
  env_inj i j e : handle_of me i = Some e -> handle_of me j = Some e -> i = j
}.

Record txns_ok (X L : gset nat) (me : gmap nat env) (mt : gmap nat txn)
    (E : gmap nat env_st) (T : gmap nat txn_st) : Prop := {
  lock_alive i t : lock_of me i = Some t -> exists x, T !! t = Some x /\
    handle_of me i = Some (txn_env x) /\ txn_ro x = true /\ (t ∉ L -> txn_live x = false);
  txn_alive j w t : mt !! j = Some w -> t_txn w = Some t -> exists x, T !! t = Some x /\
    txn_ro x = t_readonly w /\ t_env w = Some (txn_env x);
  txn_own_inj t o o' : txn_owner me mt o = Some t -> txn_owner me mt o' = Some t -> o = o';
  txn_own_X t o : t ∈ X -> txn_owner me mt o = Some t -> False;
  txn_no_leak t x : T !! t = Some x -> t ∈ X \/ exists o, txn_owner me mt o = Some t;
  txn_env_open t x : T !! t = Some x ->
    (exists ex, E !! txn_env x = Some ex /\ env_opened ex = true) /\
    (txn_ro x = false -> txn_live x = true)
}.

Record dbs_ok (g : gset nat) (me : gmap nat env) (md : gmap nat db)
    (E : gmap nat env_st) (T : gmap nat txn_st) : Prop := {
  db_alive j w : j ∈ g -> md !! j = Some w -> exists e ex,
    handle_of me (d_env w) = Some e /\ E !! e = Some ex /\ env_opened ex = true;
  db_env_view j w e ex : j ∈ g -> md !! j = Some w -> handle_of me (d_env w) = Some e ->
    E !! e = Some ex -> view_has true w (env_dbs ex);
  db_txn_view j w t x : j ∈ g -> md !! j = Some w -> handle_of me (d_env w) = Some (txn_env x) ->
    T !! t = Some x -> txn_live x = true -> view_has (negb (txn_ro x)) w (txn_dbs x);
  db_inj j j' w w' : j ∈ g -> j' ∈ g -> md !! j = Some w -> md !! j' = Some w' ->
    d_env w = d_env w' -> d_dbi w = d_dbi w' -> j = j'
}.

Record curs_ok (C g : gset nat) (me : gmap nat env) (md : gmap nat db) (mc : gmap nat cursor)
    (T : gmap nat txn_st) (R : gmap nat cur_st) : Prop := {
  cur_fresh c cu : R !! c = Some cu ->
    if cur_stale cu then cur_ro cu = true
    else exists x, T !! cur_txn cu = Some x /\ txn_env x = cur_env cu /\
           txn_live x = true /\ txn_ro x = cur_ro cu;
  db_cur_alive j w c : md !! j = Some w -> d_cur w = Some c -> j ∈ g /\ exists cu,
    R !! c = Some cu /\ cur_ro cu = true /\ cur_dbi cu = d_dbi w /\
    handle_of me (d_env w) = Some (cur_env cu) /\ is_Some (lock_of me (d_env w));
  cur_alive j cw c : mc !! j = Some cw -> c_cursor cw = Some c -> exists cu k w,
    R !! c = Some cu /\ k ∈ g /\ md !! k = Some w /\ d_dbi w = cur_dbi cu /\
    handle_of me (d_env w) = Some (cur_env cu) /\
    key_type w = c_key_type cw /\ value_type w = c_value_type cw;
  cur_own_inj c o o' : cur_owner md mc o = Some c -> cur_owner md mc o' = Some c -> o = o';
  cur_own_C c o : c ∈ C -> cur_owner md mc o = Some c -> False;
  cur_no_leak c cu : R !! c = Some cu -> c ∈ C \/ exists o, cur_owner md mc o = Some c
}.

Definition sync_ok (l : list uv_env_sync) (E : gmap nat env_st) : Prop :=
  forall d, d ∈ l -> exists e ex, u_dbenv d = Some e /\ E !! e = Some ex /\ env_opened ex = true.

Record inv (X L C g : gset nat) (h : heap) (s : lmdb) : Prop := Inv {
  inv_envs : envs_ok (h_env h) (envs s);
  inv_txns : txns_ok X L (h_env h) (h_txn h) (envs s) (txns s);
  inv_dbs : dbs_ok g (h_env h) (h_db h) (envs s) (txns s);
  inv_curs : curs_ok C g (h_env h) (h_db h) (h_cur h) (txns s) (curs s);
  inv_sync : sync_ok (h_sync h) (envs s)
}.

(** Between two calls. *)
Abbreviation quiet := (inv ∅ ∅ ∅).

(** ** Basic facts *)
Lemma type_comparator_laws t : CmpLaws (type_comparator t).
Proof.
  destruct t as [| | |n]; try apply lexical_laws.
  assert (D : forall a, dom (type_comparator (Num n)) a = true -> exists z,
            number_of_data n a (length a) = Ok z /\ length a = num_sizeof n).
  { cbn. intros a Ha%Nat.eqb_eq. destruct (number_of_data_total n a (length a)) as (z & E & _).
    - lia.
    - by exists z. }
  split; intros a b.
  - intros Da Db. destruct (D a Da) as (za & Ea & La), (D b Db) as (zb & Eb & Lb).
    cbn. unfold mdb_cmp_fn. rewrite Ea, Eb. cbn. rewrite (proj1 (number_compare_spec za zb)).
    split; [|by intros ->; congruence]. intros <-.
    rewrite <- (number_data_of_data n a _ za La Ea). by eapply number_data_of_data.
  - intros Da Db. destruct (D a Da) as (za & Ea & _), (D b Db) as (zb & Eb & _).
    cbn. unfold mdb_cmp_fn. rewrite Ea, Eb. cbn.
    pose proof (number_compare_spec za zb). pose proof (number_compare_spec zb za). lia.
  - intros d Da Db Dd. destruct (D a Da) as (za & Ea & _), (D b Db) as (zb & Eb & _),
      (D d Dd) as (zd & Ed & _).
    cbn. unfold mdb_cmp_fn. rewrite Ea, Eb, Ed. cbn.
    pose proof (number_compare_spec za zb). pose proof (number_compare_spec zb zd).
    pose proof (number_compare_spec za zd). lia.
Qed.

(** What a type encodes can be compared as a key of that type. *)
Lemma encode_dom `{V8} t v bs : kv_encode t v = Ok bs -> dom (type_comparator t) bs = true.
Proof.
  destruct t as [| | |n]; try done. cbn. destruct (number_of_value n v); cbn; [|done].
  intros [= <-]. apply Nat.eqb_eq, length_number_data.
Qed.

Lemma txn_owner_alive X L me mt E T o t :
  txns_ok X L me mt E T -> txn_owner me mt o = Some t -> is_Some (T !! t).
Proof.
  intros HT. destruct o as [i|j]; cbn; intros Ho.
  - destruct (lock_alive _ _ _ _ _ _ HT i t Ho) as (x & Hx & _). by exists x.
  - destruct (mt !! j) as [w|] eqn:Hw; [|done].
    destruct (txn_alive _ _ _ _ _ _ HT j w t Hw Ho) as (x & Hx & _). by exists x.
Qed.

Lemma cur_owner_alive C g me md mc T R o c :
  curs_ok C g me md mc T R -> cur_owner md mc o = Some c -> is_Some (R !! c).
Proof.
  intros HC. destruct o as [j|j]; cbn; intros Ho.
  - destruct (md !! j) as [w|] eqn:Hw; [|done].
    destruct (db_cur_alive _ _ _ _ _ _ _ HC j w c Hw Ho) as (_ & cu & Hc & _). by exists cu.
  - destruct (mc !! j) as [w|] eqn:Hw; [|done].
    destruct (cur_alive _ _ _ _ _ _ _ HC j w c Hw Ho) as (cu & _ & _ & Hc & _). by exists cu.
Qed.

#[export] Hint Resolve txn_owner_alive cur_owner_alive encode_dom : kv.

(** ** Transactions *)
Definition begun (e : nat) (ro : bool) (ex : env_st) : txn_st :=
  MkTxn e ro true (env_dbs ex) (env_names ex) ∅.

Lemma view_has_weaken b w m : view_has true w m -> view_has b w m.
Proof. unfold view_has. destruct (m !! d_dbi w); [done|discriminate]. Qed.

(** A change that keeps the transactions, their kind and environment. *)
Definition txn_static (x : txn_st) : nat * bool := (txn_env x, txn_ro x).

Lemma static_r {A B} (f : A -> B) (m m' : gmap nat A) t y :
  (forall t, f <$> m !! t = f <$> m' !! t) -> m !! t = Some y -> exists z, m' !! t = Some z /\ f z = f y.
Proof.
  intros Hs Hy. specialize (Hs t). rewrite Hy in Hs. cbn in Hs.
  destruct (m' !! t) as [z|]; [|done]. exists z. split; [done|]. by injection Hs.
Qed.

Lemma static_l {A B} (f : A -> B) (m m' : gmap nat A) t y :
  (forall t, f <$> m !! t = f <$> m' !! t) -> m' !! t = Some y -> exists z, m !! t = Some z /\ f z = f y.
Proof. intros Hs. apply static_r. intros t'. by rewrite Hs. Qed.

Lemma txns_ok_static X L L' me mt E T T' :
  txns_ok X L me mt E T -> (forall t, txn_static <$> T !! t = txn_static <$> T' !! t) ->
  (forall i t x, lock_of me i = Some t -> T' !! t = Some x -> t ∉ L' -> txn_live x = false) ->
  (forall t x, T' !! t = Some x -> txn_ro x = false -> txn_live x = true) ->
  txns_ok X L' me mt E T'.
Proof.
  intros IT Hs Hl Hw. split; try apply IT.
  - intros i t Hi. destruct (lock_alive _ _ _ _ _ _ IT i t Hi) as (x & Hx & Hh & Hr & _).
    destruct (static_r _ _ _ _ _ Hs Hx) as (y & Hy & [= Ee Er]). exists y.
    rewrite Ee, Er. split_and!; try done. by apply Hl with i.
  - intros j w t Hj Ht. destruct (txn_alive _ _ _ _ _ _ IT j w t Hj Ht) as (x & Hx & Hr & He).
    destruct (static_r _ _ _ _ _ Hs Hx) as (y & Hy & [= Ee Er]). exists y. by rewrite Ee, Er.
  - intros t x Hx. destruct (static_l _ _ _ _ _ Hs Hx) as (y & Hy & _).
    by apply (txn_no_leak _ _ _ _ _ _ IT t y).
  - intros t x Hx. destruct (static_l _ _ _ _ _ Hs Hx) as (y & Hy & [= Ee Er]). split; [|by apply (Hw t)].
    rewrite <- Ee. by apply (txn_env_open _ _ _ _ _ _ IT t y).
Qed.

(** A change that keeps the cursors, what they are on and their kind. *)
Definition cur_static (c : cur_st) : nat * bool * nat := (cur_env c, cur_ro c, cur_dbi c).

Definition cur_fine (T : gmap nat txn_st) (cu : cur_st) : Prop :=
  if cur_stale cu then cur_ro cu = true
  else exists x, T !! cur_txn cu = Some x /\ txn_env x = cur_env cu /\
         txn_live x = true /\ txn_ro x = cur_ro cu.

Lemma curs_ok_static C g me md mc T T' R R' :
  curs_ok C g me md mc T R -> (forall c, cur_static <$> R !! c = cur_static <$> R' !! c) ->
  (forall c cu, R' !! c = Some cu -> cur_fine T' cu) ->
  curs_ok C g me md mc T' R'.
Proof.
  intros IC Hs Hf. split; try apply IC; try done.
  - intros j w c Hj Hc.
    destruct (db_cur_alive _ _ _ _ _ _ _ IC j w c Hj Hc) as (Hg & x & Hx & Hr & Hd & Hh & Hlk).
    destruct (static_r _ _ _ _ _ Hs Hx) as (y & Hy & [= Ee Er Ed]). split; [done|].
    exists y. by rewrite Ee, Er, Ed.
  - intros j w c Hj Hc.
    destruct (cur_alive _ _ _ _ _ _ _ IC j w c Hj Hc) as (x & k & w' & Hx & ? & ? & ? & ? & ?).
    destruct (static_r _ _ _ _ _ Hs Hx) as (y & Hy & [= Ee Er Ed]).
    exists y, k, w'. by rewrite Ee, Ed.
  - intros c cu Hc. destruct (static_l _ _ _ _ _ Hs Hc) as (y & Hy & _).
    by apply (cur_no_leak _ _ _ _ _ _ _ IC c y).
Qed.

(** The transactions of the cursors in use stay live. *)
Lemma cur_fine_mono (T T' : gmap nat txn_st) cu :
  (forall x, T !! cur_txn cu = Some x -> txn_live x = true -> txn_ro x = cur_ro cu -> cur_stale cu = false ->
     exists y, T' !! cur_txn cu = Some y /\ txn_static y = txn_static x /\ txn_live y = true) ->
  cur_fine T cu -> cur_fine T' cu.
Proof.
  unfold cur_fine. intros HT. destruct (cur_stale cu); [done|]. intros (x & Hx & He & Hl & Hr).
  destruct (HT x Hx Hl Hr eq_refl) as (y & Hy & [= Ee Er] & Hy'). exists y. by rewrite Ee, Er.
Qed.

Lemma curs_ok_txns C g me md mc T T' R :
  curs_ok C g me md mc T R ->
  (forall c cu x, R !! c = Some cu -> cur_stale cu = false -> T !! cur_txn cu = Some x ->
     txn_live x = true -> txn_ro x = cur_ro cu ->
     exists y, T' !! cur_txn cu = Some y /\ txn_static y = txn_static x /\ txn_live y = true) ->
  curs_ok C g me md mc T' R.
Proof.
  intros IC HT. apply (curs_ok_static _ _ _ _ _ T _ R); [done|done|]. intros c cu Hc.
  eapply cur_fine_mono; [|exact (cur_fresh _ _ _ _ _ _ _ IC c cu Hc)]. intros x Hx Hl Hr Hs.
  by eapply HT.
Qed.

(** Only the handles of the environments matter to the other groups. *)
Definition same_handles (me me' : gmap nat env) : Prop :=
  forall i, handle_of me i = handle_of me' i.

Lemma envs_ok_handles me me' E : same_handles me me' -> envs_ok me E -> envs_ok me' E.
Proof.
  intros Hs [A B]. split; intros i.
  - intros e. rewrite <- Hs. apply A.
  - intros j e. rewrite <- !Hs. apply B.
Qed.

Lemma dbs_ok_handles g me me' md E T :
  same_handles me me' -> dbs_ok g me md E T -> dbs_ok g me' md E T.
Proof.
  intros Hs [A B D F]. split; [| | |done].
  - intros j w. rewrite <- Hs. apply A.
  - intros j w e ex. rewrite <- Hs. apply B.
  - intros j w t x. rewrite <- Hs. apply D.
Qed.

Lemma curs_ok_handles C g me me' md mc T R :
  same_handles me me' ->
  (forall j w, j ∈ g -> md !! j = Some w -> is_Some (lock_of me (d_env w)) ->
     is_Some (lock_of me' (d_env w))) ->
  curs_ok C g me md mc T R -> curs_ok C g me' md mc T R.
Proof.
  intros Hs Hl IC. split; try apply IC.
  - intros j w c Hj Hw.
    destruct (db_cur_alive _ _ _ _ _ _ _ IC j w c Hj Hw) as (Hg & cu & ? & ? & ? & ? & ?).
    split; [done|]. exists cu. rewrite <- Hs. split_and!; try done. by apply (Hl j).
  - intros j w c Hj Hw. destruct (cur_alive _ _ _ _ _ _ _ IC j w c Hj Hw) as (cu & k & w' & Hr).
    exists cu, k, w'. by rewrite <- Hs.
Qed.

Lemma lock_of_insert me i w k :
  lock_of (<[i := w]> me) k = if decide (k = i) then e_read_lock w else lock_of me k.
Proof.
  unfold lock_of. case_decide; [subst; by rewrite lookup_insert_eq|by rewrite lookup_insert_ne].
Qed.

Lemma handle_of_insert me i w k :
  handle_of (<[i := w]> me) k = if decide (k = i) then e_env w else handle_of me k.
Proof.
  unfold handle_of. case_decide; [subst; by rewrite lookup_insert_eq|by rewrite lookup_insert_ne].
Qed.

Lemma txn_owner_env me mt i w o :
  txn_owner (<[i := w]> me) mt o = if decide (o = inl i) then e_read_lock w else txn_owner me mt o.
Proof.
  destruct o as [k|k]; cbn; [|by rewrite decide_False]. rewrite lock_of_insert.
  destruct (decide (k = i)) as [->|]; [by rewrite decide_True|by rewrite decide_False by congruence].
Qed.

Lemma same_handles_insert me i w w' :
  me !! i = Some w -> e_env w' = e_env w -> same_handles me (<[i := w']> me).
Proof.
  intros Hi He k. rewrite handle_of_insert. case_decide; [|done]. subst. unfold handle_of. by rewrite Hi.
Qed.

(** ... and the cursor a database keeps does not matter to its group. *)
Lemma dbs_ok_set_cur g me md E T j w c :
  md !! j = Some w -> dbs_ok g me md E T -> dbs_ok g me (<[j := set_cur c w]> md) E T.
Proof.
  intros Hj [A B D F].
  assert (HM : forall k v, <[j := set_cur c w]> md !! k = Some v -> exists u, md !! k = Some u /\
    d_env v = d_env u /\ d_dbi v = d_dbi u /\ forall b m, view_has b u m -> view_has b v m).
  { intros k v. rewrite lookup_insert_Some. intros [[<- <-]|[_ Hk]]; [by exists w|by exists v]. }
  split.
  - intros k v Hk (u & Hu & -> & _)%HM. by apply (A k).
  - intros k v e ex Hk (u & Hu & -> & _ & Hv)%HM Hh He. by eapply Hv, B.
  - intros k v t x Hk (u & Hu & -> & _ & Hv)%HM Hh Ht Hl. by eapply Hv, D.
  - intros k k' v v' Hk Hk' (u & Hu & -> & -> & _)%HM (u' & Hu' & -> & -> & _)%HM. by apply F.
Qed.

Lemma cur_owner_db md mc j w o :
  cur_owner (<[j := w]> md) mc o = if decide (o = inl j) then d_cur w else cur_owner md mc o.
Proof.
  destruct o as [k|k]; cbn; [|by rewrite decide_False]. destruct (decide (k = j)) as [->|Hne].
  - by rewrite lookup_insert_eq, decide_True.
  - by rewrite lookup_insert_ne, decide_False by congruence.
Qed.

Lemma cur_owner_cur md mc j w o :
  cur_owner md (<[j := w]> mc) o = if decide (o = inr j) then c_cursor w else cur_owner md mc o.
Proof.
  destruct o as [k|k]; cbn; [by rewrite decide_False|]. destruct (decide (k = j)) as [->|Hne].
  - by rewrite lookup_insert_eq, decide_True.
  - by rewrite lookup_insert_ne, decide_False by congruence.
Qed.

(** Ownership when the owner [o] takes, or lets go of, the cursor [c]. *)
Lemma cur_own_adopt (C : gset nat) (R : gmap nat cur_st) (f f' : nat + nat -> ptr) o c :
  (forall c o o', f o = Some c -> f o' = Some c -> o = o') ->
  (forall c o, c ∈ C -> f o = Some c -> False) ->
  (forall c cu, R !! c = Some cu -> c ∈ C \/ exists o, f o = Some c) ->
  c ∈ C -> f o = None -> (forall p, f' p = if decide (p = o) then Some c else f p) ->
  (forall c o o', f' o = Some c -> f' o' = Some c -> o = o') /\
  (forall c' o, c' ∈ C ∖ {[c]} -> f' o = Some c' -> False) /\
  (forall c' cu, R !! c' = Some cu -> c' ∈ C ∖ {[c]} \/ exists o, f' o = Some c').
Proof.
  intros Hi HC Hn Hc Ho Hf. split_and!.
  - intros c' p p'. rewrite !Hf. repeat case_decide; subst; try done; [| |apply Hi].
    + intros [= <-] ?. by destruct (HC c p').
    + intros ? [= <-]. by destruct (HC c p).
  - intros c' p Hc'. rewrite Hf. case_decide; [intros [= <-]|apply HC]; set_solver.
  - intros c' cu Hcu. destruct (decide (c' = c)) as [->|Hne].
    + right. exists o. by rewrite Hf, decide_True.
    + destruct (Hn c' cu Hcu) as [|[p Hp]]; [left; set_solver|]. right. exists p.
      rewrite Hf, decide_False by congruence. done.
Qed.

Lemma cur_own_disown (C : gset nat) (R : gmap nat cur_st) (f f' : nat + nat -> ptr) o c :
  (forall c o o', f o = Some c -> f o' = Some c -> o = o') ->
  (forall c o, c ∈ C -> f o = Some c -> False) ->
  (forall c cu, R !! c = Some cu -> c ∈ C \/ exists o, f o = Some c) ->
  f o = Some c -> (forall p, f' p = if decide (p = o) then None else f p) ->
  (forall c o o', f' o = Some c -> f' o' = Some c -> o = o') /\
  (forall c' o, c' ∈ {[c]} ∪ C -> f' o = Some c' -> False) /\
  (forall c' cu, R !! c' = Some cu -> c' ∈ {[c]} ∪ C \/ exists o, f' o = Some c').
Proof.
  intros Hi HC Hn Ho Hf. split_and!.
  - intros c' p p'. rewrite !Hf. repeat case_decide; try done. apply Hi.
  - intros c' p Hc'. rewrite Hf. case_decide; [done|]. intros Hp.
    apply elem_of_union in Hc' as [->%elem_of_singleton|Hc']; [|by eapply HC].
    by pose proof (Hi _ _ _ Hp Ho).
  - intros c' cu Hcu. destruct (decide (c' = c)) as [->|Hne]; [left; set_solver|].
    destruct (Hn c' cu Hcu) as [|[p Hp]]; [left; set_solver|]. right. exists p.
    rewrite Hf, decide_False by congruence. done.
Qed.

Section Engine.
Context (X L C g : gset nat) (h : heap) (s : lmdb).
Hypothesis HI : inv X L C g h s.

Lemma inv_begin t e ro ex :
  txns s !! t = None -> envs s !! e = Some ex -> env_opened ex = true ->
  inv ({[t]} ∪ X) L C g h (upd_txn t (begun e ro ex) s).
Proof.
  destruct HI as [IE IT ID IC IS]. intros Ht He Ho. split; cbn; [done| | | |done].
  - split.
    + intros i t' Hl. destruct (lock_alive _ _ _ _ _ _ IT i t' Hl) as (x & Hx & Hr).
      exists x. rewrite lookup_insert_ne by congruence. done.
    + intros j w t' Hw Hl. destruct (txn_alive _ _ _ _ _ _ IT j w t' Hw Hl) as (x & Hx & Hr).
      exists x. rewrite lookup_insert_ne by congruence. done.
    + apply (txn_own_inj _ _ _ _ _ _ IT).
    + intros t' o [->%elem_of_singleton|Hx]%elem_of_union Hown.
      * destruct (txn_owner_alive _ _ _ _ _ _ _ _ IT Hown) as [x Hx]. congruence.
      * by eapply (txn_own_X _ _ _ _ _ _ IT).
    + intros t' x. destruct (decide (t' = t)) as [->|Hne]; [set_solver|].
      rewrite lookup_insert_ne by done. intros Hx.
      destruct (txn_no_leak _ _ _ _ _ _ IT t' x Hx); [left; set_solver|by right].
    + intros t' x. rewrite lookup_insert_Some. intros [[_ <-]|[_ Hx]]; cbn.
      * split; [by exists ex|done].
      * by apply (txn_env_open _ _ _ _ _ _ IT t').
  - split.
    + apply (db_alive _ _ _ _ _ ID).
    + apply (db_env_view _ _ _ _ _ ID).
    + intros j w t' x Hj Hw Hh. rewrite lookup_insert_Some. intros [[_ <-]|[_ Hx]]; cbn in *.
      * intros _. apply view_has_weaken. by eapply (db_env_view _ _ _ _ _ ID).
      * by eapply (db_txn_view _ _ _ _ _ ID).
    + apply (db_inj _ _ _ _ _ ID).
  - apply (curs_ok_txns _ _ _ _ _ (txns s)); [done|]. intros c cu x _ _ Hx Hl _. exists x.
    rewrite lookup_insert_ne by congruence. done.
Qed.


(** Changing what a transaction sees, when it still has the open databases. *)
Lemma inv_view_change t x x' :
  txns s !! t = Some x -> txn_static x' = txn_static x -> txn_live x' = txn_live x ->
  (forall w, view_has (negb (txn_ro x)) w (txn_dbs x) -> view_has (negb (txn_ro x)) w (txn_dbs x')) ->
  inv X L C g h (upd_txn t x' s).
Proof.
  destruct HI as [IE IT ID IC IS]. intros Hx [= He Hr] Hl Hv. split; cbn; [done| | | |done].
  - apply (txns_ok_static _ L _ _ _ _ (txns s)); [done| | |].
    + intros t'. destruct (decide (t' = t)) as [->|Hne]; [|by rewrite lookup_insert_ne].
      rewrite lookup_insert_eq, Hx. cbn. unfold txn_static. by rewrite He, Hr.
    + intros i t' y Hi. rewrite lookup_insert_Some.
      destruct (lock_alive _ _ _ _ _ _ IT i t' Hi) as (z & Hz & _ & _ & Hl').
      intros [[<- <-]|[_ Hy]] Hn; [rewrite Hl|]; simplify_eq; by apply Hl'.
    + intros t' y. rewrite lookup_insert_Some. intros [[<- <-]|[_ Hy]].
      * rewrite Hl, Hr. by apply (txn_env_open _ _ _ _ _ _ IT t x).
      * by apply (txn_env_open _ _ _ _ _ _ IT t').
  - split; try apply ID. intros j w t' y Hj Hw Hh. rewrite lookup_insert_Some.
    intros [[_ <-]|[_ Hy]]; [|by eapply (db_txn_view _ _ _ _ _ ID)].
    rewrite Hl, Hr. intros Hlive. apply Hv.
    eapply (db_txn_view _ _ _ _ _ ID); [done|done|congruence|done|done].
  - apply (curs_ok_txns _ _ _ _ _ (txns s)); [done|]. intros c cu y _ _ Hy Hly _.
    destruct (decide (cur_txn cu = t)) as [Et|Hne].
    + rewrite Et in Hy |- *. exists x'. rewrite lookup_insert_eq. assert (y = x) as -> by congruence.
      split_and!; [done| |congruence]. unfold txn_static. by rewrite He, Hr.
    + exists y. by rewrite lookup_insert_ne.
Qed.

(** Changing what a transaction sees of one database. *)
Lemma inv_updated t x dbi d d' s' :
  txns s !! t = Some x -> txn_dbs x !! dbi = Some d ->
  db_kc d' = db_kc d -> db_dup d' = db_dup d -> db_dc d' = db_dc d ->
  txn_updated s t x dbi d' s' -> inv X L C g h s'.
Proof.
  destruct HI as [IE IT ID IC IS]. intros Ht Hd Hk Hu Hc (Ee & Et & Ec).
  assert (ET : forall t' y, txns s' !! t' = Some y -> exists z, txns s !! t' = Some z /\
    txn_static y = txn_static z /\ txn_live y = txn_live z /\
    forall b w, view_has b w (txn_dbs z) -> view_has b w (txn_dbs y)).
  { intros t' y. rewrite Et, lookup_insert_Some. intros [[<- <-]|[_ Hy]].
    - exists x. split_and!; try done. intros b w. unfold view_has. cbn.
      destruct (decide (dbi = d_dbi w)) as [->|Hne].
      + rewrite lookup_insert_eq, Hd. unfold db_typed. by rewrite Hk, Hu, Hc.
      + by rewrite lookup_insert_ne.
    - exists y. by split_and!. }
  assert (ES : forall t', txn_static <$> txns s !! t' = txn_static <$> txns s' !! t').
  { intros t'. rewrite Et. destruct (decide (t' = t)) as [->|Hne].
    - by rewrite lookup_insert_eq, Ht.
    - by rewrite lookup_insert_ne. }
  split; rewrite ?Ee; [done| | | |done].
  - apply (txns_ok_static _ L _ _ _ _ (txns s)); [done|done| |].
    + intros i t' y Hi Hy Hn. destruct (ET t' y Hy) as (z & Hz & _ & -> & _).
      destruct (lock_alive _ _ _ _ _ _ IT i t' Hi) as (z' & Hz' & _ & _ & Hl).
      simplify_eq. by apply Hl.
    + intros t' y Hy. destruct (ET t' y Hy) as (z & Hz & [= _ ->] & -> & _).
      by apply (txn_env_open _ _ _ _ _ _ IT t' z).
  - split; try apply ID. intros j w t' y Hj Hw Hh Hy Hl.
    destruct (ET t' y Hy) as (z & Hz & [= E1 E2] & E3 & Hv). rewrite E2. apply Hv.
    eapply (db_txn_view _ _ _ _ _ ID); [done|done|congruence|done|congruence].
  - apply (curs_ok_static _ _ _ _ _ (txns s) _ (curs s)); [done| |].
    + intros c. specialize (Ec c). destruct (curs s !! c), (curs s' !! c); try done.
      destruct Ec as (p & -> & _). done.
    + intros c cu Hcu. specialize (Ec c). rewrite Hcu in Ec.
      destruct (curs s !! c) as [a|] eqn:Ha; [|done]. destruct Ec as (p & -> & _).
      change (cur_fine (txns s') a). eapply cur_fine_mono; [|exact (cur_fresh _ _ _ _ _ _ _ IC c a Ha)].
      intros z Hz Hl _ _. destruct (static_r _ _ _ _ _ ES Hz) as (y & Hy & Es). exists y.
      split_and!; [done|done|]. destruct (ET _ y Hy) as (z' & Hz' & _ & -> & _). congruence.
Qed.

Lemma static_insert {A B} (f : A -> B) (m : gmap nat A) k a b :
  m !! k = Some a -> f b = f a -> forall t, f <$> m !! t = f <$> <[k := b]> m !! t.
Proof.
  intros Ha Hf t. destruct (decide (t = k)) as [->|Hne].
  - rewrite lookup_insert_eq, Ha. cbn. by rewrite Hf.
  - by rewrite lookup_insert_ne.
Qed.

(** Renewing a read-only transaction that is a lock puts the lock in use. *)
Lemma inv_renew L' t x ex :
  txns s !! t = Some x -> txn_ro x = true -> envs s !! txn_env x = Some ex -> L ⊆ L' ->
  (forall i, lock_of (h_env h) i = Some t -> t ∈ L') ->
  inv X L' C g h (upd_txn t (renewed x ex) s).
Proof.
  destruct HI as [IE IT ID IC IS]. intros Hx Hr He HL Hlk. split; cbn; [done| | | |done].
  - apply (txns_ok_static _ L _ _ _ _ (txns s)); [done| | |].
    + apply (static_insert _ _ _ x); [done|]. cbn. unfold txn_static. cbn. by rewrite Hr.
    + intros i t' y Hi. rewrite lookup_insert_Some. intros [[<- _]|[_ Hy]] Hn.
      * by destruct Hn; apply Hlk with i.
      * destruct (lock_alive _ _ _ _ _ _ IT i t' Hi) as (z & Hz & _ & _ & Hl).
        simplify_eq. apply Hl. set_solver.
    + intros t' y. rewrite lookup_insert_Some. intros [[_ <-]|[_ Hy]]; [done|].
      by apply (txn_env_open _ _ _ _ _ _ IT t').
  - split; try apply ID. intros j w t' y Hj Hw Hh. rewrite lookup_insert_Some.
    intros [[_ <-]|[_ Hy]]; cbn in *.
    + intros _. apply view_has_weaken. by eapply (db_env_view _ _ _ _ _ ID).
    + by eapply (db_txn_view _ _ _ _ _ ID).
  - apply (curs_ok_txns _ _ _ _ _ (txns s)); [done|]. intros c cu y _ _ Hy Hl _.
    destruct (decide (cur_txn cu = t)) as [Et|Hne].
    + rewrite Et in Hy |- *. exists (renewed x ex). rewrite lookup_insert_eq. assert (y = x) as -> by congruence.
      unfold txn_static. cbn. by rewrite Hr.
    + exists y. by rewrite lookup_insert_ne.
Qed.

Lemma outlive_static t (R : gmap nat cur_st) c :
  cur_static <$> R !! c = cur_static <$> (outlive t <$> R) !! c.
Proof.
  rewrite lookup_fmap. destruct (R !! c) as [cu|]; [|done]. cbn. unfold outlive.
  destruct (cur_ro cu) eqn:Er; cbn; [|done]. destruct (cur_txn cu =? t)%nat; [|done].
  unfold cur_static. cbn. by rewrite Er.
Qed.

(** A read-only transaction may go or change: its cursors become stale. *)
Lemma outlive_fine t x (T' : gmap nat txn_st) (R : gmap nat cur_st) :
  (forall c cu, R !! c = Some cu -> cur_fine (txns s) cu) ->
  txns s !! t = Some x -> txn_ro x = true ->
  (forall t', t' <> t -> T' !! t' = txns s !! t') ->
  forall c cu, (outlive t <$> R) !! c = Some cu -> cur_fine T' cu.
Proof.
  intros Hf Hx Hr HT c cu. rewrite lookup_fmap. destruct (R !! c) as [a|] eqn:Ha; [|done].
  specialize (Hf c a Ha). cbn. intros [= <-]. unfold outlive.
  destruct (cur_ro a && (cur_txn a =? t)%nat) eqn:E; [done|].
  eapply cur_fine_mono; [|exact Hf]. intros y Hy Hl Hr' Hs. exists y. split_and!; [|done|done].
  rewrite HT; [done|]. intros Et. rewrite Et in *. simplify_eq.
  rewrite Hr' in Hr. rewrite Hr, Nat.eqb_refl in E. done.
Qed.

Lemma inv_reset t x :
  txns s !! t = Some x -> txn_ro x = true -> inv X (L ∖ {[t]}) C g h (reset_txn t x s).
Proof.
  destruct HI as [IE IT ID IC IS]. intros Hx Hr. split; cbn; [done| | | |done].
  - apply (txns_ok_static _ L _ _ _ _ (txns s)); [done| | |].
    + apply (static_insert _ _ _ x); [done|]. unfold txn_static. cbn. by rewrite Hr.
    + intros i t' y Hi. rewrite lookup_insert_Some. intros [[_ <-]|[Hne Hy]] Hn; [done|].
      destruct (lock_alive _ _ _ _ _ _ IT i t' Hi) as (z & Hz & _ & _ & Hl).
      simplify_eq. apply Hl. set_solver.
    + intros t' y. rewrite lookup_insert_Some. intros [[_ <-]|[_ Hy]]; [done|].
      by apply (txn_env_open _ _ _ _ _ _ IT t').
  - split; try apply ID. intros j w t' y Hj Hw Hh. rewrite lookup_insert_Some.
    intros [[_ <-]|[_ Hy]]; [done|]. by eapply (db_txn_view _ _ _ _ _ ID).
  - apply (curs_ok_static _ _ _ _ _ (txns s) _ (curs s)); [done|apply outlive_static|].
    eapply outlive_fine; [apply IC|done|done|]. intros t' Hne. by rewrite lookup_insert_ne.
Qed.

(** Ending a transaction no object owns. *)
Lemma inv_end t x :
  t ∈ X -> txns s !! t = Some x ->
  (txn_ro x = false -> forall c cu, curs s !! c = Some cu -> cur_ro cu = true \/ cur_txn cu <> t) ->
  inv (X ∖ {[t]}) L C g h (end_txn t (txn_ro x) s).
Proof.
  destruct HI as [IE IT ID IC IS]. intros HX Hx Hw. unfold end_txn. split; cbn; [done| | | |done].
  - assert (HO : forall o t', txn_owner (h_env h) (h_txn h) o = Some t' -> t' <> t)
      by (intros o t' Ho ->; by eapply (txn_own_X _ _ _ _ _ _ IT)).
    split.
    + intros i t' Hl. rewrite lookup_delete_ne; [by apply IT|]. by pose proof (HO (inl i) t' Hl).
    + intros j w t' Hj Hl. rewrite lookup_delete_ne; [by eapply txn_alive|].
      apply not_eq_sym, (HO (inr j)). cbn. by rewrite Hj.
    + apply IT.
    + intros t' o Ht. apply (txn_own_X _ _ _ _ _ _ IT). set_solver.
    + intros t' y [Hne Hy]%lookup_delete_Some.
      destruct (txn_no_leak _ _ _ _ _ _ IT t' y Hy); [left; set_solver|by right].
    + intros t' y [_ Hy]%lookup_delete_Some. by apply (txn_env_open _ _ _ _ _ _ IT t').
  - split; try apply ID. intros j w t' y Hj Hd Hh [_ Hy]%lookup_delete_Some.
    by eapply (db_txn_view _ _ _ _ _ ID).
  - assert (HD : forall t', t' <> t -> delete t (txns s) !! t' = txns s !! t')
      by (intros; by rewrite lookup_delete_ne).
    destruct (txn_ro x) eqn:Hr.
    + apply (curs_ok_static _ _ _ _ _ (txns s) _ (curs s)); [done|apply outlive_static|].
      by eapply outlive_fine; [apply IC| | |].
    + rewrite map_filter_id by (intros c cu Hc; by eapply Hw).
      apply (curs_ok_txns _ _ _ _ _ (txns s)); [done|]. intros c cu y Hc _ Hy Hl Hro.
      exists y. rewrite HD; [done|]. intros E. rewrite E in Hy. simplify_eq.
      destruct (Hw eq_refl c cu Hc); congruence.
Qed.

(** ** Cursors *)
Lemma inv_cur_open t x c dbi :
  txns s !! t = Some x -> txn_live x = true -> curs s !! c = None ->
  inv X L ({[c]} ∪ C) g h (upd_cur c (MkCur (txn_env x) t (txn_ro x) false dbi None) s).
Proof.
  destruct HI as [IE IT ID IC IS]. intros Hx Hl Hc. split; cbn; [done|done|done| |done].
  assert (HO : forall o c', cur_owner (h_db h) (h_cur h) o = Some c' -> c' <> c).
  { intros o c' Ho ->. destruct (cur_owner_alive _ _ _ _ _ _ _ _ _ IC Ho). congruence. }
  split.
  - intros c' cu. rewrite lookup_insert_Some. intros [[_ <-]|[_ Hc']]; cbn; [by exists x|].
    by apply (cur_fresh _ _ _ _ _ _ _ IC c').
  - intros j w c' Hj Hw. rewrite lookup_insert_ne; [by eapply db_cur_alive|].
    apply not_eq_sym, (HO (inl j)). cbn. by rewrite Hj.
  - intros j w c' Hj Hw. rewrite lookup_insert_ne; [by eapply cur_alive|].
    apply not_eq_sym, (HO (inr j)). cbn. by rewrite Hj.
  - apply IC.
  - intros c' o [->%elem_of_singleton|Hx']%elem_of_union Ho; [by apply HO in Ho|].
    by eapply (cur_own_C _ _ _ _ _ _ _ IC).
  - intros c' cu. rewrite lookup_insert_Some. intros [[<- _]|[_ Hc']]; [left; set_solver|].
    destruct (cur_no_leak _ _ _ _ _ _ _ IC c' cu Hc'); [left; set_solver|by right].
Qed.

Lemma inv_cur_close c : c ∈ C -> inv X L (C ∖ {[c]}) g h (del_cur c s).
Proof.
  destruct HI as [IE IT ID IC IS]. intros HC. split; cbn; [done|done|done| |done].
  assert (HO : forall o c', cur_owner (h_db h) (h_cur h) o = Some c' -> c <> c')
    by (intros o c' Ho <-; by eapply (cur_own_C _ _ _ _ _ _ _ IC)).
  split.
  - intros c' cu [_ Hc']%lookup_delete_Some. by apply (cur_fresh _ _ _ _ _ _ _ IC c').
  - intros j w c' Hj Hw. rewrite lookup_delete_ne; [by eapply db_cur_alive|].
    apply (HO (inl j)). cbn. by rewrite Hj.
  - intros j w c' Hj Hw. rewrite lookup_delete_ne; [by eapply cur_alive|].
    apply (HO (inr j)). cbn. by rewrite Hj.
  - apply IC.
  - intros c' o Hc'. apply (cur_own_C _ _ _ _ _ _ _ IC). set_solver.
  - intros c' cu [Hne Hc']%lookup_delete_Some.
    destruct (cur_no_leak _ _ _ _ _ _ _ IC c' cu Hc'); [left; set_solver|by right].
Qed.

Lemma inv_cur_change c cu cu' :
  curs s !! c = Some cu -> cur_static cu' = cur_static cu -> cur_fine (txns s) cu' ->
  inv X L C g h (upd_cur c cu' s).
Proof.
  destruct HI as [IE IT ID IC IS]. intros Hc Hs Hf. split; cbn; [done|done|done| |done].
  apply (curs_ok_static _ _ _ _ _ (txns s) _ (curs s)); [done|by apply (static_insert _ _ _ cu)|].
  intros c' a. rewrite lookup_insert_Some. intros [[_ <-]|[_ Ha]]; [done|].
  by apply (cur_fresh _ _ _ _ _ _ _ IC c').
Qed.

Lemma inv_set_pos c cu p : curs s !! c = Some cu -> inv X L C g h (upd_cur c (set_pos p cu) s).
Proof.
  intros Hc. apply (inv_cur_change c cu); [done|done|].
  apply (cur_fresh _ _ _ _ _ _ _ (inv_curs _ _ _ _ _ _ HI) c cu Hc).
Qed.

(** ** Objects and the handles they own *)
Lemma txn_owner_insert me mt j w o :
  txn_owner me (<[j := w]> mt) o = if decide (o = inr j) then t_txn w else txn_owner me mt o.
Proof.
  destruct o as [i|k]; cbn; [by rewrite decide_False|].
  destruct (decide (k = j)) as [->|Hne].
  - by rewrite lookup_insert_eq, decide_True.
  - rewrite lookup_insert_ne, decide_False by congruence. done.
Qed.

Lemma inv_adopt_txn j w t x :
  t ∈ X -> h_txn h !! j ≫= t_txn = None -> txns s !! t = Some x ->
  t_txn w = Some t -> t_readonly w = txn_ro x -> t_env w = Some (txn_env x) ->
  inv (X ∖ {[t]}) L C g (up_txn <[j := w]> h) s.
Proof.
  destruct HI as [IE IT ID IC IS]. intros HX Hj Hx Hw Hr He. split; cbn; [done| |done|done|done].
  assert (HO : forall o, txn_owner (h_env h) (h_txn h) o <> Some t)
    by (intros o Ho; by eapply (txn_own_X _ _ _ _ _ _ IT)).
  split; try apply IT.
  - intros k w' t'. rewrite lookup_insert_Some. intros [[_ <-]|[_ Hk]] Ht'.
    + simplify_eq. by exists x.
    + by eapply txn_alive.
  - intros t' o o'. rewrite !txn_owner_insert. repeat case_decide; subst; try done.
    + rewrite Hw. intros [= <-] Ho. by destruct (HO o').
    + rewrite Hw. intros Ho [= <-]. by destruct (HO o).
    + apply (txn_own_inj _ _ _ _ _ _ IT).
  - intros t' o Ht'. rewrite txn_owner_insert. case_decide.
    + rewrite Hw. intros [= <-]. set_solver.
    + apply (txn_own_X _ _ _ _ _ _ IT). set_solver.
  - intros t' y Hy. destruct (decide (t' = t)) as [->|Hne].
    + right. exists (inr j). by rewrite txn_owner_insert, decide_True.
    + destruct (txn_no_leak _ _ _ _ _ _ IT t' y Hy) as [|[o Ho]]; [left; set_solver|].
      right. exists o. rewrite txn_owner_insert, decide_False; [done|].
      intros ->. cbn in Ho. congruence.
Qed.

Lemma inv_disown_txn j w t w' :
  h_txn h !! j = Some w -> t_txn w = Some t -> t_txn w' = None ->
  inv ({[t]} ∪ X) L C g (up_txn <[j := w']> h) s.
Proof.
  destruct HI as [IE IT ID IC IS]. intros Hj Hw Hw'. split; cbn; [done| |done|done|done].
  assert (HJ : txn_owner (h_env h) (h_txn h) (inr j) = Some t) by (cbn; by rewrite Hj).
  split; try apply IT.
  - intros k w2 t'. rewrite lookup_insert_Some. intros [[_ <-]|[_ Hk]] Ht'; [congruence|].
    by eapply txn_alive.
  - intros t' o o'. rewrite !txn_owner_insert. repeat case_decide; subst; try congruence.
    apply (txn_own_inj _ _ _ _ _ _ IT).
  - intros t' o Ht'. rewrite txn_owner_insert. case_decide; [congruence|]. intros Ho.
    apply elem_of_union in Ht' as [->%elem_of_singleton|Ht'].
    + by pose proof (txn_own_inj _ _ _ _ _ _ IT _ _ _ Ho HJ).
    + by eapply (txn_own_X _ _ _ _ _ _ IT).
  - intros t' y Hy. destruct (decide (t' = t)) as [->|Hne]; [left; set_solver|].
    destruct (txn_no_leak _ _ _ _ _ _ IT t' y Hy) as [|[o Ho]]; [left; set_solver|].
    right. exists o. rewrite txn_owner_insert, decide_False; [done|]. congruence.
Qed.

Lemma inv_adopt_lock i w t x :
  t ∈ X -> h_env h !! i = Some w -> e_read_lock w = None -> txns s !! t = Some x ->
  txn_ro x = true -> e_env w = Some (txn_env x) ->
  inv (X ∖ {[t]}) ({[t]} ∪ L) C g (up_env <[i := set_read_lock (Some t) w]> h) s.
Proof.
  destruct HI as [IE IT ID IC IS]. intros HX Hi Hn Hx Hr He.
  pose proof (same_handles_insert (h_env h) i w (set_read_lock (Some t) w) Hi eq_refl) as Hs.
  assert (HO : forall o, txn_owner (h_env h) (h_txn h) o <> Some t)
    by (intros o Ho; by eapply (txn_own_X _ _ _ _ _ _ IT)).
  split; cbn; [by eapply envs_ok_handles| |by eapply dbs_ok_handles| |done]; cycle 1.
  { eapply curs_ok_handles; [done| |done]. intros k v _ _. rewrite lock_of_insert. by case_decide. }
  split; try apply IT.
  - intros k t'. rewrite <- Hs, lock_of_insert. case_decide; cbn.
    + intros [= <-]. exists x. subst k. unfold handle_of. rewrite Hi.
      split_and!; try done. set_solver.
    + intros Hk. destruct (lock_alive _ _ _ _ _ _ IT k t' Hk) as (y & ? & ? & ? & Hl). exists y.
      split_and!; try done. intros. apply Hl. set_solver.
  - intros t' o o'. rewrite !txn_owner_env. cbn. repeat case_decide; subst; try done.
    + intros [= <-] Ho. by destruct (HO o').
    + intros Ho [= <-]. by destruct (HO o).
    + apply (txn_own_inj _ _ _ _ _ _ IT).
  - intros t' o Ht'. rewrite txn_owner_env. cbn. case_decide.
    + intros [= <-]. set_solver.
    + apply (txn_own_X _ _ _ _ _ _ IT). set_solver.
  - intros t' y Hy. destruct (decide (t' = t)) as [->|Hne].
    + right. exists (inl i). by rewrite txn_owner_env, decide_True.
    + destruct (txn_no_leak _ _ _ _ _ _ IT t' y Hy) as [|[o Ho]]; [left; set_solver|].
      right. exists o. rewrite txn_owner_env, decide_False; [done|].
      intros ->. cbn in Ho. unfold lock_of in Ho. rewrite Hi in Ho. cbn in Ho. congruence.
Qed.

Lemma inv_disown_lock i w t :
  h_env h !! i = Some w -> e_read_lock w = Some t ->
  (forall j v, j ∈ g -> h_db h !! j = Some v -> d_env v <> i) ->
  inv ({[t]} ∪ X) L C g (up_env <[i := set_read_lock None w]> h) s.
Proof.
  destruct HI as [IE IT ID IC IS]. intros Hi Hw Hdb.
  pose proof (same_handles_insert (h_env h) i w (set_read_lock None w) Hi eq_refl) as Hs.
  assert (HJ : txn_owner (h_env h) (h_txn h) (inl i) = Some t) by (cbn; unfold lock_of; by rewrite Hi).
  split; cbn; [by eapply envs_ok_handles| |by eapply dbs_ok_handles| |done]; cycle 1.
  { eapply curs_ok_handles; [done| |done]. intros k v Hk Hv. rewrite lock_of_insert, decide_False; [done|].
    by apply (Hdb k v). }
  split; try apply IT.
  - intros k t'. rewrite <- Hs, lock_of_insert. case_decide; [done|]. apply IT.
  - intros t' o o'. rewrite !txn_owner_env. cbn. repeat case_decide; subst; try done.
    apply (txn_own_inj _ _ _ _ _ _ IT).
  - intros t' o Ht'. rewrite txn_owner_env. cbn. case_decide; [done|]. intros Ho.
    apply elem_of_union in Ht' as [->%elem_of_singleton|Ht'].
    + by pose proof (txn_own_inj _ _ _ _ _ _ IT _ _ _ Ho HJ).
    + by eapply (txn_own_X _ _ _ _ _ _ IT).
  - intros t' y Hy. destruct (decide (t' = t)) as [->|Hne]; [left; set_solver|].
    destruct (txn_no_leak _ _ _ _ _ _ IT t' y Hy) as [|[o Ho]]; [left; set_solver|].
    right. exists o. rewrite txn_owner_env, decide_False; [done|]. congruence.
Qed.

(** An environment object without a handle comes or goes. *)
Lemma inv_idle_env (me : gmap nat env) :
  same_handles (h_env h) me -> (forall k, lock_of me k = lock_of (h_env h) k) ->
  inv X L C g (up_env (fun _ => me) h) s.
Proof.
  destruct HI as [IE IT ID IC IS]. intros Hs Hl.
  assert (HO : forall o, txn_owner me (h_txn h) o = txn_owner (h_env h) (h_txn h) o)
    by (intros [i|j]; cbn; [apply Hl|done]).
  split; cbn; [by eapply envs_ok_handles| |by eapply dbs_ok_handles| |done]; cycle 1.
  { eapply curs_ok_handles; [done| |done]. intros k v _ _. by rewrite Hl. }
  split; try apply IT.
  - intros k t. rewrite Hl, <- Hs. apply IT.
  - intros t o o'. rewrite !HO. apply IT.
  - intros t o. rewrite HO. apply IT.
  - intros t x Hx. destruct (txn_no_leak _ _ _ _ _ _ IT t x Hx) as [|[o Ho]]; [by left|].
    right. exists o. by rewrite HO.
Qed.

(** A transaction object without a handle comes or goes. *)
Lemma inv_idle_txn (mt : gmap nat txn) :
  (forall j, mt !! j ≫= t_txn = h_txn h !! j ≫= t_txn) ->
  (forall j w t, mt !! j = Some w -> t_txn w = Some t -> h_txn h !! j = Some w) ->
  inv X L C g (up_txn (fun _ => mt) h) s.
Proof.
  destruct HI as [IE IT ID IC IS]. intros Hs Hj. split; cbn; [done| |done|done|done].
  assert (HO : forall o, txn_owner (h_env h) mt o = txn_owner (h_env h) (h_txn h) o)
    by (intros [i|j]; cbn; [done|apply Hs]).
  split; try apply IT.
  - intros j w t Hw Ht. by eapply (txn_alive _ _ _ _ _ _ IT); [eapply Hj|].
  - intros t o o'. rewrite !HO. apply IT.
  - intros t o. rewrite HO. apply IT.
  - intros t x Hx. destruct (txn_no_leak _ _ _ _ _ _ IT t x Hx) as [|[o Ho]]; [by left|].
    right. exists o. by rewrite HO.
Qed.

Lemma inv_adopt_dbcur j w c cu :
  c ∈ C -> j ∈ g -> h_db h !! j = Some w -> d_cur w = None -> curs s !! c = Some cu ->
  cur_ro cu = true -> cur_dbi cu = d_dbi w -> handle_of (h_env h) (d_env w) = Some (cur_env cu) ->
  is_Some (lock_of (h_env h) (d_env w)) ->
  inv X L (C ∖ {[c]}) g (up_db <[j := set_cur (Some c) w]> h) s.
Proof.
  destruct HI as [IE IT ID IC IS]. intros HC Hg Hj Hn Hc Hr Hd Hh Hlk.
  split; cbn; [done|done|by apply dbs_ok_set_cur| |done].
  destruct (cur_own_adopt C (curs s) (cur_owner (h_db h) (h_cur h))
              (cur_owner (<[j := set_cur (Some c) w]> (h_db h)) (h_cur h)) (inl j) c)
    as (O1 & O2 & O3); [apply IC..|done|cbn; by rewrite Hj|intros; apply cur_owner_db|].
  split; [apply IC| | |done|done|done].
  - intros k v c'. rewrite lookup_insert_Some. intros [[<- <-]|[_ Hk]]; cbn.
    + intros [= <-]. split; [done|]. by exists cu.
    + by apply (db_cur_alive _ _ _ _ _ _ _ IC k).
  - intros k v c' Hk Hv.
    destruct (cur_alive _ _ _ _ _ _ _ IC k v c' Hk Hv) as (cu' & k' & w' & H1 & H2 & H3 & H4).
    destruct (decide (k' = j)) as [->|Hne]; simplify_eq.
    + exists cu', j, (set_cur (Some c) w). by rewrite lookup_insert_eq.
    + exists cu', k', w'. by rewrite lookup_insert_ne.
Qed.

Lemma inv_disown_dbcur j w c :
  h_db h !! j = Some w -> d_cur w = Some c ->
  inv X L ({[c]} ∪ C) g (up_db <[j := set_cur None w]> h) s.
Proof.
  destruct HI as [IE IT ID IC IS]. intros Hj Hw.
  split; cbn; [done|done|by apply dbs_ok_set_cur| |done].
  destruct (cur_own_disown C (curs s) (cur_owner (h_db h) (h_cur h))
              (cur_owner (<[j := set_cur None w]> (h_db h)) (h_cur h)) (inl j) c)
    as (O1 & O2 & O3); [apply IC..|cbn; by rewrite Hj|intros; apply cur_owner_db|].
  split; [apply IC| | |done|done|done].
  - intros k v c'. rewrite lookup_insert_Some. intros [[<- <-]|[_ Hk]]; [done|].
    by apply (db_cur_alive _ _ _ _ _ _ _ IC k).
  - intros k v c' Hk Hv.
    destruct (cur_alive _ _ _ _ _ _ _ IC k v c' Hk Hv) as (cu' & k' & w' & H1 & H2 & H3 & H4).
    destruct (decide (k' = j)) as [->|Hne]; simplify_eq.
    + exists cu', j, (set_cur None w). by rewrite lookup_insert_eq.
    + exists cu', k', w'. by rewrite lookup_insert_ne.
Qed.

Lemma inv_adopt_cur j cw c cu k w :
  c ∈ C -> h_cur h !! j ≫= c_cursor = None -> c_cursor cw = Some c -> curs s !! c = Some cu ->
  k ∈ g -> h_db h !! k = Some w -> d_dbi w = cur_dbi cu ->
  handle_of (h_env h) (d_env w) = Some (cur_env cu) ->
  key_type w = c_key_type cw -> value_type w = c_value_type cw ->
  inv X L (C ∖ {[c]}) g (up_cur <[j := cw]> h) s.
Proof.
  destruct HI as [IE IT ID IC IS]. intros HC Hj Hcw Hc Hk Hw Hd Hh HK HV.
  split; cbn; [done|done|done| |done].
  destruct (cur_own_adopt C (curs s) (cur_owner (h_db h) (h_cur h))
              (cur_owner (h_db h) (<[j := cw]> (h_cur h))) (inr j) c)
    as (O1 & O2 & O3); [apply IC..|done|done|intros; by rewrite cur_owner_cur, Hcw|].
  split; [apply IC|apply IC| |done|done|done].
  intros k' v c'. rewrite lookup_insert_Some. intros [[_ <-]|[_ Hk']].
  - rewrite Hcw. intros [= <-]. by exists cu, k, w.
  - by apply (cur_alive _ _ _ _ _ _ _ IC k').
Qed.

Lemma inv_disown_cur j cw c cw' :
  h_cur h !! j = Some cw -> c_cursor cw = Some c -> c_cursor cw' = None ->
  inv X L ({[c]} ∪ C) g (up_cur <[j := cw']> h) s.
Proof.
  destruct HI as [IE IT ID IC IS]. intros Hj Hw Hw'.
  split; cbn; [done|done|done| |done].
  destruct (cur_own_disown C (curs s) (cur_owner (h_db h) (h_cur h))
              (cur_owner (h_db h) (<[j := cw']> (h_cur h))) (inr j) c)
    as (O1 & O2 & O3); [apply IC..|cbn; by rewrite Hj|intros; by rewrite cur_owner_cur, Hw'|].
  split; [apply IC|apply IC| |done|done|done].
  intros k v c'. rewrite lookup_insert_Some. intros [[_ <-]|[_ Hk]]; [congruence|].
  by apply (cur_alive _ _ _ _ _ _ _ IC k).
Qed.

(** A cursor object without a handle comes or goes. *)
Lemma inv_idle_cur (mc : gmap nat cursor) :
  (forall j, mc !! j ≫= c_cursor = h_cur h !! j ≫= c_cursor) ->
  (forall j w c, mc !! j = Some w -> c_cursor w = Some c -> h_cur h !! j = Some w) ->
  inv X L C g (up_cur (fun _ => mc) h) s.
Proof.
  destruct HI as [IE IT ID IC IS]. intros Hs Hj. split; cbn; [done|done|done| |done].
  assert (HO : forall o, cur_owner (h_db h) mc o = cur_owner (h_db h) (h_cur h) o)
    by (intros [i|j]; cbn; [done|apply Hs]).
  split; try apply IC.
  - intros j w c Hw Hc. by eapply (cur_alive _ _ _ _ _ _ _ IC); [eapply Hj|].
  - intros c o o'. rewrite !HO. apply IC.
  - intros c o. rewrite HO. apply IC.
  - intros c cu Hc. destruct (cur_no_leak _ _ _ _ _ _ _ IC c cu Hc) as [|[o Ho]]; [by left|].
    right. exists o. by rewrite HO.
Qed.

(** ** Environments *)
Lemma inv_env_new i e :
  h_env h !! i = None -> envs s !! e = None ->
  inv X L C g (up_env <[i := Env (Some e) None]> h) (upd_env e (MkEnv false ∅ []) s).
Proof.
  destruct HI as [IE IT ID IC IS]. intros Hi He.
  assert (HH : forall k v, handle_of (h_env h) k = Some v ->
            handle_of (<[i := Env (Some e) None]> (h_env h)) k = Some v /\ e <> v).
  { intros k v Hk. destruct (env_alive _ _ IE k v Hk) as [y Hy]. split; [|congruence].
    rewrite handle_of_insert, decide_False; [done|]. intros ->. unfold handle_of in Hk.
    by rewrite Hi in Hk. }
  assert (HE : forall v y, envs s !! v = Some y -> <[e := MkEnv false ∅ []]> (envs s) !! v = Some y)
    by (intros v y Hv; by rewrite lookup_insert_ne by congruence).
  split; cbn.
  - split.
    + intros k v. rewrite handle_of_insert. case_decide; cbn.
      * intros [= <-]. by rewrite lookup_insert_eq.
      * intros Hk. destruct (env_alive _ _ IE k v Hk) as [y Hy]. exists y. by apply HE.
    + intros k k' v. rewrite !handle_of_insert. repeat case_decide; subst; cbn; try done.
      * intros [= <-] Hk. by destruct (HH _ _ Hk).
      * intros Hk [= <-]. by destruct (HH _ _ Hk).
      * apply IE.
  - assert (HO : forall o, txn_owner (<[i := Env (Some e) None]> (h_env h)) (h_txn h) o =
                           txn_owner (h_env h) (h_txn h) o).
    { intros o. rewrite txn_owner_env. case_decide; [|done]. subst. cbn. unfold lock_of. by rewrite Hi. }
    split.
    + intros k t. rewrite lock_of_insert. case_decide; [done|]. intros Hk.
      destruct (lock_alive _ _ _ _ _ _ IT k t Hk) as (x & Hx & Hh & Hr). exists x.
      by rewrite (proj1 (HH _ _ Hh)).
    + apply IT.
    + intros t o o'. rewrite !HO. apply IT.
    + intros t o. rewrite HO. apply IT.
    + intros t x Hx. destruct (txn_no_leak _ _ _ _ _ _ IT t x Hx) as [|[o Ho]]; [by left|].
      right. exists o. by rewrite HO.
    + intros t x Hx. destruct (txn_env_open _ _ _ _ _ _ IT t x Hx) as [(y & Hy & Ho) Hl].
      split; [|done]. exists y. split; [by apply HE|done].
  - assert (HD : forall j w v, j ∈ g -> h_db h !! j = Some w ->
      handle_of (<[i := Env (Some e) None]> (h_env h)) (d_env w) = Some v ->
      handle_of (h_env h) (d_env w) = Some v /\ e <> v).
    { intros j w v Hj Hw Hv. destruct (db_alive _ _ _ _ _ ID j w Hj Hw) as (v' & _ & Hv' & _).
      destruct (HH _ _ Hv') as [Hv2 Hne]. rewrite Hv in Hv2. by simplify_eq. }
    split.
    + intros j w Hj Hw. destruct (db_alive _ _ _ _ _ ID j w Hj Hw) as (v & y & Hv & Hy & Ho).
      exists v, y. split_and!; [by apply HH|by apply HE|done].
    + intros j w v y Hj Hw Hv. destruct (HD j w v Hj Hw Hv) as [Hv' Hne].
      rewrite lookup_insert_ne by done. by apply (db_env_view _ _ _ _ _ ID j).
    + intros j w t x Hj Hw Hv. apply (db_txn_view _ _ _ _ _ ID j); [done|done|].
      by apply (HD j w).
    + apply ID.
  - split; try apply IC.
    + intros j w c Hj Hw.
      destruct (db_cur_alive _ _ _ _ _ _ _ IC j w c Hj Hw) as (? & cu & ? & ? & ? & Hv & Hlk).
      split; [done|]. exists cu. rewrite (proj1 (HH _ _ Hv)), lock_of_insert. split_and!; try done.
      case_decide as Ei; [|done]. rewrite Ei in Hv. unfold handle_of in Hv. by rewrite Hi in Hv.
    + intros j w c Hj Hw.
      destruct (cur_alive _ _ _ _ _ _ _ IC j w c Hj Hw) as (cu & k & w' & ? & ? & ? & ? & Hv & ?).
      exists cu, k, w'. by rewrite (proj1 (HH _ _ Hv)).
  - intros d Hd. destruct (IS d Hd) as (v & y & Hv & Hy & Ho). exists v, y.
    split_and!; [done|by apply HE|done].
Qed.

Lemma inv_env_change e y y' :
  envs s !! e = Some y -> (env_opened y = true -> env_opened y' = true) ->
  (forall j w, j ∈ g -> h_db h !! j = Some w -> handle_of (h_env h) (d_env w) = Some e ->
     view_has true w (env_dbs y) -> view_has true w (env_dbs y')) ->
  inv X L C g h (upd_env e y' s).
Proof.
  destruct HI as [IE IT ID IC IS]. intros Hy Ho Hv.
  assert (HO : forall v z, envs s !! v = Some z -> env_opened z = true -> exists z',
    <[e := y']> (envs s) !! v = Some z' /\ env_opened z' = true).
  { intros v z Hz Hoz. destruct (decide (v = e)) as [->|Hne].
    - rewrite lookup_insert_eq. exists y'. split; [done|]. apply Ho. congruence.
    - rewrite lookup_insert_ne by done. by exists z. }
  split; cbn; [| | |done|].
  - split; [|apply IE]. intros i v Hi. destruct (env_alive _ _ IE i v Hi) as [z Hz].
    rewrite lookup_insert_is_Some. destruct (decide (e = v)); [by left|right; by split; [|exists z]].
  - split; try apply IT. intros t x Hx.
    destruct (txn_env_open _ _ _ _ _ _ IT t x Hx) as [(z & Hz & Hoz) Hl]. split; [|done].
    by apply (HO _ z).
  - split; try apply ID.
    + intros j w Hj Hw. destruct (db_alive _ _ _ _ _ ID j w Hj Hw) as (v & z & Hh & Hz & Hoz).
      exists v. destruct (HO v z Hz Hoz) as (z' & ? & ?). by exists z'.
    + intros j w v z Hj Hw Hh. rewrite lookup_insert_Some. intros [[<- <-]|[_ Hz]].
      * apply (Hv j); [done..|]. by eapply (db_env_view _ _ _ _ _ ID).
      * by eapply (db_env_view _ _ _ _ _ ID).
  - intros d Hd. destruct (IS d Hd) as (v & z & Hh & Hz & Hoz).
    exists v. destruct (HO v z Hz Hoz) as (z' & ? & ?). by exists z'.
Qed.

(** Closing an environment nothing uses any more. *)
Lemma inv_env_gone i e (me : gmap nat env) :
  handle_of (h_env h) i = Some e ->
  (forall k, handle_of me k = if decide (k = i) then None else handle_of (h_env h) k) ->
  (forall k, lock_of me k = lock_of (h_env h) k) ->
  (forall t x, txns s !! t = Some x -> txn_env x <> e) ->
  (forall j w, j ∈ g -> h_db h !! j = Some w -> d_env w <> i) ->
  (forall c cu, curs s !! c = Some cu -> cur_env cu <> e) ->
  (forall d, d ∈ h_sync h -> u_dbenv d <> Some e) ->
  inv X L C g (up_env (fun _ => me) h) (del_env e s).
Proof.
  destruct HI as [IE IT ID IC IS]. intros He Hm Hl HT HD HC HS.
  assert (HO : forall o, txn_owner me (h_txn h) o = txn_owner (h_env h) (h_txn h) o)
    by (intros [k|k]; cbn; [apply Hl|done]).
  assert (HH : forall k v, handle_of (h_env h) k = Some v -> v <> e -> handle_of me k = Some v).
  { intros k v Hk Hne. rewrite Hm, decide_False; [done|]. congruence. }
  split; cbn.
  - split.
    + intros k v. rewrite Hm. case_decide; [done|]. intros Hk. rewrite lookup_delete_ne; [by eapply IE|].
      intros <-. by pose proof (env_inj _ _ IE _ _ _ Hk He).
    + intros k k' v. rewrite !Hm. repeat case_decide; try done. apply IE.
  - split.
    + intros k t. rewrite Hl. intros Hk.
      destruct (lock_alive _ _ _ _ _ _ IT k t Hk) as (x & Hx & Hh & Hr). exists x.
      rewrite (HH _ _ Hh) by (by eapply HT). done.
    + apply IT.
    + intros t o o'. rewrite !HO. apply IT.
    + intros t o. rewrite HO. apply IT.
    + intros t x Hx. destruct (txn_no_leak _ _ _ _ _ _ IT t x Hx) as [|[o Ho]]; [by left|].
      right. exists o. by rewrite HO.
    + intros t x Hx. rewrite lookup_delete_ne by (apply not_eq_sym; by eapply HT). by eapply IT.
  - assert (HV : forall j w v, j ∈ g -> h_db h !! j = Some w -> handle_of me (d_env w) = Some v ->
              handle_of (h_env h) (d_env w) = Some v /\ e <> v).
    { intros j w v Hj Hw. rewrite Hm, decide_False by (by eapply HD). intros Hv. split; [done|].
      intros <-. apply (HD j w Hj Hw). by eapply IE. }
    split.
    + intros j w Hj Hw. destruct (db_alive _ _ _ _ _ ID j w Hj Hw) as (v & y & Hv & Hy & Ho).
      assert (v <> e) by (intros ->; apply (HD j w Hj Hw); by eapply IE).
      exists v, y. rewrite lookup_delete_ne by done. split_and!; [by apply HH|done|done].
    + intros j w v y Hj Hw Hv. destruct (HV j w v Hj Hw Hv) as [Hv' Hne].
      rewrite lookup_delete_ne by done. by apply (db_env_view _ _ _ _ _ ID j).
    + intros j w t x Hj Hw Hv. apply (db_txn_view _ _ _ _ _ ID j); [done|done|].
      by apply (HV j w).
    + apply ID.
  - split; try apply IC.
    + intros j w c Hj Hw.
      destruct (db_cur_alive _ _ _ _ _ _ _ IC j w c Hj Hw) as (? & cu & Hcu & ? & ? & Hv & ?).
      split; [done|]. exists cu. rewrite (HH _ _ Hv), Hl by (by eapply HC). done.
    + intros j w c Hj Hw.
      destruct (cur_alive _ _ _ _ _ _ _ IC j w c Hj Hw) as (cu & k & w' & Hcu & ? & ? & ? & Hv & ?).
      exists cu, k, w'. rewrite (HH _ _ Hv) by (by eapply HC). done.
  - intros d Hd. destruct (IS d Hd) as (v & y & Hv & Hy & Ho). exists v, y.
    rewrite lookup_delete_ne; [done|]. intros <-. by apply (HS d Hd).
Qed.

(** A commit makes what the write transaction sees the environment's state. *)
Lemma inv_publish t x ex :
  txns s !! t = Some x -> txn_ro x = false -> envs s !! txn_env x = Some ex ->
  inv X L C g h (upd_env (txn_env x) (MkEnv (env_opened ex) (txn_dbs x) (txn_names x)) s).
Proof.
  destruct HI as [IE IT ID IC IS]. intros Hx Hr He.
  apply (inv_env_change _ ex); [done|done|]. intros j w Hj Hw Hh _.
  pose proof (db_txn_view _ _ _ _ _ ID j w t x Hj Hw Hh Hx) as Hv. rewrite Hr in Hv. apply Hv.
  by apply (txn_env_open _ _ _ _ _ _ IT t x).
Qed.

(** ** Databases *)
Lemma inv_db_new j w e ex :
  h_db h !! j = None -> d_cur w = None -> handle_of (h_env h) (d_env w) = Some e ->
  envs s !! e = Some ex -> env_opened ex = true -> view_has true w (env_dbs ex) ->
  (forall t x, txns s !! t = Some x -> txn_env x = e -> txn_live x = false) ->
  (forall k v, k ∈ g -> h_db h !! k = Some v -> d_env v = d_env w -> d_dbi v <> d_dbi w) ->
  j ∉ g -> inv X L C ({[j]} ∪ g) (up_db <[j := w]> h) s.
Proof.
  destruct HI as [IE IT ID IC IS]. intros Hj Hc Hh He Ho Hv HT HD Hg.
  assert (HG : forall k v, k ∈ {[j]} ∪ g -> <[j := w]> (h_db h) !! k = Some v ->
            (k = j /\ v = w) \/ (k ∈ g /\ h_db h !! k = Some v)).
  { intros k v Hk. rewrite lookup_insert_Some. intros [[<- <-]|[Hne Hk']]; [by left|right].
    set_solver. }
  split; cbn; [done|done| | |done].
  - split.
    + intros k v Hk Hkv. destruct (HG k v Hk Hkv) as [[-> ->]|[??]]; [by exists e, ex|].
      by apply (db_alive _ _ _ _ _ ID k).
    + intros k v e' y Hk Hkv. destruct (HG k v Hk Hkv) as [[-> ->]|[??]].
      * intros. by simplify_eq.
      * by apply (db_env_view _ _ _ _ _ ID k).
    + intros k v t x Hk Hkv. destruct (HG k v Hk Hkv) as [[-> ->]|[??]].
      * intros Hx Ht Hl. rewrite Hh in Hx. injection Hx as Hx. rewrite (HT t x) in Hl; done.
      * by apply (db_txn_view _ _ _ _ _ ID k).
    + intros k k' v v' Hk Hk' Hkv Hkv'.
      destruct (HG k v Hk Hkv) as [[-> ->]|[??]], (HG k' v' Hk' Hkv') as [[-> ->]|[??]]; try done.
      * intros E1 E2. by destruct (HD k' v').
      * intros E1 E2. by destruct (HD k v).
      * by apply ID.
  - assert (HO : forall o, cur_owner (<[j := w]> (h_db h)) (h_cur h) o =
                           cur_owner (h_db h) (h_cur h) o).
    { intros o. rewrite cur_owner_db. case_decide; [|done]. subst. cbn. by rewrite Hj. }
    split.
    + apply IC.
    + intros k v c. rewrite lookup_insert_Some. intros [[_ <-]|[_ Hk]] Hkc; [congruence|].
      destruct (db_cur_alive _ _ _ _ _ _ _ IC k v c Hk Hkc). split; [set_solver|done].
    + intros k cw c Hk Hkc.
      destruct (cur_alive _ _ _ _ _ _ _ IC k cw c Hk Hkc) as (cu & k' & w' & ? & ? & ? & ?).
      exists cu, k', w'. rewrite lookup_insert_ne by congruence.
      split; [done|]. split; [set_solver|done].
    + intros c o o'. rewrite !HO. apply IC.
    + intros c o. rewrite HO. apply IC.
    + intros c cu Hcu. destruct (cur_no_leak _ _ _ _ _ _ _ IC c cu Hcu) as [|[o Hoo]]; [by left|].
      right. exists o. by rewrite HO.
Qed.

(** No open cursor object is on the database [w]. *)
Definition no_cursor_on (w : db) : Prop :=
  forall k cw c cu, h_cur h !! k = Some cw -> c_cursor cw = Some c -> curs s !! c = Some cu ->
    handle_of (h_env h) (d_env w) = Some (cur_env cu) -> cur_dbi cu <> d_dbi w.

(** A database object is not used any more. *)
Lemma inv_db_forget j w (md : gmap nat db) :
  h_db h !! j = Some w -> d_cur w = None -> (j ∈ g -> no_cursor_on w) ->
  (forall k, k <> j -> md !! k = h_db h !! k) ->
  (forall v, md !! j = Some v -> d_cur v = None) ->
  inv X L C (g ∖ {[j]}) (up_db (fun _ => md) h) s.
Proof.
  destruct HI as [IE IT ID IC IS]. intros Hj Hw HC Hk Hv.
  assert (HG : forall k, k ∈ g ∖ {[j]} -> k ∈ g /\ md !! k = h_db h !! k)
    by (intros k Hkg; split; [|apply Hk]; set_solver).
  split; cbn; [done|done| | |done].
  - split.
    + intros k v [Hg ->]%HG. by apply ID.
    + intros k v e ex [Hg ->]%HG. by apply ID.
    + intros k v t x [Hg ->]%HG. by apply ID.
    + intros k k' v v' [Hg ->]%HG [Hg' ->]%HG. by apply ID.
  - assert (HO : forall o, cur_owner md (h_cur h) o = cur_owner (h_db h) (h_cur h) o).
    { intros [k|k]; cbn; [|done]. destruct (decide (k = j)) as [->|Hne]; [|by rewrite Hk].
      rewrite Hj. cbn. rewrite Hw. destruct (md !! j) as [v|] eqn:E; [|done]. by apply Hv. }
    split.
    + apply IC.
    + intros k v c Hkv Hc. destruct (decide (k = j)) as [->|Hne].
      * rewrite (Hv v) in Hc; done.
      * rewrite Hk in Hkv by done. destruct (db_cur_alive _ _ _ _ _ _ _ IC k v c Hkv Hc).
        split; [set_solver|done].
    + intros k cw c Hkw Hc.
      destruct (cur_alive _ _ _ _ _ _ _ IC k cw c Hkw Hc) as (cu & k' & w' & H1 & H2 & H3 & H4 & H5 & H6).
      assert (k' <> j) as Hne by (intros ->; simplify_eq; by destruct (HC H2 k cw c cu)).
      exists cu, k', w'. rewrite Hk by done. split; [done|]. split; [set_solver|done].
    + intros c o o'. rewrite !HO. apply IC.
    + intros c o. rewrite HO. apply IC.
    + intros c cu Hcu. destruct (cur_no_leak _ _ _ _ _ _ _ IC c cu Hcu) as [|[o Hoo]]; [by left|].
      right. exists o. by rewrite HO.
Qed.

Lemma inv_sync_push e ex cb :
  envs s !! e = Some ex -> env_opened ex = true ->
  inv X L C g (up_sync (fun l => l ++ [UvEnvSync (Some e) cb]) h) s.
Proof.
  destruct HI as [IE IT ID IC IS]. intros He Ho. split; cbn; try done.
  intros d [Hd| ->%list_elem_of_singleton]%elem_of_app; [by apply IS|]. by exists e, ex.
Qed.

Lemma inv_sync_pop d l : h_sync h = d :: l -> inv X L C g (up_sync (fun _ => l) h) s.
Proof.
  destruct HI as [IE IT ID IC IS]. intros Hl. split; cbn; try done.
  intros d' Hd. apply IS. rewrite Hl. by right.
Qed.
End Engine.
