(* ===== verification/LmdbSystem.v ===== *)
(** * The LMDB binding as a system

    Sequences of calls JavaScript can make on the objects of the binding,
    interleaved with the flushes of the thread pool and the finalizers.  [op]
    is a call, [exec_op] the method it runs, [disc] what LMDB requires of the
    caller that the binding does not check itself: close what depends on a
    handle before the handle, one write transaction at a time, no closing of a
    database an open transaction has modified and no use of it after that, databases of the types they were opened with. *)
From S2P Require Import Prelude Nan KvTypes Prog Store LmdbApi LmdbObjects LmdbEnv LmdbTxn.
From S2P Require Import LmdbDb LmdbCursor LmdbInv.

Section System.
Context `{V8} `{Libc}.

Inductive op :=
| EnvNew (i : nat) | EnvSetMapSize (i : nat) (a : value) | EnvSetMaxDbs (i : nat) (a : value)
| EnvOpen (i : nat) (a : value) | EnvClose (i : nat) | EnvSync (i cb : nat) | SyncWork | EnvGc (i : nat)
| TxnNew (i e : nat) (a : value) | TxnCommit (i : nat) | TxnAbort (i : nat) | TxnReset (i : nat)
| TxnRenew (i : nat) | TxnGc (i : nat)
| DbNew (K V : kv_type) (i e : nat) (opts : option (value * value)) | DbClose (K V : kv_type) (i : nat)
| DbGet (K V : kv_type) (i : nat) (a0 : value) (a1 : option nat)
| DbPut (K V : kv_type) (i : nat) (a0 a1 : value) (a2 : option nat)
| DbDel (K V : kv_type) (i : nat) (a0 a1 : value) (a2 : option nat)
| DbExists (K V : kv_type) (i : nat) (a0 a1 : value) (a2 : option nat) | DbGc (K V : kv_type) (i : nat)
| CurNew (K V : kv_type) (i d t : nat) | CurClose (K V : kv_type) (i : nat)
| CurDel (K V : kv_type) (i : nat) | CurMove (K V : kv_type) (o : MDB_cursor_op) (i : nat)
| CurSeek (K V : kv_type) (i : nat) (args : list value)
| CurGte (K V : kv_type) (i : nat) (args : list value)
| CurKey (K V : kv_type) (i : nat) | CurVal (K V : kv_type) (i : nat) | CurGc (K V : kv_type) (i : nat).

Definition silent {A} (m : lmeth A) : lmeth info := m ;; done_.

Definition exec_op (o : op) : lmeth info :=
  match o with
  | EnvNew i => env_ctor i
  | EnvSetMapSize i a => env_setMapSize i a
  | EnvSetMaxDbs i a => env_setMaxDbs i a
  | EnvOpen i a => env_open i a
  | EnvClose i => env_close i
  | EnvSync i cb => env_sync i cb
  | SyncWork => silent sync_work
  | EnvGc i => silent (env_dtor i)
  | TxnNew i e a => txn_ctor i e a
  | TxnCommit i => txn_commit i
  | TxnAbort i => txn_abort i
  | TxnReset i => txn_reset i
  | TxnRenew i => txn_renew i
  | TxnGc i => silent (txn_dtor i)
  | DbNew K V i e opts => db_ctor K V i e opts
  | DbClose K V i => db_close K V i
  | DbGet K V i a0 a1 => db_get K V i a0 a1
  | DbPut K V i a0 a1 a2 => db_put K V i a0 a1 a2
  | DbDel K V i a0 a1 a2 => db_del K V i a0 a1 a2
  | DbExists K V i a0 a1 a2 => db_exists K V i a0 a1 a2
  | DbGc K V i => silent (db_dtor K V i)
  | CurNew K V i d t => cursor_ctor K V i d t
  | CurClose K V i => cursor_close K V i
  | CurDel K V i => cursor_del K V i
  | CurMove K V o i => cursorOp K V o i
  | CurSeek K V i args => cursor_seek K V i args
  | CurGte K V i args => cursor_gte K V i args
  | CurKey K V i => cursor_key K V i
  | CurVal K V i => cursor_value K V i
  | CurGc K V i => silent (cursor_dtor K V i)
  end.

(** The databases in use after a call. *)
Definition after (o : op) (g : gset nat) (h' : heap) : gset nat :=
  match o with
  | DbNew _ _ i _ _ => match h_db h' !! i with Some _ => {[i]} ∪ g | None => g end
  | DbClose _ _ i | DbGc _ _ i => g ∖ {[i]}
  | _ => g
  end.

(** ** What the caller has to respect *)
Section Disc.
Context (g : gset nat) (h : heap) (s : lmdb).

Definition open_env (i e : nat) (ex : env_st) : Prop :=
  handle_of (h_env h) i = Some e /\ envs s !! e = Some ex /\ env_opened ex = true.

Definition no_open_txn (e : nat) : Prop :=
  forall j w t, h_txn h !! j = Some w -> t_txn w = Some t -> t_env w <> Some e.
Definition no_write_txn (e : nat) : Prop :=
  forall j w t, h_txn h !! j = Some w -> t_txn w = Some t -> t_readonly w = false -> t_env w <> Some e.
Definition no_read_txn (e : nat) : Prop :=
  forall j w t x, h_txn h !! j = Some w -> t_txn w = Some t -> txns s !! t = Some x ->
    txn_ro x = true -> txn_live x = true -> t_env w <> Some e.

(** Everything of environment [i] is closed. *)
Definition env_unused (i e : nat) : Prop :=
  no_open_txn e /\ (forall j w, j ∈ g -> h_db h !! j = Some w -> d_env w <> i) /\
  (forall j w c cu, h_cur h !! j = Some w -> c_cursor w = Some c -> curs s !! c = Some cu -> cur_env cu <> e) /\
  (forall d, d ∈ h_sync h -> u_dbenv d <> Some e).

Definition open_db (K V : kv_type) (i : nat) (w : db) : Prop :=
  i ∈ g /\ h_db h !! i = Some w /\ key_type w = K /\ value_type w = V.

(** What is stored in the database [w] was written with its types. *)
Definition values_ok (w : db) (m : gmap nat db_st) : Prop :=
  forall d k v, m !! d_dbi w = Some d -> (k, v) ∈ db_data d ->
    (exists a, kv_decode (key_type w) k (length k) = Ok a) /\
    (exists b, kv_decode (value_type w) v (length v) = Ok b).

(** A transaction argument is of the database's environment. *)
Definition txn_arg (w : db) (a : option nat) : Prop :=
  forall i, a = Some i -> exists tw, h_txn h !! i = Some tw /\
    (forall t, t_txn tw = Some t -> t_env tw = handle_of (h_env h) (d_env w)).

Definition encodes (K : kv_type) (a : value) : Prop := exists k, kv_encode K a = Ok k.

(** Without a transaction argument a write begins its own transaction. *)
Definition may_write (w : db) (a : option nat) : Prop :=
  a = None -> forall e, handle_of (h_env h) (d_env w) = Some e -> no_write_txn e.

Definition read_ok (w : db) (a : option nat) : Prop :=
  match a with
  | None => forall e ex, handle_of (h_env h) (d_env w) = Some e -> envs s !! e = Some ex ->
      values_ok w (env_dbs ex)
  | Some i => forall tw t x, h_txn h !! i = Some tw -> t_txn tw = Some t -> txns s !! t = Some x ->
      values_ok w (txn_dbs x)
  end.

(** A write transaction ends after the cursors opened in it are closed. *)
Definition cursors_closed (t : nat) : Prop :=
  forall j w c cu, h_cur h !! j = Some w -> c_cursor w = Some c -> curs s !! c = Some cu ->
    cur_ro cu = true \/ cur_txn cu <> t.

Definition open_cur (K V : kv_type) (i : nat) (w : cursor) : Prop :=
  h_cur h !! i = Some w /\ c_key_type w = K /\ c_value_type w = V.

(** The cursor's transaction was not reset or ended since. *)
Definition cur_usable (w : cursor) : Prop :=
  forall c cu, c_cursor w = Some c -> curs s !! c = Some cu -> cur_stale cu = false.

Definition disc (o : op) : Prop :=
  match o with
  | EnvNew i => h_env h !! i = None
  | EnvSetMapSize i a => exists w, h_env h !! i = Some w /\
      (forall e, e_env w = Some e -> no_open_txn e) /\
      (IsNumber a = true -> exists z, to_unsigned 64 (NumberValue a) = Ok z)
  | EnvSetMaxDbs i _ => is_Some (h_env h !! i)
  | EnvOpen i _ => exists w, h_env h !! i = Some w /\ e_read_lock w = None /\
      forall e ex, e_env w = Some e -> envs s !! e = Some ex -> env_opened ex = false
  | EnvClose i | EnvGc i => exists w, h_env h !! i = Some w /\
      forall e, e_env w = Some e -> env_unused i e
  | EnvSync i _ => exists w, h_env h !! i = Some w /\
      forall e, e_env w = Some e -> exists ex, open_env i e ex
  | SyncWork => True
  | TxnNew i e a => h_txn h !! i = None /\ exists eh ex, open_env e eh ex /\
      (BooleanValue a = false -> no_write_txn eh)
  | TxnCommit i | TxnAbort i | TxnGc i => exists w, h_txn h !! i = Some w /\
      forall t, t_txn w = Some t -> cursors_closed t
  | TxnReset i => is_Some (h_txn h !! i)
  | TxnRenew i => exists w, h_txn h !! i = Some w /\
      (t_readonly w = false -> exists k e ex, t_env w = Some e /\ open_env k e ex /\ no_write_txn e)
  | DbNew K V i e opts => h_db h !! i = None /\ (i ∉ g) /\ exists eh ex, open_env e eh ex /\ no_open_txn eh /\
      forall name dup, opts = Some (name, dup) -> assoc (utf8 name) (env_names ex) = None
  | DbClose K V i => exists w, open_db K V i w /\ no_cursor_on h s w /\
      forall e, handle_of (h_env h) (d_env w) = Some e -> unmodified s e (d_dbi w)
  | DbGc K V i => exists w, h_db h !! i = Some w /\ key_type w = K /\ value_type w = V /\
      (i ∈ g -> no_cursor_on h s w)
  | DbGet K V i a0 a1 => exists w, open_db K V i w /\ encodes K a0 /\ txn_arg w a1 /\ read_ok w a1
  | DbPut K V i a0 a1 a2 | DbDel K V i a0 a1 a2 => exists w, open_db K V i w /\ encodes K a0 /\
      encodes V a1 /\ txn_arg w a2 /\ may_write w a2
  | DbExists K V i a0 a1 a2 => exists w, open_db K V i w /\ encodes K a0 /\ encodes V a1 /\
      txn_arg w a2 /\
      (a2 = None -> forall e, handle_of (h_env h) (d_env w) = Some e -> no_read_txn e)
  | CurNew K V i d t => h_cur h !! i = None /\ exists w, open_db K V d w /\ txn_arg w (Some t)
  | CurClose K V i | CurGc K V i => exists w, open_cur K V i w
  | CurDel K V i => exists w, open_cur K V i w /\ cur_usable w /\ is_Some (c_cursor w)
  | CurMove K V o i => exists w, open_cur K V i w /\ cur_usable w /\ op_uses_key o = false
  | CurSeek K V i args | CurGte K V i args => exists w, open_cur K V i w /\ cur_usable w /\
      encodes K (nth 0 args v_undefined) /\
      (length args <> 1%nat -> encodes V (nth 1 args v_undefined))
  | CurKey K V i | CurVal K V i => exists w, open_cur K V i w /\ cur_usable w /\
      forall c cu x k v, c_cursor w = Some c -> curs s !! c = Some cu -> txns s !! cur_txn cu = Some x ->
        k ∈ g -> h_db h !! k = Some v -> d_dbi v = cur_dbi cu -> key_type v = K -> value_type v = V ->
        values_ok v (txn_dbs x)
  end.
End Disc.

(** ** Reachable states *)
Inductive reach : gset nat -> heap -> lmdb -> Prop :=
| reach_0 : reach ∅ heap0 lmdb0
| reach_op o g h s i h' s' :
    reach g h s -> disc g h s o -> may LMDB_steady (exec_op o h) s (i, h') s' ->
    reach (after o g h') h' s'.
End System.
