(* ===== verification/LmdbSafety.v ===== *)
(** * The LMDB binding is safe for a caller that respects its discipline

    Every method, called as [disc] asks from a state that satisfies the
    invariant, makes only calls LMDB allows, has no undefined behaviour of its
    own, and restores the invariant, whatever LMDB answers. *)
From S2P Require Import Prelude Nan KvTypes Prog Store LmdbApi LmdbObjects LmdbEnv LmdbTxn.
From S2P Require Import LmdbDb LmdbCursor LmdbInv LmdbSystem.

Section Safety.
Context `{V8} `{Libc}.

(** The only undefined behaviour that is left: [db::ctor] aborts a pointer it
    never wrote when LMDB cannot begin a transaction. *)
Definition tolerated (o : op) (u : ub) : Prop :=
  match o with DbNew _ _ _ _ _ => u = UninitRead | _ => False end.

Definition ok_after (g : gset nat) (o : op) : info -> heap -> lmdb -> Prop :=
  fun _ h' s' => quiet (after o g h') h' s'.

(** ** Consequences of the invariant *)
Section Facts.
Context (g : gset nat) (h : heap) (s : lmdb).
Hypothesis HI : quiet g h s.

Lemma quiet_owner t x : txns s !! t = Some x -> exists o, txn_owner (h_env h) (h_txn h) o = Some t.
Proof. intros Hx. destruct (txn_no_leak _ _ _ _ _ _ (inv_txns _ _ _ _ _ _ HI) t x Hx); [set_solver|done]. Qed.

(** A transaction of LMDB is the idle read lock of its environment or belongs
    to a transaction object. *)
Lemma quiet_txn t x : txns s !! t = Some x ->
  (exists i, lock_of (h_env h) i = Some t /\ handle_of (h_env h) i = Some (txn_env x) /\
     txn_ro x = true /\ txn_live x = false) \/
  (exists j w, h_txn h !! j = Some w /\ t_txn w = Some t /\ txn_ro x = t_readonly w /\
     t_env w = Some (txn_env x)).
Proof.
  intros Hx. pose proof (inv_txns _ _ _ _ _ _ HI) as IT. destruct (quiet_owner t x Hx) as [[i|j] Ho]; cbn in Ho.
  - left. exists i. destruct (lock_alive _ _ _ _ _ _ IT i t Ho) as (y & Hy & ? & ? & Hl).
    simplify_eq. split_and!; try done. apply Hl. set_solver.
  - right. destruct (h_txn h !! j) as [w|] eqn:Hj; [|done]. cbn in Ho.
    destruct (txn_alive _ _ _ _ _ _ IT j w t Hj Ho) as (y & Hy & ? & ?). simplify_eq. by exists j, w.
Qed.

Lemma quiet_no_writer e : no_write_txn h e -> no_writer s e.
Proof.
  intros Hn t x Hx <-. destruct (quiet_txn t x Hx) as [(i & _ & _ & ? & _)|(j & w & Hj & Ht & Hr & He)]; [done|].
  destruct (txn_ro x) eqn:E; [done|]. by destruct (Hn j w t Hj Ht).
Qed.

Lemma quiet_idle e t x :
  no_open_txn h e -> txns s !! t = Some x -> txn_env x = e ->
  exists i, lock_of (h_env h) i = Some t /\ handle_of (h_env h) i = Some e /\ txn_ro x = true /\
    txn_live x = false.
Proof.
  intros Hn Hx <-. destruct (quiet_txn t x Hx) as [(i & ? & ? & ? & ?)|(j & w & Hj & Ht & Hr & He)].
  - by exists i.
  - by destruct (Hn j w t Hj Ht).
Qed.

Lemma quiet_no_reader e : no_read_txn h s e -> no_reader s e.
Proof.
  intros Hn t x Hx <- Hr. destruct (quiet_txn t x Hx) as [(i & ? & ? & ? & ?)|(j & w & Hj & Ht & _ & He)]; [done|].
  destruct (txn_live x) eqn:Hl; [|done]. by destruct (Hn j w t x Hj Ht Hx).
Qed.

Lemma quiet_cur c cu : curs s !! c = Some cu ->
  (exists j w, j ∈ g /\ h_db h !! j = Some w /\ d_cur w = Some c /\ cur_ro cu = true /\
     handle_of (h_env h) (d_env w) = Some (cur_env cu)) \/
  (exists j w, h_cur h !! j = Some w /\ c_cursor w = Some c).
Proof.
  intros Hc. pose proof (inv_curs _ _ _ _ _ _ HI) as IC.
  destruct (cur_no_leak _ _ _ _ _ _ _ IC c cu Hc) as [|[[j|j] Ho]]; [set_solver| |]; cbn in Ho.
  - left. destruct (h_db h !! j) as [w|] eqn:Hj; [|done]. cbn in Ho.
    destruct (db_cur_alive _ _ _ _ _ _ _ IC j w c Hj Ho) as (? & cu' & ? & ? & ? & ? & _).
    simplify_eq. by exists j, w.
  - right. destruct (h_cur h !! j) as [w|] eqn:Hj; [|done]. by exists j, w.
Qed.

Lemma quiet_cur_open c cu : curs s !! c = Some cu ->
  exists ex, envs s !! cur_env cu = Some ex /\ env_opened ex = true.
Proof.
  intros Hc. pose proof (inv_curs _ _ _ _ _ _ HI) as IC. pose proof (inv_dbs _ _ _ _ _ _ HI) as ID.
  destruct (quiet_cur c cu Hc) as [(j & w & Hg & Hj & _ & _ & Hh)|(j & w & Hj & Hw)].
  - destruct (db_alive _ _ _ _ _ ID j w Hg Hj) as (e & ex & He & Hx & Ho).
    rewrite Hh in He. simplify_eq. by exists ex.
  - destruct (cur_alive _ _ _ _ _ _ _ IC j w c Hj Hw) as (cu' & k & v & Hc' & Hg & Hk & _ & Hh & _).
    simplify_eq. destruct (db_alive _ _ _ _ _ ID k v Hg Hk) as (e & ex & He & Hx & Ho).
    rewrite Hh in He. simplify_eq. by exists ex.
Qed.

(** An environment that was never opened has nothing in it. *)
Lemma quiet_fresh_env i e ex :
  handle_of (h_env h) i = Some e -> envs s !! e = Some ex -> env_opened ex = false ->
  (forall t x, txns s !! t = Some x -> txn_env x <> e) /\
  (forall j w, j ∈ g -> h_db h !! j = Some w -> d_env w <> i) /\
  (forall c cu, curs s !! c = Some cu -> cur_env cu <> e) /\
  (forall d, d ∈ h_sync h -> u_dbenv d <> Some e).
Proof.
  intros Hi He Ho. destruct HI as [IE IT ID IC IS]. split_and!.
  - intros t x Hx <-. destruct (txn_env_open _ _ _ _ _ _ IT t x Hx) as [(z & Hz & Hoz) _]. congruence.
  - intros j w Hg Hj <-. destruct (db_alive _ _ _ _ _ ID j w Hg Hj) as (e' & z & ? & ? & ?). congruence.
  - intros c cu Hc <-. destruct (quiet_cur_open c cu Hc) as (z & ? & ?). congruence.
  - intros d Hd Hde. destruct (IS d Hd) as (e' & z & ? & ? & ?). congruence.
Qed.

(** Nothing in LMDB belongs to an environment whose objects are all closed,
    but the read lock. *)
Lemma unused_txns i e w t x :
  env_unused g h s i e -> h_env h !! i = Some w -> e_env w = Some e ->
  txns s !! t = Some x -> txn_env x = e -> e_read_lock w = Some t.
Proof.
  intros (Hn & _) Hi He Hx Hxe. destruct (quiet_idle e t x Hn Hx Hxe) as (k & Hk & Hh & _).
  assert (k = i) as ->.
  { eapply (env_inj _ _ (inv_envs _ _ _ _ _ _ HI)); [exact Hh|]. unfold handle_of. by rewrite Hi. }
  unfold lock_of in Hk. by rewrite Hi in Hk.
Qed.

Lemma unused_curs i e w c cu :
  env_unused g h s i e -> h_env h !! i = Some w -> e_env w = Some e ->
  curs s !! c = Some cu -> cur_env cu <> e.
Proof.
  intros (_ & Hd & Hc & _) Hi He Hcu Hce.
  destruct (quiet_cur c cu Hcu) as [(j & v & Hg & Hj & _ & _ & Hh)|(j & v & Hj & Hv)].
  - apply (Hd j v Hg Hj). eapply (env_inj _ _ (inv_envs _ _ _ _ _ _ HI)); [exact Hh|].
    unfold handle_of. rewrite Hi. cbn. congruence.
  - by destruct (Hc j v c cu Hj Hv Hcu).
Qed.
End Facts.

Definition safe_op (o : op) : Prop :=
  forall g h s, quiet g h s -> disc g h s o -> wpm LMDB (tolerated o) (exec_op o) h s (ok_after g o).

(** ** Environments *)
Lemma safe_env_new i : safe_op (EnvNew i).
Proof.
  intros g h s HI HD. unfold exec_op, env_ctor. wstep. wstep; [done|].
  intros r s' [(e & -> & He & ->)|(Hr & Hn & ->)]; wred.
  - wstep. wstep. wstep. by apply inv_env_new.
  - destruct r as [rc e]. cbn in Hr, Hn. subst e. rewrite (proj2 (Z.eqb_neq rc 0)) by done.
    wstep. wstep; [done|]. intros [] s' ->. by wstep.
Qed.

Lemma safe_env_setMapSize i a : safe_op (EnvSetMapSize i a).
Proof.
  intros g h s HI (w & Hw & Hn & Ha). unfold exec_op, env_setMapSize. wstep. wstep.
  destruct (e_env w) as [e|] eqn:He; [|by wstep]. wstep; [|by wstep].
  destruct (Ha eq_refl) as [z Hz]. wstep. wstep. wstep. wstep.
  - destruct (env_alive _ _ (inv_envs _ _ _ _ _ _ HI) i e) as [x Hx];
      [unfold handle_of; by rewrite Hw|].
    exists e, x. split_and!; try done. intros t y Ht Hy.
    by destruct (quiet_idle g h s HI e t y (Hn e eq_refl) Ht Hy) as (_ & _ & _ & _ & Hl).
  - intros _ s' ->. by wstep.
Qed.

Lemma quiet_env g h s i w e :
  quiet g h s -> h_env h !! i = Some w -> e_env w = Some e ->
  handle_of (h_env h) i = Some e /\ exists x, envs s !! e = Some x.
Proof.
  intros HI Hw He. assert (handle_of (h_env h) i = Some e) as Hh by (unfold handle_of; by rewrite Hw).
  split; [done|]. apply (env_alive _ _ (inv_envs _ _ _ _ _ _ HI) i e Hh).
Qed.

Lemma safe_env_setMaxDbs i a : safe_op (EnvSetMaxDbs i a).
Proof.
  intros g h s HI [w Hw]. unfold exec_op, env_setMaxDbs. wstep. wstep.
  destruct (e_env w) as [e|] eqn:He; [|by wstep]. wstep; [|by wstep].
  destruct (quiet_env g h s i w e HI Hw He) as (Hh & x & Hx).
  wstep. wstep; [by exists e, x|]. intros _ s' ->. by wstep.
Qed.

Lemma safe_env_open i a : safe_op (EnvOpen i a).
Proof.
  intros g h s HI (w & Hw & Hl & Ho). unfold exec_op, env_open. wstep. wstep.
  destruct (e_env w) as [e|] eqn:He; [|by wstep].
  destruct (quiet_env g h s i w e HI Hw He) as (Hh & x & Hx). specialize (Ho e x eq_refl Hx).
  wstep. wstep; [by exists e, x|].
  intros rc s' [(-> & h' & x' & [= <-] & Hx' & ->)|(Hrc & ->)]; wred.
  - simplify_eq. wstep. wstep; [exists e, (opened x); cbn; by rewrite lookup_insert_eq|].
    intros _ s' ->. wstep. by apply (inv_env_change _ _ _ _ _ _ HI e x).
  - rewrite (proj2 (Z.eqb_neq rc 0)) by done. wred. wstep. wstep.
    + intros e' [= <-]. split; [by exists x|].
      by destruct (quiet_fresh_env g h s HI i e x Hh Hx Ho) as (? & _ & ? & _).
    + intros [] s' ->. wstep. wstep. wstep. rewrite Hl.
      destruct (quiet_fresh_env g h s HI i e x Hh Hx Ho) as (? & ? & ? & ?).
      apply (inv_env_gone _ _ _ _ _ _ HI i e); try done.
      * intros k. apply handle_of_insert.
      * intros k. rewrite lock_of_insert. case_decide; [|done]. subst. unfold lock_of. by rewrite Hw.
Qed.

Lemma settle t L C g h s : inv (({[t]} ∪ ∅) ∖ {[t]}) L C g h s -> inv ∅ L C g h s.
Proof. by replace (({[t]} ∪ ∅) ∖ {[t]}) with (∅ : gset nat) by set_solver. Qed.

(** The read lock is given up first. *)
Definition released (w : env) (s : lmdb) : lmdb :=
  match e_read_lock w with Some t => end_txn t true s | None => s end.

Lemma release_lock g h s i w e :
  quiet g h s -> h_env h !! i = Some w -> e_env w = Some e -> env_unused g h s i e ->
  quiet g (up_env <[i := Env (Some e) None]> h) (released w s) /\
  (forall t y, txns (released w s) !! t = Some y -> txn_env y <> e) /\
  (forall c cu, curs (released w s) !! c = Some cu -> cur_env cu <> e).
Proof.
  intros HI Hw He HU. unfold released. destruct (e_read_lock w) as [t|] eqn:Ht.
  - destruct (lock_alive _ _ _ _ _ _ (inv_txns _ _ _ _ _ _ HI) i t) as (x & Hx & Hh & Hr & _);
      [unfold lock_of; by rewrite Hw|]. split_and!.
    + pose proof (inv_disown_lock _ _ _ _ _ _ HI i w t Hw Ht (proj1 (proj2 HU))) as H1.
      unfold set_read_lock in H1. rewrite He in H1.
      pose proof (inv_end _ _ _ _ _ _ H1 t x ltac:(set_solver) Hx) as H2. rewrite Hr in H2.
      apply (settle t). by apply H2.
    + unfold end_txn. cbn. intros t' y [Hne Hy]%lookup_delete_Some Hye.
      pose proof (unused_txns g h s HI i e w t' y HU Hw He Hy Hye). congruence.
    + unfold end_txn. cbn. intros c cu. rewrite lookup_fmap.
      destruct (curs s !! c) as [a|] eqn:Ha; [|done]. cbn. intros [= <-].
      replace (cur_env (outlive t a)) with (cur_env a)
        by (unfold outlive; by destruct (cur_ro a && _)).
      by apply (unused_curs g h s HI i e w c).
  - split_and!.
    + assert (up_env <[i := Env (Some e) None]> h = h) as ->; [|done].
      destruct h as [m1 m2 m3 m4 m5], w as [w1 w2]. cbn in *. subst. unfold up_env. cbn.
      f_equal. by apply insert_id.
    + intros t y Hy Hye. pose proof (unused_txns g h s HI i e w t y HU Hw He Hy Hye). congruence.
    + intros c cu Hc. by apply (unused_curs g h s HI i e w c).
Qed.

Lemma wp_release U w h s (Q : unit -> heap -> lmdb -> Prop) :
  (forall t, e_read_lock w = Some t -> exists x, txns s !! t = Some x /\ txn_ro x = true) ->
  Q tt h (released w s) ->
  wpm LMDB U (when_some (e_read_lock w) (fun t => ffi (mdb_txn_abort (Some t)))) h s Q.
Proof.
  unfold released. destruct (e_read_lock w) as [t|]; intros Hl HQ; wred; [|by wpm_step].
  destruct (Hl t eq_refl) as (x & Hx & Hr). wpm_step.
  - intros t' [= <-]. by exists x.
  - intros [] s' (y & Hy & ->). simplify_eq. by rewrite Hr.
Qed.

Lemma quiet_lock g h s i w :
  quiet g h s -> h_env h !! i = Some w ->
  forall t, e_read_lock w = Some t -> exists x, txns s !! t = Some x /\ txn_ro x = true.
Proof.
  intros HI Hw t Ht.
  destruct (lock_alive _ _ _ _ _ _ (inv_txns _ _ _ _ _ _ HI) i t) as (x & Hx & _ & Hr & _);
    [unfold lock_of; by rewrite Hw|]. by exists x.
Qed.

(** Closing the environment itself, whatever object is left in its place. *)
Lemma close_env g h s i w e (me : gmap nat env) :
  quiet g h s -> h_env h !! i = Some w -> e_env w = Some e -> env_unused g h s i e ->
  (forall k, handle_of me k = if decide (k = i) then None else handle_of (h_env h) k) ->
  (forall k, lock_of me k = if decide (k = i) then None else lock_of (h_env h) k) ->
  quiet g (up_env (fun _ => me) h) (del_env e (released w s)).
Proof.
  intros HI Hw He HU Hm Hl. destruct (release_lock g h s i w e HI Hw He HU) as (H1 & H2 & H3).
  destruct HU as (_ & HU1 & _ & HU2).
  apply (inv_env_gone _ _ _ _ _ _ H1 i e me); cbn; try done.
  - by rewrite handle_of_insert, decide_True.
  - intros k. rewrite Hm, handle_of_insert. by case_decide.
  - intros k. rewrite Hl, lock_of_insert. by case_decide.
Qed.

Lemma released_env g h s i w e :
  quiet g h s -> h_env h !! i = Some w -> e_env w = Some e -> env_unused g h s i e ->
  mdb_allowed _ (released w s) (mdb_env_close (Some e)).
Proof.
  intros HI Hw He HU e' [= <-].
  destruct (release_lock g h s i w e HI Hw He HU) as (H1 & H2 & H3). split; [|done].
  destruct (quiet_env g h s i w e HI Hw He) as (_ & x & Hx). exists x.
  unfold released. by destruct (e_read_lock w).
Qed.

Lemma safe_env_close i : safe_op (EnvClose i).
Proof.
  intros g h s HI (w & Hw & HU). unfold exec_op, env_close. wstep. wstep.
  destruct (e_env w) as [e|] eqn:He; [|by wstep]. specialize (HU e eq_refl).
  wstep. apply wp_release; [by eapply quiet_lock|]. wstep. wstep. wstep. wstep.
  - by apply (released_env g h s i).
  - intros [] s' ->. wstep. wstep. wstep.
    assert (E : up_env <[i := Env None None]> (up_env <[i := Env (Some e) None]> h) =
                up_env (fun _ => <[i := Env None None]> (h_env h)) h)
      by (unfold up_env; cbn; by rewrite insert_insert_eq).
    rewrite E. apply (close_env g h s i w e); try done.
    + intros k. apply handle_of_insert.
    + intros k. apply lock_of_insert.
Qed.

Lemma safe_env_gc i : safe_op (EnvGc i).
Proof.
  intros g h s HI (w & Hw & HU). unfold exec_op, silent, env_dtor. wstep. wstep. wstep.
  wstep. apply wp_release; [by eapply quiet_lock|]. wstep.
  destruct (e_env w) as [e|] eqn:He; wred.
  - specialize (HU e eq_refl). wstep; [by apply (released_env g h s i)|].
    intros [] s' ->. wstep. wstep. apply (close_env g h s i w e); try done.
    + intros k. unfold handle_of. case_decide; [subst; by rewrite lookup_delete_eq|].
      by rewrite lookup_delete_ne.
    + intros k. unfold lock_of. case_decide; [subst; by rewrite lookup_delete_eq|].
      by rewrite lookup_delete_ne.
  - assert (e_read_lock w = None) as Hl.
    { destruct (e_read_lock w) as [t|] eqn:Hl; [|done].
      destruct (lock_alive _ _ _ _ _ _ (inv_txns _ _ _ _ _ _ HI) i t) as (x & _ & Hh & _);
        [unfold lock_of; by rewrite Hw|]. unfold handle_of in Hh. rewrite Hw in Hh. cbn in Hh. congruence. }
    unfold released. rewrite Hl. wstep. wstep. wstep. apply (inv_idle_env _ _ _ _ _ _ HI).
    + intros k. unfold handle_of. destruct (decide (k = i)) as [->|].
      * by rewrite lookup_delete_eq, Hw.
      * by rewrite lookup_delete_ne.
    + intros k. unfold lock_of. destruct (decide (k = i)) as [->|].
      * by rewrite lookup_delete_eq, Hw.
      * by rewrite lookup_delete_ne.
Qed.

Lemma safe_env_sync i cb : safe_op (EnvSync i cb).
Proof.
  intros g h s HI (w & Hw & HU). unfold exec_op, env_sync. wstep. wstep.
  destruct (e_env w) as [e|] eqn:He; [|by wstep]. destruct (HU e eq_refl) as (ex & _ & Hx & Ho).
  wstep. wstep. wstep. by apply (inv_sync_push _ _ _ _ _ _ HI e ex).
Qed.

Lemma safe_sync_work : safe_op SyncWork.
Proof.
  intros g h s HI _. unfold exec_op, silent, sync_work, sync_cb. wstep. wstep.
  eapply wpm_unwrap; [done|]. destruct (h_sync h) as [|d l] eqn:Hl; [by wstep; wstep|].
  destruct (inv_sync _ _ _ _ _ _ HI d) as (e & ex & Hd & Hx & Ho); [rewrite Hl; by left|].
  wstep. wstep; [by exists e, ex|]. intros rc s' ->. wstep. wstep. wstep. wstep.
  by apply (inv_sync_pop _ _ _ _ _ _ HI d).
Qed.

(** ** Transactions *)
Lemma safe_txn_new i e a : safe_op (TxnNew i e a).
Proof.
  intros g h s HI (Hi & eh & ex & (Hh & He & Ho) & Hn). unfold exec_op, txn_ctor.
  unfold handle_of in Hh. destruct (h_env h !! e) as [w|] eqn:Hw; [|done]. cbn in Hh.
  wstep. wstep. cbn [t_env t_readonly]. rewrite Hh. wstep. wstep.
  - split; [done|]. exists eh, ex. split_and!; try done. intros Hro. apply (quiet_no_writer g h); [done|].
    apply Hn. by destruct (BooleanValue a).
  - intros r s' [(t & eh' & ex' & -> & [= <-] & He' & Ht & _ & ->)|(Hr & Hs & ->)]; wred.
    + wstep. wstep. wstep. simplify_eq.
      pose proof (inv_begin _ _ _ _ _ _ HI t eh (is_ro (if BooleanValue a then MDB_RDONLY else 0))
                    ex Ht He Ho) as H1.
      apply (settle t). eapply (inv_adopt_txn _ _ _ _ _ _ H1); try done.
      * set_solver.
      * by rewrite Hi.
      * cbn. by rewrite lookup_insert_eq.
      * cbn. by destruct (BooleanValue a).
      * done.
    + destruct r as [rc t]. cbn in Hr. rewrite (proj2 (Z.eqb_neq rc 0)) by done. wred. by wstep.
Qed.

(** Ending the transaction of an object, which then holds no handle. *)
Lemma closed_cursors g h s i w t x :
  quiet g h s -> h_txn h !! i = Some w -> t_txn w = Some t -> txns s !! t = Some x ->
  cursors_closed h s t -> txn_ro x = false ->
  forall c cu, curs s !! c = Some cu -> cur_ro cu = true \/ cur_txn cu <> t.
Proof.
  intros HI Hi Ht Hx HC Hr c cu Hc.
  destruct (quiet_cur g h s HI c cu Hc) as [(j & v & _ & _ & _ & ? & _)|(j & v & Hj & Hv)].
  - by left.
  - by apply (HC j v c cu).
Qed.

Lemma end_object g h s i w w' t x :
  quiet g h s -> h_txn h !! i = Some w -> t_txn w = Some t -> txns s !! t = Some x ->
  cursors_closed h s t -> t_txn w' = None ->
  quiet g (up_txn <[i := w']> h) (end_txn t (txn_ro x) s).
Proof.
  intros HI Hi Ht Hx HC Hw'. pose proof (inv_disown_txn _ _ _ _ _ _ HI i w t w' Hi Ht Hw') as H1.
  apply (settle t). apply (inv_end _ _ _ _ _ _ H1 t x); [set_solver|done|].
  by eapply closed_cursors.
Qed.

Lemma quiet_txn_obj g h s i w t :
  quiet g h s -> h_txn h !! i = Some w -> t_txn w = Some t -> exists x, txns s !! t = Some x /\
    txn_ro x = t_readonly w /\ t_env w = Some (txn_env x).
Proof. intros HI Hi Ht. apply (txn_alive _ _ _ _ _ _ (inv_txns _ _ _ _ _ _ HI) i w t Hi Ht). Qed.

Lemma safe_txn_commit i : safe_op (TxnCommit i).
Proof.
  intros g h s HI (w & Hw & HC). unfold exec_op, txn_commit. wstep. wstep.
  destruct (t_txn w) as [t|] eqn:Ht; [|by wstep].
  destruct (quiet_txn_obj g h s i w t HI Hw Ht) as (x & Hx & Hr & He).
  wstep. wstep; [intros t' [= <-]; by exists x|].
  assert (HE : forall s', s' = end_txn t (txn_ro x) s \/ (txn_ro x = false /\ exists ex,
      envs s !! txn_env x = Some ex /\
      s' = upd_env (txn_env x) (MkEnv (env_opened ex) (txn_dbs x) (txn_names x)) (end_txn t false s)) ->
    quiet g (up_txn <[i := set_txn None w]> h) s').
  { intros s' [->|(Hro & ex & Hex & ->)]; [apply (end_object g h s i w _ t x); auto|].
    pose proof (inv_publish _ _ _ _ _ _ HI t x ex Hx Hro Hex) as HP.
    pose proof (end_object g h _ i w (set_txn None w) t x HP Hw Ht Hx) as HE.
    rewrite Hro in HE. by apply HE; [apply HC|]. }
  intros rc s' (y & Hy & Ha). assert (y = x) as -> by congruence. clear Hy. wstep. wstep.
  assert (quiet g (up_txn <[i := set_txn None w]> h) s') as HQ.
  { apply HE. destruct (txn_ro x); [left; by destruct Ha|].
    destruct Ha as [[_ (ex & Hex & ->)]|[_ ->]]; [|by left]. right. split; [done|]. by exists ex. }
  by wstep; wstep.
Qed.

Lemma safe_txn_abort i : safe_op (TxnAbort i).
Proof.
  intros g h s HI (w & Hw & HC). unfold exec_op, txn_abort. wstep. wstep.
  destruct (t_txn w) as [t|] eqn:Ht; [|by wstep].
  destruct (quiet_txn_obj g h s i w t HI Hw Ht) as (x & Hx & Hr & He).
  wstep. wstep; [intros t' [= <-]; by exists x|]. intros [] s' (y & Hy & ->). assert (y = x) as -> by congruence. clear Hy.
  wstep. wstep. wstep. apply (end_object g h s i w _ t x); auto.
Qed.

Lemma safe_txn_gc i : safe_op (TxnGc i).
Proof.
  intros g h s HI (w & Hw & HC). unfold exec_op, silent, txn_dtor. wstep. wstep. wstep. wstep.
  assert (HG : forall h s, quiet g h s -> h_txn h !! i ≫= t_txn = None ->
            quiet g (up_txn (delete i) h) s).
  { intros h' s' HI' Hn. apply (inv_idle_txn _ _ _ _ _ _ HI' (delete i (h_txn h'))).
    - intros j. destruct (decide (j = i)) as [->|]; [by rewrite lookup_delete_eq|by rewrite lookup_delete_ne].
    - by intros j v t [_ Hj]%lookup_delete_Some _. }
  destruct (t_txn w) as [t|] eqn:Ht; wred.
  - destruct (quiet_txn_obj g h s i w t HI Hw Ht) as (x & Hx & Hr & He).
    wstep; [intros t' [= <-]; by exists x|]. intros [] s' (y & Hy & ->). assert (y = x) as -> by congruence. clear Hy. wstep. wstep.
    assert (E : up_txn (delete i) h = up_txn (delete i) (up_txn <[i := set_txn None w]> h))
      by (unfold up_txn; cbn; by rewrite delete_insert_eq).
    unfold ok_after. cbn [after]. rewrite E. apply HG; [|cbn; by rewrite lookup_insert_eq].
    apply (end_object g h s i w _ t x); auto.
  - wstep. wstep. wstep. apply HG; [done|]. by rewrite Hw.
Qed.

Lemma safe_txn_reset i : safe_op (TxnReset i).
Proof.
  intros g h s HI [w Hw]. unfold exec_op, txn_reset. wstep. wstep.
  destruct (t_txn w) as [t|] eqn:Ht; [|by wstep].
  destruct (quiet_txn_obj g h s i w t HI Hw Ht) as (x & Hx & Hr & He).
  wstep; [by wstep|]. wstep. wstep; [intros t' [= <-]; by exists x|].
  intros [] s' (y & Hy & ->). assert (y = x) as -> by congruence. clear Hy. wstep. destruct (txn_ro x) eqn:Hro; [|done].
  pose proof (inv_reset _ _ _ _ _ _ HI t x Hx Hro) as HR.
  by replace (∅ ∖ {[t]}) with (∅ : gset nat) in HR by set_solver.
Qed.

Lemma safe_txn_renew i : safe_op (TxnRenew i).
Proof.
  intros g h s HI (w & Hw & Hn). unfold exec_op, txn_renew. wstep. wstep. wstep.
  - destruct (t_txn w) as [t|] eqn:Ht; [|by wstep].
    destruct (quiet_txn_obj g h s i w t HI Hw Ht) as (x & Hx & Hr & He).
    wstep. wstep; [intros t' [= <-]; by exists x|]. intros rc s' (y & Hy & Ha). assert (y = x) as -> by congruence. clear Hy.
    assert (quiet g h s') as HQ.
    { destruct (txn_ro x && negb (txn_live x)) eqn:E; [|by destruct Ha as [_ ->]].
      apply andb_true_iff in E as [Hro Hl].
      destruct Ha as [(_ & _ & ex & Hex & ->)|[_ ->]]; [|done].
      apply (inv_renew _ _ _ _ _ _ HI ∅ t x ex Hx Hro Hex); [done|].
      intros k Hk. pose proof (txn_own_inj _ _ _ _ _ _ (inv_txns _ _ _ _ _ _ HI) t (inl k) (inr i)) as Ho.
      cbn in Ho. rewrite Hw in Ho. by specialize (Ho Hk Ht). }
    by wstep; wstep.
  - destruct (t_txn w) as [t|] eqn:Ht; [by wstep|].
    destruct (Hn eq_refl) as (k & e & ex & He & (Hh & Hex & Ho) & Hnw). rewrite He. wstep. wstep.
    + split; [done|]. exists e, ex. split_and!; try done. intros _. by apply (quiet_no_writer g h).
    + intros r s' [(t & eh' & ex' & -> & [= <-] & He' & Hf & _ & ->)|(Hr & Hs & ->)]; wred.
      * simplify_eq. pose proof (inv_begin _ _ _ _ _ _ HI t e false ex Hf Hex Ho) as H1.
        wstep. wstep. wstep. apply (settle t).
        eapply (inv_adopt_txn _ _ _ _ _ _ H1); try done.
        -- set_solver.
        -- by rewrite Hw.
        -- cbn. by rewrite lookup_insert_eq.
        -- cbn. congruence.
        -- cbn. congruence.
      * destruct r as [rc t]. cbn in Hr, Hs. subst t. rewrite (proj2 (Z.eqb_neq rc 0)) by done. wred.
        wstep. wstep. wstep.
        apply (inv_idle_txn _ _ _ _ _ _ HI (<[i := set_txn None w]> (h_txn h))).
        -- intros j. destruct (decide (j = i)) as [->|]; [|by rewrite lookup_insert_ne].
           by rewrite lookup_insert_eq, Hw.
        -- intros j v t. rewrite lookup_insert_Some. by intros [[_ <-]|[_ ?]].
Qed.
End Safety.
