(* ===== verification/LmdbSafetyDb.v ===== *)
(** * Safety of the LMDB databases and cursors

    The second half of the safety argument: the methods of [db] and [cursor],
    and the theorems on whole runs of the binding. *)
From S2P Require Import Prelude Nan KvTypes Prog Store LmdbApi LmdbEngine LmdbObjects LmdbEnv.
From S2P Require Import LmdbTxn LmdbDb LmdbCursor LmdbInv LmdbSystem LmdbSafety.

Section SafetyDb.
Context `{V8} `{Libc}.

Lemma open_db_unwrap g h K V i w :
  open_db g h K V i w ->
  (h_db h !! i ≫= fun dw => if decide (key_type dw = K /\ value_type dw = V) then Some dw else None) = Some w.
Proof. intros (_ & Hi & HK & HV). rewrite Hi. cbn. by rewrite decide_True. Qed.

Lemma open_cur_unwrap h K V i w :
  open_cur h K V i w ->
  (h_cur h !! i ≫= fun cw => if decide (c_key_type cw = K /\ c_value_type cw = V) then Some cw else None)
  = Some w.
Proof. intros (Hi & HK & HV). rewrite Hi. cbn. by rewrite decide_True. Qed.

(** ** Keys and data fit the comparators *)
Section Typed.
Context (X L C g : gset nat) (h : heap) (s : lmdb).
Hypothesis HI : inv X L C g h s.

(** A transaction pointer of the environment of the database [w]. *)
Definition txn_for (w : db) (tp : ptr) : Prop :=
  forall t, tp = Some t -> exists x, txns s !! t = Some x /\
    handle_of (h_env h) (d_env w) = Some (txn_env x).

Lemma view_typed i w t x d :
  i ∈ g -> h_db h !! i = Some w -> txns s !! t = Some x ->
  handle_of (h_env h) (d_env w) = Some (txn_env x) -> txn_db s t (d_dbi w) = Some d ->
  db_typed (key_type w) (value_type w) d.
Proof.
  intros Hg Hi Hx Hh Hd. unfold txn_db in Hd. rewrite Hx in Hd. cbn in Hd.
  destruct (txn_live x) eqn:Hl; [|done].
  pose proof (db_txn_view _ _ _ _ _ (inv_dbs _ _ _ _ _ _ HI) i w t x Hg Hi Hh Hx Hl) as Hv.
  unfold view_has in Hv. by rewrite Hd in Hv.
Qed.

Lemma key_fits K V i w tp t a k :
  open_db g h K V i w -> txn_for w tp -> tp = Some t -> kv_encode K a = Ok k ->
  key_ok s t (d_dbi w) k.
Proof.
  intros (Hg & Hi & HK & HV) Ht Htp Hk d Hd. destruct (Ht t Htp) as (x & Hx & Hh).
  destruct (view_typed i w t x d Hg Hi Hx Hh Hd) as [-> _]. subst K. by eapply encode_dom.
Qed.

Lemma data_fits K V i w tp t a v :
  open_db g h K V i w -> txn_for w tp -> tp = Some t -> kv_encode V a = Ok v ->
  data_ok s t (d_dbi w) v.
Proof.
  intros (Hg & Hi & HK & HV) Ht Htp Hv d Hd Hdup. destruct (Ht t Htp) as (x & Hx & Hh).
  destruct (view_typed i w t x d Hg Hi Hx Hh Hd) as [_ Hdc]. rewrite Hdc by done.
  subst V. by eapply encode_dom.
Qed.

Lemma txn_for_ok w tp : txn_for w tp -> txn_ok s tp.
Proof. intros Ht t Htp. destruct (Ht t Htp) as (x & Hx & _). by exists x. Qed.

(** ** Updates *)

(** No cursor of a write transaction [t] is open. *)
Definition no_cursor_in (t : nat) : Prop :=
  forall c cu, curs s !! c = Some cu -> cur_ro cu = true \/ cur_txn cu <> t.
End Typed.

(** What an update inside a transaction leaves as it is. *)
Definition only_data (s s' : lmdb) : Prop :=
  (forall t, txn_static <$> txns s !! t = txn_static <$> txns s' !! t) /\
  (forall t, no_cursor_in s t -> no_cursor_in s' t).

Lemma only_data_refl s : only_data s s.
Proof. by split. Qed.

Lemma updated_only_data s t x dbi d s' :
  txns s !! t = Some x -> txn_updated s t x dbi d s' -> only_data s s'.
Proof.
  intros Hx (_ & Et & Ec). split.
  - rewrite Et. by apply (static_insert _ _ _ x).
  - intros t' Hn c cu Hc. specialize (Ec c). rewrite Hc in Ec.
    destruct (curs s !! c) as [a|] eqn:Ha; [|done]. destruct Ec as (p & -> & _). by apply (Hn c a).
Qed.

Lemma writable_view s t dbi x d :
  writable s t dbi = Some (x, d) -> txns s !! t = Some x /\ txn_dbs x !! dbi = Some d /\ txn_ro x = false.
Proof.
  unfold writable. destruct (txns s !! t) as [y|]; cbn; [|done].
  destruct (txn_ro y) eqn:Hr; [done|]. destruct (txn_dbs y !! dbi) eqn:Hd; cbn; [|done].
  intros [= <- <-]. by rewrite Hd.
Qed.

Lemma wp_put U X L C g h s K V i w tp a b k v fl (Q : Z -> heap -> lmdb -> Prop) :
  inv X L C g h s -> open_db g h K V i w -> txn_for h s w tp ->
  kv_encode K a = Ok k -> kv_encode V b = Ok v ->
  (forall rc s', (forall X L C, inv X L C g h s -> inv X L C g h s') -> only_data s s' ->
     (rc = 0 -> is_Some tp) -> Q rc h s') ->
  wpm LMDB U (ffi (mdb_put tp (d_dbi w) k v fl)) h s Q.
Proof.
  intros HI Hw Ht Hk Hv HQ. wpm_step.
  - split; [by eapply txn_for_ok|]. intros t Htp.
    split; [by eapply key_fits|by eapply data_fits].
  - intros rc s' Ha. cbn in Ha. destruct (tp ≫= _) as [[t [x d]]|] eqn:E.
    + destruct tp as [t'|]; [|done]. cbn in E.
      destruct (writable s t' (d_dbi w)) as [[y e]|] eqn:Hwr; [|done]. cbn in E. simplify_eq.
      destruct (writable_view _ _ _ _ _ Hwr) as (Hx & Hd & Hro).
      destruct Ha as [[-> Hu]|[Hf ->]]; apply HQ; try done.
      * intros. by eapply inv_updated; [done|exact Hx|exact Hd| | | |exact Hu].
      * by eapply updated_only_data.
    + destruct Ha as [[Hf _] ->]. by apply HQ.
Qed.

Lemma db_after_del_same d k ov d' :
  db_after_del d k ov = Some d' -> db_kc d' = db_kc d /\ db_dup d' = db_dup d /\ db_dc d' = db_dc d.
Proof. unfold db_after_del. repeat case_match; intros; by simplify_eq. Qed.

Lemma wp_del U X L C g h s K V i w tp a b k v (Q : Z -> heap -> lmdb -> Prop) :
  inv X L C g h s -> open_db g h K V i w -> txn_for h s w tp ->
  kv_encode K a = Ok k -> kv_encode V b = Ok v ->
  (forall rc s', (forall X L C, inv X L C g h s -> inv X L C g h s') -> only_data s s' ->
     (rc = 0 -> is_Some tp) -> Q rc h s') ->
  wpm LMDB U (ffi (mdb_del tp (d_dbi w) k (Some v))) h s Q.
Proof.
  intros HI Hw Ht Hk Hv HQ. wpm_step.
  - split; [by eapply txn_for_ok|]. intros t Htp.
    split; [by eapply key_fits|]. intros v' [= <-]. by eapply data_fits.
  - intros rc s' Ha. cbn in Ha. destruct (tp ≫= _) as [[t [x d]]|] eqn:E.
    + destruct tp as [t'|]; [|done]. cbn in E.
      destruct (writable s t' (d_dbi w)) as [[y e]|] eqn:Hwr; [|done]. cbn in E. simplify_eq.
      destruct (writable_view _ _ _ _ _ Hwr) as (Hx & Hd & Hro).
      destruct Ha as [Ha|[Hf ->]]; [|by apply HQ].
      destruct (db_after_del d k (Some v)) as [d'|] eqn:Hdel; [|destruct Ha as [-> ->]; by apply HQ].
      destruct Ha as [-> Hu]. destruct (db_after_del_same _ _ _ _ Hdel) as (? & ? & ?). apply HQ; try done.
      * intros. by eapply inv_updated; [done|exact Hx|exact Hd| | | |exact Hu].
      * by eapply updated_only_data.
    + destruct Ha as [[Hf _] ->]. by apply HQ.
Qed.

(** ** Scopes *)
Lemma quiet_db g h s K V i w :
  quiet g h s -> open_db g h K V i w -> exists ew e ex,
    h_env h !! d_env w = Some ew /\ e_env ew = Some e /\ handle_of (h_env h) (d_env w) = Some e /\
    envs s !! e = Some ex /\ env_opened ex = true.
Proof.
  intros HI (Hg & Hi & _). destruct (db_alive _ _ _ _ _ (inv_dbs _ _ _ _ _ _ HI) i w Hg Hi) as (e & ex & Hh & Hx & Ho).
  pose proof Hh as Hh'. unfold handle_of in Hh. destruct (h_env h !! d_env w) as [ew|]; [|done].
  by exists ew, e, ex.
Qed.

Lemma fresh_no_cursor g h s t : quiet g h s -> txns s !! t = None -> no_cursor_in s t.
Proof.
  intros HI Ht c cu Hc. pose proof (cur_fresh _ _ _ _ _ _ _ (inv_curs _ _ _ _ _ _ HI) c cu Hc) as Hf.
  destruct (cur_stale cu); [by left|]. destruct Hf as (x & Hx & _). right. congruence.
Qed.

(** A transaction the scope began itself, or the one it was given. *)
Definition scope_inv (g : gset nat) (h : heap) (s : lmdb) (w : db) (tc : txn_scope) : Prop :=
  ts_readonly tc = false /\ txn_for h s w (ts_txn tc) /\
  if ts_created tc then
    match ts_txn tc with
    | Some t => inv ({[t]} ∪ ∅) ∅ ∅ g h s /\ no_cursor_in s t /\
        exists x, txns s !! t = Some x /\ txn_ro x = false
    | None => quiet g h s
    end
  else quiet g h s.

Lemma wp_scope_write U g h s K V i w ew a (Q : txn_scope -> heap -> lmdb -> Prop) :
  quiet g h s -> open_db g h K V i w -> h_env h !! d_env w = Some ew ->
  txn_arg h w a -> may_write h w a ->
  (forall tc s', scope_inv g h s' w tc -> ts_commit tc = false -> Q tc h s') ->
  wpm LMDB U (scope_write a (e_env ew)) h s Q.
Proof.
  intros HI Hw Hew Ha Hmw HQ. unfold scope_write. destruct a as [j|].
  - destruct (Ha j eq_refl) as (tw & Hj & Ht). unfold get_txn. wpm_step. wpm_step. wpm_step.
    apply HQ; [|done]. split_and!; [done| |done]. cbn. intros t Htw.
    destruct (quiet_txn_obj g h s j tw t HI Hj Htw) as (x & Hx & _ & He). exists x.
    split; [done|]. rewrite <- He. symmetry. by apply (Ht t).
  - destruct (quiet_db g h s K V i w HI Hw) as (ew' & e & ex & Hew' & He & Hh & Hx & Ho). simplify_eq.
    rewrite He. wpm_step. wpm_step.
    + split; [done|]. exists e, ex. split_and!; try done. intros _.
      apply (quiet_no_writer g h); [done|]. by apply Hmw.
    + intros r s' [(t & e' & ex' & -> & [= <-] & Hx' & Hf & _ & ->)|(Hr & Hs & ->)]; wpm_step.
      * simplify_eq. pose proof (inv_begin _ _ _ _ _ _ HI t e false ex Hf Hx Ho) as H1.
        apply HQ; [|done]. split_and!; [done| |].
        -- intros t' [= <-]. eexists. cbn. by rewrite lookup_insert_eq.
        -- cbn. split_and!; [done| |].
           ++ intros c cu Hc. by apply (fresh_no_cursor g h s t HI Hf c cu).
           ++ eexists. by rewrite lookup_insert_eq.
      * destruct r as [rc t]. cbn in Hs. subst t. by apply HQ.
Qed.

Lemma scope_only_data g h s s' w tc :
  scope_inv g h s w tc -> only_data s s' ->
  (forall X, inv X ∅ ∅ g h s -> inv X ∅ ∅ g h s') -> scope_inv g h s' w tc.
Proof.
  intros (Hro & Ht & Hi) [Hs Hn] HX. split_and!; [done| |].
  - intros t Htp. destruct (Ht t Htp) as (x & Hx & Hh).
    destruct (static_r _ _ _ _ _ Hs Hx) as (y & Hy & [= E _]). exists y. by rewrite E.
  - destruct (ts_created tc); [|by apply HX]. destruct (ts_txn tc) as [t|]; [|by apply HX].
    destruct Hi as (Hi & Hc & x & Hx & Hr). split_and!; [by apply HX|by apply Hn|].
    destruct (static_r _ _ _ _ _ Hs Hx) as (y & Hy & [= _ E]). exists y. by rewrite E.
Qed.

Lemma wp_scope_dtor U g h s w tc (Q : unit -> heap -> lmdb -> Prop) :
  scope_inv g h s w tc -> (forall s', quiet g h s' -> Q tt h s') ->
  wpm LMDB U (scope_dtor tc) h s Q.
Proof.
  intros (Hro & Ht & Hi) HQ. unfold scope_dtor. rewrite Hro.
  destruct (ts_created tc); wred; [|wpm_step; by apply HQ].
  assert (HE : forall t x, ts_txn tc = Some t -> inv ({[t]} ∪ ∅) ∅ ∅ g h s -> no_cursor_in s t ->
    txns s !! t = Some x -> txn_ro x = false -> quiet g h (end_txn t false s) /\
    forall ex, envs s !! txn_env x = Some ex ->
      quiet g h (upd_env (txn_env x) (MkEnv (env_opened ex) (txn_dbs x) (txn_names x)) (end_txn t false s))).
  { intros t x Htc HI Hn Hx Hr. rewrite <- Hr. split; [|intros ex Hex]; apply (settle t).
    - apply (inv_end _ _ _ _ _ _ HI t x); [set_solver|done|]. intros _. apply Hn.
    - pose proof (inv_publish _ _ _ _ _ _ HI t x ex Hx Hr Hex) as HP.
      apply (inv_end _ _ _ _ _ _ HP t x); [set_solver|done|]. intros _. apply Hn. }
  destruct (ts_txn tc) as [t|] eqn:Htc.
  - destruct Hi as (HI & Hn & x & Hx & Hr). destruct (HE t x eq_refl HI Hn Hx Hr) as [HE1 HE2].
    wpm_step.
    + wpm_step; [intros t' [= <-]; by exists x|]. intros [] s' (y & Hy & ->).
      assert (y = x) as -> by congruence. rewrite Hr. by apply HQ.
    + wpm_step. wpm_step; [intros t' [= <-]; by exists x|]. intros rc s' (y & Hy & Ha).
      assert (y = x) as -> by congruence. rewrite Hr in Ha. wpm_step. apply HQ.
      destruct Ha as [[_ (ex & Hex & ->)]|[_ ->]]; [by apply HE2|done].
  - wpm_step.
    + wpm_step; [done|]. intros [] s' ->. by apply HQ.
    + wpm_step. wpm_step; [done|]. intros rc s' [_ ->]. wpm_step. by apply HQ.
Qed.

Lemma scope_inv_some g h s w tc : scope_inv g h s w tc -> exists X, inv X ∅ ∅ g h s.
Proof.
  intros (_ & _ & Hs). destruct (ts_created tc); [|by exists ∅].
  destruct (ts_txn tc) as [t|]; [|by exists ∅]. destruct Hs as [? _]. by eexists.
Qed.

Lemma safe_db_put K V i a0 a1 a2 : safe_op (DbPut K V i a0 a1 a2).
Proof.
  intros g h s HI (w & Hw & [k Hk] & [v Hv] & Ha & Hm). unfold exec_op, db_put, get_kvdb.
  pose proof (open_db_unwrap _ _ _ _ _ _ Hw) as Hu.
  destruct (quiet_db g h s K V i w HI Hw) as (ew & e & ex & Hew & _).
  wstep. wstep. wstep. wstep. wstep. wstep. wstep. wstep. wstep.
  eapply wp_scope_write; try done. intros tc s1 Hs1 _. pose proof Hs1 as (_ & Ht & _).
  wstep. destruct (scope_inv_some _ _ _ _ _ Hs1) as [X HX]. eapply wp_put; try done.
  intros rc s2 Hc Ho _. pose proof (scope_only_data _ _ _ _ _ _ Hs1 Ho ltac:(auto)) as Hs2.
  wstep; wstep; (eapply wp_scope_dtor; [done|]); intros s3 H3; by wstep.
Qed.

Lemma safe_db_del K V i a0 a1 a2 : safe_op (DbDel K V i a0 a1 a2).
Proof.
  intros g h s HI (w & Hw & [k Hk] & [v Hv] & Ha & Hm). unfold exec_op, db_del, get_kvdb.
  pose proof (open_db_unwrap _ _ _ _ _ _ Hw) as Hu.
  destruct (quiet_db g h s K V i w HI Hw) as (ew & e & ex & Hew & _).
  wstep. wstep. wstep. wstep. wstep. wstep. wstep. wstep. wstep.
  eapply wp_scope_write; try done. intros tc s1 Hs1 _. pose proof Hs1 as (_ & Ht & _).
  wstep. destruct (scope_inv_some _ _ _ _ _ Hs1) as [X HX]. eapply wp_del; try done.
  intros rc s2 Hc Ho _. pose proof (scope_only_data _ _ _ _ _ _ Hs1 Ho ltac:(auto)) as Hs2.
  wstep; [|wstep]; wstep; (eapply wp_scope_dtor; [done|]); intros s3 H3; by wstep.
Qed.

(** ** Reads *)

(** The objects but the read locks are as before. *)
Definition same_objects (h h' : heap) : Prop :=
  h_txn h' = h_txn h /\ h_db h' = h_db h /\ h_cur h' = h_cur h /\ h_sync h' = h_sync h /\
  same_handles (h_env h) (h_env h').

(** A read-only scope: the read lock, in use at most until the scope ends, or
    the transaction it was given; [P] holds of what it sees. *)
Definition read_scope (P : gmap nat db_st -> Prop) (g : gset nat) (h : heap) (s : lmdb) (w : db)
    (tc : txn_scope) (L : gset nat) : Prop :=
  ts_readonly tc = true /\ ts_env tc = Some (d_env w) /\ txn_for h s w (ts_txn tc) /\
  (forall t x, ts_txn tc = Some t -> txns s !! t = Some x -> txn_live x = true -> P (txn_dbs x)) /\
  inv ∅ L ∅ g h s /\
  if ts_created tc then
    lock_of (h_env h) (d_env w) = ts_txn tc /\
    (forall t, t ∈ L -> ts_txn tc = Some t /\ exists x, txns s !! t = Some x /\ txn_live x = true)
  else L = ∅.

Definition sees (P : gmap nat db_st -> Prop) (h : heap) (s : lmdb) (w : db) (a : option nat) : Prop :=
  match a with
  | None => forall e ex, handle_of (h_env h) (d_env w) = Some e -> envs s !! e = Some ex -> P (env_dbs ex)
  | Some i => forall tw t x, h_txn h !! i = Some tw -> t_txn tw = Some t -> txns s !! t = Some x ->
      P (txn_dbs x)
  end.

(** Reads are proved for every engine that answers within LMDB's contract, so
    that they can be used with the stronger one. *)
Section Reads.
Context (an : forall X, lmdb -> mdb_call X -> X -> lmdb -> Prop).
Hypothesis Han : forall X s c x s', an X s c x s' -> mdb_answers X s c x s'.
Let S := Api lmdb mdb_allowed an.

(** A lock that is not in use yet is renewed, or begun and kept. *)
Lemma wp_require_readlock U P g h s K V i w (Q : ptr -> heap -> lmdb -> Prop) :
  quiet g h s -> open_db g h K V i w -> sees P h s w None ->
  (forall tp L h' s', same_objects h h' -> curs s' = curs s -> envs s' = envs s ->
     read_scope P g h' s' w (TxnScope (Some (d_env w)) tp true true false) L ->
     (forall t, tp = Some t -> t ∈ L \/ exists rc, rc <> 0 /\ an Z s (mdb_txn_renew (Some t)) rc s') ->
     Q tp h' s') ->
  wpm S U (require_readlock (d_env w)) h s Q.
Proof.
  intros HI Hw HP HQ. destruct (quiet_db g h s K V i w HI Hw) as (ew & e & ex & Hew & He & Hh & Hx & Ho).
  unfold require_readlock. wstep. wstep. destruct (e_read_lock ew) as [t|] eqn:Hl.
  - assert (lock_of (h_env h) (d_env w) = Some t) as Hlo by (unfold lock_of; by rewrite Hew).
    destruct (lock_alive _ _ _ _ _ _ (inv_txns _ _ _ _ _ _ HI) _ t Hlo) as (x & Ht & Hhx & Hr & Hlive).
    specialize (Hlive ltac:(set_solver)). assert (txn_env x = e) as Hxe by congruence.
    wstep. wstep; [intros t' [= <-]; by exists x|]. intros rc s' Hans. pose proof (Han _ _ _ _ _ Hans) as (y & Hy & Ha).
    assert (y = x) as -> by congruence. rewrite Hr, Hlive in Ha. cbn in Ha. wstep.
    destruct Ha as [(_ & _ & ex' & Hex' & ->)|[Hrc ->]].
    + assert (ex' = ex) as -> by congruence.
      apply (HQ _ ({[t]} ∪ ∅)); [by split_and!|done|done| |intros; left; set_solver].
      split_and!; try done; cbn.
      * intros t' [= <-]. eexists. cbn. by rewrite lookup_insert_eq.
      * intros t' y' [= <-]. rewrite lookup_insert_eq. intros [= <-] _. by apply (HP e).
      * apply (inv_renew _ _ _ _ _ _ HI); try done; set_solver.
      * split; [done|]. intros t' [->%elem_of_singleton|?]%elem_of_union; [|set_solver].
        split; [done|]. eexists. by rewrite lookup_insert_eq.
    + apply (HQ _ ∅); [by split_and!|done|done| |intros t' [= <-]; right; by exists rc].
      split_and!; try done; cbn.
      * intros t' [= <-]. by exists x.
      * intros t' y' [= <-]. congruence.
  - rewrite He. wstep. wstep; [split; [done|]; exists e, ex; by split_and!|].
    intros r s' Hans. apply Han in Hans.
    destruct Hans as [(t & e' & ex' & -> & [= <-] & Hx' & Hf & _ & ->)|(Hr & Hs & ->)]; wred.
    + assert (ex' = ex) as -> by congruence. wstep. wstep. wstep.
      pose proof (inv_begin _ _ _ _ _ _ HI t e true ex Hf Hx Ho) as H1.
      pose proof (same_handles_insert (h_env h) _ _ (set_read_lock (Some t) ew) Hew eq_refl) as Hsh.
      apply (HQ _ ({[t]} ∪ ∅)); [by split_and!|done|done| |intros t' [= <-]; left; set_solver].
      split_and!; try done; cbn.
      * intros t' [= <-]. eexists. cbn. rewrite lookup_insert_eq, <- Hsh. done.
      * intros t' y' [= <-]. rewrite lookup_insert_eq. intros [= <-] _. by apply (HP e).
      * apply (settle t). eapply (inv_adopt_lock _ _ _ _ _ _ H1); try done;
          [set_solver|cbn; by rewrite lookup_insert_eq|done|done].
      * rewrite lock_of_insert, decide_True by done. split; [done|].
        intros t' [->%elem_of_singleton|?]%elem_of_union; [|set_solver].
        split; [done|]. eexists. by rewrite lookup_insert_eq.
    + destruct r as [rc t]. cbn in Hs. subst t. wred. wstep. apply (HQ _ ∅); [by split_and!|done|done| |done].
      split_and!; try done. cbn. split; [|set_solver]. unfold lock_of. by rewrite Hew.
Qed.

Lemma wp_scope_read U P g h s K V i w a (Q : txn_scope -> heap -> lmdb -> Prop) :
  quiet g h s -> open_db g h K V i w -> txn_arg h w a -> sees P h s w a ->
  (forall tc L h' s', same_objects h h' -> curs s' = curs s -> envs s' = envs s ->
     read_scope P g h' s' w tc L -> ts_created tc = (if a is Some _ then false else true) ->
     (forall t, ts_created tc = true -> ts_txn tc = Some t ->
        t ∈ L \/ exists rc, rc <> 0 /\ an Z s (mdb_txn_renew (Some t)) rc s') ->
     Q tc h' s') ->
  wpm S U (scope_read a (d_env w)) h s Q.
Proof.
  intros HI Hw Ha HP HQ. unfold scope_read. destruct a as [j|].
  - destruct (Ha j eq_refl) as (tw & Hj & Ht). wstep. wstep. wstep.
    apply (HQ _ ∅); [by split_and!|done|done| |done|done]. split_and!; try done; cbn.
    + intros t Htw. destruct (quiet_txn_obj g h s j tw t HI Hj Htw) as (x & Hx & _ & He). exists x.
      split; [done|]. rewrite <- He. symmetry. by apply (Ht t).
    + intros t x Htw Hx _. by apply (HP tw t x).
  - wstep. eapply wp_require_readlock; try done. intros tp L h' s' H1 H2 H3 H4 H5. wstep.
    apply (HQ _ L); try done. intros t _. apply H5.
Qed.

Lemma wp_read_dtor U P g h s w tc L (Q : unit -> heap -> lmdb -> Prop) :
  read_scope P g h s w tc L -> is_Some (h_env h !! d_env w) ->
  (forall s', quiet g h s' -> envs s' = envs s -> Q tt h s') ->
  wpm S U (scope_dtor tc) h s Q.
Proof.
  intros (Hro & He & Ht & _ & HI & Hc) [ew Hew] HQ. unfold scope_dtor. rewrite Hro.
  destruct (ts_created tc); wred; [|wstep; subst L; by apply HQ].
  destruct Hc as [Hl HL]. wstep. rewrite He. eapply wpm_pure; [done|].
  unfold release_readlock. wstep. wstep.
  assert (e_read_lock ew = ts_txn tc) as Hlk by (unfold lock_of in Hl; by rewrite Hew in Hl).
  wstep.
  - intros t Htp. destruct (Ht t) as (x & Hx & _); [congruence|]. by exists x.
  - intros [] s' Ha%Han. cbn in Ha. rewrite Hlk in Ha. destruct (ts_txn tc) as [t|] eqn:Htp.
    + destruct Ha as (x & Hx & ->).
      destruct (lock_alive _ _ _ _ _ _ (inv_txns _ _ _ _ _ _ HI) _ t Hl) as (y & Hy & _ & Hr & _).
      assert (y = x) as -> by congruence. rewrite Hr. apply HQ; [|done].
      pose proof (inv_reset _ _ _ _ _ _ HI t x Hx Hr) as H1.
      replace (L ∖ {[t]}) with (∅ : gset nat) in H1; [done|].
      apply set_eq. intros t'. split; [set_solver|]. intros [Ht' Hne]%elem_of_difference.
      apply HL in Ht' as [? _]. set_solver.
    + subst s'. apply HQ; [|done]. replace L with (∅ : gset nat) in HI; [done|].
      apply set_eq. intros t. split; [set_solver|]. by intros [? _]%HL.
Qed.
End Reads.

Lemma same_objects_db g h h' K V i w :
  same_objects h h' -> open_db g h K V i w -> open_db g h' K V i w.
Proof. intros (_ & Hd & _) Ho. unfold open_db. by rewrite Hd. Qed.

Lemma open_db_env X L C g h s K V i w :
  inv X L C g h s -> open_db g h K V i w -> is_Some (h_env h !! d_env w).
Proof.
  intros HI (Hg & Hi & _). destruct (db_alive _ _ _ _ _ (inv_dbs _ _ _ _ _ _ HI) i w Hg Hi) as (e & ex & Hh & _).
  unfold handle_of in Hh. by destruct (h_env h !! d_env w).
Qed.

(** What a successful [mdb_get] gives was in the view of the transaction. *)
Lemma get_in_view (P : gmap nat db_st -> Prop) s tp dbi k rc v s' :
  (forall t x, tp = Some t -> txns s !! t = Some x -> txn_live x = true -> P (txn_dbs x)) ->
  mdb_answers _ s (mdb_get tp dbi k) (rc, v) s' -> rc = 0 ->
  exists m d k', P m /\ m !! dbi = Some d /\ (k', v) ∈ db_data d.
Proof.
  intros HP [-> Ha] ->. destruct tp as [t|]; cbn in Ha; [|done]. unfold txn_db in Ha.
  destruct (txns s !! t) as [x|] eqn:Hx; cbn in Ha; [|done].
  destruct (txn_live x) eqn:Hl; [|done]. destruct (txn_dbs x !! dbi) as [d|] eqn:Hd; [|done].
  exists (txn_dbs x), d. destruct (s_get (db_kc d) k (db_data d)) as [v'|] eqn:Hg.
  - destruct Ha as [[= <-]|[Hf _]]; [|done]. destruct (s_get_in _ _ _ _ Hg) as [k' Hk'].
    exists k'. split_and!; [by apply (HP t)|done|done].
  - destruct Ha as [?|[Hf _]]; done.
Qed.

Lemma wp_get U P g h s K V i w tp L a k (Q : Z * bytes -> heap -> lmdb -> Prop) :
  inv ∅ L ∅ g h s -> open_db g h K V i w -> txn_for h s w tp -> kv_encode K a = Ok k ->
  (forall t x, tp = Some t -> txns s !! t = Some x -> txn_live x = true -> P (txn_dbs x)) ->
  (forall rc v, (rc = 0 -> exists m d k', P m /\ m !! d_dbi w = Some d /\ (k', v) ∈ db_data d) ->
     Q (rc, v) h s) ->
  wpm LMDB U (ffi (mdb_get tp (d_dbi w) k)) h s Q.
Proof.
  intros HI Hw Ht Hk HP HQ. wpm_step.
  - split; [by eapply txn_for_ok|]. intros t Htp. by eapply key_fits.
  - intros [rc v] s' Ha. assert (s' = s) as -> by apply Ha. apply HQ. by eapply get_in_view.
Qed.

Lemma safe_db_get K V i a0 a1 : safe_op (DbGet K V i a0 a1).
Proof.
  intros g h s HI (w & Hw & [k Hk] & Ha & Hr). unfold exec_op, db_get, get_kvdb.
  pose proof (open_db_unwrap _ _ _ _ _ _ Hw) as Hu.
  wstep. wstep. wstep. wstep. wstep.
  eapply (wp_scope_read mdb_answers ltac:(auto) _ (values_ok w)); try done.
  intros tc L h' s1 Hso _ _ Hs1 _ _. pose proof (same_objects_db _ _ _ _ _ _ _ Hso Hw) as Hw'.
  pose proof Hs1 as (_ & _ & Ht & HP & HI' & _). pose proof (open_db_env _ _ _ _ _ _ _ _ _ _ HI' Hw').
  assert (HD : forall j, wpm LMDB (tolerated (DbGet K V i a0 a1)) (scope_dtor tc ;; mret j) h' s1
                 (ok_after g (DbGet K V i a0 a1))).
  { intros j. wstep. by eapply (wp_read_dtor mdb_answers ltac:(auto)). }
  wstep. eapply wp_get; try done. intros rc v Hv. wstep. wstep; [by wstep|]. wstep; [by wstep|].
  destruct Hv as (m & d & k' & Hm & Hd & Hin); [by apply Z.eqb_eq, negb_false_iff|].
  destruct (Hm d k' v Hd Hin) as [_ [b Hb]]. destruct Hw as (_ & _ & _ & HV). rewrite HV in Hb.
  wstep. wstep. by wstep.
Qed.

(** ** Cursor calls *)
Definition carries (g : gset nat) (h : heap) (s s' : lmdb) : Prop :=
  forall X L C, inv X L C g h s -> inv X L C g h s'.

(** Only the cursor's position may change. *)
Definition cur_moved (c : ptr) (s s' : lmdb) : Prop :=
  s' = s \/ exists c' cu p, c = Some c' /\ curs s !! c' = Some cu /\ s' = upd_cur c' (set_pos p cu) s.

Lemma cur_moved_carries g h c s s' : cur_moved c s s' -> carries g h s s'.
Proof.
  intros [->|(c' & cu & p & _ & Hc & ->)] X L C HI; [done|]. by apply (inv_set_pos _ _ _ _ _ _ HI).
Qed.

Lemma cursor_get_moved s c k v o r s' :
  mdb_answers _ s (mdb_cursor_get c k v o) r s' -> cur_moved c s s'.
Proof.
  destruct c as [c|]; cbn; [|intros [_ ->]; by left].
  intros (cu & Hc & [(d & Hd & Ha)|[_ ->]]); [|by left]. right. exists c, cu.
  destruct (cur_move d (cur_pos cu) o k v).
  - destruct Ha as (_ & p & -> & _). by exists p.
  - destruct Ha as (p & _ & _ & ->). by eexists.
Qed.

Lemma wp_cursor_get U an c k v o h s (Q : Z * (bytes * bytes) -> heap -> lmdb -> Prop) :
  (forall X s c x s', an X s c x s' -> mdb_answers X s c x s') ->
  mdb_allowed _ s (mdb_cursor_get c k v o) ->
  (forall r s', cur_moved c s s' -> Q r h s') ->
  wpm (Api lmdb mdb_allowed an) U (ffi (mdb_cursor_get c k v o)) h s Q.
Proof.
  intros Han Ha HQ. wpm_step; [done|]. intros r s' Hr. eapply HQ, cursor_get_moved, Han, Hr.
Qed.

Definition encodes_to (T : kv_type) (bs : bytes) : Prop := exists a, kv_encode T a = Ok bs.

(** A cursor on the database [w] may look for keys and data of its types. *)
Lemma cursor_get_allowed X L C g h s K V i w c cu x k v o :
  inv X L C g h s -> open_db g h K V i w -> curs s !! c = Some cu -> cur_stale cu = false ->
  txns s !! cur_txn cu = Some x -> txn_live x = true -> cur_dbi cu = d_dbi w ->
  handle_of (h_env h) (d_env w) = Some (txn_env x) ->
  (op_uses_key o = true -> encodes_to K k) -> (op_uses_data o = true -> encodes_to V v) ->
  mdb_allowed _ s (mdb_cursor_get (Some c) k v o).
Proof.
  intros HI Hw Hc Hs Hx Hl Hd Hh Hk Hv c' [= <-]. exists cu, x.
  assert (txn_for h s w (Some (cur_txn cu))) as Ht by (intros t [= <-]; by exists x).
  rewrite Hd. split_and!; try done; intros Ho.
  - destruct (Hk Ho) as [a Ha]. by eapply key_fits.
  - destruct (Hv Ho) as [b Hb]. by eapply data_fits.
Qed.

(** Opening a cursor: no object has it yet. *)
Lemma wp_cursor_open U an X L C g h s w tp (Q : Z * ptr -> heap -> lmdb -> Prop) :
  (forall X s c x s', an X s c x s' -> mdb_answers X s c x s') ->
  inv X L C g h s -> txn_for h s w tp ->
  (forall r, fst r <> 0 -> snd r = None -> Q r h s) ->
  (forall t x c, tp = Some t -> txns s !! t = Some x -> txn_live x = true -> curs s !! c = None ->
     inv X L ({[c]} ∪ C) g h (upd_cur c (MkCur (txn_env x) t (txn_ro x) false (d_dbi w) None) s) ->
     Q (0, Some c) h (upd_cur c (MkCur (txn_env x) t (txn_ro x) false (d_dbi w) None) s)) ->
  wpm (Api lmdb mdb_allowed an) U (ffi (mdb_cursor_open tp (d_dbi w))) h s Q.
Proof.
  intros Han HI Ht HQ0 HQ. wpm_step; [by eapply txn_for_ok|]. intros r s' Ha%Han.
  destruct Ha as [(t & x & c & -> & Hx & [d Hd] & -> & Hc & ->)|(Hf & Hn & ->)]; [|by apply HQ0; [apply Hf|]].
  assert (txn_live x = true) as Hl.
  { unfold txn_db in Hd. rewrite Hx in Hd. cbn in Hd. by destruct (txn_live x). }
  apply HQ; try done. by apply (inv_cur_open _ _ _ _ _ _ HI).
Qed.

Lemma settle_cur c X L g h s : inv X L (({[c]} ∪ ∅) ∖ {[c]}) g h s -> inv X L ∅ g h s.
Proof. by replace (({[c]} ∪ ∅) ∖ {[c]}) with (∅ : gset nat) by set_solver. Qed.

Definition safe_steady (o : op) : Prop :=
  forall g h s, quiet g h s -> disc g h s o -> wpm LMDB_steady (tolerated o) (exec_op o) h s (ok_after g o).

Lemma safe_op_steady o : safe_op o -> safe_steady o.
Proof.
  intros Ho g h s HI HD. apply (wpu_stronger mdb_allowed mdb_answers); [by intros ????? [??]|].
  exact (Ho g h s HI HD).
Qed.

(** ** exists *)
Lemma read_scope_keep P g h s h' s' w tc L :
  read_scope P g h s w tc L -> txns s' = txns s -> h_env h' = h_env h -> inv ∅ L ∅ g h' s' ->
  read_scope P g h' s' w tc L.
Proof.
  intros (H1 & H2 & H3 & H4 & _ & H5) Ht He HI. unfold read_scope, txn_for. by rewrite Ht, He.
Qed.

Lemma cur_moved_txns c s s' : cur_moved c s s' -> txns s' = txns s.
Proof. by intros [->|(c' & cu & p & _ & _ & ->)]. Qed.

Lemma cur_moved_some c s s' c' : cur_moved c s s' -> is_Some (curs s !! c') -> is_Some (curs s' !! c').
Proof.
  intros [->|(c2 & cu & p & _ & Hc & ->)] Hs; [done|]. cbn. rewrite lookup_insert_is_Some.
  destruct (decide (c2 = c')); [by left|by right].
Qed.

Lemma open_db_set_cur g h K V i w c :
  open_db g h K V i w -> open_db g (up_db <[i := set_cur c w]> h) K V i (set_cur c w).
Proof. intros (Hg & Hi & HK & HV). unfold open_db. cbn. by rewrite lookup_insert_eq. Qed.

Lemma live_view P g h s w tc L t :
  read_scope P g h s w tc L -> ts_created tc = true -> t ∈ L -> exists x, ts_txn tc = Some t /\
    txns s !! t = Some x /\ txn_live x = true /\ txn_ro x = true /\ P (txn_dbs x) /\
    handle_of (h_env h) (d_env w) = Some (txn_env x).
Proof.
  intros (H1 & H2 & H3 & H4 & HI & H5) Hc Ht. rewrite Hc in H5. destruct H5 as [Hl HL].
  destruct (HL t Ht) as (Htp & x & Hx & Hlive). exists x. destruct (H3 t Htp) as (y & Hy & Hh).
  rewrite Htp in Hl. destruct (lock_alive _ _ _ _ _ _ (inv_txns _ _ _ _ _ _ HI) _ t Hl) as (z & Hz & _ & Hr & _).
  simplify_eq. split_and!; try done. by apply (H4 t).
Qed.

(** The database's own cursor, opened or renewed on the read lock in use. *)
Lemma wp_own_cursor U g h s K V i w tc L a b k v o (Q : ptr -> heap -> lmdb -> Prop) :
  read_scope (view_has true w) g h s w tc L -> ts_created tc = true -> open_db g h K V i w ->
  (forall t, ts_txn tc = Some t -> t ∈ L) -> kv_encode K a = Ok k -> kv_encode V b = Ok v ->
  (forall cp h' s', read_scope (view_has true w) g h' s' w tc L -> is_Some (h_env h' !! d_env w) ->
     mdb_allowed _ s' (mdb_cursor_get cp k v o) -> Q cp h' s') ->
  wpm LMDB_steady U (exists_cursor i w tc) h s Q.
Proof.
  intros HS Hc Hw HL Hk Hv HQ. unfold exists_cursor. rewrite Hc.
  pose proof HS as (_ & _ & Ht & _ & HI & _). pose proof (open_db_env _ _ _ _ _ _ _ _ _ _ HI Hw) as Henv.
  destruct (d_cur w) as [c|] eqn:Hcur.
  - destruct Hw as (Hg & Hi & HK & HV).
    destruct (db_cur_alive _ _ _ _ _ _ _ (inv_curs _ _ _ _ _ _ HI) i w c Hi Hcur)
      as (_ & cu & Hcu & Hro & Hdbi & Hh & [t Hlk]).
    pose proof HS as (_ & _ & _ & _ & _ & Hl). rewrite Hc in Hl. destruct Hl as [Hl _].
    assert (ts_txn tc = Some t) as Htp by congruence.
    destruct (live_view _ _ _ _ _ _ _ t HS Hc (HL t Htp)) as (x & _ & Hx & Hlive & Hxr & HP & Hhx).
    wstep. wstep; [split; [by eapply txn_for_ok|intros c' [= <-]; by exists cu]|].
    assert (is_Some (txn_db s t (cur_dbi cu))) as Hdb.
    { unfold txn_db. rewrite Hx. cbn. rewrite Hlive, Hdbi. unfold view_has in HP.
      by destruct (txn_dbs x !! d_dbi w). }
    intros rc s' [Ha Hren]. specialize (Hren t x c cu Htp eq_refl Hx Hcu Hxr Hro Hdb). subst rc.
    destruct Ha as [(th & y & ch & cu' & Eth & [= <-] & Hy & Hcu' & _ & _ & _ & _ & ->)|[[Hf _] _]]; [|done].
    assert (th = t /\ y = x /\ cu' = cu) as (-> & -> & ->) by (split_and!; congruence).
    assert (inv ∅ L ∅ g h (upd_cur c (MkCur (txn_env x) t true false (cur_dbi cu) None) s)) as HI'.
    { apply (inv_cur_change _ _ _ _ _ _ HI c cu); [done| |].
      - unfold cur_static. cbn. rewrite Hro. f_equal. f_equal. congruence.
      - unfold cur_fine. cbn. by exists x. }
    wstep. apply HQ; [by eapply read_scope_keep|done|].
    apply (cursor_get_allowed _ _ _ _ _ _ K V i w c (MkCur (txn_env x) t true false (cur_dbi cu) None)
             x _ _ _ HI'); try done; [|by exists a|by exists b]. cbn. by rewrite lookup_insert_eq.
  - wstep. eapply wp_cursor_open; [by intros ????? [??]|done|done| |].
    + intros [rc cp] _ Hn. cbn in Hn. subst cp. wred. wstep. wstep. wstep. apply HQ; try done.
      assert (up_db <[i := set_cur None w]> h = h) as ->; [|done].
      destruct Hw as (Hg & Hi & HK & HV). destruct h as [m1 m2 m3 m4 m5], w. cbn in *. subst.
      unfold up_db. cbn. f_equal. by apply insert_id.
    + intros t x c Htp Hx _ Hcn HI1. wred. wstep. wstep. wstep.
      destruct (live_view _ _ _ _ _ _ _ t HS Hc (HL t Htp)) as (y & _ & Hy & Hlive & Hxr & HP & Hhx).
      assert (y = x) as -> by congruence.
      pose proof HS as (_ & _ & _ & _ & _ & Hl). rewrite Hc in Hl. destruct Hl as [Hl _].
      assert (HI2 : inv ∅ L ∅ g (up_db <[i := set_cur (Some c) w]> h)
                (upd_cur c (MkCur (txn_env x) t (txn_ro x) false (d_dbi w) None) s)).
      { apply (settle_cur c). destruct Hw as (Hg & Hi & _).
        eapply (inv_adopt_dbcur _ _ _ _ _ _ HI1 i w c); try done; [set_solver|..].
        - cbn. by rewrite lookup_insert_eq.
        - done.
        - done.
        - done.
        - rewrite Hl, Htp. done. }
      apply HQ; [by eapply read_scope_keep|done|].
      apply (cursor_get_allowed _ _ _ _ _ _ K V i (set_cur (Some c) w) c
               (MkCur (txn_env x) t (txn_ro x) false (d_dbi w) None) x _ _ _ HI2); try done.
      * by apply open_db_set_cur.
      * cbn. by rewrite lookup_insert_eq.
      * by exists a.
      * by exists b.
Qed.

(** A lock that could not be renewed means another reader is active. *)
Lemma lock_in_use P g h s h' s1 w tc L t rc :
  quiet g h s -> same_objects h h' -> read_scope P g h' s1 w tc L -> ts_created tc = true ->
  ts_txn tc = Some t -> rc <> 0 -> answers LMDB_steady s (mdb_txn_renew (Some t)) rc s1 ->
  (forall e, handle_of (h_env h) (d_env w) = Some e -> no_read_txn h s e) -> False.
Proof.
  intros HI (Htx & _ & _ & _ & Hsh) (_ & _ & Ht & _ & HI' & Hl) Hc Htp Hrc [(x & Hx & Ha) Hren] Hn.
  rewrite Hc in Hl. destruct Hl as [Hl _]. rewrite Htp in Hl.
  assert (s1 = s) as ->.
  { destruct (txn_ro x && negb (txn_live x)); [|by destruct Ha].
    destruct Ha as [[-> _]|[_ ->]]; done. }
  destruct (Ht t Htp) as (y & Hy & Hh). assert (y = x) as -> by congruence.
  rewrite <- Hsh in Hh.
  destruct (quiet_txn g h s HI t x Hx) as [(i & _ & _ & Hr & Hlive)|(j & tw & Hj & Htw & _)].
  - apply Hrc, (Hren t x); try done.
    + destruct (txn_env_open _ _ _ _ _ _ (inv_txns _ _ _ _ _ _ HI) t x Hx) as [(z & Hz & _) _]. by exists z.
    + apply (quiet_no_reader g h s HI), Hn, Hh.
  - pose proof (txn_own_inj _ _ _ _ _ _ (inv_txns _ _ _ _ _ _ HI') t (inl (d_env w)) (inr j)) as Ho.
    cbn in Ho. rewrite Htx, Hj in Ho. by specialize (Ho Hl Htw).
Qed.

Lemma safe_db_exists K V i a0 a1 a2 : safe_steady (DbExists K V i a0 a1 a2).
Proof.
  intros g h s HI (w & Hw & [k Hk] & [v Hv] & Ha & Hn). unfold exec_op, db_exists, get_kvdb.
  pose proof (open_db_unwrap _ _ _ _ _ _ Hw) as Hu.
  wstep. wstep. wstep. wstep. wstep. wstep. wstep.
  assert (Han : forall X s c x s', answers LMDB_steady (X := X) s c x s' -> mdb_answers X s c x s')
    by (by intros ????? [??]).
  set (P := fun m => match a2 with None => view_has true w m | Some _ => True end).
  eapply (wp_scope_read _ Han _ P); try done.
  { unfold P, sees. destruct a2; [done|]. intros e ex Hh Hx. destruct Hw as (Hg & Hi & _).
    by eapply (db_env_view _ _ _ _ _ (inv_dbs _ _ _ _ _ _ HI)). }
  intros tc L h' s1 Hso Hcs Hes Hs1 Hcr HL. pose proof (same_objects_db _ _ _ _ _ _ _ Hso Hw) as Hw'.
  assert (HD : forall h2 s2 j, read_scope P g h2 s2 w tc L -> is_Some (h_env h2 !! d_env w) ->
    wpm LMDB_steady (tolerated (DbExists K V i a0 a1 a2)) (scope_dtor tc ;; mret j) h2 s2
      (ok_after g (DbExists K V i a0 a1 a2))).
  { intros h2 s2 j H2 H3. wstep. by eapply (wp_read_dtor _ Han). }
  pose proof Hs1 as (_ & _ & Ht & _ & HI1 & _).
  pose proof (open_db_env _ _ _ _ _ _ _ _ _ _ HI1 Hw') as Henv.
  wstep. destruct a2 as [ti|].
  - pose proof Hs1 as (_ & _ & _ & _ & _ & HL0). rewrite Hcr in HL0. subst L.
    unfold exists_cursor. rewrite Hcr. wstep. eapply (wp_cursor_open _ _ _ _ _ _ _ _ w); [exact Han|done|done| |].
    + intros [rc cp] _ Hnone. cbn in Hnone. subst cp. wred. wstep. wstep.
      eapply wp_cursor_get; [exact Han|done|]. intros r s2 [->|(? & ? & ? & ? & _)]; [|done].
      wstep. wstep; [done|]. intros [] s3 Hs3%Han. cbn in Hs3. subst s3.
      wstep. wstep; [wstep; by apply HD|]. wstep; wstep; by apply HD.
    + intros t x c Htp Hx Hlive Hcn HI2. wred. wstep. wstep. destruct (Ht t Htp) as (y & Hy & Hh).
      assert (y = x) as -> by congruence.
      eapply wp_cursor_get; [exact Han| |].
      { apply (cursor_get_allowed _ _ _ _ _ _ K V i w c
                 (MkCur (txn_env x) t (txn_ro x) false (d_dbi w) None) x _ _ _ HI2); try done;
          [|by exists a0|by exists a1]. cbn. by rewrite lookup_insert_eq. }
      intros r s3 Hm. pose proof (cur_moved_carries g h' _ _ _ Hm _ _ _ HI2) as HI3.
      wstep. wstep.
      { intros c' [= <-]. eapply cur_moved_some; [done|]. cbn. by rewrite lookup_insert_eq. }
      intros [] s4 Hs4%Han. cbn in Hs4. subst s4.
      assert (read_scope P g h' (del_cur c s3) w tc ∅) as Hs4.
      { eapply read_scope_keep; [exact Hs1|exact (cur_moved_txns _ _ _ Hm)|done|].
        apply (settle_cur c), (inv_cur_close _ _ _ _ _ _ HI3). set_solver. }
      wstep. wstep; [wstep; by apply HD|]. wstep; wstep; by apply HD.
  - assert (HLive : forall t, ts_txn tc = Some t -> t ∈ L).
    { intros t Htp. destruct (HL t Hcr Htp) as [|(rc & Hrc & Hren)]; [done|]. exfalso.
      eapply (lock_in_use P); try done. by apply Hn. }
    eapply wp_own_cursor; try done. intros cp h2 s2 Hs2 Henv2 Hall.
    wstep. eapply wp_cursor_get; [exact Han|done|]. intros r s3 Hm. rewrite Hcr. wred.
    pose proof Hs2 as (_ & _ & _ & _ & HI2 & _).
    assert (read_scope P g h2 s3 w tc L) as Hs3.
    { eapply read_scope_keep; [done|by eapply cur_moved_txns|done|by eapply cur_moved_carries]. }
    wstep. wstep. wstep. wstep; [wstep; by apply HD|]. wstep; wstep; by apply HD.
Qed.
End SafetyDb.
