(* ===== verification/LmdbSafetyRun.v ===== *)
(** * Safety of whole runs of the LMDB binding

    The constructor and the end of life of databases, the methods of cursors,
    and the theorems on every sequence of calls. *)
From S2P Require Import Prelude Nan KvTypes Prog Store LmdbApi LmdbEngine LmdbObjects LmdbEnv.
From S2P Require Import LmdbTxn LmdbDb LmdbCursor LmdbInv LmdbSystem LmdbSafety LmdbSafetyDb.

Section SafetyRun.
Context `{V8} `{Libc}.

(** ** Opening a database *)
Section Ctor.
Context (e : nat) (ex : env_st) (t d : nat) (name : bytes) (s : lmdb).

(** The transaction of the constructor, once the database is open in it. *)
Definition opening (D : db_st) : txn_st :=
  MkTxn e false true (<[d := D]> (env_dbs ex)) ((name, d) :: env_names ex) {[d]}.

Lemma opening_again D D' : upd_txn t (opening D') (upd_txn t (opening D) s) = upd_txn t (opening D') s.
Proof. unfold upd_txn. cbn. by rewrite insert_insert_eq. Qed.

Lemma opening_upd D f : set_db d (f D) (opening D) = opening (f D).
Proof. unfold set_db, opening. cbn. by rewrite insert_insert_eq. Qed.

Lemma opening_db D : txn_db (upd_txn t (opening D) s) t d = Some D.
Proof. unfold txn_db. cbn. rewrite lookup_insert_eq. cbn. by rewrite lookup_insert_eq. Qed.

Lemma wp_set_cmp U T D h (Q : unit -> heap -> lmdb -> Prop) :
  db_kc D = lexical ->
  Q tt h (upd_txn t (opening (set_kc (type_comparator T) D)) s) ->
  wpm LMDB U (set_cmp T (Some t) d) h (upd_txn t (opening D) s) Q.
Proof.
  intros HD HQ. assert (forall c, c = lexical -> set_kc c D = D) as HE
    by (intros c ->; destruct D; cbn in *; by subst).
  destruct T as [| | |n]; cbn [set_cmp];
    try (wpm_step; by rewrite (HE (type_comparator _)) in HQ by done).
  wpm_step. wpm_step; [exists t, D; split; [done|apply opening_db]|].
  intros rc s' (_ & t' & x & D' & [= <-] & Hx & HD' & ->). cbn in Hx. rewrite lookup_insert_eq in Hx.
  injection Hx as <-. cbn in HD'. rewrite lookup_insert_eq in HD'. injection HD' as <-.
  wpm_step. by rewrite (opening_upd D (set_kc (num_comparator n))), opening_again.
Qed.

Lemma wp_set_dup_cmp U T D h (Q : unit -> heap -> lmdb -> Prop) :
  db_dc D = lexical ->
  Q tt h (upd_txn t (opening (set_dc (type_comparator T) D)) s) ->
  wpm LMDB U (set_dup_cmp T (Some t) d) h (upd_txn t (opening D) s) Q.
Proof.
  intros HD HQ. assert (forall c, c = lexical -> set_dc c D = D) as HE
    by (intros c ->; destruct D; cbn in *; by subst).
  destruct T as [| | |n]; cbn [set_dup_cmp];
    try (wpm_step; by rewrite (HE (type_comparator _)) in HQ by done).
  wpm_step. wpm_step; [exists t, D; split; [done|apply opening_db]|].
  intros rc s' (_ & t' & x & D' & [= <-] & Hx & HD' & ->). cbn in Hx. rewrite lookup_insert_eq in Hx.
  injection Hx as <-. cbn in HD'. rewrite lookup_insert_eq in HD'. injection HD' as <-.
  wpm_step. by rewrite (opening_upd D (set_dc (num_comparator n))), opening_again.
Qed.

(** The new database does not disturb the ones in use. *)
Lemma opening_inv g h D :
  quiet g h s -> txns s !! t = None -> envs s !! e = Some ex -> env_opened ex = true ->
  env_dbs ex !! d = None -> inv ({[t]} ∪ ∅) ∅ ∅ g h (upd_txn t (opening D) s).
Proof.
  intros HI Ht He Ho Hd. pose proof (inv_begin _ _ _ _ _ _ HI t e false ex Ht He Ho) as H1.
  assert (upd_txn t (opening D) s = upd_txn t (opening D) (upd_txn t (begun e false ex) s)) as ->
    by (unfold upd_txn; cbn; by rewrite insert_insert_eq).
  apply (inv_view_change _ _ _ _ _ _ H1 t (begun e false ex)); try done.
  - cbn. by rewrite lookup_insert_eq.
  - cbn. intros w. unfold view_has. destruct (decide (d = d_dbi w)) as [->|Hne].
    + by rewrite Hd.
    + by rewrite lookup_insert_ne.
Qed.
End Ctor.

Definition published (e : nat) (ex : env_st) (m : gmap nat db_st) (l : list (bytes * nat)) (t : nat)
    (s : lmdb) : lmdb := upd_env e (MkEnv (env_opened ex) m l) (end_txn t false s).

(** Both ways the constructor's transaction can end. *)
Lemma opening_end g h s e ex t d name D :
  quiet g h s -> txns s !! t = None -> envs s !! e = Some ex -> env_opened ex = true ->
  env_dbs ex !! d = None ->
  let s1 := upd_txn t (opening e ex d name D) s in
  quiet g h (end_txn t false s1) /\
  quiet g h (published e ex (<[d := D]> (env_dbs ex)) ((name, d) :: env_names ex) t s1).
Proof.
  intros HI Ht He Ho Hd s1.
  pose proof (opening_inv e ex t d name s g h D HI Ht He Ho Hd) as H1. fold s1 in H1.
  assert (txns s1 !! t = Some (opening e ex d name D)) as Hx by (cbn; by rewrite lookup_insert_eq).
  assert (no_cursor_in s1 t) as Hn by (intros c cu Hc; by apply (fresh_no_cursor g h s t HI Ht c cu)).
  split; apply (settle t).
  - apply (inv_end _ _ _ _ _ _ H1 t _ ltac:(set_solver) Hx). intros _. apply Hn.
  - pose proof (inv_publish _ _ _ _ _ _ H1 t _ ex Hx eq_refl He) as H2.
    apply (inv_end _ _ _ _ _ _ H2 t _ ltac:(set_solver) Hx). intros _. apply Hn.
Qed.

(** The object is created once its database is committed. *)
Lemma opened_db g h s e ex t d name D i w :
  quiet g h s -> txns s !! t = None -> envs s !! e = Some ex -> env_opened ex = true ->
  env_dbs ex !! d = None -> h_db h !! i = None -> (i ∉ g) -> no_open_txn h e ->
  handle_of (h_env h) (d_env w) = Some e -> d_cur w = None -> d_dbi w = d ->
  db_typed (key_type w) (value_type w) D ->
  quiet ({[i]} ∪ g) (up_db <[i := w]> h)
    (published e ex (<[d := D]> (env_dbs ex)) ((name, d) :: env_names ex) t
       (upd_txn t (opening e ex d name D) s)).
Proof.
  intros HI Ht He Ho Hd Hi Hg Hn Hh Hc Hwd HD.
  destruct (opening_end g h s e ex t d name D HI Ht He Ho Hd) as [_ HQ].
  apply (inv_db_new _ _ _ _ _ _ HQ i w e
           (MkEnv (env_opened ex) (<[d := D]> (env_dbs ex)) ((name, d) :: env_names ex))); try done.
  - unfold published. cbn. by rewrite lookup_insert_eq.
  - unfold view_has. cbn. by rewrite Hwd, lookup_insert_eq.
  - intros t' x Hx Hxe. by destruct (quiet_idle g h _ HQ e t' x Hn Hx Hxe) as (_ & _ & _ & _ & ?).
  - intros k v Hk Hv Hve Hvd.
    pose proof (db_env_view _ _ _ _ _ (inv_dbs _ _ _ _ _ _ HI) k v e ex Hk Hv) as Hvw.
    rewrite Hve in Hvw. specialize (Hvw Hh He). unfold view_has in Hvw. by rewrite Hvd, Hwd, Hd in Hvw.
Qed.

Lemma flags_dup (b : bool) : is_dup (if b then Z.lor MDB_CREATE MDB_DUPSORT else MDB_CREATE) = b.
Proof. by destruct b. Qed.

(** From the open database to the end of the constructor. *)
Lemma wp_ctor_rest U K V i envo e ex t d name l g h s (dup : bool) :
  quiet g h s -> txns s !! t = None -> envs s !! e = Some ex -> env_opened ex = true ->
  env_dbs ex !! d = None -> h_db h !! i = None -> (i ∉ g) -> no_open_txn h e ->
  handle_of (h_env h) envo = Some e ->
  wpm LMDB U
    (set_cmp K (Some t) d ;;
     when dup (set_dup_cmp V (Some t) d) ;;
     rc ← ffi (mdb_txn_commit (Some t));
     if negb (rc =? 0) then throw_rc rc
     else put_db i (Db K V d envo None) ;; returns (v_object i)) h
    (upd_txn t (opening e ex d name (MkDb dup lexical lexical l)) s)
    (fun _ h' s' => quiet (match h_db h' !! i with Some _ => {[i]} ∪ g | None => g end) h' s').
Proof.
  intros HI Ht He Ho Hd Hi Hg Hn Hh. wstep. apply wp_set_cmp; [done|].
  set (D := set_kc (type_comparator K) (MkDb dup lexical lexical l)).
  assert (HC : forall D', db_typed K V D' ->
    wpm LMDB U (rc ← ffi (mdb_txn_commit (Some t));
      if negb (rc =? 0) then throw_rc rc
      else put_db i (Db K V d envo None) ;; returns (v_object i)) h
      (upd_txn t (opening e ex d name D') s)
      (fun _ h' s' => quiet (match h_db h' !! i with Some _ => {[i]} ∪ g | None => g end) h' s')).
  { intros D' HD'. destruct (opening_end g h s e ex t d name D' HI Ht He Ho Hd) as [HE _].
    wstep. wstep; [intros t' [= <-]; cbn; rewrite lookup_insert_eq; by eexists|].
    intros rc s' (x & Hx & Ha). cbn in Hx. rewrite lookup_insert_eq in Hx. injection Hx as <-.
    cbn in Ha. destruct Ha as [(-> & ex' & Hex' & ->)|(Hrc & ->)].
    - assert (ex' = ex) as -> by congruence. wred. wstep. wstep. wstep. cbn [h_db up_db].
      rewrite lookup_insert_eq. by eapply opened_db.
    - rewrite (proj2 (Z.eqb_neq rc 0)) by done. wred. wstep. by rewrite Hi. }
  wstep. destruct dup; wred.
  - apply wp_set_dup_cmp; [done|]. by apply HC.
  - wstep. by apply HC.
Qed.

Lemma safe_db_new K V i envo opts : safe_op (DbNew K V i envo opts).
Proof.
  intros g h s HI (Hi & Hg & e & ex & (Hh & He & Ho) & Hn & Hname). unfold exec_op, db_ctor.
  pose proof Hh as Hh'. unfold handle_of in Hh'. destruct (h_env h !! envo) as [ew|] eqn:Hew; [|done].
  cbn in Hh'. wstep. wstep. unfold ok_after. cbn [after].
  destruct opts as [[name dup]|]; [|wstep; by rewrite Hi].
  rewrite Hh'. wstep. wstep.
  { split; [done|]. exists e, ex. split_and!; try done. intros _. apply (quiet_no_writer g h s HI).
    intros j w t Hj Ht _. by apply (Hn j w t). }
  intros r s' [(t & e' & ex' & -> & [= <-] & Hx' & Hf & _ & ->)|(Hr & Hs & ->)]; wred.
  2: { destruct r as [rc t]. cbn in Hr, Hs. subst t. by rewrite (proj2 (Z.eqb_neq rc 0)) by done. }
  assert (ex' = ex) as -> by congruence. wstep. wstep.
  { exists t. eexists. cbn. by rewrite lookup_insert_eq. }
  intros r s' Ha. cbn in Ha. destruct Ha as [(t' & x & [= <-] & Hx & Ha)|(Hr & Hs & ->)].
  - rewrite lookup_insert_eq in Hx. injection Hx as <-. cbn in Ha.
    destruct Ha as [(d & -> & Hd & ->)|(d & l & -> & _ & Hd & ->)]; wred.
    { by rewrite (Hname name dup eq_refl) in Hd. }
    wstep. eapply wpm_pure; [done|]. rewrite flags_dup.
    assert (E : upd_txn t (MkTxn e false true (<[d := MkDb (BooleanValue dup) lexical lexical l]> (env_dbs ex))
                  ((utf8 name, d) :: env_names ex) ({[d]} ∪ ∅))
                (upd_txn t (MkTxn e (is_ro 0) true (env_dbs ex) (env_names ex) ∅) s) =
              upd_txn t (opening e ex d (utf8 name) (MkDb (BooleanValue dup) lexical lexical l)) s)
      by (unfold upd_txn, opening; cbn; by rewrite insert_insert_eq, (right_id_L ∅ (∪))).
    change (is_ro 0) with false in *. cbn in *. rewrite E. by apply (wp_ctor_rest _ K V i envo).
  - destruct r as [rc d]. cbn in Hr. rewrite (proj2 (Z.eqb_neq rc 0)) by done. wred. wstep. wstep.
    { intros t' [= <-]. cbn. rewrite lookup_insert_eq. by eexists. }
    intros [] s' (x & Hx & ->). cbn in Hx. rewrite lookup_insert_eq in Hx. injection Hx as <-.
    wstep. rewrite Hi. apply (settle t).
    pose proof (inv_begin _ _ _ _ _ _ HI t e false ex Hf He Ho) as H1.
    apply (inv_end _ _ _ _ _ _ H1 t (begun e false ex)); [set_solver|cbn; by rewrite lookup_insert_eq|].
    intros _ c cu Hc. by apply (fresh_no_cursor g h s t HI Hf c cu).
Qed.

(** ** The end of a database *)

(** Without its cursor and with no cursor on it, an object can be forgotten. *)
Definition own_cursor_closed (i : nat) (w : db) (h : heap) (s : lmdb) : heap * lmdb :=
  match d_cur w with
  | Some c => (up_db <[i := set_cur None w]> h, del_cur c s)
  | None => (h, s)
  end.

Lemma quiet_own_cursor g h s i w :
  quiet g h s -> h_db h !! i = Some w ->
  quiet g (fst (own_cursor_closed i w h s)) (snd (own_cursor_closed i w h s)) /\
  (forall c, d_cur w = Some c -> is_Some (curs s !! c) /\ i ∈ g) /\
  (exists w', h_db (fst (own_cursor_closed i w h s)) !! i = Some w' /\ d_cur w' = None /\
     d_env w' = d_env w /\ d_dbi w' = d_dbi w).
Proof.
  intros HI Hi. unfold own_cursor_closed. destruct (d_cur w) as [c|] eqn:Hc; cbn [fst snd].
  - destruct (db_cur_alive _ _ _ _ _ _ _ (inv_curs _ _ _ _ _ _ HI) i w c Hi Hc) as (Hg & cu & Hcu & _).
    split_and!.
    + apply (settle_cur c), inv_cur_close; [|set_solver].
      by apply (inv_disown_dbcur _ _ _ _ _ _ HI i w c).
    + intros c' [= <-]. split; [by exists cu|done].
    + exists (set_cur None w). cbn. by rewrite lookup_insert_eq.
  - split_and!; [done|done|]. by exists w.
Qed.

Lemma no_cursor_on_keep h s h' s' w w' :
  no_cursor_on h s w -> h_cur h' = h_cur h -> h_env h' = h_env h ->
  (forall c cu, curs s' !! c = Some cu -> curs s !! c = Some cu) ->
  d_env w' = d_env w -> d_dbi w' = d_dbi w -> no_cursor_on h' s' w'.
Proof.
  intros Hn Hc He Hs Ee Ed k cw c cu. rewrite Hc, He, Ee, Ed. intros H1 H2 H3. apply (Hn k cw c cu); auto.
Qed.

Lemma own_cursor_env i w h s :
  h_env (fst (own_cursor_closed i w h s)) = h_env h /\ h_cur (fst (own_cursor_closed i w h s)) = h_cur h /\
  envs (snd (own_cursor_closed i w h s)) = envs s /\
  (forall c cu, curs (snd (own_cursor_closed i w h s)) !! c = Some cu -> curs s !! c = Some cu) /\
  (forall j, j <> i -> h_db (fst (own_cursor_closed i w h s)) !! j = h_db h !! j).
Proof.
  unfold own_cursor_closed. destruct (d_cur w) as [c|]; cbn; split_and!; try done.
  - by intros c' cu [_ ?]%lookup_delete_Some.
  - intros j Hj. by rewrite lookup_insert_ne.
Qed.

Lemma closed_db g h s K V i w e ex :
  quiet g h s -> open_db g h K V i w -> no_cursor_on h s w ->
  handle_of (h_env h) (d_env w) = Some e -> envs s !! e = Some ex ->
  quiet (g ∖ {[i]}) (fst (own_cursor_closed i w h s))
    (upd_env e (close_dbi (d_dbi w) ex) (snd (own_cursor_closed i w h s))).
Proof.
  intros HI (Hg & Hi & _) Hn Hh Hx.
  destruct (quiet_own_cursor g h s i w HI Hi) as (H1 & _ & w' & Hi' & Hc' & Ee & Ed).
  destruct (own_cursor_env i w h s) as (E1 & E2 & E3 & E4 & E5).
  destruct (own_cursor_closed i w h s) as [h1 s1]. cbn [fst snd] in *.
  apply (inv_env_change _ _ _ _ _ _) with ex; [|by rewrite E3|done|].
  - pose proof (inv_db_forget _ _ _ _ _ _ H1 i w' (h_db h1) Hi' Hc') as HF.
    destruct h1 as [m1 m2 m3 m4 m5]. apply HF; [|done|naive_solver]. intros _.
    by eapply no_cursor_on_keep.
  - intros j v [Hj Hne]%elem_of_difference Hv Hhv. rewrite E1 in Hhv. rewrite E5 in Hv by set_solver.
    unfold view_has. cbn. rewrite lookup_delete_ne; [done|]. intros Edv. apply Hne, elem_of_singleton.
    apply (db_inj _ _ _ _ _ (inv_dbs _ _ _ _ _ _ HI) j i v w); try done.
    by eapply (env_inj _ _ (inv_envs _ _ _ _ _ _ HI)).
Qed.

Lemma safe_db_close K V i : safe_op (DbClose K V i).
Proof.
  intros g h s HI (w & Hw & Hn & Hm). unfold exec_op, db_close, get_kvdb.
  pose proof (open_db_unwrap _ _ _ _ _ _ Hw) as Hu.
  destruct (quiet_db g h s K V i w HI Hw) as (ew & e & ex & Hew & He & Hh & Hx & Ho).
  pose proof (closed_db g h s K V i w e ex HI Hw Hn Hh Hx) as HQ.
  destruct Hw as (Hg & Hi & _). destruct (quiet_own_cursor g h s i w HI Hi) as (_ & H2 & _).
  wstep. wstep. wstep. wstep. wstep. rewrite He. wstep; [exists e, ex; split_and!; auto|].
  intros [] s' (e' & ex' & [= <-] & Hx' & ->). assert (ex' = ex) as -> by congruence.
  wstep. unfold own_cursor_closed in HQ. destruct (d_cur w) as [c|] eqn:Hc; wred; wstep.
  - wstep; [intros c' [= <-]; by apply H2|]. intros [] s' ->. wstep. by wstep.
  - by wstep.
Qed.

Lemma safe_db_gc K V i : safe_op (DbGc K V i).
Proof.
  intros g h s HI (w & Hi & HK & HV & Hn). unfold exec_op, silent, db_dtor, get_kvdb.
  assert (Hu : (h_db h !! i ≫= fun dw => if decide (key_type dw = K /\ value_type dw = V)
                 then Some dw else None) = Some w) by (rewrite Hi; cbn; by rewrite decide_True).
  destruct (quiet_own_cursor g h s i w HI Hi) as (H1 & H2 & w' & Hi' & Hc' & Ee & Ed).
  assert (HQ : quiet (g ∖ {[i]}) (up_db (delete i) h) (snd (own_cursor_closed i w h s))).
  { pose proof (inv_db_forget _ _ _ _ _ _ H1 i w' (delete i (h_db h)) Hi' Hc') as HF.
    replace (up_db (delete i) h) with (up_db (fun _ => delete i (h_db h)) (fst (own_cursor_closed i w h s)))
      by (unfold own_cursor_closed; by destruct (d_cur w)).
    destruct (own_cursor_env i w h s) as (E1 & E2 & E3 & E4 & E5). apply HF.
    - intros Hg. eapply no_cursor_on_keep; [exact (Hn Hg)|done..].
    - intros k Hk. by rewrite lookup_delete_ne, E5.
    - intros v. by rewrite lookup_delete_eq. }
  wstep. wstep. wstep. wstep. unfold own_cursor_closed in HQ. destruct (d_cur w) as [c|] eqn:Hc; wred.
  - wstep; [intros c' [= <-]; by apply H2|]. intros [] s' ->. wstep. by wstep.
  - wstep. wstep. by wstep.
Qed.

(** ** Cursors *)
Lemma safe_cur_new K V i d t : safe_op (CurNew K V i d t).
Proof.
  intros g h s HI (Hi & w & Hw & Ha). unfold exec_op, cursor_ctor, get_kvdb.
  pose proof (open_db_unwrap _ _ _ _ _ _ Hw) as Hu. destruct (Ha t eq_refl) as (tw & Ht & He).
  wstep. wstep. wstep. wstep. wstep.
  assert (txn_for h s w (t_txn tw)) as Hf.
  { intros th Hth. destruct (quiet_txn_obj g h s t tw th HI Ht Hth) as (x & Hx & _ & Hxe).
    exists x. split; [done|]. rewrite <- (He th Hth). done. }
  eapply (wp_cursor_open _ mdb_answers); [auto|done|done| |].
  - intros [rc cp] Hr _. cbn in Hr. rewrite (proj2 (Z.eqb_neq rc 0)) by done. wred. by wstep.
  - intros th x c Hth Hx Hl Hc H1. wred. wstep. wstep. wstep.
    destruct (Hf th Hth) as (y & Hy & Hh). assert (y = x) as -> by congruence.
    apply (settle_cur c). destruct Hw as (Hg & Hd & HK & HV).
    apply (inv_adopt_cur _ _ _ _ _ _ H1 i (Cursor K V (Some c)) c
             (MkCur (txn_env x) th (txn_ro x) false (d_dbi w) None) d w); try done.
    + set_solver.
    + by rewrite Hi.
    + cbn. by rewrite lookup_insert_eq.
Qed.

Lemma quiet_cur_obj g h s K V i w c :
  quiet g h s -> open_cur h K V i w -> c_cursor w = Some c -> is_Some (curs s !! c).
Proof.
  intros HI (Hi & _) Hc.
  destruct (cur_alive _ _ _ _ _ _ _ (inv_curs _ _ _ _ _ _ HI) i w c Hi Hc) as (cu & _ & _ & Hcu & _).
  by exists cu.
Qed.

Lemma cursor_closed g h s K V i w :
  quiet g h s -> open_cur h K V i w ->
  quiet g (up_cur <[i := Cursor K V None]> h)
    (match c_cursor w with Some c => del_cur c s | None => s end).
Proof.
  intros HI Hw. destruct (c_cursor w) as [c|] eqn:Hc.
  - destruct Hw as (Hi & _). apply (settle_cur c), inv_cur_close; [|set_solver].
    by apply (inv_disown_cur _ _ _ _ _ _ HI i w c).
  - destruct Hw as (Hi & _). apply (inv_idle_cur _ _ _ _ _ _ HI (<[i := Cursor K V None]> (h_cur h))).
    + intros j. destruct (decide (j = i)) as [->|]; [|by rewrite lookup_insert_ne].
      by rewrite lookup_insert_eq, Hi.
    + intros j v c. rewrite lookup_insert_Some. by intros [[_ <-]|[_ ?]].
Qed.

Lemma safe_cur_close K V i : safe_op (CurClose K V i).
Proof.
  intros g h s HI (w & Hw). unfold exec_op, cursor_close, get_kvcur.
  pose proof (open_cur_unwrap _ _ _ _ _ Hw) as Hu. wstep. wstep. wstep. wstep.
  - intros c Hc. by eapply quiet_cur_obj.
  - intros [] s' ->. wstep. wstep. wstep. by apply cursor_closed.
Qed.

Lemma safe_cur_gc K V i : safe_op (CurGc K V i).
Proof.
  intros g h s HI (w & Hw). unfold exec_op, silent, cursor_dtor, get_kvcur.
  pose proof (open_cur_unwrap _ _ _ _ _ Hw) as Hu.
  assert (HQ : quiet g (up_cur (delete i) h)
                 (match c_cursor w with Some c => del_cur c s | None => s end)).
  { pose proof (cursor_closed g h s K V i w HI Hw) as H1.
    assert (E : up_cur (delete i) h =
                up_cur (fun _ => delete i (h_cur h)) (up_cur <[i := Cursor K V None]> h)) by done.
    rewrite E. apply (inv_idle_cur _ _ _ _ _ _ H1); cbn.
    - intros j. destruct (decide (j = i)) as [->|]; [|by rewrite lookup_delete_ne, lookup_insert_ne].
      by rewrite lookup_delete_eq, lookup_insert_eq.
    - intros j v c [Hne Hj]%lookup_delete_Some _. by rewrite lookup_insert_ne. }
  wstep. wstep. wstep. wstep. destruct (c_cursor w) as [c|] eqn:Hc; wred.
  - wstep; [intros c' [= <-]; by eapply quiet_cur_obj|]. intros [] s' ->. wstep. by wstep.
  - wstep. wstep. by wstep.
Qed.

(** A cursor object in use is on an open database of its types. *)
Lemma cur_ready g h s K V i w c :
  quiet g h s -> open_cur h K V i w -> cur_usable s w -> c_cursor w = Some c ->
  exists cu x k v, curs s !! c = Some cu /\ cur_stale cu = false /\ txns s !! cur_txn cu = Some x /\
    txn_live x = true /\ open_db g h K V k v /\ cur_dbi cu = d_dbi v /\
    handle_of (h_env h) (d_env v) = Some (txn_env x).
Proof.
  intros HI (Hi & HK & HV) Hus Hc. pose proof (inv_curs _ _ _ _ _ _ HI) as IC.
  destruct (cur_alive _ _ _ _ _ _ _ IC i w c Hi Hc) as (cu & k & v & Hcu & Hg & Hk & Hd & Hh & HK' & HV').
  pose proof (Hus c cu Hc Hcu) as Hst. pose proof (cur_fresh _ _ _ _ _ _ _ IC c cu Hcu) as Hf.
  rewrite Hst in Hf. destruct Hf as (x & Hx & He & Hl & _). exists cu, x, k, v.
  unfold open_db. rewrite He, HK', HV'. by split_and!.
Qed.

(** Any movement of a usable cursor, for keys and data of its types. *)
Lemma wp_cur_get U g h s K V i w k v o (Q : Z * (bytes * bytes) -> heap -> lmdb -> Prop) :
  quiet g h s -> open_cur h K V i w -> cur_usable s w ->
  (op_uses_key o = true -> encodes_to K k) -> (op_uses_data o = true -> encodes_to V v) ->
  (forall r s', quiet g h s' -> mdb_answers _ s (mdb_cursor_get (c_cursor w) k v o) r s' -> Q r h s') ->
  wpm LMDB U (ffi (mdb_cursor_get (c_cursor w) k v o)) h s Q.
Proof.
  intros HI Hw Hus Hk Hv HQ. wpm_step.
  - destruct (c_cursor w) as [c|] eqn:Hc; [|done].
    destruct (cur_ready g h s K V i w c HI Hw Hus Hc) as (cu & x & j & dv & ? & ? & ? & ? & ? & ? & ?).
    by apply (cursor_get_allowed _ _ _ _ _ _ K V j dv c cu x _ _ _ HI).
  - intros r s' Ha. apply HQ; [|done]. by eapply (cur_moved_carries g h), HI; eapply cursor_get_moved.
Qed.

Lemma safe_cursorOp K V o i : safe_op (CurMove K V o i).
Proof.
  intros g h s HI (w & Hw & Hus & Ho). unfold exec_op, cursorOp, get_kvcur.
  pose proof (open_cur_unwrap _ _ _ _ _ Hw) as Hu. wstep. wstep. wstep.
  eapply wp_cur_get; try done; [by rewrite Ho|by destruct o|].
  intros r s' H1 _. unfold moved. by wstep; wstep.
Qed.

Lemma wp_cursorKeyOp U g h s K V o i w a k (Q : info -> heap -> lmdb -> Prop) :
  quiet g h s -> open_cur h K V i w -> cur_usable s w -> kv_encode K a = Ok k ->
  op_uses_data o = false -> (forall j s', quiet g h s' -> Q j h s') ->
  wpm LMDB U (cursorKeyOp K V o i a) h s Q.
Proof.
  intros HI Hw Hus Hk Ho HQ. unfold cursorKeyOp, get_kvcur.
  pose proof (open_cur_unwrap _ _ _ _ _ Hw) as Hu. wstep. wstep. wstep. wstep. wstep.
  eapply wp_cur_get; try done; [intros _; by exists a|by rewrite Ho|].
  intros r s' H1 _. unfold moved. wstep; wstep; by apply HQ.
Qed.

Lemma wp_cursorKeyValOp U g h s K V o i w a b k v (Q : info -> heap -> lmdb -> Prop) :
  quiet g h s -> open_cur h K V i w -> cur_usable s w -> kv_encode K a = Ok k -> kv_encode V b = Ok v ->
  (forall j s', quiet g h s' -> Q j h s') ->
  wpm LMDB U (cursorKeyValOp K V o i a b) h s Q.
Proof.
  intros HI Hw Hus Hk Hv HQ. unfold cursorKeyValOp, get_kvcur.
  pose proof (open_cur_unwrap _ _ _ _ _ Hw) as Hu. wstep. wstep. wstep. wstep. wstep. wstep. wstep.
  eapply wp_cur_get; try done; [intros _; by exists a|intros _; by exists b|].
  intros r s' H1 _. unfold moved. wstep; wstep; by apply HQ.
Qed.

Lemma safe_cur_seek K V i args : safe_op (CurSeek K V i args).
Proof.
  intros g h s HI (w & Hw & Hus & [k Hk] & Hv). unfold exec_op, cursor_seek.
  destruct args as [|a [|b l]];
    [destruct (Hv ltac:(done)) as [v Hv']; by eapply wp_cursorKeyValOp|by eapply wp_cursorKeyOp|].
  destruct (Hv ltac:(done)) as [v Hv']. by eapply wp_cursorKeyValOp.
Qed.

Lemma safe_cur_gte K V i args : safe_op (CurGte K V i args).
Proof.
  intros g h s HI (w & Hw & Hus & [k Hk] & Hv). unfold exec_op, cursor_gte.
  destruct args as [|a [|b l]];
    [destruct (Hv ltac:(done)) as [v Hv']; by eapply wp_cursorKeyValOp|by eapply wp_cursorKeyOp|].
  destruct (Hv ltac:(done)) as [v Hv']. by eapply wp_cursorKeyValOp.
Qed.

Lemma cur_move_error d p o k v rc : cur_move d p o k v = inl rc -> rc <> 0.
Proof.
  assert (HN : forall o, not_found_or o = inl rc -> rc <> 0) by (by intros [?|] [= <-]).
  destruct o; cbn; repeat case_match; intros E; simplify_eq; eauto.
Qed.

(** What a cursor hands out is an entry of the database it is on. *)
Lemma cursor_entry s c cu k v o key data s' :
  mdb_answers _ s (mdb_cursor_get (Some c) k v o) (0, (key, data)) s' -> curs s !! c = Some cu ->
  exists d, txn_db s (cur_txn cu) (cur_dbi cu) = Some d /\ (key, data) ∈ db_data d.
Proof.
  intros (cu' & Hcu & [(d & Hd & Ha)|[[Hf _] _]]) Hc; [|done].
  assert (cu' = cu) as -> by congruence. exists d. split; [done|].
  destruct (cur_move d (cur_pos cu) o k v) as [rc|i] eqn:Hm.
  - destruct Ha as [Hrc _]. by apply cur_move_error in Hm.
  - destruct Ha as (p & Hp & [= <-] & _). by eapply list_elem_of_lookup_2.
Qed.

Lemma cur_values g h s K V i w key data s' :
  quiet g h s -> open_cur h K V i w -> cur_usable s w ->
  (forall c cu x k v, c_cursor w = Some c -> curs s !! c = Some cu -> txns s !! cur_txn cu = Some x ->
     k ∈ g -> h_db h !! k = Some v -> d_dbi v = cur_dbi cu -> key_type v = K -> value_type v = V ->
     values_ok v (txn_dbs x)) ->
  mdb_answers _ s (mdb_cursor_get (c_cursor w) [] [] MDB_GET_CURRENT) (0, (key, data)) s' ->
  (exists a, kv_decode K key (length key) = Ok a) /\ (exists b, kv_decode V data (length data) = Ok b).
Proof.
  intros HI Hw Hus Hval Ha. destruct (c_cursor w) as [c|] eqn:Hc; [|by destruct Ha].
  destruct (cur_ready g h s K V i w c HI Hw Hus Hc) as (cu & x & j & v & Hcu & _ & Hx & Hl & Hdb & Hd & _).
  destruct (cursor_entry _ _ _ _ _ _ _ _ _ Ha Hcu) as (d & Hd' & Hin).
  unfold txn_db in Hd'. rewrite Hx in Hd'. cbn in Hd'. rewrite Hl, Hd in Hd'.
  destruct Hdb as (Hg & Hj & HK & HV).
  pose proof (Hval c cu x j v eq_refl Hcu Hx Hg Hj (eq_sym Hd) HK HV d key data Hd' Hin) as HD.
  by rewrite HK, HV in HD.
Qed.

Lemma safe_cur_key K V i : safe_op (CurKey K V i).
Proof.
  intros g h s HI (w & Hw & Hus & Hval). unfold exec_op, cursor_key, get_kvcur.
  pose proof (open_cur_unwrap _ _ _ _ _ Hw) as Hu. wstep. wstep. wstep.
  eapply wp_cur_get; try done. intros [rc [key data]] s' H1 Ha.
  wstep; [by wstep|]. wstep; [by wstep|].
  assert (rc = 0) as -> by (by apply Z.eqb_eq, negb_false_iff).
  destruct (cur_values g h s K V i w key data s' HI Hw Hus Hval Ha) as [[a Hka] _]. wstep. wstep. by wstep.
Qed.

Lemma safe_cur_val K V i : safe_op (CurVal K V i).
Proof.
  intros g h s HI (w & Hw & Hus & Hval). unfold exec_op, cursor_value, get_kvcur.
  pose proof (open_cur_unwrap _ _ _ _ _ Hw) as Hu. wstep. wstep. wstep.
  eapply wp_cur_get; try done. intros [rc [key data]] s' H1 Ha.
  wstep; [by wstep|]. wstep; [by wstep|].
  assert (rc = 0) as -> by (by apply Z.eqb_eq, negb_false_iff).
  destruct (cur_values g h s K V i w key data s' HI Hw Hus Hval Ha) as [_ [b Hb]]. wstep. wstep. by wstep.
Qed.

Lemma safe_cur_del K V i : safe_op (CurDel K V i).
Proof.
  intros g h s HI (w & Hw & Hus & [c Hc]). unfold exec_op, cursor_del, get_kvcur.
  pose proof (open_cur_unwrap _ _ _ _ _ Hw) as Hu. wstep. wstep. wstep. rewrite Hc.
  destruct (cur_ready g h s K V i w c HI Hw Hus Hc) as (cu & x & j & v & Hcu & Hst & Hx & Hl & Hdb & Hd & Hh).
  wstep; [by exists c, cu, x|]. intros rc s' (c' & cu' & [= <-] & Hcu' & Ha).
  assert (cu' = cu) as -> by congruence.
  assert (quiet g h s') as HQ.
  { destruct (writable s (cur_txn cu) (cur_dbi cu)) as [[y d]|] eqn:Hwr; [|by destruct Ha as [_ ->]].
    destruct (writable_view _ _ _ _ _ Hwr) as (Hy & Hyd & _).
    destruct (cur_pos cu) as [p|]; [|by destruct Ha as [_ ->]].
    destruct Ha as [(_ & _ & Hupd)|[_ ->]]; [|done].
    by eapply inv_updated; [exact HI|exact Hy|exact Hyd| | | |exact Hupd]. }
  by wstep; wstep.
Qed.

(** ** Every call *)
Lemma every_op_safe o : safe_steady o.
Proof.
  destruct o; try (apply safe_op_steady; eauto using safe_env_new, safe_env_setMapSize,
    safe_env_setMaxDbs, safe_env_open, safe_env_close, safe_env_sync, safe_sync_work, safe_env_gc,
    safe_txn_new, safe_txn_commit, safe_txn_abort, safe_txn_reset, safe_txn_renew, safe_txn_gc;
    fail).
  all: try (apply safe_op_steady; eauto using safe_db_new, safe_db_close, safe_db_get, safe_db_put,
    safe_db_del, safe_db_gc, safe_cur_new, safe_cur_close, safe_cur_del, safe_cursorOp, safe_cur_seek,
    safe_cur_gte, safe_cur_key, safe_cur_val, safe_cur_gc; fail).
  apply safe_db_exists.
Qed.

(** ... also on an LMDB that promises more. *)
Lemma op_safe_sure o g h s :
  quiet g h s -> disc g h s o -> wpm LMDB_sure (tolerated o) (exec_op o) h s (ok_after g o).
Proof.
  intros HI HD. apply (wpu_stronger mdb_allowed (fun X s c x s' => mdb_answers X s c x s' /\ renewals X s c x));
    [by intros ????? (? & ? & _)|]. by apply every_op_safe.
Qed.

Lemma quiet_0 : quiet ∅ heap0 lmdb0.
Proof.
  split; cbn.
  - split; intros *; unfold handle_of; by rewrite lookup_empty.
  - split; intros *; unfold handle_of, lock_of; rewrite ?lookup_empty; try done; try set_solver.
    destruct o; cbn; unfold lock_of; by rewrite lookup_empty.
  - split; intros *; set_solver.
  - split; intros *; rewrite ?lookup_empty; try done; try set_solver.
    destruct o; cbn; by rewrite lookup_empty.
  - intros d. set_solver.
Qed.

Lemma reach_quiet g h s : reach g h s -> quiet g h s.
Proof.
  induction 1 as [|o g h s i h' s' _ IH HD HM]; [apply quiet_0|].
  exact (wpu_may _ _ _ _ _ _ _ (every_op_safe o g h s IH HD) HM).
Qed.

(** ** Properties of every run *)

(** Each transaction LMDB has open is either the idle read lock of an
    environment object or belongs to a transaction object of the same kind,
    each cursor belongs to a database in use or to a cursor object, and no two
    objects hold the same handle. *)
Definition no_leak (g : gset nat) (h : heap) (s : lmdb) : Prop :=
  (forall t x, txns s !! t = Some x ->
     (exists i, lock_of (h_env h) i = Some t /\ txn_ro x = true /\ txn_live x = false) \/
     (exists j w, h_txn h !! j = Some w /\ t_txn w = Some t /\ txn_ro x = t_readonly w)) /\
  (forall c cu, curs s !! c = Some cu ->
     (exists j w, j ∈ g /\ h_db h !! j = Some w /\ d_cur w = Some c) \/
     (exists j w, h_cur h !! j = Some w /\ c_cursor w = Some c)) /\
  (forall t o o', txn_owner (h_env h) (h_txn h) o = Some t ->
     txn_owner (h_env h) (h_txn h) o' = Some t -> o = o') /\
  (forall c o o', cur_owner (h_db h) (h_cur h) o = Some c ->
     cur_owner (h_db h) (h_cur h) o' = Some c -> o = o').

(** C3. No run of the binding loses a handle: in every reachable state each
    transaction and each cursor LMDB has allocated is held by exactly one
    object, the one whose methods or destructor will free it. *)
Theorem lmdb_no_leak g h s : reach g h s -> no_leak g h s.
Proof.
  intros HR. pose proof (reach_quiet g h s HR) as HI. split_and!.
  - intros t x Hx. destruct (quiet_txn g h s HI t x Hx) as [(i & ? & _ & ? & ?)|(j & w & ? & ? & ? & _)].
    + left. by exists i.
    + right. by exists j, w.
  - intros c cu Hc. destruct (quiet_cur g h s HI c cu Hc) as [(j & w & ? & ? & ? & _)|(j & w & ? & ?)].
    + left. by exists j, w.
    + right. by exists j, w.
  - apply (txn_own_inj _ _ _ _ _ _ (inv_txns _ _ _ _ _ _ HI)).
  - apply (cur_own_inj _ _ _ _ _ _ _ (inv_curs _ _ _ _ _ _ HI)).
Qed.

(** C2. Every call made as the discipline asks is safe: on any engine that
    answers within LMDB's contract, and renews a read-only transaction or cursor
    unless another reader of the thread is in the way, the method makes only
    calls the contract allows, runs to its end, and leaves the binding in a
    reachable state.  The one exception is the constructor of a database, which
    reads a pointer it never wrote when LMDB cannot begin a transaction. *)
Theorem lmdb_calls_safe {W} (Eng : forall X, mdb_call X -> W -> X * W) (R : W -> lmdb -> Prop)
    (HE : Engine LMDB_steady Eng R) g h s o w :
  reach g h s -> disc g h s o -> R w s ->
  ends LMDB_steady (tolerated o) (fun r s' => reach (after o g (snd r)) (snd r) s') R
    (run Eng (exec_op o h) w).
Proof.
  intros HR HD Hw. apply (run_sound LMDB_steady _ Eng R) with s; [done|].
  eapply wpu_mono; [exact (wpu_result _ _ _ _ _ (every_op_safe o g h s (reach_quiet g h s HR) HD))|done|].
  intros [i h'] s' [HM _]. by econstructor.
Qed.

Lemma reach_run g h s o n i h' s' n' :
  reach g h s -> disc g h s o -> handles_below s n ->
  run mdb_exec (exec_op o h) (s, n) = (Done (i, h'), (s', n')) ->
  reach (after o g h') h' s' /\ handles_below s' n'.
Proof.
  intros HR HD HB Hrun.
  pose proof (every_op_safe o g h s (reach_quiet g h s HR) HD) as HS.
  destruct (run_may LMDB_steady _ mdb_exec world_abs (exec_op o h) (s, n) s _ (i, h') (s', n') (conj eq_refl HB)
              HS Hrun) as (s2 & HM & [E HB']).
  cbn in E. subst s2. split; [by econstructor|done].
Qed.
End SafetyRun.

(** ** A concrete run

    An environment, and a database of 32-bit keys and string values in it. *)
Definition demo_libc : Libc := fun _ => lit "error".

Section Demo.
#[local] Existing Instance SimpleV8.
#[local] Existing Instance demo_libc.

Definition demo_do (o : op) (st : heap * world) : heap * world :=
  match run mdb_exec (exec_op o (fst st)) (snd st) with
  | (Done (_, h'), w') => (h', w')
  | (Undefined _, w') => (fst st, w')
  end.

Definition demo_done (o : op) (st : heap * world) : bool :=
  match fst (run mdb_exec (exec_op o (fst st)) (snd st)) with Done _ => true | Undefined _ => false end.

Definition demo_reach (g : gset nat) (st : heap * world) : Prop :=
  reach g (fst st) (fst (snd st)) /\ handles_below (fst (snd st)) (snd (snd st)).

Lemma demo_step g st o :
  demo_reach g st -> disc g (fst st) (fst (snd st)) o -> demo_done o st = true ->
  demo_reach (after o g (fst (demo_do o st))) (demo_do o st).
Proof.
  intros [HR HB] HD. unfold demo_done, demo_do. destruct st as [h [s n]]. cbn [fst snd] in *.
  destruct (run mdb_exec (exec_op o h) (s, n)) as [[[i h']|u] [s' n']] eqn:E; [|done].
  intros _. by eapply reach_run.
Qed.

Definition demo1 : heap * world := demo_do (EnvNew 0) (heap0, (lmdb0, 0%nat)).
Definition demo2 : heap * world := demo_do (@EnvOpen SimpleV8 0 (SStr (lit "db"))) demo1.
Definition demo3 : heap * world :=
  demo_do (@DbNew SimpleV8 (Num I32) Str 0 0 (Some (SStr (lit "main"), SBool false))) demo2.

Lemma demo1_reach : demo_reach ∅ demo1.
Proof. apply (demo_step ∅ _ (EnvNew 0)); [split; [constructor|apply lmdb0_abs]|done|done]. Qed.

Lemma demo2_reach : demo_reach ∅ demo2.
Proof.
  apply (demo_step ∅ demo1 (@EnvOpen SimpleV8 0 (SStr (lit "db")))); [apply demo1_reach| |by vm_compute].
  eexists. split; [vm_compute; reflexivity|]. split; [done|].
  intros e ex [= <-]. vm_compute. by intros [= <-].
Qed.

Lemma demo3_reach : demo_reach {[0%nat]} demo3.
Proof.
  assert (E : after (@DbNew SimpleV8 (Num I32) Str 0 0 (Some (SStr (lit "main"), SBool false))) ∅ (fst demo3)
              = {[0%nat]}) by (by vm_compute).
  rewrite <- E. apply demo_step; [apply demo2_reach| |by vm_compute].
  split; [by vm_compute|]. split; [apply not_elem_of_empty|]. exists 0%nat. eexists. split_and!.
  - split_and!; [by vm_compute|vm_compute; reflexivity|done].
  - intros j w t. vm_compute. by destruct j.
  - intros name dup [= <- <-]. by vm_compute.
Qed.
End Demo.

Lemma lmdb_no_leak_witness : no_leak {[0%nat]} (fst demo3) (fst (snd demo3)).
Proof. exact (@lmdb_no_leak SimpleV8 demo_libc {[0%nat]} _ _ (proj1 demo3_reach)). Defined.

Lemma lmdb_calls_safe_witness :
  let o := @DbPut SimpleV8 (Num I32) Str 0 (SNum 7) (SStr (lit "seven")) None in
  ends LMDB_steady (tolerated o)
    (fun r s' => @reach SimpleV8 demo_libc (after o {[0%nat]} (snd r)) (snd r) s') world_abs
    (run mdb_exec (@exec_op SimpleV8 demo_libc o (fst demo3)) (snd demo3)).
Proof.
  apply (@lmdb_calls_safe SimpleV8 demo_libc world mdb_exec world_abs mdb_exec_steady {[0%nat]}
           (fst demo3) (fst (snd demo3))); [apply demo3_reach| |split; [done|apply demo3_reach]].
  eexists. split; [split_and!; [set_solver|vm_compute; reflexivity|done|done]|].
  split; [by eexists|]. split; [by eexists|]. split; [done|]. intros _ e _ j w t. vm_compute. by destruct j.
Defined.
