(* ===== verification/LmdbSpec.v ===== *)
(** * What an LMDB database does for JavaScript

    The abstract behaviour of a database object used without transactions: an
    ordered store with [put], [get], [del] and [exists] ([spec_db]), and the
    refinement theorem that the methods of src/src/lmdb/db-lmdb.cpp implement
    it on any LMDB that does not run out of anything. *)
From S2P Require Import Prelude Nan KvTypes Prog Store LmdbApi LmdbEngine LmdbObjects LmdbEnv.
From S2P Require Import LmdbTxn LmdbDb LmdbCursor LmdbInv LmdbSystem LmdbSafety LmdbSafetyDb.
From S2P Require Import LmdbSafetyRun.

Section Spec.
Context `{V8} `{Libc}.

(** ** The abstract database *)
Inductive dbop :=
| OPut (a b : value) | OGet (a : value) | ODel (a b : value) | OExists (a b : value).

Definition spec_db (K V : kv_type) (o : dbop) (d : db_st) : res (js_result * db_st) :=
  match o with
  | OPut a b =>
      k ← kv_encode K a; v ← kv_encode V b;
      Ok (JsReturn (v_bool true), db_after_put d k v)
  | OGet a =>
      k ← kv_encode K a;
      match s_get (db_kc d) k (db_data d) with
      | Some v => x ← kv_decode V v (length v); Ok (JsReturn x, d)
      | None => Ok (JsReturn v_null, d)
      end
  | ODel a b =>
      k ← kv_encode K a; v ← kv_encode V b;
      match db_after_del d k (Some v) with
      | Some d' => Ok (JsReturn (v_bool true), d')
      | None => Ok (JsReturn (v_bool false), d)
      end
  | OExists a b =>
      k ← kv_encode K a; v ← kv_encode V b;
      Ok (if db_dup d then JsReturn (v_bool (s_mem (db_kc d) (db_dc d) k v (db_data d)))
          else JsThrow (mdb_strerror MDB_INCOMPATIBLE), d)
  end.

Definition run_dbop (K V : kv_type) (i : nat) (o : dbop) : lmeth info :=
  match o with
  | OPut a b => db_put K V i a b None
  | OGet a => db_get K V i a None
  | ODel a b => db_del K V i a b None
  | OExists a b => db_exists K V i a b None
  end.

(** The database object [i] and what is committed in its database. *)
Definition holds (g : gset nat) (h : heap) (s : lmdb) (K V : kv_type) (i : nat) (d : db_st) : Prop :=
  quiet g h s /\ exists w e ex, open_db g h K V i w /\ handle_of (h_env h) (d_env w) = Some e /\
    no_open_txn h e /\ envs s !! e = Some ex /\ env_dbs ex !! d_dbi w = Some d.

(** ** One call *)
Section Calls.
Context (g : gset nat) (h : heap) (s : lmdb) (K V : kv_type) (i : nat) (w : db) (e : nat) (ex : env_st)
  (d : db_st).
Hypothesis HI : quiet g h s.
Hypothesis Hw : open_db g h K V i w.
Hypothesis Hh : handle_of (h_env h) (d_env w) = Some e.
Hypothesis Hn : no_open_txn h e.
Hypothesis He : envs s !! e = Some ex.
Hypothesis Hd : env_dbs ex !! d_dbi w = Some d.

Definition commits (d' : db_st) (s' : lmdb) : Prop :=
  envs s' = <[e := MkEnv (env_opened ex) (<[d_dbi w := d']> (env_dbs ex)) (env_names ex)]> (envs s).

(** A write scope of its own sees what is committed... *)
Lemma sure_scope_write ew (Q : txn_scope -> heap -> lmdb -> Prop) :
  e_env ew = Some e ->
  (forall t, txns s !! t = None ->
     Q (TxnScope None (Some t) false true false) h (upd_txn t (begun e false ex) s)) ->
  wlp sure (scope_write None (e_env ew)) h s Q.
Proof.
  intros Hew HQ. unfold scope_write. rewrite Hew. wstep. wstep; [done|].
  intros r s' ([(t & e' & ex' & -> & [= <-] & He' & Ht & _ & ->)|(Hr & _)] & _ & Hs).
  - wstep. assert (ex' = ex) as -> by congruence. by apply HQ.
  - destruct Hr. by apply (Hs e).
Qed.

(** ... and commits what it changed. *)
Lemma sure_commit t x s1 (Q : unit -> heap -> lmdb -> Prop) :
  txns s1 !! t = Some x -> txn_ro x = false -> txn_env x = e -> envs s1 = envs s ->
  (forall s', envs s' = <[e := MkEnv (env_opened ex) (txn_dbs x) (txn_names x)]> (envs s) -> Q tt h s') ->
  wlp sure (scope_dtor (TxnScope None (Some t) false true true)) h s1 Q.
Proof.
  intros Ht Hr Hxe Hes HQ. unfold scope_dtor. wred. cbn [ts_readonly ts_commit ts_txn ts_created]. wred.
  wstep. wstep; [done|]. intros rc s' ((y & Hy & Ha) & _ & Hs). assert (y = x) as -> by congruence.
  rewrite Hr in Ha. wstep. apply HQ.
  assert (rc = 0) as -> by (apply (Hs t x); [done|done|]; rewrite Hxe, Hes; by exists ex).
  destruct Ha as [(_ & ex' & Hex' & ->)|[? _]]; [|done].
  rewrite Hxe, Hes in Hex'. assert (ex' = ex) as -> by congruence.
  change (envs (end_txn t false s1)) with (envs s1). unfold end_txn. cbn. by rewrite Hxe, Hes.
Qed.

Lemma open_db_env_obj : exists ew, h_env h !! d_env w = Some ew /\ e_env ew = Some e.
Proof. unfold handle_of in Hh. destruct (h_env h !! d_env w) as [ew|]; [|done]. by exists ew. Qed.

Lemma begun_writable t : writable (upd_txn t (begun e false ex) s) t (d_dbi w) = Some (begun e false ex, d).
Proof. unfold writable. cbn. rewrite lookup_insert_eq. cbn. by rewrite Hd. Qed.

Lemma sure_put a b k v :
  kv_encode K a = Ok k -> kv_encode V b = Ok v -> key_size_ok k -> data_size_ok (db_dup d) v ->
  wlp sure (db_put K V i a b None) h s (fun r h' s' =>
    js r = JsReturn (v_bool true) /\ h' = h /\ commits (db_after_put d k v) s').
Proof.
  intros Hk Hv Fk Fv. unfold db_put, get_kvdb. pose proof (open_db_unwrap _ _ _ _ _ _ Hw) as Hu.
  destruct open_db_env_obj as (ew & Hew & Hewe).
  wstep. wstep. wstep. wstep. wstep. wstep. wstep. wstep. wstep. apply sure_scope_write; [done|].
  intros t Ht. wstep. wstep; [done|]. intros rc s2 (Ha & _ & Hs). cbn in Ha, Hs.
  rewrite begun_writable in Ha. cbn in Ha.
  destruct Ha as [[-> (Ee & Et & _)]|[Hf _]]; [|by destruct (Hs t _ _ eq_refl (begun_writable t) Fk Fv)].
  wred. wstep. eapply (sure_commit t); [by rewrite Et, lookup_insert_eq|done|done|done|].
  intros s3 Hs3. wstep. split_and!; [done|done|exact Hs3].
Qed.

Lemma sure_del a b k v :
  kv_encode K a = Ok k -> kv_encode V b = Ok v -> key_size_ok k -> data_size_ok (db_dup d) v ->
  wlp sure (db_del K V i a b None) h s (fun r h' s' => h' = h /\
    match db_after_del d k (Some v) with
    | Some d' => js r = JsReturn (v_bool true) /\ commits d' s'
    | None => js r = JsReturn (v_bool false) /\ envs s' = envs s
    end).
Proof.
  intros Hk Hv Fk Fv. unfold db_del, get_kvdb. pose proof (open_db_unwrap _ _ _ _ _ _ Hw) as Hu.
  destruct open_db_env_obj as (ew & Hew & Hewe).
  wstep. wstep. wstep. wstep. wstep. wstep. wstep. wstep. wstep. apply sure_scope_write; [done|].
  intros t Ht. wstep. wstep; [done|]. intros rc s2 (Ha & _ & Hs). cbn in Ha, Hs.
  rewrite begun_writable in Ha. cbn in Ha.
  destruct Ha as [Ha|[Hf _]]; [|destruct (Hs t _ _ eq_refl (begun_writable t) Fk); [by intros ? [= <-]|done]].
  destruct (db_after_del d k (Some v)) as [d'|].
  - destruct Ha as [-> (Ee & Et & _)]. change (0 =? MDB_NOTFOUND) with false. wred. wstep.
    eapply (sure_commit t); [by rewrite Et, lookup_insert_eq|done|done|done|].
    intros s3 Hs3. wstep. split_and!; [done|done|exact Hs3].
  - destruct Ha as [-> ->]. change (MDB_NOTFOUND =? MDB_NOTFOUND) with true. wstep.
    unfold scope_dtor. wred. cbn [ts_readonly ts_commit ts_txn ts_created]. wred.
    wstep; [done|]. intros [] s3 ((x & Hx & ->) & _). by wstep.
Qed.

(** The read lock sees what is committed. *)
Definition reading (t : nat) (h' : heap) (s1 : lmdb) : Prop :=
  same_objects h h' /\ envs s1 = envs s /\ curs s1 = curs s /\ is_Some (h_env h' !! d_env w) /\
  exists x, txns s1 !! t = Some x /\ txn_env x = e /\ txn_ro x = true /\ txn_live x = true /\
    txn_dbs x = env_dbs ex.

Lemma sure_scope_read (Q : txn_scope -> heap -> lmdb -> Prop) :
  (forall t h' s1, reading t h' s1 -> Q (TxnScope (Some (d_env w)) (Some t) true true false) h' s1) ->
  wlp sure (scope_read None (d_env w)) h s Q.
Proof.
  intros HQ. destruct open_db_env_obj as (ew & Hew & Hewe).
  assert (no_reader s e) as Hnr.
  { intros t x Hx Hxe _. by destruct (quiet_idle g h s HI e t x Hn Hx Hxe) as (_ & _ & _ & _ & ?). }
  unfold scope_read, require_readlock. wstep. wstep. wstep. destruct (e_read_lock ew) as [t|] eqn:Hl.
  - destruct (lock_alive _ _ _ _ _ _ (inv_txns _ _ _ _ _ _ HI) (d_env w) t) as (x & Hx & Hhx & Hr & Hlv);
      [unfold lock_of; by rewrite Hew|]. specialize (Hlv ltac:(set_solver)).
    assert (txn_env x = e) as Hxe by congruence.
    wstep. wstep; [done|]. intros rc s1 ((y & Hy & Ha) & Hren & _). assert (y = x) as -> by congruence.
    assert (rc = 0) as -> by (apply (Hren t x); try done; rewrite Hxe; [by exists ex|done]).
    rewrite Hr, Hlv in Ha. cbn in Ha. destruct Ha as [(_ & _ & ex' & Hex' & ->)|[? _]]; [|done].
    assert (ex' = ex) as -> by congruence. wstep. wstep. apply HQ. split_and!; try done.
    exists (renewed x ex). cbn. by rewrite lookup_insert_eq.
  - rewrite Hewe. wstep. wstep; [done|].
    intros r s1 ([(t & e' & ex' & -> & [= <-] & He' & Ht & _ & ->)|(Hr & _)] & _ & Hs); cbn [snd].
    2: { destruct Hr. by apply (Hs e). }
    assert (ex' = ex) as -> by congruence. wstep. wstep. wstep. wstep. apply HQ.
    pose proof (same_handles_insert (h_env h) _ _ (set_read_lock (Some t) ew) Hew eq_refl) as Hsh.
    split_and!; try done.
    + cbn. rewrite lookup_insert_eq. by eexists.
    + eexists. cbn. by rewrite lookup_insert_eq.
Qed.

Lemma sure_release t h' s1 (Q : unit -> heap -> lmdb -> Prop) :
  is_Some (h_env h' !! d_env w) -> (forall s', envs s' = envs s1 -> Q tt h' s') ->
  wlp sure (scope_dtor (TxnScope (Some (d_env w)) (Some t) true true false)) h' s1 Q.
Proof.
  intros [ew Hew] HQ. unfold scope_dtor, release_readlock. cbn [ts_created ts_readonly ts_env]. wred.
  wstep. eapply wpm_pure; [done|]. wstep. wstep. wstep; [done|]. intros [] s2 (Ha & _). apply HQ.
  cbn in Ha. destruct (e_read_lock ew) as [t'|]; [|by subst s2]. destruct Ha as (x & _ & ->).
  by destruct (txn_ro x).
Qed.

Lemma reading_db t h' s1 : reading t h' s1 -> txn_db s1 t (d_dbi w) = Some d.
Proof.
  intros (_ & _ & _ & _ & x & Hx & _ & _ & Hl & Hdbs). unfold txn_db. rewrite Hx. cbn.
  by rewrite Hl, Hdbs.
Qed.

Lemma sure_get a k :
  kv_encode K a = Ok k -> key_size_ok k ->
  wlp sure (db_get K V i a None) h s (fun r h' s' => same_objects h h' /\ envs s' = envs s /\
    match s_get (db_kc d) k (db_data d) with
    | Some v => forall x, kv_decode V v (length v) = Ok x -> js r = JsReturn x
    | None => js r = JsReturn v_null
    end).
Proof.
  intros Hk Fk. unfold db_get, get_kvdb. pose proof (open_db_unwrap _ _ _ _ _ _ Hw) as Hu.
  wstep. wstep. wstep. wstep. wstep. apply sure_scope_read. intros t h' s1 Hrd.
  pose proof (reading_db t h' s1 Hrd) as Hdb. destruct Hrd as (Hso & Hes & _ & Henv & _).
  wstep. wstep; [done|]. intros [rc v] s2 ([-> Ha] & _ & Hs). cbn in Ha, Hs. rewrite Hdb in Ha, Hs.
  destruct Ha as [Ha|Hf]; [|by destruct (Hs d eq_refl Fk)].
  assert (HD : forall j (Q : info -> heap -> lmdb -> Prop), (forall s', envs s' = envs s -> Q j h' s') ->
    wlp sure (scope_dtor (TxnScope (Some (d_env w)) (Some t) true true false) ;; mret j) h' s1 Q).
  { intros j Q HQ. wstep. apply sure_release; [done|]. intros s3 Hs3. wstep. apply HQ. congruence. }
  wstep. destruct (s_get (db_kc d) k (db_data d)) as [v'|].
  - injection Ha as -> ->. change (0 =? MDB_NOTFOUND) with false. wred. wstep.
    destruct (kv_decode V v' (length v')) as [x|u] eqn:Hdec; [|done].
    eapply wpm_pure; [done|]. wstep. apply HD. intros s3 Hs3. split_and!; try done. by intros x' [= <-].
  - subst rc. change (MDB_NOTFOUND =? MDB_NOTFOUND) with true. wstep. by apply HD.
Qed.

(** The cursor [exists] asks is on the database the lock sees. *)
Lemma sure_own_cursor t h1 s1 (Q : ptr -> heap -> lmdb -> Prop) :
  reading t h1 s1 ->
  (forall c cu h' s2, curs s2 !! c = Some cu -> cur_txn cu = t -> cur_dbi cu = d_dbi w ->
     txns s2 = txns s1 -> envs s2 = envs s1 -> h_env h' = h_env h1 -> h_txn h' = h_txn h1 ->
     h_db h' = <[i := set_cur (Some c) w]> (h_db h1) -> Q (Some c) h' s2) ->
  wlp sure (exists_cursor i w (TxnScope (Some (d_env w)) (Some t) true true false)) h1 s1 Q.
Proof.
  intros Hrd HQ. pose proof (reading_db t h1 s1 Hrd) as Hdb.
  destruct Hrd as ((_ & Hdbs & _) & Hes & Hcs & _ & x & Hx & Hxe & Hr & Hl & _).
  destruct Hw as (Hg & Hi & HK & HV). unfold exists_cursor. cbn [ts_created ts_txn].
  destruct (d_cur w) as [c|] eqn:Hc.
  - destruct (db_cur_alive _ _ _ _ _ _ _ (inv_curs _ _ _ _ _ _ HI) i w c Hi Hc) as (_ & cu & Hcu & Hro & Hdbi & _).
    rewrite <- Hcs in Hcu. wstep. wstep; [done|]. intros rc s2 (Ha & Hren & _).
    assert (rc = 0) as -> by (apply (Hren t x c cu); try done; rewrite Hdbi, Hdb; by eexists).
    destruct Ha as [(th & y & ch & cu' & [= <-] & [= <-] & Hy & Hcu' & _ & _ & _ & _ & ->)|[[Hf _] _]]; [|done].
    assert (cu' = cu) as -> by congruence. wstep.
    eapply HQ; [cbn; by rewrite lookup_insert_eq|done|done|done|done|done|done|].
    rewrite Hdbs. symmetry. apply insert_id. rewrite Hi. f_equal. destruct w; cbn in *. by subst.
  - wstep. wstep; [done|]. intros r s2 (Ha & _ & Hs).
    destruct Ha as [(th & y & c & [= <-] & Hy & _ & -> & Hcn & ->)|((Hf & _) & _)].
    + wstep. wstep. wstep. by eapply HQ; [cbn; by rewrite lookup_insert_eq|..].
    + destruct Hf. apply (Hs t); [done|]. rewrite Hdb. by eexists.
Qed.

Lemma s_find_mem kc dc k v l :
  match s_find (same_pair kc dc k v) l with
  | Some j => s_mem kc dc k v l = true /\ is_Some (l !! j)
  | None => s_mem kc dc k v l = false
  end.
Proof.
  induction l as [|p l IH]; cbn; [done|]. destruct (same_pair kc dc k v p); cbn; [by split; [|eexists]|].
  by destruct (s_find (same_pair kc dc k v) l).
Qed.

Definition kept (h' : heap) : Prop :=
  h_txn h' = h_txn h /\ same_handles (h_env h) (h_env h') /\
  exists w', h_db h' !! i = Some w' /\ key_type w' = K /\ value_type w' = V /\
    d_dbi w' = d_dbi w /\ d_env w' = d_env w.

Lemma sure_exists a b k v :
  kv_encode K a = Ok k -> kv_encode V b = Ok v -> key_size_ok k -> data_size_ok (db_dup d) v ->
  wlp sure (db_exists K V i a b None) h s (fun r h' s' => kept h' /\ envs s' = envs s /\
    js r = if db_dup d then JsReturn (v_bool (s_mem (db_kc d) (db_dc d) k v (db_data d)))
           else JsThrow (mdb_strerror MDB_INCOMPATIBLE)).
Proof.
  intros Hk Hv Fk Fv. unfold db_exists, get_kvdb. pose proof (open_db_unwrap _ _ _ _ _ _ Hw) as Hu.
  wstep. wstep. wstep. wstep. wstep. wstep. wstep. apply sure_scope_read. intros t h1 s1 Hrd.
  pose proof (reading_db t h1 s1 Hrd) as Hdb. wstep. apply sure_own_cursor; [done|].
  intros c cu h2 s2 Hcu Hct Hcd Hts Hes He2 Ht2 Hd2.
  destruct Hrd as ((Hso1 & Hso2 & _ & _ & Hsh) & Hes1 & _ & Henv & _).
  assert (HK : kept h2).
  { unfold kept. rewrite Ht2, He2, Hd2. split_and!; try done. exists (set_cur (Some c) w).
    rewrite lookup_insert_eq. destruct Hw as (_ & _ & ? & ?). by split_and!. }
  assert (txn_db s2 (cur_txn cu) (cur_dbi cu) = Some d) as Hdb2.
  { rewrite Hct, Hcd. unfold txn_db in *. by rewrite Hts. }
  assert (HD : forall j s3, envs s3 = envs s2 ->
    js j = (if db_dup d then JsReturn (v_bool (s_mem (db_kc d) (db_dc d) k v (db_data d)))
            else JsThrow (mdb_strerror MDB_INCOMPATIBLE)) ->
    wlp sure (scope_dtor (TxnScope (Some (d_env w)) (Some t) true true false) ;; mret j) h2 s3
      (fun r h' s' => kept h' /\ envs s' = envs s /\
         js r = if db_dup d then JsReturn (v_bool (s_mem (db_kc d) (db_dc d) k v (db_data d)))
                else JsThrow (mdb_strerror MDB_INCOMPATIBLE))).
  { intros j s3 Hs3 Hj. wstep. apply sure_release; [by rewrite He2|]. intros s4 Hs4. wstep.
    split_and!; [done|congruence|done]. }
  wstep. wstep; [done|]. intros [rc kd] s3 (Ha & _ & Hs).
  pose proof (cursor_get_moved _ _ _ _ _ _ _ Ha) as Hm.
  assert (envs s3 = envs s2) as He3 by (by destruct Hm as [->|(? & ? & ? & _ & _ & ->)]).
  specialize (Hs c cu d eq_refl Hcu Hdb2 (fun _ => Fk) (fun _ => Fv)). cbn in Hs. cbn [fst ts_created negb]. wred.
  wstep. wstep. wstep. pose proof (s_find_mem (db_kc d) (db_dc d) k v (db_data d)) as Hf.
  destruct (db_dup d); [destruct (s_find _ _) as [j|]; cbn in Hs|].
  - destruct Hf as [Hf Hj]. rewrite (Hs Hj). change (0 =? MDB_NOTFOUND) with false. wred. wstep.
    apply HD; [done|]. by rewrite Hf.
  - rewrite Hs. change (MDB_NOTFOUND =? MDB_NOTFOUND) with true. wstep. apply HD; [done|]. by rewrite Hf.
  - rewrite Hs. change (MDB_INCOMPATIBLE =? MDB_NOTFOUND) with false.
    change (MDB_INCOMPATIBLE =? 0) with false. wstep. by apply HD.
Qed.
End Calls.

(** ** Sequences of calls *)
Definition typed_data (K V : kv_type) (d : db_st) : Prop :=
  forall k v, (k, v) ∈ db_data d ->
    (exists a, kv_decode K k (length k) = Ok a) /\ (exists b, kv_decode V v (length v) = Ok b).

(** The database is kept sorted in the order of its types, and everything in
    it is of those types. *)
Record well_kept (K V : kv_type) (d : db_st) : Prop := {
  kept_order : db_typed K V d;
  kept_sorted : store_wf (db_kc d) (db_odc d) (db_data d);
  kept_types : typed_data K V d
}.

(** Arguments the types can store and give back. *)
Definition op_ok (K V : kv_type) (o : dbop) : Prop :=
  match o with
  | OPut a b => encodes K a /\ encodes V b /\ storable K a = true /\ storable V b = true
  | OGet a => encodes K a
  | ODel a b | OExists a b => encodes K a /\ encodes V b
  end.

(** Arguments of sizes LMDB supports. *)
Definition op_fits (K V : kv_type) (dup : bool) (o : dbop) : Prop :=
  match o with
  | OGet a => forall k, kv_encode K a = Ok k -> key_size_ok k
  | OPut a b | ODel a b | OExists a b =>
      (forall k, kv_encode K a = Ok k -> key_size_ok k) /\ (forall v, kv_encode V b = Ok v -> data_size_ok dup v)
  end.

Definition op_good (K V : kv_type) (dup : bool) (o : dbop) : Prop := op_ok K V o /\ op_fits K V dup o.

Fixpoint spec_all (K V : kv_type) (l : list dbop) (d : db_st) : res (list js_result * db_st) :=
  match l with
  | [] => Ok ([], d)
  | o :: l' =>
      r ← spec_db K V o d;
      rs ← spec_all K V l' (snd r);
      Ok (fst r :: fst rs, snd rs)
  end.

Fixpoint run_all (K V : kv_type) (i : nat) (l : list dbop) : lmeth (list js_result) :=
  match l with
  | [] => mret []
  | o :: l' =>
      r ← run_dbop K V i o;
      rs ← run_all K V i l';
      mret (js r :: rs)
  end.

Lemma db_after_del_in d k ov d' p : db_after_del d k ov = Some d' -> p ∈ db_data d' -> p ∈ db_data d.
Proof.
  unfold db_after_del. repeat case_match; intros; simplify_eq; cbn in *;
    unfold s_del, s_del_pair in *; by eapply list_elem_of_filter.
Qed.

Lemma decodes `{L : !V8Laws _} t v bs :
  kv_encode t v = Ok bs -> storable t v = true -> exists x, kv_decode t bs (length bs) = Ok x.
Proof.
  intros Hb Hs. destruct (kv_roundtrip_gen _ L t v bs [] Hb Hs) as (x & Hx & _). exists x.
  by rewrite app_nil_r in Hx.
Qed.

Lemma well_kept_put `{L : !V8Laws _} K V a b k v d :
  well_kept K V d -> kv_encode K a = Ok k -> kv_encode V b = Ok v ->
  storable K a = true -> storable V b = true -> well_kept K V (db_after_put d k v).
Proof.
  intros [[Hkc Hdc] Hs Ht] Hk Hv HsK HsV. split; [done| |].
  - pose proof (type_comparator_laws K) as KL. pose proof (type_comparator_laws V) as VL.
    assert (store_wf (db_kc d) (db_odc d) (s_put (db_kc d) (db_odc d) k v (db_data d))) as Hp; [|done].
    unfold db_odc in *. rewrite Hkc in *. destruct (db_dup d); [rewrite Hdc in * by done|];
      (apply s_put_wf; [done|done|split; cbn; eauto with kv|done]).
  - intros k' v' Hin. cbn in Hin. apply s_put_in in Hin as [[= -> ->]|Hin]; [|by apply Ht].
    split; by eapply decodes.
Qed.

Lemma well_kept_del K V k ov d d' : well_kept K V d -> db_after_del d k ov = Some d' -> well_kept K V d'.
Proof.
  intros [Ho Hs Ht] Hd. split; [| |intros k' v' Hin; apply Ht; by eapply db_after_del_in].
  - unfold db_after_del in Hd. by repeat case_match; simplify_eq.
  - unfold db_after_del, s_del, s_del_pair in Hd.
    assert (Hf : forall P `(!forall p, Decision (P p)), store_wf (db_kc d) (db_odc d) (filter P (db_data d)))
      by (intros; by apply filter_wf).
    repeat case_match; simplify_eq; apply Hf.
Qed.

(** The calls respect the discipline. *)
Definition op_of (K V : kv_type) (i : nat) (o : dbop) : op :=
  match o with
  | OPut a b => DbPut K V i a b None
  | OGet a => DbGet K V i a None
  | ODel a b => DbDel K V i a b None
  | OExists a b => DbExists K V i a b None
  end.

Lemma holds_disc g h s K V i d o :
  holds g h s K V i d -> typed_data K V d -> op_ok K V o -> disc g h s (op_of K V i o).
Proof.
  intros (HI & w & e & ex & Hw & Hh & Hn & He & Hd) Ht Ho.
  assert (may_write h w None) as Hm
    by (intros _ e' He' j tw t Hj Htw _; rewrite Hh in He'; simplify_eq; by apply (Hn j tw t)).
  destruct o as [a b|a|a b|a b]; cbn in *; exists w; split; try done.
  - destruct Ho as (? & ? & _). by split_and!.
  - split_and!; [done|done|]. intros e' ex' He' Hex' d' k v Hd'. assert (d' = d) as -> by congruence.
    destruct Hw as (_ & _ & <- & <-). apply Ht.
  - destruct Ho. by split_and!.
  - destruct Ho. split_and!; try done.
    intros _ e' He' j tw t x Hj Htw _ _ _. assert (e' = e) as -> by congruence. by apply (Hn j tw t).
Qed.

Lemma holds_commits g h s s' K V i w e ex d' :
  quiet g h s' -> open_db g h K V i w -> handle_of (h_env h) (d_env w) = Some e -> no_open_txn h e ->
  envs s !! e = Some ex -> commits s w e ex d' s' -> holds g h s' K V i d'.
Proof.
  intros HI Hw Hh Hn He Hc. split; [done|]. exists w, e. eexists. split_and!; try done.
  - rewrite Hc. by rewrite lookup_insert_eq.
  - cbn. by rewrite lookup_insert_eq.
Qed.

Lemma holds_kept g h s h' s' K V i w e ex d :
  quiet g h' s' -> kept h K V i w h' -> i ∈ g -> handle_of (h_env h) (d_env w) = Some e -> no_open_txn h e ->
  envs s !! e = Some ex -> env_dbs ex !! d_dbi w = Some d -> envs s' = envs s -> holds g h' s' K V i d.
Proof.
  intros HI (Ht & Hs & w' & Hi & HK & HV & Ed & Ee) Hg Hh Hn He Hd Es. split; [done|].
  exists w', e, ex. rewrite <- Hs, Ee, Es, Ed. split_and!; try done.
  intros j tw t. rewrite Ht. apply Hn.
Qed.

Lemma same_objects_kept g h h' K V i w : open_db g h K V i w -> same_objects h h' -> kept h K V i w h'.
Proof.
  intros (Hg & Hi & HK & HV) (Ht & Hd & _ & _ & Hs). split_and!; [done|done|]. exists w. by rewrite Hd.
Qed.

Lemma spec_db_total `{L : !V8Laws _} K V o d :
  well_kept K V d -> op_ok K V o -> exists r d', spec_db K V o d = Ok (r, d') /\ well_kept K V d'.
Proof.
  intros HW Ho. destruct o as [a b|a|a b|a b]; cbn in *.
  - destruct Ho as ([k Hk] & [v Hv] & HsK & HsV). rewrite Hk, Hv. do 2 eexists.
    split; [done|by eapply well_kept_put].
  - destruct Ho as [k Hk]. rewrite Hk. cbn. destruct (s_get _ _ _) as [v|] eqn:Hg; [|by do 2 eexists].
    destruct (s_get_in _ _ _ _ Hg) as [k' Hin]. destruct (kept_types _ _ _ HW k' v Hin) as [_ [x Hx]].
    rewrite Hx. by do 2 eexists.
  - destruct Ho as ([k Hk] & [v Hv]). rewrite Hk, Hv. cbn.
    destruct (db_after_del d k (Some v)) as [d'|] eqn:Hd; do 2 eexists; (split; [done|]); [|done].
    by eapply well_kept_del.
  - destruct Ho as ([k Hk] & [v Hv]). rewrite Hk, Hv. cbn. by do 2 eexists.
Qed.

Lemma db_after_del_dup d k ov d' : db_after_del d k ov = Some d' -> db_dup d' = db_dup d.
Proof. unfold db_after_del. repeat case_match; intros; by simplify_eq. Qed.

(** Whether a database has duplicates never changes. *)
Lemma spec_db_dup K V o d r d' : spec_db K V o d = Ok (r, d') -> db_dup d' = db_dup d.
Proof.
  destruct o as [a b|a|a b|a b]; cbn; destruct (kv_encode K a); cbn; try done; [|destruct (s_get _ _ _)| |]; try destruct (kv_encode V b); try destruct (kv_decode _ _ _); cbn; intros; simplify_eq; try done.
  destruct (db_after_del d _ _) eqn:E; simplify_eq; [|done]. by eapply db_after_del_dup.
Qed.

Lemma dbop_refines g h s K V i d o r d' :
  holds g h s K V i d -> well_kept K V d -> op_good K V (db_dup d) o -> spec_db K V o d = Ok (r, d') ->
  wpm LMDB_sure (fun _ => False) (run_dbop K V i o) h s (fun j h' s' => js j = r /\ holds g h' s' K V i d').
Proof.
  intros HH HW [Ho HF] Hr. pose proof (holds_disc g h s K V i d o HH (kept_types _ _ _ HW) Ho) as HD.
  destruct HH as (HI & w & e & ex & Hw & Hh & Hn & He & Hd). pose proof Hw as (Hg & _).
  assert (HS : wpm LMDB_sure (fun _ => False) (run_dbop K V i o) h s (fun _ h' s' => quiet g h' s')).
  { pose proof (op_safe_sure (op_of K V i o) g h s HI HD) as HS. by destruct o. }
  destruct o as [a b|a|a b|a b]; cbn in Ho, HF, Hr.
  - destruct Ho as ([k Hk] & [v Hv] & _). rewrite Hk, Hv in Hr. injection Hr as <- <-.
    eapply wpm_mono; [exact (wpm_wlp _ _ _ _ _ _ _ _ HS (sure_put g h s K V i w e ex d Hw Hh He Hd a b k v Hk Hv (proj1 HF k Hk) (proj2 HF v Hv)))|].
    intros j h' s' (HQ & Hj & -> & Hc). split; [done|]. by eapply holds_commits.
  - destruct Ho as [k Hk]. rewrite Hk in Hr. cbn in Hr.
    eapply wpm_mono; [exact (wpm_wlp _ _ _ _ _ _ _ _ HS (sure_get g h s K V i w e ex d HI Hw Hh Hn He Hd a k Hk (HF k Hk)))|].
    intros j h' s' (HQ & Hso & Hes & Hj).
    assert (holds g h' s' K V i d) by (eapply holds_kept; try done; by eapply same_objects_kept).
    destruct (s_get (db_kc d) k (db_data d)) as [v|]; [|by injection Hr as <- <-].
    destruct (kv_decode V v (length v)) as [x|u]; [|done]. injection Hr as <- <-. split; [by apply Hj|done].
  - destruct Ho as ([k Hk] & [v Hv]). rewrite Hk, Hv in Hr. cbn in Hr.
    eapply wpm_mono; [exact (wpm_wlp _ _ _ _ _ _ _ _ HS (sure_del g h s K V i w e ex d Hw Hh He Hd a b k v Hk Hv (proj1 HF k Hk) (proj2 HF v Hv)))|].
    intros j h' s' (HQ & -> & Hj).
    destruct (db_after_del d k (Some v)) as [d1|]; injection Hr as <- <-; destruct Hj as [Hj Hc]; (split; [done|]).
    + by eapply holds_commits.
    + eapply holds_kept; try done. by eapply same_objects_kept.
  - destruct Ho as ([k Hk] & [v Hv]). rewrite Hk, Hv in Hr. injection Hr as <- <-.
    eapply wpm_mono; [exact (wpm_wlp _ _ _ _ _ _ _ _ HS
                        (sure_exists g h s K V i w e ex d HI Hw Hh Hn He Hd a b k v Hk Hv (proj1 HF k Hk) (proj2 HF v Hv)))|].
    intros j h' s' (HQ & Hk' & Hes & Hj). split; [done|]. by eapply holds_kept.
Qed.

Lemma good_ok K V dup l : Forall (op_good K V dup) l -> Forall (op_ok K V) l.
Proof. intros Hl. eapply Forall_impl; [exact Hl|]. by intros o [? _]. Qed.

Lemma spec_all_total `{L : !V8Laws _} K V l d :
  well_kept K V d -> Forall (op_ok K V) l ->
  exists rs d', spec_all K V l d = Ok (rs, d') /\ well_kept K V d'.
Proof.
  intros HW Hl. revert d HW. induction Hl as [|o l Ho _ IH]; intros d HW; cbn; [by exists [], d|].
  destruct (spec_db_total K V o d HW Ho) as (r & d1 & -> & HW1). cbn.
  destruct (IH d1 HW1) as (rs & d' & -> & HW'). by exists (r :: rs), d'.
Qed.

Lemma dbops_refine `{L : !V8Laws _} l g h s K V i d rs d' :
  holds g h s K V i d -> well_kept K V d -> Forall (op_good K V (db_dup d)) l -> spec_all K V l d = Ok (rs, d') ->
  wpm LMDB_sure (fun _ => False) (run_all K V i l) h s (fun js h' s' => js = rs /\ holds g h' s' K V i d').
Proof.
  intros HH HW Hl. remember (db_dup d) as dup eqn:Hdup. revert h s d rs HH HW Hdup.
  induction Hl as [|o l Ho _ IH]; intros h s d rs HH HW Hdup Hs; cbn [spec_all run_all] in *.
  - injection Hs as <- <-. by wstep.
  - subst dup. destruct (spec_db_total K V o d HW (proj1 Ho)) as (r & d1 & Hr & HW1). rewrite Hr in Hs. cbn in Hs.
    destruct (spec_all K V l d1) as [[rs1 d2]|] eqn:Hs1; [|done]. injection Hs as <- <-.
    wstep. eapply wpm_mono; [exact (dbop_refines g h s K V i d o r d1 HH HW Ho Hr)|].
    intros j h1 s1 [<- HH1]. wstep.
    eapply wpm_mono; [exact (IH h1 s1 d1 rs1 HH1 HW1 (eq_sym (spec_db_dup _ _ _ _ _ _ Hr)) Hs1)|].
    intros js1 h2 s2 [-> HH2]. by wstep.
Qed.


(** ** Without duplicates: a finite map

    From encoded keys to encoded values, the order forgotten. *)
Definition as_map (d : db_st) : gmap bytes bytes := list_to_map (db_data d).

Definition map_db (K V : kv_type) (o : dbop) (m : gmap bytes bytes) : res (js_result * gmap bytes bytes) :=
  match o with
  | OPut a b =>
      k ← kv_encode K a; v ← kv_encode V b;
      Ok (JsReturn (v_bool true), <[k := v]> m)
  | OGet a =>
      k ← kv_encode K a;
      match m !! k with
      | Some v => x ← kv_decode V v (length v); Ok (JsReturn x, m)
      | None => Ok (JsReturn v_null, m)
      end
  | ODel a b =>
      k ← kv_encode K a; _ ← kv_encode V b;
      Ok (JsReturn (v_bool (bool_decide (is_Some (m !! k)))), delete k m)
  | OExists a b =>
      _ ← kv_encode K a; _ ← kv_encode V b;
      Ok (JsThrow (mdb_strerror MDB_INCOMPATIBLE), m)
  end.

Fixpoint map_all (K V : kv_type) (l : list dbop) (m : gmap bytes bytes) :
    res (list js_result * gmap bytes bytes) :=
  match l with
  | [] => Ok ([], m)
  | o :: l' =>
      r ← map_db K V o m;
      rs ← map_all K V l' (snd r);
      Ok (fst r :: fst rs, snd rs)
  end.

Lemma spec_db_map K V o d r d' :
  well_kept K V d -> db_dup d = false -> op_ok K V o -> spec_db K V o d = Ok (r, d') ->
  map_db K V o (as_map d) = Ok (r, as_map d') /\ db_dup d' = false.
Proof.
  intros [[Hkc _] Hs _] Hdup Ho. pose proof (type_comparator_laws K) as KL. rewrite <- Hkc in KL.
  pose proof (store_wf_keys _ _ _ Hs) as Hks.
  assert (Hdom : forall a k, kv_encode K a = Ok k -> dom (db_kc d) k = true)
    by (rewrite Hkc; eauto with kv).
  destruct o as [a b|a|a b|a b]; cbn in *.
  - destruct Ho as ([k Hk] & [v Hv] & _). rewrite Hk, Hv. intros [= <- <-]. split; [|done].
    unfold as_map. cbn. unfold db_odc. rewrite Hdup. rewrite s_put_map by eauto. done.
  - destruct Ho as [k Hk]. rewrite Hk. cbn. unfold as_map. rewrite <- (s_get_map (db_kc d)) by eauto.
    destruct (s_get _ _ _) as [v|]; [|by intros [= <- <-]].
    destruct (kv_decode V v (length v)); [|done]. by intros [= <- <-].
  - destruct Ho as ([k Hk] & [v Hv]). rewrite Hk, Hv. cbn. unfold db_after_del. rewrite Hdup.
    unfold as_map. rewrite <- (s_get_map (db_kc d)) by eauto.
    destruct (s_get _ _ _) as [v'|] eqn:Hg; intros [= <- <-]; (split; [|done]); cbn.
    + by rewrite <- (s_del_map (db_kc d)) by eauto.
    + rewrite delete_id; [done|].
      rewrite <- (s_get_map (db_kc d)) by eauto. done.
  - destruct Ho as ([k Hk] & [v Hv]). rewrite Hk, Hv. rewrite Hdup. by intros [= <- <-].
Qed.

Lemma spec_all_map `{L : !V8Laws _} K V l d rs d' :
  well_kept K V d -> db_dup d = false -> Forall (op_ok K V) l -> spec_all K V l d = Ok (rs, d') ->
  map_all K V l (as_map d) = Ok (rs, as_map d').
Proof.
  intros HW Hdup Hl. revert d rs HW Hdup.
  induction Hl as [|o l Ho _ IH]; intros d rs HW Hdup Hs; cbn in *; [by injection Hs as <- <-|].
  destruct (spec_db_total K V o d HW Ho) as (r & d1 & Hr & HW1). rewrite Hr in Hs. cbn in Hs.
  destruct (spec_all K V l d1) as [[rs1 d2]|] eqn:Hs1; [|done]. injection Hs as <- <-.
  destruct (spec_db_map K V o d r d1 HW Hdup Ho Hr) as [-> Hdup1]. cbn. by rewrite (IH d1 rs1).
Qed.

(** A database opened without duplicates is a finite map from encoded keys
    to encoded values: on an LMDB that does not run out of anything a sequence
    of calls without transactions gives JavaScript the answers of insertions,
    lookups and deletions in that map, and the map is what is committed. *)
Theorem db_refines_map `{L : !V8Laws _} l g h s K V i d :
  holds g h s K V i d -> well_kept K V d -> db_dup d = false -> Forall (op_good K V false) l ->
  exists rs m, map_all K V l (as_map d) = Ok (rs, m) /\
    wpm LMDB_sure (fun _ => False) (run_all K V i l) h s
      (fun js h' s' => js = rs /\ exists d', holds g h' s' K V i d' /\ as_map d' = m).
Proof.
  intros HH HW Hdup Hl. pose proof (good_ok _ _ _ _ Hl) as Hl'.
  destruct (spec_all_total K V l d HW Hl') as (rs & d' & Hs & _).
  exists rs, (as_map d'). split; [by apply spec_all_map|]. rewrite <- Hdup in Hl.
  eapply wpm_mono; [exact (dbops_refine l g h s K V i d rs d' HH HW Hl Hs)|].
  intros js h' s' [-> HH']. split; [done|]. by exists d'.
Qed.
End Spec.

(** The database of the concrete run, with nothing in it yet. *)
Lemma demo3_holds : exists d,
  holds {[0%nat]} (fst demo3) (fst (snd demo3)) (Num I32) Str 0 d /\ @well_kept SimpleV8 (Num I32) Str d /\ db_dup d = false.
Proof.
  assert (Hv : envs (fst (snd demo3)) !! 0%nat ≫=
                 (fun ex => (fun d => (db_dup d, db_data d)) <$> env_dbs ex !! 2%nat) = Some (false, []))
    by (by vm_compute).
  destruct (envs (fst (snd demo3)) !! 0%nat) as [ex|] eqn:He; [|done]. cbn in Hv.
  destruct (env_dbs ex !! 2%nat) as [d|] eqn:Hd; [|done]. injection Hv as Hdup Hdata.
  assert (HI : quiet {[0%nat]} (fst demo3) (fst (snd demo3)))
    by (by apply (@reach_quiet SimpleV8 demo_libc), demo3_reach).
  assert (Hw : h_db (fst demo3) !! 0%nat = Some (Db (Num I32) Str 2 0 None)) by (by vm_compute).
  assert (Hh : handle_of (h_env (fst demo3)) 0 = Some 0%nat) by (by vm_compute).
  exists d. split_and!; [|split|done].
  - split; [done|]. exists (Db (Num I32) Str 2 0 None), 0%nat, ex.
    split_and!; [split_and!; [set_solver|done|done|done]|done| |done|done].
    intros j w t. vm_compute. by destruct j.
  - pose proof (db_env_view _ _ _ _ _ (inv_dbs _ _ _ _ _ _ HI) 0%nat _ 0%nat ex ltac:(set_solver) Hw Hh He) as Hv.
    unfold view_has in Hv. cbn in Hv. by rewrite Hd in Hv.
  - rewrite Hdata. split; constructor.
  - intros k v. rewrite Hdata. by intros ?%elem_of_nil.
Qed.

Definition demo_ops : list (@dbop SimpleV8) :=
  [@OPut SimpleV8 (SNum 7) (SStr (lit "seven")); @OGet SimpleV8 (SNum 7);
   @ODel SimpleV8 (SNum 7) (SStr []); @OGet SimpleV8 (SNum 7)].

Lemma demo_ops_good : Forall (@op_good SimpleV8 (Num I32) Str false) demo_ops.
Proof.
  assert (HK : forall k, @kv_encode SimpleV8 (Num I32) (SNum 7) = Ok k -> key_size_ok k)
    by (intros k [= <-]; split; vm_compute; lia).
  assert (HV : forall b v, b ∈ [lit "seven"; []] -> @kv_encode SimpleV8 Str (SStr b) = Ok v -> data_size_ok false v).
  { intros b v [->|[->|[]%elem_of_nil]%elem_of_cons]%elem_of_cons [= <-]; by vm_compute. }
  unfold demo_ops. rewrite !Forall_cons. split_and!; try apply Forall_nil; split; cbn [op_ok op_fits]; split_and?; try done; try (by eexists);
    intros v; apply HV; set_solver.
Qed.


Lemma db_refines_map_witness : exists d rs m,
  @map_all SimpleV8 demo_libc (Num I32) Str demo_ops (as_map d) = Ok (rs, m) /\
  wpm LMDB_sure (fun _ => False) (@run_all SimpleV8 demo_libc (Num I32) Str 0 demo_ops) (fst demo3) (fst (snd demo3))
    (fun js h' s' => js = rs /\ exists d', holds {[0%nat]} h' s' (Num I32) Str 0 d' /\ as_map d' = m).
Proof.
  destruct demo3_holds as (d & HH & HW & Hd).
  destruct (@db_refines_map SimpleV8 demo_libc SimpleV8_laws
    demo_ops {[0%nat]} (fst demo3) (fst (snd demo3)) (Num I32) Str 0 d HH HW Hd demo_ops_good) as (rs & m & Hx).
  exists d, rs, m. exact Hx.
Defined.
