(* ===== verification/LmdbBatch.v ===== *)
(** * Transactions as batches

    What JavaScript gets from a write transaction of src/src/lmdb: the methods
    of a database given a [txn] object work on the transaction's own view, which
    nobody else sees, and [commit] or [abort] decide about all of it. *)
From S2P Require Import Prelude Nan KvTypes Prog Store LmdbApi LmdbEngine LmdbObjects LmdbEnv LmdbTxn.
From S2P Require Import LmdbDb LmdbCursor LmdbInv LmdbSystem LmdbSafety LmdbSafetyDb LmdbSafetyRun.
From S2P Require Import LmdbSpec.

Section Batch.
Context `{V8} `{Libc}.

Definition run_in (K V : kv_type) (i j : nat) (o : dbop) : lmeth info :=
  match o with
  | OPut a b => db_put K V i a b (Some j)
  | OGet a => db_get K V i a (Some j)
  | ODel a b => db_del K V i a b (Some j)
  | OExists a b => db_exists K V i a b (Some j)
  end.

Fixpoint run_in_all (K V : kv_type) (i j : nat) (l : list dbop) : lmeth (list js_result) :=
  match l with
  | [] => mret []
  | o :: l' =>
      r ← run_in K V i j o;
      rs ← run_in_all K V i j l';
      mret (js r :: rs)
  end.

(** A transaction [j] is begun on environment [eo], used, and ended. *)
Definition run_batch (K V : kv_type) (eo i j : nat) (ro : value) (l : list dbop) (commit : bool) :
    lmeth (list js_result) :=
  txn_ctor j eo ro ;;
  rs ← run_in_all K V i j l;
  (if commit then txn_commit j else txn_abort j) ;;
  mret rs.

(** ** One call inside the transaction *)
Section InTxn.
Context (g : gset nat) (h : heap) (s : lmdb) (K V : kv_type) (i j : nat) (w : db) (tw : txn) (t : nat)
  (x : txn_st) (d : db_st).
Hypothesis HI : quiet g h s.
Hypothesis Hw : open_db g h K V i w.
Hypothesis Htw : h_txn h !! j = Some tw.
Hypothesis Ht : t_txn tw = Some t.
Hypothesis Hx : txns s !! t = Some x.
Hypothesis Hr : txn_ro x = false.
Hypothesis Hd : txn_dbs x !! d_dbi w = Some d.

(** The transaction's view has become [d'], nothing is committed. *)
Definition view_is (d' : db_st) (s' : lmdb) : Prop :=
  envs s' = envs s /\
  (exists x', txns s' !! t = Some x' /\ txn_env x' = txn_env x /\ txn_ro x' = false /\
     txn_dbs x' !! d_dbi w = Some d') /\
  (no_cursor_in s t -> no_cursor_in s' t).

Lemma in_writable : writable s t (d_dbi w) = Some (x, d).
Proof. unfold writable. rewrite Hx. cbn. by rewrite Hr, Hd. Qed.

Lemma in_live : txn_live x = true.
Proof. by apply (txn_env_open _ _ _ _ _ _ (inv_txns _ _ _ _ _ _ HI) t x). Qed.

Lemma in_txn_db : txn_db s t (d_dbi w) = Some d.
Proof. unfold txn_db. rewrite Hx. cbn. by rewrite in_live, Hd. Qed.

Lemma updated_view d' s' : txn_updated s t x (d_dbi w) d' s' -> view_is d' s'.
Proof.
  intros (He & Et & Hc). split_and!; [done| |].
  - eexists. rewrite Et, lookup_insert_eq. split_and!; [done|done|done|]. cbn. apply lookup_insert_eq.
  - intros Hn c cu Hcu. specialize (Hc c). rewrite Hcu in Hc.
    destruct (curs s !! c) as [cu'|] eqn:Hcu'; [|done]. destruct Hc as (p & -> & _). by apply (Hn c cu').
Qed.

Lemma same_view s' : envs s' = envs s -> txns s' = txns s -> curs s' = curs s -> view_is d s'.
Proof.
  intros He Et Ec. unfold view_is, no_cursor_in. rewrite He, Et, Ec. split_and!; [done| |done]. by exists x.
Qed.

Lemma in_put a b k v :
  kv_encode K a = Ok k -> kv_encode V b = Ok v -> key_size_ok k -> data_size_ok (db_dup d) v ->
  wlp sure (db_put K V i a b (Some j)) h s (fun r h' s' =>
    h' = h /\ js r = JsReturn (v_bool true) /\ view_is (db_after_put d k v) s').
Proof.
  intros Hk Hv Fk Fv. unfold db_put, get_kvdb. pose proof (open_db_unwrap _ _ _ _ _ _ Hw) as Hu.
  destruct (open_db_env _ _ _ _ _ _ _ _ _ _ HI Hw) as [ew Hew].
  do 9 wstep. unfold scope_write. wstep. wstep. wstep. wstep. wred. cbn [ts_txn]. rewrite Ht.
  wstep; [done|]. intros rc s2 (Ha & _ & Hs). cbn in Ha, Hs.
  rewrite in_writable in Ha. cbn in Ha.
  destruct Ha as [[-> Hup]|[Hf _]]; [|by destruct (Hs t _ _ eq_refl in_writable Fk Fv)].
  wred. wstep. unfold scope_dtor. cbn [scope_commit ts_created]. wred. wstep. wstep.
  split_and!; [done|done|]. by apply updated_view.
Qed.

Lemma in_del a b k v :
  kv_encode K a = Ok k -> kv_encode V b = Ok v -> key_size_ok k -> data_size_ok (db_dup d) v ->
  wlp sure (db_del K V i a b (Some j)) h s (fun r h' s' => h' = h /\
    match db_after_del d k (Some v) with
    | Some d' => js r = JsReturn (v_bool true) /\ view_is d' s'
    | None => js r = JsReturn (v_bool false) /\ view_is d s'
    end).
Proof.
  intros Hk Hv Fk Fv. unfold db_del, get_kvdb. pose proof (open_db_unwrap _ _ _ _ _ _ Hw) as Hu.
  destruct (open_db_env _ _ _ _ _ _ _ _ _ _ HI Hw) as [ew Hew].
  do 9 wstep. unfold scope_write. wstep. wstep. wstep. wstep. cbn [ts_txn]. rewrite Ht.
  wstep; [done|]. intros rc s2 (Ha & _ & Hs). cbn in Ha, Hs.
  rewrite in_writable in Ha. cbn in Ha.
  destruct Ha as [Ha|[Hf _]]; [|destruct (Hs t _ _ eq_refl in_writable Fk); [by intros ? [= <-]|done]].
  destruct (db_after_del d k (Some v)) as [d'|].
  - destruct Ha as [-> Hup]. change (0 =? MDB_NOTFOUND) with false. wred. wstep.
    unfold scope_dtor. cbn [scope_commit ts_created]. wred. wstep. wstep.
    split_and!; [done|done|]. by apply updated_view.
  - destruct Ha as [-> ->]. change (MDB_NOTFOUND =? MDB_NOTFOUND) with true. wstep.
    unfold scope_dtor. cbn [ts_created]. wred. wstep. wstep. split_and!; [done|done|]. by apply same_view.
Qed.

Lemma in_get a k :
  kv_encode K a = Ok k -> key_size_ok k ->
  wlp sure (db_get K V i a (Some j)) h s (fun r h' s' => h' = h /\ view_is d s' /\
    match s_get (db_kc d) k (db_data d) with
    | Some v => forall y, kv_decode V v (length v) = Ok y -> js r = JsReturn y
    | None => js r = JsReturn v_null
    end).
Proof.
  intros Hk Fk. unfold db_get, get_kvdb. pose proof (open_db_unwrap _ _ _ _ _ _ Hw) as Hu.
  do 5 wstep. unfold scope_read. wstep. wstep. wstep. wstep. cbn [ts_txn]. rewrite Ht.
  wstep; [done|]. intros [rc v] s2 ([-> Ha] & _ & Hs). cbn in Ha, Hs. rewrite in_txn_db in Ha, Hs.
  destruct Ha as [Ha|Hf]; [|by destruct (Hs d eq_refl Fk)].
  assert (HV : view_is d s) by (by apply same_view). unfold scope_dtor. cbn [ts_created]. wred. wstep.
  destruct (s_get (db_kc d) k (db_data d)) as [v'|].
  - injection Ha as -> ->. change (0 =? MDB_NOTFOUND) with false. wred. wstep.
    destruct (kv_decode V v' (length v')) as [y|u] eqn:Hdec; [|done].
    eapply wpm_pure; [done|]. wstep. wstep. wstep. wstep. split_and!; try done. by intros y' [= <-].
  - subst rc. change (MDB_NOTFOUND =? MDB_NOTFOUND) with true. wstep. wstep. wstep. wstep. by split_and!.
Qed.

(** The cursor [exists] opens in the transaction is gone when it returns. *)
Lemma temp_cursor c p q :
  curs s !! c = None -> forall s', s' = del_cur c (upd_cur c p (upd_cur c q s)) -> view_is d s'.
Proof.
  intros Hc s' ->. apply same_view; [done|done|]. cbn. rewrite insert_insert_eq. by apply delete_insert_id.
Qed.

Lemma in_exists a b k v :
  kv_encode K a = Ok k -> kv_encode V b = Ok v -> key_size_ok k -> data_size_ok (db_dup d) v ->
  wlp sure (db_exists K V i a b (Some j)) h s (fun r h' s' => h' = h /\ view_is d s' /\
    js r = if db_dup d then JsReturn (v_bool (s_mem (db_kc d) (db_dc d) k v (db_data d)))
           else JsThrow (mdb_strerror MDB_INCOMPATIBLE)).
Proof.
  intros Hk Hv Fk Fv. unfold db_exists, get_kvdb. pose proof (open_db_unwrap _ _ _ _ _ _ Hw) as Hu.
  do 7 wstep. unfold scope_read. wstep. wstep. wstep. wstep. unfold exists_cursor. cbn [ts_created ts_txn].
  rewrite Ht. wstep. wstep; [done|]. intros r s1 (Ha & _ & Hs).
  destruct Ha as [(th & y & c & [= <-] & Hy & _ & -> & Hcn & ->)|((Hf & _) & _)];
    [|destruct Hf; apply (Hs t); [done|]; rewrite in_txn_db; by eexists].
  assert (y = x) as -> by congruence. wstep. cbn [snd]. wstep. wstep; [done|].
  intros [rc kd] s3 (Ha & _ & Hs3).
  set (cu := MkCur (txn_env x) t (txn_ro x) false (d_dbi w) None) in *.
  assert (curs (upd_cur c cu s) !! c = Some cu) as Hcu by (cbn; apply lookup_insert_eq).
  assert (exists p, s3 = upd_cur c p (upd_cur c cu s)) as [p ->].
  { destruct (cursor_get_moved _ _ _ _ _ _ _ Ha) as [->|(c' & cu' & p & [= <-] & _ & ->)]; [|by eexists].
    exists cu. unfold upd_cur at 2. cbn. by rewrite insert_insert_eq. }
  specialize (Hs3 c cu d eq_refl Hcu in_txn_db (fun _ => Fk) (fun _ => Fv)). cbn in Hs3. cbn [fst]. wred. wstep. wstep; [done|].
  intros [] s4 (Hs4 & _). pose proof (temp_cursor c _ _ Hcn s4 Hs4) as HV.
  unfold scope_dtor. cbn [ts_created]. wred. wstep.
  pose proof (s_find_mem (db_kc d) (db_dc d) k v (db_data d)) as Hf.
  destruct (db_dup d); [destruct (s_find _ _) as [n|]; cbn in Hs3|].
  - destruct Hf as [Hf Hn]. rewrite (Hs3 Hn). change (0 =? MDB_NOTFOUND) with false. wred.
    wstep. wstep. wstep. wstep. by rewrite Hf.
  - rewrite Hs3. change (MDB_NOTFOUND =? MDB_NOTFOUND) with true. wstep. wstep. wstep. wstep. by rewrite Hf.
  - rewrite Hs3. change (MDB_INCOMPATIBLE =? MDB_NOTFOUND) with false.
    change (MDB_INCOMPATIBLE =? 0) with false. wstep. wstep. wstep. by wstep.
Qed.
End InTxn.

(** ** The whole transaction *)

(** Database [i] between two calls while [j] is the only transaction object
    open on its environment: [d] is committed, [v] is what [j] sees. *)
Definition batching (g : gset nat) (h : heap) (s : lmdb) (K V : kv_type) (i j : nat) (d v : db_st) : Prop :=
  quiet g h s /\ exists w e ex tw t x,
    open_db g h K V i w /\ handle_of (h_env h) (d_env w) = Some e /\
    h_txn h !! j = Some tw /\ t_txn tw = Some t /\ t_env tw = Some e /\
    (forall j' w' t', j' <> j -> h_txn h !! j' = Some w' -> t_txn w' = Some t' -> t_env w' <> Some e) /\
    envs s !! e = Some ex /\ env_dbs ex !! d_dbi w = Some d /\
    txns s !! t = Some x /\ txn_env x = e /\ txn_ro x = false /\ txn_dbs x !! d_dbi w = Some v /\
    no_cursor_in s t.

Lemma batch_begin g h s K V eo i j ro d :
  holds g h s K V i d -> (forall w, h_db h !! i = Some w -> d_env w = eo) ->
  h_txn h !! j = None -> BooleanValue ro = false ->
  wpm LMDB_sure (fun _ => False) (txn_ctor j eo ro) h s (fun _ h' s' => batching g h' s' K V i j d d).
Proof.
  intros (HI & w & e & ex & Hw & Hh & Hn & He & Hd) Heo Hj Hro.
  rewrite <- (Heo w) by apply Hw. destruct (quiet_db _ _ _ _ _ _ _ HI Hw) as (ew & e' & ex' & Hew & Hewe & Hh' & He' & Ho).
  assert (e' = e) as -> by congruence. assert (ex' = ex) as -> by congruence.
  assert (HD : disc g h s (TxnNew j (d_env w) ro)).
  { split; [done|]. exists e, ex. split; [by split_and!|]. intros _ j' w' t' Hj' Ht' _. by apply (Hn j' w' t'). }
  eapply wpm_mono; [eapply (wpm_wlp _ _ _ _ _ _ _ (fun _ h' s' => exists t, txns s !! t = None /\
     h' = up_txn <[j := Txn false (Some t) (Some e)]> h /\ s' = upd_txn t (begun e false ex) s)
     (op_safe_sure (TxnNew j (d_env w) ro) g h s HI HD))|].
  - cbn [exec_op]. unfold txn_ctor. wstep. wstep. wstep. cbn [t_env t_readonly]. rewrite Hro, Hewe.
    wstep; [done|]. intros r s' ([(t & eh & exh & -> & [= <-] & Hexh & Ht & _ & ->)|(Hf & _)] & _ & Hs).
    + assert (exh = ex) as -> by congruence. cbn. wstep. wstep. wstep. by exists t.
    + destruct Hf. by apply (Hs e).
  - intros r h' s' (HQ & t & Ht & -> & ->). split; [exact HQ|].
    exists w, e, ex. do 3 eexists. split_and!; try done; cbn.
    + apply lookup_insert_eq.
    + done.
    + done.
    + intros j' w' t' Hne. rewrite lookup_insert_ne by done. apply Hn.
    + apply lookup_insert_eq.
    + done.
    + done.
    + done.
    + exact (fresh_no_cursor g h s t HI Ht).
Qed.

Lemma batch_disc g h s K V i j d v o :
  batching g h s K V i j d v -> typed_data K V v -> op_ok K V o ->
  disc g h s (match o with
              | OPut a b => DbPut K V i a b (Some j)
              | OGet a => DbGet K V i a (Some j)
              | ODel a b => DbDel K V i a b (Some j)
              | OExists a b => DbExists K V i a b (Some j)
              end).
Proof.
  intros (HI & w & e & ex & tw & t & x & Hw & Hh & Htw & Ht & Hte & _ & _ & _ & Hx & _ & _ & Hv & _) HT Ho.
  assert (txn_arg h w (Some j)) as Ha by (intros j' [= <-]; exists tw; split; [done|]; intros; congruence).
  destruct o as [a b|a|a b|a b]; cbn in *; exists w; split; try done.
  - destruct Ho as (? & ? & _). by split_and!.
  - split_and!; [done|done|]. intros tw' t' x' Htw' Ht' Hx' d' k u Hd'.
    assert (d' = v) as -> by congruence. destruct Hw as (_ & _ & <- & <-). apply HT.
  - destruct Ho. by split_and!.
  - destruct Ho. by split_and!.
Qed.

Lemma batch_step g h s K V i j d v o r v' :
  batching g h s K V i j d v -> well_kept K V v -> op_good K V (db_dup v) o -> spec_db K V o v = Ok (r, v') ->
  wpm LMDB_sure (fun _ => False) (run_in K V i j o) h s
    (fun q h' s' => js q = r /\ batching g h' s' K V i j d v').
Proof.
  intros HB HW [Ho HF] Hr. pose proof (batch_disc _ _ _ _ _ _ _ _ _ _ HB (kept_types _ _ _ HW) Ho) as HD.
  destruct HB as (HI & w & e & ex & tw & t & x & Hw & Hh & Htw & Ht & Hte & Hn & He & Hd & Hx & Hxe & Hro & Hv & Hnc).
  pose proof (op_safe_sure _ _ _ _ HI HD) as HS. pose proof Hw as (Hg & _).
  assert (HE : forall s', quiet g h s' -> view_is s w t x v' s' -> batching g h s' K V i j d v').
  { intros s' HQ (Ee & (x' & Hx' & Hxe' & Hro' & Hv') & Hc). split; [done|].
    exists w, e, ex, tw, t, x'. rewrite Ee. split_and!; try done; [congruence|by apply Hc]. }
  destruct o as [a b|a|a b|a b]; cbn in Ho, HF, Hr, HD.
  - destruct Ho as ([k Hk] & [u Hu] & _). rewrite Hk, Hu in Hr. injection Hr as <- <-.
    eapply wpm_mono; [exact (wpm_wlp _ _ _ _ _ _ _ _ HS (in_put g h s K V i j w tw t x v HI Hw Htw Ht Hx Hro Hv a b k u Hk Hu (proj1 HF k Hk) (proj2 HF u Hu)))|].
    intros q h' s' (HQ & -> & Hj & HV). split; [done|]. by apply HE.
  - destruct Ho as [k Hk]. rewrite Hk in Hr. cbn in Hr.
    eapply wpm_mono; [exact (wpm_wlp _ _ _ _ _ _ _ _ HS (in_get g h s K V i j w tw t x v HI Hw Htw Ht Hx Hro Hv a k Hk (HF k Hk)))|].
    intros q h' s' (HQ & -> & HV & Hj).
    destruct (s_get (db_kc v) k (db_data v)) as [u|]; [|injection Hr as <- <-; split; [done|by apply HE]].
    destruct (kv_decode V u (length u)) as [y|]; [|done]. injection Hr as <- <-.
    split; [by apply Hj|by apply HE].
  - destruct Ho as ([k Hk] & [u Hu]). rewrite Hk, Hu in Hr. cbn in Hr.
    eapply wpm_mono; [exact (wpm_wlp _ _ _ _ _ _ _ _ HS (in_del g h s K V i j w tw t x v HI Hw Htw Ht Hx Hro Hv a b k u Hk Hu (proj1 HF k Hk) (proj2 HF u Hu)))|].
    intros q h' s' (HQ & -> & Hj).
    destruct (db_after_del v k (Some u)); injection Hr as <- <-; destruct Hj as [Hj HV];
      (split; [done|by apply HE]).
  - destruct Ho as ([k Hk] & [u Hu]). rewrite Hk, Hu in Hr. injection Hr as <- <-.
    eapply wpm_mono; [exact (wpm_wlp _ _ _ _ _ _ _ _ HS (in_exists g h s K V i j w tw t x v HI Hw Htw Ht Hx Hro Hv a b k u Hk Hu (proj1 HF k Hk) (proj2 HF u Hu)))|].
    intros q h' s' (HQ & -> & HV & Hj). split; [done|by apply HE].
Qed.

Lemma batch_steps `{L : !V8Laws _} l g h s K V i j d v rs v' :
  batching g h s K V i j d v -> well_kept K V v -> Forall (op_good K V (db_dup v)) l -> spec_all K V l v = Ok (rs, v') ->
  wpm LMDB_sure (fun _ => False) (run_in_all K V i j l) h s
    (fun qs h' s' => qs = rs /\ batching g h' s' K V i j d v').
Proof.
  intros HB HW Hl. remember (db_dup v) as dup eqn:Hdup. revert h s v rs HB HW Hdup.
  induction Hl as [|o l Ho _ IH]; intros h s v rs HB HW Hdup Hs; cbn [spec_all run_in_all] in *.
  - injection Hs as <- <-. by wstep.
  - subst dup. destruct (spec_db_total K V o v HW (proj1 Ho)) as (r & d1 & Hr & HW1). rewrite Hr in Hs. cbn in Hs.
    destruct (spec_all K V l d1) as [[rs1 d2]|] eqn:Hs1; [|done]. injection Hs as <- <-.
    wstep. eapply wpm_mono; [exact (batch_step g h s K V i j d v o r d1 HB HW Ho Hr)|].
    intros q h1 s1 [<- HH1]. wstep. eapply wpm_mono; [exact (IH h1 s1 d1 rs1 HH1 HW1 (eq_sym (spec_db_dup _ _ _ _ _ _ Hr)) Hs1)|].
    intros js1 h2 s2 [-> HH2]. by wstep.
Qed.

Lemma batch_end (commit : bool) g h s K V i j d v :
  batching g h s K V i j d v ->
  wpm LMDB_sure (fun _ => False) (if commit then txn_commit j else txn_abort j) h s
    (fun q h' s' => js q = JsReturn v_undefined /\ holds g h' s' K V i (if commit then v else d)).
Proof.
  intros (HI & w & e & ex & tw & t & x & Hw & Hh & Htw & Ht & Hte & Hn & He & Hd & Hx & Hxe & Hro & Hv & Hnc).
  assert (HC : disc g h s (if commit then TxnCommit j else TxnAbort j)).
  { assert (exists w, h_txn h !! j = Some w /\ forall t, t_txn w = Some t -> cursors_closed h s t);
      [|by destruct commit].
    exists tw. split; [done|]. intros t' Ht' k cw c cu _ _ Hcu. assert (t' = t) as -> by congruence.
    by apply (Hnc c cu). }
  pose proof (op_safe_sure _ _ _ _ HI HC) as HS.
  assert (HF : forall s', quiet g (up_txn <[j := set_txn None tw]> h) s' -> forall ex' d', envs s' !! e = Some ex' ->
    env_dbs ex' !! d_dbi w = Some d' -> holds g (up_txn <[j := set_txn None tw]> h) s' K V i d').
  { intros s' HQ ex' d' He' Hd'. split; [done|]. exists w, e, ex'. split_and!; try done.
    intros j' w' t'. cbn. destruct (decide (j' = j)) as [->|Hne]; [rewrite lookup_insert_eq; by intros [= <-]|].
    rewrite lookup_insert_ne by done. by apply Hn. }
  destruct commit; (eapply wpm_mono; [eapply (wpm_wlp _ _ _ _ _ _ _ (fun q h' s' => js q = JsReturn v_undefined /\
     h' = up_txn <[j := set_txn None tw]> h /\ exists ex', envs s' !! e = Some ex' /\ env_dbs ex' !! d_dbi w = Some _) HS)|
     intros q h' s' (HQ & Hq & -> & ex' & He' & Hd'); split; [done|by eapply HF]]); cbn [exec_op].
  - unfold txn_commit. wstep. wstep. rewrite Ht. wstep. wstep; [done|].
    intros rc s' ((y & Hy & Ha) & _ & Hs). assert (y = x) as -> by congruence. rewrite Hro in Ha.
    assert (rc = 0) as -> by (apply (Hs t x); [done|done|]; rewrite Hxe; by exists ex).
    destruct Ha as [(_ & ex' & Hex' & ->)|[? _]]; [|done]. wstep. wstep. wred. wstep. split_and!; [done|done|].
    eexists. cbn. rewrite Hxe. split; [apply lookup_insert_eq|exact Hv].
  - unfold txn_abort. wstep. wstep. rewrite Ht. wstep. wstep; [done|].
    intros [] s' ((y & Hy & ->) & _). wstep. wstep. wstep. split_and!; [done|done|]. by exists ex.
Qed.

End Batch.

