(* ===== verification/LmdbErrors.v ===== *)
(** * Failures of the LMDB binding

    What JavaScript sees when LMDB fails or an object is already closed, on an
    LMDB that may fail at any call, and three places where the code does not
    do what its caller can expect. *)
From S2P Require Import Prelude Nan KvTypes Prog Store LmdbApi LmdbEngine LmdbObjects LmdbEnv LmdbTxn.
From S2P Require Import LmdbDb LmdbCursor LmdbInv LmdbSystem LmdbSafety LmdbSafetyDb LmdbSafetyRun.
From S2P Require Import LmdbSpec.

Section Failures.
Context `{V8} `{Libc}.

Definition is_write (o : dbop) : bool :=
  match o with OPut _ _ | ODel _ _ => true | _ => false end.

(** ** Updates outside a transaction *)
Section Write.
Context (g : gset nat) (h : heap) (s : lmdb) (K V : kv_type) (i : nat) (w : db) (e : nat) (ex : env_st)
  (d : db_st).
Hypothesis Hw : open_db g h K V i w.
Hypothesis Hh : handle_of (h_env h) (d_env w) = Some e.
Hypothesis He : envs s !! e = Some ex.
Hypothesis Hd : env_dbs ex !! d_dbi w = Some d.

(** How an update ends: done, or undone with an error or in silence. *)
Definition ends_write (r : js_result) (d' : db_st) (q : info) (h' : heap) (s' : lmdb) : Prop :=
  h' = h /\ (js q = r /\ commits s w e ex d' s' \/
             envs s' = envs s /\ (js q = r \/ exists rc, rc <> 0 /\ js q = JsThrow (mdb_strerror rc))).

Lemma any_scope_write (Q : txn_scope -> heap -> lmdb -> Prop) :
  (forall t, txns s !! t = None ->
     Q (TxnScope None (Some t) false true false) h (upd_txn t (begun e false ex) s)) ->
  Q (TxnScope None None false true false) h s ->
  wlp mdb_answers (scope_write None (Some e)) h s Q.
Proof.
  intros HQ HN. unfold scope_write. wstep. wstep; [done|].
  intros r s' [(t & e' & ex' & -> & [= <-] & He' & Ht & _ & ->)|(Hr & Hs & ->)].
  - wstep. assert (ex' = ex) as -> by congruence. by apply HQ.
  - wstep. by rewrite Hs.
Qed.

Lemma any_abort t s1 (Q : unit -> heap -> lmdb -> Prop) :
  (forall s', envs s' = envs s1 -> Q tt h s') ->
  wlp mdb_answers (scope_dtor (TxnScope None t false true false)) h s1 Q.
Proof.
  intros HQ. unfold scope_dtor. cbn [ts_created ts_readonly ts_commit ts_txn]. wred. wstep; [done|].
  intros [] s'. cbn. destruct t as [t|]; [intros (x & _ & ->); by apply HQ|intros ->; by apply HQ].
Qed.

Lemma any_commit t x s1 (Q : unit -> heap -> lmdb -> Prop) :
  txns s1 !! t = Some x -> txn_ro x = false -> txn_env x = e -> envs s1 = envs s ->
  (forall s', envs s' = <[e := MkEnv (env_opened ex) (txn_dbs x) (txn_names x)]> (envs s) \/ envs s' = envs s ->
     Q tt h s') ->
  wlp mdb_answers (scope_dtor (TxnScope None (Some t) false true true)) h s1 Q.
Proof.
  intros Ht Hr Hxe Hes HQ. unfold scope_dtor. cbn [ts_created ts_readonly ts_commit ts_txn]. wred.
  wstep. wstep; [done|]. intros rc s' (y & Hy & Ha). assert (y = x) as -> by congruence.
  rewrite Hr in Ha. wstep. apply HQ. destruct Ha as [(_ & ex' & Hex' & ->)|[_ ->]]; [left|by right].
  rewrite Hxe, Hes in Hex'. assert (ex' = ex) as -> by congruence. unfold end_txn. cbn. by rewrite Hxe, Hes.
Qed.

Lemma any_put a b k v :
  kv_encode K a = Ok k -> kv_encode V b = Ok v ->
  wlp mdb_answers (db_put K V i a b None) h s (ends_write (JsReturn (v_bool true)) (db_after_put d k v)).
Proof.
  intros Hk Hv. unfold db_put, get_kvdb. pose proof (open_db_unwrap _ _ _ _ _ _ Hw) as Hu.
  destruct (open_db_env_obj h w e Hh) as (ew & Hew & Hewe).
  assert (HT : forall rc t s1, rc <> 0 -> envs s1 = envs s ->
    wlp mdb_answers (scope_dtor (TxnScope None t false true false) ;; throw_rc rc) h s1
      (ends_write (JsReturn (v_bool true)) (db_after_put d k v))).
  { intros rc t s1 Hrc Hs1. wstep. apply any_abort. intros s2 Hs2. wstep. split; [done|]. right.
    split; [congruence|]. right. by exists rc. }
  do 9 wstep. rewrite Hewe. apply any_scope_write.
  - intros t Ht. wstep. wstep; [done|]. intros rc s2 Ha. cbn in Ha.
    rewrite (begun_writable s w e ex d Hd t) in Ha. cbn in Ha. destruct Ha as [[-> (Ee & Et & _)]|[[Hf _] ->]].
    + wred. wstep. eapply (any_commit t); [by rewrite Et, lookup_insert_eq|done|done|done|].
      intros s3 Hs3. wstep. split; [done|]. destruct Hs3 as [Hs3|Hs3]; [left|right]; [done|]. by split; [|left].
    + rewrite (proj2 (Z.eqb_neq rc 0)) by done. wred. by apply HT.
  - wstep. wstep; [done|]. intros rc s2 [[Hf _] ->]. rewrite (proj2 (Z.eqb_neq rc 0)) by done. wred. by apply HT.
Qed.

Lemma any_del a b k v r d' :
  kv_encode K a = Ok k -> kv_encode V b = Ok v -> spec_db K V (ODel a b) d = Ok (r, d') ->
  wlp mdb_answers (db_del K V i a b None) h s (ends_write r d').
Proof.
  intros Hk Hv Hr. cbn in Hr. rewrite Hk, Hv in Hr. cbn in Hr.
  unfold db_del, get_kvdb. pose proof (open_db_unwrap _ _ _ _ _ _ Hw) as Hu.
  destruct (open_db_env_obj h w e Hh) as (ew & Hew & Hewe).
  assert (HT : forall rc t s1, fails rc -> envs s1 = envs s ->
    wlp mdb_answers (if rc =? MDB_NOTFOUND
       then scope_dtor (TxnScope None t false true false) ;; returns (v_bool false)
       else if negb (rc =? 0) then scope_dtor (TxnScope None t false true false) ;; throw_rc rc
       else scope_dtor (scope_commit (TxnScope None t false true false)) ;; returns (v_bool true)) h s1
      (ends_write r d')).
  { intros rc t s1 [Hz Hnf] Hs1. rewrite (proj2 (Z.eqb_neq rc MDB_NOTFOUND)), (proj2 (Z.eqb_neq rc 0)) by done.
    wred. wstep. apply any_abort. intros s2 Hs2. wstep. split; [done|]. right.
    split; [congruence|]. right. by exists rc. }
  do 9 wstep. rewrite Hewe. apply any_scope_write.
  - intros t Ht. wstep. wstep; [done|]. intros rc s2 Ha. cbn in Ha.
    rewrite (begun_writable s w e ex d Hd t) in Ha. cbn in Ha. destruct Ha as [Ha|[Hf ->]]; [|by apply HT].
    destruct (db_after_del d k (Some v)) as [d1|]; injection Hr as <- <-.
    + destruct Ha as [-> (Ee & Et & _)]. change (0 =? MDB_NOTFOUND) with false. wred. wstep.
      eapply (any_commit t); [by rewrite Et, lookup_insert_eq|done|done|done|].
      intros s3 Hs3. wstep. split; [done|]. destruct Hs3 as [Hs3|Hs3]; [left|right]; [done|]. by split; [|left].
    + destruct Ha as [-> ->]. change (MDB_NOTFOUND =? MDB_NOTFOUND) with true. wstep. apply any_abort.
      intros s3 Hs3. wstep. split; [done|]. right. by split; [|left].
  - wstep. wstep; [done|]. intros rc s2 [Hf ->]. by apply HT.
Qed.
End Write.

(** C36. Whatever LMDB fails at, an update outside a transaction is all or
    nothing: the call runs to its end and leaves committed either the database
    it found or the database with exactly the update; when it throws, it is the
    one it found.  (It may also return what it returns on success and leave the
    database as it was, see [put_swallows_commit_error].) *)
Theorem write_all_or_nothing g h s K V i d o r d' :
  holds g h s K V i d -> typed_data K V d -> op_ok K V o -> is_write o = true -> spec_db K V o d = Ok (r, d') ->
  wpm LMDB_steady (fun _ => False) (run_dbop K V i o) h s (fun q h' s' =>
    js q = r /\ holds g h' s' K V i d' \/
    holds g h' s' K V i d /\ (js q = r \/ exists rc, rc <> 0 /\ js q = JsThrow (mdb_strerror rc))).
Proof.
  intros HH HT Ho Hwr Hr. pose proof (holds_disc g h s K V i d o HH HT Ho) as HD.
  destruct HH as (HI & w & e & ex & Hw & Hh & Hn & He & Hd).
  assert (HS : wpm LMDB_steady (fun _ => False) (run_dbop K V i o) h s (fun _ h' s' => quiet g h' s'))
    by (pose proof (every_op_safe (op_of K V i o) g h s HI HD); by destruct o).
  assert (HA : wlp mdb_answers (run_dbop K V i o) h s (ends_write h s w e ex r d')).
  { destruct o as [a b|a|a b|a b]; [|done| |done].
    - destruct Ho as ([k Hk] & [v Hv] & _). cbn in Hr. rewrite Hk, Hv in Hr. injection Hr as <- <-.
      by apply (any_put g h s K V i w e ex d).
    - destruct Ho as ([k Hk] & [v Hv]). by apply (any_del g h s K V i w e ex d Hw Hh He Hd a b k v). }
  apply (wpu_stronger _ mdb_answers (fun X s c x s' => mdb_answers X s c x s' /\ renewals X s c x)) in HA;
    [|by intros ????? []].
  eapply wpm_mono; [exact (wpm_wlp _ _ _ _ _ _ _ _ HS HA)|].
  intros q h' s' (HQ & -> & [[Hq Hc]|[Hs Hq]]).
  - left. split; [done|]. by eapply (holds_commits g h s).
  - right. split; [|done]. split; [done|]. exists w, e, ex. by rewrite Hs.
Qed.

(** ** Closed objects *)

(** The message a call answers with when its object is in the wrong state. *)
Definition guard (h : heap) (o : op) : option bytes :=
  match o with
  | EnvSetMapSize i _ | EnvSetMaxDbs i _ | EnvOpen i _ | EnvClose i | EnvSync i _ =>
      ew ← h_env h !! i; match e_env ew with None => Some ENV_CLOSED | Some _ => None end
  | TxnCommit i | TxnAbort i =>
      tw ← h_txn h !! i; match t_txn tw with None => Some TXN_CLOSED | Some _ => None end
  | TxnReset i =>
      tw ← h_txn h !! i;
      match t_txn tw with
      | None => Some TXN_CLOSED
      | Some _ => if t_readonly tw then None else Some TXN_NOT_READONLY
      end
  | TxnRenew i =>
      tw ← h_txn h !! i;
      match t_txn tw with
      | None => if t_readonly tw then Some TXN_CLOSED else None
      | Some _ => if t_readonly tw then None else Some TXN_OPENED
      end
  | _ => None
  end.

(** Objects that are closed, and the native object of a database. *)
Definition env_closed (h : heap) (e : nat) : Prop := h_env h !! e = Some (Env None None).
Definition txn_closed (h : heap) (j : nat) : Prop := exists tw, h_txn h !! j = Some tw /\ t_txn tw = None.
Definition cur_closed (h : heap) (K V : kv_type) (i : nat) : Prop := h_cur h !! i = Some (Cursor K V None).
Definition db_of (h : heap) (K V : kv_type) (i : nat) (dw : db) : Prop :=
  h_db h !! i = Some dw /\ key_type dw = K /\ value_type dw = V.

(** Calls that hand LMDB the NULL of a closed transaction or cursor, which it
    checks for. *)
Definition null_handle (h : heap) (o : op) : Prop :=
  match o with
  | DbGet K V i a (Some j) => (exists dw, db_of h K V i dw) /\ encodes K a /\ txn_closed h j
  | DbPut K V i a b (Some j) | DbDel K V i a b (Some j) | DbExists K V i a b (Some j) =>
      (exists dw, db_of h K V i dw /\ is_Some (h_env h !! d_env dw)) /\ encodes K a /\ encodes V b /\ txn_closed h j
  | CurNew K V _ d j => (exists dw, db_of h K V d dw) /\ txn_closed h j
  | CurMove K V _ i | CurKey K V i | CurVal K V i => cur_closed h K V i
  | CurSeek K V i args | CurGte K V i args => cur_closed h K V i /\
      encodes K (nth 0 args v_undefined) /\ (length args <> 1%nat -> encodes V (nth 1 args v_undefined))
  | _ => False
  end.

(** Calls that hand it the NULL of a closed environment, or of a closed cursor
    to delete at, which it does not check for. *)
Definition unchecked (h : heap) (o : op) : Prop :=
  match o with
  | TxnNew _ e _ | DbNew _ _ _ e (Some _) => env_closed h e
  | DbClose K V i => exists dw, db_of h K V i dw /\ env_closed h (d_env dw)
  | DbGet K V i a None => (exists dw, db_of h K V i dw /\ env_closed h (d_env dw)) /\ encodes K a
  | DbPut K V i a b None | DbDel K V i a b None | DbExists K V i a b None =>
      (exists dw, db_of h K V i dw /\ env_closed h (d_env dw)) /\ encodes K a /\ encodes V b
  | CurDel K V i => cur_closed h K V i
  | _ => False
  end.

Lemma db_of_unwrap h K V i dw : db_of h K V i dw ->
  (h_db h !! i ≫= fun dw => if decide (key_type dw = K /\ value_type dw = V) then Some dw else None) = Some dw.
Proof. intros (-> & ?). cbn. by rewrite decide_True. Qed.

Lemma cur_closed_unwrap h K V i : cur_closed h K V i ->
  (h_cur h !! i ≫= fun cw => if decide (c_key_type cw = K /\ c_value_type cw = V) then Some cw else None) =
  Some (Cursor K V None).
Proof. intros ->. cbn. by rewrite decide_True. Qed.

Lemma guarded_refuse h o msg : guard h o = Some msg -> exec_op o h = Ret (throw_error msg info0, h).
Proof.
  destruct o; cbn [guard exec_op]; try done;
    (unfold env_setMapSize, env_setMaxDbs, env_open, env_close, env_sync, txn_commit, txn_abort, txn_reset,
       txn_renew, get_env, get_txn, throw, unwrap, mbind, meth_bind, prog_bind);
    destruct (_ !! i) as [[] |]; cbn; try done; repeat case_match; cbn; intros; simplify_eq; done.
Qed.

(** The call threw what LMDB answered and changed nothing. *)
Definition refused (h : heap) (s : lmdb) (r : info) (h' : heap) (s' : lmdb) : Prop :=
  (exists rc, rc <> 0 /\ js r = JsThrow (mdb_strerror rc)) /\ h' = h /\ s' = s.

Local Abbreviation wpc := (wpm LMDB (fun _ => False)).

(** A cursor function given NULL. *)
Lemma null_cursor_get h s k v op (f : Z * (bytes * bytes) -> lmeth info) :
  (forall kd, f (EINVAL, kd) = throw_rc EINVAL) ->
  wpc (r ← ffi (mdb_cursor_get None k v op); f r) h s (refused h s).
Proof.
  intros Hf. wstep. wstep; [done|]. intros [rc kd] s' [[= ->] ->]. rewrite Hf. wstep. split; [by exists EINVAL|done].
Qed.

Lemma null_moved : moved EINVAL = throw_rc EINVAL.
Proof. done. Qed.

Lemma null_db_call h s K V i a j (o : op) :
  o = DbGet K V i a (Some j) \/ (exists b, o = DbPut K V i a b (Some j) \/ o = DbDel K V i a b (Some j) \/ o = DbExists K V i a b (Some j)) ->
  null_handle h o -> wpc (exec_op o) h s (refused h s).
Proof.
  assert (HR : forall rc, fails rc -> refused h s (throw_error (mdb_strerror rc) info0) h s)
    by (intros rc [Hz _]; split; [by exists rc|done]).
  intros [->|(b & [->|[->| ->]])]; cbn [null_handle exec_op].
  - intros ([dw Hdw] & [k Hk] & tw & Htw & Ht). pose proof (db_of_unwrap _ _ _ _ _ Hdw) as Hu. unfold db_get, get_kvdb, scope_read, scope_dtor.
    do 9 wstep. cbn [ts_txn ts_created]. rewrite Ht. wstep; [done|]. intros [rc v] s' [-> Hr]. cbn in Hr. subst rc. wred.
    change (EINVAL =? MDB_NOTFOUND) with false. change (EINVAL =? 0) with false. wred. do 4 wstep. by apply HR.
  - intros ((dw & Hdw & ew & Hew) & [k Hk] & [v Hv] & tw & Htw & Ht). pose proof (db_of_unwrap _ _ _ _ _ Hdw) as Hu. unfold db_put, get_kvdb, scope_write, scope_dtor.
    do 13 wstep. cbn [ts_txn ts_created]. rewrite Ht. wstep; [done|]. intros rc s' [Hf ->]. rewrite (proj2 (Z.eqb_neq rc 0)) by apply Hf. wred.
    do 3 wstep. by apply HR.
  - intros ((dw & Hdw & ew & Hew) & [k Hk] & [v Hv] & tw & Htw & Ht). pose proof (db_of_unwrap _ _ _ _ _ Hdw) as Hu. unfold db_del, get_kvdb, scope_write, scope_dtor.
    do 13 wstep. cbn [ts_txn ts_created]. rewrite Ht. wstep; [done|]. intros rc s' [Hf ->].
    rewrite (proj2 (Z.eqb_neq rc MDB_NOTFOUND)) by apply Hf. rewrite (proj2 (Z.eqb_neq rc 0)) by apply Hf. wred. do 3 wstep. by apply HR.
  - intros ((dw & Hdw & ew & Hew) & [k Hk] & [v Hv] & tw & Htw & Ht). pose proof (db_of_unwrap _ _ _ _ _ Hdw) as Hu. unfold db_exists, get_kvdb, scope_read, scope_dtor, exists_cursor.
    do 11 wstep. cbn [ts_txn ts_created]. rewrite Ht. wstep. wstep; [done|].
    intros r s' [(th & x & c & [=] & _)|(Hf & Hn & ->)]. wstep. rewrite Hn. wstep. wstep; [done|]. intros [rc kd] s' [[= ->] ->]. wred.
    wstep. wstep; [done|]. intros [] s' ->. change (EINVAL =? MDB_NOTFOUND) with false. change (EINVAL =? 0) with false. wred. do 5 wstep. by apply HR.
Qed.
Lemma null_refused h s o : null_handle h o -> wpc (exec_op o) h s (refused h s).
Proof.
  destruct o as [| | | | | | | | | | | | | | | |K V i a [j|]|K V i a b [j|]|K V i a b [j|]|K V i a b [j|]| |K V i d j| | |K V op i|K V i args|K V i args|K V i|K V i|];
    try done; try (intros HN; eapply null_db_call; [|exact HN]; eauto 7; fail); cbn [null_handle exec_op].
  - intros ([dw Hdw] & tw & Htw & Ht). pose proof (db_of_unwrap _ _ _ _ _ Hdw) as Hu. unfold cursor_ctor, get_kvdb.
    do 5 wstep. rewrite Ht. wstep; [done|]. intros [rc cp] s' [(th & x & c & [=] & _)|([Hz _] & _ & ->)]. cbn in Hz.
    rewrite (proj2 (Z.eqb_neq rc 0)) by done. wred. wstep. split; [by exists rc|done].
  - intros Hu%cur_closed_unwrap. unfold cursorOp, get_kvcur. do 2 wstep. by apply null_cursor_get.
  - intros (Hu%cur_closed_unwrap & [k Hk] & Hv). unfold cursor_seek.
    destruct args as [|a [|b args]]; cbn in Hk, Hv; try destruct (Hv ltac:(done)) as [v Hb];
      unfold cursorKeyOp, cursorKeyValOp, get_kvcur; [do 6 wstep|do 4 wstep|do 6 wstep]; by apply null_cursor_get.
  - intros (Hu%cur_closed_unwrap & [k Hk] & Hv). unfold cursor_gte.
    destruct args as [|a [|b args]]; cbn in Hk, Hv; try destruct (Hv ltac:(done)) as [v Hb];
      unfold cursorKeyOp, cursorKeyValOp, get_kvcur; [do 6 wstep|do 4 wstep|do 6 wstep]; by apply null_cursor_get.
  - intros Hu%cur_closed_unwrap. unfold cursor_key, get_kvcur. do 2 wstep. apply null_cursor_get. by intros [].
  - intros Hu%cur_closed_unwrap. unfold cursor_value, get_kvcur. do 2 wstep. apply null_cursor_get. by intros [].
Qed.

(** Beginning a transaction in a closed environment. *)
Lemma no_env_begin (h : heap) s flags U Q : ~ wpm LMDB U (ffi (mdb_txn_begin None None flags)) h s Q.
Proof. by intros [(_ & e & ex & [=] & _) _]%wpm_ffi. Qed.

Lemma unchecked_misuse h s o U Q : unchecked h o -> ~ wpm LMDB U (exec_op o) h s Q.
Proof.
  destruct o as [| | | | | | | |i e a| | | | | |K V i e [[n dup]|]|K V i|K V i a [j|]|K V i a b [j|]|K V i a b [j|]|K V i a b [j|]| | | |K V i| | | | | |];
    try done; cbn [unchecked exec_op].
  - intros He HW. unfold env_closed in He. unfold txn_ctor in HW. winv HW. winv HW. winv HW. by apply no_env_begin in HW.
  - intros He HW. unfold env_closed in He. unfold db_ctor in HW. winv HW. winv HW. winv HW. by apply no_env_begin in HW.
  - intros (dw & Hdw & He) HW. unfold env_closed in He. pose proof (db_of_unwrap _ _ _ _ _ Hdw) as Hu. unfold db_close, get_kvdb in HW.
    do 5 winv HW. by apply wpm_ffi in HW as [(e & ex & [=] & _) _].
  - intros ((dw & Hdw & He) & [k Hk]) HW. unfold env_closed in He. pose proof (db_of_unwrap _ _ _ _ _ Hdw) as Hu.
    unfold db_get, get_kvdb, scope_read, require_readlock in HW. do 8 winv HW. cbn [e_read_lock e_env] in HW. winv HW. by apply no_env_begin in HW.
  - intros ((dw & Hdw & He) & [k Hk] & [v Hv]) HW. unfold env_closed in He. pose proof (db_of_unwrap _ _ _ _ _ Hdw) as Hu.
    unfold db_put, get_kvdb, scope_write in HW. do 10 winv HW. by apply no_env_begin in HW.
  - intros ((dw & Hdw & He) & [k Hk] & [v Hv]) HW. unfold env_closed in He. pose proof (db_of_unwrap _ _ _ _ _ Hdw) as Hu.
    unfold db_del, get_kvdb, scope_write in HW. do 10 winv HW. by apply no_env_begin in HW.
  - intros ((dw & Hdw & He) & [k Hk] & [v Hv]) HW. unfold env_closed in He. pose proof (db_of_unwrap _ _ _ _ _ Hdw) as Hu.
    unfold db_exists, get_kvdb, scope_read, require_readlock in HW. do 10 winv HW. cbn [e_read_lock e_env] in HW. winv HW. by apply no_env_begin in HW.
  - intros Hu%cur_closed_unwrap HW. unfold cursor_del, get_kvcur in HW. do 3 winv HW. by apply wpm_ffi in HW as [(c & cu & x & [=] & _) _].
Qed.


(** ** Errors the code drops *)
Section Engines.
Context {W : Type} (Eng : forall X, mdb_call X -> W -> X * W).
Context (K V : kv_type) (i : nat) (h : heap) (dw : db) (ew : env).
Hypothesis Hdw : h_db h !! i = Some dw.
Hypothesis HKV : key_type dw = K /\ value_type dw = V.
Hypothesis Hew : h_env h !! d_env dw = Some ew.

(** [put] outside a transaction does not look at the result of its commit:
    on any LMDB that begins the transaction and accepts the pair, it returns
    true whatever [mdb_txn_commit] returned. *)
Theorem put_swallows_commit_error a b k v w0 w1 w2 w3 t rc :
  kv_encode K a = Ok k -> kv_encode V b = Ok v ->
  Eng _ (mdb_txn_begin (e_env ew) None 0) w0 = ((0, Some t), w1) ->
  Eng _ (mdb_put (Some t) (d_dbi dw) k v 0) w1 = (0, w2) ->
  Eng _ (mdb_txn_commit (Some t)) w2 = (rc, w3) ->
  run Eng (db_put K V i a b None h) w0 = (Done (set_ret (v_bool true) info0, h), w3).
Proof.
  intros Hk Hv E1 E2 E3.
  unfold db_put, get_kvdb, get_env, unwrap, pure, scope_write, scope_dtor, ffi, returns, mbind, meth_bind,
    mret, meth_ret. rewrite Hdw. cbn. rewrite decide_True by done. cbn. rewrite Hk. cbn. rewrite Hv. cbn.
  rewrite Hew. cbn. rewrite E1. cbn. rewrite E2. cbn. by rewrite E3.
Qed.
End Engines.

(** The constructor of a database reads a pointer it never wrote when LMDB
    cannot begin a transaction: it passes the uninitialised [txn] to
    [mdb_txn_abort]. *)
Theorem db_ctor_uninitialised {W} (Eng : forall X, mdb_call X -> W -> X * W) K V i eo name dup h ew w0 w1 rc :
  h_env h !! eo = Some ew -> rc <> 0 ->
  Eng _ (mdb_txn_begin (e_env ew) None 0) w0 = ((rc, None), w1) ->
  run Eng (db_ctor K V i eo (Some (name, dup)) h) w0 = (Undefined UninitRead, w1).
Proof.
  intros Hew Hrc E1. unfold db_ctor, get_env, unwrap, ffi, mbind, meth_bind. rewrite Hew. cbn. rewrite E1. cbn.
  by rewrite (proj2 (Z.eqb_neq rc 0)).
Qed.
End Failures.

(** ** On the concrete run *)
Lemma write_all_or_nothing_witness : exists d d',
  wpm LMDB_steady (fun _ => False)
    (@run_dbop SimpleV8 demo_libc (Num I32) Str 0 (@OPut SimpleV8 (SNum 7) (SStr (lit "seven"))))
    (fst demo3) (fst (snd demo3)) (fun q h' s' =>
    js q = JsReturn (@v_bool SimpleV8 true) /\ holds {[0%nat]} h' s' (Num I32) Str 0 d' \/
    holds {[0%nat]} h' s' (Num I32) Str 0 d /\
      (js q = JsReturn (@v_bool SimpleV8 true) \/
       exists rc, rc <> 0 /\ js q = @JsThrow SimpleV8 (@mdb_strerror demo_libc rc))).
Proof.
  destruct demo3_holds as (d & HH & HW & _). exists d. eexists.
  apply (@write_all_or_nothing SimpleV8 demo_libc {[0%nat]} (fst demo3) (fst (snd demo3)) (Num I32) Str 0 d
    (@OPut SimpleV8 (SNum 7) (SStr (lit "seven")))); [exact HH|exact (@kept_types _ _ _ _ HW)| |done|done].
  split_and!; [by eexists|by eexists|done|done].
Defined.

Definition closed_heap : heap := Heap {[0%nat := Env None None]} ∅ ∅ {[0%nat := Cursor (Num I32) Str None]} [].


(** An LMDB whose commits fail, and one that cannot begin a transaction. *)
Definition bad_commit X (c : mdb_call X) : world -> X * world :=
  match c in mdb_call X return world -> X * world with
  | mdb_txn_commit t => fun w => (28, snd (mdb_exec _ (mdb_txn_abort t) w))
  | c => mdb_exec _ c
  end.

Definition no_begin X (c : mdb_call X) : world -> X * world :=
  match c in mdb_call X return world -> X * world with
  | mdb_txn_begin _ _ _ => fun w => ((12, None), w)
  | c => mdb_exec _ c
  end.

Lemma answer_fst {A B} (p : A * B) x : fst p = x -> p = (x, snd p).
Proof. by destruct p; cbn; intros ->. Qed.

Definition demo_put1 : world := snd (bad_commit _ (mdb_txn_begin (Some 0%nat) None 0) (snd demo3)).
Definition demo_put2 : world :=
  snd (bad_commit _ (mdb_put (Some 3%nat) 2 (number_data I32 7) (lit "seven" ++ [NUL]) 0) demo_put1).

Lemma put_swallows_commit_error_witness :
  run bad_commit (@db_put SimpleV8 demo_libc (Num I32) Str 0 (SNum 7) (SStr (lit "seven")) None (fst demo3)) (snd demo3) =
  (Done (set_ret (@v_bool SimpleV8 true) (@info0 SimpleV8), fst demo3),
   snd (mdb_exec _ (mdb_txn_abort (Some 3%nat)) demo_put2)).
Proof.
  apply (@put_swallows_commit_error SimpleV8 demo_libc world bad_commit (Num I32) Str 0 (fst demo3)
    (Db (Num I32) Str 2 0 None) (Env (Some 0%nat) None) ltac:(by vm_compute) ltac:(done) ltac:(by vm_compute)
    (SNum 7) (SStr (lit "seven")) (number_data I32 7) (lit "seven" ++ [NUL]) (snd demo3) demo_put1 demo_put2
    (snd (mdb_exec _ (mdb_txn_abort (Some 3%nat)) demo_put2)) 3 28).
  - by vm_compute.
  - by vm_compute.
  - apply answer_fst. by vm_compute.
  - apply answer_fst. by vm_compute.
  - done.
Defined.

Lemma db_ctor_uninitialised_witness :
  run no_begin (@db_ctor SimpleV8 demo_libc (Num I32) Str 1 0 (Some (SStr (lit "more"), SBool false)) (fst demo3))
    (snd demo3) = (Undefined UninitRead, snd demo3).
Proof.
  apply (@db_ctor_uninitialised SimpleV8 demo_libc world no_begin (Num I32) Str 1 0 (SStr (lit "more"))
    (SBool false) (fst demo3) (Env (Some 0%nat) None) (snd demo3) (snd demo3) 12); [by vm_compute|done|done].
Defined.

(** ** A reader in the way

    [exists] has run once on the database, so it keeps a cursor; then
    JavaScript has begun a read-only transaction of its own. *)
Definition demo_exists : op :=
  @DbExists SimpleV8 (Num I32) Str 0 (SNum 7) (SStr (lit "seven")) None.
Definition demo4 : heap * world := @demo_do demo_exists demo3.
Definition demo5 : heap * world := @demo_do (@TxnNew SimpleV8 0 0 (SBool true)) demo4.

Lemma demo4_reach : demo_reach {[0%nat]} demo4.
Proof.
  change (demo_reach (after demo_exists {[0%nat]} (fst demo4)) demo4).
  apply demo_step; [apply demo3_reach| |by vm_compute].
  exists (Db (Num I32) Str 2 0 None). split; [split_and!; [set_solver|by vm_compute|done|done]|].
  split_and!; [by eexists|by eexists|done|]. intros _ e He j w t x. vm_compute. by destruct j.
Qed.

Lemma demo5_reach : demo_reach {[0%nat]} demo5.
Proof.
  change (demo_reach (after (@TxnNew SimpleV8 0 0 (SBool true)) {[0%nat]} (fst demo5)) demo5).
  apply demo_step; [apply demo4_reach| |by vm_compute].
  split; [by vm_compute|].
  destruct (db_alive _ _ _ _ _ (inv_dbs _ _ _ _ _ _ (@reach_quiet SimpleV8 demo_libc _ _ _ (proj1 demo4_reach)))
    0%nat (Db (Num I32) Str 2 0 (Some 4%nat)) ltac:(set_solver) ltac:(by vm_compute)) as (e & ex & Hh & He & Ho).
  exists e, ex. split; [by split_and!|]. done.
Qed.

Lemma exists_breaks `{V8} `{Libc} g h s K V i w ew c t x u y cu a b k v U Q :
  open_db g h K V i w -> d_cur w = Some c -> h_env h !! d_env w = Some ew -> e_read_lock ew = Some t ->
  txns s !! t = Some x -> txn_ro x = true -> txn_live x = false ->
  txns s !! u = Some y -> txn_ro y = true -> txn_live y = true -> txn_env y = txn_env x ->
  curs s !! c = Some cu -> cur_stale cu = true -> kv_encode K a = Ok k -> kv_encode V b = Ok v ->
  ~ wpm LMDB_steady U (db_exists K V i a b None) h s Q.
Proof.
  intros Hw Hdc Hew Hlk Hx Hxr Hxl Hy Hyr Hyl Hye Hcu Hst Hk Hv HW.
  pose proof (open_db_unwrap _ _ _ _ _ _ Hw) as Hu. unfold db_exists, get_kvdb in HW. do 7 winv HW.
  unfold scope_read, require_readlock in HW. do 3 winv HW.
  rewrite Hlk in HW. winv HW. apply (ffi_inv LMDB_steady _ _ (-30783) s) in HW as [_ HW].
  2: { split; [exists x; split; [done|]; rewrite Hxr, Hxl; by right|].
       intros t' x' [= <-] Hx' _ _ _ Hnr. assert (x' = x) as -> by congruence.
       assert (txn_live y = false) by (by apply (Hnr u)). congruence. }
  winv HW. winv HW. unfold exists_cursor in HW. cbn [ts_created ts_txn] in HW. rewrite Hdc in HW. do 2 winv HW.
  apply (ffi_inv LMDB_steady _ _ (-30783) s) in HW as [_ HW].
  2: { split; [by right|]. intros t' x' c' cu' [= <-] _ Hx' _ _ _ [d Hd]. unfold txn_db in Hd.
       rewrite Hx in Hd. cbn in Hd. by rewrite Hxl in Hd. }
  winv HW. winv HW. apply wpm_ffi in HW as [Ha _]. destruct (Ha c eq_refl) as (cu' & x' & Hcu' & Hns & _).
  congruence.
Qed.

(** [exists] outside a transaction drops the errors of renewing its read
    lock and its cursor.  There is a reachable state of the binding, with a
    database that was asked [exists] before and a read-only transaction begun
    by JavaScript since, in which calling [exists] again with valid arguments
    uses the cursor of a reset transaction, which LMDB's contract forbids. *)
Theorem exists_uses_stale_cursor :
  exists g h s, @reach SimpleV8 demo_libc g h s /\ (exists w, open_db g h (Num I32) Str 0 w) /\
    forall U Q, ~ wpm LMDB_steady U (@exec_op SimpleV8 demo_libc demo_exists) h s Q.
Proof.
  exists {[0%nat]}, (fst demo5), (fst (snd demo5)). split; [apply demo5_reach|]. split.
  { exists (Db (Num I32) Str 2 0 (Some 4%nat)). split_and!; [set_solver|by vm_compute|done|done]. }
  assert (Hl : (fun x => (txn_ro x, txn_live x, txn_env x)) <$> txns (fst (snd demo5)) !! 3%nat = Some (true, false, 0%nat))
    by (by vm_compute).
  assert (Hu : (fun x => (txn_ro x, txn_live x, txn_env x)) <$> txns (fst (snd demo5)) !! 5%nat = Some (true, true, 0%nat))
    by (by vm_compute).
  assert (Hc : cur_stale <$> curs (fst (snd demo5)) !! 4%nat = Some true) by (by vm_compute).
  apply fmap_Some in Hl as (x & Hx & [= Hxr Hxl Hxe]). apply fmap_Some in Hu as (y & Hy & [= Hyr Hyl Hye]).
  apply fmap_Some in Hc as (cu & Hcu & Hst). intros U Q.
  assert (open_db {[0%nat]} (fst demo5) (Num I32) Str 0 (Db (Num I32) Str 2 0 (Some 4%nat)))
    by (split_and!; [set_solver|by vm_compute|done|done]).
  apply (@exists_breaks SimpleV8 demo_libc {[0%nat]} _ _ (Num I32) Str 0 (Db (Num I32) Str 2 0 (Some 4%nat))
    (Env (Some 0%nat) (Some 3%nat)) 4 3 x 5 y cu _ _ (number_data I32 7) (lit "seven" ++ [NUL])); try done.
  congruence.
Qed.
