(* ===== verification/LmdbScan.v ===== *)
(** * Walking through a database

    What the cursors of src/src/lmdb/cursor-lmdb.cpp show JavaScript: a loop
    over [first] and [next] visits every entry once and in key order, [seek]
    finds a key and [gte] the smallest one that is not below it. *)
From S2P Require Import Prelude Nan KvTypes Prog Store LmdbApi LmdbEngine LmdbObjects LmdbEnv LmdbTxn.
From S2P Require Import LmdbDb LmdbCursor LmdbInv LmdbSystem LmdbSafety LmdbSafetyDb LmdbSafetyRun.
From S2P Require Import LmdbSpec.

Section Scan.
Context `{V8} `{Libc}.

(** How a condition reads the answer of a call. *)
Definition truthy (r : js_result) : bool :=
  match r with JsReturn x => BooleanValue x | JsThrow _ => false end.

(** [for (ok = c.first(); ok; ok = c.next()) visit(c.key(), c.val())], with a
    bound on the rounds. *)
Fixpoint scan_loop (K V : kv_type) (i fuel : nat) (go : bool) : lmeth (list (js_result * js_result)) :=
  match fuel with
  | O => mret []
  | S f =>
      if go then
        k ← cursor_key K V i;
        v ← cursor_value K V i;
        r ← cursor_next K V i;
        rest ← scan_loop K V i f (truthy (js r));
        mret ((js k, js v) :: rest)
      else mret []
  end.

Definition scan (K V : kv_type) (i fuel : nat) : lmeth (list (js_result * js_result)) :=
  r ← cursor_first K V i;
  scan_loop K V i fuel (truthy (js r)).

(** What [visit] should be given for an entry. *)
Definition shown (K V : kv_type) (p : bytes * bytes) : res (js_result * js_result) :=
  a ← kv_decode K (fst p) (length (fst p));
  b ← kv_decode V (snd p) (length (snd p));
  Ok (JsReturn a, JsReturn b).

(** Cursor object [i] is at entry [pos] of a database that, as its transaction
    sees it, is [d]. *)
Definition at_entry (g : gset nat) (h : heap) (s : lmdb) (K V : kv_type) (i : nat) (d : db_st)
    (pos : option nat) : Prop :=
  quiet g h s /\ exists c cu x, h_cur h !! i = Some (Cursor K V (Some c)) /\ curs s !! c = Some cu /\
    cur_stale cu = false /\ cur_pos cu = pos /\ txns s !! cur_txn cu = Some x /\ txn_live x = true /\
    txn_dbs x !! cur_dbi cu = Some d.

Section Steps.
Context (g : gset nat) (h : heap) (s : lmdb) (K V : kv_type) (i : nat) (d : db_st) (c : nat) (cu : cur_st)
  (x : txn_st).
Hypothesis HI : quiet g h s.
Hypothesis Hi : h_cur h !! i = Some (Cursor K V (Some c)).
Hypothesis Hcu : curs s !! c = Some cu.
Hypothesis Hst : cur_stale cu = false.
Hypothesis Hx : txns s !! cur_txn cu = Some x.
Hypothesis Hl : txn_live x = true.
Hypothesis Hd : txn_dbs x !! cur_dbi cu = Some d.

Lemma at_open : open_cur h K V i (Cursor K V (Some c)).
Proof. by split_and!. Qed.

Lemma at_usable : cur_usable s (Cursor K V (Some c)).
Proof. intros c' cu' [= <-] Hcu'. congruence. Qed.

Lemma at_db : txn_db s (cur_txn cu) (cur_dbi cu) = Some d.
Proof. unfold txn_db. rewrite Hx. cbn. by rewrite Hl. Qed.

Lemma at_moved p s' : quiet g h s' -> s' = upd_cur c (set_pos p cu) s -> at_entry g h s' K V i d p.
Proof.
  intros HQ ->. split; [done|]. exists c, (set_pos p cu), x. cbn. by rewrite lookup_insert_eq.
Qed.

(** A move by no data, and by a key of a size LMDB supports if any. *)
Definition sized (o : MDB_cursor_op) (k : bytes) : Prop :=
  op_uses_data o = false /\ (op_uses_key o = true -> key_size_ok k).

(** The answer of [mdb_cursor_get] for the cursor. *)
Lemma at_answer k v o r s' :
  sure _ s (mdb_cursor_get (Some c) k v o) r s' -> sized o k ->
  (forall n, cur_move d (cur_pos cu) o k v = inr n -> is_Some (db_data d !! n)) ->
  (forall rc, cur_move d (cur_pos cu) o k v = inl rc -> rc = MDB_NOTFOUND) ->
  match cur_move d (cur_pos cu) o k v with
  | inr n => exists p, db_data d !! n = Some p /\ r = (0, p) /\ s' = upd_cur c (set_pos (Some n) cu) s
  | inl _ => fst r = MDB_NOTFOUND /\ exists p, s' = upd_cur c (set_pos p cu) s
  end.
Proof.
  intros (Ha & _ & Hs) [Hu Hk] Hin Hnf. destruct Ha as (cu' & Hcu' & Ha). assert (cu' = cu) as -> by congruence.
  specialize (Hs c cu d eq_refl Hcu at_db Hk ltac:(congruence)). destruct Ha as [(d' & Hd' & Ha)|[[Hf1 Hf2] _]].
  - rewrite at_db in Hd'. injection Hd' as <-.
    destruct (cur_move d (cur_pos cu) o k v) as [rc|n] eqn:Hm; [|done].
    destruct Ha as (Hrc & p & -> & _). split; [by rewrite Hrc; apply Hnf|]. by exists p.
  - destruct (cur_move d (cur_pos cu) o k v) as [rc|n] eqn:Hm.
    + destruct Hf2. by rewrite Hs; apply Hnf.
    + by destruct Hf1; apply Hs, Hin.
Qed.

(** A call that moves the cursor: what it answers and where it ends. *)
Definition moves_to (m : Z + nat) (r : info) (h' : heap) (s' : lmdb) : Prop :=
  h' = h /\
  match m with
  | inr n => js r = JsReturn (v_bool true) /\ is_Some (db_data d !! n) /\ s' = upd_cur c (set_pos (Some n) cu) s
  | inl _ => js r = JsReturn (v_bool false) /\ exists p, s' = upd_cur c (set_pos p cu) s
  end.

Lemma moved_to k v o r s' :
  sure _ s (mdb_cursor_get (Some c) k v o) r s' -> sized o k ->
  (forall n, cur_move d (cur_pos cu) o k v = inr n -> is_Some (db_data d !! n)) ->
  (forall rc, cur_move d (cur_pos cu) o k v = inl rc -> rc = MDB_NOTFOUND) ->
  wlp sure (moved (fst r)) h s' (moves_to (cur_move d (cur_pos cu) o k v)).
Proof.
  intros Ha Hz Hin Hnf. pose proof (at_answer k v o r s' Ha Hz Hin Hnf) as Hr. unfold moved.
  destruct (cur_move d (cur_pos cu) o k v) as [rc|n].
  - destruct Hr as (-> & p & ->). change (MDB_NOTFOUND =? MDB_NOTFOUND) with true.
    change (MDB_NOTFOUND =? 0) with false. wred. wstep. split_and!; [done|done|by exists p].
  - destruct Hr as (p & Hp & -> & ->). cbn [fst]. change (0 =? MDB_NOTFOUND) with false. wred. wstep.
    split_and!; [done|done|by exists p|done].
Qed.

(** Moves that only fail by not finding an entry. *)
Definition plain_move (o : MDB_cursor_op) : bool :=
  match o with
  | MDB_FIRST | MDB_LAST | MDB_NEXT | MDB_PREV | MDB_SET | MDB_SET_RANGE => true
  | _ => false
  end.

Lemma plain_moves o k v :
  plain_move o = true -> (forall n, cur_pos cu = Some n -> (n < length (db_data d))%nat) ->
  (forall n, cur_move d (cur_pos cu) o k v = inr n -> is_Some (db_data d !! n)) /\
  (forall rc, cur_move d (cur_pos cu) o k v = inl rc -> rc = MDB_NOTFOUND).
Proof.
  intros Ho Hp.
  assert (HN : forall (on : option nat), (forall n, on = Some n -> (n < length (db_data d))%nat) ->
    (forall n, not_found_or on = inr n -> is_Some (db_data d !! n)) /\
    (forall rc, not_found_or on = inl rc -> rc = MDB_NOTFOUND)).
  { intros [m|] Hm; split; cbn; intros n [= <-]; [|done]. apply lookup_lt_is_Some. by apply Hm. }
  assert (HF : forall P n, s_find P (db_data d) = Some n -> (n < length (db_data d))%nat)
    by (intros P n (p & Hn & _)%s_find_Some; by eapply lookup_lt_Some).
  assert (HL : forall n, last_index (db_data d) = Some n -> (n < length (db_data d))%nat)
    by (unfold last_index; destruct (db_data d); [done|]; intros n [= <-]; cbn; lia).
  destruct o; try done; cbn [cur_move]; try (apply HN; by apply HF); try (by apply HN).
  - apply HN. intros n. case_match; [|done]. intros [= <-]. by apply Nat.ltb_lt.
  - destruct (cur_pos cu) as [m|]; apply HN; intros n; (case_match; [|done]); intros [= <-]; by apply Nat.ltb_lt.
  - destruct (cur_pos cu) as [m|]; [|by apply HN]. specialize (Hp m eq_refl). apply HN. intros n.
    case_match; [|done]. intros [= <-]. lia.
Qed.

Lemma at_move o :
  plain_move o = true -> op_uses_key o = false ->
  (forall n, cur_pos cu = Some n -> (n < length (db_data d))%nat) ->
  wpm LMDB_sure (fun _ => False) (cursorOp K V o i) h s (fun r h' s' =>
    quiet g h' s' /\ moves_to (cur_move d (cur_pos cu) o [] []) r h' s').
Proof.
  intros Ho Hu Hp. destruct (plain_moves o [] [] Ho Hp) as [Hin Hnf].
  assert (HD : disc g h s (CurMove K V o i)) by (eexists; split_and!; [apply at_open|apply at_usable|done]).
  apply (wpm_wlp _ _ _ _ _ _ _ _ (op_safe_sure (CurMove K V o i) g h s HI HD)).
  cbn [exec_op]. unfold cursorOp, get_kvcur. pose proof (open_cur_unwrap _ _ _ _ _ at_open) as Hw.
  wstep. wstep. wstep. cbn [c_cursor]. wstep; [done|]. intros r s' Ha. apply moved_to; try done.
  split; [by destruct o|by rewrite Hu].
Qed.

Lemma at_key_op o a k :
  plain_move o = true -> kv_encode K a = Ok k -> key_size_ok k ->
  (forall n, cur_pos cu = Some n -> (n < length (db_data d))%nat) ->
  wlp sure (cursorKeyOp K V o i a) h s (moves_to (cur_move d (cur_pos cu) o k [])).
Proof.
  intros Ho Hk Fk Hp. destruct (plain_moves o k [] Ho Hp) as [Hin Hnf].
  unfold cursorKeyOp, get_kvcur. pose proof (open_cur_unwrap _ _ _ _ _ at_open) as Hw.
  do 5 wstep. cbn [c_cursor]. wstep; [done|]. intros r s' Ha. apply moved_to; try done. split; [by destruct o|done].
Qed.

Lemma at_values : typed_data K V d ->
  disc g h s (CurKey K V i) /\ disc g h s (CurVal K V i).
Proof.
  intros HT. assert (exists w, open_cur h K V i w /\ cur_usable s w /\
    forall c cu x k v, c_cursor w = Some c -> curs s !! c = Some cu -> txns s !! cur_txn cu = Some x ->
      k ∈ g -> h_db h !! k = Some v -> d_dbi v = cur_dbi cu -> key_type v = K -> value_type v = V ->
      values_ok v (txn_dbs x)) as HV; [|done].
  exists (Cursor K V (Some c)). split_and!; [apply at_open|apply at_usable|].
  intros c' cu' x' k v [= <-] Hcu' Hx' _ _ Hdbi <- <- d' a b Hd'.
  assert (cu' = cu) as -> by congruence. assert (x' = x) as -> by congruence.
  rewrite Hdbi in Hd'. assert (d' = d) as -> by congruence. apply HT.
Qed.

Lemma at_current n p r s' :
  cur_pos cu = Some n -> db_data d !! n = Some p ->
  sure _ s (mdb_cursor_get (Some c) [] [] MDB_GET_CURRENT) r s' ->
  r = (0, p) /\ s' = upd_cur c (set_pos (Some n) cu) s.
Proof.
  intros Hn Hp Ha. assert (Hm : cur_move d (cur_pos cu) MDB_GET_CURRENT [] [] = inr n).
  { rewrite Hn. cbn [cur_move]. by rewrite (proj2 (Nat.ltb_lt n _)) by (by eapply lookup_lt_Some). }
  pose proof (at_answer [] [] MDB_GET_CURRENT r s' Ha ltac:(done)) as Hr. rewrite Hm in Hr.
  destruct Hr as (q & Hq & -> & ->); [|done|].
  - intros m [= <-]. by exists p.
  - by assert (q = p) as -> by congruence.
Qed.

Lemma at_key n k v a :
  typed_data K V d -> cur_pos cu = Some n -> db_data d !! n = Some (k, v) -> kv_decode K k (length k) = Ok a ->
  wpm LMDB_sure (fun _ => False) (cursor_key K V i) h s (fun r h' s' =>
    h' = h /\ js r = JsReturn a /\ at_entry g h s' K V i d (Some n)).
Proof.
  intros HT Hn Hp Ha. eapply wpm_mono; [eapply (wpm_wlp _ _ _ _ _ _ _ (fun r h' s' =>
    h' = h /\ js r = JsReturn a /\ s' = upd_cur c (set_pos (Some n) cu) s)
    (op_safe_sure (CurKey K V i) g h s HI (proj1 (at_values HT))))|].
  - cbn [exec_op]. unfold cursor_key, get_kvcur. pose proof (open_cur_unwrap _ _ _ _ _ at_open) as Hw.
    do 3 wstep. cbn [c_cursor]. wstep; [done|]. intros r s' Hs.
    destruct (at_current n (k, v) r s' Hn Hp Hs) as [-> ->]. change (0 =? MDB_NOTFOUND) with false. wred.
    wstep. eapply wpm_pure; [exact Ha|]. by wstep.
  - intros r h' s' (HQ & -> & Hr & Hs). split_and!; [done|done|]. by apply at_moved.
Qed.

Lemma at_value n k v b :
  typed_data K V d -> cur_pos cu = Some n -> db_data d !! n = Some (k, v) -> kv_decode V v (length v) = Ok b ->
  wpm LMDB_sure (fun _ => False) (cursor_value K V i) h s (fun r h' s' =>
    h' = h /\ js r = JsReturn b /\ at_entry g h s' K V i d (Some n)).
Proof.
  intros HT Hn Hp Hb. eapply wpm_mono; [eapply (wpm_wlp _ _ _ _ _ _ _ (fun r h' s' =>
    h' = h /\ js r = JsReturn b /\ s' = upd_cur c (set_pos (Some n) cu) s)
    (op_safe_sure (CurVal K V i) g h s HI (proj2 (at_values HT))))|].
  - cbn [exec_op]. unfold cursor_value, get_kvcur. pose proof (open_cur_unwrap _ _ _ _ _ at_open) as Hw.
    do 3 wstep. cbn [c_cursor]. wstep; [done|]. intros r s' Hs.
    destruct (at_current n (k, v) r s' Hn Hp Hs) as [-> ->]. change (0 =? MDB_NOTFOUND) with false. wred.
    wstep. eapply wpm_pure; [exact Hb|]. by wstep.
  - intros r h' s' (HQ & -> & Hr & Hs). split_and!; [done|done|]. by apply at_moved.
Qed.
End Steps.

Definition in_range (d : db_st) (pos : option nat) : Prop :=
  forall n, pos = Some n -> (n < length (db_data d))%nat.

(** [first], [next] and the like, seen from the cursor's position. *)
Lemma step_move o g h s K V i d pos :
  plain_move o = true -> op_uses_key o = false -> in_range d pos -> at_entry g h s K V i d pos ->
  wpm LMDB_sure (fun _ => False) (cursorOp K V o i) h s (fun r h' s' => h' = h /\
    match cur_move d pos o [] [] with
    | inr n => js r = JsReturn (v_bool true) /\ at_entry g h s' K V i d (Some n) /\ (n < length (db_data d))%nat
    | inl _ => js r = JsReturn (v_bool false) /\ exists p, at_entry g h s' K V i d p
    end).
Proof.
  intros Ho Hu Hr (HI & c & cu & x & Hi & Hcu & Hst & <- & Hx & Hl & Hd).
  eapply wpm_mono; [eapply (at_move g h s K V i d c cu x); try done|].
  intros r h' s' (HQ & -> & Hm). split; [done|]. destruct (cur_move d (cur_pos cu) o [] []) as [rc|n].
  - destruct Hm as (Hj & p & Hs). split; [done|]. exists p. by eapply at_moved.
  - destruct Hm as (Hj & Hn & Hs). split_and!; [done|by eapply at_moved|by apply lookup_lt_is_Some].
Qed.

Lemma shown_cons K V k v l out :
  mapM (shown K V) ((k, v) :: l) = Ok out -> exists a b rest,
    kv_decode K k (length k) = Ok a /\ kv_decode V v (length v) = Ok b /\
    mapM (shown K V) l = Ok rest /\ out = (JsReturn a, JsReturn b) :: rest.
Proof.
  change (mapM (shown K V) ((k, v) :: l)) with
    (q ← shown K V (k, v); r ← mapM (shown K V) l; mret (q :: r) : res _).
  destruct (mapM (shown K V) l) as [rest|]; [|by destruct (shown K V (k, v))]. unfold shown. cbn.
  destruct (kv_decode K k (length k)) as [a|]; [|done]. cbn.
  destruct (kv_decode V v (length v)) as [b|]; [|done]. cbn. intros [= <-]. by exists a, b, rest.
Qed.

Lemma scan_rest `{L : !V8Laws _} fuel n g h s K V i d out :
  typed_data K V d -> at_entry g h s K V i d (Some n) -> (n < length (db_data d))%nat ->
  (length (db_data d) - n <= fuel)%nat -> mapM (shown K V) (drop n (db_data d)) = Ok out ->
  wpm LMDB_sure (fun _ => False) (scan_loop K V i fuel true) h s (fun r h' s' =>
    r = out /\ h' = h /\ exists p, at_entry g h s' K V i d p).
Proof.
  intros HT. revert n s out. induction fuel as [|f IH]; intros n s out HA Hn Hf Ho; [lia|].
  destruct (lookup_lt_is_Some_2 _ _ Hn) as [[k v] Hp]. rewrite (drop_S _ _ _ Hp) in Ho.
  apply shown_cons in Ho as (a & b & rest & Ha & Hb & Hrest & ->).
  cbn [scan_loop]. wstep. destruct HA as (HI & c & cu & x & Hi & Hcu & Hst & Hpos & Hx & Hl & Hd).
  eapply wpm_mono; [by eapply (at_key g h s K V i d c cu x)|]. intros r1 h1 s1 (-> & Hr1 & HA1).
  wstep. clear - IH HT HA1 Hp Ha Hb Hrest Hr1 Hf Hn L.
  destruct HA1 as (HI & c & cu & x & Hi & Hcu & Hst & Hpos & Hx & Hl & Hd).
  eapply wpm_mono; [by eapply (at_value g h s1 K V i d c cu x)|]. intros r2 h2 s2 (-> & Hr2 & HA2).
  wstep. eapply wpm_mono; [eapply (step_move MDB_NEXT); [done|done| |exact HA2]; by intros m [= <-]|].
  intros r3 h3 s3 (-> & Hr3). cbn [cur_move] in Hr3. destruct (Nat.ltb_spec (S n) (length (db_data d))); cbn in Hr3.
  - destruct Hr3 as (Hj & HA3 & _). rewrite Hj. cbn [truthy]. rewrite BooleanValue_bool.
    wstep. eapply wpm_mono; [apply (IH (S n) s3 rest); [done|done|lia|done]|].
    intros r4 h4 s4 (-> & -> & HA4). wstep. by rewrite Hr1, Hr2.
  - destruct Hr3 as (Hj & HA3). rewrite Hj. cbn [truthy]. rewrite BooleanValue_bool.
    rewrite drop_ge in Hrest by lia. injection Hrest as <-.
    wstep. replace (scan_loop K V i f false) with (mret [] : lmeth (list (js_result * js_result)))
      by (by destruct f). wstep. wstep. by rewrite Hr1, Hr2.
Qed.

Lemma shown_all K V d : typed_data K V d -> exists out, mapM (shown K V) (db_data d) = Ok out.
Proof.
  unfold typed_data. induction (db_data d) as [|[k v] l IH]; intros HT; [by exists []|].
  destruct (HT k v) as [[a Ha] [b Hb]]; [by left|]. destruct IH as [out Ho]; [intros; apply HT; by right|].
  change (mapM (shown K V) ((k, v) :: l)) with
    (q ← shown K V (k, v); r ← mapM (shown K V) l; mret (q :: r) : res _). rewrite Ho.
  unfold shown. cbn. rewrite Ha. cbn. rewrite Hb. by eexists.
Qed.

(** A loop over [first] and [next] shows JavaScript every entry of the
    database as the cursor's transaction sees it, once each and in the order of
    the store, on an LMDB that does not run out of anything.  As many rounds as
    there are entries are enough. *)
Theorem cursor_scan_complete `{L : !V8Laws _} g h s K V i d pos fuel :
  at_entry g h s K V i d pos -> in_range d pos -> typed_data K V d -> (length (db_data d) <= fuel)%nat ->
  exists out, mapM (shown K V) (db_data d) = Ok out /\
    wpm LMDB_sure (fun _ => False) (scan K V i fuel) h s (fun r h' s' =>
      r = out /\ h' = h /\ exists p, at_entry g h s' K V i d p).
Proof.
  intros HA Hr HT Hf. destruct (shown_all K V d HT) as [out Ho]. exists out. split; [done|]. unfold scan.
  wstep. eapply wpm_mono; [by eapply (step_move MDB_FIRST)|]. intros r h1 s1 (-> & Hm). cbn [cur_move] in Hm.
  destruct (Nat.ltb_spec 0 (length (db_data d))); cbn in Hm.
  - destruct Hm as (Hj & HA1 & _). rewrite Hj. cbn [truthy]. rewrite BooleanValue_bool.
    eapply scan_rest; try done; lia.
  - destruct Hm as (Hj & HA1). rewrite Hj. cbn [truthy]. rewrite BooleanValue_bool.
    rewrite (nil_length_inv (db_data d)) in Ho by lia. injection Ho as <-.
    replace (scan_loop K V i fuel false) with (mret [] : lmeth (list (js_result * js_result)))
      by (by destruct fuel). by wstep.
Qed.

(** A call that moves by a key, seen from the cursor's position. *)
Lemma step_key o g h s K V i d pos a k (m : lmeth info) :
  plain_move o = true -> in_range d pos -> at_entry g h s K V i d pos -> kv_encode K a = Ok k -> key_size_ok k ->
  (m = cursor_gte K V i [a] /\ o = MDB_SET_RANGE \/ m = cursor_seek K V i [a] /\ o = MDB_SET) ->
  wpm LMDB_sure (fun _ => False) m h s (fun r h' s' => h' = h /\
    match cur_move d pos o k [] with
    | inr n => js r = JsReturn (v_bool true) /\ at_entry g h s' K V i d (Some n)
    | inl _ => js r = JsReturn (v_bool false) /\ exists p, at_entry g h s' K V i d p
    end).
Proof.
  intros Ho Hr (HI & c & cu & x & Hi & Hcu & Hst & <- & Hx & Hl & Hd) Hk Fk Hm.
  assert (HD : exists w, open_cur h K V i w /\ cur_usable s w /\ encodes K (nth 0 [a] v_undefined) /\
    (length [a] <> 1%nat -> encodes V (nth 1 [a] v_undefined))).
  { exists (Cursor K V (Some c)). split_and!; [by apply at_open|by eapply at_usable|by exists k|done]. }
  assert (HS : wpm LMDB_sure (fun _ => False) m h s (fun _ h' s' => quiet g h' s')).
  { destruct Hm as [[-> _]|[-> _]];
      [exact (op_safe_sure (CurGte K V i [a]) g h s HI HD)|exact (op_safe_sure (CurSeek K V i [a]) g h s HI HD)]. }
  assert (HW : wlp sure m h s (moves_to h s d c cu (cur_move d (cur_pos cu) o k []))).
  { destruct Hm as [[-> ->]|[-> ->]]; by apply (at_key_op h s K V i d c cu x). }
  eapply wpm_mono; [exact (wpm_wlp _ _ _ _ _ _ _ _ HS HW)|]. intros r h' s' (HQ & -> & Hv). split; [done|].
  destruct (cur_move d (cur_pos cu) o k []) as [rc|n].
  - destruct Hv as (Hj & p & Hs). split; [done|]. exists p. by eapply at_moved.
  - destruct Hv as (Hj & Hn & Hs). split; [done|]. by eapply at_moved.
Qed.

(** [gte] of a key of a size LMDB supports moves the cursor to the smallest entry whose key is not below the
    given one and returns true, or returns false when every key is below it. *)
Theorem cursor_gte_least g h s K V i d pos a k :
  at_entry g h s K V i d pos -> in_range d pos -> well_kept K V d -> kv_encode K a = Ok k -> key_size_ok k ->
  wpm LMDB_sure (fun _ => False) (cursor_gte K V i [a]) h s (fun r h' s' => h' = h /\
    ((exists n p, js r = JsReturn (v_bool true) /\ at_entry g h s' K V i d (Some n) /\
        db_data d !! n = Some p /\ cmp (db_kc d) k (fst p) <= 0 /\
        forall q, q ∈ db_data d -> cmp (db_kc d) k (fst q) <= 0 -> q = p \/ entry_lt (db_kc d) (db_odc d) p q) \/
     (js r = JsReturn (v_bool false) /\ (exists p, at_entry g h s' K V i d p) /\
        forall q, q ∈ db_data d -> 0 < cmp (db_kc d) k (fst q)))).
Proof.
  intros HA Hr HW Hk Fk. eapply wpm_mono; [eapply (step_key MDB_SET_RANGE); [done|done|done|done|done|by left]|].
  intros r h' s' (-> & Hm). split; [done|]. cbn [cur_move] in Hm.
  destruct (s_find _ (db_data d)) as [n|] eqn:Hf; cbn in Hm.
  - left. destruct (s_find_Some _ _ _ Hf) as (p & Hp & HP & _). destruct Hm as [Hj HA']. exists n, p.
    split_and!; [done|done|done|by apply Z.leb_le|]. intros q Hq Hc.
    eapply find_least; [apply HW|done|done|done|]. by apply Z.leb_le.
  - right. destruct Hm as [Hj HA']. split_and!; [done|done|]. intros q Hq.
    pose proof (s_find_None _ _ _ Hf Hq) as Hc. cbn in Hc. by apply Z.leb_gt in Hc.
Qed.

(** [seek] with a key of a size LMDB supports moves the cursor to the first entry of exactly that
    key, the one [get] answers with, and returns true; it returns false when
    [get] would answer null. *)
Theorem cursor_seek_exact g h s K V i d pos a k :
  at_entry g h s K V i d pos -> in_range d pos -> well_kept K V d -> kv_encode K a = Ok k -> key_size_ok k ->
  wpm LMDB_sure (fun _ => False) (cursor_seek K V i [a]) h s (fun r h' s' => h' = h /\
    match s_get (db_kc d) k (db_data d) with
    | Some v => exists n, js r = JsReturn (v_bool true) /\ at_entry g h s' K V i d (Some n) /\
                  db_data d !! n = Some (k, v)
    | None => js r = JsReturn (v_bool false) /\ exists p, at_entry g h s' K V i d p
    end).
Proof.
  intros HA Hr HW Hk Fk. eapply wpm_mono; [eapply (step_key MDB_SET); [done|done|done|done|done|by right]|].
  intros r h' s' (-> & Hm). split; [done|]. cbn [cur_move] in Hm.
  assert (Hg : match s_find (fun p => cmp (db_kc d) k (fst p) =? 0) (db_data d) with
    | Some n => exists v, s_get (db_kc d) k (db_data d) = Some v /\ db_data d !! n = Some (k, v)
    | None => s_get (db_kc d) k (db_data d) = None end).
  { pose proof (type_comparator_laws K) as KL. destruct HW as [[Hkc _] Hs _]. rewrite <- Hkc in KL.
    assert (dom (db_kc d) k = true) as Hdk by (rewrite Hkc; eauto with kv).
    pose proof (store_wf_keys _ _ _ Hs) as Hks. clear - KL Hdk Hks. induction Hks as [|[k' v'] l Hk' _ IH]; cbn; [done|].
    destruct (Z.eqb_spec (cmp (db_kc d) k k') 0) as [E|]; [apply cmp_eq in E as <-; [by exists v'|done|done]|].
    by destruct (s_find _ l). }
  destruct (s_find _ (db_data d)) as [n|]; cbn in Hm.
  - destruct Hg as (v & -> & Hn). exists n. by destruct Hm.
  - by rewrite Hg.
Qed.
End Scan.

(** ** On the concrete run

    Two pairs are put into the database of [demo3], and a cursor is opened in
    a read-only transaction. *)
Definition demo_put (k : Z) (v : string) : op := @DbPut SimpleV8 (Num I32) Str 0 (SNum k) (SStr (lit v)) None.
Definition demo6 : heap * world := demo_do (demo_put 7 "seven") demo3.
Definition demo7 : heap * world := demo_do (demo_put (-2) "minus two") demo6.
Definition demo8 : heap * world := demo_do (@TxnNew SimpleV8 0 0 (SBool true)) demo7.
Definition demo9 : heap * world := demo_do (@CurNew SimpleV8 (Num I32) Str 0 0 0) demo8.

Definition demo_w : db := Db (Num I32) Str 2 0 None.

Lemma demo_put_reach k v st :
  demo_reach {[0%nat]} st -> h_db (fst st) !! 0%nat = Some demo_w -> h_txn (fst st) = ∅ ->
  demo_done (demo_put k v) st = true -> demo_reach {[0%nat]} (demo_do (demo_put k v) st).
Proof.
  intros HR Hw Ht Hd. change (demo_reach (after (demo_put k v) {[0%nat]} (fst (demo_do (demo_put k v) st)))
    (demo_do (demo_put k v) st)).
  apply demo_step; [done| |done]. exists demo_w. split; [split_and!; [set_solver|done|done|done]|].
  split_and!; [by eexists; cbn|exists (lit v ++ [NUL]); exact (@string_encode SimpleV8 SimpleV8_laws (SStr (lit v)))|done|].
  intros _ e _ j w t. rewrite Ht. by rewrite lookup_empty.
Qed.

Lemma demo7_reach : demo_reach {[0%nat]} demo7.
Proof.
  apply demo_put_reach; [|by vm_compute|by vm_compute|by vm_compute].
  apply demo_put_reach; [apply demo3_reach|by vm_compute|by vm_compute|by vm_compute].
Qed.

Lemma demo8_reach : demo_reach {[0%nat]} demo8.
Proof.
  change (demo_reach (after (@TxnNew SimpleV8 0 0 (SBool true)) {[0%nat]} (fst demo8)) demo8).
  apply demo_step; [apply demo7_reach| |by vm_compute]. split; [by vm_compute|].
  destruct (db_alive _ _ _ _ _ (inv_dbs _ _ _ _ _ _ (@reach_quiet SimpleV8 demo_libc _ _ _ (proj1 demo7_reach)))
    0%nat demo_w ltac:(set_solver) ltac:(by vm_compute)) as (e & ex & Hh & He & Ho).
  exists e, ex. split; [by split_and!|]. done.
Qed.

Lemma demo9_reach : demo_reach {[0%nat]} demo9.
Proof.
  change (demo_reach (after (@CurNew SimpleV8 (Num I32) Str 0 0 0) {[0%nat]} (fst demo9)) demo9).
  apply demo_step; [apply demo8_reach| |by vm_compute]. split; [by vm_compute|]. exists demo_w.
  split; [split_and!; [set_solver|by vm_compute|done|done]|].
  intros j [= <-]. eexists. split; [vm_compute; reflexivity|]. intros t [= <-]. by vm_compute.
Qed.

Definition demo_data : entries :=
  [(number_data I32 (-2), lit "minus two" ++ [NUL]); (number_data I32 7, lit "seven" ++ [NUL])].

Lemma demo9_at : exists d,
  at_entry {[0%nat]} (fst demo9) (fst (snd demo9)) (Num I32) Str 0 d None /\ db_data d = demo_data /\
  @well_kept SimpleV8 (Num I32) Str d.
Proof.
  assert (Hc : (fun cu => (cur_stale cu, cur_pos cu, cur_txn cu, cur_dbi cu)) <$> curs (fst (snd demo9)) !! 6%nat =
               Some (false, None, 5%nat, 2%nat)) by (by vm_compute).
  assert (Ht : txns (fst (snd demo9)) !! 5%nat ≫= (fun x => d ← txn_dbs x !! 2%nat;
                 Some (txn_live x, txn_env x, db_dup d, db_data d)) = Some (true, 0%nat, false, demo_data))
    by (by vm_compute).
  apply fmap_Some in Hc as (cu & Hcu & [= Hst Hpos Hct Hcd]).
  apply bind_Some in Ht as (x & Hx & (d & Hd & [= Hl Hxe Hdup Hdata])%bind_Some).
  assert (HI : quiet {[0%nat]} (fst demo9) (fst (snd demo9)))
    by (by apply (@reach_quiet SimpleV8 demo_libc), demo9_reach).
  assert (Hkc : db_typed (Num I32) Str d).
  { assert (Hh : handle_of (h_env (fst demo9)) 0 = Some (txn_env x)) by (rewrite Hxe; by vm_compute).
    pose proof (db_txn_view _ _ _ _ _ (inv_dbs _ _ _ _ _ _ HI) 0%nat demo_w 5%nat x ltac:(set_solver)
                  ltac:(by vm_compute) Hh Hx Hl) as Hv. unfold view_has in Hv. cbn in Hv. by rewrite Hd in Hv. }
  exists d. split_and!; [|done|split].
  - split; [done|]. exists 6%nat, cu, x. rewrite <- Hct, <- Hcd, <- Hpos. by split_and!.
  - done.
  - rewrite Hdata. unfold db_odc. rewrite Hdup, (proj1 Hkc). split; repeat constructor; by left.
  - intros k v. rewrite Hdata. intros [[= -> ->]|[[= -> ->]|[]%elem_of_nil]%elem_of_cons]%elem_of_cons;
      (split; eexists; vm_compute; reflexivity).
Qed.

Lemma cursor_scan_complete_witness : exists d out,
  mapM (@shown SimpleV8 (Num I32) Str) (db_data d) = Ok out /\
  wpm LMDB_sure (fun _ => False) (@scan SimpleV8 demo_libc (Num I32) Str 0 2) (fst demo9) (fst (snd demo9))
    (fun r h' s' => r = out /\ h' = fst demo9 /\ exists p, at_entry {[0%nat]} (fst demo9) s' (Num I32) Str 0 d p).
Proof.
  destruct demo9_at as (d & HA & Hd & HW).
  destruct (@cursor_scan_complete SimpleV8 demo_libc SimpleV8_laws {[0%nat]} (fst demo9) (fst (snd demo9))
    (Num I32) Str 0 d None 2 HA) as (out & Hx); [done|exact (@kept_types _ _ _ _ HW)|by rewrite Hd|].
  exists d, out. exact Hx.
Defined.

Lemma cursor_gte_least_witness : exists d,
  wpm LMDB_sure (fun _ => False) (@cursor_gte SimpleV8 demo_libc (Num I32) Str 0 [SNum 5]) (fst demo9) (fst (snd demo9))
    (fun r h' s' => h' = fst demo9 /\
    ((exists n p, js r = JsReturn (@v_bool SimpleV8 true) /\ at_entry {[0%nat]} (fst demo9) s' (Num I32) Str 0 d (Some n) /\
        db_data d !! n = Some p /\ cmp (db_kc d) (number_data I32 5) (fst p) <= 0 /\
        forall q, q ∈ db_data d -> cmp (db_kc d) (number_data I32 5) (fst q) <= 0 ->
          q = p \/ entry_lt (db_kc d) (db_odc d) p q) \/
     (js r = JsReturn (@v_bool SimpleV8 false) /\ (exists p, at_entry {[0%nat]} (fst demo9) s' (Num I32) Str 0 d p) /\
        forall q, q ∈ db_data d -> 0 < cmp (db_kc d) (number_data I32 5) (fst q)))).
Proof.
  destruct demo9_at as (d & HA & Hd & HW). exists d.
  exact (@cursor_gte_least SimpleV8 demo_libc {[0%nat]} (fst demo9) (fst (snd demo9)) (Num I32) Str 0 d None
           (SNum 5) (number_data I32 5) HA ltac:(done) HW eq_refl ltac:(split; vm_compute; lia)).
Defined.

Lemma cursor_seek_exact_witness : exists d,
  wpm LMDB_sure (fun _ => False) (@cursor_seek SimpleV8 demo_libc (Num I32) Str 0 [SNum 7]) (fst demo9) (fst (snd demo9))
    (fun r h' s' => h' = fst demo9 /\
    match s_get (db_kc d) (number_data I32 7) (db_data d) with
    | Some v => exists n, js r = JsReturn (@v_bool SimpleV8 true) /\
                  at_entry {[0%nat]} (fst demo9) s' (Num I32) Str 0 d (Some n) /\
                  db_data d !! n = Some (number_data I32 7, v)
    | None => js r = JsReturn (@v_bool SimpleV8 false) /\ exists p, at_entry {[0%nat]} (fst demo9) s' (Num I32) Str 0 d p
    end).
Proof.
  destruct demo9_at as (d & HA & Hd & HW). exists d.
  exact (@cursor_seek_exact SimpleV8 demo_libc {[0%nat]} (fst demo9) (fst (snd demo9)) (Num I32) Str 0 d None
           (SNum 7) (number_data I32 7) HA ltac:(done) HW eq_refl ltac:(split; vm_compute; lia)).
Defined.
