(* ===== verification/LvlCoding.v ===== *)
(** * LevelDB's encoding of numbers and strings

    src/3rd-party/leveldb/leveldb-1.18/util/coding.cc and coding.h: fixed-width
    little-endian numbers, variable-length numbers and length-prefixed strings.
    A [Slice] or the bytes between two pointers is the list of the bytes; a
    [std::string] appended to is a list too.  Parsing gives the value and the
    bytes behind it. *)
From S2P Require Import Prelude.

(** ** Fixed width *)
Section Fixed.
Context (kLittleEndian : bool).

Definition EncodeFixed32 (value : Z) : bytes :=
  if kLittleEndian then le_split 4 value
  else [byte.of_Z (Z.land value 0xff); byte.of_Z (Z.land (Z.shiftr value 8) 0xff);
        byte.of_Z (Z.land (Z.shiftr value 16) 0xff); byte.of_Z (Z.land (Z.shiftr value 24) 0xff)].

Definition EncodeFixed64 (value : Z) : bytes :=
  if kLittleEndian then le_split 8 value
  else [byte.of_Z (Z.land value 0xff); byte.of_Z (Z.land (Z.shiftr value 8) 0xff);
        byte.of_Z (Z.land (Z.shiftr value 16) 0xff); byte.of_Z (Z.land (Z.shiftr value 24) 0xff);
        byte.of_Z (Z.land (Z.shiftr value 32) 0xff); byte.of_Z (Z.land (Z.shiftr value 40) 0xff);
        byte.of_Z (Z.land (Z.shiftr value 48) 0xff); byte.of_Z (Z.land (Z.shiftr value 56) 0xff)].

Definition PutFixed32 (dst : bytes) (value : Z) : bytes := dst ++ EncodeFixed32 value.
Definition PutFixed64 (dst : bytes) (value : Z) : bytes := dst ++ EncodeFixed64 value.

(** The decoders read memory without a bound. *)
Definition DecodeFixed32 (ptr : bytes) : res Z :=
  match ptr with
  | b0 :: b1 :: b2 :: b3 :: _ =>
      Ok (if kLittleEndian then le_combine [b0; b1; b2; b3]
          else Z.lor (Z.lor (Z.lor (byte.unsigned b0) (Z.shiftl (byte.unsigned b1) 8))
                 (Z.shiftl (byte.unsigned b2) 16)) (Z.shiftl (byte.unsigned b3) 24))
  | _ => Ub OobRead
  end.

Definition DecodeFixed64 (ptr : bytes) : res Z :=
  if kLittleEndian then
    if (8 <=? length ptr)%nat then Ok (le_combine (take 8 ptr)) else Ub OobRead
  else
    lo ← DecodeFixed32 ptr;
    hi ← DecodeFixed32 (drop 4 ptr);
    Ok (Z.lor (Z.shiftl hi 32) lo).
End Fixed.

(** ** Variable length *)
Definition EncodeVarint32 (v : Z) : bytes :=
  let B := 128 in
  if v <? Z.shiftl 1 7 then [byte.of_Z v]
  else if v <? Z.shiftl 1 14 then [byte.of_Z (Z.lor v B); byte.of_Z (Z.shiftr v 7)]
  else if v <? Z.shiftl 1 21 then
    [byte.of_Z (Z.lor v B); byte.of_Z (Z.lor (Z.shiftr v 7) B); byte.of_Z (Z.shiftr v 14)]
  else if v <? Z.shiftl 1 28 then
    [byte.of_Z (Z.lor v B); byte.of_Z (Z.lor (Z.shiftr v 7) B); byte.of_Z (Z.lor (Z.shiftr v 14) B);
     byte.of_Z (Z.shiftr v 21)]
  else
    [byte.of_Z (Z.lor v B); byte.of_Z (Z.lor (Z.shiftr v 7) B); byte.of_Z (Z.lor (Z.shiftr v 14) B);
     byte.of_Z (Z.lor (Z.shiftr v 21) B); byte.of_Z (Z.shiftr v 28)].

Definition PutVarint32 (dst : bytes) (v : Z) : bytes := dst ++ EncodeVarint32 v.

(** The loop of [EncodeVarint64]; [None] when the rounds are used up. *)
Fixpoint encode_varint_loop (rounds : nat) (v : Z) : option bytes :=
  match rounds with
  | O => None
  | S n =>
      if 128 <=? v
      then cons (byte.of_Z (Z.lor (Z.land v (128 - 1)) 128)) <$> encode_varint_loop n (Z.shiftr v 7)
      else Some [byte.of_Z v]
  end.

(** A 64-bit number takes at most ten rounds. *)
Definition EncodeVarint64 (v : Z) : option bytes := encode_varint_loop 10 v.

Definition PutVarint64 (dst : bytes) (v : Z) : option bytes := (app dst) <$> EncodeVarint64 v.

Fixpoint varint_length_loop (rounds : nat) (v len : Z) : option Z :=
  match rounds with
  | O => None
  | S n => if 128 <=? v then varint_length_loop n (Z.shiftr v 7) (len + 1) else Some len
  end.

Definition VarintLength (v : Z) : option Z := varint_length_loop 10 v 1.

Fixpoint GetVarint32PtrFallback_loop (p : bytes) (shift result : Z) : option (Z * bytes) :=
  match p with
  | b :: p' =>
      if shift <=? 28 then
        let byte := byte.unsigned b in
        if negb (Z.land byte 128 =? 0)
        then GetVarint32PtrFallback_loop p' (shift + 7)
               (Z.lor result (wrap_u 32 (Z.shiftl (Z.land byte 127) shift)))
        else Some (Z.lor result (wrap_u 32 (Z.shiftl byte shift)), p')
      else None
  | [] => None
  end.

Definition GetVarint32PtrFallback (p : bytes) : option (Z * bytes) := GetVarint32PtrFallback_loop p 0 0.

Definition GetVarint32Ptr (p : bytes) : option (Z * bytes) :=
  match p with
  | b :: p' =>
      let result := byte.unsigned b in
      if Z.land result 128 =? 0 then Some (result, p') else GetVarint32PtrFallback p
  | [] => GetVarint32PtrFallback p
  end.

Fixpoint GetVarint64Ptr_loop (p : bytes) (shift result : Z) : option (Z * bytes) :=
  match p with
  | b :: p' =>
      if shift <=? 63 then
        let byte := byte.unsigned b in
        if negb (Z.land byte 128 =? 0)
        then GetVarint64Ptr_loop p' (shift + 7)
               (Z.lor result (wrap_u 64 (Z.shiftl (Z.land byte 127) shift)))
        else Some (Z.lor result (wrap_u 64 (Z.shiftl byte shift)), p')
      else None
  | [] => None
  end.

Definition GetVarint64Ptr (p : bytes) : option (Z * bytes) := GetVarint64Ptr_loop p 0 0.

(** The variants on a [Slice] leave it as it is when they fail. *)
Definition GetVarint32 (input : bytes) : option Z * bytes :=
  match GetVarint32Ptr input with
  | None => (None, input)
  | Some (v, q) => (Some v, q)
  end.

Definition GetVarint64 (input : bytes) : option Z * bytes :=
  match GetVarint64Ptr input with
  | None => (None, input)
  | Some (v, q) => (Some v, q)
  end.

(** ** Length-prefixed strings *)

(** The size is passed as a [uint32_t]. *)
Definition PutLengthPrefixedSlice (dst value : bytes) : bytes :=
  PutVarint32 dst (wrap_u 32 (Z.of_nat (length value))) ++ value.

Definition GetLengthPrefixedSlicePtr (p : bytes) : option (bytes * bytes) :=
  match GetVarint32Ptr p with
  | None => None
  | Some (len, q) =>
      if (length q <? Z.to_nat len)%nat then None
      else Some (take (Z.to_nat len) q, drop (Z.to_nat len) q)
  end.

(** On a [Slice] the length is consumed even when the string is too short. *)
Definition GetLengthPrefixedSlice (input : bytes) : option bytes * bytes :=
  let '(r, input) := GetVarint32 input in
  match r with
  | Some len =>
      if (Z.to_nat len <=? length input)%nat
      then (Some (take (Z.to_nat len) input), drop (Z.to_nat len) input)
      else (None, input)
  | None => (None, input)
  end.

(** ** Bytes and bits *)
Lemma byte_low7 b : Z.land (byte.unsigned b) 127 = byte.unsigned b mod 128.
Proof. by destruct b. Qed.

Lemma byte_high b : (Z.land (byte.unsigned b) 128 =? 0) = (byte.unsigned b <? 128).
Proof. by destruct b. Qed.

Lemma byte_set_high b : Z.lor (byte.unsigned b) 128 = byte.unsigned b mod 128 + 128.
Proof. by destruct b. Qed.

(** The byte stored for [v | 128]. *)
Lemma cont_byte v : byte.unsigned (byte.of_Z (Z.lor v 128)) = v mod 128 + 128.
Proof.
  rewrite byte.unsigned_of_Z. unfold byte.wrap. change 256 with (2 ^ 8).
  rewrite <- Z.land_ones, Z.land_lor_distr_l, (Z.land_ones v) by lia.
  change (2 ^ 8) with 256. change (v mod 256) with (byte.wrap v). rewrite <- byte.unsigned_of_Z.
  change (Z.land 128 (Z.ones 8)) with 128. rewrite byte_set_high, byte.unsigned_of_Z. unfold byte.wrap.
  f_equal. apply Z.mod_mod_divide. by exists 2.
Qed.

Lemma lor_high v : byte.of_Z (Z.lor (Z.land v (128 - 1)) 128) = byte.of_Z (Z.lor v 128).
Proof.
  apply byte_inj. rewrite !cont_byte. f_equal. change (128 - 1) with (Z.ones 7).
  rewrite Z.land_ones by lia. apply Z.mod_mod. lia.
Qed.

Lemma lor_add a b s : 0 <= s -> 0 <= a < 2 ^ s -> Z.lor a (b * 2 ^ s) = a + b * 2 ^ s.
Proof.
  intros Hs Ha. assert (Z.land a (b * 2 ^ s) = 0) as H0.
  { rewrite <- Z.shiftl_mul_pow2 by done. apply Z.bits_inj_0. intros n.
    destruct (Z.ltb_spec n 0); [by rewrite Z.testbit_neg_r|]. rewrite Z.land_spec.
    destruct (Z.ltb_spec n s); [rewrite Z.shiftl_spec_low by lia; apply andb_false_r|].
    rewrite <- (Z.mod_small a (2 ^ s)) by done. rewrite Z.mod_pow2_bits_high by lia. done. }
  by rewrite Z.add_nocarry_lxor, Z.lxor_lor.
Qed.

Lemma shiftr7 v : Z.shiftr v 7 = v / 128.
Proof. by rewrite Z.shiftr_div_pow2. Qed.

(** ** Variable-length numbers *)
Lemma encode_loop_enough n v :
  0 <= v < 2 ^ (7 * (Z.of_nat n + 1)) -> is_Some (encode_varint_loop (S n) v).
Proof.
  revert v. induction n as [|n IH]; intros v Hv.
  - cbn in Hv. cbn. destruct (Z.leb_spec 128 v); [lia|by eexists].
  - change (encode_varint_loop (S (S n)) v) with (if 128 <=? v
      then cons (byte.of_Z (Z.lor (Z.land v (128 - 1)) 128)) <$> encode_varint_loop (S n) (Z.shiftr v 7)
      else Some [byte.of_Z v]).
    destruct (Z.leb_spec 128 v); [|by eexists]. rewrite shiftr7. apply fmap_is_Some, IH.
    split; [apply Z.div_pos; lia|].
    apply Z.div_lt_upper_bound; [lia|]. change 128 with (2 ^ 7). rewrite <- Z.pow_add_r by lia.
    replace (7 + 7 * (Z.of_nat n + 1)) with (7 * (Z.of_nat (S n) + 1)) by lia. apply Hv.
Qed.

Lemma varint_length_loop_spec n v len bs :
  encode_varint_loop n v = Some bs -> varint_length_loop n v len = Some (len + Z.of_nat (length bs) - 1).
Proof.
  revert v len bs. induction n as [|n IH]; intros v len bs; cbn; [done|]. destruct (128 <=? v).
  - destruct (encode_varint_loop n (Z.shiftr v 7)) as [bs'|] eqn:E; [|done]. intros [= <-].
    rewrite (IH _ _ _ E). cbn. f_equal. lia.
  - intros [= <-]. cbn. f_equal. lia.
Qed.

Lemma encode_loop_rounds n m v bs : encode_varint_loop n v = Some bs -> (n <= m)%nat -> encode_varint_loop m v = Some bs.
Proof.
  revert m v bs. induction n as [|n IH]; intros m v bs; [done|]. cbn. destruct m as [|m]; [lia|]. intros E Hm. cbn.
  destruct (128 <=? v); [|done]. destruct (encode_varint_loop n (Z.shiftr v 7)) as [b|] eqn:E'; [|done].
  rewrite (IH m _ b) by (done || lia). done.
Qed.

Lemma encode_loop_length n v bs : encode_varint_loop n v = Some bs -> (1 <= length bs <= n)%nat.
Proof.
  revert v bs. induction n as [|n IH]; intros v bs; cbn; [done|]. destruct (128 <=? v).
  - destruct (encode_varint_loop n (Z.shiftr v 7)) as [b|] eqn:E; [|done]. intros [= <-]. apply IH in E. cbn. lia.
  - intros [= <-]. cbn. lia.
Qed.

Lemma shift_test v a : 0 <= a -> (128 <=? Z.shiftr v a) = negb (v <? Z.shiftl 1 (a + 7)).
Proof.
  intros Ha. apply eq_true_iff_eq. rewrite Z.leb_le, negb_true_iff, Z.ltb_ge, Z.shiftr_div_pow2 by done.
  rewrite Z.shiftl_mul_pow2, Z.pow_add_r by lia. assert (0 < 2 ^ a) by (apply Z.pow_pos_nonneg; lia).
  pose proof (Z.mul_div_le v (2 ^ a) ltac:(lia)). split; intros; [nia|].
  apply Z.div_le_lower_bound; lia.
Qed.

(** The unrolled encoder of 32-bit numbers is the loop. *)
Lemma EncodeVarint32_loop v : 0 <= v < 2 ^ 32 -> encode_varint_loop 5 v = Some (EncodeVarint32 v).
Proof.
  intros Hv. unfold EncodeVarint32. cbn [encode_varint_loop].
  rewrite !Z.shiftr_shiftr by lia. rewrite !lor_high. rewrite !shift_test by lia.
  replace (128 <=? v) with (negb (v <? Z.shiftl 1 7)) by (symmetry; by apply (shift_test v 0)).
  change (7 + 7) with 14. change (14 + 7) with 21. change (21 + 7) with 28. change (28 + 7) with 35.
  assert ((v <? Z.shiftl 1 35) = true) as -> by (apply Z.ltb_lt; change (Z.shiftl 1 35) with (2 ^ 35); lia).
  by repeat (destruct (v <? _); cbn [negb fmap option_fmap option_map]).
Qed.

(** A decoding loop of width [w] that goes on up to shift [m]. *)
Fixpoint get_loop (w m : Z) (p : bytes) (shift result : Z) : option (Z * bytes) :=
  match p with
  | b :: p' =>
      if shift <=? m then
        let byte := byte.unsigned b in
        if negb (Z.land byte 128 =? 0)
        then get_loop w m p' (shift + 7) (Z.lor result (wrap_u w (Z.shiftl (Z.land byte 127) shift)))
        else Some (Z.lor result (wrap_u w (Z.shiftl byte shift)), p')
      else None
  | [] => None
  end.

Lemma get_loop_32 p shift result : GetVarint32PtrFallback_loop p shift result = get_loop 32 28 p shift result.
Proof. revert shift result. induction p as [|b p IH]; intros; cbn; [done|]. by rewrite IH. Qed.

Lemma get_loop_64 p shift result : GetVarint64Ptr_loop p shift result = get_loop 64 63 p shift result.
Proof. revert shift result. induction p as [|b p IH]; intros; cbn; [done|]. by rewrite IH. Qed.

Lemma add_digit w shift result x :
  0 <= shift -> 0 <= result < 2 ^ shift -> 0 <= x < 2 ^ (w - shift) -> shift < w ->
  Z.lor result (wrap_u w (Z.shiftl x shift)) = result + x * 2 ^ shift.
Proof.
  intros Hs Hr Hx Hw. rewrite Z.shiftl_mul_pow2 by done. rewrite wrap_u_small; [by apply lor_add|].
  assert (0 < 2 ^ shift) by (apply Z.pow_pos_nonneg; lia).
  assert (2 ^ w = 2 ^ (w - shift) * 2 ^ shift) by (rewrite <- Z.pow_add_r by lia; f_equal; lia). nia.
Qed.

Lemma get_loop_spec w m n v bs rest shift result :
  (forall s, s < w -> s mod 7 = 0 -> s <= m) ->
  encode_varint_loop n v = Some bs -> 0 <= shift < w -> shift mod 7 = 0 ->
  0 <= v < 2 ^ (w - shift) -> 0 <= result < 2 ^ shift ->
  get_loop w m (bs ++ rest) shift result = Some (result + v * 2 ^ shift, rest).
Proof.
  intros Hm. revert v bs shift result. induction n as [|n IH]; intros v bs shift result E Hs Hs7 Hv Hr; [done|].
  cbn in E. destruct (Z.leb_spec 128 v) as [Hb|Hb].
  - destruct (encode_varint_loop n (Z.shiftr v 7)) as [bs'|] eqn:E'; [|done]. injection E as <-.
    cbn [app get_loop]. rewrite (proj2 (Z.leb_le shift m)) by (apply Hm; lia). cbv zeta.
    rewrite lor_high, byte_high, byte_low7, cont_byte.
    pose proof (Z.mod_pos_bound v 128 ltac:(lia)) as Hd. pose proof (Z.div_mod v 128 ltac:(lia)) as Hdm.
    rewrite (proj2 (Z.ltb_ge (v mod 128 + 128) 128)) by lia. cbn [negb].
    replace ((v mod 128 + 128) mod 128) with (v mod 128)
      by (rewrite <- Zplus_mod_idemp_r, Z_mod_same_full, Z.add_0_r; symmetry; apply Z.mod_mod; lia).
    assert (7 <= w - shift) as H7.
    { destruct (Z.leb_spec 7 (w - shift)); [done|].
      assert (2 ^ (w - shift) < 2 ^ 7) by (apply Z.pow_lt_mono_r; lia). lia. }
    assert (2 ^ (w - shift) = 128 * 2 ^ (w - (shift + 7))) as Hp
      by (change 128 with (2 ^ 7); rewrite <- Z.pow_add_r by lia; f_equal; lia).
    assert (2 ^ (shift + 7) = 2 ^ shift * 128) as Hp2 by (rewrite Z.pow_add_r by lia; done).
    rewrite add_digit by lia. rewrite (IH (Z.shiftr v 7)); [f_equal; f_equal; rewrite shiftr7, Hp2; nia|done|..].
    + assert (w - shift <> 7); [|lia]. intros E7. rewrite E7 in Hv. cbn in Hv. lia.
    + rewrite <- Zplus_mod_idemp_l, Hs7. done.
    + rewrite shiftr7. nia.
    + nia.
  - injection E as <-. cbn [app get_loop]. rewrite (proj2 (Z.leb_le shift m)) by (apply Hm; lia). cbv zeta.
    rewrite byte_high, byte_of_Z_small by lia. rewrite (proj2 (Z.ltb_lt v 128)) by lia. cbn [negb].
    by rewrite add_digit by lia.
Qed.

(** ** Round trips *)
Lemma varint32_get v rest : 0 <= v < 2 ^ 32 -> GetVarint32Ptr (EncodeVarint32 v ++ rest) = Some (v, rest).
Proof.
  intros Hv. pose proof (EncodeVarint32_loop v Hv) as E.
  assert (F : GetVarint32PtrFallback (EncodeVarint32 v ++ rest) = Some (v, rest)).
  { unfold GetVarint32PtrFallback. rewrite get_loop_32.
    rewrite (get_loop_spec 32 28 5 v _ rest 0 0); [f_equal; f_equal; lia| |done|lia|done|lia|lia].
    intros s Hs Hs7. pose proof (Z.div_mod s 7 ltac:(lia)). lia. }
  unfold GetVarint32Ptr. destruct (EncodeVarint32 v ++ rest) as [|b p] eqn:Ep; [done|].
  destruct (Z.land (byte.unsigned b) 128 =? 0) eqn:Hb; [|done].
  unfold GetVarint32PtrFallback in F. cbn in F. rewrite Hb in F. cbn in F.
  injection F as Hf ->. pose proof (byte_range b).
  rewrite Z.shiftl_0_r, wrap_u_small, Z.lor_0_l in Hf by lia. by rewrite Hf.
Qed.

Lemma varint64_get v bs rest :
  0 <= v < 2 ^ 64 -> EncodeVarint64 v = Some bs -> GetVarint64Ptr (bs ++ rest) = Some (v, rest).
Proof.
  intros Hv E. unfold GetVarint64Ptr. rewrite get_loop_64.
  rewrite (get_loop_spec 64 63 10 v bs rest 0 0); [f_equal; f_equal; lia| |done|lia|done|lia|lia].
  intros s Hs _. lia.
Qed.

Lemma varint32_length v :
  0 <= v < 2 ^ 32 -> VarintLength v = Some (Z.of_nat (length (EncodeVarint32 v))) /\
    (1 <= length (EncodeVarint32 v) <= 5)%nat.
Proof.
  intros Hv. split.
  - unfold VarintLength. rewrite (varint_length_loop_spec 10 v 1 (EncodeVarint32 v)); [f_equal; lia|].
    apply (encode_loop_rounds 5); [by apply EncodeVarint32_loop|lia].
  - unfold EncodeVarint32. repeat case_match; cbn; lia.
Qed.

Lemma length_prefixed_get dst value rest :
  Z.of_nat (length value) < 2 ^ 32 ->
  exists enc, PutLengthPrefixedSlice dst value = dst ++ enc /\
    GetLengthPrefixedSlice (enc ++ rest) = (Some value, rest) /\
    GetLengthPrefixedSlicePtr (enc ++ rest) = Some (value, rest).
Proof.
  intros Hl. exists (EncodeVarint32 (Z.of_nat (length value)) ++ value). split.
  - unfold PutLengthPrefixedSlice, PutVarint32. by rewrite wrap_u_small, <- app_assoc by lia.
  - unfold GetLengthPrefixedSlice, GetLengthPrefixedSlicePtr, GetVarint32.
    rewrite <- app_assoc, varint32_get by lia. rewrite Nat2Z.id, length_app.
    rewrite (proj2 (Nat.leb_le _ _)), (proj2 (Nat.ltb_ge _ _)) by lia.
    by rewrite take_app_length, drop_app_length.
Qed.

(** *** Truncated input *)
Lemma get_loop_short w m n v bs k shift result :
  encode_varint_loop n v = Some bs -> (k < length bs)%nat -> get_loop w m (take k bs) shift result = None.
Proof.
  revert v bs k shift result. induction n as [|n IH]; intros v bs k shift result E Hk; [done|]. cbn in E.
  destruct (128 <=? v).
  - destruct (encode_varint_loop n (Z.shiftr v 7)) as [bs'|] eqn:E'; [|done]. injection E as <-.
    destruct k as [|k]; [done|]. cbn [take get_loop]. destruct (shift <=? m); [|done]. cbv zeta.
    rewrite lor_high, byte_high, cont_byte. pose proof (Z.mod_pos_bound v 128 ltac:(lia)).
    rewrite (proj2 (Z.ltb_ge _ _)) by lia. cbn [negb]. eapply IH; [done|]. cbn in Hk. lia.
  - injection E as <-. cbn in Hk. by destruct k; [|lia].
Qed.

Lemma varint32_short v k : 0 <= v < 2 ^ 32 -> (k < length (EncodeVarint32 v))%nat -> GetVarint32Ptr (take k (EncodeVarint32 v)) = None.
Proof.
  intros Hv Hk. assert (F : GetVarint32PtrFallback (take k (EncodeVarint32 v)) = None).
  { unfold GetVarint32PtrFallback. rewrite get_loop_32. eapply get_loop_short; [by apply EncodeVarint32_loop|done]. }
  unfold GetVarint32Ptr. destruct (take k (EncodeVarint32 v)) as [|b p]; [done|].
  unfold GetVarint32PtrFallback in F. cbn in F. cbn. by destruct (Z.land (byte.unsigned b) 128 =? 0).
Qed.

Lemma length_prefixed_short value k :
  Z.of_nat (length value) < 2 ^ 32 ->
  (k < length (EncodeVarint32 (Z.of_nat (length value)) ++ value))%nat ->
  fst (GetLengthPrefixedSlice (take k (EncodeVarint32 (Z.of_nat (length value)) ++ value))) = None.
Proof.
  intros Hl Hk. rewrite length_app in Hk. rewrite take_app. unfold GetLengthPrefixedSlice, GetVarint32.
  destruct (Nat.lt_ge_cases k (length (EncodeVarint32 (Z.of_nat (length value))))) as [Hlt|Hge].
  - replace (k - length (EncodeVarint32 (Z.of_nat (length value))))%nat with 0%nat by lia.
    rewrite take_0, app_nil_r. by rewrite varint32_short by lia.
  - rewrite take_ge, varint32_get by lia. rewrite Nat2Z.id, length_take.
    by rewrite (proj2 (Nat.leb_gt _ _)) by lia.
Qed.

(** Parsing only consumes input. *)
Lemma get_loop_rest w m p shift result v q : get_loop w m p shift result = Some (v, q) -> (length q < length p)%nat.
Proof.
  revert shift result. induction p as [|b p IH]; intros shift result; cbn [get_loop]; [done|].
  destruct (shift <=? m); [|done]. cbv zeta. destruct (negb _).
  - intros E%IH. cbn. lia.
  - intros [= _ <-]. cbn. lia.
Qed.

Lemma varint32_rest p v q : GetVarint32Ptr p = Some (v, q) -> (length q < length p)%nat.
Proof.
  unfold GetVarint32Ptr, GetVarint32PtrFallback. destruct p as [|b p]; [done|]. rewrite get_loop_32.
  destruct (_ =? 0); [intros [= _ <-]; cbn; lia|]. apply get_loop_rest.
Qed.

Lemma length_prefixed_rest p : (length (snd (GetLengthPrefixedSlice p)) <= length p)%nat.
Proof.
  unfold GetLengthPrefixedSlice, GetVarint32. destruct (GetVarint32Ptr p) as [[v q]|] eqn:E; [|done].
  apply varint32_rest in E. destruct (_ <=? _)%nat; cbn; rewrite ?length_drop; lia.
Qed.

(** A length-prefixed string shorter than 4 GiB reads back as itself with
    the bytes behind it left over, and no proper prefix of its encoding is
    taken for a string. *)
Theorem length_prefixed_roundtrip dst value :
  Z.of_nat (length value) < 2 ^ 32 ->
  exists enc, PutLengthPrefixedSlice dst value = dst ++ enc /\
    (forall rest, GetLengthPrefixedSlice (enc ++ rest) = (Some value, rest)) /\
    (forall k, (k < length enc)%nat -> fst (GetLengthPrefixedSlice (take k enc)) = None).
Proof.
  intros Hl. exists (EncodeVarint32 (Z.of_nat (length value)) ++ value).
  assert (He : PutLengthPrefixedSlice dst value = dst ++ EncodeVarint32 (Z.of_nat (length value)) ++ value)
    by (unfold PutLengthPrefixedSlice, PutVarint32; by rewrite wrap_u_small, <- app_assoc by lia).
  split_and!; [done| |by intros; apply length_prefixed_short].
  intros rest. destruct (length_prefixed_get dst value rest Hl) as (enc' & He' & Hg & _).
  assert (enc' = EncodeVarint32 (Z.of_nat (length value)) ++ value) as -> by (apply (inj (app dst)); congruence).
  done.
Qed.

Lemma length_prefixed_roundtrip_witness : exists enc,
  PutLengthPrefixedSlice [] (lit "key") = [] ++ enc /\
    (forall rest, GetLengthPrefixedSlice (enc ++ rest) = (Some (lit "key"), rest)) /\
    (forall k, (k < length enc)%nat -> fst (GetLengthPrefixedSlice (take k enc)) = None).
Proof. apply (length_prefixed_roundtrip [] (lit "key")). cbn. lia. Defined.

(** Variable-length numbers of LevelDB read back as what was written, with
    whatever follows left over; the unrolled 32-bit encoder agrees with the
    64-bit loop, whose ten rounds are enough and whose output fits the
    ten-byte buffer, and [VarintLength] is the length of the encoding. *)
Theorem varint_roundtrip v rest :
  0 <= v < 2 ^ 64 -> exists bs, EncodeVarint64 v = Some bs /\ GetVarint64Ptr (bs ++ rest) = Some (v, rest) /\
    VarintLength v = Some (Z.of_nat (length bs)) /\ (1 <= length bs <= 10)%nat /\
    (v < 2 ^ 32 -> EncodeVarint32 v = bs /\ GetVarint32Ptr (bs ++ rest) = Some (v, rest) /\ (length bs <= 5)%nat).
Proof.
  intros Hv. destruct (encode_loop_enough 9 v) as [bs E]; [cbn; lia|]. exists bs.
  assert (Hl : VarintLength v = Some (Z.of_nat (length bs)))
    by (unfold VarintLength; rewrite (varint_length_loop_spec 10 v 1 bs E); f_equal; lia).
  split_and!; [done|by apply varint64_get|done|..].
  - by destruct (encode_loop_length 10 v bs E).
  - by destruct (encode_loop_length 10 v bs E).
  - intros Hv32. assert (EncodeVarint32 v = bs) as <-.
    { pose proof (encode_loop_rounds 5 10 v _ (EncodeVarint32_loop v ltac:(lia)) ltac:(lia)) as E'.
      unfold EncodeVarint64 in E. congruence. }
    split_and!; [done|apply varint32_get; lia|]. apply varint32_length. lia.
Qed.

Lemma varint_roundtrip_witness : exists bs,
  EncodeVarint64 300 = Some bs /\ GetVarint64Ptr (bs ++ [NUL]) = Some (300, [NUL]) /\
    VarintLength 300 = Some (Z.of_nat (length bs)) /\ (1 <= length bs <= 10)%nat /\
    (300 < 2 ^ 32 -> EncodeVarint32 300 = bs /\ GetVarint32Ptr (bs ++ [NUL]) = Some (300, [NUL]) /\
       (length bs <= 5)%nat).
Proof. apply (varint_roundtrip 300 [NUL]). lia. Defined.

(** ** Fixed-width numbers *)
Lemma of_Z_low v : byte.of_Z (Z.land v 0xff) = byte.of_Z v.
Proof.
  apply byte_inj. rewrite !byte.unsigned_of_Z. unfold byte.wrap. change 0xff with (Z.ones 8).
  rewrite Z.land_ones by lia. apply Z.mod_mod. lia.
Qed.

Lemma encode32_le e v : EncodeFixed32 e v = le_split 4 v.
Proof.
  destruct e; [done|]. unfold EncodeFixed32, EncodeFixed64. cbv [le_split]. rewrite !of_Z_low.
  by rewrite !Z.shiftr_shiftr by lia.
Qed.

Lemma encode64_le e v : EncodeFixed64 e v = le_split 8 v.
Proof.
  destruct e; [done|]. unfold EncodeFixed32, EncodeFixed64. cbv [le_split]. rewrite !of_Z_low.
  by rewrite !Z.shiftr_shiftr by lia.
Qed.

Lemma decode32_le e b0 b1 b2 b3 p : DecodeFixed32 e (b0 :: b1 :: b2 :: b3 :: p) = Ok (le_combine [b0; b1; b2; b3]).
Proof.
  destruct e; [done|]. cbv [DecodeFixed32 le_combine]. f_equal. rewrite !Z.shiftl_lor, !Z.shiftl_shiftl by lia.
  rewrite Z.shiftl_0_l, Z.lor_0_r, !Z.lor_assoc. done.
Qed.

Lemma decode64_le e b p : length b = 8%nat -> DecodeFixed64 e (b ++ p) = Ok (le_combine b).
Proof.
  intros Hb. destruct e; unfold DecodeFixed64.
  - rewrite length_app, Hb. cbn [Nat.add Nat.leb]. f_equal. f_equal. by apply take_app_length'.
  - do 8 (destruct b as [|? b]; [done|]). destruct b; [|done]. cbn [app drop]. rewrite !decode32_le.
    cbv [mbind res_bind le_combine]. f_equal. rewrite Z.lor_comm. rewrite !Z.shiftl_lor, !Z.shiftl_shiftl by lia.
    rewrite !Z.shiftl_0_l, !Z.lor_0_r, !Z.lor_assoc. done.
Qed.

Lemma fixed32_get e e' v rest :
  0 <= v < 2 ^ 32 -> DecodeFixed32 e (EncodeFixed32 e' v ++ rest) = Ok v.
Proof.
  intros Hv. rewrite encode32_le. cbv [le_split]. cbn [app]. rewrite decode32_le.
  change [byte.of_Z v; byte.of_Z (Z.shiftr v 8); byte.of_Z (Z.shiftr (Z.shiftr v 8) 8);
    byte.of_Z (Z.shiftr (Z.shiftr (Z.shiftr v 8) 8) 8)] with (le_split 4 v).
  rewrite le_combine_split. f_equal. by apply Z.mod_small.
Qed.

Lemma fixed64_get e e' v rest :
  0 <= v < 2 ^ 64 -> DecodeFixed64 e (EncodeFixed64 e' v ++ rest) = Ok v.
Proof.
  intros Hv. rewrite encode64_le, decode64_le by apply length_le_split.
  rewrite le_combine_split. f_equal. by apply Z.mod_small.
Qed.

(** Fixed-width numbers read back as what was written, also when the file
    was written on a machine of the other byte order. *)
Theorem fixed_roundtrip e e' v rest :
  (0 <= v < 2 ^ 32 -> DecodeFixed32 e (EncodeFixed32 e' v ++ rest) = Ok v) /\
  (0 <= v < 2 ^ 64 -> DecodeFixed64 e (EncodeFixed64 e' v ++ rest) = Ok v) /\
  EncodeFixed32 e v = EncodeFixed32 e' v /\ EncodeFixed64 e v = EncodeFixed64 e' v.
Proof. split_and!; [apply fixed32_get|apply fixed64_get|by rewrite !encode32_le|by rewrite !encode64_le]. Qed.
