(* ===== verification/LvlBase.v ===== *)
(** * Slices, comparators and statuses of LevelDB

    include/leveldb/slice.h, util/comparator.cc, include/leveldb/status.h and
    util/status.cc of src/3rd-party/leveldb/leveldb-1.18.  A [Slice] is the list
    of the bytes it refers to. *)
From S2P Require Import Prelude Store LvlCoding.

(** ** Slices *)

(** [memcmp] of the first [n] bytes, as the difference of the first bytes that
    differ. *)
Fixpoint memcmp (a b : bytes) (n : nat) : res Z :=
  match n with
  | O => Ok 0
  | S n' =>
      match a, b with
      | x :: a', y :: b' =>
          if byte.unsigned x =? byte.unsigned y then memcmp a' b' n'
          else Ok (byte.unsigned x - byte.unsigned y)
      | _, _ => Ub OobRead
      end
  end.

Definition slice_compare (a b : bytes) : res Z :=
  let min_len := if (length a <? length b)%nat then length a else length b in
  r ← memcmp a b min_len;
  Ok (if r =? 0 then
        if (length a <? length b)%nat then -1 else if (length b <? length a)%nat then 1 else r
      else r).

Definition starts_with (a x : bytes) : res bool :=
  if (length x <=? length a)%nat then r ← memcmp a x (length x); Ok (r =? 0) else Ok false.

Definition slice_eq (x y : bytes) : res bool :=
  if (length x =? length y)%nat then r ← memcmp x y (length x); Ok (r =? 0) else Ok false.

(** ** The bytewise comparator *)
Definition bw_Name : bytes := lit "leveldb.BytewiseComparator".

(** The first index below [n] at which the two differ, or [n]. *)
Fixpoint diff_index (a b : bytes) (n : nat) : nat :=
  match n, a, b with
  | S n', x :: a', y :: b' => if decide (x = y) then S (diff_index a' b' n') else O
  | _, _, _ => O
  end.

Definition bw_FindShortestSeparator (start limit : bytes) : bytes :=
  let min_length := Nat.min (length start) (length limit) in
  let i := diff_index start limit min_length in
  if (min_length <=? i)%nat then start
  else
    match start !! i, limit !! i with
    | Some diff_byte, Some l =>
        if (byte.unsigned diff_byte <? 0xff) && (byte.unsigned diff_byte + 1 <? byte.unsigned l)
        then take i start ++ [byte.of_Z (byte.unsigned diff_byte + 1)]
        else start
    | _, _ => start
    end.

Fixpoint bw_FindShortSuccessor (key : bytes) : bytes :=
  match key with
  | [] => []
  | b :: key' =>
      if byte.unsigned b =? 0xff then b :: bw_FindShortSuccessor key'
      else [byte.of_Z (byte.unsigned b + 1)]
  end.

(** ** Statuses

    [state_] is NULL or an array of the message's length, the code and the
    message. *)
Inductive Code := kOk | kNotFound | kCorruption | kNotSupported | kInvalidArgument | kIOError.

#[export] Instance Code_eq_dec : EqDecision Code.
Proof. solve_decision. Defined.

Definition code_val (c : Code) : Z :=
  match c with
  | kOk => 0 | kNotFound => 1 | kCorruption => 2 | kNotSupported => 3 | kInvalidArgument => 4 | kIOError => 5
  end.

Abbreviation Status := (option bytes).

Definition status_OK : Status := None.

(** [Status(Code code, const Slice& msg, const Slice& msg2)]; [memcpy] of the
    size writes it in the machine's order, little-endian here. *)
Definition status_new (code : Code) (msg msg2 : bytes) : Status :=
  let len1 := wrap_u 32 (Z.of_nat (length msg)) in
  let len2 := wrap_u 32 (Z.of_nat (length msg2)) in
  let size := wrap_u 32 (len1 + (if negb (len2 =? 0) then 2 + len2 else 0)) in
  Some (le_split 4 size ++ [byte.of_Z (code_val code)] ++ take (Z.to_nat len1) msg ++
        (if negb (len2 =? 0) then lit ": " ++ take (Z.to_nat len2) msg2 else [])).

Definition NotFound (msg : bytes) : Status := status_new kNotFound msg [].
Definition Corruption (msg : bytes) : Status := status_new kCorruption msg [].
Definition NotSupported (msg : bytes) : Status := status_new kNotSupported msg [].
Definition InvalidArgument (msg : bytes) : Status := status_new kInvalidArgument msg [].
Definition IOError (msg msg2 : bytes) : Status := status_new kIOError msg msg2.

Definition status_ok (s : Status) : bool := match s with None => true | Some _ => false end.

(** The code byte, as a number. *)
Definition status_code (s : Status) : res Z :=
  match s with
  | None => Ok 0
  | Some st => of_option OobRead (byte.unsigned <$> st !! 4%nat)
  end.

Definition IsNotFound (s : Status) : res bool := c ← status_code s; Ok (c =? code_val kNotFound).
Definition IsCorruption (s : Status) : res bool := c ← status_code s; Ok (c =? code_val kCorruption).
Definition IsIOError (s : Status) : res bool := c ← status_code s; Ok (c =? code_val kIOError).

Definition CopyState (state : bytes) : res bytes :=
  size ← DecodeFixed32 true state;
  if (Z.to_nat size + 5 <=? length state)%nat then Ok (take (Z.to_nat size + 5) state) else Ub OobRead.

Definition type_text (c : Z) (unknown : bytes) : bytes :=
  if c =? 0 then lit "OK"
  else if c =? 1 then lit "NotFound: "
  else if c =? 2 then lit "Corruption: "
  else if c =? 3 then lit "Not implemented: "
  else if c =? 4 then lit "Invalid argument: "
  else if c =? 5 then lit "IO error: "
  else unknown.

(** [unknown] is what [snprintf] prints for a code out of range. *)
Definition status_ToString (unknown : Z -> bytes) (s : Status) : res bytes :=
  match s with
  | None => Ok (lit "OK")
  | Some st =>
      c ← status_code s;
      length_ ← DecodeFixed32 true st;
      if (5 + Z.to_nat length_ <=? length st)%nat
      then Ok (type_text c (unknown c) ++ take (Z.to_nat length_) (drop 5 st))
      else Ub OobRead
  end.

(** ** Comparison *)
Lemma slice_compare_cons x y a b :
  slice_compare (x :: a) (y :: b) =
  if byte.unsigned x =? byte.unsigned y then slice_compare a b else Ok (byte.unsigned x - byte.unsigned y).
Proof.
  unfold slice_compare. cbn [length]. change (S (length a) <? S (length b))%nat with (length a <? length b)%nat.
  change (S (length b) <? S (length a))%nat with (length b <? length a)%nat.
  destruct (Z.eqb_spec (byte.unsigned x) (byte.unsigned y)) as [E|E].
  - destruct (length a <? length b)%nat; cbn [memcmp]; by rewrite (proj2 (Z.eqb_eq _ _) E).
  - destruct (length a <? length b)%nat; cbn [memcmp]; rewrite (proj2 (Z.eqb_neq _ _) E); cbn;
      by rewrite (proj2 (Z.eqb_neq (byte.unsigned x - byte.unsigned y) 0)) by lia.
Qed.

(** [Slice::compare] reads inside both slices only and gives the sign of the
    lexicographic order of unsigned bytes, zero exactly for equal slices. *)
Theorem slice_compare_lexical a b : exists r, slice_compare a b = Ok r /\
  (r < 0 <-> lex_cmp a b < 0) /\ (r = 0 <-> a = b).
Proof.
  revert b. induction a as [|x a IH]; intros [|y b].
  - by exists 0.
  - exists (-1). cbn. by split_and!.
  - exists 1. cbn. by split_and!.
  - rewrite slice_compare_cons. cbn [lex_cmp].
    destruct (Z.eqb_spec (byte.unsigned x) (byte.unsigned y)) as [E|E].
    + assert (x = y) as -> by (by apply byte_inj). destruct (IH b) as (r & -> & Hlt & Heq). exists r.
      rewrite Z.ltb_irrefl, Hlt, Heq. split_and!; [done|done|]. naive_solver.
    + exists (byte.unsigned x - byte.unsigned y). split; [done|].
      destruct (Z.ltb_spec (byte.unsigned x) (byte.unsigned y)),
        (Z.ltb_spec (byte.unsigned y) (byte.unsigned x)); try lia; (split; [lia|]);
        (split; [lia|intros [= -> _]; lia]).
Qed.

(** ** Shortened keys *)
Lemma sep_nil_l b : bw_FindShortestSeparator [] b = [].
Proof. done. Qed.

Lemma sep_nil_r a : bw_FindShortestSeparator a [] = a.
Proof. unfold bw_FindShortestSeparator. cbn [length]. by rewrite Nat.min_0_r. Qed.

Lemma sep_same x a b :
  bw_FindShortestSeparator (x :: a) (x :: b) = x :: bw_FindShortestSeparator a b.
Proof.
  unfold bw_FindShortestSeparator. cbn [length]. rewrite <- Nat.succ_min_distr. cbn [diff_index].
  rewrite decide_True by done. cbn [Nat.leb]. destruct (_ <=? _)%nat; [done|]. cbn.
  destruct (a !! _); [|done]. destruct (b !! _); [|done]. by destruct (_ && _).
Qed.

Lemma sep_diff x y a b :
  x <> y -> bw_FindShortestSeparator (x :: a) (y :: b) =
  if (byte.unsigned x <? 0xff) && (byte.unsigned x + 1 <? byte.unsigned y)
  then [byte.of_Z (byte.unsigned x + 1)] else x :: a.
Proof.
  intros Hxy. unfold bw_FindShortestSeparator. cbn [length]. rewrite <- Nat.succ_min_distr. cbn [diff_index].
  rewrite decide_False by done. done.
Qed.

Lemma lex_refl a : lex_cmp a a = 0.
Proof. by apply lex_cmp_eq. Qed.

Lemma short_sep_ok start limit :
  lex_cmp start limit < 0 ->
  lex_cmp start (bw_FindShortestSeparator start limit) <= 0 /\
  lex_cmp (bw_FindShortestSeparator start limit) limit < 0 /\
  (length (bw_FindShortestSeparator start limit) <= length start)%nat.
Proof.
  revert limit. induction start as [|x a IH]; intros [|y b]; cbn [lex_cmp]; try done.
  destruct (decide (x = y)) as [->|Hxy].
  + rewrite Z.ltb_irrefl. intros Hlt. rewrite sep_same. cbn [lex_cmp length]. rewrite Z.ltb_irrefl.
    destruct (IH b Hlt) as (? & ? & ?). split_and!; [done|done|lia].
  + rewrite sep_diff by done. assert (byte.unsigned x <> byte.unsigned y) by (by intros ?%byte_inj).
    destruct (Z.ltb_spec (byte.unsigned x) (byte.unsigned y)), (Z.ltb_spec (byte.unsigned y) (byte.unsigned x));
      intros Hlt; try lia. pose proof (byte_range x).
    destruct (_ && _) eqn:Ha.
    * apply andb_true_iff in Ha as [Hx Hy]. cbn [lex_cmp length]. rewrite byte_of_Z_small by lia.
      rewrite (proj2 (Z.ltb_lt (byte.unsigned x) _)), (proj2 (Z.ltb_lt (byte.unsigned x + 1) _)) by lia.
      split_and!; [done|done|lia].
    * cbn [lex_cmp]. rewrite Z.ltb_irrefl, lex_refl.
      by rewrite (proj2 (Z.ltb_lt (byte.unsigned x) (byte.unsigned y))) by lia.
Qed.

Lemma short_succ_ok key :
  lex_cmp key (bw_FindShortSuccessor key) <= 0 /\ (length (bw_FindShortSuccessor key) <= length key)%nat.
Proof.
  induction key as [|x a [IH1 IH2]]; [done|]. cbn [bw_FindShortSuccessor]. pose proof (byte_range x).
  destruct (Z.eqb_spec (byte.unsigned x) 0xff).
  + cbn [lex_cmp length]. rewrite Z.ltb_irrefl. split; [done|lia].
  + cbn [lex_cmp length]. rewrite byte_of_Z_small by lia.
    rewrite (proj2 (Z.ltb_lt (byte.unsigned x) _)) by lia. split; [done|lia].
Qed.

(** The separators LevelDB shortens its index keys to are right: for
    [start] below [limit] the result is at or above [start], below [limit] and
    not longer than [start]; the successor of a key is at or above it and not
    longer. *)
Theorem short_keys_in_order start limit :
  (lex_cmp start limit < 0 ->
     lex_cmp start (bw_FindShortestSeparator start limit) <= 0 /\
     lex_cmp (bw_FindShortestSeparator start limit) limit < 0 /\
     (length (bw_FindShortestSeparator start limit) <= length start)%nat) /\
  lex_cmp start (bw_FindShortSuccessor start) <= 0 /\
  (length (bw_FindShortSuccessor start) <= length start)%nat.
Proof. split; [apply short_sep_ok|apply short_succ_ok]. Qed.

(** ** Statuses *)
Definition status_body (msg msg2 : bytes) : bytes :=
  msg ++ match msg2 with [] => [] | _ => lit ": " ++ msg2 end.

Lemma status_new_eq c msg msg2 :
  Z.of_nat (length msg + length msg2) + 2 < 2 ^ 32 ->
  status_new c msg msg2 = Some (EncodeFixed32 true (Z.of_nat (length (status_body msg msg2))) ++
                                byte.of_Z (code_val c) :: status_body msg msg2) /\
  Z.of_nat (length (status_body msg msg2)) < 2 ^ 32.
Proof.
  intros Hl. unfold status_new, status_body. rewrite !(wrap_u_small 32 (Z.of_nat _)) by lia.
  rewrite !Nat2Z.id, !take_ge by done. rewrite wrap_u_small by (case_match; lia). destruct msg2 as [|b msg2].
  - cbn [length Z.of_nat Z.eqb negb]. rewrite !app_nil_r, Z.add_0_r. split; [done|lia].
  - replace (Z.of_nat (length (b :: msg2)) =? 0) with false by (symmetry; apply Z.eqb_neq; cbn; lia).
    cbn [negb]. rewrite !length_app. change (length (lit ": ")) with 2%nat. split; [|lia].
    f_equal. f_equal. f_equal. lia.
Qed.

(** A status gives back the code and the message it was made from: only
    [OK] is ok, [IsNotFound] and the like tell the codes apart, and [ToString]
    is the name of the code with the message, or with both messages joined by a
    colon; a copy reads the same. *)
Theorem status_reads_back unknown c msg msg2 :
  c <> kOk -> Z.of_nat (length msg + length msg2) + 2 < 2 ^ 32 ->
  exists st, status_new c msg msg2 = Some st /\ status_code (Some st) = Ok (code_val c) /\
    IsNotFound (Some st) = Ok (bool_decide (c = kNotFound)) /\
    status_ToString unknown (Some st) = Ok (type_text (code_val c) [] ++ status_body msg msg2) /\
    CopyState st = Ok st.
Proof.
  intros Hc Hl. destruct (status_new_eq c msg msg2 Hl) as [Hs Hb]. eexists. split; [exact Hs|].
  assert (Hcode : forall (l : bytes) b body, length l = 4%nat -> (l ++ b :: body) !! 4%nat = Some b)
    by (intros l b body Hlen; by rewrite lookup_app_r, Hlen by lia).
  assert (Hu : byte.unsigned (byte.of_Z (code_val c)) = code_val c) by (by destruct c).
  assert (Hst : status_code (Some (EncodeFixed32 true (Z.of_nat (length (status_body msg msg2))) ++
      byte.of_Z (code_val c) :: status_body msg msg2)) = Ok (code_val c)).
  { unfold status_code. rewrite Hcode by (by rewrite encode32_le, length_le_split). cbn [fmap option_fmap option_map of_option].
    by rewrite Hu. }
  split_and!; [done| | |].
  - unfold IsNotFound. rewrite Hst. by destruct c.
  - unfold status_ToString. rewrite Hst. cbn [mbind res_bind]. rewrite fixed32_get by lia. cbn [mbind res_bind].
    rewrite Nat2Z.id, length_app, encode32_le, length_le_split. cbn [length].
    rewrite (proj2 (Nat.leb_le _ _)) by lia.
    rewrite drop_app_ge by (rewrite length_le_split; lia). rewrite length_le_split. cbn [Nat.sub drop].
    rewrite take_ge by done. by destruct c.
  - unfold CopyState. rewrite fixed32_get by lia. cbn [mbind res_bind].
    rewrite Nat2Z.id, length_app, encode32_le, length_le_split. cbn [length].
    rewrite (proj2 (Nat.leb_le _ _)) by lia. f_equal. apply take_ge.
    rewrite length_app, length_le_split. cbn [length]. lia.
Qed.

Lemma status_reads_back_witness : exists st,
  status_new kIOError (lit "LOCK") (lit "held") = Some st /\ status_code (Some st) = Ok 5 /\
    IsNotFound (Some st) = Ok (bool_decide (kIOError = kNotFound)) /\
    status_ToString (fun _ => []) (Some st) = Ok (type_text 5 [] ++ status_body (lit "LOCK") (lit "held")) /\
    CopyState st = Ok st.
Proof. apply (status_reads_back (fun _ => []) kIOError (lit "LOCK") (lit "held")); [done|cbn; lia]. Defined.
