(* ===== verification/LvlLog.v ===== *)
(** * LevelDB's log files

    src/3rd-party/leveldb/leveldb-1.18/db/log_format.h, log_writer.cc and
    log_reader.cc: the file that keeps the write batches (and, for the manifest,
    the version edits) until they are in tables.  A log is a sequence of blocks
    of 32 KB; a record is cut into fragments that do not cross a block, each with
    a header of its checksum, length and type.  The files are the interfaces of
    include/leveldb/env.h. *)
From S2P Require Import Prelude LvlCoding LvlCrc LvlBase.

(** ** Files *)
Class WritableFile (W : Type) := {
  Append : bytes -> W -> Status * W;
  Flush : W -> Status * W
}.

Class SequentialFile (F : Type) := {
  Read : nat -> F -> Status * bytes * F;
  Skip : Z -> F -> Status * F
}.

(** ** The format *)
Inductive RecordType := kZeroType | kFullType | kFirstType | kMiddleType | kLastType.

#[export] Instance RecordType_eq_dec : EqDecision RecordType.
Proof. solve_decision. Defined.

Definition rt_val (t : RecordType) : Z :=
  match t with kZeroType => 0 | kFullType => 1 | kFirstType => 2 | kMiddleType => 3 | kLastType => 4 end.

Definition kMaxRecordType : Z := rt_val kLastType.
Definition kBlockSize : Z := 32768.
Definition kHeaderSize : Z := 4 + 2 + 1.

(** What [ReadPhysicalRecord] returns besides the types. *)
Definition kEof : Z := kMaxRecordType + 1.
Definition kBadRecord : Z := kMaxRecordType + 2.

Section Log.
Context (kLittleEndian : bool).
(** Where a buffer is in memory, which [Extend] looks at. *)
Context (data_at : bytes -> Z).

Definition crc_value (data : bytes) : res Z := crc_Value kLittleEndian (data_at data) data.

(** ** Writer *)
Section Writer.
Context {W : Type} `{!WritableFile W}.

Record Writer := MkWriter { dest_ : W; block_offset_ : Z; type_crc_ : list Z }.

(** The loop over the types in the constructor. *)
Fixpoint type_crcs (i : Z) (n : nat) : res (list Z) :=
  match n with
  | O => Ok []
  | S n' => c ← crc_value [byte.of_Z i]; l ← type_crcs (i + 1) n'; Ok (c :: l)
  end.

Definition Writer_new (dest : W) : res Writer :=
  l ← type_crcs 0 (Z.to_nat (kMaxRecordType + 1));
  Ok (MkWriter dest 0 l).

Definition EmitPhysicalRecord (t : RecordType) (ptr : bytes) (w : Writer) : res (Status * Writer) :=
  let n := Z.of_nat (length ptr) in
  tc ← of_option OobRead (type_crc_ w !! Z.to_nat (rt_val t));
  crc ← Extend kLittleEndian (data_at ptr) tc ptr;
  let crc := Mask crc in
  let buf := EncodeFixed32 kLittleEndian crc ++
    [byte.of_Z (Z.land n 0xff); byte.of_Z (Z.shiftr n 8); byte.of_Z (rt_val t)] in
  let r := Append buf (dest_ w) in
  let r := if status_ok (fst r) then
             let r := Append ptr (snd r) in
             if status_ok (fst r) then Flush (snd r) else r
           else r in
  Ok (fst r, MkWriter (snd r) (block_offset_ w + kHeaderSize + n) (type_crc_ w)).

(** The fragment a round of [AddRecord] emits has the bytes [ptr] in front. *)
Definition record_type (begin end_ : bool) : RecordType :=
  if begin && end_ then kFullType else if begin then kFirstType else if end_ then kLastType else kMiddleType.

(** A new block when a header does not fit any more. *)
Definition switch_block (w : Writer) : Writer :=
  let leftover := kBlockSize - block_offset_ w in
  if leftover <? kHeaderSize then
    MkWriter (if 0 <? leftover then snd (Append (replicate (Z.to_nat leftover) NUL) (dest_ w)) else dest_ w) 0 (type_crc_ w)
  else w.

(** Without rounds left the record is not finished. *)
Fixpoint AddRecord_loop (fuel : nat) (begin : bool) (ptr : bytes) (w : Writer) : res (option Status * Writer) :=
  match fuel with
  | O => Ok (None, w)
  | S n =>
      let w := switch_block w in
      let avail := Z.to_nat (kBlockSize - block_offset_ w - kHeaderSize) in
      let fragment_length := if (length ptr <? avail)%nat then length ptr else avail in
      let end_ := (length ptr =? fragment_length)%nat in
      r ← EmitPhysicalRecord (record_type begin end_) (take fragment_length ptr) w;
      let left := drop fragment_length ptr in
      if status_ok (fst r) && (0 <? length left)%nat then AddRecord_loop n false left (snd r)
      else Ok (Some (fst r), snd r)
  end.

Definition AddRecord (slice : bytes) (w : Writer) : res (option Status * Writer) :=
  AddRecord_loop (2 + length slice) true slice w.
End Writer.

(** ** Reader *)
Section Reader.
Context {F : Type} `{!SequentialFile F}.

(** [reports_] is what the reporter was told, the last first; [None] when there
    is no reporter. *)
Record Reader := MkReader {
  file_ : F; reports_ : option (list (Z * Status)); checksum_ : bool; buffer_ : bytes; eof_ : bool;
  last_record_offset_ : Z; end_of_buffer_offset_ : Z; initial_offset_ : Z }.

Definition Reader_new (file : F) (reporter checksum : bool) (initial_offset : Z) : Reader :=
  MkReader file (if reporter then Some [] else None) checksum [] false 0 0 initial_offset.

Definition set_buffer (b : bytes) (r : Reader) : Reader :=
  MkReader (file_ r) (reports_ r) (checksum_ r) b (eof_ r) (last_record_offset_ r) (end_of_buffer_offset_ r) (initial_offset_ r).
Definition set_eof (r : Reader) : Reader :=
  MkReader (file_ r) (reports_ r) (checksum_ r) (buffer_ r) true (last_record_offset_ r) (end_of_buffer_offset_ r) (initial_offset_ r).
Definition set_last (o : Z) (r : Reader) : Reader :=
  MkReader (file_ r) (reports_ r) (checksum_ r) (buffer_ r) (eof_ r) o (end_of_buffer_offset_ r) (initial_offset_ r).
Definition set_file (f : F) (b : bytes) (e : Z) (r : Reader) : Reader :=
  MkReader f (reports_ r) (checksum_ r) b (eof_ r) (last_record_offset_ r) e (initial_offset_ r).

Definition buf_size (r : Reader) : Z := Z.of_nat (length (buffer_ r)).

Definition ReportDrop (bytes_ : Z) (reason : Status) (r : Reader) : Reader :=
  match reports_ r with
  | Some l =>
      if initial_offset_ r <=? wrap_u 64 (end_of_buffer_offset_ r - buf_size r - bytes_)
      then MkReader (file_ r) (Some ((bytes_, reason) :: l)) (checksum_ r) (buffer_ r) (eof_ r)
             (last_record_offset_ r) (end_of_buffer_offset_ r) (initial_offset_ r)
      else r
  | None => r
  end.

Definition ReportCorruption (bytes_ : Z) (reason : bytes) (r : Reader) : Reader := ReportDrop bytes_ (Corruption reason) r.

Definition SkipToInitialBlock (r : Reader) : bool * Reader :=
  let offset_in_block := initial_offset_ r mod kBlockSize in
  let block_start_location := initial_offset_ r - offset_in_block in
  let block_start_location :=
    if kBlockSize - 6 <? offset_in_block then wrap_u 64 (block_start_location + kBlockSize) else block_start_location in
  let r := set_file (file_ r) (buffer_ r) block_start_location r in
  if 0 <? block_start_location then
    let s := Skip block_start_location (file_ r) in
    let r := set_file (snd s) (buffer_ r) block_start_location r in
    if negb (status_ok (fst s)) then (false, ReportDrop block_start_location (fst s) r) else (true, r)
  else (true, r).

(** From the header on; the type is a [char] and is extended with its sign. *)
Definition parse_record (r : Reader) : res (Z * bytes * Reader) :=
  match buffer_ r with
  | _ :: _ :: _ :: _ :: h4 :: h5 :: h6 :: payload =>
      let a := byte.unsigned h4 in
      let b := byte.unsigned h5 in
      let type := wrap_u 32 (wrap_s 8 (byte.unsigned h6)) in
      let length_ := Z.lor a (Z.shiftl b 8) in
      if buf_size r <? kHeaderSize + length_ then
        let drop_size := buf_size r in
        let eof := eof_ r in
        let r := set_buffer [] r in
        if negb eof then Ok (kBadRecord, [], ReportCorruption drop_size (lit "bad record length") r)
        else Ok (kEof, [], r)
      else if (type =? rt_val kZeroType) && (length_ =? 0) then Ok (kBadRecord, [], set_buffer [] r)
      else
        let data := take (Z.to_nat length_) payload in
        good ← (if checksum_ r then
                  stored ← DecodeFixed32 kLittleEndian (buffer_ r);
                  actual ← crc_value (h6 :: data);
                  Ok (actual =? Unmask stored)
                else Ok true);
        if negb good then
          let drop_size := buf_size r in
          Ok (kBadRecord, [], ReportCorruption drop_size (lit "checksum mismatch") (set_buffer [] r))
        else
          let r := set_buffer (drop (Z.to_nat length_) payload) r in
          if wrap_u 64 (end_of_buffer_offset_ r - buf_size r - kHeaderSize - length_) <? initial_offset_ r
          then Ok (kBadRecord, [], r)
          else Ok (type, data, r)
  | _ => Ub OobRead
  end.

(** Two rounds are enough: after a read the buffer is full or the file at its
    end. *)
Fixpoint ReadPhysicalRecord_loop (fuel : nat) (r : Reader) : res (Z * bytes * Reader) :=
  match fuel with
  | O => Ok (kEof, [], r)
  | S n =>
      if buf_size r <? kHeaderSize then
        if negb (eof_ r) then
          let '(status, data, f) := Read (Z.to_nat kBlockSize) (file_ r) in
          let r := set_file f data (wrap_u 64 (end_of_buffer_offset_ r + Z.of_nat (length data))) r in
          if negb (status_ok status) then Ok (kEof, [], set_eof (ReportDrop kBlockSize status (set_buffer [] r)))
          else if buf_size r <? kBlockSize then ReadPhysicalRecord_loop n (set_eof r)
          else ReadPhysicalRecord_loop n r
        else Ok (kEof, [], set_buffer [] r)
      else parse_record r
  end.

Definition ReadPhysicalRecord (r : Reader) : res (Z * bytes * Reader) := ReadPhysicalRecord_loop 2 r.

(** A record still open when another starts: an empty one is dropped quietly. *)
Definition drop_partial (inf : bool) (scratch reason : bytes) (r : Reader) : Reader :=
  if inf && negb (bool_decide (scratch = [])) then ReportCorruption (Z.of_nat (length scratch)) reason r else r.

(** The loop of [ReadRecord]: whether a fragmented record is being read, what
    has been read of it and where it began.  [unknown] prints the message of an
    unknown type.  [None] stands for out of rounds. *)
Context (unknown : Z -> bytes).

Fixpoint ReadRecord_loop (fuel : nat) (inf : bool) (scratch : bytes) (off : Z) (r : Reader) : res (option (option bytes) * Reader) :=
  match fuel with
  | O => Ok (None, r)
  | S n =>
      let phys := wrap_u 64 (end_of_buffer_offset_ r - buf_size r) in
      p ← ReadPhysicalRecord r;
      let '(type, fragment, r) := p in
      if type =? rt_val kFullType then
        Ok (Some (Some fragment), set_last phys (drop_partial inf scratch (lit "partial record without end(1)") r))
      else if type =? rt_val kFirstType then
        ReadRecord_loop n true fragment phys (drop_partial inf scratch (lit "partial record without end(2)") r)
      else if type =? rt_val kMiddleType then
        if negb inf then
          ReadRecord_loop n inf scratch off (ReportCorruption (Z.of_nat (length fragment)) (lit "missing start of fragmented record(1)") r)
        else ReadRecord_loop n inf (scratch ++ fragment) off r
      else if type =? rt_val kLastType then
        if negb inf then
          ReadRecord_loop n inf scratch off (ReportCorruption (Z.of_nat (length fragment)) (lit "missing start of fragmented record(2)") r)
        else Ok (Some (Some (scratch ++ fragment)), set_last off r)
      else if type =? kEof then Ok (Some None, r)
      else if type =? kBadRecord then
        if inf then
          ReadRecord_loop n false [] off (ReportCorruption (Z.of_nat (length scratch)) (lit "error in middle of record") r)
        else ReadRecord_loop n inf scratch off r
      else
        ReadRecord_loop n false [] off
          (ReportCorruption (Z.of_nat (length fragment + (if inf then length scratch else 0))) (unknown type) r)
  end.

(** The record read, [Some None] at the end of the file. *)
Definition ReadRecord (fuel : nat) (r : Reader) : res (option (option bytes) * Reader) :=
  if last_record_offset_ r <? initial_offset_ r then
    let s := SkipToInitialBlock r in
    if fst s then ReadRecord_loop fuel false [] 0 (snd s) else Ok (Some None, snd s)
  else ReadRecord_loop fuel false [] 0 r.
End Reader.
End Log.

#[global] Arguments Writer : clear implicits.
#[global] Arguments Reader : clear implicits.
