(* ===== verification/LvlLogSpec.v ===== *)
(** * What a log gives back

    The layout of a log, and that the reader finds in any prefix of it exactly
    the records that are complete there. *)
From S2P Require Import Prelude LvlCoding LvlCrc LvlBase LvlLog.

(** ** Files *)

(** A file that takes what is appended. *)
Class Reliable (W : Type) `{!WritableFile W} (contents : W -> bytes) : Prop := {
  append_grows d w : exists w', Append d w = (status_OK, w') /\ contents w' = contents w ++ d;
  flush_keeps w : exists w', Flush w = (status_OK, w') /\ contents w' = contents w
}.

(** A file that can be read: [rest] is what has not been read yet. *)
Class Readable (F : Type) `{!SequentialFile F} (rest : F -> bytes) : Prop :=
  read_takes n f : exists f', Read n f = (status_OK, take n (rest f), f') /\ rest f' = drop n (rest f).

#[export] Instance MemWritable : WritableFile bytes := {| Append d w := (status_OK, w ++ d); Flush w := (status_OK, w) |}.
#[export] Instance MemReliable : Reliable bytes (fun w => w).
Proof. split; intros; by eexists. Qed.
#[export] Instance MemSequential : SequentialFile bytes :=
  {| Read n f := (status_OK, take n f, drop n f); Skip n f := (status_OK, drop (Z.to_nat n) f) |}.
#[export] Instance MemReadable : Readable bytes (fun f => f).
Proof. intros n f. by eexists. Qed.

(** ** The layout *)
Definition pad (p : nat) : bytes :=
  let leftover := kBlockSize - Z.of_nat p mod kBlockSize in
  if leftover <? kHeaderSize then replicate (Z.to_nat leftover) NUL else [].

Definition header (t : RecordType) (f : bytes) : bytes :=
  let n := Z.of_nat (length f) in
  le_split 4 (Mask (crc32c 0 (byte.of_Z (rt_val t) :: f))) ++
  [byte.of_Z (Z.land n 0xff); byte.of_Z (Z.shiftr n 8); byte.of_Z (rt_val t)].

Definition start (p : nat) : nat := (p + length (pad p))%nat.
Definition avail (p : nat) : nat := Z.to_nat (kBlockSize - Z.of_nat (start p) mod kBlockSize - kHeaderSize).
Definition phys (p : nat) (t : RecordType) (f : bytes) : bytes := pad p ++ header t f ++ f.
Definition behind (p : nat) (f : bytes) : nat := (start p + 7 + length f)%nat.

Fixpoint log_of (p : nat) (l : list (RecordType * bytes)) : bytes :=
  match l with
  | [] => []
  | (t, f) :: l' => phys p t f ++ log_of (behind p f) l'
  end.

(** How a record is cut at position [p]. *)
Inductive cut : bool -> nat -> bytes -> list (RecordType * bytes) -> Prop :=
| cut_end begin p r : (length r <= avail p)%nat -> cut begin p r [(record_type begin true, r)]
| cut_more begin p f r l : length f = avail p -> r <> [] -> cut false (behind p f) r l ->
    cut begin p (f ++ r) ((record_type begin false, f) :: l).

Lemma length_header t f : length (header t f) = 7%nat.
Proof. unfold header. by rewrite length_app, length_le_split. Qed.

Lemma pad_length p : Z.of_nat (length (pad p)) =
  if kBlockSize - Z.of_nat p mod kBlockSize <? kHeaderSize then kBlockSize - Z.of_nat p mod kBlockSize else 0.
Proof.
  unfold pad. pose proof (Z.mod_pos_bound (Z.of_nat p) kBlockSize eq_refl). destruct (_ <? _); [|done].
  rewrite length_replicate. lia.
Qed.

Lemma start_mod p : Z.of_nat (start p) mod kBlockSize =
  if kBlockSize - Z.of_nat p mod kBlockSize <? kHeaderSize then 0 else Z.of_nat p mod kBlockSize.
Proof.
  unfold start. rewrite Nat2Z.inj_add, pad_length. pose proof (Z.div_mod (Z.of_nat p) kBlockSize ltac:(done)) as E.
  destruct (_ <? _); [|by rewrite Z.add_0_r].
  replace (Z.of_nat p + (kBlockSize - Z.of_nat p mod kBlockSize)) with ((Z.of_nat p / kBlockSize + 1) * kBlockSize) by lia.
  apply Z.mod_mul. done.
Qed.

Lemma start_fits p : Z.of_nat (start p) mod kBlockSize + kHeaderSize <= kBlockSize.
Proof.
  rewrite start_mod. pose proof (Z.mod_pos_bound (Z.of_nat p) kBlockSize eq_refl). unfold kBlockSize, kHeaderSize in *.
  destruct (Z.ltb_spec (32768 - Z.of_nat p mod 32768) (4 + 2 + 1)); lia.
Qed.

Lemma length_phys p t f : length (phys p t f) = (behind p f - p)%nat.
Proof. unfold phys, behind, start. rewrite !length_app, length_header. lia. Qed.

(** ** The writer on any file *)
Definition type_crc (t : RecordType) : Z := crc32c 0 [byte.of_Z (rt_val t)].

Lemma type_crc_app t f : 0 <= type_crc t < 2 ^ 32 /\ crc32c (type_crc t) f = crc32c 0 (byte.of_Z (rt_val t) :: f).
Proof.
  split; [by apply crc32c_range|]. unfold type_crc, crc32c. f_equal. rewrite Z.lxor_assoc, Z.lxor_nilpotent, Z.lxor_0_r. done.
Qed.

Section AnyWriter.
Context (e : bool) (data_at : bytes -> Z) (data_at_pos : forall b, 0 <= data_at b).
Context {W : Type} `{!WritableFile W}.

(** The writer is within a block, whatever its file took of what it appended. *)
Definition wsane (w : Writer W) : Prop :=
  0 <= block_offset_ w <= kBlockSize /\ type_crc_ w = type_crc <$> [kZeroType; kFullType; kFirstType; kMiddleType; kLastType].

Lemma writer_new_any (dest : W) : exists w, Writer_new e data_at dest = Ok w /\ wsane w.
Proof.
  unfold Writer_new. change (Z.to_nat (kMaxRecordType + 1)) with 5%nat. cbn [type_crcs]. unfold crc_value, crc_Value.
  rewrite !Extend_ok by done. eexists. split; [reflexivity|]. by split.
Qed.

Lemma emit_any t f w : wsane w -> block_offset_ w + kHeaderSize + Z.of_nat (length f) <= kBlockSize -> exists st w',
  EmitPhysicalRecord e data_at t f w = Ok (st, w') /\ wsane w' /\ block_offset_ w' = block_offset_ w + kHeaderSize + Z.of_nat (length f).
Proof.
  intros [Hb Hc] Hf. unfold EmitPhysicalRecord. rewrite Hc.
  assert ((type_crc <$> [kZeroType; kFullType; kFirstType; kMiddleType; kLastType]) !! Z.to_nat (rt_val t) = Some (type_crc t)) as -> by (by destruct t).
  destruct (type_crc_app t f) as [Hr _]. cbn [of_option mbind res_bind]. rewrite Extend_ok by done. cbn [mbind res_bind].
  eexists _, _. split; [done|]. split; [|done]. split; [|done]. cbn [block_offset_]. unfold kHeaderSize in *. lia.
Qed.

Lemma switch_any w : wsane w -> wsane (switch_block w) /\ block_offset_ (switch_block w) + kHeaderSize <= kBlockSize /\
  (block_offset_ w = kBlockSize -> block_offset_ (switch_block w) = 0).
Proof.
  intros [Hb Hc]. unfold switch_block, wsane. destruct (Z.ltb_spec (kBlockSize - block_offset_ w) kHeaderSize) as [H1|H1]; cbn [dest_ block_offset_ type_crc_]; unfold kBlockSize, kHeaderSize in *; split_and!; try done; lia.
Qed.

Lemma add_loop_any n (begin : bool) r w : wsane w -> (begin = false -> block_offset_ w = kBlockSize) -> (length r + (if begin then 2 else 1) <= n)%nat ->
  exists st w', AddRecord_loop e data_at n begin r w = Ok (Some st, w') /\ wsane w'.
Proof.
  revert begin r w. induction n as [|n IH]; intros begin r w Hw Ha Hn; [destruct begin; lia|].
  cbn [AddRecord_loop]. destruct (switch_any w Hw) as (S1 & S2 & S3). set (av := Z.to_nat _). set (fl := if (length r <? av)%nat then length r else av).
  assert (Hfl : fl = (length r `min` av)%nat) by (unfold fl; destruct (Nat.ltb_spec (length r) av); lia).
  assert (Hav : Z.of_nat av = kBlockSize - block_offset_ (switch_block w) - kHeaderSize) by (unfold av; lia).
  assert (Hlt : length (take fl r) = fl) by (rewrite length_take; lia).
  destruct (emit_any (record_type begin (length r =? fl)%nat) (take fl r) (switch_block w) S1) as (st & w' & -> & Hw' & Eo); [rewrite Hlt; lia|].
  cbn [mbind res_bind fst snd]. destruct (status_ok st && (0 <? length (drop fl r))%nat) eqn:Eb; [|by eexists _, _].
  apply andb_true_iff in Eb as [_ Hl%Nat.ltb_lt]. rewrite length_drop in Hl. apply IH; [done|intros _; rewrite Eo, Hlt; lia|].
  rewrite length_drop. destruct begin; [lia|]. specialize (S3 (Ha eq_refl)). rewrite S3 in Hav. unfold kBlockSize, kHeaderSize in *. lia.
Qed.

Lemma add_record_any r w : wsane w -> exists st w', AddRecord e data_at r w = Ok (Some st, w') /\ wsane w'.
Proof. intros Hw. apply add_loop_any; [done|done|cbn; lia]. Qed.
End AnyWriter.

(** ** The writer *)
Section Writer.
Context (e : bool) (data_at : bytes -> Z) (data_at_pos : forall b, 0 <= data_at b).
Context {W : Type} `{!WritableFile W} (contents : W -> bytes) `{!Reliable W contents}.

(** The writer is at the end of its file. *)
Definition wok (w : Writer W) : Prop :=
  0 <= block_offset_ w <= kBlockSize /\
  block_offset_ w mod kBlockSize = Z.of_nat (length (contents (dest_ w))) mod kBlockSize /\
  type_crc_ w = type_crc <$> [kZeroType; kFullType; kFirstType; kMiddleType; kLastType].

Lemma writer_new (dest : W) : contents dest = [] -> exists w, Writer_new e data_at dest = Ok w /\ wok w /\ contents (dest_ w) = [].
Proof.
  intros Hd. unfold Writer_new. change (Z.to_nat (kMaxRecordType + 1)) with 5%nat. cbn [type_crcs]. unfold crc_value, crc_Value.
  rewrite !Extend_ok by done. eexists. split; [reflexivity|]. split; [|done]. split; [done|]. cbn. by rewrite Hd.
Qed.

Lemma emit_ok t f w : type_crc_ w = type_crc <$> [kZeroType; kFullType; kFirstType; kMiddleType; kLastType] -> exists w', EmitPhysicalRecord e data_at t f w = Ok (status_OK, w') /\
  contents (dest_ w') = contents (dest_ w) ++ header t f ++ f /\
  block_offset_ w' = block_offset_ w + kHeaderSize + Z.of_nat (length f) /\ type_crc_ w' = type_crc_ w.
Proof.
  intros Hc. unfold EmitPhysicalRecord. rewrite Hc.
  assert ((type_crc <$> [kZeroType; kFullType; kFirstType; kMiddleType; kLastType]) !! Z.to_nat (rt_val t) = Some (type_crc t)) as -> by (by destruct t).
  destruct (type_crc_app t f) as [Hr Ha]. cbn [of_option mbind res_bind]. rewrite Extend_ok by done. cbn [mbind res_bind]. rewrite Ha, encode32_le.
  fold (header t f). destruct (append_grows (header t f) (dest_ w)) as (w1 & -> & H1). cbn [fst snd status_ok status_OK].
  destruct (append_grows f w1) as (w2 & -> & H2). cbn [fst snd status_ok status_OK]. destruct (flush_keeps w2) as (w3 & -> & H3). cbn.
  eexists. split; [done|]. cbn. split; [|done]. by rewrite H3, H2, H1, <- app_assoc.
Qed.

Lemma switch_ok w : wok w -> contents (dest_ (switch_block w)) = contents (dest_ w) ++ pad (length (contents (dest_ w))) /\
  block_offset_ (switch_block w) = Z.of_nat (start (length (contents (dest_ w)))) mod kBlockSize /\ type_crc_ (switch_block w) = type_crc_ w.
Proof.
  intros (Hr & Hm & Hc). unfold switch_block. set (p := length (contents (dest_ w))) in *. rewrite start_mod, <- Hm. unfold pad. rewrite <- Hm.
  assert (Hlt : block_offset_ w < kBlockSize -> block_offset_ w mod kBlockSize = block_offset_ w) by (intros; apply Z.mod_small; lia).
  destruct (Z.ltb_spec (kBlockSize - block_offset_ w) kHeaderSize) as [H1|H1]; cbn [dest_ block_offset_ type_crc_].
  - destruct (Z.ltb_spec 0 (kBlockSize - block_offset_ w)) as [H2|H2].
    + rewrite Hlt by lia. rewrite (proj2 (Z.ltb_lt _ _) H1).
      destruct (append_grows (replicate (Z.to_nat (kBlockSize - block_offset_ w)) NUL) (dest_ w)) as (w' & -> & Hw'). by cbn.
    + assert (block_offset_ w = kBlockSize) as -> by lia. rewrite Z.mod_same by done. cbn. by rewrite app_nil_r.
  - rewrite Hlt by (unfold kHeaderSize in *; lia). rewrite (proj2 (Z.ltb_ge _ _) H1). by rewrite app_nil_r.
Qed.

Lemma wok_emitted w w' t f p : wok w -> p = length (contents (dest_ w)) -> (length f <= avail p)%nat ->
  contents (dest_ w') = contents (dest_ w) ++ phys p t f -> block_offset_ w' = Z.of_nat (start p) mod kBlockSize + kHeaderSize + Z.of_nat (length f) ->
  type_crc_ w' = type_crc_ w -> wok w' /\ length (contents (dest_ w')) = behind p f.
Proof.
  intros (Hr & Hm & Hc) Hp Hf Hw' Hb Ht. pose proof (start_fits p) as Hs. pose proof (Z.mod_pos_bound (Z.of_nat (start p)) kBlockSize eq_refl) as Hs0.
  assert (Hlen : length (contents (dest_ w')) = behind p f).
  { rewrite Hw', length_app, length_phys, <- Hp. unfold behind, start. lia. }
  split; [|done]. split; [|split; [|congruence]].
  - unfold avail, kBlockSize, kHeaderSize in *. rewrite Hb. lia.
  - rewrite Hlen, Hb. unfold behind. rewrite <- Z.add_assoc, Zplus_mod_idemp_l. f_equal. unfold kHeaderSize. lia.
Qed.

Lemma behind_full p f : length f = avail p -> (0 < avail (behind p f))%nat.
Proof.
  intros Hf. pose proof (start_fits p) as Hs. pose proof (Z.div_mod (Z.of_nat (start p)) kBlockSize ltac:(done)) as Hd.
  pose proof (Z.mod_pos_bound (Z.of_nat (start p)) kBlockSize eq_refl) as Hb.
  assert (E : Z.of_nat (behind p f) = (Z.of_nat (start p) / kBlockSize + 1) * kBlockSize).
  { unfold behind. rewrite !Nat2Z.inj_add, Hf. unfold avail, kBlockSize, kHeaderSize in *. lia. }
  unfold avail. rewrite start_mod, E, Z.mod_mul by done. change (Z.to_nat _) with (Z.to_nat 32761). lia.
Qed.

Lemma add_loop n (begin : bool) r w : wok w -> (begin = false -> (0 < avail (length (contents (dest_ w))))%nat) ->
  (length r + (if begin then 2 else 1) <= n)%nat ->
  exists w' l, AddRecord_loop e data_at n begin r w = Ok (Some status_OK, w') /\ wok w' /\
    cut begin (length (contents (dest_ w))) r l /\ contents (dest_ w') = contents (dest_ w) ++ log_of (length (contents (dest_ w))) l.
Proof.
  revert begin r w. induction n as [|n IH]; intros begin r w Hw Ha Hn; [destruct begin; lia|].
  cbn [AddRecord_loop]. destruct (switch_ok w Hw) as (S1 & S2 & S3). set (p := length (contents (dest_ w))) in *. rewrite S2. fold (avail p).
  set (fl := if (length r <? avail p)%nat then length r else avail p).
  assert (Hfl : fl = (length r `min` avail p)%nat) by (unfold fl; destruct (Nat.ltb_spec (length r) (avail p)); lia).
  set (t := record_type begin _). destruct (emit_ok t (take fl r) (switch_block w)) as (w' & -> & E1 & E2 & E3).
  { rewrite S3. apply Hw. }
  rewrite S1, <- app_assoc in E1. fold (phys p t (take fl r)) in E1. rewrite S2 in E2. cbn [mbind res_bind fst snd status_ok status_OK andb].
  assert (Hlt : length (take fl r) = fl) by (rewrite length_take; lia).
  destruct (wok_emitted w w' t (take fl r) p Hw eq_refl) as [Hw' Hp']; [lia|done|done|congruence|].
  destruct (Nat.ltb_spec 0 (length (drop fl r))) as [Hl|Hl]; rewrite length_drop in Hl.
  - assert (Hav : fl = avail p) by lia.
    destruct (IH false (drop fl r) w' Hw') as (w2 & l & -> & Hw2 & Hc & E).
    { intros _. rewrite Hp'. apply behind_full. congruence. }
    { rewrite length_drop. destruct begin; cbv beta iota in Hn |- *; [lia|]. specialize (Ha eq_refl). lia. }
    exists w2, ((record_type begin false, take fl r) :: l). split; [done|]. split; [done|].
    assert (t = record_type begin false) as Et by (unfold t; f_equal; apply Nat.eqb_neq; lia).
    rewrite Hp' in E. split; [|rewrite E, E1, Et; cbn; by rewrite <- app_assoc].
    rewrite <- (take_drop fl r) at 1. rewrite Hp' in Hc. apply cut_more; [congruence| |done]. intros E0%(f_equal length). rewrite length_drop in E0. cbn in E0. lia.
  - exists w', [(record_type begin true, r)]. split; [done|]. split; [done|].
    assert (fl = length r) as Er by lia. assert (t = record_type begin true) as Et by (unfold t; f_equal; apply Nat.eqb_eq; lia).
    rewrite Er, firstn_all, Et in E1. split; [apply cut_end; lia|]. cbn. by rewrite app_nil_r.
Qed.

Lemma add_record r w : wok w -> exists w' l, AddRecord e data_at r w = Ok (Some status_OK, w') /\ wok w' /\
  cut true (length (contents (dest_ w))) r l /\ contents (dest_ w') = contents (dest_ w) ++ log_of (length (contents (dest_ w))) l.
Proof. intros Hw. apply add_loop; [done|done|cbn; lia]. Qed.
End Writer.

(** ** The reader *)
Section Reader.
Context (e : bool) (data_at : bytes -> Z) (data_at_pos : forall b, 0 <= data_at b).
Context {F : Type} `{!SequentialFile F} (rest : F -> bytes) `{!Readable F rest}.

(** The reader of the file [D] is at the position [p]: its buffer goes to the
    end of the block, or to the end of the file when that was seen. *)
Definition rd_at (D : bytes) (p : nat) (r : Reader F) : Prop :=
  exists q, (p <= q <= length D)%nat /\ end_of_buffer_offset_ r = Z.of_nat q /\
    buffer_ r = take (q - p) (drop p D) /\ rest (file_ r) = drop q D /\
    initial_offset_ r = 0 /\ Z.of_nat (length D) < 2 ^ 64 /\
    if eof_ r then q = length D /\ Z.of_nat (length D) / kBlockSize * kBlockSize <= Z.of_nat p
    else Z.of_nat q mod kBlockSize = 0 /\ Z.of_nat q - kBlockSize <= Z.of_nat p.

(** Nothing was reported. *)
Definition quietly (r r' : Reader F) : Prop :=
  reports_ r' = reports_ r /\ checksum_ r' = checksum_ r /\ last_record_offset_ r' = last_record_offset_ r.

Lemma length_bytes n : 0 <= n < 65536 ->
  Z.lor (byte.unsigned (byte.of_Z (Z.land n 0xff))) (Z.shiftl (byte.unsigned (byte.of_Z (Z.shiftr n 8))) 8) = n.
Proof.
  intros Hn. rewrite of_Z_low, !byte.unsigned_of_Z. unfold byte.wrap. change (2 ^ 8) with 256.
  rewrite (Z.mod_small (Z.shiftr n 8)) by (apply (shiftr_range 8 8); lia).
  rewrite Z.shiftl_mul_pow2, lor_add by (try apply Z.mod_pos_bound; lia). rewrite Z.shiftr_div_pow2 by lia. change (2 ^ 8) with 256.
  pose proof (Z.div_mod n 256 ltac:(lia)). lia.
Qed.

Lemma type_byte t : wrap_u 32 (wrap_s 8 (byte.unsigned (byte.of_Z (rt_val t)))) = rt_val t.
Proof. by destruct t. Qed.

Lemma parse_full (r : Reader F) t f b : buffer_ r = header t f ++ f ++ b -> t <> kZeroType -> Z.of_nat (length f) < 65536 -> initial_offset_ r = 0 ->
  parse_record e data_at r = Ok (rt_val t, f, set_buffer b r).
Proof.
  intros Hb Ht Hl Hi. unfold parse_record. rewrite Hb.
  assert (Hf : DecodeFixed32 e (header t f ++ f ++ b) = Ok (Mask (crc32c 0 (byte.of_Z (rt_val t) :: f)))).
  { unfold header. rewrite <- app_assoc, <- (encode32_le e). apply (fixed32_get e e). apply wrap_u_range. lia. }
  revert Hf. assert (Hs : buf_size r = kHeaderSize + Z.of_nat (length f) + Z.of_nat (length b)).
  { unfold buf_size. rewrite Hb, !length_app, length_header. unfold kHeaderSize. lia. }
  unfold header. destruct (le_split 4 (Mask _)) as [|b0 [|b1 [|b2 [|b3 [|]]]]] eqn:El; try (apply (f_equal length) in El; rewrite length_le_split in El; discriminate).
  cbn [app]. intros Hf. rewrite length_bytes by lia. rewrite type_byte, Hs, Nat2Z.id.
  rewrite (proj2 (Z.ltb_ge _ _)) by lia. rewrite (proj2 (Z.eqb_neq _ _)) by (by destruct t). cbn [andb].
  rewrite take_app_length, drop_app_length, Hf.
  assert (Hc : (if checksum_ r then stored ← Ok (Mask (crc32c 0 (byte.of_Z (rt_val t) :: f))); actual ← crc_value e data_at (byte.of_Z (rt_val t) :: f);
      Ok (actual =? Unmask stored) else Ok true) = Ok true).
  { destruct (checksum_ r); [|done]. cbn [mbind res_bind]. unfold crc_value, crc_Value. rewrite Extend_ok by done. cbn [mbind res_bind].
    rewrite unmask_mask by (by apply crc32c_range). by rewrite Z.eqb_refl. }
  rewrite Hc. cbn [mbind res_bind negb]. cbn [initial_offset_ set_buffer]. rewrite Hi.
  rewrite (proj2 (Z.ltb_ge _ 0)) by (apply wrap_u_range; lia). done.
Qed.

Lemma parse_short (r : Reader F) t f k : buffer_ r = take k (header t f ++ f) -> (7 <= k < 7 + length f)%nat -> Z.of_nat (length f) < 65536 -> eof_ r = true ->
  parse_record e data_at r = Ok (kEof, [], set_buffer [] r).
Proof.
  intros Hb Hk Hl He. unfold parse_record.
  assert (Hs : buf_size r = Z.of_nat k) by (unfold buf_size; rewrite Hb, length_take, length_app, length_header; lia).
  rewrite Hb, take_app_ge by (rewrite length_header; lia). unfold header.
  destruct (le_split 4 (Mask _)) as [|b0 [|b1 [|b2 [|b3 [|]]]]] eqn:El; try (apply (f_equal length) in El; rewrite length_le_split in El; discriminate).
  cbn [app]. rewrite length_bytes by lia. rewrite Hs, He. rewrite (proj2 (Z.ltb_lt _ _)) by (unfold kHeaderSize; lia). done.
Qed.

Lemma buf_size_at D p r q : (p <= q <= length D)%nat -> buffer_ r = take (q - p) (drop p D) -> @buf_size F r = Z.of_nat q - Z.of_nat p.
Proof. intros Hq Hb. unfold buf_size. rewrite Hb, length_take, length_drop. lia. Qed.

(** What is left of a block that is too short for a header is padding. *)
Lemma block_end p q : (p <= q)%nat -> Z.of_nat q mod kBlockSize = 0 -> Z.of_nat q - Z.of_nat p < kHeaderSize -> start p = q.
Proof.
  intros Hpq Hq Hs. unfold start. apply Nat2Z.inj. rewrite Nat2Z.inj_add, pad_length. unfold kBlockSize, kHeaderSize in *.
  pose proof (Z.div_mod (Z.of_nat q) 32768 ltac:(lia)). destruct (Nat.eq_dec p q) as [->|Hne].
  - rewrite Hq, (proj2 (Z.ltb_ge _ _)) by lia. lia.
  - assert (Z.of_nat p mod 32768 = Z.of_nat p - (Z.of_nat q / 32768 - 1) * 32768) as E.
    { symmetry. apply Z.mod_unique_pos with (Z.of_nat q / 32768 - 1); lia. }
    rewrite E. rewrite (proj2 (Z.ltb_lt _ _)) by lia. lia.
Qed.

Lemma no_pad p : kHeaderSize <= kBlockSize - Z.of_nat p mod kBlockSize -> start p = p.
Proof. intros Hp. unfold start, pad. rewrite (proj2 (Z.ltb_ge _ _)) by done. cbn. lia. Qed.

(** The end of the block a position is in. *)
Lemma in_block p q : Z.of_nat q mod kBlockSize = 0 -> Z.of_nat q - kBlockSize <= Z.of_nat p < Z.of_nat q ->
  kBlockSize - Z.of_nat p mod kBlockSize = Z.of_nat q - Z.of_nat p.
Proof.
  unfold kBlockSize. intros Hq Hp. pose proof (Z.div_mod (Z.of_nat q) 32768 ltac:(lia)).
  assert (Z.of_nat p mod 32768 = Z.of_nat p - (Z.of_nat q / 32768 - 1) * 32768) as ->; [|lia].
  symmetry. apply Z.mod_unique_pos with (Z.of_nat q / 32768 - 1); lia.
Qed.

Lemma in_last_block p n : Z.of_nat n / kBlockSize * kBlockSize <= Z.of_nat p <= Z.of_nat n ->
  Z.of_nat n - Z.of_nat p < kBlockSize - Z.of_nat p mod kBlockSize.
Proof.
  unfold kBlockSize. intros Hp. pose proof (Z.div_mod (Z.of_nat n) 32768 ltac:(lia)). pose proof (Z.mod_pos_bound (Z.of_nat n) 32768 ltac:(lia)).
  assert (Z.of_nat p mod 32768 = Z.of_nat p - Z.of_nat n / 32768 * 32768) as ->; [|lia].
  symmetry. apply Z.mod_unique_pos with (Z.of_nat n / 32768); lia.
Qed.

Lemma refill D p r n : rd_at D p r -> eof_ r = false -> buf_size r < kHeaderSize -> exists r1,
  ReadPhysicalRecord_loop e data_at (S n) r = ReadPhysicalRecord_loop e data_at n r1 /\
  rd_at D (start p) r1 /\ quietly r r1 /\ (eof_ r1 = false -> kBlockSize <= buf_size r1).
Proof.
  intros (q & Hq & Ho & Hb & Hf & Hi & Hn & He) Heof Hs. rewrite Heof in He. destruct He as [Hm Hlo].
  pose proof (buf_size_at D p r q Hq Hb) as Hsz. rewrite (block_end p q) by (lia || done || lia).
  cbn [ReadPhysicalRecord_loop]. rewrite (proj2 (Z.ltb_lt _ _) Hs), Heof. cbn [negb].
  destruct (read_takes (Z.to_nat kBlockSize) (file_ r)) as (f' & -> & Hf'). cbn [status_ok status_OK negb].
  rewrite Hf in Hf' |- *. set (data := take _ (drop q D)).
  assert (Hd : Z.of_nat (length data) = Z.min kBlockSize (Z.of_nat (length D) - Z.of_nat q)).
  { unfold data. rewrite length_take, length_drop. unfold kBlockSize. lia. }
  assert (Ho' : wrap_u 64 (end_of_buffer_offset_ r + Z.of_nat (length data)) = Z.of_nat (q + length data)).
  { rewrite Ho, Nat2Z.inj_add. apply wrap_u_small. lia. }
  rewrite Ho'. set (r1 := set_file f' data _ r). assert (Hbs : buf_size r1 = Z.of_nat (length data)) by done. rewrite Hbs.
  assert (Hbuf : data = take (q + length data - q) (drop q D)).
  { replace (q + length data - q)%nat with (length data) by lia. unfold data. by rewrite length_take, <- take_take, (take_ge (drop q D) (length (drop q D))). }
  assert (Hrest : rest f' = drop (q + length data) D).
  { rewrite Hf', drop_drop. destruct (Z.le_gt_cases kBlockSize (Z.of_nat (length D) - Z.of_nat q)); [f_equal; lia|]. rewrite !drop_ge by lia. done. }
  destruct (Z.ltb_spec (Z.of_nat (length data)) kBlockSize).
  - exists (set_eof r1). split; [done|]. split; [|split; [done|done]]. exists (q + length data)%nat. split_and!; try (done || lia).
    cbn. unfold kBlockSize in *. pose proof (Z.div_mod (Z.of_nat q) 32768 ltac:(lia)).
    assert (Z.of_nat q / 32768 = Z.of_nat (length D) / 32768) as <-; [|lia].
    apply Z.div_unique_pos with (Z.of_nat (length D) - Z.of_nat q / 32768 * 32768); lia.
  - exists r1. split; [done|]. split; [|split; [done|by intros _; rewrite Hbs]]. exists (q + length data)%nat. split_and!; try (done || lia).
    change (eof_ r1) with (eof_ r). rewrite Heof. assert (Z.of_nat (q + length data) = Z.of_nat q + 1 * kBlockSize) as -> by lia.
    rewrite Z.mod_add by done. unfold kBlockSize in *. lia.
Qed.

Definition fits (p : nat) (f : bytes) : Prop := Z.of_nat p mod kBlockSize + kHeaderSize + Z.of_nat (length f) <= kBlockSize.

Lemma fits_small p f : fits p f -> Z.of_nat (length f) < 65536.
Proof. unfold fits, kBlockSize, kHeaderSize. pose proof (Z.mod_pos_bound (Z.of_nat p) 32768). lia. Qed.

(** A complete record is inside the buffer. *)
Lemma inside D p r q f : rd_at D p r -> end_of_buffer_offset_ r = Z.of_nat q -> 0 < buf_size r -> fits p f ->
  (p + 7 + length f <= length D)%nat -> (p + 7 + length f <= q)%nat.
Proof.
  intros (q' & Hq & Ho & Hb & _ & _ & _ & He) Hoq Hs Hf Hl. assert (q' = q) as -> by lia. pose proof (buf_size_at D p r q Hq Hb) as Hsz.
  destruct (eof_ r); [lia|]. destruct He as [Hm Hlo]. pose proof (in_block p q Hm ltac:(lia)). unfold fits, kHeaderSize in *. lia.
Qed.

Lemma parse_at D p r t f a b : rd_at D p r -> 0 < buf_size r -> D = a ++ header t f ++ f ++ b -> length a = p -> fits p f -> t <> kZeroType ->
  exists r', parse_record e data_at r = Ok (rt_val t, f, r') /\ rd_at D (p + 7 + length f) r' /\ quietly r r'.
Proof.
  intros HA Hs HD Ha Hf Ht. pose proof HA as (q & Hq & Ho & Hb & Hr & Hi & Hn & He).
  assert (Hl : (p + 7 + length f <= length D)%nat) by (rewrite HD, !length_app, length_header; lia).
  pose proof (inside D p r q f HA Ho Hs Hf Hl) as Hin.
  assert (Hbuf : buffer_ r = header t f ++ f ++ take (q - p - (7 + length f)) b).
  { rewrite Hb, HD, drop_app_length' by done. rewrite app_assoc, take_app_ge by (rewrite length_app, length_header; lia).
    rewrite length_app, length_header, <- app_assoc. done. }
  rewrite (parse_full r t f _ Hbuf Ht (fits_small p f Hf) Hi). eexists. split; [done|]. split; [|done].
  exists q. cbn. split_and!; try (done || lia).
  - rewrite HD, !app_assoc, drop_app_length' by (rewrite !length_app, length_header; lia). f_equal. lia.
  - destruct (eof_ r); [split; [apply He|]; destruct He; lia|split; [apply He|]; destruct He; lia].
Qed.

Lemma read_phys D p r t f a b : rd_at D p r -> D = a ++ phys p t f ++ b -> length a = p -> fits (start p) f -> t <> kZeroType ->
  exists r', ReadPhysicalRecord e data_at r = Ok (rt_val t, f, r') /\ rd_at D (behind p f) r' /\ quietly r r'.
Proof.
  intros HA HD Ha Hf Ht. unfold phys in HD. unfold ReadPhysicalRecord. pose proof HA as (q & Hq & Ho & Hb & Hr & Hi & Hn & He).
  pose proof (buf_size_at D p r q Hq Hb) as Hsz.
  assert (Hl : (start p + 7 + length f <= length D)%nat) by (rewrite HD, !length_app, length_header; unfold start; lia).
  destruct (Z.ltb_spec (buf_size r) kHeaderSize) as [Hs|Hs].
  - destruct (eof_ r) eqn:Heof; [destruct He; unfold start, kHeaderSize in *; lia|].
    destruct (refill D p r 1 HA Heof Hs) as (r1 & -> & HA1 & Hq1 & He1).
    assert (Hs1 : kHeaderSize <= buf_size r1).
    { destruct HA1 as (q1 & Hq1' & Ho1 & Hb1 & _ & _ & _ & Hx). rewrite (buf_size_at _ _ _ _ Hq1' Hb1) in *. unfold kBlockSize, kHeaderSize in *.
      destruct (eof_ r1); [destruct Hx; lia|]. specialize (He1 eq_refl). lia. }
    cbn [ReadPhysicalRecord_loop]. rewrite (proj2 (Z.ltb_ge _ _) Hs1).
    destruct (parse_at D (start p) r1 t f (a ++ pad p) b HA1) as (r' & -> & HA' & Hq'); try done.
    + unfold kHeaderSize in *. lia.
    + rewrite HD. by rewrite <- !app_assoc.
    + rewrite length_app. unfold start. lia.
    + exists r'. split; [done|]. split; [done|]. destruct Hq1 as (? & ? & ?), Hq' as (? & ? & ?). split_and!; congruence.
  - assert (Hst : start p = p).
    { apply no_pad. destruct (eof_ r); [pose proof (in_last_block p (length D)); unfold kHeaderSize in *; lia|].
      destruct He as [Hm Hlo]. rewrite (in_block p q Hm) by (unfold kHeaderSize in *; lia). lia. }
    cbn [ReadPhysicalRecord_loop]. rewrite (proj2 (Z.ltb_ge _ _) Hs). unfold behind. rewrite Hst in *.
    assert (Hp0 : pad p = []) by (apply nil_length_inv; unfold start in Hst; lia). rewrite Hp0 in HD.
    apply (parse_at D p r t f a b HA); try done. unfold kHeaderSize in *. lia.
Qed.

(** The file ends inside a record. *)
Lemma parse_end D p r t f a k : rd_at D p r -> eof_ r = true -> kHeaderSize <= buf_size r -> D = a ++ take k (header t f ++ f) -> length a = p ->
  fits p f -> (k < 7 + length f)%nat -> exists r', parse_record e data_at r = Ok (kEof, [], r') /\ quietly r r'.
Proof.
  intros (q & Hq & Ho & Hb & Hr & Hi & Hn & He) Heof Hs HD Ha Hf Hk. rewrite Heof in He. destruct He as [-> _].
  assert (Hbuf : buffer_ r = take k (header t f ++ f)).
  { rewrite Hb, HD, drop_app_length' by done. rewrite take_ge; [done|]. rewrite length_app. lia. }
  assert (Hk7 : (7 <= k)%nat).
  { unfold buf_size in Hs. rewrite Hbuf, length_take in Hs. unfold kHeaderSize in Hs. lia. }
  rewrite (parse_short r t f k Hbuf) by (done || lia || by eapply fits_small). by eexists.
Qed.

Lemma read_end D p r t f a k : rd_at D p r -> D = a ++ take k (phys p t f) -> length a = p -> fits (start p) f -> (k < length (phys p t f))%nat ->
  exists r', ReadPhysicalRecord e data_at r = Ok (kEof, [], r') /\ quietly r r'.
Proof.
  intros HA HD Ha Hf Hk. unfold phys in HD, Hk. rewrite !length_app, length_header in Hk. unfold ReadPhysicalRecord.
  pose proof HA as (q & Hq & Ho & Hb & Hr & Hi & Hn & He). pose proof (buf_size_at D p r q Hq Hb) as Hsz.
  assert (Hl : length D = (p + k)%nat) by (rewrite HD, length_app, length_take, !length_app, length_header; lia).
  destruct (Z.ltb_spec (buf_size r) kHeaderSize) as [Hs|Hs].
  - destruct (eof_ r) eqn:Heof.
    { cbn [ReadPhysicalRecord_loop]. rewrite (proj2 (Z.ltb_lt _ _) Hs), Heof. by eexists. }
    destruct (refill D p r 1 HA Heof Hs) as (r1 & -> & HA1 & Hq1 & He1). pose proof HA1 as (q1 & Hq1' & Ho1 & Hb1 & _ & _ & _ & Hx).
    pose proof (buf_size_at D _ r1 q1 Hq1' Hb1) as Hsz1. unfold start in Hq1', Hsz1.
    assert (Heof1 : eof_ r1 = true).
    { destruct (eof_ r1); [done|]. specialize (He1 eq_refl). unfold fits in Hf. pose proof (Z.mod_pos_bound (Z.of_nat (start p)) kBlockSize eq_refl).
      unfold kHeaderSize in *. lia. }
    cbn [ReadPhysicalRecord_loop]. rewrite Heof1. cbn [negb]. destruct (Z.ltb_spec (buf_size r1) kHeaderSize); [by eexists|].
    destruct (parse_end D (start p) r1 t f (a ++ pad p) (k - length (pad p)) HA1) as (r' & -> & Hq'); try done.
    + rewrite HD, <- app_assoc. f_equal. rewrite take_app_ge by lia. done.
    + rewrite length_app. unfold start. lia.
    + lia.
    + exists r'. split; [done|]. destruct Hq1 as (? & ? & ?), Hq' as (? & ? & ?). split_and!; congruence.
  - cbn [ReadPhysicalRecord_loop]. rewrite (proj2 (Z.ltb_ge _ _) Hs).
    assert (Hst : start p = p).
    { apply no_pad. destruct (eof_ r); [pose proof (in_last_block p (length D)); unfold kHeaderSize in *; lia|].
      destruct He as [Hm Hlo]. rewrite (in_block p q Hm) by (unfold kHeaderSize in *; lia). lia. }
    assert (Hp0 : pad p = []) by (apply nil_length_inv; unfold start in Hst; lia). rewrite Hp0 in HD, Hk. rewrite Hst in Hf.
    assert (Heof : eof_ r = true).
    { destruct (eof_ r); [done|]. destruct He as [Hm Hlo]. pose proof (in_block p q Hm). unfold fits, kHeaderSize in *. cbn in Hk. lia. }
    by apply (parse_end D p r t f a k HA Heof Hs HD Ha Hf).
Qed.

Lemma read_none D r : rd_at D (length D) r -> exists r', ReadPhysicalRecord e data_at r = Ok (kEof, [], r') /\ quietly r r'.
Proof.
  intros HA. apply (read_end D (length D) r kFullType [] D 0 HA); [by rewrite app_nil_r|done| |].
  - unfold fits. pose proof (start_fits (length D)). cbn. lia.
  - unfold phys. rewrite !length_app, length_header. lia.
Qed.

Context (unknown : Z -> bytes).

(** After a call of [ReadRecord] that reported nothing. *)
Definition told_nothing (r r' : Reader F) : Prop := reports_ r' = reports_ r /\ 0 <= last_record_offset_ r'.

Lemma avail_fits p f : (length f <= avail p)%nat -> fits (start p) f.
Proof. unfold fits, avail. pose proof (start_fits p). lia. Qed.

Lemma length_log_cons p t f l : length (log_of p ((t, f) :: l)) = (behind p f - p + length (log_of (behind p f) l))%nat.
Proof. cbn. by rewrite length_app, length_phys. Qed.

Lemma behind_gt p f : (p + 7 <= behind p f)%nat.
Proof. unfold behind, start. lia. Qed.

Lemma drop_partial_quiet (inf : bool) s reason (r : Reader F) : inf = false -> drop_partial inf s reason r = r.
Proof. by intros ->. Qed.

Lemma read_cut begin p x l : cut begin p x l -> forall D a b r n s off, rd_at D p r -> D = a ++ log_of p l ++ b -> length a = p ->
  (length (log_of p l) <= n)%nat -> 0 <= off -> exists r',
  ReadRecord_loop e data_at unknown n (negb begin) s off r = Ok (Some (Some ((if begin then [] else s) ++ x)), r') /\
  rd_at D (p + length (log_of p l)) r' /\ told_nothing r r'.
Proof.
  induction 1 as [begin p x Hx|begin p f x l Hf Hx Hc IH]; intros D a b r n s off HA HD Ha Hn Ho; rewrite length_log_cons in Hn |- *;
    pose proof (behind_gt p) as Hg; destruct n as [|n]; try (specialize (Hg x); lia); try (specialize (Hg f); lia); cbn [ReadRecord_loop].
  - assert (Hph : 0 <= wrap_u 64 (end_of_buffer_offset_ r - buf_size r)) by (apply wrap_u_range; lia).
    cbn [log_of] in HD. rewrite app_nil_r in HD.
    destruct (read_phys D p r (record_type begin true) x a b HA HD Ha) as (r' & -> & HA' & Hq & Hq' & Hq2); [by apply avail_fits|by destruct begin|].
    cbn [mbind res_bind]. cbn [length log_of]. specialize (Hg x). replace (p + (behind p x - p + 0))%nat with (behind p x) by lia.
    destruct begin; cbn [record_type andb negb rt_val Z.eqb]; (eexists; split; [reflexivity|]); (split; [exact HA'|]); by split.
  - assert (Hph : 0 <= wrap_u 64 (end_of_buffer_offset_ r - buf_size r)) by (apply wrap_u_range; lia).
    cbn [log_of] in HD. rewrite <- app_assoc in HD. specialize (Hg f).
    destruct (read_phys D p r (record_type begin false) f a (log_of (behind p f) l ++ b) HA HD Ha) as (r' & -> & HA' & Hq & Hq' & Hq2);
      [apply avail_fits; lia|by destruct begin|]. cbn [mbind res_bind].
    assert (HD' : D = (a ++ phys p (record_type begin false) f) ++ log_of (behind p f) l ++ b) by (by rewrite <- app_assoc).
    assert (Ha' : length (a ++ phys p (record_type begin false) f) = behind p f) by (rewrite length_app, length_phys; lia).
    replace (p + (behind p f - p + length (log_of (behind p f) l)))%nat with (behind p f + length (log_of (behind p f) l))%nat by lia.
    destruct begin; cbn [record_type andb negb rt_val Z.eqb].
    + destruct (IH D _ b r' n f _ HA' HD' Ha' ltac:(lia) Hph) as (r2 & E & HA2 & Hq3 & Hq4).
      exists r2. split; [exact E|]. split; [done|]. split; [congruence|done].
    + destruct (IH D _ b r' n (s ++ f) off HA' HD' Ha' ltac:(lia) Ho) as (r2 & E & HA2 & Hq3 & Hq4).
      exists r2. split; [by rewrite app_assoc|]. split; [done|]. split; [congruence|done].
Qed.

Lemma read_cut_end begin p x l : cut begin p x l -> forall D a k r n s off, rd_at D p r -> D = a ++ take k (log_of p l) -> length a = p ->
  (k < length (log_of p l))%nat -> (k < n)%nat -> exists r',
  ReadRecord_loop e data_at unknown n (negb begin) s off r = Ok (Some None, r') /\ reports_ r' = reports_ r.
Proof.
  induction 1 as [begin p x Hx|begin p f x l Hf Hx Hc IH]; intros D a k r n s off HA HD Ha Hk Hn; (destruct n as [|n]; [lia|]);
    rewrite length_log_cons in Hk; cbn [ReadRecord_loop]; cbn [log_of] in HD.
  - rewrite app_nil_r in HD. cbn in Hk.
    destruct (read_end D p r (record_type begin true) x a k HA HD Ha) as (r' & -> & Hq & _); [by apply avail_fits|rewrite length_phys; lia|].
    cbn. by eexists.
  - pose proof (behind_gt p f) as Hg. destruct (Nat.lt_ge_cases k (length (phys p (record_type begin false) f))) as [Hlt|Hge].
    + rewrite take_app_le in HD by lia.
      destruct (read_end D p r (record_type begin false) f a k HA HD Ha) as (r' & -> & Hq & _); [apply avail_fits; lia|done|]. cbn. by eexists.
    + rewrite take_app_ge in HD by done. rewrite length_phys in Hge, HD.
      destruct (read_phys D p r (record_type begin false) f a _ HA HD Ha) as (r' & -> & HA' & Hq & Hq' & Hq2); [apply avail_fits; lia|by destruct begin|].
      cbn [mbind res_bind]. rewrite app_assoc in HD.
      assert (Ha' : length (a ++ phys p (record_type begin false) f) = behind p f) by (rewrite length_app, length_phys; lia).
      destruct begin; cbn [record_type andb negb rt_val Z.eqb].
      * destruct (IH D _ _ r' n f (wrap_u 64 (end_of_buffer_offset_ r - buf_size r)) HA' HD Ha') as (r2 & E & Hq3); [lia|lia|].
        exists r2. split; [exact E|congruence].
      * destruct (IH D _ _ r' n (s ++ f) off HA' HD Ha') as (r2 & E & Hq3); [lia|lia|]. exists r2. split; [exact E|congruence].
Qed.
End Reader.

(** ** Whole logs *)

(** The bytes of each record in turn. *)
Inductive logged : nat -> list bytes -> list bytes -> Prop :=
| logged_nil p : logged p [] []
| logged_cons p x xs l cs : cut true p x l -> logged (p + length (log_of p l)) xs cs -> logged p (x :: xs) (log_of p l :: cs).

Section Log.
Context (e : bool) (data_at : bytes -> Z) (data_at_pos : forall b, 0 <= data_at b) (unknown : Z -> bytes).
Context {W : Type} `{!WritableFile W} (contents : W -> bytes) `{!Reliable W contents}.
Context {F : Type} `{!SequentialFile F} (rest : F -> bytes) `{!Readable F rest}.

(** Every record is added; [None] when one was refused. *)
Fixpoint add_all (xs : list bytes) (w : Writer W) : res (option (Writer W)) :=
  match xs with
  | [] => Ok (Some w)
  | x :: xs' =>
      r ← AddRecord e data_at x w;
      match fst r with
      | Some s => if status_ok s then add_all xs' (snd r) else Ok None
      | None => Ok None
      end
  end.

(** [while (reader.ReadRecord(&record, &scratch))], with rounds for the loops. *)
Fixpoint read_all (rounds fuel : nat) (r : Reader F) : res (option (list bytes) * Reader F) :=
  match rounds with
  | O => Ok (None, r)
  | S n =>
      x ← ReadRecord e data_at unknown fuel r;
      match fst x with
      | Some (Some record) => y ← read_all n fuel (snd x); Ok (option_map (cons record) (fst y), snd y)
      | Some None => Ok (Some [], snd x)
      | None => Ok (None, snd x)
      end
  end.

Lemma add_all_ok xs w : wok contents w -> exists cs, logged (length (contents (dest_ w))) xs cs /\
  forall i, exists w', add_all (take i xs) w = Ok (Some w') /\ contents (dest_ w') = contents (dest_ w) ++ concat (take i cs).
Proof.
  revert w. induction xs as [|x xs IH]; intros w Hw.
  { exists []. split; [constructor|]. intros i. rewrite !take_nil. exists w. split; [done|]. by rewrite app_nil_r. }
  destruct (add_record e data_at data_at_pos contents x w Hw) as (w1 & l & E & Hw1 & Hc & E1).
  destruct (IH w1 Hw1) as (cs & Hl & Hi). exists (log_of (length (contents (dest_ w))) l :: cs).
  rewrite E1, length_app in Hl. split; [by constructor|]. intros [|i]; [exists w; split; [done|]; by rewrite app_nil_r|].
  destruct (Hi i) as (w2 & E2 & E3). exists w2. cbn [take add_all concat]. rewrite E. cbn [mbind res_bind fst snd status_ok status_OK].
  split; [done|]. by rewrite E3, E1, <- app_assoc.
Qed.

(** The records that end within the first [k] bytes. *)
Fixpoint complete (k : nat) (cs : list bytes) : nat :=
  match cs with
  | [] => 0
  | c :: cs' => if (length c <=? k)%nat then S (complete (k - length c) cs') else 0
  end.

Lemma complete_le k cs i : (i <= length cs)%nat -> (i <= complete k cs)%nat <-> (length (concat (take i cs)) <= k)%nat.
Proof.
  revert k i. induction cs as [|c cs IH]; intros k i Hi; [destruct i; cbn in *; lia|]. destruct i as [|i]; [cbn; lia|].
  cbn [complete take concat]. rewrite length_app. cbn in Hi. destruct (Nat.leb_spec (length c) k); [|lia].
  rewrite <- Nat.succ_le_mono, IH by lia. lia.
Qed.

Lemma logged_length p xs cs : logged p xs cs -> length cs = length xs.
Proof. induction 1; cbn; congruence. Qed.

Lemma ReadRecord_0 n (r : Reader F) : initial_offset_ r = 0 -> 0 <= last_record_offset_ r ->
  ReadRecord e data_at unknown n r = ReadRecord_loop e data_at unknown n false [] 0 r.
Proof. intros Hi Hl. unfold ReadRecord. rewrite Hi, (proj2 (Z.ltb_ge _ _)) by done. done. Qed.

Lemma read_all_ok p xs cs : logged p xs cs -> forall D a k r m n, rd_at rest D p r -> D = a ++ take k (concat cs) -> length a = p ->
  0 <= last_record_offset_ r -> (length D < n)%nat -> (length xs < m)%nat -> exists r',
  read_all m n r = Ok (Some (take (complete k cs) xs), r') /\ reports_ r' = reports_ r.
Proof.
  induction 1 as [p|p x xs l cs Hc Hl IH]; intros D a k r m n HA HD Ha Hlast Hn Hm; (destruct m as [|m]; [cbn in Hm; lia|]); cbn [read_all complete].
  - assert (Hi : initial_offset_ r = 0) by (by destruct HA as (q & _ & _ & _ & _ & ? & _)). rewrite ReadRecord_0 by done.
    cbn in HD. rewrite take_nil, app_nil_r in HD. subst a p. destruct n as [|n]; [lia|]. cbn [ReadRecord_loop].
    destruct (read_none e data_at rest D r HA) as (r' & -> & Hq & _). cbn. by eexists.
  - assert (Hi : initial_offset_ r = 0) by (by destruct HA as (q & _ & _ & _ & _ & ? & _)). rewrite ReadRecord_0 by done. cbn [concat] in HD.
    destruct (Nat.leb_spec (length (log_of p l)) k) as [Hk|Hk].
    + rewrite take_app_ge in HD by done.
      assert (HnD : (length (log_of p l) <= n)%nat) by (rewrite HD, !length_app in Hn; lia).
      destruct (read_cut e data_at data_at_pos rest unknown true p x l Hc D a _ r n [] 0 HA HD Ha HnD ltac:(lia)) as (r' & E & HA' & Hq & Hq').
      cbn [negb app] in E. rewrite E. cbn [mbind res_bind fst snd]. rewrite app_assoc in HD.
      destruct (IH D _ _ r' m n HA' HD) as (r2 & -> & Hq2); [by rewrite length_app, Ha|done|done|cbn in Hm; lia|].
      exists r2. cbn. split; [done|congruence].
    + assert (Hkn : (k < n)%nat).
      { rewrite HD, length_app, length_take, length_app in Hn. lia. }
      rewrite take_app_le in HD by lia.
      destruct (read_cut_end e data_at data_at_pos rest unknown true p x l Hc D a k r n [] 0 HA HD Ha Hk Hkn) as (r' & E & Hq).
      cbn [negb] in E. rewrite E. cbn. by eexists.
Qed.

(** C29. A log keeps what was written to it.  Any records added to an empty file
    that takes them are read back, from the file or from any prefix of it that a
    crash has left: exactly those that were complete there, whole and in their
    order, however they were cut into blocks, and no corruption is reported. *)
Theorem log_recovers xs dest : contents dest = [] -> exists w0 w,
  Writer_new e data_at dest = Ok w0 /\ add_all xs w0 = Ok (Some w) /\
  forall k f rep chk, rest f = take k (contents (dest_ w)) -> Z.of_nat (length (contents (dest_ w))) < 2 ^ 64 -> exists m r,
    read_all (S (length xs)) (S (length (contents (dest_ w)))) (Reader_new f rep chk 0) = Ok (Some (take m xs), r) /\
    reports_ r = (if rep then Some [] else None) /\
    forall i wi, (i <= length xs)%nat -> add_all (take i xs) w0 = Ok (Some wi) -> (i <= m)%nat <-> (length (contents (dest_ wi)) <= k)%nat.
Proof.
  intros Hd. destruct (writer_new e data_at data_at_pos contents dest Hd) as (w0 & Hw0 & Hok & H0). exists w0.
  destruct (add_all_ok xs w0 Hok) as (cs & Hl & Hi). rewrite H0 in Hl, Hi. destruct (Hi (length xs)) as (w & Hw & Hc). exists w.
  pose proof (logged_length _ _ _ Hl) as Hlen. rewrite firstn_all in Hw. rewrite <- Hlen, firstn_all in Hc. cbn in Hc.
  split; [done|]. split; [done|]. intros k f rep chk Hf Hsz. exists (complete k cs).
  destruct (read_all_ok 0 xs cs Hl (take k (contents (dest_ w))) [] k (Reader_new f rep chk 0) (S (length xs)) (S (length (contents (dest_ w))))) as (r & E & Hr).
  - exists 0%nat. split; [split; lia|]. split; [done|]. split; [done|]. split; [exact Hf|]. split; [done|]. split; [rewrite length_take; lia|done].
  - by rewrite Hc.
  - done.
  - done.
  - rewrite length_take. lia.
  - lia.
  - exists r. split; [done|]. split; [done|]. intros i wi Hil Hwi. destruct (Hi i) as (wi' & Hwi' & Hci).
    assert (wi' = wi) as -> by congruence. rewrite Hci. cbn. apply complete_le. lia.
Qed.
End Log.

Lemma log_recovers_witness : exists w0 w,
  @Writer_new true (fun _ => 1) bytes [] = Ok w0 /\ @add_all true (fun _ => 1) bytes MemWritable [lit "one"; []; lit "two"] w0 = Ok (Some w) /\
  exists m r, @read_all true (fun _ => 1) (fun _ => []) bytes MemSequential 4 (S (length (dest_ w))) (Reader_new (take 20 (dest_ w)) true true 0) =
    Ok (Some (take m [lit "one"; []; lit "two"]), r) /\ reports_ r = Some [].
Proof.
  destruct (@log_recovers true (fun _ => 1) ltac:(lia) (fun _ => []) bytes MemWritable (fun w => w) MemReliable bytes MemSequential (fun f => f) MemReadable
    [lit "one"; []; lit "two"] [] eq_refl) as (w0 & w & H1 & H2 & H3).
  exists w0, w. split; [exact H1|]. split; [exact H2|].
  destruct (H3 20%nat (take 20 (dest_ w)) true true eq_refl) as (m & r & E & Hr & _); [|by exists m, r].
  vm_compute in H1. injection H1 as <-. vm_compute in H2. injection H2 as <-. reflexivity.
Defined.
