(* ===== verification/LvlBlock.v ===== *)
(** * LevelDB's table blocks

    src/3rd-party/leveldb/leveldb-1.18/table/block_builder.cc and block.cc: a
    sorted run of entries whose keys share prefixes with the key before, with
    restart points where they do not and an array of these points behind, and
    the iterator over such a block.  A pointer into the block is its offset. *)
From S2P Require Import Prelude Store LvlCoding LvlBase.

Section Block.
Context (kLittleEndian : bool).

(** ** Builder *)
Record BlockBuilder := MkBuilder {
  bb_buffer : bytes; bb_restarts : list Z; bb_counter : Z; bb_finished : bool; bb_last_key : bytes }.

Definition BlockBuilder_new : BlockBuilder := MkBuilder [] [0] 0 false [].
Definition bb_Reset (b : BlockBuilder) : BlockBuilder := MkBuilder [] [0] 0 false [].

Definition CurrentSizeEstimate (b : BlockBuilder) : Z :=
  Z.of_nat (length (bb_buffer b)) + Z.of_nat (length (bb_restarts b)) * 4 + 4.

Definition bb_Finish (b : BlockBuilder) : bytes * BlockBuilder :=
  let buffer := foldl (PutFixed32 kLittleEndian) (bb_buffer b) (bb_restarts b) in
  let buffer := PutFixed32 kLittleEndian buffer (wrap_u 32 (Z.of_nat (length (bb_restarts b)))) in
  (buffer, MkBuilder buffer (bb_restarts b) (bb_counter b) true (bb_last_key b)).

(** The bytes two keys have in common at their start. *)
Fixpoint shared_prefix (a b : bytes) : nat :=
  match a, b with
  | x :: a', y :: b' => if decide (x = y) then S (shared_prefix a' b') else 0
  | _, _ => 0
  end.

Definition put_size (dst : bytes) (n : nat) : bytes := PutVarint32 dst (wrap_u 32 (Z.of_nat n)).

Definition bb_Add (block_restart_interval : Z) (key value : bytes) (b : BlockBuilder) : BlockBuilder :=
  let go := bb_counter b <? block_restart_interval in
  let shared := if go then shared_prefix (bb_last_key b) key else 0%nat in
  let restarts := if go then bb_restarts b else bb_restarts b ++ [wrap_u 32 (Z.of_nat (length (bb_buffer b)))] in
  let counter := if go then bb_counter b else 0 in
  let non_shared := (length key - shared)%nat in
  let buffer := put_size (put_size (put_size (bb_buffer b) shared) non_shared) (length value) in
  let buffer := buffer ++ drop shared key ++ value in
  MkBuilder buffer restarts (counter + 1) (bb_finished b) (take shared (bb_last_key b) ++ drop shared key).

(** ** Block *)

(** [size_] zero marks contents that are too short. *)
Record Block := MkBlock { bl_data : bytes; bl_size : Z; bl_restart_offset : Z }.

Definition NumRestarts (data : bytes) (size : Z) : res Z := DecodeFixed32 kLittleEndian (drop (Z.to_nat (size - 4)) data).

Definition Block_new (contents : bytes) : res Block :=
  let size := Z.of_nat (length contents) in
  if size <? 4 then Ok (MkBlock contents 0 0)
  else
    let max_restarts_allowed := (size - 4) / 4 in
    n ← NumRestarts contents size;
    if max_restarts_allowed <? n then Ok (MkBlock contents 0 0)
    else Ok (MkBlock contents size (wrap_u 32 (size - (1 + n) * 4))).

(** The entry at the offset [p]: the three sizes and the offset of the key. *)
Definition DecodeEntry (data : bytes) (p limit : Z) : option (Z * Z * Z * Z) :=
  if limit - p <? 3 then None
  else
    let s := drop (Z.to_nat p) (take (Z.to_nat limit) data) in
    r ← match s with
        | b0 :: b1 :: b2 :: s' =>
            let shared := byte.unsigned b0 in
            let non_shared := byte.unsigned b1 in
            let value_length := byte.unsigned b2 in
            if Z.lor (Z.lor shared non_shared) value_length <? 128 then Some (shared, non_shared, value_length, s')
            else
              '(shared, s) ← GetVarint32Ptr s;
              '(non_shared, s) ← GetVarint32Ptr s;
              '(value_length, s) ← GetVarint32Ptr s;
              Some (shared, non_shared, value_length, s)
        | _ => None
        end;
    let '(shared, non_shared, value_length, s) := r in
    if wrap_u 32 (Z.of_nat (length s)) <? wrap_u 32 (non_shared + value_length) then None
    else Some (shared, non_shared, value_length, limit - Z.of_nat (length s)).

(** ** Iterator *)

(** [value_] is a slice of the block, or the empty one. *)
Record Iter := MkIter {
  it_data : bytes; it_restarts : Z; it_num_restarts : Z; it_current : Z; it_restart_index : Z;
  it_key : bytes; it_value : option (Z * Z); it_status : Status }.

Definition Iter_new (data : bytes) (restarts num_restarts : Z) : Iter :=
  MkIter data restarts num_restarts restarts num_restarts [] None status_OK.

(** [None] for an empty iterator, a status for an error iterator. *)
Definition NewIterator (b : Block) : res (Status + option Iter) :=
  if bl_size b <? 4 then Ok (inl (Corruption (lit "bad block contents")))
  else
    n ← NumRestarts (bl_data b) (bl_size b);
    if n =? 0 then Ok (inr None) else Ok (inr (Some (Iter_new (bl_data b) (bl_restart_offset b) n))).

Context (comparator_ : comparator).

Definition iter_Compare (a b : bytes) : Z := cmp comparator_ a b.

Definition it_Valid (it : Iter) : bool := it_current it <? it_restarts it.

(** The difference of two pointers, which must both be into the block. *)
Definition NextEntryOffset (it : Iter) : res Z :=
  match it_value it with
  | Some (o, n) => if Z.of_nat (length (it_data it)) <? o + n then Ub DanglingPtr else Ok (wrap_u 32 (o + n))
  | None => Ub DanglingPtr
  end.

Definition GetRestartPoint (it : Iter) (index : Z) : res Z :=
  DecodeFixed32 kLittleEndian (drop (Z.to_nat (it_restarts it + index * 4)) (it_data it)).

Definition it_set (cur ri : Z) (key : bytes) (value : option (Z * Z)) (st : Status) (it : Iter) : Iter :=
  MkIter (it_data it) (it_restarts it) (it_num_restarts it) cur ri key value st.

Definition SeekToRestartPoint (index : Z) (it : Iter) : res Iter :=
  offset ← GetRestartPoint it index;
  Ok (it_set (it_current it) index [] (Some (offset, 0)) (it_status it) it).

Definition CorruptionError (it : Iter) : Iter :=
  it_set (it_restarts it) (it_num_restarts it) [] None (Corruption (lit "bad entry in block")) it.

(** The loop that moves [restart_index_] up to the current entry. *)
Fixpoint bump_restart (fuel : nat) (ri : Z) (it : Iter) : res Z :=
  match fuel with
  | O => Ok ri
  | S n =>
      if ri + 1 <? it_num_restarts it then
        p ← GetRestartPoint it (ri + 1);
        if p <? it_current it then bump_restart n (ri + 1) it else Ok ri
      else Ok ri
  end.

Definition ParseNextKey (it : Iter) : res (bool * Iter) :=
  cur ← NextEntryOffset it;
  if it_restarts it <=? cur
  then Ok (false, it_set (it_restarts it) (it_num_restarts it) (it_key it) (it_value it) (it_status it) it)
  else
    match DecodeEntry (it_data it) cur (it_restarts it) with
    | None => Ok (false, CorruptionError it)
    | Some (shared, non_shared, value_length, p) =>
        if Z.of_nat (length (it_key it)) <? shared then Ok (false, CorruptionError it)
        else
          let delta := take (Z.to_nat non_shared) (drop (Z.to_nat p) (it_data it)) in
          if Z.of_nat (length delta) <? non_shared then Ub OobRead
          else
            let it := it_set cur (it_restart_index it) (take (Z.to_nat shared) (it_key it) ++ delta)
                        (Some (p + non_shared, value_length)) (it_status it) it in
            ri ← bump_restart (Z.to_nat (it_num_restarts it)) (it_restart_index it) it;
            Ok (true, it_set cur ri (it_key it) (it_value it) (it_status it) it)
    end.

(** The bytes [value()] refers to. *)
Definition it_value_bytes (it : Iter) : res bytes :=
  match it_value it with
  | Some (o, n) =>
      let v := take (Z.to_nat n) (drop (Z.to_nat o) (it_data it)) in
      if Z.of_nat (length v) <? n then Ub OobRead else Ok v
  | None => Ok []
  end.

Definition it_Next (it : Iter) : res Iter := r ← ParseNextKey it; Ok (snd r).

(** Parsing on while the entry read ends before [stop]; every entry has three
    bytes at least. *)
Fixpoint parse_until (fuel : nat) (stop : Z) (it : Iter) : res Iter :=
  match fuel with
  | O => Ok it
  | S n =>
      '(ok, it) ← ParseNextKey it;
      if (ok : bool) then
        o ← NextEntryOffset it;
        if o <? stop then parse_until n stop it else Ok it
      else Ok it
  end.

(** The scan of [Prev]; [None] when the first restart point is not before. *)
Fixpoint back_restart (fuel : nat) (original ri : Z) (it : Iter) : res (option Z) :=
  match fuel with
  | O => Ok None
  | S n =>
      p ← GetRestartPoint it ri;
      if original <=? p then if ri =? 0 then Ok None else back_restart n original (ri - 1) it
      else Ok (Some ri)
  end.

Definition it_Prev (it : Iter) : res Iter :=
  let original := it_current it in
  r ← back_restart (S (Z.to_nat (it_num_restarts it))) original (it_restart_index it) it;
  match r with
  | None => Ok (it_set (it_restarts it) (it_num_restarts it) (it_key it) (it_value it) (it_status it) it)
  | Some ri => it ← SeekToRestartPoint ri it; parse_until (length (it_data it)) original it
  end.

(** The binary search of [Seek]; [None] for a bad entry. *)
Fixpoint seek_restart (fuel : nat) (target : bytes) (lft rgt : Z) (it : Iter) : res (option Z) :=
  match fuel with
  | O => Ok (Some lft)
  | S n =>
      if lft <? rgt then
        let mid := wrap_u 32 (lft + rgt + 1) / 2 in
        region_offset ← GetRestartPoint it mid;
        match DecodeEntry (it_data it) region_offset (it_restarts it) with
        | Some (shared, non_shared, value_length, key_ptr) =>
            if negb (shared =? 0) then Ok None
            else
              let mid_key := take (Z.to_nat non_shared) (drop (Z.to_nat key_ptr) (it_data it)) in
              if Z.of_nat (length mid_key) <? non_shared then Ub OobRead
              else if iter_Compare mid_key target <? 0 then seek_restart n target mid rgt it
              else seek_restart n target lft (mid - 1) it
        | None => Ok None
        end
      else Ok (Some lft)
  end.

Fixpoint seek_linear (fuel : nat) (target : bytes) (it : Iter) : res Iter :=
  match fuel with
  | O => Ok it
  | S n =>
      '(ok, it) ← ParseNextKey it;
      if negb ok then Ok it
      else if 0 <=? iter_Compare (it_key it) target then Ok it
      else seek_linear n target it
  end.

Definition it_Seek (target : bytes) (it : Iter) : res Iter :=
  r ← seek_restart (Z.to_nat (it_num_restarts it)) target 0 (wrap_u 32 (it_num_restarts it - 1)) it;
  match r with
  | None => Ok (CorruptionError it)
  | Some lft => it ← SeekToRestartPoint lft it; seek_linear (length (it_data it)) target it
  end.

Definition it_SeekToFirst (it : Iter) : res Iter :=
  it ← SeekToRestartPoint 0 it;
  r ← ParseNextKey it;
  Ok (snd r).

Definition it_SeekToLast (it : Iter) : res Iter :=
  it ← SeekToRestartPoint (it_num_restarts it - 1) it;
  parse_until (length (it_data it)) (it_restarts it) it.
End Block.
