(* ===== verification/LvlBlockSpec.v ===== *)
(** * What a table block gives back

    The layout [BlockBuilder] makes of sorted entries, and that the iterator
    over it is a cursor in the list of the entries. *)
From S2P Require Import Prelude Store LvlCoding LvlBase LvlBlock.

(** ** The layout *)

(** An entry and how many bytes of its key are those of the key before. *)
Record cell := Cell { c_shared : nat; c_key : bytes; c_val : bytes }.

Definition size_bytes (n : nat) : bytes := EncodeVarint32 (wrap_u 32 (Z.of_nat n)).

Definition cell_head (c : cell) : bytes :=
  size_bytes (c_shared c) ++ size_bytes (length (c_key c) - c_shared c) ++ size_bytes (length (c_val c)).
Definition cell_bytes (c : cell) : bytes := cell_head c ++ drop (c_shared c) (c_key c) ++ c_val c.

Definition body (cs : list cell) : bytes := concat (cell_bytes <$> cs).
Definition off (cs : list cell) (i : nat) : nat := length (body (take i cs)).

Fixpoint wf_cells (prev : bytes) (cs : list cell) : Prop :=
  match cs with
  | [] => True
  | c :: cs' =>
      (c_shared c <= length prev)%nat /\ (c_shared c <= length (c_key c))%nat /\
      take (c_shared c) prev = take (c_shared c) (c_key c) /\ wf_cells (c_key c) cs'
  end.

(** The restart points: cell 0 and cells that share nothing. *)
Definition wf_restarts (cs : list cell) (R : list nat) : Prop :=
  R !! 0%nat = Some 0%nat /\ (forall r i j, R !! r = Some i -> R !! S r = Some j -> (i < j)%nat) /\
  (forall r i, R !! S r = Some i -> (i < length cs)%nat) /\
  (forall r i c, R !! r = Some i -> cs !! i = Some c -> c_shared c = 0%nat).

Definition point (cs : list cell) (i : nat) : Z := Z.of_nat (off cs i).

Definition block_bytes (cs : list cell) (R : list nat) : bytes :=
  body cs ++ concat (le_split 4 <$> (point cs <$> R)) ++ le_split 4 (Z.of_nat (length R)).

Lemma body_app a b : body (a ++ b) = body a ++ body b.
Proof. unfold body. by rewrite fmap_app, concat_app. Qed.

Lemma off_app a b : off (a ++ b) (length a) = length (body a).
Proof. unfold off. by rewrite take_app_length. Qed.

Lemma off_S cs i c : cs !! i = Some c -> off cs (S i) = (off cs i + length (cell_bytes c))%nat.
Proof. intros Hc. unfold off. rewrite (take_S_r cs i c Hc), body_app, length_app. unfold body at 2. cbn. by rewrite app_nil_r. Qed.

Lemma body_at cs i c : cs !! i = Some c -> drop (off cs i) (body cs) = cell_bytes c ++ body (drop (S i) cs).
Proof.
  intros Hc. unfold off. rewrite <- (take_drop i cs) at 2. rewrite body_app, drop_app_length, (drop_S cs c i Hc). done.
Qed.

Lemma off_mono cs i j : (i <= j)%nat -> (off cs i <= off cs j)%nat.
Proof.
  intros Hij. unfold off. rewrite <- (take_drop i (take j cs)), take_take, Nat.min_l by done. rewrite body_app, length_app. lia.
Qed.

Lemma off_length cs i : (length cs <= i)%nat -> off cs i = length (body cs).
Proof. intros Hi. unfold off. by rewrite take_ge. Qed.

Lemma varint_nonempty v : (1 <= length (EncodeVarint32 v))%nat.
Proof. unfold EncodeVarint32. repeat case_match; cbn; lia. Qed.

Lemma cell_size c : (3 <= length (cell_bytes c))%nat.
Proof.
  unfold cell_bytes, cell_head. rewrite !length_app. unfold size_bytes.
  pose proof (varint_nonempty (wrap_u 32 (Z.of_nat (c_shared c)))). pose proof (varint_nonempty (wrap_u 32 (Z.of_nat (length (c_key c) - c_shared c)))).
  pose proof (varint_nonempty (wrap_u 32 (Z.of_nat (length (c_val c))))). lia.
Qed.

Lemma off_lt cs i j : (i < j)%nat -> (i < length cs)%nat -> (off cs i + 3 <= off cs j)%nat.
Proof.
  intros Hij Hi. destruct (lookup_lt_is_Some_2 cs i Hi) as [c Hc]. pose proof (off_mono cs (S i) j Hij). rewrite (off_S cs i c Hc) in H.
  pose proof (cell_size c). lia.
Qed.

(** ** The builder *)
Section Builder.
Context (e : bool) (interval : Z).

Fixpoint add_entries (es : entries) (b : BlockBuilder) : BlockBuilder :=
  match es with [] => b | (k, v) :: es' => add_entries es' (bb_Add interval k v b) end.

Lemma shared_prefix_take a b : take (shared_prefix a b) a = take (shared_prefix a b) b.
Proof. revert b. induction a as [|x a IH]; intros [|y b]; cbn; [done..|]. case_decide; [subst; cbn; by rewrite IH|done]. Qed.
Lemma shared_prefix_le a b : (shared_prefix a b <= length a)%nat /\ (shared_prefix a b <= length b)%nat.
Proof. revert b. induction a as [|x a IH]; intros [|y b]; cbn; try lia. case_decide; cbn; [|lia]. destruct (IH b). lia. Qed.

Definition entry_of (c : cell) : bytes * bytes := (c_key c, c_val c).
Definition last_of (cs : list cell) : bytes := match last cs with Some c => c_key c | None => [] end.

(** A builder that holds the cells [cs]. *)
Definition builds (cs : list cell) (R : list nat) (b : BlockBuilder) : Prop :=
  bb_buffer b = body cs /\ bb_restarts b = point cs <$> R /\ bb_last_key b = last_of cs /\
  wf_cells [] cs /\ wf_restarts cs R /\ 0 <= bb_counter b /\ (cs = [] -> bb_counter b = 0) /\
  Forall (fun i => (i <= length cs)%nat) R.

Lemma builds_new : builds [] [0%nat] BlockBuilder_new.
Proof.
  unfold builds, wf_restarts. split_and!; try done; try (by intros [|r]); try (by repeat constructor).
Qed.

Lemma wf_cells_snoc prev cs c : wf_cells prev (cs ++ [c]) <->
  wf_cells prev cs /\ let l := match last cs with Some x => c_key x | None => prev end in
    (c_shared c <= length l)%nat /\ (c_shared c <= length (c_key c))%nat /\ take (c_shared c) l = take (c_shared c) (c_key c).
Proof.
  revert prev. induction cs as [|x cs IH]; intros prev; [cbn; tauto|]. rewrite <- app_comm_cons. cbn [wf_cells].
  rewrite IH, last_cons. destruct (last cs); cbn; tauto.
Qed.

Lemma point_app cs c R : Forall (fun i => (i <= length cs)%nat) R -> point (cs ++ [c]) <$> R = point cs <$> R.
Proof.
  intros HR. apply list_fmap_ext. intros r i Hi. rewrite Forall_lookup in HR. specialize (HR r i Hi). unfold point, off. by rewrite take_app_le.
Qed.

Lemma restarts_same cs c R : wf_restarts cs R -> (cs = [] -> c_shared c = 0%nat) -> wf_restarts (cs ++ [c]) R.
Proof.
  intros (H0 & H1 & H2 & H3) Hc. split; [done|]. split; [done|]. split.
  - intros r i Hi. rewrite length_app. specialize (H2 r i Hi). lia.
  - intros r i x Hi Hx. apply lookup_app_Some in Hx as [Hx|[Hl Hx]]; [by apply (H3 r i x)|].
    apply list_lookup_singleton_Some in Hx as [Hl' <-]. destruct r as [|r]; [|specialize (H2 r i Hi); lia].
    apply Hc. apply nil_length_inv. assert (i = 0%nat) by congruence. lia.
Qed.

Lemma restarts_new cs c R : wf_restarts cs R -> cs <> [] -> c_shared c = 0%nat -> wf_restarts (cs ++ [c]) (R ++ [length cs]).
Proof.
  intros HR Hne Hc. destruct (restarts_same cs c R HR (fun _ => Hc)) as (H0 & H1 & H2 & H3). destruct HR as (_ & _ & H2' & _).
  assert (Hlt : forall r i, R !! r = Some i -> (i < length cs)%nat).
  { intros [|r] i Hi; [|by apply (H2' r)]. assert (i = 0%nat) as -> by congruence. destruct cs; [done|cbn; lia]. }
  split; [by rewrite lookup_app_l by (by eapply lookup_lt_Some)|]. split; [|split].
  - intros r i j Hi Hj. apply lookup_app_Some in Hj as [Hj|[Hl Hj]].
    + apply (H1 r i j); [|done]. rewrite lookup_app_l in Hi; [done|]. apply lookup_lt_Some in Hj. lia.
    + apply list_lookup_singleton_Some in Hj as [Hl' <-]. rewrite lookup_app_l in Hi by lia. by apply (Hlt r).
  - intros r i Hi. rewrite length_app. cbn. apply lookup_app_Some in Hi as [Hi|[_ [_ <-]%list_lookup_singleton_Some]]; [specialize (H2' r i Hi)|]; lia.
  - intros r i x Hi Hx. apply lookup_app_Some in Hi as [Hi|[_ [_ <-]%list_lookup_singleton_Some]]; [by apply (H3 r i x)|].
    rewrite lookup_app_r, Nat.sub_diag in Hx by done. by injection Hx as <-.
Qed.

Lemma builds_add cs R b k v : builds cs R b -> 1 <= interval -> Z.of_nat (length (body cs)) < 2 ^ 32 ->
  exists c R', builds (cs ++ [c]) R' (bb_Add interval k v b) /\ entry_of c = (k, v).
Proof.
  intros (Hb & Hr & Hk & Hwc & Hwr & Hc0 & Hce & HR) Hi Hs. set (go := bb_counter b <? interval).
  set (sh := if go then shared_prefix (bb_last_key b) k else 0%nat). set (c := Cell sh k v).
  assert (Hsh : (sh <= length (last_of cs))%nat /\ (sh <= length k)%nat /\ take sh (last_of cs) = take sh k).
  { unfold sh. rewrite <- Hk. destruct go; [|split; [lia|split; [lia|done]]]. destruct (shared_prefix_le (bb_last_key b) k).
    split; [done|]. split; [done|]. apply shared_prefix_take. }
  assert (Hbuf : bb_buffer (bb_Add interval k v b) = body (cs ++ [c])).
  { unfold bb_Add. fold go sh. cbn [bb_buffer]. unfold put_size, PutVarint32. rewrite Hb, body_app. unfold body at 2. cbn. rewrite app_nil_r.
    unfold cell_bytes, cell_head, size_bytes. cbn. by rewrite <- !app_assoc. }
  assert (Hlast : bb_last_key (bb_Add interval k v b) = last_of (cs ++ [c])).
  { unfold bb_Add. fold go sh. cbn [bb_last_key]. unfold last_of. rewrite last_snoc. cbn. destruct Hsh as (_ & _ & E). rewrite Hk, E. apply take_drop. }
  assert (Hwf : wf_cells [] (cs ++ [c])) by (by apply wf_cells_snoc).
  assert (Hcnt : 0 <= bb_counter (bb_Add interval k v b)) by (unfold bb_Add; fold go; cbn [bb_counter]; destruct go; lia).
  assert (Hne : cs ++ [c] = [] -> bb_counter (bb_Add interval k v b) = 0) by (by destruct cs).
  assert (HR' : Forall (fun i => (i <= length (cs ++ [c]))%nat) R).
  { eapply Forall_impl; [exact HR|]. intros i. rewrite length_app. cbn. lia. }
  destruct go eqn:Hgo.
  - exists c, R. split; [|done]. split; [done|]. split; [|split; [done|split; [done|split; [|split; [done|split; [done|done]]]]]].
    + unfold bb_Add. fold go. rewrite Hgo. cbn [bb_restarts]. by rewrite Hr, point_app.
    + apply restarts_same; [done|]. intros ->. cbn in Hsh. cbn. lia.
  - assert (Hcs : cs <> []) by (intros E; specialize (Hce E); apply Z.ltb_ge in Hgo; lia).
    exists c, (R ++ [length cs]). split; [|done]. split; [done|]. split; [|split; [done|split; [done|split; [|split; [done|split; [done|]]]]]].
    + unfold bb_Add. fold go. rewrite Hgo. cbn [bb_restarts]. rewrite Hr, fmap_app, point_app by done. f_equal. cbn. f_equal.
      unfold point. rewrite off_app, Hb. apply wrap_u_small. lia.
    + by apply restarts_new.
    + apply Forall_app. split; [done|]. constructor; [|done]. rewrite length_app. cbn. lia.
Qed.

Lemma add_entries_grows es b : (length (bb_buffer b) <= length (bb_buffer (add_entries es b)))%nat.
Proof.
  revert b. induction es as [|[k v] es IH]; intros b; [done|]. cbn [add_entries]. etransitivity; [|apply IH].
  unfold bb_Add. cbn [bb_buffer]. unfold put_size, PutVarint32. rewrite !length_app. lia.
Qed.

Lemma builds_all es : forall cs R b, builds cs R b -> 1 <= interval -> Z.of_nat (length (bb_buffer (add_entries es b))) < 2 ^ 32 ->
  exists cs' R', builds cs' R' (add_entries es b) /\ entry_of <$> cs' = (entry_of <$> cs) ++ es.
Proof.
  induction es as [|[k v] es IH]; intros cs R b HB Hi Hs; [exists cs, R; by rewrite app_nil_r|]. cbn [add_entries] in *.
  pose proof (add_entries_grows es (bb_Add interval k v b)) as Hg.
  assert (Hb : (length (body cs) <= length (bb_buffer (bb_Add interval k v b)))%nat).
  { destruct HB as [<- _]. exact (add_entries_grows [(k, v)] b). }
  destruct (builds_add cs R b k v HB Hi) as (c & R' & HB' & Hc); [lia|].
  destruct (IH _ _ _ HB' Hi Hs) as (cs' & R'' & HB'' & E). exists cs', R''. split; [done|]. rewrite E, fmap_app, <- app_assoc. cbn. by rewrite Hc.
Qed.

Lemma foldl_put (l : list Z) buf : foldl (PutFixed32 e) buf l = buf ++ concat (le_split 4 <$> l).
Proof.
  revert buf. induction l as [|z l IH]; intros buf; [by rewrite app_nil_r|]. cbn [foldl fmap list_fmap concat]. rewrite IH.
  unfold PutFixed32. by rewrite encode32_le, <- app_assoc.
Qed.

Lemma finish_bytes cs R b : builds cs R b -> Z.of_nat (length R) < 2 ^ 32 -> fst (bb_Finish e b) = block_bytes cs R.
Proof.
  intros (Hb & Hr & _) HR. unfold bb_Finish. cbn [fst]. rewrite foldl_put, Hr, Hb, length_fmap. unfold PutFixed32.
  rewrite encode32_le, wrap_u_small by lia. by rewrite <- app_assoc.
Qed.
End Builder.

(** ** Decoding *)
Lemma first_byte v : 0 <= v < 2 ^ 32 -> exists b rest, EncodeVarint32 v = b :: rest /\
  (if v <? 128 then byte.unsigned b = v /\ rest = [] else 128 <= byte.unsigned b).
Proof.
  intros Hv. unfold EncodeVarint32. change (Z.shiftl 1 7) with 128. destruct (Z.ltb_spec v 128).
  - do 2 eexists. split; [done|]. split; [|done]. apply byte_of_Z_small. lia.
  - repeat case_match; do 2 eexists; (split; [done|]); rewrite cont_byte; pose proof (Z.mod_pos_bound v 128); lia.
Qed.

(** The three sizes in front of an entry. *)
Definition get_sizes (s : bytes) : option (Z * Z * Z * bytes) :=
  match s with
  | b0 :: b1 :: b2 :: s' =>
      let shared := byte.unsigned b0 in
      let non_shared := byte.unsigned b1 in
      let value_length := byte.unsigned b2 in
      if Z.lor (Z.lor shared non_shared) value_length <? 128 then Some (shared, non_shared, value_length, s')
      else
        '(shared, s) ← GetVarint32Ptr s;
        '(non_shared, s) ← GetVarint32Ptr s;
        '(value_length, s) ← GetVarint32Ptr s;
        Some (shared, non_shared, value_length, s)
  | _ => None
  end.

Lemma low_bit z : 0 <= z < 256 -> (z <? 128) = negb (Z.testbit z 7).
Proof.
  intros Hz. destruct (Z.ltb_spec z 128); symmetry.
  - apply negb_true_iff. rewrite Z.testbit_false by lia. change (2 ^ 7) with 128. by rewrite Z.div_small by lia.
  - apply negb_false_iff. rewrite Z.testbit_true by lia. change (2 ^ 7) with 128.
    by replace (z / 128) with 1 by (apply Z.div_unique_pos with (z - 128); lia).
Qed.

Lemma lor_range n a b : 0 <= n -> 0 <= a < 2 ^ n -> 0 <= b < 2 ^ n -> 0 <= Z.lor a b < 2 ^ n.
Proof.
  intros Hn Ha Hb. assert (Z.lor a b = Z.land (Z.lor a b) (Z.ones n)) as ->; [|rewrite Z.land_ones by lia; apply Z.mod_pos_bound; lia].
  rewrite Z.land_lor_distr_l, !Z.land_ones, !Z.mod_small by lia. done.
Qed.

Lemma small_sizes (b0 b1 b2 : byte) :
  (Z.lor (Z.lor (byte.unsigned b0) (byte.unsigned b1)) (byte.unsigned b2) <? 128) =
  (byte.unsigned b0 <? 128) && (byte.unsigned b1 <? 128) && (byte.unsigned b2 <? 128).
Proof.
  pose proof (byte_range b0). pose proof (byte_range b1). pose proof (byte_range b2).
  rewrite !low_bit by (done || by repeat apply (lor_range 8)). by rewrite !Z.lor_spec, !negb_orb.
Qed.

Lemma get_sizes_ok a b c s : 0 <= a < 2 ^ 32 -> 0 <= b < 2 ^ 32 -> 0 <= c < 2 ^ 32 ->
  get_sizes (EncodeVarint32 a ++ EncodeVarint32 b ++ EncodeVarint32 c ++ s) = Some (a, b, c, s).
Proof.
  intros Ha Hb Hc. set (all := _ ++ _).
  assert (Hslow : ('(shared, s) ← GetVarint32Ptr all; '(non_shared, s) ← GetVarint32Ptr s; '(value_length, s) ← GetVarint32Ptr s;
      Some (shared, non_shared, value_length, s)) = Some (a, b, c, s)).
  { unfold all. rewrite varint32_get by done. cbn. rewrite varint32_get by done. cbn. by rewrite varint32_get. }
  unfold get_sizes. destruct all as [|b0 [|b1 [|b2 s']]] eqn:Eall.
  1-3: exfalso; apply (f_equal length) in Eall; unfold all in Eall; rewrite !length_app in Eall;
    pose proof (varint_nonempty a); pose proof (varint_nonempty b); pose proof (varint_nonempty c); cbn in Eall; lia.
  rewrite small_sizes. destruct (_ && _) eqn:Hf; [|exact Hslow]. apply andb_true_iff in Hf as [[H0 H1]%andb_true_iff H2].
  apply Z.ltb_lt in H0, H1, H2. unfold all in Eall.
  destruct (first_byte a Ha) as (x & rx & Ex & Hx). rewrite Ex in Eall. cbn in Eall. injection Eall as -> Eall.
  destruct (Z.ltb_spec a 128) as [La|La]; [|lia]. destruct Hx as [Hx ->]. cbn in Eall.
  destruct (first_byte b Hb) as (y & ry & Ey & Hy). rewrite Ey in Eall. cbn in Eall. injection Eall as -> Eall.
  destruct (Z.ltb_spec b 128) as [Lb|Lb]; [|lia]. destruct Hy as [Hy ->]. cbn in Eall.
  destruct (first_byte c Hc) as (z & rz & Ez & Hz). rewrite Ez in Eall. cbn in Eall. injection Eall as -> Eall.
  destruct (Z.ltb_spec c 128) as [Lc|Lc]; [|lia]. destruct Hz as [Hz ->]. cbn in Eall. subst s'. by rewrite Hx, Hy, Hz.
Qed.

Lemma DecodeEntry_sizes data p limit : DecodeEntry data p limit =
  if limit - p <? 3 then None
  else r ← get_sizes (drop (Z.to_nat p) (take (Z.to_nat limit) data));
    let '(shared, non_shared, value_length, s) := r in
    if wrap_u 32 (Z.of_nat (length s)) <? wrap_u 32 (non_shared + value_length) then None
    else Some (shared, non_shared, value_length, limit - Z.of_nat (length s)).
Proof. done. Qed.

(** ** The iterator *)
Lemma drop_concat4 (l : list Z) r z t : l !! r = Some z ->
  exists t', drop (4 * r) (concat (le_split 4 <$> l) ++ t) = le_split 4 z ++ t'.
Proof.
  revert r. induction l as [|y l IH]; intros [|r] Hr; try done; cbn [fmap list_fmap concat]; rewrite <- app_assoc.
  - injection Hr as ->. by eexists.
  - destruct (IH r Hr) as [t' E]. exists t'. rewrite <- E. replace (4 * S r)%nat with (length (le_split 4 y) + 4 * r)%nat by (rewrite length_le_split; lia).
    rewrite <- drop_drop. by rewrite drop_app_length.
Qed.

Lemma length_concat4 (l : list Z) : length (concat (le_split 4 <$> l)) = (4 * length l)%nat.
Proof.
  induction l as [|z l IH]; [done|]. change (concat (le_split 4 <$> z :: l)) with (le_split 4 z ++ concat (le_split 4 <$> l)).
  rewrite length_app, length_le_split, IH. cbn. lia.
Qed.

Section Iterator.
Context (e : bool) (uc : comparator) (cs : list cell) (R : list nat).
Abbreviation data := (block_bytes cs R).
Abbreviation L := (length (body cs)).
Hypothesis Hwf : wf_cells [] cs.
Hypothesis HR : wf_restarts cs R.
Hypothesis Hsz : Z.of_nat (length data) < 2 ^ 32.

Lemma data_length : length data = (L + 4 * length R + 4)%nat.
Proof.
  unfold block_bytes. rewrite !length_app, length_le_split, length_concat4, length_fmap. lia.
Qed.

Lemma off_le i : (off cs i <= L)%nat.
Proof. rewrite <- (off_length cs (length cs `max` i)) by lia. apply off_mono. lia. Qed.

Lemma data_take : take L data = body cs.
Proof. unfold block_bytes. by rewrite take_app_length. Qed.

Lemma cell_in i c : cs !! i = Some c -> (off cs i + length (cell_bytes c) <= L)%nat.
Proof. intros Hc. rewrite <- (off_S cs i c Hc). apply off_le. Qed.

Lemma data_at_cell i c : cs !! i = Some c -> exists t, drop (off cs i) data = cell_bytes c ++ t.
Proof.
  intros Hc. pose proof (off_le i). unfold block_bytes. rewrite drop_app_le by done. rewrite (body_at cs i c Hc), <- app_assoc. by eexists.
Qed.

Lemma wf_at i c : cs !! i = Some c -> let p := match i with O => [] | S j => match cs !! j with Some x => c_key x | None => [] end end in
  (c_shared c <= length p)%nat /\ (c_shared c <= length (c_key c))%nat /\ take (c_shared c) p = take (c_shared c) (c_key c).
Proof.
  revert i c. assert (forall prev l i c, wf_cells prev l -> l !! i = Some c ->
    let p := match i with O => prev | S j => match l !! j with Some x => c_key x | None => [] end end in
    (c_shared c <= length p)%nat /\ (c_shared c <= length (c_key c))%nat /\ take (c_shared c) p = take (c_shared c) (c_key c)) as H.
  { intros prev l. revert prev. induction l as [|x l IH]; intros prev [|i] c Hw Hc; try done.
    - injection Hc as ->. destruct Hw as (? & ? & ? & _). done.
    - destruct Hw as (_ & _ & _ & Hw). specialize (IH (c_key x) i c Hw Hc). by destruct i. }
  intros i c Hc. by apply (H [] cs i c).
Qed.

Lemma cell_length c : (c_shared c <= length (c_key c))%nat ->
  length (cell_bytes c) = (length (cell_head c) + (length (c_key c) - c_shared c) + length (c_val c))%nat.
Proof. intros _. unfold cell_bytes. rewrite !length_app, length_drop. lia. Qed.

(** A key is no longer than the block up to its end. *)
Lemma key_length i c : cs !! i = Some c -> (length (c_key c) <= off cs (S i))%nat.
Proof.
  revert c. induction i as [|i IH]; intros c Hc; destruct (wf_at _ c Hc) as (Hp & Hk & _); rewrite (off_S _ _ c Hc), (cell_length c Hk); [cbn in Hp; lia|].
  destruct (cs !! i) as [x|] eqn:Hx; [|cbn in Hp; lia]. specialize (IH x eq_refl). lia.
Qed.

Lemma decode_cell i c : cs !! i = Some c -> DecodeEntry data (point cs i) (Z.of_nat L) =
  Some (Z.of_nat (c_shared c), Z.of_nat (length (c_key c) - c_shared c), Z.of_nat (length (c_val c)), Z.of_nat (off cs i + length (cell_head c))).
Proof.
  intros Hc. pose proof (cell_in i c Hc) as Hin. pose proof (cell_size c) as H3. destruct (wf_at i c Hc) as (_ & Hsk & _).
  pose proof (key_length i c Hc) as Hkl. pose proof (off_le (S i)) as Hoff. rewrite (cell_length c Hsk) in Hin, H3.
  pose proof data_length as Hdl. rewrite DecodeEntry_sizes. unfold point. rewrite (proj2 (Z.ltb_ge _ _)) by lia.
  rewrite !Nat2Z.id, data_take, (body_at cs i c Hc). set (t := drop (c_shared c) (c_key c) ++ c_val c ++ body (drop (S i) cs)).
  assert (Ht : length t = (L - (off cs i + length (cell_head c)))%nat).
  { assert (length (drop (off cs i) (body cs)) = (L - off cs i)%nat) as E by apply length_drop. rewrite (body_at cs i c Hc) in E.
    unfold cell_bytes in E. rewrite !length_app in E. unfold t. rewrite !length_app. lia. }
  assert (cell_bytes c ++ body (drop (S i) cs) = EncodeVarint32 (Z.of_nat (c_shared c)) ++
    EncodeVarint32 (Z.of_nat (length (c_key c) - c_shared c)) ++ EncodeVarint32 (Z.of_nat (length (c_val c))) ++ t) as ->.
  { unfold cell_bytes, cell_head, size_bytes, t. rewrite !wrap_u_small by lia. by rewrite <- !app_assoc. }
  rewrite get_sizes_ok by lia. cbn [mbind option_bind]. rewrite !wrap_u_small by lia.
  rewrite (proj2 (Z.ltb_ge _ _)) by lia. do 2 f_equal. lia.
Qed.

(** The fields of an iterator that do not change, and no error. *)
Definition over (it : Iter) : Prop :=
  it_data it = data /\ it_restarts it = Z.of_nat L /\ it_num_restarts it = Z.of_nat (length R) /\ it_status it = status_OK.

Lemma restart_point it r i : over it -> R !! r = Some i -> GetRestartPoint e it (Z.of_nat r) = Ok (point cs i).
Proof.
  intros (Hd & Hr & _) Hi. unfold GetRestartPoint. rewrite Hd, Hr.
  replace (Z.to_nat (Z.of_nat L + Z.of_nat r * 4)) with (L + 4 * r)%nat by lia. unfold block_bytes. rewrite <- drop_drop, drop_app_length.
  destruct (drop_concat4 (point cs <$> R) r (point cs i) (le_split 4 (Z.of_nat (length R)))) as [t' ->]; [by rewrite list_lookup_fmap, Hi|].
  rewrite <- (encode32_le e). apply fixed32_get. unfold point. pose proof (off_le i). pose proof data_length. lia.
Qed.

(** The next entry parsed is the [i]th. *)
Definition ready (i : nat) (it : Iter) : Prop :=
  over it /\ (exists o n, it_value it = Some (o, n) /\ o + n = point cs i) /\
  (exists r j, it_restart_index it = Z.of_nat r /\ R !! r = Some j /\ (j <= i)%nat) /\
  forall c, cs !! i = Some c -> (c_shared c <= length (it_key it))%nat /\ take (c_shared c) (it_key it) = take (c_shared c) (c_key c).

(** The iterator is at the [i]th entry. *)
Definition at_cell (i : nat) (it : Iter) : Prop :=
  over it /\ exists c, cs !! i = Some c /\ it_current it = point cs i /\ it_key it = c_key c /\
  it_value it = Some (point cs (S i) - Z.of_nat (length (c_val c)), Z.of_nat (length (c_val c))) /\
  exists r j, it_restart_index it = Z.of_nat r /\ R !! r = Some j /\ (j <= i)%nat /\ forall j', R !! S r = Some j' -> (i <= j')%nat.

(** It is at none. *)
Definition at_none (it : Iter) : Prop := over it /\ it_current it = it_restarts it.

Lemma at_ready i it : at_cell i it -> ready (S i) it.
Proof.
  intros (HO & c & Hc & Hcur & Hk & Hv & r & j & Hr & Hj & Hle & _). split; [done|]. split; [do 2 eexists; split; [done|lia]|].
  split; [exists r, j; split; [done|]; split; [done|lia]|].
  intros c' Hc'. destruct (wf_at (S i) c' Hc') as (H1 & _ & H2). rewrite Hc in H1, H2. by rewrite Hk.
Qed.

Lemma restart_ready it r i : over it -> R !! r = Some i ->
  exists it', SeekToRestartPoint e (Z.of_nat r) it = Ok it' /\ ready i it'.
Proof.
  intros HO Hr. unfold SeekToRestartPoint. rewrite (restart_point it r i HO Hr). cbn [mbind res_bind]. eexists. split; [done|].
  split; [done|]. split; [do 2 eexists; split; [done|lia]|]. split; [by exists r, i|].
  intros c Hc. destruct HR as (_ & _ & _ & H3). rewrite (H3 r i c Hr Hc). cbn. split; [lia|done].
Qed.

Lemma point_lt i j : (i < length cs)%nat -> point cs j < point cs i <-> (j < i)%nat.
Proof.
  intros Hi. unfold point. split; intros H.
  - destruct (Nat.lt_ge_cases j i); [done|]. pose proof (off_mono cs i j). lia.
  - pose proof (off_lt cs j i). lia.
Qed.

Lemma bump_ok n : forall r j it i, over it -> it_current it = point cs i -> (i < length cs)%nat -> R !! r = Some j -> (j <= i)%nat -> (length R <= n + r)%nat ->
  exists r' j', bump_restart e n (Z.of_nat r) it = Ok (Z.of_nat r') /\ R !! r' = Some j' /\ (j' <= i)%nat /\ forall j2, R !! S r' = Some j2 -> (i <= j2)%nat.
Proof.
  induction n as [|n IH]; intros r j it i HO Hcur Hi Hj Hle Hn; cbn [bump_restart].
  { apply lookup_lt_Some in Hj. lia. }
  pose proof HO as (_ & _ & Hnum & _). rewrite Hnum. replace (Z.of_nat r + 1) with (Z.of_nat (S r)) by lia. destruct (Z.ltb_spec (Z.of_nat (S r)) (Z.of_nat (length R))) as [Hlt|Hge].
  - destruct (lookup_lt_is_Some_2 R (S r)) as [j1 Hj1]; [lia|]. rewrite (restart_point it (S r) j1 HO Hj1). cbn [mbind res_bind]. rewrite Hcur.
    destruct (Z.ltb_spec (point cs j1) (point cs i)) as [Hp|Hp].
    + apply point_lt in Hp; [|done]. apply (IH (S r) j1 it i); [done|done|done|done|lia|lia].
    + exists r, j. split; [done|]. split; [done|]. split; [done|]. intros j2 Hj2. assert (j2 = j1) as -> by congruence.
      destruct (Nat.le_gt_cases i j1); [done|]. assert (point cs j1 < point cs i) by (by apply point_lt). lia.
  - exists r, j. split; [done|]. split; [done|]. split; [done|]. intros j2 Hj2%lookup_lt_Some. lia.
Qed.

Lemma next_point i it o n : over it -> it_value it = Some (o, n) -> o + n = point cs i -> NextEntryOffset it = Ok (point cs i).
Proof.
  intros (Hd & _) Hv Hon. pose proof (off_le i). pose proof data_length. unfold NextEntryOffset.
  rewrite Hv, Hon, Hd, (proj2 (Z.ltb_ge _ _)) by (unfold point; lia). rewrite wrap_u_small by (unfold point; lia). done.
Qed.

Lemma parse_cell i it : ready i it -> (i < length cs)%nat -> exists it', ParseNextKey e it = Ok (true, it') /\ at_cell i it'.
Proof.
  intros (HO & (o & n & Hv & Hon) & (r & j & Hr & Hj & Hle) & Hkey) Hi. destruct (lookup_lt_is_Some_2 cs i Hi) as [c Hc].
  pose proof HO as (Hd & Hrs & Hnum & Hst). destruct (Hkey c Hc) as [Hk1 Hk2]. destruct (wf_at i c Hc) as (_ & Hsk & _).
  pose proof (cell_in i c Hc) as Hin. pose proof (cell_size c) as H3. pose proof data_length as Hdl. pose proof (cell_length c Hsk) as Hcl.
  unfold ParseNextKey. rewrite (next_point i it o n HO Hv Hon). cbn [mbind res_bind].
  rewrite Hrs, (proj2 (Z.leb_gt _ _)) by (unfold point; lia). rewrite Hd, (decode_cell i c Hc).
  rewrite (proj2 (Z.ltb_ge _ _)) by lia. rewrite !Nat2Z.id.
  assert (Hdelta : take (length (c_key c) - c_shared c) (drop (off cs i + length (cell_head c)) data) = drop (c_shared c) (c_key c)).
  { destruct (data_at_cell i c Hc) as [t Ht]. rewrite <- drop_drop, Ht. unfold cell_bytes. rewrite <- !app_assoc, drop_app_length.
    rewrite take_app_length'; [done|]. by rewrite length_drop. }
  rewrite Hdelta, length_drop, (proj2 (Z.ltb_ge _ _)) by lia. rewrite Hk2, take_drop.
  set (it1 := it_set _ _ _ _ _ it).
  destruct (bump_ok (Z.to_nat (it_num_restarts it1)) r j it1 i) as (r' & j' & Hb & Hj' & Hle' & Hnext); try done.
  { cbn. rewrite Hnum. lia. }
  change (it_restart_index it1) with (it_restart_index it). rewrite Hr, Hb. cbn [mbind res_bind]. eexists. split; [done|].
  split; [done|]. exists c. cbn. split; [done|]. split; [done|]. split; [done|]. split; [|by exists r', j'].
  do 2 f_equal. unfold point. rewrite (off_S cs i c Hc), Hcl. lia.
Qed.

Lemma parse_none i it : ready i it -> (length cs <= i)%nat -> exists it', ParseNextKey e it = Ok (false, it') /\ at_none it'.
Proof.
  intros (HO & (o & n & Hv & Hon) & _) Hi. pose proof HO as (Hd & Hrs & Hnum & Hst). pose proof data_length.
  unfold ParseNextKey. rewrite (next_point i it o n HO Hv Hon). cbn [mbind res_bind]. assert (Hp : point cs i = Z.of_nat L) by (unfold point; by rewrite off_length).
  rewrite Hp, Hrs, Z.leb_refl. eexists. split; [done|]. split; [done|]. cbn. congruence.
Qed.

Lemma at_cell_value i it c : at_cell i it -> cs !! i = Some c -> it_Valid it = true /\ it_key it = c_key c /\ it_value_bytes it = Ok (c_val c).
Proof.
  intros ((Hd & Hrs & _) & c' & Hc' & Hcur & Hk & Hv & _) Hc. assert (c' = c) as -> by congruence. destruct (wf_at i c Hc) as (_ & Hsk & _).
  pose proof (cell_in i c Hc). pose proof (cell_size c). pose proof (cell_length c Hsk) as Hcl. split; [|split; [done|]].
  - unfold it_Valid. rewrite Hcur, Hrs. apply Z.ltb_lt. unfold point. lia.
  - unfold it_value_bytes. rewrite Hv, Hd. unfold point. rewrite (off_S cs i c Hc), Nat2Z.id.
    replace (Z.to_nat (Z.of_nat (off cs i + length (cell_bytes c)) - Z.of_nat (length (c_val c)))) with (off cs i + (length (cell_head c) + (length (c_key c) - c_shared c)))%nat by lia.
    destruct (data_at_cell i c Hc) as [t Ht]. rewrite <- drop_drop, Ht. unfold cell_bytes. rewrite <- !app_assoc, (app_assoc (cell_head c)).
    rewrite drop_app_length' by (rewrite length_app, length_drop; lia). rewrite take_app_length, (proj2 (Z.ltb_ge _ _)) by lia. done.
Qed.

Lemma at_next i it : at_cell i it -> NextEntryOffset it = Ok (point cs (S i)).
Proof.
  intros (HO & c & _ & _ & _ & Hv & _). apply (next_point _ _ _ _ HO Hv). lia.
Qed.

(** The iterator is at the entry [p], or at none when there is none there. *)
Definition pos (p : nat) (it : Iter) : Prop := if decide (p < length cs)%nat then at_cell p it else at_none it.

Lemma pos_over p it : pos p it -> over it.
Proof. unfold pos. case_decide; intros [HO _]; exact HO. Qed.

Lemma parse_pos i it : ready i it -> exists it', ParseNextKey e it = Ok (bool_decide (i < length cs)%nat, it') /\ pos i it'.
Proof.
  intros HRd. unfold pos. destruct (decide (i < length cs)%nat) as [Hi|Hi].
  - rewrite bool_decide_eq_true_2 by done. by apply parse_cell.
  - rewrite bool_decide_eq_false_2 by done. apply (parse_none i); [done|lia].
Qed.

Lemma cells_small : (length cs <= L)%nat.
Proof.
  assert (forall l : list cell, (length l <= length (body l))%nat) as H; [|apply H]. clear.
  induction l as [|c l IH]; [done|]. change (body (c :: l)) with (cell_bytes c ++ body l). rewrite length_app. pose proof (cell_size c). cbn. lia.
Qed.

Lemma until_ok n : forall i m it, ready i it -> (i <= m < length cs)%nat -> (m < n + i)%nat ->
  exists it', parse_until e n (point cs (S m)) it = Ok it' /\ at_cell m it'.
Proof.
  induction n as [|n IH]; intros i m it HRd Him Hn; [lia|]. cbn [parse_until].
  destruct (parse_cell i it HRd ltac:(lia)) as (it1 & -> & HA). cbn [mbind res_bind]. rewrite (at_next i it1 HA). cbn [mbind res_bind].
  destruct (Z.ltb_spec (point cs (S i)) (point cs (S m))) as [Hlt|Hge].
  - assert (i < m)%nat.
    { destruct (Nat.lt_ge_cases i m); [done|]. pose proof (off_mono cs (S m) (S i)). unfold point in Hlt. lia. }
    apply (IH (S i) m it1); [by apply at_ready|lia|lia].
  - assert (i = m) as ->; [|by exists it1]. destruct (Nat.eq_dec i m); [done|]. pose proof (off_lt cs (S i) (S m)). unfold point in Hge. lia.
Qed.

Lemma first_ok it : over it -> exists it', it_SeekToFirst e it = Ok it' /\ pos 0 it'.
Proof.
  intros HO. unfold it_SeekToFirst. destruct HR as (H0 & _). destruct (restart_ready it 0 0 HO H0) as (it1 & E & HRd).
  change (Z.of_nat 0) with 0 in E. rewrite E. cbn [mbind res_bind]. destruct (parse_pos 0 it1 HRd) as (it2 & -> & HP). cbn. by eexists.
Qed.

Lemma last_ok it : over it -> exists it', it_SeekToLast e it = Ok it' /\ pos (length cs - 1) it'.
Proof.
  intros HO. unfold it_SeekToLast. pose proof HO as (_ & _ & Hnum & _). destruct HR as (H0 & _ & H2 & _).
  pose proof (lookup_lt_Some _ _ _ H0) as HRl. destruct (lookup_lt_is_Some_2 R (length R - 1)) as [j Hj]; [lia|].
  destruct (restart_ready it _ j HO Hj) as (it1 & E & HRd). rewrite Hnum. replace (Z.of_nat (length R) - 1) with (Z.of_nat (length R - 1)) by lia.
  rewrite E. cbn [mbind res_bind]. pose proof HRd as ((Hd1 & Hrs1 & _) & _). rewrite Hd1, Hrs1. pose proof data_length. pose proof cells_small.
  destruct (Nat.eq_dec (length cs) 0) as [Ecs|Ecs].
  - assert (j = 0%nat) as ->.
    { destruct (length R - 1)%nat as [|r] eqn:Er; [congruence|]. specialize (H2 r j Hj). lia. }
    assert (exists n, length data = S n) as [n En] by (exists (length data - 1)%nat; lia). rewrite En. cbn [parse_until]. destruct (parse_pos 0 it1 HRd) as (it2 & -> & HP).
    rewrite bool_decide_eq_false_2 by lia. cbn. exists it2. rewrite Ecs. done.
  - assert (j < length cs)%nat.
    { destruct (length R - 1)%nat as [|r] eqn:Er; [|by apply (H2 r j)]. assert (j = 0%nat) as -> by congruence. lia. }
    destruct (until_ok (length data) j (length cs - 1) it1 HRd) as (it2 & E2 & HA); [lia|lia|].
    replace (point cs (S (length cs - 1))) with (Z.of_nat L) in E2 by (unfold point; rewrite off_length; [done|lia]).
    rewrite E2. exists it2. split; [done|]. unfold pos. rewrite decide_True by lia. done.
Qed.

Lemma next_ok i it : at_cell i it -> exists it', it_Next e it = Ok it' /\ pos (S i) it'.
Proof. intros HA. unfold it_Next. destruct (parse_pos (S i) it (at_ready i it HA)) as (it' & -> & HP). cbn. by eexists. Qed.

Lemma back_ok n : forall r j i it, over it -> R !! r = Some j -> (j <= i < length cs)%nat -> (r < n)%nat ->
  match back_restart e n (point cs i) (Z.of_nat r) it with
  | Ok (Some r') => exists r1 j1, r' = Z.of_nat r1 /\ R !! r1 = Some j1 /\ (j1 < i)%nat
  | Ok None => i = 0%nat
  | Ub _ => False
  end.
Proof.
  induction n as [|n IH]; intros r j i it HO Hj Hi Hn; [lia|]. cbn [back_restart]. rewrite (restart_point it r j HO Hj). cbn [mbind res_bind].
  destruct HR as (H0 & H1 & _). destruct (Z.leb_spec (point cs i) (point cs j)) as [Hp|Hp].
  - assert (j = i) as ->.
    { destruct (Nat.eq_dec j i); [done|]. assert (point cs j < point cs i) by (apply point_lt; lia). lia. }
    destruct (Z.eqb_spec (Z.of_nat r) 0) as [Hr|Hr]; [assert (r = 0%nat) as -> by lia; congruence|].
    replace (Z.of_nat r - 1) with (Z.of_nat (r - 1)) by lia. destruct (lookup_lt_is_Some_2 R (r - 1)) as [j1 Hj1]; [apply lookup_lt_Some in Hj; lia|].
    assert (j1 < i)%nat by (apply (H1 (r - 1)%nat); [done|]; by replace (S (r - 1)) with r by lia).
    apply (IH (r - 1)%nat j1 i it); [done|done|lia|lia].
  - exists r, j. split; [done|]. split; [done|]. apply point_lt in Hp; lia.
Qed.

Lemma prev_ok i it : at_cell i it -> exists it', it_Prev e it = Ok it' /\ pos (match i with O => length cs | S j => j end) it'.
Proof.
  intros (HO & c & Hc & Hcur & _ & _ & r & j & Hr & Hj & Hle & _). unfold it_Prev. rewrite Hcur, Hr. pose proof HO as (Hd & _ & Hnum & _).
  pose proof (lookup_lt_Some _ _ _ Hc) as Hi. pose proof (lookup_lt_Some _ _ _ Hj).
  pose proof (back_ok (S (Z.to_nat (it_num_restarts it))) r j i it HO Hj ltac:(lia) ltac:(lia)) as HB.
  destruct (back_restart _ _ _ _ _) as [[r'|]|]; [| |done]; cbn [mbind res_bind].
  - destruct HB as (r1 & j1 & -> & Hj1 & Hlt). destruct (restart_ready it r1 j1 HO Hj1) as (it1 & -> & HRd). cbn [mbind res_bind].
    destruct i as [|i]; [lia|]. pose proof HRd as ((Hd1 & _) & _). rewrite Hd1. pose proof data_length. pose proof cells_small.
    destruct (until_ok (length data) j1 i it1 HRd) as (it2 & -> & HA); [lia|lia|]. exists it2. split; [done|]. unfold pos. rewrite decide_True by lia. done.
  - subst i. eexists. split; [done|]. unfold pos. rewrite decide_False by lia. split; done.
Qed.

(** *** Seek *)
Fixpoint lower (t : bytes) (l : list cell) : nat :=
  match l with [] => 0 | c :: l' => if 0 <=? cmp uc (c_key c) t then 0 else S (lower t l') end.

Lemma lower_skip t j l : (forall i c, (i < j)%nat -> l !! i = Some c -> cmp uc (c_key c) t < 0) -> (j <= length l)%nat ->
  lower t l = (j + lower t (drop j l))%nat.
Proof.
  revert j. induction l as [|c l IH]; intros [|j] Hb Hj; cbn in *; [done|lia|done|].
  pose proof (Hb 0%nat c ltac:(lia) eq_refl). rewrite (proj2 (Z.leb_gt _ _)) by done. f_equal. apply IH; [|lia].
  intros i x Hi Hx. apply (Hb (S i)); [lia|done].
Qed.

Lemma linear_ok t n : forall i it, ready i it -> (i <= length cs)%nat -> (length cs < n + i)%nat ->
  exists it', seek_linear e uc n t it = Ok it' /\ pos (i + lower t (drop i cs)) it'.
Proof.
  induction n as [|n IH]; intros i it HRd Hi Hn; [lia|]. cbn [seek_linear]. destruct (parse_pos i it HRd) as (it1 & -> & HP). cbn [mbind res_bind].
  unfold pos in HP. case_bool_decide as Hlt; [|rewrite decide_False in HP by done].
  - rewrite decide_True in HP by done. cbn [negb]. pose proof HP as (_ & c & Hc & _ & Hk & _). rewrite (drop_S cs c i Hc). cbn [lower]. unfold iter_Compare. rewrite Hk.
    destruct (0 <=? cmp uc (c_key c) t).
    + exists it1. split; [done|]. rewrite Nat.add_0_r. unfold pos. by rewrite decide_True.
    + replace (i + S (lower t (drop (S i) cs)))%nat with (S i + lower t (drop (S i) cs))%nat by lia. apply IH; [by apply at_ready|lia|lia].
  - exists it1. split; [done|]. rewrite drop_ge by lia. cbn [lower]. rewrite Nat.add_0_r. unfold pos. by rewrite decide_False.
Qed.

Definition before (t : bytes) (r : nat) : Prop :=
  r = 0%nat \/ exists i c, R !! r = Some i /\ cs !! i = Some c /\ cmp uc (c_key c) t < 0.

Lemma mid_key r i : R !! S r = Some i -> exists c, cs !! i = Some c /\
  take (length (c_key c) - c_shared c) (drop (off cs i + length (cell_head c)) data) = c_key c /\ c_shared c = 0%nat.
Proof.
  intros Hi. destruct HR as (_ & _ & H2 & H3). destruct (lookup_lt_is_Some_2 cs i (H2 r i Hi)) as [c Hc]. exists c. split; [done|].
  pose proof (H3 (S r) i c Hi Hc) as H0. split; [|done]. rewrite H0, Nat.sub_0_r. destruct (data_at_cell i c Hc) as [u Hu].
  rewrite <- drop_drop, Hu. unfold cell_bytes. rewrite H0, drop_0, <- !app_assoc, drop_app_length. by rewrite take_app_length.
Qed.

Lemma binary_ok t n : forall l h it, over it -> (l <= h < length R)%nat -> (h < n + l)%nat -> before t l ->
  exists r, seek_restart e uc n t (Z.of_nat l) (Z.of_nat h) it = Ok (Some (Z.of_nat r)) /\ (r < length R)%nat /\ before t r.
Proof.
  induction n as [|n IH]; intros l h it HO Hlh Hn Hb; cbn [seek_restart]; [lia|].
  destruct (Z.ltb_spec (Z.of_nat l) (Z.of_nat h)) as [Hlt|Hge]; [|exists l; split; [done|]; split; [lia|done]].
  pose proof data_length as Hdl. rewrite wrap_u_small by lia.
  set (m := ((l + h + 1) / 2)%nat). assert (Hm : (Z.of_nat l + Z.of_nat h + 1) / 2 = Z.of_nat m).
  { unfold m. rewrite Nat2Z.inj_div. f_equal. lia. }
  assert (Hmb : (l < m <= h)%nat) by (pose proof (Z.div_mod (Z.of_nat l + Z.of_nat h + 1) 2); pose proof (Z.mod_pos_bound (Z.of_nat l + Z.of_nat h + 1) 2); lia).
  rewrite Hm. destruct (lookup_lt_is_Some_2 R m) as [i Hi]; [lia|]. rewrite (restart_point it m i HO Hi). cbn [mbind res_bind].
  pose proof HO as (Hd & Hrs & _). assert (m = S (m - 1)) as Em by lia. rewrite Em in Hi. destruct (mid_key (m - 1) i Hi) as (c & Hc & Hmk & Hs0). rewrite <- Em in Hi.
  rewrite Hd, Hrs, (decode_cell i c Hc), Hs0. cbn [Z.of_nat Z.eqb negb]. rewrite !Nat2Z.id. rewrite Hs0 in Hmk. rewrite Hmk.
  rewrite (proj2 (Z.ltb_ge _ _)) by lia. unfold iter_Compare. destruct (Z.ltb_spec (cmp uc (c_key c) t) 0).
  - apply (IH m h it HO); [lia|lia|]. right. by exists i, c.
  - replace (Z.of_nat m - 1) with (Z.of_nat (m - 1)) by lia. apply (IH l (m - 1)%nat it HO); [lia|lia|done].
Qed.

Hypothesis UL : CmpLaws uc.
Hypothesis Hdom : forall i c, cs !! i = Some c -> dom uc (c_key c) = true.
Hypothesis Hsorted : forall i j c d, cs !! i = Some c -> cs !! j = Some d -> (i < j)%nat -> cmp uc (c_key c) (c_key d) < 0.

Lemma seek_ok t it : over it -> dom uc t = true -> exists it', it_Seek e uc t it = Ok it' /\ pos (lower t cs) it'.
Proof.
  intros HO Ht. unfold it_Seek. pose proof HO as (Hd & Hrs & Hnum & _). pose proof data_length as Hdl. destruct HR as (H0 & _ & H2 & _).
  pose proof (lookup_lt_Some _ _ _ H0) as HRl. rewrite Hnum, Nat2Z.id, wrap_u_small by lia. replace (Z.of_nat (length R) - 1) with (Z.of_nat (length R - 1)) by lia.
  destruct (binary_ok t (length R) 0 (length R - 1) it HO) as (r & E & Hr & Hb); [lia|lia|by left|]. change (Z.of_nat 0) with 0 in E. rewrite E. cbn [mbind res_bind].
  destruct (lookup_lt_is_Some_2 R r Hr) as [j Hj]. destruct (restart_ready it r j HO Hj) as (it1 & -> & HRd). cbn [mbind res_bind].
  pose proof HRd as ((Hd1 & _) & _). rewrite Hd1. pose proof cells_small.
  assert (Hjl : (j <= length cs)%nat).
  { destruct r as [|r]; [assert (j = 0%nat) as -> by congruence; lia|]. specialize (H2 r j Hj). lia. }
  destruct (linear_ok t (length data) j it1 HRd Hjl) as (it2 & -> & HP); [lia|]. exists it2. split; [done|].
  rewrite (lower_skip t j cs); [done| |done]. intros i c Hi Hc. destruct Hb as [->|(i' & c' & Hi' & Hc' & Hlt)]; [assert (j = 0%nat) as -> by congruence; lia|].
  assert (i' = j) as -> by congruence. apply (cmp_trans (c := uc) _ (c_key c')); [by eapply Hdom|by eapply Hdom|done|by eapply Hsorted|done].
Qed.
End Iterator.

(** ** A cursor in a list *)
Inductive bop := BFirst | BLast | BNext | BPrev | BSeek (t : bytes).

Section Cursor.
Context (e : bool) (uc : comparator).

Definition exec_bop (o : bop) (it : Iter) : res Iter :=
  match o with
  | BFirst => it_SeekToFirst e it
  | BLast => it_SeekToLast e it
  | BNext => it_Next e it
  | BPrev => it_Prev e it
  | BSeek t => it_Seek e uc t it
  end.

(** What the caller sees: the key and the value when the iterator is valid. *)
Definition observe (it : Iter) : res (option (bytes * bytes)) :=
  if it_Valid it then v ← it_value_bytes it; Ok (Some (it_key it, v)) else Ok None.

Fixpoint run_bops (l : list bop) (it : Iter) : res (list (option (bytes * bytes)) * Iter) :=
  match l with
  | [] => Ok ([], it)
  | o :: l' => it ← exec_bop o it; x ← observe it; r ← run_bops l' it; Ok (x :: fst r, snd r)
  end.

Fixpoint lower_bound (t : bytes) (es : entries) : nat :=
  match es with [] => 0 | x :: es' => if 0 <=? cmp uc (fst x) t then 0 else S (lower_bound t es') end.

(** A position that is not in the list is not valid. *)
Definition spec_bop (es : entries) (o : bop) (p : nat) : nat :=
  match o with
  | BFirst => 0
  | BLast => length es - 1
  | BNext => S p
  | BPrev => match p with O => length es | S q => q end
  | BSeek t => lower_bound t es
  end.

Fixpoint spec_bops (es : entries) (l : list bop) (p : nat) : list (option (bytes * bytes)) :=
  match l with
  | [] => []
  | o :: l' => let p := spec_bop es o p in es !! p :: spec_bops es l' p
  end.

(** [Next] and [Prev] need a valid iterator, and targets are keys. *)
Fixpoint bops_ok (es : entries) (l : list bop) (p : nat) : Prop :=
  match l with
  | [] => True
  | o :: l' =>
      match o with BNext | BPrev => (p < length es)%nat | BSeek t => dom uc t = true | _ => True end /\
      bops_ok es l' (spec_bop es o p)
  end.

Lemma lower_entries t cs : lower uc t cs = lower_bound t (entry_of <$> cs).
Proof. induction cs as [|c cs IH]; [done|]. cbn. by rewrite IH. Qed.

Section Run.
Context (cs : list cell) (R : list nat) (Hwf : wf_cells [] cs) (HR : wf_restarts cs R) (Hsz : Z.of_nat (length (block_bytes cs R)) < 2 ^ 32).
Context {UL : CmpLaws uc}.
Hypothesis Hdom : forall i c, cs !! i = Some c -> dom uc (c_key c) = true.
Hypothesis Hsorted : forall i j c d, cs !! i = Some c -> cs !! j = Some d -> (i < j)%nat -> cmp uc (c_key c) (c_key d) < 0.

Lemma observe_pos p it : pos cs R p it -> observe it = Ok ((entry_of <$> cs) !! p).
Proof.
  unfold pos, observe. case_decide as Hp; intros HP.
  - destruct (lookup_lt_is_Some_2 cs p Hp) as [c Hc]. destruct (at_cell_value cs R Hwf p it c HP Hc) as (-> & -> & ->).
    cbn. by rewrite list_lookup_fmap, Hc.
  - destruct HP as [_ Hcur]. unfold it_Valid. rewrite Hcur, Z.ltb_irrefl. rewrite list_lookup_fmap, lookup_ge_None_2 by lia. done.
Qed.

Lemma exec_bop_ok o p it : pos cs R p it -> bops_ok (entry_of <$> cs) [o] p ->
  exists it', exec_bop o it = Ok it' /\ pos cs R (spec_bop (entry_of <$> cs) o p) it'.
Proof.
  intros HP [Hok _]. rewrite length_fmap in Hok. pose proof (pos_over cs R p it HP) as HO. destruct o as [| | | |t]; cbn [exec_bop spec_bop]; rewrite ?length_fmap.
  - exact (first_ok e cs R Hwf HR Hsz it HO).
  - exact (last_ok e cs R Hwf HR Hsz it HO).
  - unfold pos in HP. rewrite decide_True in HP by done. exact (next_ok e cs R Hwf Hsz p it HP).
  - unfold pos in HP. rewrite decide_True in HP by done. exact (prev_ok e cs R Hwf HR Hsz p it HP).
  - rewrite <- lower_entries. exact (seek_ok e uc cs R Hwf HR Hsz UL Hdom Hsorted t it HO Hok).
Qed.

Lemma run_bops_ok l p it : pos cs R p it -> bops_ok (entry_of <$> cs) l p ->
  exists it', run_bops l it = Ok (spec_bops (entry_of <$> cs) l p, it') /\ it_status it' = status_OK.
Proof.
  revert p it. induction l as [|o l IH]; intros p it HP Hok.
  { exists it. split; [done|]. by destruct (pos_over cs R p it HP) as (_ & _ & _ & ?). }
  destruct Hok as [Ho Hl]. cbn [run_bops spec_bops]. destruct (exec_bop_ok o p it HP) as (it1 & -> & HP1); [done|]. cbn [mbind res_bind].
  rewrite (observe_pos _ it1 HP1). cbn [mbind res_bind]. destruct (IH _ it1 HP1 Hl) as (it2 & -> & Hs). by exists it2.
Qed.
End Run.

Lemma open_block cs R : wf_restarts cs R -> Z.of_nat (length (block_bytes cs R)) < 2 ^ 32 -> exists b it,
  Block_new e (block_bytes cs R) = Ok b /\ NewIterator e b = Ok (inr (Some it)) /\ pos cs R (length cs) it.
Proof.
  intros (H0 & _) Hsz. pose proof (data_length cs R) as Hdl. apply lookup_lt_Some in H0.
  assert (HN : forall s, s = Z.of_nat (length (block_bytes cs R)) -> NumRestarts e (block_bytes cs R) s = Ok (Z.of_nat (length R))).
  { intros s ->. unfold NumRestarts. rewrite Hdl.
    replace (Z.to_nat (Z.of_nat (length (body cs) + 4 * length R + 4) - 4)) with (length (body cs) + 4 * length R)%nat by lia.
    unfold block_bytes. rewrite <- drop_drop, drop_app_length, drop_app_length' by (by rewrite length_concat4, length_fmap).
    rewrite <- (app_nil_r (le_split 4 _)), <- (encode32_le e). apply fixed32_get. lia. }
  unfold Block_new. rewrite (proj2 (Z.ltb_ge _ _)) by lia. rewrite HN by done. cbn [mbind res_bind].
  assert (Hmax : Z.of_nat (length R) <= (Z.of_nat (length (block_bytes cs R)) - 4) / 4) by (apply Z.div_le_lower_bound; lia).
  rewrite (proj2 (Z.ltb_ge _ _)) by done. do 2 eexists. split; [done|]. unfold NewIterator. cbn [bl_size bl_data bl_restart_offset].
  rewrite (proj2 (Z.ltb_ge _ _)) by lia. rewrite HN by done. cbn [mbind res_bind]. rewrite (proj2 (Z.eqb_neq _ _)) by lia. split; [done|].
  unfold pos. rewrite decide_False by lia. split; [|done]. split; [done|]. cbn. split; [|done]. rewrite wrap_u_small; lia.
Qed.

(** C33. A table block built of sorted entries, with any restart interval, is a
    cursor in their list: on an iterator over it any sequence of [SeekToFirst],
    [SeekToLast], [Seek], [Next] and [Prev] ends, and shows after each call the
    key and the value the list has at that place - for [Seek] the first key not
    before the target - or that it is at none, and no corruption is reported. *)
Theorem block_refines {UL : CmpLaws uc} interval es ops :
  1 <= interval -> Forall (fun x => dom uc (fst x) = true) es ->
  (forall i j x y, es !! i = Some x -> es !! j = Some y -> (i < j)%nat -> cmp uc (fst x) (fst y) < 0) ->
  Z.of_nat (length (fst (bb_Finish e (add_entries interval es BlockBuilder_new)))) < 2 ^ 32 ->
  bops_ok es ops (length es) -> exists b it it',
  Block_new e (fst (bb_Finish e (add_entries interval es BlockBuilder_new))) = Ok b /\ NewIterator e b = Ok (inr (Some it)) /\
  run_bops ops it = Ok (spec_bops es ops (length es), it') /\ it_status it' = status_OK.
Proof.
  intros Hi Hdom Hs Hsz Hops.
  assert (Hlen : forall b, length (fst (bb_Finish e b)) = (length (bb_buffer b) + 4 * length (bb_restarts b) + 4)%nat).
  { intros b. unfold bb_Finish. cbn [fst]. rewrite foldl_put. unfold PutFixed32. by rewrite encode32_le, !length_app, length_concat4, length_le_split. }
  rewrite Hlen in Hsz. destruct (builds_all interval es [] [0%nat] BlockBuilder_new builds_new Hi) as (cs & R & HB & E); [lia|]. cbn in E.
  pose proof HB as (Hbuf & Hres & _ & Hwf & HR & _). rewrite Hres, length_fmap in Hsz.
  assert (HF : fst (bb_Finish e (add_entries interval es BlockBuilder_new)) = block_bytes cs R) by (apply finish_bytes; [done|lia]). rewrite HF.
  assert (Hsz' : Z.of_nat (length (block_bytes cs R)) < 2 ^ 32) by (rewrite data_length, <- Hbuf; lia).
  assert (Hes : forall i c, cs !! i = Some c -> es !! i = Some (entry_of c)) by (intros i c Hc; by rewrite <- E, list_lookup_fmap, Hc).
  destruct (open_block cs R HR Hsz') as (b & it & HN & HI & HP). exists b, it.
  assert (length es = length cs) as Hle by (rewrite <- E; apply length_fmap). rewrite <- Hle in HP.
  assert (Hops' : bops_ok (entry_of <$> cs) ops (length es)) by (by rewrite E).
  destruct (run_bops_ok cs R Hwf HR Hsz' (UL := UL)) with (l := ops) (p := length es) (it := it) as (it' & Hrun & Hst); [| |done|done|].
  - intros i c Hc. rewrite Forall_lookup in Hdom. exact (Hdom i _ (Hes i c Hc)).
  - intros i j c d Hc Hd Hij. exact (Hs i j _ _ (Hes i c Hc) (Hes j d Hd) Hij).
  - exists it'. rewrite E in Hrun. done.
Qed.
End Cursor.

Lemma block_refines_witness : exists b it it',
  Block_new true (fst (bb_Finish true (add_entries 2 [(lit "a", lit "1"); (lit "ab", lit "2"); (lit "b", [])] BlockBuilder_new))) = Ok b /\
  NewIterator true b = Ok (inr (Some it)) /\
  run_bops true lexical [BFirst; BNext; BSeek (lit "aba"); BPrev; BLast] it =
    Ok ([Some (lit "a", lit "1"); Some (lit "ab", lit "2"); Some (lit "b", []); Some (lit "ab", lit "2"); Some (lit "b", [])], it') /\
  it_status it' = status_OK.
Proof.
  apply (block_refines true lexical 2 [(lit "a", lit "1"); (lit "ab", lit "2"); (lit "b", [])] [BFirst; BNext; BSeek (lit "aba"); BPrev; BLast]).
  - lia.
  - repeat constructor.
  - intros [|[|[|i]]] [|[|[|j]]] x y; cbn; try discriminate; intros [= <-] [= <-] Hij; try reflexivity; lia.
  - vm_compute; reflexivity.
  - cbn. repeat split; lia.
Defined.

(** ** A bad entry that is not noticed

    The sizes are added modulo [2^32]. *)
Definition bad_block : bytes :=
  EncodeVarint32 0 ++ EncodeVarint32 (2 ^ 32 - 1) ++ EncodeVarint32 1 ++ le_split 4 0 ++ le_split 4 1.

(** On a block with an entry whose two sizes add up to [2^32] the iterator
    copies a key from far behind the block. *)
Theorem block_sizes_overflow : exists b it,
  Block_new true bad_block = Ok b /\ NewIterator true b = Ok (inr (Some it)) /\ it_SeekToFirst true it = Ub OobRead.
Proof.
  eexists (MkBlock bad_block 15 7), (Iter_new bad_block 7 1). split; [by vm_compute|]. split; [by vm_compute|].
  unfold it_SeekToFirst, SeekToRestartPoint. assert (GetRestartPoint true (Iter_new bad_block 7 1) 0 = Ok 0) as -> by (by vm_compute).
  cbn [mbind res_bind]. unfold ParseNextKey.
  assert (NextEntryOffset (it_set (it_current (Iter_new bad_block 7 1)) 0 [] (Some (0, 0)) (it_status (Iter_new bad_block 7 1)) (Iter_new bad_block 7 1)) = Ok 0) as -> by (by vm_compute).
  cbn [mbind res_bind]. unfold it_set, Iter_new.
  cbn [it_restarts it_data it_key it_num_restarts it_current it_status Z.leb Z.compare].
  assert (DecodeEntry bad_block 0 7 = Some (0, 2 ^ 32 - 1, 1, 7)) as -> by (by vm_compute). cbn [length].
  change (Z.of_nat 0 <? 0) with false. cbv iota. rewrite (proj2 (Z.ltb_lt _ _)); [done|]. rewrite length_take, length_drop. change (length bad_block) with 15%nat. lia.
Qed.
