(* ===== verification/LvlFilter.v ===== *)
(** * LevelDB's filters

    src/3rd-party/leveldb/leveldb-1.18/util/hash.cc, util/bloom.cc and
    table/filter_block.cc: Bloom filters, and the block of a table that holds
    one filter for every 2 KB of data blocks.  A filter may say that a key is not
    there only when it is not. *)
From Stdlib Require Import Floats.SpecFloat.
From S2P Require Import Prelude LvlCoding.

(** ** Hash *)
Section Hash.
Context (kLittleEndian : bool).

Definition hash_m : Z := 0xc6a4a793.

Definition hash_word (h w : Z) : Z :=
  let h := wrap_u 32 (h + w) in
  let h := wrap_u 32 (h * hash_m) in
  Z.lxor h (Z.shiftr h 16).

(** The loop over four bytes and the switch over the bytes that are left. *)
Fixpoint hash_loop (fuel : nat) (data : bytes) (h : Z) : res Z :=
  match fuel, data with
  | S n, _ :: _ :: _ :: _ :: rest =>
      w ← DecodeFixed32 kLittleEndian data;
      hash_loop n rest (hash_word h w)
  | _, [] => Ok h
  | _, b0 :: data' =>
      let h := match data' with _ :: b2 :: _ => wrap_u 32 (h + Z.shiftl (byte.unsigned b2) 16) | _ => h end in
      let h := match data' with b1 :: _ => wrap_u 32 (h + Z.shiftl (byte.unsigned b1) 8) | _ => h end in
      let h := wrap_u 32 (h + byte.unsigned b0) in
      let h := wrap_u 32 (h * hash_m) in
      Ok (Z.lxor h (Z.shiftr h 24))
  end.

Definition Hash (data : bytes) (seed : Z) : res Z :=
  hash_loop (length data) data (Z.lxor seed (wrap_u 32 (Z.of_nat (length data) * hash_m))).

(** ** Bloom filters *)
Definition BloomHash (key : bytes) : res Z := Hash key 0xbc9f1d34.

Record BloomFilterPolicy := MkBloom { bits_per_key_ : Z; k_ : Z }.

(** [static_cast<size_t>(bits_per_key * 0.69)]: the product of two doubles, cut
    to an integer, which must not be negative. *)
Definition sixty_nine : spec_float := S754_finite false 6214967485771284 (-53).

Definition double_of (z : Z) : spec_float :=
  match z with Z0 => S754_zero false | Zpos p => binary_normalize 53 1024 (Zpos p) 0 false | Zneg p => binary_normalize 53 1024 (Zneg p) 0 true end.

Definition truncate (x : spec_float) : Z :=
  match x with
  | S754_finite s m e => (if s then -1 else 1) * (if 0 <=? e then Zpos m * 2 ^ e else Zpos m / 2 ^ (- e))
  | _ => 0
  end.

Definition BloomFilterPolicy_new (bits_per_key : Z) : res BloomFilterPolicy :=
  let k := truncate (SFmul 53 1024 (double_of bits_per_key) sixty_nine) in
  if k <? 0 then Ub BadConvert
  else
    let k := if k <? 1 then 1 else k in
    let k := if 30 <? k then 30 else k in
    Ok (MkBloom (wrap_u 64 bits_per_key) k).

Definition bloom_Name : bytes := lit "leveldb.BuiltinBloomFilter2".

Definition set_bit (array : bytes) (bitpos : Z) : res bytes :=
  let i := Z.to_nat (bitpos / 8) in
  match array !! i with
  | Some b => Ok (<[i := byte.of_Z (Z.lor (byte.unsigned b) (Z.shiftl 1 (bitpos mod 8)))]> array)
  | None => Ub OobWrite
  end.

Definition test_bit (array : bytes) (bitpos : Z) : res bool :=
  match array !! Z.to_nat (bitpos / 8) with
  | Some b => Ok (negb (Z.land (byte.unsigned b) (Z.shiftl 1 (bitpos mod 8)) =? 0))
  | None => Ub OobRead
  end.

Definition bloom_delta (h : Z) : Z := Z.lor (Z.shiftr h 17) (wrap_u 32 (Z.shiftl h 15)).

Fixpoint set_probes (n : nat) (bits h delta : Z) (array : bytes) : res bytes :=
  match n with
  | O => Ok array
  | S n' => array ← set_bit array (h mod bits); set_probes n' bits (wrap_u 32 (h + delta)) delta array
  end.

Fixpoint add_keys (k : nat) (bits : Z) (keys : list bytes) (array : bytes) : res bytes :=
  match keys with
  | [] => Ok array
  | key :: keys' =>
      h ← BloomHash key;
      array ← set_probes k bits h (bloom_delta h) array;
      add_keys k bits keys' array
  end.

Definition bloom_CreateFilter (p : BloomFilterPolicy) (keys : list bytes) (dst : bytes) : res bytes :=
  let bits := wrap_u 64 (Z.of_nat (length keys) * bits_per_key_ p) in
  let bits := if bits <? 64 then 64 else bits in
  let bytes_ := wrap_u 64 (bits + 7) / 8 in
  let bits := bytes_ * 8 in
  array ← add_keys (Z.to_nat (k_ p)) bits keys (replicate (Z.to_nat bytes_) NUL);
  Ok (dst ++ array ++ [byte.of_Z (k_ p)]).

Fixpoint test_probes (n : nat) (bits h delta : Z) (array : bytes) : res bool :=
  match n with
  | O => Ok true
  | S n' =>
      b ← test_bit array (h mod bits);
      if (b : bool) then test_probes n' bits (wrap_u 32 (h + delta)) delta array else Ok false
  end.

(** The last byte is a [char], extended with its sign. *)
Definition bloom_KeyMayMatch (key bloom_filter : bytes) : res bool :=
  let len := length bloom_filter in
  if (len <? 2)%nat then Ok false
  else
    match bloom_filter !! (len - 1)%nat with
    | None => Ub OobRead
    | Some b =>
        let bits := Z.of_nat (len - 1) * 8 in
        let k := wrap_u 64 (wrap_s 8 (byte.unsigned b)) in
        if 30 <? k then Ok true
        else h ← BloomHash key; test_probes (Z.to_nat k) bits h (bloom_delta h) bloom_filter
    end.
End Hash.

(** ** Filter policies *)

(** [FilterPolicy] of include/leveldb/filter_policy.h. *)
Class FilterPolicy := {
  fp_Name : bytes;
  fp_CreateFilter : list bytes -> bytes -> res bytes;
  fp_KeyMayMatch : bytes -> bytes -> res bool
}.

(** What the policy promises: a filter is appended, of at most [c] bytes for
    every key and once more; it can be asked for any key, and matches every key
    of the list it was made for. *)
Class FilterLaws (P : FilterPolicy) (c : nat) : Prop :=
  create_matches keys dst : Z.of_nat (length keys) < 2 ^ 31 -> exists f, fp_CreateFilter keys dst = Ok (dst ++ f) /\
    (length f <= c * S (length keys))%nat /\ forall key, exists b, fp_KeyMayMatch key f = Ok b /\ (key ∈ keys -> b = true).

(** ** Filter blocks *)
Definition kFilterBaseLg : Z := 11.
Definition kFilterBase : Z := Z.shiftl 1 kFilterBaseLg.

Section FilterBlock.
Context (kLittleEndian : bool) `{P : FilterPolicy}.

(** [keys_] and [start_]: the keys one after another, and where each begins. *)
Record FilterBlockBuilder := MkFilterBuilder {
  fb_keys : bytes; fb_start : list nat; fb_result : bytes; fb_filter_offsets : list Z }.

Definition FilterBlockBuilder_new : FilterBlockBuilder := MkFilterBuilder [] [] [] [].

(** The keys of the flattened structure. *)
Fixpoint tmp_keys (keys : bytes) (start : list nat) : list bytes :=
  match start with
  | a :: ((b :: _) as start') => take (b - a) (drop a keys) :: tmp_keys keys start'
  | _ => []
  end.

Definition GenerateFilter (f : FilterBlockBuilder) : res FilterBlockBuilder :=
  let offsets := fb_filter_offsets f ++ [wrap_u 32 (Z.of_nat (length (fb_result f)))] in
  match fb_start f with
  | [] => Ok (MkFilterBuilder (fb_keys f) [] (fb_result f) offsets)
  | start =>
      result ← fp_CreateFilter (tmp_keys (fb_keys f) (start ++ [length (fb_keys f)])) (fb_result f);
      Ok (MkFilterBuilder [] [] result offsets)
  end.

(** A filter is generated for every index below that of the block. *)
Fixpoint start_loop (fuel : nat) (filter_index : Z) (f : FilterBlockBuilder) : res FilterBlockBuilder :=
  match fuel with
  | O => Ok f
  | S n =>
      if Z.of_nat (length (fb_filter_offsets f)) <? filter_index then f ← GenerateFilter f; start_loop n filter_index f else Ok f
  end.

Definition StartBlock (block_offset : Z) (f : FilterBlockBuilder) : res FilterBlockBuilder :=
  let filter_index := block_offset / kFilterBase in
  start_loop (Z.to_nat filter_index) filter_index f.

Definition AddKey (key : bytes) (f : FilterBlockBuilder) : FilterBlockBuilder :=
  MkFilterBuilder (fb_keys f ++ key) (fb_start f ++ [length (fb_keys f)]) (fb_result f) (fb_filter_offsets f).

Definition fb_Finish (f : FilterBlockBuilder) : res (bytes * FilterBlockBuilder) :=
  f ← (match fb_start f with [] => Ok f | _ => GenerateFilter f end);
  let array_offset := wrap_u 32 (Z.of_nat (length (fb_result f))) in
  let result := foldl (PutFixed32 kLittleEndian) (fb_result f) (fb_filter_offsets f) in
  let result := PutFixed32 kLittleEndian result array_offset ++ [byte.of_Z kFilterBaseLg] in
  Ok (result, MkFilterBuilder (fb_keys f) (fb_start f) result (fb_filter_offsets f)).

(** [fr_offset] is where the array of offsets begins. *)
Record FilterBlockReader := MkFilterReader { fr_data : bytes; fr_offset : Z; fr_num : Z; fr_base_lg : Z }.

Definition FilterBlockReader_new (contents : bytes) : res FilterBlockReader :=
  let n := Z.of_nat (length contents) in
  if n <? 5 then Ok (MkFilterReader [] 0 0 0)
  else
    match contents !! Z.to_nat (n - 1) with
    | None => Ub OobRead
    | Some b =>
        let base_lg := wrap_u 64 (wrap_s 8 (byte.unsigned b)) in
        last_word ← DecodeFixed32 kLittleEndian (drop (Z.to_nat (n - 5)) contents);
        if n - 5 <? last_word then Ok (MkFilterReader [] 0 0 base_lg)
        else Ok (MkFilterReader contents last_word ((n - 5 - last_word) / 4) base_lg)
    end.

Definition fr_KeyMayMatch (r : FilterBlockReader) (block_offset : Z) (key : bytes) : res bool :=
  if 64 <=? fr_base_lg r then Ub BadShift
  else
  let index := Z.shiftr block_offset (fr_base_lg r) in
  if index <? fr_num r then
    start ← DecodeFixed32 kLittleEndian (drop (Z.to_nat (fr_offset r + index * 4)) (fr_data r));
    limit ← DecodeFixed32 kLittleEndian (drop (Z.to_nat (fr_offset r + index * 4 + 4)) (fr_data r));
    if (start <=? limit) && (limit <=? fr_offset r)
    then fp_KeyMayMatch key (take (Z.to_nat (limit - start)) (drop (Z.to_nat start) (fr_data r)))
    else if start =? limit then Ok false
    else Ok true
  else Ok true.
End FilterBlock.
