(* ===== verification/LvlFilterSpec.v ===== *)
(** * Filters have no false negatives

    That the Bloom filters keep the promise of a filter policy, and that a filter
    block made with any policy that keeps it matches every key under the offset of
    its data block. *)
From S2P Require Import Prelude LvlCoding LvlBase LvlBlock LvlBlockSpec LvlFilter.

(** ** Bloom filters *)
Lemma land_bit x i : 0 <= i -> negb (Z.land x (Z.shiftl 1 i) =? 0) = Z.testbit x i.
Proof.
  intros Hi. rewrite Z.shiftl_1_l. destruct (Z.testbit x i) eqn:E.
  - apply negb_true_iff, Z.eqb_neq. intros H0. apply (f_equal (fun z => Z.testbit z i)) in H0.
    rewrite Z.land_spec, E, Z.pow2_bits_true, Z.bits_0 in H0 by done. done.
  - apply negb_false_iff, Z.eqb_eq, Z.bits_inj'. intros n Hn. rewrite Z.land_spec, Z.bits_0.
    destruct (decide (i = n)) as [<-|]; [by rewrite E|]. by rewrite Z.pow2_bits_false, andb_false_r.
Qed.

(** Bits that are set stay set. *)
Definition keeps_bits (a a' : bytes) : Prop := forall q, test_bit a q = Ok true -> test_bit a' q = Ok true.

Lemma keeps_refl a : keeps_bits a a. Proof. by intros q. Qed.
Lemma keeps_trans a b c : keeps_bits a b -> keeps_bits b c -> keeps_bits a c. Proof. intros H1 H2 q Hq. auto. Qed.
Lemma keeps_app a b : keeps_bits a (a ++ b).
Proof. intros q. unfold test_bit. destruct (a !! _) eqn:E; [|done]. by rewrite (lookup_app_l_Some _ _ _ _ E). Qed.
#[local] Hint Resolve keeps_refl keeps_trans keeps_app : kv.

Lemma set_bit_ok a p : 0 <= p < Z.of_nat (length a) * 8 -> exists a',
  set_bit a p = Ok a' /\ length a' = length a /\ keeps_bits a a' /\ test_bit a' p = Ok true.
Proof.
  intros Hp. assert (Hi : (Z.to_nat (p / 8) < length a)%nat).
  { assert (0 <= p / 8) by (apply Z.div_pos; lia). assert (p / 8 < Z.of_nat (length a)) by (apply Z.div_lt_upper_bound; lia). lia. }
  destruct (lookup_lt_is_Some_2 a _ Hi) as [b Hb]. unfold set_bit. rewrite Hb. eexists. split; [done|]. split; [apply length_insert|].
  pose proof (Z.mod_pos_bound p 8 eq_refl) as Hm. pose proof (byte_range b) as Hr.
  assert (Hs : 0 <= Z.shiftl 1 (p mod 8) < 2 ^ 8).
  { rewrite Z.shiftl_1_l. split; [apply Z.pow_nonneg; lia|apply Z.pow_lt_mono_r; lia]. }
  assert (Hu : byte.unsigned (byte.of_Z (Z.lor (byte.unsigned b) (Z.shiftl 1 (p mod 8)))) = Z.lor (byte.unsigned b) (Z.shiftl 1 (p mod 8))).
  { apply byte_of_Z_small. apply (lor_range 8); [lia|lia|lia]. }
  split.
  - intros q. unfold test_bit. destruct (decide (Z.to_nat (q / 8) = Z.to_nat (p / 8))) as [->|Hn]; [|by rewrite list_lookup_insert_ne].
    rewrite Hb, list_lookup_insert_eq, Hu by done. pose proof (Z.mod_pos_bound q 8 eq_refl). rewrite !land_bit, Z.lor_spec by lia. intros [= ->]. done.
  - unfold test_bit. rewrite list_lookup_insert_eq, Hu, land_bit, Z.lor_spec by (done || lia). rewrite Z.shiftl_1_l, Z.pow2_bits_true by lia.
    by rewrite orb_true_r.
Qed.

Lemma test_probes_keeps n bits h d a a' : keeps_bits a a' -> test_probes n bits h d a = Ok true -> test_probes n bits h d a' = Ok true.
Proof.
  intros HK. revert h. induction n as [|n IH]; intros h; [done|]. cbn [test_probes].
  destruct (test_bit a (h mod bits)) as [[|]|] eqn:E; [|done|done]. rewrite (HK _ E). cbn [mbind res_bind]. apply IH.
Qed.

Lemma set_probes_ok n bits d : forall h a, bits = Z.of_nat (length a) * 8 -> 0 < bits -> exists a',
  set_probes n bits h d a = Ok a' /\ length a' = length a /\ keeps_bits a a' /\ test_probes n bits h d a' = Ok true.
Proof.
  induction n as [|n IH]; intros h a Hb Hpos; [by exists a; auto with kv|]. cbn [set_probes].
  destruct (set_bit_ok a (h mod bits)) as (a1 & E & Hl & HK & HT); [rewrite <- Hb; by apply Z.mod_pos_bound|].
  destruct (IH (wrap_u 32 (h + d)) a1) as (a2 & E2 & Hl2 & HK2 & HT2); [by rewrite Hl|done|].
  rewrite E. cbn [mbind res_bind]. exists a2. split; [done|]. split; [lia|]. split; [eauto with kv|].
  cbn [test_probes]. by rewrite (HK2 _ HT).
Qed.

Section Bloom.
Context (e : bool).

Lemma hash_total data seed : exists h, Hash e data seed = Ok h.
Proof.
  unfold Hash. generalize (Z.lxor seed (wrap_u 32 (Z.of_nat (length data) * hash_m))).
  assert (forall n data h, exists h', hash_loop e n data h = Ok h') as Hn; [|intros z; apply Hn]. clear data.
  induction n as [|n IH]; intros data h; destruct data as [|b0 [|b1 [|b2 [|b3 data]]]]; try (by eexists).
  cbn [hash_loop]. rewrite decode32_le. cbn [mbind res_bind]. apply IH.
Qed.

Lemma add_keys_ok k bits keys : forall a, bits = Z.of_nat (length a) * 8 -> 0 < bits -> exists a',
  add_keys e k bits keys a = Ok a' /\ length a' = length a /\ keeps_bits a a' /\
  forall key, key ∈ keys -> exists h, BloomHash e key = Ok h /\ test_probes k bits h (bloom_delta h) a' = Ok true.
Proof.
  induction keys as [|key keys IH]; intros a Hb Hpos; cbn [add_keys].
  - exists a. split; [done|]. split; [done|]. split; [auto with kv|]. intros key Hk. by apply elem_of_nil in Hk.
  - destruct (hash_total key 0xbc9f1d34) as [h Hh]. change (Hash e key 0xbc9f1d34) with (BloomHash e key) in Hh. rewrite Hh. cbn [mbind res_bind].
    destruct (set_probes_ok k bits (bloom_delta h) h a Hb Hpos) as (a1 & E & Hl & HK & HT). rewrite E. cbn [mbind res_bind].
    destruct (IH a1) as (a2 & E2 & Hl2 & HK2 & HT2); [by rewrite Hl|done|]. exists a2. split; [done|]. split; [lia|]. split; [eauto with kv|].
    intros key' [->|Hk]%elem_of_cons; [|by apply HT2]. exists h. split; [done|]. by eapply test_probes_keeps.
Qed.

#[local] Instance bloom_policy (p : BloomFilterPolicy) : FilterPolicy := {|
  fp_Name := bloom_Name; fp_CreateFilter := bloom_CreateFilter e p; fp_KeyMayMatch := bloom_KeyMayMatch e |}.

Lemma bloom_params bits p : BloomFilterPolicy_new bits = Ok p -> 1 <= k_ p <= 30 /\ bits_per_key_ p = wrap_u 64 bits.
Proof.
  unfold BloomFilterPolicy_new. generalize (truncate (SpecFloat.SFmul 53 1024 (double_of bits) sixty_nine)). intros k.
  destruct (k <? 0); [done|]. intros [= <-]. cbn. split; [|done]. repeat case_match; lia.
Qed.

Lemma test_probes_total n bits d array : forall h, 0 < bits <= Z.of_nat (length array) * 8 -> exists b, test_probes n bits h d array = Ok b.
Proof.
  induction n as [|n IH]; intros h Hb; [by eexists|]. cbn [test_probes]. pose proof (Z.mod_pos_bound h bits ltac:(lia)) as Hm.
  assert (Hi : (Z.to_nat (h mod bits / 8) < length array)%nat).
  { assert (h mod bits / 8 < Z.of_nat (length array)) by (apply Z.div_lt_upper_bound; lia). assert (0 <= h mod bits / 8) by (apply Z.div_pos; lia). lia. }
  destruct (lookup_lt_is_Some_2 array _ Hi) as [x Hx]. unfold test_bit. rewrite Hx. cbn [mbind res_bind]. destruct (negb _); [by apply IH|by eexists].
Qed.

(** The filter may be any string. *)
Lemma bloom_total key f : exists b, bloom_KeyMayMatch e key f = Ok b.
Proof.
  unfold bloom_KeyMayMatch. destruct (Nat.ltb_spec (length f) 2) as [|Hl]; [by eexists|].
  destruct (lookup_lt_is_Some_2 f (length f - 1)%nat ltac:(lia)) as [x ->]. destruct (30 <? _); [by eexists|].
  destruct (hash_total key 0xbc9f1d34) as [h Hh]. unfold BloomHash. rewrite Hh. cbn [mbind res_bind]. apply test_probes_total. lia.
Qed.

Lemma bloom_laws bits p : BloomFilterPolicy_new bits = Ok p -> 0 <= bits < 2 ^ 31 -> FilterLaws (bloom_policy p) (Z.to_nat bits + 10).
Proof.
  intros Hp Hb keys dst Hn. destruct (bloom_params bits p Hp) as [Hk Hbk]. rewrite wrap_u_small in Hbk by lia. cbn [fp_CreateFilter fp_KeyMayMatch bloom_policy].
  unfold bloom_CreateFilter. assert (0 <= Z.of_nat (length keys) * bits_per_key_ p < 2 ^ 62) by nia.
  rewrite (wrap_u_small 64 (Z.of_nat (length keys) * bits_per_key_ p)) by lia.
  set (bs := if _ <? 64 then 64 else _). assert (64 <= bs < 2 ^ 62) as Hbs by (unfold bs; destruct (Z.ltb_spec (Z.of_nat (length keys) * bits_per_key_ p) 64); lia).
  rewrite (wrap_u_small 64 (bs + 7)) by lia. set (n := (bs + 7) / 8).
  assert (8 <= n) as Hn8 by (apply Z.div_le_lower_bound; lia).
  destruct (add_keys_ok (Z.to_nat (k_ p)) (n * 8) keys (replicate (Z.to_nat n) NUL)) as (a & E & Hl & _ & HT); [rewrite length_replicate; lia|lia|].
  rewrite length_replicate in Hl. rewrite E. cbn [mbind res_bind]. eexists. split; [done|]. split.
  { rewrite length_app, Hl. cbn [length]. assert (n * 8 <= bs + 7) by (unfold n; rewrite Z.mul_comm; by apply Z.mul_div_le).
    assert (bs <= 64 + Z.of_nat (length keys) * bits) by (unfold bs; rewrite Hbk; destruct (Z.ltb_spec (Z.of_nat (length keys) * bits) 64); nia). nia. }
  intros key. destruct (bloom_total key (a ++ [byte.of_Z (k_ p)])) as [b Eb]. exists b. split; [done|]. intros Hkey. destruct (HT key Hkey) as (h & Hh & Ht).
  assert (Ok b = Ok true) as [= ->]; [|done]. rewrite <- Eb. unfold bloom_KeyMayMatch. rewrite length_app, Hl. cbn [length]. rewrite (proj2 (Nat.ltb_ge _ _)) by lia.
  rewrite lookup_app_r by lia. replace (Z.to_nat n + 1 - 1 - length a)%nat with 0%nat by lia. cbn [lookup list_lookup].
  rewrite byte_of_Z_small, wrap_s_small, wrap_u_small, (proj2 (Z.ltb_ge _ _)) by (cbn; lia). rewrite Hh. cbn [mbind res_bind].
  replace (Z.of_nat (Z.to_nat n + 1 - 1) * 8) with (n * 8) by lia. by apply (test_probes_keeps _ _ _ _ a _ (keeps_app _ _)).
Qed.
End Bloom.

(** ** Filter blocks *)
Definition psum (l : list bytes) (i : nat) : nat := length (concat (take i l)).
Definition starts (l : list bytes) : list nat := psum l <$> seq 0 (length l).

Lemma psum_snoc l x i : (i <= length l)%nat -> psum (l ++ [x]) i = psum l i.
Proof. intros Hi. unfold psum. by rewrite take_app_le. Qed.

Lemma psum_all l i : (length l <= i)%nat -> psum l i = length (concat l).
Proof. intros Hi. unfold psum. by rewrite take_ge. Qed.

Lemma psum_S l i x : l !! i = Some x -> psum l (S i) = (psum l i + length x)%nat.
Proof. intros Hi. unfold psum. rewrite (take_S_r _ _ _ Hi), concat_app, length_app. cbn. by rewrite app_nil_r. Qed.

Lemma psum_le l i : (psum l i <= length (concat l))%nat.
Proof. unfold psum. rewrite <- (take_drop i l) at 2. rewrite concat_app, length_app. lia. Qed.

Lemma psum_at l i x : l !! i = Some x -> take (length x) (drop (psum l i) (concat l)) = x.
Proof.
  intros Hi. unfold psum. rewrite <- (take_drop_middle l i x Hi) at 2. rewrite concat_app, drop_app_length. cbn [concat]. apply take_app_length.
Qed.

Lemma starts_snoc l x : starts (l ++ [x]) = starts l ++ [length (concat l)].
Proof.
  unfold starts. rewrite length_app. cbn [length]. rewrite Nat.add_1_r, seq_S, fmap_app. cbn [fmap list_fmap]. rewrite psum_snoc, psum_all by lia. f_equal.
  apply list_fmap_ext. intros i j Hj. apply lookup_seq in Hj as [-> ?]. apply psum_snoc. lia.
Qed.

Lemma tmp_keys_shift (pre : bytes) ks : forall l, l = concat ks ->
  tmp_keys (pre ++ l) (((fun i => length pre + psum ks i)%nat <$> seq 0 (length ks)) ++ [length (pre ++ l)]) = ks.
Proof.
  revert pre. induction ks as [|k ks IH]; intros pre l ->; [done|]. cbn [length seq fmap list_fmap app].
  assert (Hs : (fun i => (length pre + psum (k :: ks) i)%nat) <$> seq 1 (length ks) = (fun i => (length (pre ++ k) + psum ks i)%nat) <$> seq 0 (length ks)).
  { rewrite <- (fmap_S_seq 0 (length ks)), <- list_fmap_compose. apply list_fmap_ext. intros i j _. unfold psum. cbn. rewrite !length_app. lia. }
  change (list_fmap nat nat ?f ?l) with (f <$> l). rewrite Hs. specialize (IH (pre ++ k) (concat ks) eq_refl). cbn [concat]. rewrite (app_assoc pre k).
  replace (length pre + psum (k :: ks) 0)%nat with (length pre) by (cbn; lia).
  destruct ks as [|k' ks'].
  - cbn [length seq fmap list_fmap app tmp_keys concat]. rewrite app_nil_r, length_app. f_equal. rewrite drop_app_length, take_ge by lia. done.
  - remember (k' :: ks') as ks0 eqn:E0. assert (exists t, ((fun i => (length (pre ++ k) + psum ks0 i)%nat) <$> seq 0 (length ks0)) ++ [length ((pre ++ k) ++ concat ks0)] = length (pre ++ k) :: t) as [t Ht].
    { rewrite E0. cbn [length seq fmap list_fmap app]. eexists. f_equal. unfold psum. cbn. lia. }
    rewrite Ht in *. cbn [tmp_keys]. f_equal; [|exact IH]. rewrite <- app_assoc, drop_app_length, length_app.
    replace (length pre + length k - length pre)%nat with (length k) by lia. apply take_app_length.
Qed.

Lemma tmp_keys_all ks : tmp_keys (concat ks) (starts ks ++ [length (concat ks)]) = ks.
Proof. exact (tmp_keys_shift [] ks (concat ks) eq_refl). Qed.

Section FilterBlock.
Context (e : bool) `{P : FilterPolicy} {c : nat} {FL : FilterLaws P c}.

(** The filter can be asked, and has the key. *)
Definition matches (g key : bytes) : Prop := fp_KeyMayMatch key g = Ok true /\ forall k, exists b, fp_KeyMayMatch k g = Ok b.

(** The filters that are made and the keys that wait for the next one. *)
Definition fb_holds (F ks : list bytes) (f : FilterBlockBuilder) : Prop :=
  fb_result f = concat F /\ fb_filter_offsets f = (fun i => wrap_u 32 (Z.of_nat (psum F i))) <$> seq 0 (length F) /\
  fb_keys f = concat ks /\ fb_start f = starts ks.

Lemma fb_new : fb_holds [] [] FilterBlockBuilder_new. Proof. done. Qed.

Lemma fb_add F ks f key : fb_holds F ks f -> fb_holds F (ks ++ [key]) (AddKey key f).
Proof.
  intros (H1 & H2 & H3 & H4). split_and!; try done; cbn.
  - rewrite H3, concat_app. cbn. by rewrite app_nil_r.
  - by rewrite H3, H4, starts_snoc.
Qed.

Lemma fb_generate F ks f : fb_holds F ks f -> Z.of_nat (length ks) < 2 ^ 31 -> exists g f',
  GenerateFilter f = Ok f' /\ fb_holds (F ++ [g]) [] f' /\ (length g <= 2 * c * length ks)%nat /\
  forall key, key ∈ ks -> matches g key.
Proof.
  intros (H1 & H2 & H3 & H4) Hn. unfold GenerateFilter.
  assert (Hoff : fb_filter_offsets f ++ [wrap_u 32 (Z.of_nat (length (fb_result f)))] = (fun i => wrap_u 32 (Z.of_nat (psum F i))) <$> seq 0 (S (length F))).
  { rewrite seq_S, fmap_app, H1, H2. cbn [fmap list_fmap Nat.add]. by rewrite (psum_all F (length F)). }
  assert (Hext : forall g, (fun i => wrap_u 32 (Z.of_nat (psum F i))) <$> seq 0 (S (length F)) = (fun i => wrap_u 32 (Z.of_nat (psum (F ++ [g]) i))) <$> seq 0 (length (F ++ [g]))).
  { intros g. rewrite length_app, Nat.add_1_r. apply list_fmap_ext. intros i j Hj. apply lookup_seq in Hj as [-> ?]. by rewrite psum_snoc by lia. }
  rewrite Hoff. destruct ks as [|k ks].
  - rewrite H4. cbn. exists [], (MkFilterBuilder (fb_keys f) [] (fb_result f) ((fun i => wrap_u 32 (Z.of_nat (psum F i))) <$> seq 0 (S (length F)))).
    split; [done|]. split; [|split; [cbn; lia|intros key Hk; by apply elem_of_nil in Hk]].
    split_and!; cbn [fb_result fb_filter_offsets fb_keys fb_start]; [by rewrite concat_app, app_nil_r|apply Hext|done|done].
  - destruct (create_matches (k :: ks) (fb_result f) Hn) as (g & E & Hc & Hg).
    rewrite H4. destruct (starts (k :: ks)) as [|s0 st] eqn:Hst; [done|]. rewrite <- Hst, H3, tmp_keys_all, E. cbn [mbind res_bind].
    exists g. eexists. split; [done|]. split; [|split; [cbn [length] in *; nia|]].
    2: { intros key Hkey. split; [destruct (Hg key) as (b & -> & ->); done|]. intros k0. destruct (Hg k0) as (b & -> & _). by exists b. }
    split_and!; cbn [fb_result fb_filter_offsets fb_keys fb_start]; [rewrite concat_app, H1; cbn; by rewrite app_nil_r|apply Hext|done|done].
Qed.

(** A key of the data block at [off] is in its filter, or waits for it. *)
Definition made (F : list bytes) (off : Z) (key : bytes) : Prop :=
  exists g, F !! Z.to_nat (off / kFilterBase) = Some g /\ matches g key.
Definition served (F ks : list bytes) (off : Z) (key : bytes) : Prop :=
  made F off key \/ (Z.to_nat (off / kFilterBase) = length F /\ key ∈ ks).

Lemma served_generate F ks g : (forall key, key ∈ ks -> matches g key) ->
  forall off key, served F ks off key -> made (F ++ [g]) off key.
Proof.
  intros Hg off key [(g' & H1 & H2)|[H1 H2]]; [exists g'; split; [by apply lookup_app_l_Some|done]|].
  exists g. rewrite H1, lookup_app_r, Nat.sub_diag by lia. split; [done|auto].
Qed.

Lemma start_loop_ok n idx : forall F ks f, fb_holds F ks f -> Z.of_nat (length ks) < 2 ^ 31 -> Z.of_nat (length F) <= idx ->
  idx <= Z.of_nat (length F) + Z.of_nat n -> exists F' ks' f',
  start_loop n idx f = Ok f' /\ fb_holds F' ks' f' /\ Z.of_nat (length F') = idx /\ (length ks' <= length ks)%nat /\
  (length (concat F') + 2 * c * length ks' <= length (concat F) + 2 * c * length ks)%nat /\
  forall off key, served F ks off key -> served F' ks' off key.
Proof.
  induction n as [|n IH]; intros F ks f HF Hn Hle Hge; cbn [start_loop].
  - exists F, ks, f. split_and!; [done|done|lia|lia|lia|done].
  - assert (length (fb_filter_offsets f) = length F) as -> by (destruct HF as (_ & -> & _); by rewrite length_fmap, length_seq).
    destruct (Z.ltb_spec (Z.of_nat (length F)) idx); [|exists F, ks, f; split_and!; [done|done|lia|lia|lia|done]].
    destruct (fb_generate F ks f HF Hn) as (g & f1 & E & HF1 & Hc & Hg). rewrite E. cbn [mbind res_bind].
    destruct (IH (F ++ [g]) [] f1 HF1) as (F' & ks' & f' & E' & HF' & Hl & Hk & Hz & HS); [cbn; lia|rewrite length_app; cbn; lia|rewrite length_app; cbn; lia|].
    exists F', ks', f'. split; [done|]. split; [done|]. split; [done|]. split; [cbn in Hk; lia|]. split; [rewrite concat_app, length_app in Hz; cbn in Hz; rewrite app_nil_r in Hz; lia|].
    intros off key Hs. apply HS. left. by apply (served_generate F ks g Hg).
Qed.

Lemma start_ok F ks f off : fb_holds F ks f -> Z.of_nat (length ks) < 2 ^ 31 -> 0 <= off -> Z.of_nat (length F) <= off / kFilterBase ->
  exists F' ks' f', StartBlock off f = Ok f' /\ fb_holds F' ks' f' /\ Z.of_nat (length F') = off / kFilterBase /\ (length ks' <= length ks)%nat /\
  (length (concat F') + 2 * c * length ks' <= length (concat F) + 2 * c * length ks)%nat /\
  forall o key, served F ks o key -> served F' ks' o key.
Proof.
  intros HF Hn Hoff Hle. unfold StartBlock. assert (0 <= off / kFilterBase) by (apply Z.div_pos; [lia|done]).
  apply start_loop_ok; try done. lia.
Qed.

Lemma served_add F ks key off : Z.of_nat (length F) = off / kFilterBase -> served F (ks ++ [key]) off key.
Proof. intros Hl. right. split; [lia|set_solver]. Qed.

Lemma served_more F ks key off k : served F ks off k -> served F (ks ++ [key]) off k.
Proof. intros [?|[? ?]]; [by left|right; split; [done|set_solver]]. Qed.

(** The bytes of a filter block. *)
Definition filter_bytes (F : list bytes) : bytes :=
  concat F ++ concat (le_split 4 <$> ((fun i => Z.of_nat (psum F i)) <$> seq 0 (S (length F)))) ++ [byte.of_Z kFilterBaseLg].

Lemma filter_length F : length (filter_bytes F) = (length (concat F) + 4 * S (length F) + 1)%nat.
Proof. unfold filter_bytes. rewrite !length_app, length_concat4, length_fmap, length_seq. cbn [length]. lia. Qed.

Lemma finish_made F f : fb_holds F [] f -> exists data f', (length data = length (concat F) + 4 * S (length F) + 1)%nat /\
  fb_Finish e f = Ok (data, f') /\ (Z.of_nat (length data) < 2 ^ 32 -> data = filter_bytes F).
Proof.
  intros (H1 & H2 & _ & H4). unfold fb_Finish. rewrite H4. cbn [mbind res_bind starts length seq fmap list_fmap].
  rewrite foldl_put, H1, H2. unfold PutFixed32, filter_bytes. rewrite encode32_le. do 2 eexists. split; [|split; [done|]].
  { rewrite !length_app, length_concat4, length_le_split, length_fmap, length_seq. cbn. lia. }
  rewrite !length_app, length_concat4. intros Hsz. rewrite wrap_u_small by lia.
  rewrite seq_S, !fmap_app, concat_app. cbn [fmap list_fmap concat Nat.add]. rewrite app_nil_r, (psum_all F (length F)), <- !app_assoc by lia.
  assert ((fun i => wrap_u 32 (Z.of_nat (psum F i))) <$> seq 0 (length F) = (fun i => Z.of_nat (psum F i)) <$> seq 0 (length F)) as ->; [|done].
  apply list_fmap_ext. intros i j _. apply wrap_u_small. pose proof (psum_le F j). lia.
Qed.

Lemma finish_ok F ks f : fb_holds F ks f -> Z.of_nat (length ks) < 2 ^ 31 -> exists F' data f',
  (forall off key, served F ks off key -> made F' off key) /\
  (length data <= length (concat F) + 2 * c * length ks + 4 * length F + 9)%nat /\
  fb_Finish e f = Ok (data, f') /\ (Z.of_nat (length data) < 2 ^ 32 -> data = filter_bytes F').
Proof.
  intros HF Hn. destruct ks as [|k ks].
  - destruct (finish_made F f HF) as (data & f' & Hl & E & Hd). exists F, data, f'. split; [|split; [lia|done]].
    intros off key [?|[_ Hk]]; [done|]. by apply elem_of_nil in Hk.
  - destruct (fb_generate F _ f HF Hn) as (g & f1 & E & HF1 & Hc & Hg). destruct (finish_made _ f1 HF1) as (data & f' & Hl & E' & Hd).
    rewrite concat_app, !length_app in Hl. cbn [concat length] in Hl. rewrite app_nil_r in Hl.
    exists (F ++ [g]), data, f'. split; [by apply served_generate|]. split; [lia|]. split; [|done]. rewrite <- E'. unfold fb_Finish.
    destruct HF as (_ & _ & _ & ->). destruct HF1 as (_ & _ & _ & ->). destruct (starts (k :: ks)) eqn:Hs; [done|]. by rewrite E.
Qed.

Definition reader_of (F : list bytes) : FilterBlockReader :=
  MkFilterReader (filter_bytes F) (Z.of_nat (length (concat F))) (Z.of_nat (length F)) kFilterBaseLg.

Lemma word_at F i : (i <= length F)%nat -> Z.of_nat (length (filter_bytes F)) < 2 ^ 32 ->
  DecodeFixed32 e (drop (length (concat F) + 4 * i) (filter_bytes F)) = Ok (Z.of_nat (psum F i)).
Proof.
  intros Hi Hsz. rewrite filter_length in Hsz. unfold filter_bytes. rewrite <- drop_drop, drop_app_length.
  destruct (drop_concat4 ((fun i => Z.of_nat (psum F i)) <$> seq 0 (S (length F))) i (Z.of_nat (psum F i)) [byte.of_Z kFilterBaseLg]) as [t' ->].
  { rewrite list_lookup_fmap, lookup_seq_lt by lia. done. }
  rewrite <- (encode32_le e). apply fixed32_get. pose proof (psum_le F i). lia.
Qed.

Lemma reader_ok F : Z.of_nat (length (filter_bytes F)) < 2 ^ 32 -> FilterBlockReader_new e (filter_bytes F) = Ok (reader_of F).
Proof.
  intros Hsz. pose proof (filter_length F) as Hl. unfold FilterBlockReader_new. rewrite (proj2 (Z.ltb_ge _ _)) by lia.
  assert (filter_bytes F !! Z.to_nat (Z.of_nat (length (filter_bytes F)) - 1) = Some (byte.of_Z kFilterBaseLg)) as ->.
  { replace (Z.to_nat _) with (length (filter_bytes F) - 1)%nat by lia. rewrite Hl. unfold filter_bytes. rewrite app_assoc, lookup_app_r.
    - rewrite length_app, length_concat4, length_fmap, length_seq. replace (_ - _)%nat with 0%nat by lia. done.
    - rewrite length_app, length_concat4, length_fmap, length_seq. lia. }
  replace (Z.to_nat (Z.of_nat (length (filter_bytes F)) - 5)) with (length (concat F) + 4 * length F)%nat by lia.
  rewrite word_at by (done || lia). cbn [mbind res_bind]. rewrite (psum_all F (length F)) by lia. rewrite (proj2 (Z.ltb_ge _ _)) by lia.
  unfold reader_of. do 2 f_equal. symmetry. apply Z.div_unique_exact; lia.
Qed.

Lemma reader_asks F off g k : Z.of_nat (length (filter_bytes F)) < 2 ^ 32 -> 0 <= off -> F !! Z.to_nat (off / kFilterBase) = Some g ->
  fr_KeyMayMatch e (reader_of F) off k = fp_KeyMayMatch k g.
Proof.
  intros Hsz Hoff Hg. pose proof (filter_length F) as Hl. pose proof (lookup_lt_Some _ _ _ Hg) as Hlt.
  unfold fr_KeyMayMatch, reader_of. cbn [fr_data fr_offset fr_num fr_base_lg]. change (64 <=? kFilterBaseLg) with false. cbv iota.
  rewrite Z.shiftr_div_pow2 by done. change (2 ^ kFilterBaseLg) with kFilterBase. set (idx := off / kFilterBase) in *.
  assert (0 <= idx) by (apply Z.div_pos; [lia|done]). rewrite (proj2 (Z.ltb_lt _ _)) by lia.
  replace (Z.to_nat (Z.of_nat (length (concat F)) + idx * 4)) with (length (concat F) + 4 * Z.to_nat idx)%nat by lia.
  replace (Z.to_nat (Z.of_nat (length (concat F)) + idx * 4 + 4)) with (length (concat F) + 4 * S (Z.to_nat idx))%nat by lia.
  rewrite !word_at by (done || lia). cbn [mbind res_bind]. rewrite (psum_S F _ g Hg). pose proof (psum_le F (S (Z.to_nat idx))) as Hp. rewrite (psum_S F _ g Hg) in Hp.
  rewrite !(proj2 (Z.leb_le _ _)) by lia. cbn [andb]. rewrite Nat2Z.id. replace (Z.to_nat _) with (length g) by lia.
  unfold filter_bytes. rewrite drop_app_le, take_app_le by (rewrite ?length_drop; lia). by rewrite psum_at.
Qed.

Lemma reader_matches F off key : Z.of_nat (length (filter_bytes F)) < 2 ^ 32 -> 0 <= off -> made F off key ->
  fr_KeyMayMatch e (reader_of F) off key = Ok true /\ forall k, exists b, fr_KeyMayMatch e (reader_of F) off k = Ok b.
Proof.
  intros Hsz Hoff (g & Hg & Hm & Ht). split; [by rewrite (reader_asks F off g key)|]. intros k. rewrite (reader_asks F off g k) by done. apply Ht.
Qed.

(** The calls made for a table: for every data block its offset and then its
    keys. *)
Fixpoint fb_run (groups : list (Z * list bytes)) (f : FilterBlockBuilder) : res FilterBlockBuilder :=
  match groups with
  | [] => Ok f
  | (off, keys) :: groups' => f ← StartBlock off f; fb_run groups' (foldl (fun f k => AddKey k f) f keys)
  end.

Lemma fb_adds_ok off keys : forall F ks f, fb_holds F ks f -> Z.of_nat (length F) = off / kFilterBase ->
  fb_holds F (ks ++ keys) (foldl (fun f k => AddKey k f) f keys) /\
  (forall o k, served F ks o k -> served F (ks ++ keys) o k) /\ forall k, k ∈ keys -> served F (ks ++ keys) off k.
Proof.
  induction keys as [|key keys IH]; intros F ks f HF Hl; cbn [foldl].
  - rewrite app_nil_r. split_and!; [done|done|]. intros k Hk. by apply elem_of_nil in Hk.
  - destruct (IH F (ks ++ [key]) (AddKey key f) (fb_add F ks f key HF) Hl) as (H1 & H2 & H3). rewrite <- app_assoc in *. split; [done|]. split.
    + intros o k Hs. apply H2. by apply served_more.
    + intros k [->|Hk]%elem_of_cons; [|by apply H3]. apply H2. by apply served_add.
Qed.

Fixpoint groups_ok (low : Z) (groups : list (Z * list bytes)) : Prop :=
  match groups with [] => True | (off, keys) :: groups' => low <= off /\ groups_ok off groups' end.

Fixpoint group_keys (groups : list (Z * list bytes)) : nat :=
  match groups with [] => 0 | (_, keys) :: groups' => length keys + group_keys groups' end.

Lemma fb_run_ok groups : forall low F ks f, fb_holds F ks f -> groups_ok low groups -> 0 <= low -> Z.of_nat (length F) <= low / kFilterBase ->
  Z.of_nat (length ks) + Z.of_nat (group_keys groups) < 2 ^ 31 -> exists F' ks' f', fb_run groups f = Ok f' /\ fb_holds F' ks' f' /\
  Z.of_nat (length ks') < 2 ^ 31 /\ (forall o k, served F ks o k -> served F' ks' o k) /\
  forall off keys k, (off, keys) ∈ groups -> k ∈ keys -> served F' ks' off k.
Proof.
  induction groups as [|[off keys] groups IH]; intros low F ks f HF Hg Hlow HlF Hn; cbn [fb_run].
  - exists F, ks, f. split_and!; [done|done|lia|done|]. intros off keys k Hin. by apply elem_of_nil in Hin.
  - destruct Hg as [Hoff Hg]. cbn [group_keys] in Hn.
    assert (low / kFilterBase <= off / kFilterBase) by (apply Z.div_le_mono; [done|lia]).
    destruct (start_ok F ks f off HF) as (F1 & ks1 & f1 & E & HF1 & Hl1 & Hk1 & _ & HS1); [lia|lia|lia|]. rewrite E. cbn [mbind res_bind].
    destruct (fb_adds_ok off keys F1 ks1 f1 HF1 Hl1) as (HF2 & HS2 & HS3).
    destruct (IH off F1 (ks1 ++ keys) _ HF2 Hg) as (F' & ks' & f' & E' & HF' & Hk' & HS' & HA); [lia|lia|rewrite length_app; lia|].
    exists F', ks', f'. split; [done|]. split; [done|]. split; [done|]. split; [auto|].
    intros off' keys' k [[= -> ->]|Hin]%elem_of_cons Hk; [auto|by apply (HA off' keys')].
Qed.

Lemma groups_low groups : forall low off keys, groups_ok low groups -> (off, keys) ∈ groups -> low <= off.
Proof.
  induction groups as [|[o ks] groups IH]; intros low off keys Hg Hin; [by apply elem_of_nil in Hin|]. destruct Hg as [Hle Hg].
  apply elem_of_cons in Hin as [[= -> ->]|Hin]; [done|]. specialize (IH o off keys Hg Hin). lia.
Qed.

(** C32. The filter block of a table says of no key it was built with that it is
    not there: after [StartBlock] and [AddKey] for data blocks at any increasing
    offsets, and [Finish], a reader of the bytes matches every key under the
    offset of its block, with every policy that keeps the promise of
    [FilterPolicy]. *)
Theorem filter_block_matches groups :
  groups_ok 0 groups -> Z.of_nat (group_keys groups) < 2 ^ 31 -> exists f data f',
  fb_run groups FilterBlockBuilder_new = Ok f /\ fb_Finish e f = Ok (data, f') /\
  (Z.of_nat (length data) < 2 ^ 32 -> exists r, FilterBlockReader_new e data = Ok r /\
    forall off keys key, (off, keys) ∈ groups -> key ∈ keys -> fr_KeyMayMatch e r off key = Ok true).
Proof.
  intros Hg Hn. destruct (fb_run_ok groups 0 [] [] _ fb_new Hg) as (F & ks & f & E & HF & Hk & _ & HA); [done|done|cbn; lia|].
  destruct (finish_ok F ks f HF Hk) as (F' & data & f' & HM & _ & E' & Hd). exists f, data, f'. split; [done|]. split; [done|]. intros Hsz.
  specialize (Hd Hsz). subst data. exists (reader_of F'). split; [by apply reader_ok|].
  intros off keys key Hin Hkey. apply reader_matches; [done| |apply HM; by apply (HA off keys)]. by apply (groups_low groups 0 off keys).
Qed.
End FilterBlock.

Lemma filter_block_matches_witness : exists p f data f', BloomFilterPolicy_new 10 = Ok p /\ k_ p = 6 /\
  fb_run (P := bloom_policy true p) [(0, [lit "a"; lit "b"]); (4000, [lit "c"]); (4090, [])] FilterBlockBuilder_new = Ok f /\
  fb_Finish (P := bloom_policy true p) true f = Ok (data, f') /\
  (Z.of_nat (length data) < 2 ^ 32 -> exists r, FilterBlockReader_new true data = Ok r /\
    forall off keys key, (off, keys) ∈ [(0, [lit "a"; lit "b"]); (4000, [lit "c"]); (4090, [])] -> key ∈ keys ->
      fr_KeyMayMatch (P := bloom_policy true p) true r off key = Ok true).
Proof.
  destruct (BloomFilterPolicy_new 10) as [p|] eqn:E; [|by vm_compute in E]. pose proof (bloom_laws true 10 p E ltac:(lia)) as HL.
  destruct (filter_block_matches true (P := bloom_policy true p) [(0, [lit "a"; lit "b"]); (4000, [lit "c"]); (4090, [])]) as (f & data & f' & H).
  - cbn. lia.
  - done.
  - exists p, f, data, f'. split; [done|]. split; [by vm_compute in E; injection E as <-|done].
Defined.
