(* ===== verification/LvlFormat.v ===== *)
(** * Internal keys of LevelDB

    db/dbformat.h and db/dbformat.cc of src/3rd-party/leveldb/leveldb-1.18: a
    user key followed by a 64-bit tag of a sequence number and a value type,
    their order, and the keys a lookup seeks to. *)
From S2P Require Import Prelude Store LvlCoding LvlBase.

Inductive ValueType := kTypeDeletion | kTypeValue.

#[export] Instance ValueType_eq_dec : EqDecision ValueType.
Proof. solve_decision. Defined.

Definition vt_val (t : ValueType) : Z := match t with kTypeDeletion => 0 | kTypeValue => 1 end.
Definition kValueTypeForSeek : ValueType := kTypeValue.
Definition kMaxSequenceNumber : Z := Z.shiftl 1 56 - 1.

Record ParsedInternalKey := PIK { user_key : bytes; sequence : Z; type : ValueType }.

Definition InternalKeyEncodingLength (key : ParsedInternalKey) : nat := length (user_key key) + 8.

Definition PackSequenceAndType (seq : Z) (t : ValueType) : Z := Z.lor (wrap_u 64 (Z.shiftl seq 8)) (vt_val t).

Definition AppendInternalKey (result : bytes) (key : ParsedInternalKey) : bytes :=
  PutFixed64 true (result ++ user_key key) (PackSequenceAndType (sequence key) (type key)).

(** The tag in the last eight bytes. *)
Definition tag_of (internal_key : bytes) : res Z := DecodeFixed64 true (drop (length internal_key - 8) internal_key).

Definition ParseInternalKey (internal_key : bytes) : res (option ParsedInternalKey) :=
  let n := length internal_key in
  if (n <? 8)%nat then Ok None
  else
    num ← tag_of internal_key;
    let c := Z.land num 0xff in
    let mk t := Ok (Some (PIK (take (n - 8) internal_key) (Z.shiftr num 8) t)) in
    if c =? 0 then mk kTypeDeletion else if c =? 1 then mk kTypeValue else Ok None.

(** [internal_key.size() - 8] wraps around for a key that is too short. *)
Definition ExtractUserKey (internal_key : bytes) : res bytes :=
  if (8 <=? length internal_key)%nat then Ok (take (length internal_key - 8) internal_key) else Ub OobRead.

Definition ExtractValueType (internal_key : bytes) : res Z :=
  if (8 <=? length internal_key)%nat then num ← tag_of internal_key; Ok (Z.land num 0xff) else Ub OobRead.

Section InternalComparator.
(** The comparator of the database's keys. *)
Context (user_comparator : comparator).
Context (user_FindShortestSeparator : bytes -> bytes -> bytes) (user_FindShortSuccessor : bytes -> bytes).

Definition ikc_Name : bytes := lit "leveldb.InternalKeyComparator".

Definition ikc_Compare (akey bkey : bytes) : res Z :=
  ua ← ExtractUserKey akey;
  ub ← ExtractUserKey bkey;
  let r := cmp user_comparator ua ub in
  if r =? 0 then
    anum ← tag_of akey;
    bnum ← tag_of bkey;
    Ok (if bnum <? anum then -1 else if anum <? bnum then 1 else r)
  else Ok r.

Definition ikc_FindShortestSeparator (start limit : bytes) : res bytes :=
  user_start ← ExtractUserKey start;
  user_limit ← ExtractUserKey limit;
  let tmp := user_FindShortestSeparator user_start user_limit in
  Ok (if (length tmp <? length user_start)%nat && (cmp user_comparator user_start tmp <? 0)
      then PutFixed64 true tmp (PackSequenceAndType kMaxSequenceNumber kValueTypeForSeek)
      else start).

Definition ikc_FindShortSuccessor (key : bytes) : res bytes :=
  user_key ← ExtractUserKey key;
  let tmp := user_FindShortSuccessor user_key in
  Ok (if (length tmp <? length user_key)%nat && (cmp user_comparator user_key tmp <? 0)
      then PutFixed64 true tmp (PackSequenceAndType kMaxSequenceNumber kValueTypeForSeek)
      else key).
End InternalComparator.

(** ** Lookup keys

    The array of a [LookupKey], and whether it is on the heap. *)
Record LookupKey := LK { lk_start : bytes; lk_kstart : nat; lk_heap : bool }.

Definition lookup_key (ukey : bytes) (s : Z) : LookupKey :=
  let usize := length ukey in
  let needed := (usize + 13)%nat in
  let len := EncodeVarint32 (wrap_u 32 (Z.of_nat (usize + 8))) in
  LK (len ++ ukey ++ EncodeFixed64 true (PackSequenceAndType s kValueTypeForSeek)) (length len)
     (negb (needed <=? 200)%nat).

Definition memtable_key (k : LookupKey) : bytes := lk_start k.
Definition internal_key (k : LookupKey) : bytes := drop (lk_kstart k) (lk_start k).
Definition lk_user_key (k : LookupKey) : bytes :=
  take (length (lk_start k) - lk_kstart k - 8) (drop (lk_kstart k) (lk_start k)).

(** ** Tags *)
Definition good_seq (s : Z) : Prop := 0 <= s <= kMaxSequenceNumber.

Lemma max_seq : kMaxSequenceNumber = 2 ^ 56 - 1.
Proof. done. Qed.

Lemma pack_val s t : good_seq s -> PackSequenceAndType s t = s * 256 + vt_val t /\ 0 <= s * 256 + vt_val t < 2 ^ 64.
Proof.
  unfold good_seq. rewrite max_seq. intros Hs. assert (0 <= vt_val t < 2 ^ 8) by (by destruct t).
  unfold PackSequenceAndType. rewrite Z.shiftl_mul_pow2, wrap_u_small by lia. change 256 with (2 ^ 8).
  rewrite Z.lor_comm, lor_add by lia. lia.
Qed.

Lemma tag_user_key s t (k : bytes) : good_seq s ->
  let ik := k ++ EncodeFixed64 true (PackSequenceAndType s t) in
  length ik = (length k + 8)%nat /\ ExtractUserKey ik = Ok k /\ tag_of ik = Ok (s * 256 + vt_val t).
Proof.
  intros Hs ik. destruct (pack_val s t Hs) as [Hp Hr].
  assert (length ik = (length k + 8)%nat) as Hl by (subst ik; by rewrite length_app, encode64_le, length_le_split).
  split; [done|]. unfold ExtractUserKey, tag_of. rewrite Hl.
  rewrite (proj2 (Nat.leb_le _ _)) by lia. replace (length k + 8 - 8)%nat with (length k) by lia. subst ik.
  rewrite take_app_length, drop_app_length. split; [done|].
  rewrite <- (app_nil_r (EncodeFixed64 _ _)). rewrite fixed64_get by (rewrite Hp; lia). by rewrite Hp.
Qed.

Lemma tag_parts s t : 0 <= s -> Z.land (s * 256 + vt_val t) 0xff = vt_val t /\ Z.shiftr (s * 256 + vt_val t) 8 = s.
Proof.
  intros Hs. change 0xff with (Z.ones 8). rewrite Z.land_ones, Z.shiftr_div_pow2 by lia. change (2 ^ 8) with 256.
  split; [rewrite Z.add_comm, Z_mod_plus_full; by destruct t|].
  rewrite Z.div_add_l by lia. replace (vt_val t / 256) with 0 by (by destruct t). lia.
Qed.

(** An internal key reads back as the user key, sequence number and value
    type it was made from, for every sequence number of the 56 bits there are. *)
Theorem internal_key_roundtrip key :
  good_seq (sequence key) ->
  ParseInternalKey (AppendInternalKey [] key) = Ok (Some key) /\
  length (AppendInternalKey [] key) = InternalKeyEncodingLength key /\
  ExtractUserKey (AppendInternalKey [] key) = Ok (user_key key) /\
  ExtractValueType (AppendInternalKey [] key) = Ok (vt_val (type key)).
Proof.
  destruct key as [k s t]. cbn [sequence user_key type]. intros Hs. unfold AppendInternalKey, PutFixed64. cbn [app user_key sequence type].
  destruct (tag_user_key s t k Hs) as (Hl & Hu & Ht). destruct (tag_parts s t) as [Hc Hq]; [apply Hs|].
  unfold ParseInternalKey, ExtractValueType, InternalKeyEncodingLength. rewrite Hl, Ht, Hu.
  rewrite (proj2 (Nat.ltb_ge _ _)), (proj2 (Nat.leb_le _ _)) by lia. cbn [mbind res_bind]. rewrite Hc, Hq.
  replace (length k + 8 - 8)%nat with (length k) by lia. rewrite take_app_length. by destruct t.
Qed.

Lemma internal_key_roundtrip_witness :
  ParseInternalKey (AppendInternalKey [] (PIK (lit "k") 5 kTypeValue)) = Ok (Some (PIK (lit "k") 5 kTypeValue)) /\
  length (AppendInternalKey [] (PIK (lit "k") 5 kTypeValue)) = 9%nat /\
  ExtractUserKey (AppendInternalKey [] (PIK (lit "k") 5 kTypeValue)) = Ok (lit "k") /\
  ExtractValueType (AppendInternalKey [] (PIK (lit "k") 5 kTypeValue)) = Ok 1.
Proof. apply (internal_key_roundtrip (PIK (lit "k") 5 kTypeValue)). unfold good_seq. rewrite max_seq. cbn. lia. Defined.

(** ** Order *)

(** A key is a user key and a tag. *)
Definition split_key (ik : bytes) : bytes * Z :=
  (take (length ik - 8) ik, le_combine (drop (length ik - 8) ik)).

Lemma split_key_inj a b :
  (8 <= length a)%nat -> (8 <= length b)%nat -> split_key a = split_key b -> a = b.
Proof.
  intros Ha Hb [= Hu Ht].
  rewrite <- (take_drop (length a - 8) a), <- (take_drop (length b - 8) b), Hu. f_equal.
  rewrite <- (split_le_combine (drop (length a - 8) a)), <- (split_le_combine (drop (length b - 8) b)), Ht.
  rewrite !length_drop. f_equal. lia.
Qed.

Lemma tag_of_split ik : (8 <= length ik)%nat -> tag_of ik = Ok (snd (split_key ik)).
Proof.
  intros Hl. unfold tag_of. rewrite <- (app_nil_r (drop _ _)) at 1. by rewrite decode64_le by (rewrite length_drop; lia).
Qed.

Section Order.
Context (uc : comparator) {UL : CmpLaws uc}.

Definition internal_comparator : comparator :=
  Cmp (fun a b => match ikc_Compare uc a b with Ok z => z | Ub _ => 0 end)
      (fun a => (8 <=? length a)%nat && dom uc (fst (split_key a))).

Lemma ikc_split a b :
  (8 <= length a)%nat -> (8 <= length b)%nat ->
  ikc_Compare uc a b = Ok (
    let r := cmp uc (fst (split_key a)) (fst (split_key b)) in
    if r =? 0 then
      if snd (split_key b) <? snd (split_key a) then -1
      else if snd (split_key a) <? snd (split_key b) then 1 else r
    else r).
Proof.
  intros Ha Hb. unfold ikc_Compare, ExtractUserKey. rewrite !(proj2 (Nat.leb_le _ _)) by done.
  cbn [mbind res_bind]. rewrite !tag_of_split by done. cbn [mbind res_bind].
  change (take (length a - 8) a) with (fst (split_key a)). change (take (length b - 8) b) with (fst (split_key b)).
  by destruct (_ =? 0).
Qed.

Lemma internal_dom a : dom internal_comparator a = true <-> (8 <= length a)%nat /\ dom uc (fst (split_key a)) = true.
Proof.
  change (dom internal_comparator a) with ((8 <=? length a)%nat && dom uc (fst (split_key a))).
  by rewrite andb_true_iff, Nat.leb_le.
Qed.

Lemma internal_cmp a b :
  dom internal_comparator a = true -> dom internal_comparator b = true ->
  cmp internal_comparator a b =
    (if cmp uc (fst (split_key a)) (fst (split_key b)) =? 0 then
       if snd (split_key b) <? snd (split_key a) then -1 else if snd (split_key a) <? snd (split_key b) then 1 else 0
     else cmp uc (fst (split_key a)) (fst (split_key b))).
Proof.
  intros [Ha _]%internal_dom [Hb _]%internal_dom.
  change (cmp internal_comparator a b) with (match ikc_Compare uc a b with Ok z => z | Ub _ => 0 end).
  rewrite ikc_split by done. cbv zeta.
  destruct (Z.eqb_spec (cmp uc (fst (split_key a)) (fst (split_key b))) 0) as [E|]; [|done].
  by repeat case_match.
Qed.

Lemma internal_laws : CmpLaws internal_comparator.
Proof.
  split.
  - intros a b Ha Hb. rewrite internal_cmp by done. apply internal_dom in Ha as [La Da], Hb as [Lb Db].
    destruct (Z.eqb_spec (cmp uc (fst (split_key a)) (fst (split_key b))) 0) as [E|E].
    + apply cmp_eq in E; [|done|done].
      destruct (Z.ltb_spec (snd (split_key b)) (snd (split_key a))),
        (Z.ltb_spec (snd (split_key a)) (snd (split_key b))); try lia; (split; [|intros ->; lia]); try lia.
      intros _. apply split_key_inj; [done|done|]. rewrite (surjective_pairing (split_key a)), (surjective_pairing (split_key b)).
      f_equal; [done|lia].
    + split; [done|]. intros ->. by rewrite cmp_refl in E.
  - intros a b Ha Hb. rewrite !internal_cmp by done. apply internal_dom in Ha as [La Da], Hb as [Lb Db].
    pose proof (cmp_eq (fst (split_key a)) (fst (split_key b)) Da Db) as E1.
    pose proof (cmp_eq (fst (split_key b)) (fst (split_key a)) Db Da) as E2.
    pose proof (cmp_opp (fst (split_key a)) (fst (split_key b)) Da Db) as O1.
    destruct (Z.eqb_spec (cmp uc (fst (split_key a)) (fst (split_key b))) 0) as [E|E].
    + rewrite (proj2 (Z.eqb_eq (cmp uc (fst (split_key b)) (fst (split_key a))) 0)) by (apply E2; symmetry; by apply E1).
      destruct (Z.ltb_spec (snd (split_key b)) (snd (split_key a))),
        (Z.ltb_spec (snd (split_key a)) (snd (split_key b))); lia.
    + rewrite (proj2 (Z.eqb_neq (cmp uc (fst (split_key b)) (fst (split_key a))) 0)); [done|].
      intros E'. apply E. apply E1. symmetry. by apply E2.
  - intros a b d Ha Hb Hd. rewrite !internal_cmp by done.
    apply internal_dom in Ha as [La Da], Hb as [Lb Db], Hd as [Ld Dd].
    destruct (Z.eqb_spec (cmp uc (fst (split_key a)) (fst (split_key b))) 0) as [E|E],
      (Z.eqb_spec (cmp uc (fst (split_key b)) (fst (split_key d))) 0) as [E'|E'].
    + apply cmp_eq in E; [|done|done]. rewrite E. apply Z.eqb_eq in E'. rewrite E'.
      repeat match goal with |- context [?x <? ?y] => destruct (Z.ltb_spec x y) end; lia.
    + apply cmp_eq in E; [|done|done]. rewrite E. intros _. by apply Z.eqb_neq in E' as ->.
    + apply cmp_eq in E'; [|done|done]. rewrite <- E'. intros ? _. by apply Z.eqb_neq in E as ->.
    + intros H1 H2. pose proof (cmp_trans _ _ _ Da Db Dd H1 H2) as H3.
      by rewrite (proj2 (Z.eqb_neq _ 0)) by lia.
Qed.
End Order.
#[export] Existing Instance internal_laws.

Lemma split_tagged s t k :
  good_seq s -> split_key (k ++ EncodeFixed64 true (PackSequenceAndType s t)) = (k, s * 256 + vt_val t) /\
    (8 <= length (k ++ EncodeFixed64 true (PackSequenceAndType s t)))%nat.
Proof.
  intros Hs. destruct (pack_val s t Hs) as [Hp Hr].
  assert (length (k ++ EncodeFixed64 true (PackSequenceAndType s t)) = (length k + 8)%nat) as Hl
    by (by rewrite length_app, encode64_le, length_le_split).
  split; [|lia]. unfold split_key. rewrite Hl. replace (length k + 8 - 8)%nat with (length k) by lia.
  rewrite take_app_length, drop_app_length, encode64_le, le_combine_split, Hp. f_equal. by apply Z.mod_small.
Qed.

Lemma append_tagged key :
  AppendInternalKey [] key = user_key key ++ EncodeFixed64 true (PackSequenceAndType (sequence key) (type key)).
Proof. done. Qed.

(** Ascending user keys; for one key the newest first. *)
Definition key_before (uc : comparator) (a b : ParsedInternalKey) : Prop :=
  cmp uc (user_key a) (user_key b) < 0 \/
  user_key a = user_key b /\
    (sequence b < sequence a \/ sequence b = sequence a /\ vt_val (type b) < vt_val (type a)).

(** LevelDB's comparator for internal keys sorts them by user key and, for
    one user key, from the newest to the oldest; it reads inside the keys only
    and tells apart any two different keys. *)
Theorem internal_key_order (uc : comparator) (UL : CmpLaws uc) a b :
  good_seq (sequence a) -> good_seq (sequence b) ->
  dom uc (user_key a) = true -> dom uc (user_key b) = true ->
  exists r, ikc_Compare uc (AppendInternalKey [] a) (AppendInternalKey [] b) = Ok r /\
    (r < 0 <-> key_before uc a b) /\ (r = 0 <-> a = b) /\ (0 < r <-> key_before uc b a).
Proof.
  intros Ha Hb Da Db. rewrite !append_tagged. destruct a as [ka sa ta], b as [kb sb tb]. cbn [user_key sequence type] in *.
  destruct (split_tagged sa ta ka Ha) as [Sa La], (split_tagged sb tb kb Hb) as [Sb Lb].
  rewrite ikc_split by done. eexists. split; [reflexivity|]. rewrite Sa, Sb. cbn [fst snd]. cbv zeta.
  unfold key_before. cbn [user_key sequence type].
  pose proof (cmp_eq ka kb Da Db) as E. pose proof (cmp_opp ka kb Da Db) as O. pose proof (cmp_opp kb ka Db Da) as O'.
  assert (0 <= vt_val ta <= 1) by (by destruct ta). assert (0 <= vt_val tb <= 1) by (by destruct tb).
  destruct (Z.eqb_spec (cmp uc ka kb) 0) as [E0|E0].
  - apply E in E0 as ->. rewrite !cmp_refl by done.
    assert (PIK kb sa ta = PIK kb sb tb <-> sa = sb /\ vt_val ta = vt_val tb) as ->.
    { split; [by intros [= -> ->]|]. intros [-> Hv]. by destruct ta, tb. }
    destruct (Z.ltb_spec (sb * 256 + vt_val tb) (sa * 256 + vt_val ta)),
      (Z.ltb_spec (sa * 256 + vt_val ta) (sb * 256 + vt_val tb)); try lia; (split_and!; split; intros; try lia;
      try (right; split; [done|lia]); destruct_or?; lia).
  - assert (ka <> kb) by (by intros ->; apply E0, cmp_refl). split_and!.
    + split; [by left|]. intros [?|[? _]]; done.
    + split; [done|]. by intros [= -> _].
    + rewrite <- O'. split; [by left|]. intros [?|[? _]]; [done|congruence].
Qed.

Lemma internal_key_order_witness : exists r,
  ikc_Compare lexical (AppendInternalKey [] (PIK (lit "k") 5 kTypeValue)) (AppendInternalKey [] (PIK (lit "k") 4 kTypeValue)) = Ok r /\
  (r < 0 <-> key_before lexical (PIK (lit "k") 5 kTypeValue) (PIK (lit "k") 4 kTypeValue)) /\
  (r = 0 <-> PIK (lit "k") 5 kTypeValue = PIK (lit "k") 4 kTypeValue) /\
  (0 < r <-> key_before lexical (PIK (lit "k") 4 kTypeValue) (PIK (lit "k") 5 kTypeValue)).
Proof.
  apply (internal_key_order lexical lexical_laws (PIK (lit "k") 5 kTypeValue) (PIK (lit "k") 4 kTypeValue));
    try done; unfold good_seq; rewrite max_seq; cbn; lia.
Defined.

(** ** Shortened internal keys *)

(** What [Comparator::FindShortestSeparator] promises: a string in
    [[start, limit)], and nothing for equal keys. *)
Class Separators (uc : comparator) (sep : bytes -> bytes -> bytes) : Prop := {
  sep_dom a b : dom uc a = true -> dom uc b = true -> cmp uc a b < 0 -> dom uc (sep a b) = true;
  sep_below a b : dom uc a = true -> dom uc b = true -> cmp uc a b < 0 -> cmp uc (sep a b) b < 0;
  sep_equal a : sep a a = a
}.

#[export] Instance bw_separators : Separators lexical bw_FindShortestSeparator.
Proof.
  split; [done| |].
  - intros a b _ _ Hlt. by apply (short_sep_ok a b).
  - intros a. induction a as [|x a IH]; [done|]. by rewrite sep_same, IH.
Qed.

(** Numeric keys are not shortened. *)
Lemma keep_separators uc : Separators uc (fun start _ => start).
Proof. by split. Qed.

(** A shortened internal key stays between the keys it separates: at or
    above [start] and below [limit] in the order of internal keys. *)
Theorem internal_separator_between uc (UL : CmpLaws uc) sep (SL : Separators uc sep) start limit :
  dom (internal_comparator uc) start = true -> dom (internal_comparator uc) limit = true ->
  cmp (internal_comparator uc) start limit < 0 ->
  exists tmp, ikc_FindShortestSeparator uc sep start limit = Ok tmp /\ dom (internal_comparator uc) tmp = true /\
    cmp (internal_comparator uc) start tmp <= 0 /\ cmp (internal_comparator uc) tmp limit < 0 /\ (length tmp <= length start)%nat.
Proof.
  intros Ds Dl Hlt. pose proof Ds as [Ls Us]%internal_dom. pose proof Dl as [Ll Ul]%internal_dom.
  unfold ikc_FindShortestSeparator, ExtractUserKey. rewrite !(proj2 (Nat.leb_le _ _)) by done. cbn [mbind res_bind].
  eexists. split; [reflexivity|].
  change (take (length start - 8) start) with (fst (split_key start)).
  change (take (length limit - 8) limit) with (fst (split_key limit)).
  destruct ((_ <? _)%nat && _) eqn:Hc; [|split; [done|]; split; [rewrite (cmp_refl (internal_comparator uc)) by done; lia|done]].
  apply andb_true_iff in Hc as [Hlen%Nat.ltb_lt Hst%Z.ltb_lt].
  rewrite (internal_cmp uc start limit) in Hlt by done. unfold PutFixed64.
  set (tmp := sep (fst (split_key start)) (fst (split_key limit))) in *.
  destruct (split_tagged kMaxSequenceNumber kValueTypeForSeek tmp) as [St Lt]; [unfold good_seq; rewrite max_seq; lia|].
  destruct (Z.eqb_spec (cmp uc (fst (split_key start)) (fst (split_key limit))) 0) as [E|E].
  { apply cmp_eq in E; [|done|done]. subst tmp. rewrite E, sep_equal in Hlen. lia. }
  assert (dom uc tmp = true) as Dt by (by apply sep_dom).
  assert (dom (internal_comparator uc) (tmp ++ EncodeFixed64 true (PackSequenceAndType kMaxSequenceNumber kValueTypeForSeek)) = true)
    as Dt' by (apply internal_dom; by rewrite St).
  rewrite !internal_cmp by done. rewrite St. cbn [fst snd].
  assert (cmp uc tmp (fst (split_key limit)) < 0) by (by apply sep_below).
  rewrite !(proj2 (Z.eqb_neq _ 0)) by lia. split; [done|]. split; [lia|]. split; [done|].
  rewrite length_app, encode64_le, length_le_split. cbn [fst split_key] in Hlen. rewrite length_take in Hlen. lia.
Qed.

(** What [Comparator::FindShortSuccessor] promises. *)
Class Successors (uc : comparator) (succ : bytes -> bytes) : Prop :=
  succ_dom a : dom uc a = true -> dom uc (succ a) = true.

#[export] Instance bw_successors : Successors lexical bw_FindShortSuccessor.
Proof. done. Qed.

(** The short successor of an internal key is not before it. *)
Lemma internal_successor_after uc (UL : CmpLaws uc) succ (SL : Successors uc succ) key : dom (internal_comparator uc) key = true ->
  exists tmp, ikc_FindShortSuccessor uc succ key = Ok tmp /\ dom (internal_comparator uc) tmp = true /\
    cmp (internal_comparator uc) key tmp <= 0 /\ (length tmp <= length key)%nat.
Proof.
  intros Dk. pose proof Dk as [Lk Uk]%internal_dom. unfold ikc_FindShortSuccessor, ExtractUserKey. rewrite (proj2 (Nat.leb_le _ _)) by done. cbn [mbind res_bind].
  eexists. split; [reflexivity|]. change (take (length key - 8) key) with (fst (split_key key)).
  destruct ((_ <? _)%nat && _) eqn:Hc; [|split; [done|]; split; [rewrite (cmp_refl (internal_comparator uc)) by done; lia|done]].
  apply andb_true_iff in Hc as [Hlen%Nat.ltb_lt Hst%Z.ltb_lt]. unfold PutFixed64. set (tmp := succ (fst (split_key key))) in *.
  destruct (split_tagged kMaxSequenceNumber kValueTypeForSeek tmp) as [St Lt]; [unfold good_seq; rewrite max_seq; lia|].
  assert (dom (internal_comparator uc) (tmp ++ EncodeFixed64 true (PackSequenceAndType kMaxSequenceNumber kValueTypeForSeek)) = true)
    as Dt' by (apply internal_dom; rewrite St; split; [done|]; cbn [fst]; unfold tmp; by apply (succ_dom (succ := succ))).
  split; [done|]. rewrite internal_cmp by done. rewrite St. cbn [fst snd]. rewrite (proj2 (Z.eqb_neq _ 0)) by lia. split; [lia|].
  rewrite length_app, encode64_le, length_le_split. cbn [fst split_key] in Hlen. rewrite length_take in Hlen. lia.
Qed.

Lemma internal_separator_between_witness : exists tmp,
  ikc_FindShortestSeparator lexical bw_FindShortestSeparator
    (AppendInternalKey [] (PIK (lit "abc") 1 kTypeValue)) (AppendInternalKey [] (PIK (lit "x") 1 kTypeValue)) = Ok tmp /\
  dom (internal_comparator lexical) tmp = true /\
  cmp (internal_comparator lexical) (AppendInternalKey [] (PIK (lit "abc") 1 kTypeValue)) tmp <= 0 /\
  cmp (internal_comparator lexical) tmp (AppendInternalKey [] (PIK (lit "x") 1 kTypeValue)) < 0 /\
  (length tmp <= length (AppendInternalKey [] (PIK (lit "abc") 1 kTypeValue)))%nat.
Proof.
  apply (internal_separator_between lexical lexical_laws bw_FindShortestSeparator bw_separators); by vm_compute.
Defined.

(** ** Lookups *)

(** The key a lookup of a user key at a snapshot seeks to comes before
    exactly the entries of that user key that the snapshot may see, and after
    the newer ones; its parts are where [LookupKey] says they are, and the
    200-byte array on the stack is used only when it is large enough. *)
Theorem lookup_key_seeks uc (UL : CmpLaws uc) k s key :
  good_seq s -> good_seq (sequence key) -> dom uc k = true -> user_key key = k -> Z.of_nat (length k) + 8 < 2 ^ 32 ->
  lk_user_key (lookup_key k s) = k /\
  GetLengthPrefixedSlicePtr (memtable_key (lookup_key k s)) = Some (internal_key (lookup_key k s), []) /\
  (lk_heap (lookup_key k s) = false -> (length (lk_start (lookup_key k s)) <= 200)%nat) /\
  (cmp (internal_comparator uc) (internal_key (lookup_key k s)) (AppendInternalKey [] key) <= 0 <->
   sequence key <= s).
Proof.
  intros Hs Hk Dk Hu Hl. unfold memtable_key, internal_key, lk_user_key, lookup_key. cbn [lk_start lk_kstart lk_heap].
  set (len := EncodeVarint32 _). set (tag := EncodeFixed64 true _).
  assert (length tag = 8%nat) as Ht by (subst tag; by rewrite encode64_le, length_le_split).
  rewrite drop_app_length. split_and!.
  - rewrite !length_app, Ht. replace (length len + (length k + 8) - length len - 8)%nat with (length k) by lia.
    by rewrite take_app_length.
  - unfold GetLengthPrefixedSlicePtr. subst len. rewrite wrap_u_small by lia. rewrite varint32_get by lia.
    rewrite Nat2Z.id, length_app, Ht. rewrite (proj2 (Nat.ltb_ge _ _)) by lia.
    by rewrite take_ge, drop_ge by (rewrite length_app; lia).
  - intros Hh%negb_false_iff%Nat.leb_le. rewrite !length_app, Ht.
    assert (length len <= 5)%nat by (subst len; apply varint32_length; rewrite wrap_u_small; lia). lia.
  - rewrite append_tagged. destruct key as [k' s' t']. cbn [user_key sequence type] in *. subst k'.
    destruct (split_tagged s kValueTypeForSeek k Hs) as [Sa La], (split_tagged s' t' k Hk) as [Sb Lb].
    subst tag. rewrite internal_cmp; [|apply internal_dom; by rewrite Sa|apply internal_dom; by rewrite Sb].
    rewrite Sa, Sb. cbn [fst snd].
    rewrite cmp_refl by done. cbn [Z.eqb]. assert (0 <= vt_val t' <= 1) by (by destruct t'). cbn [vt_val kValueTypeForSeek].
    destruct (Z.ltb_spec (s' * 256 + vt_val t') (s * 256 + 1)), (Z.ltb_spec (s * 256 + 1) (s' * 256 + vt_val t')); lia.
Qed.

Lemma lookup_key_seeks_witness :
  lk_user_key (lookup_key (lit "k") 5) = lit "k" /\
  GetLengthPrefixedSlicePtr (memtable_key (lookup_key (lit "k") 5)) = Some (internal_key (lookup_key (lit "k") 5), []) /\
  (lk_heap (lookup_key (lit "k") 5) = false -> (length (lk_start (lookup_key (lit "k") 5)) <= 200)%nat) /\
  (cmp (internal_comparator lexical) (internal_key (lookup_key (lit "k") 5))
     (AppendInternalKey [] (PIK (lit "k") 4 kTypeDeletion)) <= 0 <-> 4 <= 5).
Proof.
  apply (lookup_key_seeks lexical lexical_laws (lit "k") 5 (PIK (lit "k") 4 kTypeDeletion));
    try done; unfold good_seq; rewrite ?max_seq; cbn; lia.
Defined.
