(* ===== verification/LvlIterator.v ===== *)
(** * LevelDB's iterators

    src/3rd-party/leveldb/leveldb-1.18/include/leveldb/iterator.h,
    table/iterator.cc, table/iterator_wrapper.h and table/two_level_iterator.cc:
    the interface every iterator of the engine implements, the empty iterator, the
    wrapper that remembers the key, and the iterator over the blocks an index
    names.  An operation may change a state [W] that iterators share, such as the
    cache of blocks. *)
From S2P Require Import Prelude LvlCoding LvlBase LvlBlock Store.

(** ** The interface *)
Class Iterator (W I : Type) := {
  i_Valid : I -> bool;
  i_SeekToFirst : I -> W -> res (I * W);
  i_SeekToLast : I -> W -> res (I * W);
  i_Seek : bytes -> I -> W -> res (I * W);
  i_Next : I -> W -> res (I * W);
  i_Prev : I -> W -> res (I * W);
  i_key : I -> bytes;
  i_value : I -> res bytes;
  i_status : I -> Status
}.

(** ** Empty iterators *)
Record EmptyIterator := MkEmpty { ei_status : Status }.

Definition NewEmptyIterator : EmptyIterator := MkEmpty status_OK.
Definition NewErrorIterator (status : Status) : EmptyIterator := MkEmpty status.

#[export] Instance empty_iterator (W : Type) : Iterator W EmptyIterator := {|
  i_Valid it := false;
  i_SeekToFirst it w := Ok (it, w); i_SeekToLast it w := Ok (it, w); i_Seek t it w := Ok (it, w);
  i_Next it w := Ok (it, w); i_Prev it w := Ok (it, w);
  i_key it := []; i_value it := Ok []; i_status it := ei_status it |}.

(** ** Iterators of blocks

    What [Block::NewIterator] gives: an iterator in the block, or an empty one. *)
Inductive BlockIter := OverBlock (it : Iter) | OverNothing (it : EmptyIterator).

Definition block_iter (r : Status + option Iter) : BlockIter :=
  match r with
  | inl s => OverNothing (NewErrorIterator s)
  | inr None => OverNothing NewEmptyIterator
  | inr (Some it) => OverBlock it
  end.

Section BlockIterator.
Context (kLittleEndian : bool) (comparator_ : comparator) {W : Type}.

Definition in_block (f : Iter -> res Iter) (b : BlockIter) (w : W) : res (BlockIter * W) :=
  match b with OverBlock it => it ← f it; Ok (OverBlock it, w) | OverNothing it => Ok (OverNothing it, w) end.

Definition block_iterator : Iterator W BlockIter := {|
  i_Valid b := match b with OverBlock it => it_Valid it | OverNothing _ => false end;
  i_SeekToFirst := in_block (it_SeekToFirst kLittleEndian);
  i_SeekToLast := in_block (it_SeekToLast kLittleEndian);
  i_Seek t := in_block (it_Seek kLittleEndian comparator_ t);
  i_Next := in_block (it_Next kLittleEndian);
  i_Prev := in_block (it_Prev kLittleEndian);
  i_key b := match b with OverBlock it => it_key it | OverNothing _ => [] end;
  i_value b := match b with OverBlock it => it_value_bytes it | OverNothing _ => Ok [] end;
  i_status b := match b with OverBlock it => it_status it | OverNothing it => ei_status it end |}.
End BlockIterator.

(** ** Wrapped iterators *)
Section Wrapper.
Context {W I : Type} `{!Iterator W I}.

Record IteratorWrapper := MkWrapper { iw_iter : option I; iw_valid : bool; iw_key : bytes }.

Definition iw_Update (x : IteratorWrapper) : res IteratorWrapper :=
  match iw_iter x with
  | None => Ub NullDeref
  | Some it => Ok (MkWrapper (Some it) (i_Valid it) (if i_Valid it then i_key it else iw_key x))
  end.

Definition iw_Set (iter : option I) (x : IteratorWrapper) : res IteratorWrapper :=
  match iter with
  | None => Ok (MkWrapper None false (iw_key x))
  | Some it => iw_Update (MkWrapper (Some it) (iw_valid x) (iw_key x))
  end.

Definition IteratorWrapper_new (iter : option I) : res IteratorWrapper := iw_Set iter (MkWrapper None false []).

Definition iw_do (f : I -> W -> res (I * W)) (x : IteratorWrapper) (w : W) : res (IteratorWrapper * W) :=
  match iw_iter x with
  | None => Ub NullDeref
  | Some it =>
      r ← f it w;
      x ← iw_Update (MkWrapper (Some (fst r)) (iw_valid x) (iw_key x));
      Ok (x, snd r)
  end.

Definition iw_Next := iw_do i_Next.
Definition iw_Prev := iw_do i_Prev.
Definition iw_Seek (k : bytes) := iw_do (i_Seek k).
Definition iw_SeekToFirst := iw_do i_SeekToFirst.
Definition iw_SeekToLast := iw_do i_SeekToLast.

Definition iw_value (x : IteratorWrapper) : res bytes :=
  match iw_iter x with None => Ub NullDeref | Some it => i_value it end.
Definition iw_status (x : IteratorWrapper) : res Status :=
  match iw_iter x with None => Ub NullDeref | Some it => Ok (i_status it) end.
End Wrapper.
Arguments IteratorWrapper I : clear implicits.

(** ** Two levels *)
Section TwoLevel.
Context {W I D : Type} `{!Iterator W I} `{!Iterator W D}.
(** [block_function_] with its [arg_] and [options_], and the rounds of a loop:
    one for every entry of the index is enough. *)
Context (block_function : bytes -> W -> res (D * W)) (rounds : nat).

Record TwoLevelIterator := MkTwoLevel {
  tl_status : Status; tl_index : IteratorWrapper I; tl_data : IteratorWrapper D; tl_handle : bytes }.

Definition NewTwoLevelIterator (index_iter : I) : res TwoLevelIterator :=
  i ← IteratorWrapper_new (W := W) (Some index_iter);
  d ← IteratorWrapper_new (W := W) None;
  Ok (MkTwoLevel status_OK i d []).

Definition SaveError (s : Status) (t : TwoLevelIterator) : TwoLevelIterator :=
  if status_ok (tl_status t) && negb (status_ok s) then MkTwoLevel s (tl_index t) (tl_data t) (tl_handle t) else t.

Definition SetDataIterator (data_iter : option D) (t : TwoLevelIterator) : res TwoLevelIterator :=
  t ← (match iw_iter (tl_data t) with
       | Some _ => s ← iw_status (W := W) (tl_data t); Ok (SaveError s t)
       | None => Ok t
       end);
  d ← iw_Set (W := W) data_iter (tl_data t);
  Ok (MkTwoLevel (tl_status t) (tl_index t) d (tl_handle t)).

Definition InitDataBlock (t : TwoLevelIterator) (w : W) : res (TwoLevelIterator * W) :=
  if negb (iw_valid (tl_index t)) then t ← SetDataIterator None t; Ok (t, w)
  else
    handle ← iw_value (W := W) (tl_index t);
    same ← (match iw_iter (tl_data t) with Some _ => r ← slice_compare handle (tl_handle t); Ok (r =? 0) | None => Ok false end);
    if (same : bool) then Ok (t, w)
    else
      r ← block_function handle w;
      t ← SetDataIterator (Some (fst r)) (MkTwoLevel (tl_status t) (tl_index t) (tl_data t) handle);
      Ok (t, snd r).

Definition on_index (f : IteratorWrapper I -> W -> res (IteratorWrapper I * W)) (t : TwoLevelIterator) (w : W) : res (TwoLevelIterator * W) :=
  r ← f (tl_index t) w; Ok (MkTwoLevel (tl_status t) (fst r) (tl_data t) (tl_handle t), snd r).

Definition on_data (f : IteratorWrapper D -> W -> res (IteratorWrapper D * W)) (t : TwoLevelIterator) (w : W) : res (TwoLevelIterator * W) :=
  r ← f (tl_data t) w; Ok (MkTwoLevel (tl_status t) (tl_index t) (fst r) (tl_handle t), snd r).

(** [if (data_iter_.iter() != NULL) ...] *)
Definition if_data (f : IteratorWrapper D -> W -> res (IteratorWrapper D * W)) (t : TwoLevelIterator) (w : W) : res (TwoLevelIterator * W) :=
  match iw_iter (tl_data t) with Some _ => on_data f t w | None => Ok (t, w) end.

(** The two loops over data blocks that are used up, with the move of the index
    and the end the next block is entered from. *)
Fixpoint skip_empty (n : nat) (step : IteratorWrapper I -> W -> res (IteratorWrapper I * W))
    (enter : IteratorWrapper D -> W -> res (IteratorWrapper D * W)) (t : TwoLevelIterator) (w : W) : res (TwoLevelIterator * W) :=
  match n with
  | O => Ok (t, w)
  | S n' =>
      if bool_decide (iw_iter (tl_data t) = None) || negb (iw_valid (tl_data t)) then
        if negb (iw_valid (tl_index t)) then t ← SetDataIterator None t; Ok (t, w)
        else
          '(t, w) ← on_index step t w;
          '(t, w) ← InitDataBlock t w;
          '(t, w) ← if_data enter t w;
          skip_empty n' step enter t w
      else Ok (t, w)
  end.

Definition SkipEmptyDataBlocksForward := skip_empty rounds iw_Next iw_SeekToFirst.
Definition SkipEmptyDataBlocksBackward := skip_empty rounds iw_Prev iw_SeekToLast.

Definition tl_Seek (target : bytes) (t : TwoLevelIterator) (w : W) : res (TwoLevelIterator * W) :=
  '(t, w) ← on_index (iw_Seek target) t w;
  '(t, w) ← InitDataBlock t w;
  '(t, w) ← if_data (iw_Seek target) t w;
  SkipEmptyDataBlocksForward t w.

Definition tl_SeekToFirst (t : TwoLevelIterator) (w : W) : res (TwoLevelIterator * W) :=
  '(t, w) ← on_index iw_SeekToFirst t w;
  '(t, w) ← InitDataBlock t w;
  '(t, w) ← if_data iw_SeekToFirst t w;
  SkipEmptyDataBlocksForward t w.

Definition tl_SeekToLast (t : TwoLevelIterator) (w : W) : res (TwoLevelIterator * W) :=
  '(t, w) ← on_index iw_SeekToLast t w;
  '(t, w) ← InitDataBlock t w;
  '(t, w) ← if_data iw_SeekToLast t w;
  SkipEmptyDataBlocksBackward t w.

Definition tl_Next (t : TwoLevelIterator) (w : W) : res (TwoLevelIterator * W) :=
  '(t, w) ← on_data iw_Next t w; SkipEmptyDataBlocksForward t w.

Definition tl_Prev (t : TwoLevelIterator) (w : W) : res (TwoLevelIterator * W) :=
  '(t, w) ← on_data iw_Prev t w; SkipEmptyDataBlocksBackward t w.

Definition tl_get_status (t : TwoLevelIterator) : Status :=
  match iw_iter (tl_index t) with
  | Some i => if negb (status_ok (i_status i)) then i_status i
              else match iw_iter (tl_data t) with
                   | Some d => if negb (status_ok (i_status d)) then i_status d else tl_status t
                   | None => tl_status t
                   end
  | None => tl_status t
  end.

Definition two_level_iterator : Iterator W TwoLevelIterator := {|
  i_Valid t := iw_valid (tl_data t);
  i_SeekToFirst := tl_SeekToFirst; i_SeekToLast := tl_SeekToLast; i_Seek := tl_Seek; i_Next := tl_Next; i_Prev := tl_Prev;
  i_key t := iw_key (tl_data t); i_value t := iw_value (W := W) (tl_data t); i_status := tl_get_status |}.
End TwoLevel.
Arguments TwoLevelIterator I D : clear implicits.
