(* ===== verification/LvlIteratorSpec.v ===== *)
(** * Iterators as cursors

    What an iterator promises: it is at a place in a list of entries, or at none,
    and its operations move the place.  The iterator of a block keeps the promise
    for its entries, and the iterator over the blocks an index names keeps it for
    the entries of all of them when the index and the blocks do. *)
From S2P Require Import Prelude Store LvlCoding LvlBase LvlBlock LvlBlockSpec LvlIterator.

(** ** The promise *)
Section Cursor.
Context (uc : comparator) {W : Type} (okw : W -> Prop).

(** A step that ends in a place where [Q] holds. *)
Definition steps {A} (f : W -> res (A * W)) (Q : A -> Prop) : Prop :=
  forall w, okw w -> exists a w', f w = Ok (a, w') /\ okw w' /\ Q a.

Record is_cursor {I} {IT : Iterator W I} (R : nat -> I -> Prop) (es : entries) : Prop := {
  cur_valid p it : R p it -> i_Valid it = bool_decide (p < length es)%nat;
  cur_at p it x : R p it -> es !! p = Some x -> i_key it = fst x /\ i_value it = Ok (snd x);
  cur_status p it : R p it -> i_status it = status_OK;
  cur_first p it : R p it -> steps (i_SeekToFirst it) (R 0%nat);
  cur_last p it : R p it -> steps (i_SeekToLast it) (R (length es - 1)%nat);
  cur_seek p it t : R p it -> dom uc t = true -> steps (i_Seek t it) (R (lower_bound uc t es));
  cur_next p it : R p it -> (p < length es)%nat -> steps (i_Next it) (R (S p));
  cur_prev p it : R p it -> (p < length es)%nat -> steps (i_Prev it) (R (match p with O => length es | S q => q end))
}.

Lemma steps_mono {A} (f : W -> res (A * W)) (P Q : A -> Prop) : steps f P -> (forall a, P a -> Q a) -> steps f Q.
Proof. intros Hf HPQ w Hw. destruct (Hf w Hw) as (a & w' & E & Hw' & Ha). exists a, w'. auto. Qed.

Lemma steps_bind {A B} (f : W -> res (A * W)) (g : A -> W -> res (B * W)) (P : A -> Prop) (Q : B -> Prop) :
  steps f P -> (forall a, P a -> steps (g a) Q) -> steps (fun w => '(a, w) ← f w; g a w) Q.
Proof.
  intros Hf Hg w Hw. destruct (Hf w Hw) as (a & w1 & -> & Hw1 & Ha). cbn [mbind res_bind]. exact (Hg a Ha w1 Hw1).
Qed.

Lemma steps_ret {A} (a : A) (Q : A -> Prop) : Q a -> steps (fun w => Ok (a, w)) Q.
Proof. intros Ha w Hw. by exists a, w. Qed.

(** ** Sequences of calls *)
Section Run.
Context {I} {IT : Iterator W I}.

Definition exec_iop (o : bop) (it : I) : W -> res (I * W) :=
  match o with
  | BFirst => i_SeekToFirst it
  | BLast => i_SeekToLast it
  | BNext => i_Next it
  | BPrev => i_Prev it
  | BSeek t => i_Seek t it
  end.

Definition i_observe (it : I) : res (option (bytes * bytes)) :=
  if i_Valid it then v ← i_value it; Ok (Some (i_key it, v)) else Ok None.

Fixpoint run_iops (l : list bop) (it : I) (w : W) : res (list (option (bytes * bytes)) * I * W) :=
  match l with
  | [] => Ok ([], it, w)
  | o :: l' => '(it, w) ← exec_iop o it w; x ← i_observe it; '(xs, it, w) ← run_iops l' it w; Ok (x :: xs, it, w)
  end.

Context (R : nat -> I -> Prop) (es : entries) (HC : is_cursor R es).

Lemma cursor_step o p it : R p it -> bops_ok uc es [o] p -> steps (exec_iop o it) (R (spec_bop uc es o p)).
Proof.
  intros HR [Ho _]. destruct o; cbn [exec_iop spec_bop].
  - by apply (cur_first _ _ HC p).
  - by apply (cur_last _ _ HC p).
  - by apply (cur_next _ _ HC p).
  - by apply (cur_prev _ _ HC p).
  - by apply (cur_seek _ _ HC p).
Qed.

Lemma cursor_observe p it : R p it -> i_observe it = Ok (es !! p).
Proof.
  intros HR. unfold i_observe. rewrite (cur_valid _ _ HC p it HR). destruct (es !! p) as [x|] eqn:Hx.
  - rewrite bool_decide_eq_true_2 by (by apply lookup_lt_Some in Hx). destruct (cur_at _ _ HC p it x HR Hx) as [-> ->]. by destruct x.
  - rewrite bool_decide_eq_false_2; [done|]. apply lookup_ge_None in Hx. lia.
Qed.

Lemma cursor_run l : forall p it w, R p it -> okw w -> bops_ok uc es l p -> exists it' w',
  run_iops l it w = Ok (spec_bops uc es l p, it', w') /\ okw w' /\ i_status it' = status_OK.
Proof.
  induction l as [|o l IH]; intros p it w HR Hw Hl; cbn [run_iops spec_bops].
  - exists it, w. split_and!; [done|done|]. by apply (cur_status _ _ HC p).
  - destruct Hl as [Ho Hl]. destruct (cursor_step o p it HR (conj Ho Logic.I) w Hw) as (it1 & w1 & E & Hw1 & HR1).
    rewrite E. cbn [mbind res_bind]. rewrite (cursor_observe _ _ HR1). cbn [mbind res_bind].
    destruct (IH _ it1 w1 HR1 Hw1 Hl) as (it' & w' & -> & Hw' & Hs). by exists it', w'.
Qed.
End Run.

(** Places that belong to one of several cursors. *)
Lemma cursor_union {I} {IT : Iterator W I} (R : nat -> I -> Prop) es :
  (forall p it, R p it -> exists R', is_cursor R' es /\ R' p it /\ forall q it', R' q it' -> R q it') -> is_cursor R es.
Proof.
  intros H. split; intros p it.
  1-3: intros; destruct (H p it) as (R' & HC & HR & _); [done|]; by eauto using cur_valid, cur_at, cur_status.
  1-2: intros HR0; destruct (H p it HR0) as (R' & HC & HR & HI); eapply steps_mono; [|apply HI]; by eauto using cur_first, cur_last.
  - intros t HR0 Ht. destruct (H p it HR0) as (R' & HC & HR & HI). eapply steps_mono; [|apply HI]. by eapply cur_seek.
  - intros HR0 Hp. destruct (H p it HR0) as (R' & HC & HR & HI). eapply steps_mono; [|apply HI]. by eapply cur_next.
  - intros HR0 Hp. destruct (H p it HR0) as (R' & HC & HR & HI). eapply steps_mono; [|apply HI]. by eapply cur_prev.
Qed.

(** ** Blocks *)
Lemma block_cursor e cs R {UL : CmpLaws uc} : wf_cells [] cs -> wf_restarts cs R -> Z.of_nat (length (block_bytes cs R)) < 2 ^ 32 ->
  (forall i c, cs !! i = Some c -> dom uc (c_key c) = true) ->
  (forall i j c d, cs !! i = Some c -> cs !! j = Some d -> (i < j)%nat -> cmp uc (c_key c) (c_key d) < 0) ->
  is_cursor (IT := block_iterator e uc) (fun p b => exists it, b = OverBlock it /\ pos cs R p it) (entry_of <$> cs).
Proof.
  intros Hwf HR Hsz Hdom Hs.
  assert (HX : forall o p it f, pos cs R p it -> bops_ok uc (entry_of <$> cs) [o] p -> exec_bop e uc o it = f it ->
    steps (in_block f (OverBlock it)) (fun b => exists it, b = OverBlock it /\ pos cs R (spec_bop uc (entry_of <$> cs) o p) it)).
  { intros o p it f Hp Ho Ef w Hw. destruct (exec_bop_ok e uc cs R Hwf HR Hsz (UL := UL) Hdom Hs o p it Hp Ho) as (it' & E & Hp').
    unfold in_block. rewrite <- Ef, E. cbn [mbind res_bind]. exists (OverBlock it'), w. split_and!; [done|done|by exists it']. }
  assert (HO : forall p it, pos cs R p it -> observe it = Ok ((entry_of <$> cs) !! p)) by (intros p it; by apply (observe_pos cs R Hwf)).
  split; intros p b; cbn.
  - intros (it & -> & Hp). specialize (HO p it Hp). unfold observe in HO. destruct (it_Valid it).
    + rewrite bool_decide_eq_true_2; [done|]. destruct (it_value_bytes it); [|done]. cbn in HO. apply lookup_lt_is_Some_1. injection HO as <-. by eexists.
    + rewrite bool_decide_eq_false_2; [done|]. injection HO as HO. symmetry in HO. apply lookup_ge_None in HO. lia.
  - intros x (it & -> & Hp) Hx. specialize (HO p it Hp). unfold observe in HO. rewrite Hx in HO. destruct (it_Valid it); [|done].
    destruct (it_value_bytes it) as [v|]; [|done]. cbn in HO. by injection HO as <-.
  - intros (it & -> & Hp). by destruct (pos_over cs R p it Hp) as (_ & _ & _ & ->).
  - intros (it & -> & Hp). by apply (HX BFirst p).
  - intros (it & -> & Hp). by apply (HX BLast p).
  - intros t (it & -> & Hp) Ht. by apply (HX (BSeek t) p).
  - intros (it & -> & Hp) Hlt. by apply (HX BNext p).
  - intros (it & -> & Hp) Hlt. by apply (HX BPrev p).
Qed.
End Cursor.

(** ** Wrapped cursors *)
Section Wrapped.
Context (uc : comparator) {W I : Type} {IT : Iterator W I} (okw : W -> Prop) (R : nat -> I -> Prop) (es : entries) (HC : is_cursor uc okw R es).

Definition wrapped (p : nat) (x : IteratorWrapper I) : Prop :=
  exists it k, x = MkWrapper (Some it) (i_Valid it) k /\ R p it /\ (i_Valid it = true -> k = i_key it).

Lemma wrap_update p it v k : R p it -> exists x, iw_Update (MkWrapper (Some it) v k) = Ok x /\ wrapped p x.
Proof. intros HR. eexists. split; [done|]. exists it, (if i_Valid it then i_key it else k). split; [done|]. split; [done|]. by intros ->. Qed.

Lemma wrap_valid p x : wrapped p x -> iw_valid x = bool_decide (p < length es)%nat.
Proof. intros (it & k & -> & HR & _). exact (cur_valid _ _ _ _ HC p it HR). Qed.

Lemma wrap_some p x : wrapped p x -> exists it, iw_iter x = Some it.
Proof. intros (it & k & -> & _). by eexists. Qed.

Lemma wrap_at p x y : wrapped p x -> es !! p = Some y -> iw_key x = fst y /\ iw_value (W := W) x = Ok (snd y).
Proof.
  intros (it & k & -> & HR & Hk) Hy. destruct (cur_at _ _ _ _ HC p it y HR Hy) as [E1 E2]. cbn. rewrite Hk; [done|].
  rewrite (cur_valid _ _ _ _ HC p it HR). apply bool_decide_eq_true_2. by apply lookup_lt_Some in Hy.
Qed.

Lemma wrap_status p x : wrapped p x -> iw_status (W := W) x = Ok status_OK.
Proof. intros (it & k & -> & HR & _). cbn. by rewrite (cur_status _ _ _ _ HC p it HR). Qed.

Lemma wrap_do f p q x : wrapped p x -> (forall it, R p it -> steps okw (f it) (R q)) -> steps okw (iw_do f x) (wrapped q).
Proof.
  intros (it & k & -> & HR & _) Hf w Hw. destruct (Hf it HR w Hw) as (it' & w' & E & Hw' & HR'). unfold iw_do. cbn [iw_iter iw_valid iw_key].
  rewrite E. cbn [mbind res_bind fst snd]. destruct (wrap_update q it' (i_Valid it) k HR') as (x & -> & Hx). cbn [mbind res_bind]. by exists x, w'.
Qed.

Lemma wrap_first p x : wrapped p x -> steps okw (iw_SeekToFirst x) (wrapped 0).
Proof. intros Hx. apply (wrap_do _ p); [done|]. intros it. apply (cur_first _ _ _ _ HC). Qed.
Lemma wrap_last p x : wrapped p x -> steps okw (iw_SeekToLast x) (wrapped (length es - 1)).
Proof. intros Hx. apply (wrap_do _ p); [done|]. intros it. apply (cur_last _ _ _ _ HC). Qed.
Lemma wrap_seek p x t : wrapped p x -> dom uc t = true -> steps okw (iw_Seek t x) (wrapped (lower_bound uc t es)).
Proof. intros Hx Ht. apply (wrap_do _ p); [done|]. intros it HR. by apply (cur_seek _ _ _ _ HC p). Qed.
Lemma wrap_next p x : wrapped p x -> (p < length es)%nat -> steps okw (iw_Next x) (wrapped (S p)).
Proof. intros Hx Hp. apply (wrap_do _ p); [done|]. intros it HR. by apply (cur_next _ _ _ _ HC p). Qed.
Lemma wrap_prev p x : wrapped p x -> (p < length es)%nat -> steps okw (iw_Prev x) (wrapped (match p with O => length es | S q => q end)).
Proof. intros Hx Hp. apply (wrap_do _ p); [done|]. intros it HR. by apply (cur_prev _ _ _ _ HC p). Qed.
End Wrapped.

(** ** Lower bounds *)
Section Lower.
Context (uc : comparator).

Lemma lower_app_low t l1 l2 : (forall y, y ∈ l1 -> cmp uc (fst y) t < 0) -> lower_bound uc t (l1 ++ l2) = (length l1 + lower_bound uc t l2)%nat.
Proof.
  induction l1 as [|y l1 IH]; intros Hl; [done|]. cbn [app lower_bound length]. rewrite (proj2 (Z.leb_gt _ _)) by (apply Hl; set_solver).
  rewrite IH; [done|]. intros z Hz. apply Hl. set_solver.
Qed.

Lemma lower_app_high t l1 l2 : (forall y, y ∈ l2 -> 0 <= cmp uc (fst y) t) -> lower_bound uc t (l1 ++ l2) = lower_bound uc t l1.
Proof.
  intros Hl. induction l1 as [|y l1 IH]; cbn [app lower_bound]; [|by rewrite IH]. destruct l2 as [|z l2]; [done|]. cbn [lower_bound].
  by rewrite (proj2 (Z.leb_le _ _)) by (apply Hl; set_solver).
Qed.

Lemma lower_le t l : (lower_bound uc t l <= length l)%nat.
Proof. induction l as [|y l IH]; cbn; [lia|]. case_match; lia. Qed.

Lemma lower_below t l i y : (i < lower_bound uc t l)%nat -> l !! i = Some y -> cmp uc (fst y) t < 0.
Proof.
  revert i. induction l as [|z l IH]; intros i; cbn [lower_bound]; [lia|]. destruct (Z.leb_spec 0 (cmp uc (fst z) t)); [lia|]. destruct i as [|i]; cbn.
  - by intros _ [= <-].
  - intros Hi Hy. apply (IH i); [lia|done].
Qed.

Lemma lower_found t l y : l !! lower_bound uc t l = Some y -> 0 <= cmp uc (fst y) t.
Proof. induction l as [|z l IH]; cbn [lower_bound]; [done|]. destruct (Z.leb_spec 0 (cmp uc (fst z) t)); [by intros [= <-]|done]. Qed.

End Lower.

(** ** Two levels *)
Section TwoLevel.
Context (uc : comparator) {UL : CmpLaws uc} {W I D : Type} {IT : Iterator W I} {DT : Iterator W D} (okw : W -> Prop).
Context (block_function : bytes -> W -> res (D * W)) (rounds : nat).

(** The index, whose values name the blocks, and the entries of each block. *)
Context (idx : entries) (B : list entries) (RI : nat -> I -> Prop) (RD : nat -> nat -> D -> Prop).

(** The place of the entry [q] of the block [i]. *)
Definition at_block (i : nat) : nat := length (concat (take i B)).

Lemma at_block_S i b : B !! i = Some b -> at_block (S i) = (at_block i + length b)%nat.
Proof. intros Hb. unfold at_block. rewrite (take_S_r _ _ _ Hb), concat_app, length_app. cbn. by rewrite app_nil_r. Qed.

Lemma at_block_end i : (length B <= i)%nat -> at_block i = length (concat B).
Proof. intros Hi. unfold at_block. by rewrite take_ge. Qed.

Lemma concat_at i b q : B !! i = Some b -> (q < length b)%nat -> concat B !! (at_block i + q)%nat = b !! q.
Proof.
  intros Hb Hq. unfold at_block.
  assert (E : concat B = concat (take i B) ++ b ++ concat (drop (S i) B)) by (rewrite <- (take_drop_middle B i b Hb) at 1; by rewrite concat_app).
  rewrite E, lookup_app_r, lookup_app_l by lia. f_equal. lia.
Qed.

Lemma at_block_in i b q : B !! i = Some b -> (q < length b)%nat -> (at_block i + q < length (concat B))%nat.
Proof. intros Hb Hq. apply lookup_lt_is_Some_1. rewrite (concat_at i b q Hb Hq). by apply lookup_lt_is_Some_2. Qed.

Hypothesis Hlen : length idx = length B.
Hypothesis Hidx : is_cursor uc okw RI idx.
Hypothesis Hdata : forall i b, B !! i = Some b -> is_cursor uc okw (RD i) b.
Hypothesis Hopen : forall i x, idx !! i = Some x -> steps okw (block_function (snd x)) (fun d => exists q, RD i q d).
Hypothesis Hnames : forall i j x y, idx !! i = Some x -> idx !! j = Some y -> snd x = snd y -> i = j.

Definition no_data (x : IteratorWrapper D) : Prop := iw_iter x = None /\ iw_valid x = false.

(** The index is at [i], and the data iterator at [q] in that block. *)
Definition tl_at (i q : nat) (t : TwoLevelIterator I D) : Prop :=
  tl_status t = status_OK /\ wrapped RI i (tl_index t) /\
  match idx !! i with Some x => wrapped (RD i) q (tl_data t) /\ tl_handle t = snd x | None => no_data (tl_data t) end.

(** The index has moved, and the data iterator is still where it was. *)
Definition tl_moved (i : nat) (t : TwoLevelIterator I D) : Prop :=
  tl_status t = status_OK /\ wrapped RI i (tl_index t) /\
  (no_data (tl_data t) \/ exists j x q, idx !! j = Some x /\ wrapped (RD j) q (tl_data t) /\ tl_handle t = snd x).

Lemma block_of i x : idx !! i = Some x -> exists b, B !! i = Some b.
Proof. intros Hx. apply lookup_lt_is_Some_2. rewrite <- Hlen. by eapply lookup_lt_Some. Qed.

Lemma tl_at_moved i q t : tl_at i q t -> tl_moved i t.
Proof.
  intros (H1 & H2 & H3). split; [done|]. split; [done|]. destruct (idx !! i) as [x|] eqn:Hx; [|by left]. right. exists i, x, q. naive_solver.
Qed.

Lemma index_move f i j t : tl_moved i t -> (forall x, wrapped RI i x -> steps okw (f x) (wrapped RI j)) -> steps okw (on_index f t) (tl_moved j).
Proof.
  intros (H1 & H2 & H3) Hf w Hw. destruct (Hf _ H2 w Hw) as (x & w' & E & Hw' & Hx). unfold on_index. rewrite E. cbn [mbind res_bind fst snd].
  do 2 eexists. split; [done|]. split; [done|]. by split_and!.
Qed.

Lemma set_data i d t : tl_moved i t -> forall h, exists x,
  SetDataIterator (W := W) d (MkTwoLevel (tl_status t) (tl_index t) (tl_data t) h) = Ok (MkTwoLevel status_OK (tl_index t) x h) /\
  match d with Some d => forall j q, RD j q d -> wrapped (RD j) q x | None => no_data x end.
Proof.
  intros (H1 & H2 & H3) h. unfold SetDataIterator. rewrite H1. set (t0 := MkTwoLevel _ _ _ _).
  assert (match iw_iter (tl_data t0) with Some _ => s ← iw_status (W := W) (tl_data t0); Ok (SaveError s t0) | None => Ok t0 end = Ok t0) as ->.
  { destruct H3 as [[Hn _]|(j & x & q & Hx & Hw & _)]; cbn [t0 tl_data]; [by rewrite Hn|]. destruct (block_of j x Hx) as [b Hb]. destruct (wrap_some _ _ _ Hw) as [d' ->].
    rewrite (wrap_status uc okw _ _ (Hdata j b Hb) _ _ Hw). done. }
  cbn [mbind res_bind]. destruct d as [d|]; cbn [iw_Set iw_Update iw_iter mbind res_bind iw_valid iw_key]; eexists; (split; [done|]); [|done].
  intros j q HR. eexists d, _. split; [done|]. split; [done|]. by intros ->.
Qed.

Lemma init_ok i t : tl_moved i t -> steps okw (InitDataBlock block_function t) (fun t => exists q, tl_at i q t).
Proof.
  intros Ht w Hw. pose proof Ht as (H1 & H2 & H3). unfold InitDataBlock. rewrite (wrap_valid uc okw _ _ Hidx _ _ H2).
  destruct (idx !! i) as [x|] eqn:Hx.
  - rewrite bool_decide_eq_true_2 by (by apply lookup_lt_Some in Hx). cbn [negb]. destruct (wrap_at uc okw _ _ Hidx _ _ x H2 Hx) as [_ ->]. cbn [mbind res_bind].
    assert (Hfresh : exists t' w', (r ← block_function (snd x) w; t ← SetDataIterator (W := W) (Some (fst r)) (MkTwoLevel (tl_status t) (tl_index t) (tl_data t) (snd x)); Ok (t, snd r)) = Ok (t', w') /\
      okw w' /\ exists q, tl_at i q t').
    { destruct (Hopen i x Hx w Hw) as (d & w' & -> & Hw' & q & Hq). cbn [mbind res_bind fst snd].
      destruct (set_data i (Some d) t Ht (snd x)) as (y & -> & Hy). cbn [mbind res_bind]. do 2 eexists. split; [done|]. split; [done|]. exists q.
      split; [done|]. split; [done|]. rewrite Hx. split; [by apply Hy|done]. }
    destruct H3 as [[Hn _]|(j & y & q & Hy & Hwr & Hh)].
    + rewrite Hn. cbn [mbind res_bind]. exact Hfresh.
    + destruct (wrap_some _ _ _ Hwr) as [d' ->]. destruct (slice_compare_lexical (snd x) (tl_handle t)) as (r & -> & _ & Hr). cbn [mbind res_bind].
      destruct (Z.eqb_spec r 0) as [E|_]; [|exact Hfresh]. apply Hr in E. rewrite Hh in E. assert (j = i) as -> by (symmetry; by eapply Hnames).
      exists t, w. split; [done|]. split; [done|]. exists q. split; [done|]. split; [done|]. rewrite Hx. split; [done|congruence].
  - rewrite bool_decide_eq_false_2 by (apply lookup_ge_None in Hx; lia). cbn [negb]. destruct (set_data i None t Ht (tl_handle t)) as (y & E & Hy).
    replace (MkTwoLevel _ _ _ _) with t in E by (by destruct t). rewrite E. cbn [mbind res_bind]. do 2 eexists. split; [done|]. split; [done|].
    exists 0%nat. split; [done|]. split; [done|]. by rewrite Hx.
Qed.

Lemma enter_ok f i q q' t : tl_at i q t -> (forall b x, B !! i = Some b -> wrapped (RD i) q x -> steps okw (f x) (wrapped (RD i) q')) ->
  steps okw (if_data f t) (tl_at i q').
Proof.
  intros (H1 & H2 & H3) Hf. unfold if_data. destruct (idx !! i) as [x|] eqn:Hx.
  - destruct H3 as [Hw Hh]. destruct (wrap_some _ _ _ Hw) as [d ->]. destruct (block_of i x Hx) as [b Hb]. intros w Hok.
    destruct (Hf b _ Hb Hw w Hok) as (y & w' & E & Hw' & Hy). unfold on_data. rewrite E. cbn [mbind res_bind fst snd]. do 2 eexists. split; [done|]. split; [done|].
    split; [done|]. split; [done|]. by rewrite Hx.
  - destruct H3 as [Hn Hv]. rewrite Hn. apply steps_ret. split; [done|]. split; [done|]. by rewrite Hx.
Qed.

(** The place of a two-level iterator in the entries of all blocks. *)
Definition tl_pos (p : nat) (t : TwoLevelIterator I D) : Prop :=
  (exists i q b, B !! i = Some b /\ (q < length b)%nat /\ p = (at_block i + q)%nat /\ tl_at i q t) \/
  ((length (concat B) <= p)%nat /\ exists i, (length idx <= i)%nat /\ tl_at i 0 t).

Lemma no_block i : B !! i = None -> idx !! i = None.
Proof. rewrite !lookup_ge_None. lia. Qed.

Lemma stop_ok i p t : B !! i = None -> tl_at i 0 t -> (length (concat B) <= p)%nat -> steps okw (fun w => t ← SetDataIterator (W := W) None t; Ok (t, w)) (tl_pos p).
Proof.
  intros Hb Ht Hp w Hw. pose proof (no_block i Hb) as Hx. destruct (set_data i None t (tl_at_moved _ _ _ Ht) (tl_handle t)) as (y & E & Hy).
  replace (MkTwoLevel _ _ _ _) with t in E by (by destruct t). rewrite E. cbn [mbind res_bind]. do 2 eexists. split; [done|]. split; [done|]. right. split; [done|].
  exists i. split; [by apply lookup_ge_None|]. destruct Ht as (_ & H2 & _). split; [done|]. split; [done|]. by rewrite Hx.
Qed.

(** One round of a loop whose data iterator is used up. *)
Lemma round_ok n step enter i j q p t : tl_at i q t -> (i < length idx)%nat -> (forall b, B !! i = Some b -> (length b <= q)%nat) ->
  (forall x, wrapped RI i x -> steps okw (step x) (wrapped RI j)) ->
  (forall t q', tl_at j q' t -> steps okw (fun w => '(t, w) ← if_data enter t w; skip_empty block_function n step enter t w) (tl_pos p)) ->
  steps okw (skip_empty block_function (S n) step enter t) (tl_pos p).
Proof.
  intros Ht Hi Hq Hstep Hrest. pose proof Ht as (H1 & H2 & H3). destruct (lookup_lt_is_Some_2 idx i Hi) as [x Hx]. destruct (block_of i x Hx) as [b Hb].
  rewrite Hx in H3. destruct H3 as [Hd Hh]. cbn [skip_empty]. rewrite (wrap_valid uc okw _ _ (Hdata i b Hb) _ _ Hd). specialize (Hq b Hb).
  rewrite (bool_decide_eq_false_2 (q < length b)%nat), orb_true_r by lia. rewrite (wrap_valid uc okw _ _ Hidx _ _ H2), bool_decide_eq_true_2 by done. cbn [negb].
  apply (steps_bind okw _ (fun t w => '(t, w) ← InitDataBlock block_function t w; '(t, w) ← if_data enter t w; skip_empty block_function n step enter t w) (tl_moved j)).
  - apply (index_move step i); [by apply (tl_at_moved i q)|done].
  - intros t1 Ht1. apply (steps_bind okw _ (fun t w => '(t, w) ← if_data enter t w; skip_empty block_function n step enter t w) (fun t => exists q, tl_at j q t)); [by apply init_ok|].
    intros t2 (q' & Ht2). by apply (Hrest t2 q').
Qed.

(** The loop does nothing while the data iterator is on an entry. *)
Lemma stay_ok n step enter i q b t : tl_at i q t -> B !! i = Some b -> (q < length b)%nat ->
  steps okw (skip_empty block_function (S n) step enter t) (tl_pos (at_block i + q)).
Proof.
  intros Ht Hb Hq. pose proof Ht as (H1 & H2 & H3). assert (is_Some (idx !! i)) as [x Hx] by (apply lookup_lt_is_Some_2; rewrite Hlen; by eapply lookup_lt_Some).
  rewrite Hx in H3. destruct H3 as [Hd Hh]. cbn [skip_empty]. rewrite (wrap_valid uc okw _ _ (Hdata i b Hb) _ _ Hd), (bool_decide_eq_true_2 (q < length b)%nat) by lia.
  destruct (wrap_some _ _ _ Hd) as [d ->]. cbn [negb orb]. rewrite bool_decide_eq_false_2 by done. apply steps_ret. left. by exists i, q, b.
Qed.

Lemma end_ok n step enter i p t : tl_at i 0 t -> B !! i = None -> (length (concat B) <= p)%nat -> steps okw (skip_empty block_function (S n) step enter t) (tl_pos p).
Proof.
  intros Ht Hb Hp. pose proof Ht as (H1 & H2 & H3). pose proof (no_block i Hb) as Hx. rewrite Hx in H3. destruct H3 as [Hn Hv]. cbn [skip_empty].
  rewrite Hn, bool_decide_eq_true_2 by done. cbn [orb]. rewrite (wrap_valid uc okw _ _ Hidx _ _ H2), bool_decide_eq_false_2 by (apply lookup_ge_None in Hx; lia).
  by apply (stop_ok i).
Qed.

Lemma tl_at_none i q q' t : B !! i = None -> tl_at i q t -> tl_at i q' t.
Proof. intros Hb. unfold tl_at. by rewrite (no_block i Hb). Qed.

Lemma forward_ok n : forall i q t, tl_at i q t -> (i <= length idx < n + i)%nat -> (match B !! i with Some b => (q <= length b)%nat | None => q = 0%nat end) ->
  steps okw (skip_empty block_function n iw_Next iw_SeekToFirst t) (tl_pos (at_block i + q)).
Proof.
  induction n as [|n IH]; intros i q t Ht Hn Hq; [lia|]. destruct (B !! i) as [b|] eqn:Hb.
  - destruct (decide (q < length b)%nat); [by apply (stay_ok n _ _ i q b)|]. assert (Hi : (i < length idx)%nat) by (rewrite Hlen; by eapply lookup_lt_Some).
    replace (at_block i + q)%nat with (at_block (S i) + 0)%nat by (rewrite (at_block_S i b Hb); lia).
    apply (round_ok n _ _ i (S i) q); [done|done|intros b' Hb'; assert (b' = b) as -> by congruence; lia| |].
    + intros x Hx. by apply (wrap_next uc okw _ _ Hidx).
    + intros t' q' Ht'. apply (steps_bind okw _ (skip_empty block_function n iw_Next iw_SeekToFirst) (tl_at (S i) 0)).
      * apply (enter_ok _ (S i) q'); [done|]. intros b' x Hb' Hx. by apply (wrap_first uc okw _ _ (Hdata _ _ Hb') q').
      * intros t2 Ht2. apply IH; [done|lia|]. case_match; [lia|done].
  - subst q. apply (end_ok n _ _ i); [done|done|]. apply lookup_ge_None in Hb. rewrite at_block_end by done. lia.
Qed.

Definition before_place (p : nat) : nat := match p with O => length (concat B) | S q => q end.

Lemma backward_ok n : forall i q b t, tl_at i q t -> B !! i = Some b -> (i + 1 < n)%nat ->
  steps okw (skip_empty block_function n iw_Prev iw_SeekToLast t)
    (tl_pos (if decide (q < length b)%nat then at_block i + q else before_place (at_block i))).
Proof.
  induction n as [|n IH]; intros i q b t Ht Hb Hn; [lia|]. case_decide as Hq; [by apply (stay_ok n _ _ i q b)|].
  assert (Hi : (i < length idx)%nat) by (rewrite Hlen; by eapply lookup_lt_Some).
  apply (round_ok n _ _ i (match i with O => length idx | S j => j end) q); [done|done|intros b' Hb'; assert (b' = b) as -> by congruence; lia| |].
  - intros x Hx. by apply (wrap_prev uc okw _ _ Hidx).
  - intros t' q' Ht'. apply (steps_bind okw _ (skip_empty block_function n iw_Prev iw_SeekToLast)
      (tl_at (match i with O => length idx | S j => j end) (match B !! (match i with O => length idx | S j => j end) with Some b => length b - 1 | None => 0 end))).
    + apply (enter_ok _ _ q'); [done|]. intros b' x Hb' Hx. rewrite Hb'. by apply (wrap_last uc okw _ _ (Hdata _ _ Hb') q').
    + intros t2 Ht2. destruct i as [|j].
      * assert (HN : B !! length idx = None) by (apply lookup_ge_None; lia). rewrite HN in Ht2. destruct n as [|n]; [lia|].
        apply (end_ok n _ _ (length idx)); [done|done|]. change (at_block 0) with 0%nat. cbn [before_place]. lia.
      * assert (is_Some (B !! j)) as [b' Hb'] by (apply lookup_lt_is_Some_2; lia). rewrite Hb' in Ht2. specialize (IH j _ b' t2 Ht2 Hb' ltac:(lia)).
        rewrite (at_block_S j b' Hb'). destruct b' as [|y b']; cbn [length] in IH |- *; [by rewrite Nat.add_0_r|].
        rewrite decide_True in IH by lia. replace (before_place _) with (at_block j + (S (length b') - 1))%nat; [done|].
        unfold before_place. destruct (at_block j + S (length b'))%nat eqn:E; lia.
Qed.

(** ** Seeking *)
Hypothesis Hidom : forall i x, idx !! i = Some x -> dom uc (fst x) = true.
Hypothesis Hdom : forall i b y, B !! i = Some b -> y ∈ b -> dom uc (fst y) = true.
Hypothesis Hbelow : forall i x b y, idx !! i = Some x -> B !! i = Some b -> y ∈ b -> cmp uc (fst y) (fst x) <= 0.
Hypothesis Habove : forall i j x b y, (i < j)%nat -> idx !! i = Some x -> B !! j = Some b -> y ∈ b -> cmp uc (fst x) (fst y) < 0.

Lemma lower_concat t : dom uc t = true -> lower_bound uc t (concat B) =
  (at_block (lower_bound uc t idx) + match B !! lower_bound uc t idx with Some b => lower_bound uc t b | None => 0 end)%nat.
Proof.
  intros Ht. set (i := lower_bound uc t idx). pose proof (lower_le uc t idx) as Hle. fold i in Hle.
  assert (Hlow : forall y, y ∈ concat (take i B) -> cmp uc (fst y) t < 0).
  { intros y Hy. apply elem_of_concat in Hy as (b & Hyb & Hb). apply list_elem_of_lookup in Hb as [j Hj]. apply lookup_take_Some in Hj as [Hj Hji].
    assert (is_Some (idx !! j)) as [x Hx] by (apply lookup_lt_is_Some_2; apply lookup_lt_Some in Hj; lia).
    pose proof (lower_below uc t idx j x Hji Hx) as H1. pose proof (Hbelow j x b y Hx Hj Hyb) as H2.
    destruct (decide (cmp uc (fst y) (fst x) = 0)) as [E|]; [apply (cmp_eq (c := uc)) in E as ->; eauto|].
    apply (cmp_trans (c := uc) _ (fst x)); eauto. lia. }
  rewrite <- (take_drop i B) at 1. rewrite concat_app, (lower_app_low uc t _ _ Hlow). unfold at_block. f_equal.
  destruct (B !! i) as [b|] eqn:Hb; [|by rewrite drop_ge by (by apply lookup_ge_None)]. rewrite (drop_S _ _ _ Hb). cbn [concat]. apply lower_app_high.
  intros y Hy. apply elem_of_concat in Hy as (b' & Hyb & Hb'). apply list_elem_of_lookup in Hb' as [j Hj]. rewrite lookup_drop in Hj.
  assert (is_Some (idx !! i)) as [x Hx] by (apply lookup_lt_is_Some_2; apply lookup_lt_Some in Hb; lia).
  pose proof (lower_found uc t idx x Hx) as H1. pose proof (Habove i (S i + j) x b' y ltac:(lia) Hx Hj Hyb) as H2.
  destruct (Z.le_gt_cases 0 (cmp uc (fst y) t)); [done|]. pose proof (cmp_trans (c := uc) (fst x) (fst y) t ltac:(eauto) ltac:(eauto) Ht H2 ltac:(lia)). lia.
Qed.

(** ** The cursor *)
Hypothesis Hrounds : (length idx < rounds)%nat.

Lemma pos_moved p t : tl_pos p t -> exists i, tl_moved i t.
Proof. intros [(i & q & b & _ & _ & _ & Ht)|(_ & i & _ & Ht)]; exists i; by eapply tl_at_moved. Qed.

(** Moving the index, opening its block and moving there. *)
Lemma locate_ok f g i j q t (rest : TwoLevelIterator I D -> W -> res (TwoLevelIterator I D * W)) Q : tl_moved i t ->
  (forall x, wrapped RI i x -> steps okw (f x) (wrapped RI j)) ->
  (forall b q0 x, B !! j = Some b -> wrapped (RD j) q0 x -> steps okw (g x) (wrapped (RD j) q)) ->
  (forall t, tl_at j q t -> steps okw (rest t) Q) ->
  steps okw (fun w => '(t, w) ← on_index f t w; '(t, w) ← InitDataBlock block_function t w; '(t, w) ← if_data g t w; rest t w) Q.
Proof.
  intros Ht Hf Hg Hrest. apply (steps_bind okw _ (fun t w => '(t, w) ← InitDataBlock block_function t w; '(t, w) ← if_data g t w; rest t w) (tl_moved j)); [by apply (index_move f i)|].
  intros t1 Ht1. apply (steps_bind okw _ (fun t w => '(t, w) ← if_data g t w; rest t w) (fun t => exists q, tl_at j q t)); [by apply init_ok|].
  intros t2 (q0 & Ht2). apply (steps_bind okw _ rest (tl_at j q)); [|done]. apply (enter_ok g j q0); [done|]. intros b x Hb Hx. by apply (Hg b q0).
Qed.

Lemma tl_first_ok p t : tl_pos p t -> steps okw (tl_SeekToFirst block_function rounds t) (tl_pos 0).
Proof.
  intros Hp. destruct (pos_moved p t Hp) as [i Hi]. apply (locate_ok _ _ i 0 0); [done| | |].
  - intros x Hx. by apply (wrap_first uc okw _ _ Hidx i).
  - intros b q0 x Hb Hx. by apply (wrap_first uc okw _ _ (Hdata _ _ Hb) q0).
  - intros t' Ht'. apply (forward_ok rounds 0 0 t' Ht'); [lia|]. case_match; [lia|done].
Qed.

Lemma tl_seek_ok p t target : tl_pos p t -> dom uc target = true -> steps okw (tl_Seek block_function rounds target t) (tl_pos (lower_bound uc target (concat B))).
Proof.
  intros Hp Ht. destruct (pos_moved p t Hp) as [i Hi]. rewrite (lower_concat target Ht). set (j := lower_bound uc target idx). pose proof (lower_le uc target idx) as Hle. fold j in Hle.
  apply (locate_ok _ _ i j (match B !! j with Some b => lower_bound uc target b | None => 0 end)); [done| | |].
  - intros x Hx. by apply (wrap_seek uc okw _ _ Hidx i).
  - intros b q0 x Hb Hx. rewrite Hb. by apply (wrap_seek uc okw _ _ (Hdata _ _ Hb) q0).
  - intros t' Ht'. apply (forward_ok rounds _ _ t' Ht'); [lia|]. case_match; [apply lower_le|done].
Qed.

Lemma tl_last_ok p t : tl_pos p t -> steps okw (tl_SeekToLast block_function rounds t) (tl_pos (length (concat B) - 1)).
Proof.
  intros Hp. destruct (pos_moved p t Hp) as [i Hi]. apply (locate_ok _ _ i (length idx - 1) (match B !! (length idx - 1)%nat with Some b => length b - 1 | None => 0 end)%nat); [done| | |].
  - intros x Hx. by apply (wrap_last uc okw _ _ Hidx i).
  - intros b q0 x Hb Hx. rewrite Hb. by apply (wrap_last uc okw _ _ (Hdata _ _ Hb) q0).
  - intros t' Ht'. destruct (B !! (length idx - 1)%nat) as [b|] eqn:Hb.
    + pose proof (lookup_lt_Some _ _ _ Hb) as Hlt. pose proof (backward_ok rounds _ _ b t' Ht' Hb ltac:(lia)) as HB. eapply steps_mono; [exact HB|].
      intros t2. rewrite <- (at_block_end (S (length idx - 1))) by lia. rewrite (at_block_S _ b Hb). destruct b as [|y b]; cbn [length].
      * rewrite decide_False, Nat.add_0_r by lia. destruct (at_block (length idx - 1)) as [|z] eqn:Ez; cbn [before_place]; [|by rewrite Nat.sub_1_r].
        assert (length (concat B) = 0%nat) as ->; [|done]. rewrite <- (at_block_end (S (length idx - 1))), (at_block_S _ [] Hb), Ez by lia. done.
      * rewrite decide_True by lia. by replace (at_block (length idx - 1) + S (length b) - 1)%nat with (at_block (length idx - 1) + (S (length b) - 1))%nat by lia.
    + assert (rounds = S (rounds - 1)) as E by lia. unfold SkipEmptyDataBlocksBackward. rewrite E. apply (end_ok (rounds - 1) _ _ (length idx - 1)); [done|done|].
      assert (B = []) as -> by (apply length_zero_iff_nil; apply lookup_ge_None in Hb; lia). done.
Qed.

Lemma tl_next_ok p t : tl_pos p t -> (p < length (concat B))%nat -> steps okw (tl_Next block_function rounds t) (tl_pos (S p)).
Proof.
  intros [(i & q & b & Hb & Hq & -> & Ht)|(Hp & _)] Hlt; [|lia]. pose proof (lookup_lt_Some _ _ _ Hb) as Hib.
  apply (steps_bind okw _ (SkipEmptyDataBlocksForward block_function rounds) (tl_at i (S q))).
  - pose proof Ht as (H1 & H2 & H3). destruct (idx !! i) as [x|] eqn:Hx; [|apply lookup_ge_None in Hx; lia].
    pose proof (enter_ok iw_Next i q (S q) t Ht) as HE. unfold if_data in HE. destruct H3 as [Hw _]. destruct (wrap_some _ _ _ Hw) as [d Ed]. rewrite Ed in HE.
    apply HE. intros b' y Hb' Hy. assert (b' = b) as -> by congruence. by apply (wrap_next uc okw _ _ (Hdata _ _ Hb)).
  - intros t' Ht'. rewrite <- Nat.add_succ_r. apply (forward_ok rounds i (S q) t' Ht'); [lia|]. by rewrite Hb.
Qed.

Lemma tl_prev_ok p t : tl_pos p t -> (p < length (concat B))%nat -> steps okw (tl_Prev block_function rounds t) (tl_pos (before_place p)).
Proof.
  intros [(i & q & b & Hb & Hq & -> & Ht)|(Hp & _)] Hlt; [|lia]. pose proof (lookup_lt_Some _ _ _ Hb) as Hib.
  apply (steps_bind okw _ (SkipEmptyDataBlocksBackward block_function rounds) (tl_at i (match q with O => length b | S q' => q' end))).
  - pose proof Ht as (H1 & H2 & H3). destruct (idx !! i) as [x|] eqn:Hx; [|apply lookup_ge_None in Hx; lia].
    pose proof (enter_ok iw_Prev i q (match q with O => length b | S q' => q' end) t Ht) as HE. unfold if_data in HE. destruct H3 as [Hw _]. destruct (wrap_some _ _ _ Hw) as [d Ed]. rewrite Ed in HE.
    apply HE. intros b' y Hb' Hy. assert (b' = b) as -> by congruence. by apply (wrap_prev uc okw _ _ (Hdata _ _ Hb)).
  - intros t' Ht'. eapply steps_mono; [apply (backward_ok rounds i _ b t' Ht' Hb); lia|]. intros t2. destruct q as [|q].
    + rewrite decide_False, Nat.add_0_r by lia. done.
    + rewrite decide_True by lia. by rewrite Nat.add_succ_r.
Qed.

(** An iterator over the blocks of an index is a cursor in the entries of all the
    blocks, when the index and the blocks are cursors and the keys of the index
    separate the blocks. *)
Lemma two_level_cursor : is_cursor uc okw (IT := two_level_iterator block_function rounds) tl_pos (concat B).
Proof.
  split; cbn [i_Valid i_key i_value i_status i_SeekToFirst i_SeekToLast i_Seek i_Next i_Prev two_level_iterator].
  - intros p t [(i & q & b & Hb & Hq & -> & Ht)|(Hp & i & Hi & Ht)]; destruct Ht as (_ & _ & H3).
    + rewrite bool_decide_eq_true_2 by (by apply (at_block_in i b)). destruct (idx !! i) as [x|] eqn:Hx; [|apply lookup_lt_Some in Hb; apply lookup_ge_None in Hx; lia].
      destruct H3 as [Hw _]. rewrite (wrap_valid uc okw _ _ (Hdata i b Hb) _ _ Hw). by apply bool_decide_eq_true_2.
    + rewrite bool_decide_eq_false_2 by lia. rewrite lookup_ge_None_2 in H3 by done. by destruct H3.
  - intros p t y [(i & q & b & Hb & Hq & -> & Ht)|(Hp & _)] Hy; [|apply lookup_lt_Some in Hy; lia]. rewrite (concat_at i b q Hb Hq) in Hy.
    destruct Ht as (_ & _ & H3). destruct (idx !! i) as [x|] eqn:Hx; [|apply lookup_lt_Some in Hb; apply lookup_ge_None in Hx; lia].
    destruct H3 as [Hw _]. exact (wrap_at uc okw _ _ (Hdata i b Hb) _ _ y Hw Hy).
  - intros p t Hp. destruct (pos_moved p t Hp) as (i & H1 & H2 & H3). unfold tl_get_status. pose proof (wrap_status uc okw _ _ Hidx _ _ H2) as E.
    unfold iw_status in E. destruct (iw_iter (tl_index t)); [|done]. injection E as ->. cbn [status_ok status_OK negb].
    destruct H3 as [[-> _]|(j & x & q & Hx & Hw & _)]; [done|]. destruct (block_of j x Hx) as [b Hb]. pose proof (wrap_status uc okw _ _ (Hdata j b Hb) _ _ Hw) as E.
    unfold iw_status in E. destruct (iw_iter (tl_data t)); [|done]. by injection E as ->.
  - apply tl_first_ok.
  - apply tl_last_ok.
  - apply tl_seek_ok.
  - apply tl_next_ok.
  - apply tl_prev_ok.
Qed.

Lemma two_level_new index_iter : RI (length idx) index_iter -> exists t, NewTwoLevelIterator (W := W) index_iter = Ok t /\ tl_pos (length (concat B)) t.
Proof.
  intros HR. eexists. split; [done|]. right. split; [done|]. exists (length idx). split; [done|]. split; [done|]. split.
  - eexists index_iter, _. split; [done|]. split; [done|]. by intros ->.
  - by rewrite lookup_ge_None_2.
Qed.
End TwoLevel.
