(* ===== verification/LvlTable.v ===== *)
(** * LevelDB's tables

    src/3rd-party/leveldb/leveldb-1.18/table/format.cc, table_builder.cc and
    table.cc: the sorted files of the database.  A table is data blocks, a filter
    block, a block that names the filter, an index block with a key and a handle
    for every data block, and a footer with the handles of the last two; every
    block is followed by its compression type and a checksum.  Files, filter
    policies, the cache of blocks and Snappy are interfaces. *)
From S2P Require Import Prelude Store LvlCoding LvlCrc LvlBase LvlLog LvlBlock LvlFilter LvlIterator.

(** ** Interfaces *)

(** [RandomAccessFile::Read]: also whether the data is in the scratch buffer. *)
Class RandomAccessFile (F : Type) := raf_Read : F -> Z -> Z -> Status * bytes * bool.

(** The functions of port/port.h over the Snappy library. *)
Class Snappy := {
  Snappy_Compress : bytes -> option bytes;
  Snappy_GetUncompressedLength : bytes -> option Z;
  Snappy_Uncompress : bytes -> option bytes
}.

(** [Cache] as tables use it: values are blocks. *)
Class BlockCache (C : Type) := {
  bc_NewId : C -> Z * C;
  bc_Lookup : bytes -> C -> option Block * C;
  bc_Insert : bytes -> Block -> Z -> C -> C
}.

Inductive CompressionType := kNoCompression | kSnappyCompression.

#[export] Instance CompressionType_eq_dec : EqDecision CompressionType.
Proof. solve_decision. Defined.

Definition ct_val (t : CompressionType) : Z := match t with kNoCompression => 0 | kSnappyCompression => 1 end.

(** The options tables look at; [to_comparator_at] is the address of the
    comparator. *)
Record TableOptions := MkTableOptions {
  to_comparator : comparator; to_comparator_at : Z;
  to_FindShortestSeparator : bytes -> bytes -> res bytes; to_FindShortSuccessor : bytes -> res bytes;
  to_block_size : Z; to_block_restart_interval : Z; to_compression : CompressionType;
  to_filter_policy : option FilterPolicy; to_paranoid_checks : bool }.

Record ReadOptions := MkReadOptions { ro_verify_checksums : bool; ro_fill_cache : bool }.

Section Table.
Context (kLittleEndian : bool) (data_at : bytes -> Z) {SN : Snappy}.

(** ** The format *)
Record BlockHandle := MkHandle { bh_offset : Z; bh_size : Z }.
Definition BlockHandle_new : BlockHandle := MkHandle (2 ^ 64 - 1) (2 ^ 64 - 1).

Definition kMaxEncodedLength : Z := 10 + 10.
Definition kEncodedLength : Z := 2 * kMaxEncodedLength + 8.
Definition kTableMagicNumber : Z := 0xdb4775248b80fb57.
Definition kBlockTrailerSize : Z := 5.

Definition bh_EncodeTo (h : BlockHandle) (dst : bytes) : res bytes :=
  dst ← of_option OobWrite (PutVarint64 dst (bh_offset h));
  of_option OobWrite (PutVarint64 dst (bh_size h)).

Definition bh_DecodeFrom (input : bytes) : (Status + BlockHandle) * bytes :=
  match GetVarint64 input with
  | (Some offset, input) =>
      match GetVarint64 input with
      | (Some size, input) => (inr (MkHandle offset size), input)
      | (None, input) => (inl (Corruption (lit "bad block handle")), input)
      end
  | (None, input) => (inl (Corruption (lit "bad block handle")), input)
  end.

Record Footer := MkFooter { metaindex_handle : BlockHandle; index_handle : BlockHandle }.

(** [std::string::resize]. *)
Definition resize (n : nat) (s : bytes) : bytes := take n s ++ replicate (n - length s) NUL.

Definition footer_EncodeTo (f : Footer) (dst : bytes) : res bytes :=
  dst ← bh_EncodeTo (metaindex_handle f) dst;
  dst ← bh_EncodeTo (index_handle f) dst;
  let dst := resize (Z.to_nat (2 * kMaxEncodedLength)) dst in
  let dst := PutFixed32 kLittleEndian dst (Z.land kTableMagicNumber 0xffffffff) in
  Ok (PutFixed32 kLittleEndian dst (Z.shiftr kTableMagicNumber 32)).

Definition footer_DecodeFrom (input : bytes) : res (Status + Footer) :=
  let magic_ptr := drop (Z.to_nat (kEncodedLength - 8)) input in
  magic_lo ← DecodeFixed32 kLittleEndian magic_ptr;
  magic_hi ← DecodeFixed32 kLittleEndian (drop 4 magic_ptr);
  let magic := Z.lor (Z.shiftl magic_hi 32) magic_lo in
  if negb (magic =? kTableMagicNumber) then Ok (inl (Corruption (lit "not an sstable (bad magic number)")))
  else
    match bh_DecodeFrom input with
    | (inl s, _) => Ok (inl s)
    | (inr m, input) =>
        match bh_DecodeFrom input with
        | (inl s, _) => Ok (inl s)
        | (inr i, _) => Ok (inr (MkFooter m i))
        end
    end.

Record BlockContents := MkContents { bc_data : bytes; bc_cachable : bool; bc_heap_allocated : bool }.

(** The checksum of [n + 1] bytes of the data against the four after them. *)
Definition checksum_ok (data : bytes) (n : nat) : res bool :=
  stored ← DecodeFixed32 kLittleEndian (drop (n + 1) data);
  actual ← crc_Value kLittleEndian (data_at data) (take (n + 1) data);
  Ok (actual =? Unmask stored).

Definition ReadBlock {F} `{!RandomAccessFile F} (file : F) (options : ReadOptions) (handle : BlockHandle) : res (Status + BlockContents) :=
  let size := wrap_u 64 (bh_size handle + kBlockTrailerSize) in
  let '(s, data, in_scratch) := raf_Read file (bh_offset handle) size in
  if negb (status_ok s) then Ok (inl s)
  else if negb (Z.of_nat (length data) =? size) then Ok (inl (Corruption (lit "truncated block read")))
  else if Z.of_nat (length data) <=? bh_size handle then Ub OobRead
  else
    let n := Z.to_nat (bh_size handle) in
    good ← (if ro_verify_checksums options then checksum_ok data n else Ok true);
    if negb good then Ok (inl (Corruption (lit "block checksum mismatch")))
    else
      type ← of_option OobRead (data !! n);
      if byte.unsigned type =? ct_val kNoCompression then Ok (inr (MkContents (take n data) in_scratch in_scratch))
      else if byte.unsigned type =? ct_val kSnappyCompression then
        match Snappy_GetUncompressedLength (take n data) with
        | None => Ok (inl (Corruption (lit "corrupted compressed block contents")))
        | Some ulength =>
            match Snappy_Uncompress (take n data) with
            | None => Ok (inl (Corruption (lit "corrupted compressed block contents")))
            | Some ubuf => if Z.of_nat (length ubuf) =? ulength then Ok (inr (MkContents ubuf true true)) else Ub OobWrite
            end
        end
      else Ok (inl (Corruption (lit "bad block type"))).

(** ** Building a table *)
Section Builder.
Context {W : Type} `{!WritableFile W}.

(** [index_block_options] is [options] with a restart interval of one. *)
Record TableBuilder := MkTB {
  tb_options : TableOptions; tb_file : W; tb_offset : Z; tb_status : Status;
  tb_data_block : BlockBuilder; tb_index_block : BlockBuilder; tb_last_key : bytes; tb_num_entries : Z; tb_closed : bool;
  tb_filter_block : option (FilterPolicy * FilterBlockBuilder); tb_pending_index_entry : bool; tb_pending_handle : BlockHandle }.

Definition set_io (f : W) (s : Status) (r : TableBuilder) : TableBuilder :=
  MkTB (tb_options r) f (tb_offset r) s (tb_data_block r) (tb_index_block r) (tb_last_key r) (tb_num_entries r) (tb_closed r)
    (tb_filter_block r) (tb_pending_index_entry r) (tb_pending_handle r).
Definition set_offset (o : Z) (r : TableBuilder) : TableBuilder :=
  MkTB (tb_options r) (tb_file r) o (tb_status r) (tb_data_block r) (tb_index_block r) (tb_last_key r) (tb_num_entries r) (tb_closed r)
    (tb_filter_block r) (tb_pending_index_entry r) (tb_pending_handle r).
Definition set_data_block (b : BlockBuilder) (r : TableBuilder) : TableBuilder :=
  MkTB (tb_options r) (tb_file r) (tb_offset r) (tb_status r) b (tb_index_block r) (tb_last_key r) (tb_num_entries r) (tb_closed r)
    (tb_filter_block r) (tb_pending_index_entry r) (tb_pending_handle r).
Definition set_index_block (b : BlockBuilder) (key : bytes) (r : TableBuilder) : TableBuilder :=
  MkTB (tb_options r) (tb_file r) (tb_offset r) (tb_status r) (tb_data_block r) b key (tb_num_entries r) (tb_closed r)
    (tb_filter_block r) (tb_pending_index_entry r) (tb_pending_handle r).
Definition set_pending (p : bool) (h : BlockHandle) (r : TableBuilder) : TableBuilder :=
  MkTB (tb_options r) (tb_file r) (tb_offset r) (tb_status r) (tb_data_block r) (tb_index_block r) (tb_last_key r) (tb_num_entries r) (tb_closed r)
    (tb_filter_block r) p h.
Definition set_filter_block (f : option (FilterPolicy * FilterBlockBuilder)) (r : TableBuilder) : TableBuilder :=
  MkTB (tb_options r) (tb_file r) (tb_offset r) (tb_status r) (tb_data_block r) (tb_index_block r) (tb_last_key r) (tb_num_entries r) (tb_closed r)
    f (tb_pending_index_entry r) (tb_pending_handle r).
Definition count_key (key : bytes) (r : TableBuilder) : TableBuilder :=
  MkTB (tb_options r) (tb_file r) (tb_offset r) (tb_status r) (tb_data_block r) (tb_index_block r) key (tb_num_entries r + 1) (tb_closed r)
    (tb_filter_block r) (tb_pending_index_entry r) (tb_pending_handle r).
Definition set_closed (r : TableBuilder) : TableBuilder :=
  MkTB (tb_options r) (tb_file r) (tb_offset r) (tb_status r) (tb_data_block r) (tb_index_block r) (tb_last_key r) (tb_num_entries r) true
    (tb_filter_block r) (tb_pending_index_entry r) (tb_pending_handle r).

Definition tb_ok (r : TableBuilder) : bool := status_ok (tb_status r).

Definition start_filter (offset : Z) (f : option (FilterPolicy * FilterBlockBuilder)) : res (option (FilterPolicy * FilterBlockBuilder)) :=
  match f with
  | None => Ok None
  | Some (p, b) => b ← StartBlock (P := p) offset b; Ok (Some (p, b))
  end.

Definition TableBuilder_new (options : TableOptions) (file : W) : res TableBuilder :=
  f ← start_filter 0 ((fun p => (p, FilterBlockBuilder_new)) <$> to_filter_policy options);
  Ok (MkTB options file 0 status_OK BlockBuilder_new BlockBuilder_new [] 0 false f false BlockHandle_new).

Definition ChangeOptions (options : TableOptions) (r : TableBuilder) : Status * TableBuilder :=
  if negb (to_comparator_at options =? to_comparator_at (tb_options r))
  then (InvalidArgument (lit "changing comparator while building table"), r)
  else (status_OK, MkTB options (tb_file r) (tb_offset r) (tb_status r) (tb_data_block r) (tb_index_block r) (tb_last_key r) (tb_num_entries r)
          (tb_closed r) (tb_filter_block r) (tb_pending_index_entry r) (tb_pending_handle r)).

Definition WriteRawBlock (block_contents : bytes) (type : CompressionType) (r : TableBuilder) : res (BlockHandle * TableBuilder) :=
  let handle := MkHandle (tb_offset r) (Z.of_nat (length block_contents)) in
  let '(s, f) := Append block_contents (tb_file r) in
  let r := set_io f s r in
  if status_ok s then
    let t := [byte.of_Z (ct_val type)] in
    crc ← crc_Value kLittleEndian (data_at block_contents) block_contents;
    crc ← Extend kLittleEndian (data_at t) crc t;
    let '(s, f) := Append (t ++ EncodeFixed32 kLittleEndian (Mask crc)) f in
    let r := set_io f s r in
    Ok (handle, if status_ok s then set_offset (wrap_u 64 (tb_offset r + Z.of_nat (length block_contents) + kBlockTrailerSize)) r else r)
  else Ok (handle, r).

(** The contents to store and their type. *)
Definition choose_contents (compression : CompressionType) (raw : bytes) : bytes * CompressionType :=
  match compression with
  | kNoCompression => (raw, kNoCompression)
  | kSnappyCompression =>
      match Snappy_Compress raw with
      | Some compressed =>
          let n := Z.of_nat (length raw) in
          if Z.of_nat (length compressed) <? n - n / 8 then (compressed, kSnappyCompression) else (raw, kNoCompression)
      | None => (raw, kNoCompression)
      end
  end.

Definition WriteBlock (block : BlockBuilder) (r : TableBuilder) : res (BlockHandle * BlockBuilder * TableBuilder) :=
  let '(raw, block) := bb_Finish kLittleEndian block in
  let '(block_contents, type) := choose_contents (to_compression (tb_options r)) raw in
  '(handle, r) ← WriteRawBlock block_contents type r;
  Ok (handle, bb_Reset block, r).

Definition tb_Flush (r : TableBuilder) : res TableBuilder :=
  if negb (tb_ok r) then Ok r
  else if bool_decide (bb_buffer (tb_data_block r) = []) then Ok r
  else
    '(handle, block, r) ← WriteBlock (tb_data_block r) r;
    let r := set_pending (tb_pending_index_entry r) handle (set_data_block block r) in
    let r := if tb_ok r then
               let r := set_pending true (tb_pending_handle r) r in
               let '(s, f) := Flush (tb_file r) in set_io f s r
             else r in
    f ← start_filter (tb_offset r) (tb_filter_block r);
    Ok (set_filter_block f r).

(** The index entry of the block before, under the key given for it. *)
Definition add_pending (key : bytes) (r : TableBuilder) : res TableBuilder :=
  handle_encoding ← bh_EncodeTo (tb_pending_handle r) [];
  Ok (set_pending false (tb_pending_handle r) (set_index_block (bb_Add 1 key handle_encoding (tb_index_block r)) key r)).

Definition tb_Add (key value : bytes) (r : TableBuilder) : res TableBuilder :=
  if negb (tb_ok r) then Ok r
  else
    r ← (if tb_pending_index_entry r then
           last_key ← to_FindShortestSeparator (tb_options r) (tb_last_key r) key;
           add_pending last_key r
         else Ok r);
    let r := set_filter_block ((fun pf => (fst pf, AddKey key (snd pf))) <$> tb_filter_block r) r in
    let r := count_key key r in
    let r := set_data_block (bb_Add (to_block_restart_interval (tb_options r)) key value (tb_data_block r)) r in
    if to_block_size (tb_options r) <=? CurrentSizeEstimate (tb_data_block r) then tb_Flush r else Ok r.

(** The filter block, and its handle. *)
Definition finish_filter (r : TableBuilder) : res (BlockHandle * TableBuilder) :=
  match tb_filter_block r with
  | Some (p, f) =>
      if tb_ok r then
        '(contents, f) ← fb_Finish (P := p) kLittleEndian f;
        WriteRawBlock contents kNoCompression (set_filter_block (Some (p, f)) r)
      else Ok (BlockHandle_new, r)
  | None => Ok (BlockHandle_new, r)
  end.

Definition finish_metaindex (filter_block_handle : BlockHandle) (r : TableBuilder) : res (BlockHandle * TableBuilder) :=
  if tb_ok r then
    meta_index_block ← (match tb_filter_block r with
      | Some _ =>
          policy ← of_option NullDeref (to_filter_policy (tb_options r));
          handle_encoding ← bh_EncodeTo filter_block_handle [];
          Ok (bb_Add (to_block_restart_interval (tb_options r)) (lit "filter." ++ @fp_Name policy) handle_encoding BlockBuilder_new)
      | None => Ok BlockBuilder_new
      end);
    '(handle, _, r) ← WriteBlock meta_index_block r;
    Ok (handle, r)
  else Ok (BlockHandle_new, r).

Definition finish_index (r : TableBuilder) : res (BlockHandle * TableBuilder) :=
  if tb_ok r then
    r ← (if tb_pending_index_entry r then
           last_key ← to_FindShortSuccessor (tb_options r) (tb_last_key r);
           add_pending last_key r
         else Ok r);
    '(handle, block, r) ← WriteBlock (tb_index_block r) r;
    Ok (handle, set_index_block block (tb_last_key r) r)
  else Ok (BlockHandle_new, r).

Definition finish_footer (metaindex index : BlockHandle) (r : TableBuilder) : res TableBuilder :=
  if tb_ok r then
    footer_encoding ← footer_EncodeTo (MkFooter metaindex index) [];
    let '(s, f) := Append footer_encoding (tb_file r) in
    let r := set_io f s r in
    Ok (if status_ok s then set_offset (wrap_u 64 (tb_offset r + Z.of_nat (length footer_encoding))) r else r)
  else Ok r.

Definition tb_Finish (r : TableBuilder) : res (Status * TableBuilder) :=
  r ← tb_Flush r;
  let r := set_closed r in
  '(filter_block_handle, r) ← finish_filter r;
  '(metaindex_block_handle, r) ← finish_metaindex filter_block_handle r;
  '(index_block_handle, r) ← finish_index r;
  r ← finish_footer metaindex_block_handle index_block_handle r;
  Ok (tb_status r, r).

Definition tb_Abandon (r : TableBuilder) : TableBuilder := set_closed r.
Definition NumEntries (r : TableBuilder) : Z := wrap_u 64 (tb_num_entries r).
Definition FileSize (r : TableBuilder) : Z := tb_offset r.
End Builder.

(** ** Reading a table *)
Section Reader.
Context {F C : Type} `{!RandomAccessFile F} `{!BlockCache C}.

(** The block cache is shared; without one there is [None]. *)
Record Table := MkTable {
  t_options : TableOptions; t_file : F; t_cache_id : Z; t_filter : option (FilterPolicy * FilterBlockReader);
  t_metaindex_handle : BlockHandle; t_index_block : Block }.

Definition meta_read_options (options : TableOptions) : ReadOptions := MkReadOptions (to_paranoid_checks options) true.

Definition ReadFilter (policy : FilterPolicy) (options : TableOptions) (file : F) (filter_handle_value : bytes) :
    res (option (FilterPolicy * FilterBlockReader)) :=
  match fst (bh_DecodeFrom filter_handle_value) with
  | inl _ => Ok None
  | inr filter_handle =>
      r ← ReadBlock file (meta_read_options options) filter_handle;
      match r with
      | inl _ => Ok None
      | inr block => reader ← FilterBlockReader_new kLittleEndian (bc_data block); Ok (Some (policy, reader))
      end
  end.

(** The filter of the table, when its metaindex names one of the policy. *)
Definition ReadMeta (options : TableOptions) (file : F) (footer : Footer) : res (option (FilterPolicy * FilterBlockReader)) :=
  match to_filter_policy options with
  | None => Ok None
  | Some policy =>
      r ← ReadBlock file (meta_read_options options) (metaindex_handle footer);
      match r with
      | inl _ => Ok None
      | inr contents =>
          meta ← Block_new kLittleEndian (bc_data contents);
          iter ← NewIterator kLittleEndian meta;
          let key := lit "filter." ++ @fp_Name policy in
          let IT := block_iterator kLittleEndian lexical (W := unit) in
          '(iter, _) ← i_Seek key (block_iter iter) tt;
          if i_Valid iter && bool_decide (i_key iter = key)
          then v ← i_value iter; ReadFilter policy options file v
          else Ok None
      end
  end.

Definition table_Open (options : TableOptions) (file : F) (size : Z) (w : option C) : res (Status * option Table * option C) :=
  if size <? kEncodedLength then Ok (Corruption (lit "file is too short to be an sstable"), None, w)
  else
    let '(s, footer_input, _) := raf_Read file (size - kEncodedLength) kEncodedLength in
    if negb (status_ok s) then Ok (s, None, w)
    else
      f ← footer_DecodeFrom footer_input;
      match f with
      | inl s => Ok (s, None, w)
      | inr footer =>
          r ← ReadBlock file (meta_read_options options) (index_handle footer);
          match r with
          | inl s => Ok (s, None, w)
          | inr contents =>
              index_block ← Block_new kLittleEndian (bc_data contents);
              let '(cache_id, w) := match w with Some c => let '(id, c) := bc_NewId c in (id, Some c) | None => (0, None) end in
              filter ← ReadMeta options file footer;
              Ok (status_OK, Some (MkTable options file cache_id filter (metaindex_handle footer) index_block), w)
          end
      end.

(** The key of a block in the cache. *)
Definition cache_key (t : Table) (h : BlockHandle) : bytes :=
  EncodeFixed64 kLittleEndian (t_cache_id t) ++ EncodeFixed64 kLittleEndian (bh_offset h).

(** The block a handle names, from the cache or from the file. *)
Definition find_block (t : Table) (options : ReadOptions) (handle : BlockHandle) (w : option C) : res ((Status + Block) * option C) :=
  let read := r ← ReadBlock (t_file t) options handle;
              match r with inl s => Ok (inl s) | inr contents => b ← Block_new kLittleEndian (bc_data contents); Ok (inr (contents, b)) end in
  match w with
  | Some c =>
      match bc_Lookup (cache_key t handle) c with
      | (Some block, c) => Ok (inr block, Some c)
      | (None, c) =>
          r ← read;
          match r with
          | inl s => Ok (inl s, Some c)
          | inr (contents, block) =>
              let c := if bc_cachable contents && ro_fill_cache options then bc_Insert (cache_key t handle) block (bl_size block) c else c in
              Ok (inr block, Some c)
          end
      end
  | None => r ← read; match r with inl s => Ok (inl s, None) | inr (_, block) => Ok (inr block, None) end
  end.

Definition BlockReader (t : Table) (options : ReadOptions) (index_value : bytes) (w : option C) : res (BlockIter * option C) :=
  match fst (bh_DecodeFrom index_value) with
  | inl s => Ok (OverNothing (NewErrorIterator s), w)
  | inr handle =>
      '(r, w) ← find_block t options handle w;
      match r with
      | inl s => Ok (OverNothing (NewErrorIterator s), w)
      | inr block => it ← NewIterator kLittleEndian block; Ok (block_iter it, w)
      end
  end.

Definition table_iterator (t : Table) (options : ReadOptions) : Iterator (option C) (TwoLevelIterator BlockIter BlockIter) :=
  let IT := block_iterator kLittleEndian (to_comparator (t_options t)) (W := option C) in
  two_level_iterator (BlockReader t options) (S (length (bl_data (t_index_block t)))).

Definition table_NewIterator (t : Table) : res (TwoLevelIterator BlockIter BlockIter) :=
  let IT := block_iterator kLittleEndian (to_comparator (t_options t)) (W := option C) in
  it ← NewIterator kLittleEndian (t_index_block t);
  NewTwoLevelIterator (W := option C) (block_iter it).

(** The handle of the index entry at which a key would be. *)
Definition index_seek (t : Table) (key : bytes) : res BlockIter :=
  let IT := block_iterator kLittleEndian (to_comparator (t_options t)) (W := unit) in
  it ← NewIterator kLittleEndian (t_index_block t);
  '(it, _) ← i_Seek key (block_iter it) tt;
  Ok it.

(** Whether the filter rules the key out. *)
Definition filtered_out (t : Table) (handle_value k : bytes) : res bool :=
  match t_filter t with
  | None => Ok false
  | Some (p, f) =>
      match fst (bh_DecodeFrom handle_value) with
      | inl _ => Ok false
      | inr handle => b ← fr_KeyMayMatch (P := p) kLittleEndian f (bh_offset handle) k; Ok (negb b)
      end
  end.

(** The status, and the key and the value [saver] is called with. *)
Definition InternalGet (t : Table) (options : ReadOptions) (k : bytes) (w : option C) : res (Status * option (bytes * bytes) * option C) :=
  let IT := block_iterator kLittleEndian (to_comparator (t_options t)) (W := option C) in
  iiter ← index_seek t k;
  if i_Valid iiter then
    handle_value ← i_value iiter;
    out ← filtered_out t handle_value k;
    if (out : bool) then Ok (i_status iiter, None, w)
    else
      '(block_iter, w) ← BlockReader t options handle_value w;
      '(block_iter, w) ← i_Seek k block_iter w;
      saved ← (if i_Valid block_iter then v ← i_value block_iter; Ok (Some (i_key block_iter, v)) else Ok None);
      let s := i_status block_iter in
      Ok (if status_ok s then i_status iiter else s, saved, w)
  else Ok (i_status iiter, None, w).

Definition ApproximateOffsetOf (t : Table) (key : bytes) : res Z :=
  let IT := block_iterator kLittleEndian (to_comparator (t_options t)) (W := unit) in
  index_iter ← index_seek t key;
  if i_Valid index_iter then
    v ← i_value index_iter;
    match fst (bh_DecodeFrom v) with
    | inr handle => Ok (bh_offset handle)
    | inl _ => Ok (bh_offset (t_metaindex_handle t))
    end
  else Ok (bh_offset (t_metaindex_handle t)).
End Reader.
End Table.
