(* ===== verification/LvlTableSpec.v ===== *)
(** * What a table gives back

    A table built of sorted entries, with filters, compression and a block cache or
    without, opens again, and is a cursor in the list of the entries; a lookup
    finds every key that is there. *)
From S2P Require Import Prelude Store LvlCoding LvlCrc LvlBase LvlLog LvlLogSpec LvlBlock LvlBlockSpec LvlFilter LvlFilterSpec LvlFormat LvlIterator LvlIteratorSpec LvlTable.

(** ** Interfaces *)

(** A file that can be read anywhere. *)
Class Positioned (F : Type) `{!RandomAccessFile F} (contents : F -> bytes) : Prop :=
  read_at f off n : 0 <= off -> 0 <= n -> exists b, raf_Read f off n = (status_OK, take (Z.to_nat n) (drop (Z.to_nat off) (contents f)), b).

(** What is compressed is what comes back, up to the 4 GB the format has room
    for. *)
Class SnappyLaws (S : Snappy) : Prop := {
  compress_back raw c : Z.of_nat (length raw) < 2 ^ 32 -> Snappy_Compress raw = Some c ->
    Snappy_GetUncompressedLength c = Some (Z.of_nat (length raw)) /\ Snappy_Uncompress c = Some raw
}.

(** A cache finds only what was put in, under the key it was put in with. *)
Class CacheLaws (C : Type) `{!BlockCache C} (held : C -> bytes -> Block -> Prop) : Prop := {
  lookup_held k c b c' : bc_Lookup k c = (Some b, c') -> held c k b;
  lookup_keeps k c o c' k' b' : bc_Lookup k c = (o, c') -> held c' k' b' -> held c k' b';
  insert_held k b n c k' b' : held (bc_Insert k b n c) k' b' -> (k' = k /\ b' = b) \/ held c k' b';
  newid_range c id c' : bc_NewId c = (id, c') -> 0 <= id < 2 ^ 64
}.

(** The comparator's shortened keys stay where they belong. *)
Class TableComparator (o : TableOptions) : Prop := {
  tc_laws :: CmpLaws (to_comparator o);
  tc_sep a b : dom (to_comparator o) a = true -> dom (to_comparator o) b = true -> cmp (to_comparator o) a b < 0 ->
    exists s, to_FindShortestSeparator o a b = Ok s /\ dom (to_comparator o) s = true /\
      cmp (to_comparator o) a s <= 0 /\ cmp (to_comparator o) s b < 0 /\ (length s <= length a)%nat;
  tc_succ a : dom (to_comparator o) a = true ->
    exists s, to_FindShortSuccessor o a = Ok s /\ dom (to_comparator o) s = true /\ cmp (to_comparator o) a s <= 0 /\ (length s <= length a)%nat
}.

(** ** Handles and the footer *)
Definition good_handle (h : BlockHandle) : Prop := 0 <= bh_offset h < 2 ^ 64 /\ 0 <= bh_size h < 2 ^ 64.

Lemma handle_roundtrip h dst : good_handle h -> exists s, bh_EncodeTo h dst = Ok (dst ++ s) /\ (2 <= length s <= 20)%nat /\
  forall rest, bh_DecodeFrom (s ++ rest) = (inr h, rest).
Proof.
  intros [Ho Hs]. destruct (varint_roundtrip (bh_offset h) [] Ho) as (a & Ea & _ & _ & La & _). destruct (varint_roundtrip (bh_size h) [] Hs) as (b & Eb & _ & _ & Lb & _).
  exists (a ++ b). unfold bh_EncodeTo, PutVarint64. rewrite Ea, Eb. cbn. rewrite <- app_assoc. split; [done|]. rewrite length_app. split; [lia|]. intros rest.
  unfold bh_DecodeFrom, GetVarint64. rewrite <- app_assoc, (varint64_get _ a (b ++ rest) Ho Ea), (varint64_get _ b rest Hs Eb). by destruct h.
Qed.

(** The bytes of a handle. *)
Definition enc (h : BlockHandle) : bytes := match bh_EncodeTo h [] with Ok s => s | Ub _ => [] end.

Lemma enc_ok h : good_handle h -> bh_EncodeTo h [] = Ok (enc h) /\ (2 <= length (enc h) <= 20)%nat /\ forall rest, bh_DecodeFrom (enc h ++ rest) = (inr h, rest).
Proof. intros Hh. destruct (handle_roundtrip h [] Hh) as (s & E & Hs). unfold enc. rewrite E. done. Qed.

Lemma enc_inj h h' : good_handle h -> good_handle h' -> enc h = enc h' -> h = h'.
Proof.
  intros Hh Hh' E. destruct (enc_ok h Hh) as (_ & _ & H1). destruct (enc_ok h' Hh') as (_ & _ & H2). specialize (H1 []). specialize (H2 []). rewrite E, H2 in H1. congruence.
Qed.

Section Format.
Context (e : bool).

Lemma le32_get v rest : 0 <= v < 2 ^ 32 -> DecodeFixed32 e (le_split 4 v ++ rest) = Ok v.
Proof. intros Hv. rewrite <- (encode32_le e). by apply fixed32_get. Qed.
Lemma le32_get' v : 0 <= v < 2 ^ 32 -> DecodeFixed32 e (le_split 4 v) = Ok v.
Proof. intros Hv. rewrite <- (app_nil_r (le_split 4 v)). by apply le32_get. Qed.

Definition footer_bytes (m i : BlockHandle) : bytes :=
  resize 40 (enc m ++ enc i) ++ le_split 4 (Z.land kTableMagicNumber 0xffffffff) ++ le_split 4 (Z.shiftr kTableMagicNumber 32).

Lemma footer_roundtrip m i : good_handle m -> good_handle i ->
  footer_EncodeTo e (MkFooter m i) [] = Ok (footer_bytes m i) /\ length (footer_bytes m i) = 48%nat /\
  footer_DecodeFrom e (footer_bytes m i) = Ok (inr (MkFooter m i)).
Proof.
  intros Hm Hi. destruct (enc_ok m Hm) as (Em & Lm & Dm). destruct (handle_roundtrip i (enc m) Hi) as (s & Ei & Ls & Di).
  assert (enc i = s) as Hs by (unfold enc; destruct (handle_roundtrip i [] Hi) as (s' & E' & _ & D'); unfold bh_EncodeTo, PutVarint64 in *; destruct (EncodeVarint64 (bh_offset i)), (EncodeVarint64 (bh_size i)); cbn in *; rewrite <- ?app_assoc in *; simplify_eq; done).
  assert (Lr : length (resize 40 (enc m ++ s)) = 40%nat) by (unfold resize; rewrite length_app, length_take, length_replicate; lia).
  unfold footer_bytes. rewrite Hs. split; [|split].
  - unfold footer_EncodeTo. cbn [metaindex_handle index_handle]. rewrite Em. cbn [mbind res_bind]. rewrite Ei. cbn [mbind res_bind]. unfold PutFixed32.
    rewrite !encode32_le, <- app_assoc. done.
  - rewrite !length_app, !length_le_split, Lr. done.
  - unfold footer_DecodeFrom. change (Z.to_nat (kEncodedLength - 8)) with 40%nat. rewrite drop_app_length' by done. rewrite le32_get by done.
    cbn [mbind res_bind]. rewrite drop_app_length' by (by rewrite length_le_split). rewrite le32_get' by done.
    cbn [mbind res_bind]. change (negb _) with false. cbv iota. unfold resize. rewrite take_ge by (rewrite length_app; lia). rewrite <- !app_assoc, Dm, Di. done.
Qed.

(** ** Blocks in a file *)
Context (data_at : bytes -> Z) {SN : Snappy} {SL : SnappyLaws SN}.

Definition block_trailer (c : bytes) (t : CompressionType) : bytes :=
  byte.of_Z (ct_val t) :: le_split 4 (Mask (crc32c 0 (c ++ [byte.of_Z (ct_val t)]))).

(** The file has at [h] a block whose uncompressed contents are [raw]. *)
Definition holds_block (file : bytes) (h : BlockHandle) (raw : bytes) : Prop :=
  exists pre c t suf, file = pre ++ c ++ block_trailer c t ++ suf /\ bh_offset h = Z.of_nat (length pre) /\ bh_size h = Z.of_nat (length c) /\
  match t with
  | kNoCompression => c = raw
  | kSnappyCompression => Snappy_GetUncompressedLength c = Some (Z.of_nat (length raw)) /\ Snappy_Uncompress c = Some raw
  end.

Lemma holds_more file h raw x : holds_block file h raw -> holds_block (file ++ x) h raw.
Proof. intros (pre & c & t & suf & -> & H). exists pre, c, t, (suf ++ x). split; [|done]. by rewrite <- !app_assoc. Qed.

Lemma holds_good file h raw : holds_block file h raw -> Z.of_nat (length file) < 2 ^ 63 -> good_handle h.
Proof. intros (pre & c & t & suf & -> & H1 & H2 & _). rewrite !length_app. unfold good_handle. lia. Qed.

Hypothesis Hat : forall d, 0 <= data_at d.

Lemma Mask_range z : 0 <= Mask z < 2 ^ 32.
Proof. unfold Mask. by apply wrap_u_range. Qed.

Lemma read_block {F} `{!RandomAccessFile F} (contents : F -> bytes) {PL : Positioned F contents} f opts h raw :
  holds_block (contents f) h raw -> Z.of_nat (length (contents f)) < 2 ^ 63 -> exists b,
  ReadBlock e data_at f opts h = Ok (inr (MkContents raw b b)).
Proof.
  intros (pre & c & t & suf & Hf & Ho & Hn & Ht) Hsz. assert (Ltr : length (block_trailer c t) = 5%nat) by (unfold block_trailer; cbn [length]; by rewrite length_le_split).
  assert (Hlen : Z.of_nat (length pre) + Z.of_nat (length c) + 5 <= Z.of_nat (length (contents f))) by (rewrite Hf, !length_app; lia).
  unfold ReadBlock. rewrite Hn, wrap_u_small by (unfold kBlockTrailerSize; lia).
  destruct (read_at f (bh_offset h) (Z.of_nat (length c) + kBlockTrailerSize)) as [b ->]; [lia|unfold kBlockTrailerSize; lia|].
  assert (Hd : take (Z.to_nat (Z.of_nat (length c) + kBlockTrailerSize)) (drop (Z.to_nat (bh_offset h)) (contents f)) = c ++ block_trailer c t).
  { rewrite Ho, Nat2Z.id, Hf, drop_app_length, app_assoc. apply take_app_length'. rewrite length_app, Ltr. unfold kBlockTrailerSize. lia. }
  rewrite Hd. cbn [status_ok status_OK negb]. rewrite length_app, Ltr. rewrite (proj2 (Z.eqb_eq _ _)) by (unfold kBlockTrailerSize; lia). cbn [negb].
  rewrite (proj2 (Z.leb_gt _ _)) by lia. rewrite Nat2Z.id.
  assert (Hck : checksum_ok e data_at (c ++ block_trailer c t) (length c) = Ok true).
  { assert (c ++ block_trailer c t = (c ++ [byte.of_Z (ct_val t)]) ++ le_split 4 (Mask (crc32c 0 (c ++ [byte.of_Z (ct_val t)])))) as -> by (by rewrite <- app_assoc).
    unfold checksum_ok. rewrite drop_app_length', take_app_length' by (rewrite length_app; done). rewrite le32_get' by apply Mask_range. cbn [mbind res_bind].
    unfold crc_Value. rewrite Extend_ok by (done || apply Hat). cbn [mbind res_bind]. rewrite unmask_mask by (by apply crc32c_range). by rewrite Z.eqb_refl. }
  assert ((if ro_verify_checksums opts then checksum_ok e data_at (c ++ block_trailer c t) (length c) else Ok true) = Ok true) as -> by (by destruct (ro_verify_checksums opts)).
  cbn [mbind res_bind negb]. 
  assert ((c ++ block_trailer c t) !! length c = Some (byte.of_Z (ct_val t))) as -> by (by rewrite lookup_app_r, Nat.sub_diag).
  cbn [of_option mbind res_bind]. rewrite byte_of_Z_small by (destruct t; cbn; lia). rewrite take_app_length. destruct t; cbn [ct_val Z.eqb].
  - subst. by exists b.
  - destruct Ht as [-> ->]. rewrite Z.eqb_refl. by exists true.
Qed.
End Format.

(** ** Sizes of blocks *)
Definition esz (es : entries) : nat := sum_list_with (fun x => length (fst x) + length (snd x) + 32)%nat es.

Definition raw (e : bool) (k : Z) (es : entries) : bytes := fst (bb_Finish e (add_entries k es BlockBuilder_new)).

Lemma add_entries_snoc k es key v b : add_entries k (es ++ [(key, v)]) b = bb_Add k key v (add_entries k es b).
Proof. revert b. induction es as [|[k' v'] es IH]; intros b; [done|]. cbn. apply IH. Qed.

Lemma varint_short v : (length (EncodeVarint32 (wrap_u 32 v)) <= 5)%nat.
Proof. destruct (varint32_length (wrap_u 32 v)) as [_ ?]; [by apply wrap_u_range|lia]. Qed.

Lemma add_size k key v b : (length (bb_buffer (bb_Add k key v b)) + 4 * length (bb_restarts (bb_Add k key v b)) <=
  length (bb_buffer b) + 4 * length (bb_restarts b) + (length key + length v + 19))%nat.
Proof.
  unfold bb_Add. cbn [bb_buffer bb_restarts]. unfold put_size, PutVarint32. rewrite !length_app, length_drop.
  set (sh := if bb_counter b <? k then shared_prefix (bb_last_key b) key else 0%nat). pose proof (varint_short (Z.of_nat sh)). pose proof (varint_short (Z.of_nat (length key - sh))). pose proof (varint_short (Z.of_nat (length v))).
  destruct (_ <? k); rewrite ?length_app; cbn [length]; lia.
Qed.

Lemma entries_size k es : forall b, (length (bb_buffer (add_entries k es b)) + 4 * length (bb_restarts (add_entries k es b)) + 13 * length es <=
  length (bb_buffer b) + 4 * length (bb_restarts b) + esz es)%nat.
Proof.
  induction es as [|[key v] es IH]; intros b; cbn [add_entries esz sum_list_with length fst snd]; [lia|]. specialize (IH (bb_Add k key v b)).
  pose proof (add_size k key v b). unfold esz in IH. lia.
Qed.

Lemma raw_length e k es : length (raw e k es) =
  (length (bb_buffer (add_entries k es BlockBuilder_new)) + 4 * length (bb_restarts (add_entries k es BlockBuilder_new)) + 4)%nat.
Proof. unfold raw, bb_Finish. cbn [fst]. rewrite foldl_put. unfold PutFixed32. by rewrite encode32_le, !length_app, length_concat4, length_le_split. Qed.

Lemma raw_size e k es : (length (raw e k es) + 13 * length es <= esz es + 8)%nat.
Proof. rewrite raw_length. pose proof (entries_size k es BlockBuilder_new) as H. cbn [bb_buffer bb_restarts BlockBuilder_new length] in H. lia. Qed.

Lemma buffer_empty k es : bb_buffer (add_entries k es BlockBuilder_new) = [] <-> es = [].
Proof.
  split; [|by intros ->]. destruct es as [|[key v] es _] using rev_ind; [done|]. rewrite add_entries_snoc. unfold bb_Add. cbn [bb_buffer]. unfold put_size, PutVarint32.
  intros E. apply (f_equal length) in E. rewrite !length_app in E. set (b := add_entries k es BlockBuilder_new) in E.
  set (sh := if bb_counter b <? k then shared_prefix (bb_last_key b) key else 0%nat) in E. pose proof (varint_nonempty (wrap_u 32 (Z.of_nat sh))). cbn in E. lia.
Qed.

(** ** Blocks as cursors *)
Definition sorted_entries (uc : comparator) (es : entries) : Prop :=
  Forall (fun x => dom uc (fst x) = true) es /\ forall i j x y, es !! i = Some x -> es !! j = Some y -> (i < j)%nat -> cmp uc (fst x) (fst y) < 0.

(** The iterator [bi] is at the place [p] of a block made of [es]. *)
Definition raw_pos (k : Z) (es : entries) (p : nat) (bi : BlockIter) : Prop :=
  exists cs R it, builds cs R (add_entries k es BlockBuilder_new) /\ entry_of <$> cs = es /\ bi = OverBlock it /\ pos cs R p it.

Lemma Block_data e c b : Block_new e c = Ok b -> bl_data b = c.
Proof. unfold Block_new. destruct (_ <? 4); [by intros [= <-]|]. destruct (NumRestarts _ _ _); [|done]. cbn. destruct (_ <? _); by intros [= <-]. Qed.

Lemma raw_bytes e k es cs R : builds cs R (add_entries k es BlockBuilder_new) -> Z.of_nat (length (raw e k es)) < 2 ^ 32 -> raw e k es = block_bytes cs R.
Proof.
  intros HB Hsz. rewrite raw_length in Hsz. apply finish_bytes; [done|]. destruct HB as (_ & Hres & _). rewrite Hres, length_fmap in Hsz. lia.
Qed.

Lemma raw_cursor e uc {UL : CmpLaws uc} k es W (okw : W -> Prop) : sorted_entries uc es -> Z.of_nat (length (raw e k es)) < 2 ^ 32 ->
  is_cursor uc okw (IT := block_iterator e uc) (raw_pos k es) es.
Proof.
  intros [Hdom Hs] Hsz. apply cursor_union. intros p bi (cs & R & it & HB & E & Hbi & HP). pose proof (raw_bytes e k es cs R HB Hsz) as HF. rewrite HF in Hsz.
  pose proof HB as (_ & _ & _ & Hwf & HR & _).
  assert (Hes : forall i c, cs !! i = Some c -> es !! i = Some (entry_of c)) by (intros i c Hc; by rewrite <- E, list_lookup_fmap, Hc).
  exists (fun p b => exists it, b = OverBlock it /\ pos cs R p it). split; [|split; [by exists it|]].
  - rewrite <- E. apply block_cursor; try done.
    + intros i c Hc. rewrite Forall_lookup in Hdom. exact (Hdom i _ (Hes i c Hc)).
    + intros i j c d Hc Hd Hij. exact (Hs i j _ _ (Hes i c Hc) (Hes j d Hd) Hij).
  - intros q b' (it' & -> & HP'). by exists cs, R, it'.
Qed.

Lemma raw_open e k es : 1 <= k -> Z.of_nat (length (raw e k es)) < 2 ^ 32 -> exists b it,
  Block_new e (raw e k es) = Ok b /\ NewIterator e b = Ok it /\ raw_pos k es (length es) (block_iter it) /\ (length es <= length (raw e k es))%nat.
Proof.
  intros Hk Hsz. pose proof Hsz as Hsz'. rewrite raw_length in Hsz'.
  destruct (builds_all k es [] [0%nat] BlockBuilder_new builds_new Hk) as (cs & R & HB & E); [lia|]. cbn in E. pose proof (raw_bytes e k es cs R HB Hsz) as HF.
  pose proof HB as (_ & _ & _ & _ & HR & _). rewrite HF in Hsz |- *. destruct (open_block e cs R HR Hsz) as (b & it & HN & HI & HP). exists b. eexists.
  split; [done|]. split; [done|]. assert (Hl : length es = length cs) by (rewrite <- E; apply length_fmap). split.
  - exists cs, R, it. rewrite Hl. done.
  - rewrite Hl, data_length. pose proof (cells_small cs). lia.
Qed.

(** ** Building *)
Section Build.
Context (e : bool) (data_at : bytes -> Z) (Hat : forall d, 0 <= data_at d) {SN : Snappy} {SL : SnappyLaws SN}.
Context {W : Type} `{!WritableFile W} (contents : W -> bytes) {RL : Reliable W contents}.
Context (o : TableOptions) {TC : TableComparator o} (c : nat).
Hypothesis Hpolicy : forall p, to_filter_policy o = Some p -> FilterLaws p c.
Hypothesis Hinterval : 1 <= to_block_restart_interval o.

Abbreviation uc := (to_comparator o).
Abbreviation itv := (to_block_restart_interval o).

Lemma write_raw bc t (r : TableBuilder) : exists f',
  WriteRawBlock e data_at bc t r = Ok (MkHandle (tb_offset r) (Z.of_nat (length bc)),
    set_offset (wrap_u 64 (tb_offset r + Z.of_nat (length bc) + kBlockTrailerSize)) (set_io f' status_OK r)) /\
  contents f' = contents (tb_file r) ++ bc ++ block_trailer bc t.
Proof.
  unfold WriteRawBlock. destruct (append_grows bc (tb_file r)) as (f1 & -> & E1). cbn [status_ok status_OK]. unfold crc_Value.
  rewrite Extend_ok by (done || apply Hat). cbn [mbind res_bind]. rewrite Extend_ok by (apply Hat || by apply crc32c_range). cbn [mbind res_bind].
  set (tr := _ ++ EncodeFixed32 e _). assert (Htr : tr = block_trailer bc t).
  { unfold tr, block_trailer. rewrite encode32_le. cbn [app]. do 3 f_equal. unfold crc32c. rewrite crc_run_app. rewrite Z.lxor_assoc, Z.lxor_nilpotent, Z.lxor_0_r. done. }
  destruct (append_grows tr f1) as (f2 & -> & E2). cbn [status_ok status_OK]. exists f2. split; [done|]. by rewrite E2, E1, Htr, <- app_assoc.
Qed.

Lemma choose_holds comp pre rw suf h : Z.of_nat (length rw) < 2 ^ 32 -> let '(bc, t) := choose_contents comp rw in
  (length bc <= length rw)%nat /\ (bh_offset h = Z.of_nat (length pre) -> bh_size h = Z.of_nat (length bc) -> holds_block (pre ++ bc ++ block_trailer bc t ++ suf) h rw).
Proof.
  intros Hsz. assert (Hraw : (length rw <= length rw)%nat /\ (bh_offset h = Z.of_nat (length pre) -> bh_size h = Z.of_nat (length rw) -> holds_block (pre ++ rw ++ block_trailer rw kNoCompression ++ suf) h rw)).
  { split; [done|]. intros H1 H2. by exists pre, rw, kNoCompression, suf. }
  unfold choose_contents. destruct comp; [done|]. destruct (Snappy_Compress rw) as [cc|] eqn:Hc; [|done].
  destruct (Z.ltb_spec (Z.of_nat (length cc)) (Z.of_nat (length rw) - Z.of_nat (length rw) / 8)); [|done].
  assert (0 <= Z.of_nat (length rw) / 8) by (apply Z.div_pos; lia). split; [lia|]. intros H1 H2. exists pre, cc, kSnappyCompression, suf. split; [done|]. split; [done|]. split; [done|].
  by apply (compress_back rw cc).
Qed.

Lemma write_block b (r : TableBuilder) : tb_offset r = Z.of_nat (length (contents (tb_file r))) ->
  Z.of_nat (length (contents (tb_file r))) + Z.of_nat (length (fst (bb_Finish e b))) < 2 ^ 32 -> exists h f' x,
  WriteBlock e data_at b r = Ok (h, BlockBuilder_new, set_offset (Z.of_nat (length (contents f'))) (set_io f' status_OK r)) /\
  contents f' = contents (tb_file r) ++ x /\ (0 < length x <= length (fst (bb_Finish e b)) + 5)%nat /\
  bh_offset h = tb_offset r /\ holds_block (contents f') h (fst (bb_Finish e b)).
Proof.
  intros Ho Hsz. unfold WriteBlock. destruct (bb_Finish e b) as [rw b'] eqn:Eb. cbn [fst] in *.
  pose proof (fun h => choose_holds (to_compression (tb_options r)) (contents (tb_file r)) rw [] h ltac:(lia)) as Hch.
  destruct (choose_contents (to_compression (tb_options r)) rw) as [bc t]. destruct (write_raw bc t r) as (f' & E & Ef). rewrite E. cbn [mbind res_bind].
  assert (Lt : length (block_trailer bc t) = 5%nat) by (unfold block_trailer; cbn [length]; by rewrite length_le_split).
  destruct (Hch (MkHandle (tb_offset r) (Z.of_nat (length bc)))) as [Hle Hh].
  exists (MkHandle (tb_offset r) (Z.of_nat (length bc))), f', (bc ++ block_trailer bc t). split.
  - do 2 f_equal. rewrite Ef, !length_app, Lt. unfold kBlockTrailerSize. rewrite wrap_u_small; [f_equal; lia|lia].
  - split; [done|]. split; [rewrite length_app; lia|]. split; [done|]. rewrite app_nil_r in Hh. rewrite Ef. by apply Hh.
Qed.

(** ** The invariant *)
Abbreviation written := (list (entries * BlockHandle)).

Definition index_of (K : list bytes) (D : written) : entries := zip_with (fun key d => (key, enc (snd d))) K D.

(** The keys of the index separate the blocks [B]. *)
Definition separated (K : list bytes) (B : list entries) : Prop :=
  forall i key, K !! i = Some key -> dom uc key = true /\ (exists b y, B !! i = Some b /\ y ∈ b /\ (length key <= length (fst y))%nat) /\
    (forall b y, B !! i = Some b -> y ∈ b -> cmp uc (fst y) key <= 0) /\
    (forall j b y, (i < j)%nat -> B !! j = Some b -> y ∈ b -> cmp uc key (fst y) < 0).

(** The filter has, or will have, every key. *)
Definition filter_inv (D : written) (cur : entries) (off : Z) (n : nat) (fb : option (FilterPolicy * FilterBlockBuilder)) : Prop :=
  match fb with
  | None => to_filter_policy o = None
  | Some (p, f) => to_filter_policy o = Some p /\ exists F ks, fb_holds F ks f /\ Z.of_nat (length F) = off / kFilterBase /\
      (length ks <= n)%nat /\ (length (concat F) + 2 * c * length ks <= 2 * c * n)%nat /\
      (forall d y, d ∈ D -> y ∈ fst d -> served (P := p) F ks (bh_offset (snd d)) (fst y)) /\
      forall y, y ∈ cur -> served (P := p) F ks off (fst y)
  end.

Definition blocks_inv (file : bytes) (D : written) : Prop :=
  (forall i d, D !! i = Some d -> holds_block file (snd d) (raw e itv (fst d)) /\ fst d <> [] /\ bh_offset (snd d) < Z.of_nat (length file)) /\
  (forall i j d d', (i < j)%nat -> D !! i = Some d -> D !! j = Some d' -> bh_offset (snd d) < bh_offset (snd d')).

(** Data blocks [D] are written, [K] are the keys in the index, and [cur] are the
    entries of the block that is being built. *)
Record tb_inv (D : written) (K : list bytes) (cur : entries) (r : TableBuilder) : Prop := {
  v_opts : tb_options r = o;
  v_status : tb_status r = status_OK;
  v_off : tb_offset r = Z.of_nat (length (contents (tb_file r)));
  v_size : (length (contents (tb_file r)) <= esz (concat (fst <$> D)))%nat;
  v_blocks : blocks_inv (contents (tb_file r)) D;
  v_sorted : sorted_entries uc (concat (fst <$> D) ++ cur);
  v_data : tb_data_block r = add_entries itv cur BlockBuilder_new;
  v_index : tb_index_block r = add_entries 1 (index_of K D) BlockBuilder_new;
  v_pending : if tb_pending_index_entry r
    then cur = [] /\ exists D' d x, D = D' ++ [d] /\ length K = length D' /\ tb_pending_handle r = snd d /\ last (fst d) = Some x /\ tb_last_key r = fst x
    else length K = length D;
  v_last : forall x, last cur = Some x -> tb_last_key r = fst x;
  v_seps : separated K ((fst <$> D) ++ [cur]);
  v_filter : filter_inv D cur (tb_offset r) (length (concat (fst <$> D) ++ cur)) (tb_filter_block r)
}.

Lemma inv_new file : contents file = [] -> exists r, TableBuilder_new o file = Ok r /\ tb_inv [] [] [] r /\ tb_pending_index_entry r = false.
Proof.
  intros Hf. unfold TableBuilder_new.
  assert (HS : start_filter 0 ((fun p => (p, FilterBlockBuilder_new)) <$> to_filter_policy o) = Ok ((fun p => (p, FilterBlockBuilder_new)) <$> to_filter_policy o)).
  { by destruct (to_filter_policy o). }
  rewrite HS. cbn [mbind res_bind]. eexists. split; [done|]. split; [|done]. split; try done; cbn [tb_options tb_status tb_offset tb_file tb_filter_block]; rewrite ?Hf; try done.
  destruct (to_filter_policy o) as [p|] eqn:Hp; cbn; [|done]. split; [done|]. exists [], []. split_and!; try done; try (cbn; lia).
  - intros d y Hd. by apply elem_of_nil in Hd.
  - intros y Hy. by apply elem_of_nil in Hy.
Qed.

Lemma index_snoc K D D' d key : D = D' ++ [d] -> length K = length D' -> index_of (K ++ [key]) D = index_of K D ++ [(key, enc (snd d))].
Proof.
  intros -> HK. unfold index_of. rewrite (zip_with_app _ K [key] D' [d]) by done. rewrite (zip_with_app_r _ K D' [d]). rewrite take_ge, drop_ge by lia. cbn. by rewrite app_nil_r.
Qed.

Lemma sorted_before es x y i : sorted_entries uc es -> es !! i = Some x -> y ∈ take i es -> cmp uc (fst y) (fst x) < 0.
Proof.
  intros [_ Hs] Hx Hy. apply list_elem_of_lookup in Hy as [j Hj]. apply lookup_take_Some in Hj as [Hj Hji]. by apply (Hs j i).
Qed.

Lemma sorted_dom es x : sorted_entries uc es -> x ∈ es -> dom uc (fst x) = true.
Proof. intros [Hd _] Hx. rewrite Forall_forall in Hd. by apply Hd. Qed.

Lemma sorted_app_r a b : sorted_entries uc (a ++ b) -> sorted_entries uc b.
Proof.
  intros [Hd Hs]. split; [by apply Forall_app in Hd as [_ ?]|]. intros i j x y Hx Hy Hij.
  apply (Hs (length a + i)%nat (length a + j)%nat); [|by rewrite lookup_app_r, Nat.add_sub_swap, Nat.sub_diag by lia|lia]. by rewrite lookup_app_r, Nat.add_sub_swap, Nat.sub_diag by lia.
Qed.

Lemma sorted_app_l a b : sorted_entries uc (a ++ b) -> sorted_entries uc a.
Proof.
  intros [Hd Hs]. split; [by apply Forall_app in Hd as [? _]|]. intros i j x y Hx Hy Hij.
  apply (Hs i j); [by apply lookup_app_l_Some|by apply lookup_app_l_Some|done].
Qed.

Lemma sorted_cross a b x y : sorted_entries uc (a ++ b) -> x ∈ a -> y ∈ b -> cmp uc (fst x) (fst y) < 0.
Proof.
  intros [_ Hs] Hx Hy. apply list_elem_of_lookup in Hx as [i Hi]. apply list_elem_of_lookup in Hy as [j Hj].
  apply (Hs i (length a + j)%nat x y); [by apply lookup_app_l_Some|by rewrite lookup_app_r, Nat.add_sub_swap, Nat.sub_diag by lia|]. apply lookup_lt_Some in Hi. lia.
Qed.

(** In a sorted block everything is at or before the last key. *)
Lemma last_greatest b x y : sorted_entries uc b -> last b = Some x -> y ∈ b -> cmp uc (fst y) (fst x) <= 0.
Proof.
  intros Hs Hx Hy. destruct b as [|z b _] using rev_ind; [done|]. rewrite last_snoc in Hx. injection Hx as ->. apply elem_of_app in Hy as [Hy|Hy].
  - assert (cmp uc (fst y) (fst x) < 0); [|lia]. apply (sorted_cross b [x]); [done|done|by apply list_elem_of_singleton].
  - apply list_elem_of_singleton in Hy as ->. assert (cmp uc (fst x) (fst x) = 0); [|lia]. apply cmp_eq; try done; apply (sorted_dom (b ++ [x])); set_solver.
Qed.

Lemma cmp_le_lt a b d : dom uc a = true -> dom uc b = true -> dom uc d = true -> cmp uc a b <= 0 -> cmp uc b d < 0 -> cmp uc a d < 0.
Proof. intros Ha Hb Hd H1 H2. destruct (decide (cmp uc a b = 0)) as [E|]; [by apply cmp_eq in E as ->|]. apply (cmp_trans _ b); try done. lia. Qed.

Lemma cmp_le_le a b d : dom uc a = true -> dom uc b = true -> dom uc d = true -> cmp uc a b <= 0 -> cmp uc b d <= 0 -> cmp uc a d <= 0.
Proof.
  intros Ha Hb Hd H1 H2. destruct (decide (cmp uc b d = 0)) as [E|]; [by apply cmp_eq in E as <-|]. assert (cmp uc a d < 0); [|lia]. apply (cmp_le_lt a b d); try done. lia.
Qed.

Lemma inv_good D K cur r d : tb_inv D K cur r -> Z.of_nat (length (contents (tb_file r))) < 2 ^ 63 -> d ∈ D -> good_handle (snd d).
Proof.
  intros HI Hsz Hd. apply list_elem_of_lookup in Hd as [i Hi]. destruct (v_blocks _ _ _ _ HI) as [HB _]. destruct (HB i d Hi) as (Hh & _). by apply (holds_good _ _ _ Hh).
Qed.

(** The index entry of the last block, under any key that is not before it. *)
Lemma close_index D K r key : tb_inv D K [] r -> tb_pending_index_entry r = true -> Z.of_nat (length (contents (tb_file r))) < 2 ^ 63 ->
  dom uc key = true -> cmp uc (tb_last_key r) key <= 0 -> (length key <= length (tb_last_key r))%nat -> exists r',
  add_pending key r = Ok r' /\ tb_inv D (K ++ [key]) [] r' /\ tb_pending_index_entry r' = false /\ tb_last_key r' = key /\ tb_file r' = tb_file r.
Proof.
  intros HI Hp Hsz Hdom Hle Hlen. pose proof (v_pending _ _ _ _ HI) as HP. rewrite Hp in HP. destruct HP as (_ & D' & d & x & ED & HK & Hh & Hx & Hl).
  assert (Hd : d ∈ D) by (rewrite ED; set_solver). unfold add_pending. rewrite Hh. destruct (enc_ok (snd d) (inv_good D K [] r d HI Hsz Hd)) as (-> & _). cbn [mbind res_bind].
  eexists. split; [done|]. split; [|done]. assert (Hxd : x ∈ fst d) by (destruct (fst d) as [|z b _] using rev_ind; [done|]; rewrite last_snoc in Hx; set_solver).
  assert (Hdi : D !! length D' = Some d) by (rewrite ED, lookup_app_r, Nat.sub_diag by done; done).
  pose proof (v_sorted _ _ _ _ HI) as Hs. rewrite app_nil_r in Hs.
  assert (Hsd : sorted_entries uc (fst d)).
  { rewrite ED, fmap_app, concat_app in Hs. apply sorted_app_r in Hs. cbn in Hs. by rewrite app_nil_r in Hs. }
  destruct HI. split; try done; cbn.
  - rewrite v_index0, (index_snoc K D D' d key ED HK), add_entries_snoc. done.
  - rewrite ED, !length_app. cbn. lia.
  - intros i k Hk. apply lookup_app_Some in Hk as [Hk|[Hi Hk]]; [by apply v_seps0|]. apply list_lookup_singleton_Some in Hk as [Hi' <-].
    assert (i = length D') as -> by lia. assert (Hb : ((fst <$> D) ++ [[]]) !! length D' = Some (fst d)) by (apply lookup_app_l_Some; by rewrite list_lookup_fmap, Hdi).
    split; [done|]. split; [exists (fst d), x; split; [done|]; split; [done|congruence]|]. split.
    + intros b y Hb' Hy. assert (b = fst d) as -> by congruence. rewrite Hl in Hle.
      apply (cmp_le_le _ (fst x)); [by apply (sorted_dom (fst d))|by apply (sorted_dom (fst d))|done| |done]. by apply (last_greatest (fst d)).
    + intros j b y Hj Hb' Hy. assert (b = []) as ->; [|by apply elem_of_nil in Hy]. apply lookup_app_Some in Hb' as [Hb'|[_ Hb']].
      * apply lookup_lt_Some in Hb'. rewrite length_fmap, ED, length_app in Hb'. cbn in Hb'. lia.
      * by apply list_lookup_singleton_Some in Hb' as [_ <-].
Qed.

(** Taking an entry into the block that is being built. *)
Definition take_entry (key v : bytes) (r : TableBuilder) : @TableBuilder W :=
  let r := set_filter_block ((fun pf => (fst pf, AddKey key (snd pf))) <$> tb_filter_block r) r in
  let r := count_key key r in
  set_data_block (bb_Add (to_block_restart_interval (tb_options r)) key v (tb_data_block r)) r.

Lemma take_entry_ok D K cur r key v : tb_inv D K cur r -> tb_pending_index_entry r = false -> sorted_entries uc (concat (fst <$> D) ++ cur ++ [(key, v)]) ->
  (forall k, k ∈ K -> cmp uc k key < 0) -> tb_inv D K (cur ++ [(key, v)]) (take_entry key v r) /\ tb_pending_index_entry (take_entry key v r) = false.
Proof.
  intros HI Hp Hs HK. split; [|done]. pose proof (v_pending _ _ _ _ HI) as HP. rewrite Hp in HP. destruct HI. split; try done; cbn.
  - by rewrite v_data0, v_opts0, add_entries_snoc.
  - by rewrite Hp.
  - intros x. rewrite last_snoc. by intros [= <-].
  - intros i k Hk. destruct (v_seps0 i k Hk) as (H1 & (b & y & Hb & Hy & Hl) & H2 & H3). assert (Hi : (i < length (fst <$> D))%nat) by (rewrite length_fmap; apply lookup_lt_Some in Hk; lia).
    rewrite lookup_app_l in Hb by done. split; [done|]. split; [exists b, y; split; [by rewrite lookup_app_l|done]|]. split.
    + intros b' y' Hb' Hy'. rewrite lookup_app_l in Hb' by done. apply (H2 b'); [by rewrite lookup_app_l|done].
    + intros j b' y' Hj Hb' Hy'. apply lookup_app_Some in Hb' as [Hb'|[Hge Hb']]; [apply (H3 j b'); [done|by apply lookup_app_l_Some|done]|].
      apply list_lookup_singleton_Some in Hb' as [Hj' <-]. apply elem_of_app in Hy' as [Hy'|Hy'].
      * apply (H3 j cur); [done| |done]. rewrite lookup_app_r by done. apply list_lookup_singleton_Some. done.
      * apply list_elem_of_singleton in Hy' as ->. apply HK. by apply list_elem_of_lookup_2 in Hk.
  - destruct (tb_filter_block r) as [[p f]|] eqn:Ef; cbn in *; [|done]. destruct v_filter0 as (Hpol & F & ks & HF & HlF & Hn & Hz & HD & HC). pose proof (Hpolicy p Hpol). split; [done|].
    exists F, (ks ++ [key]). rewrite app_assoc, !length_app in *. cbn [length]. split; [by apply fb_add|]. split; [done|]. split; [lia|]. split; [lia|]. split.
    + intros d y Hd Hy. by apply served_more, HD.
    + intros y [Hy|Hy]%elem_of_app; [by apply served_more, HC|]. apply list_elem_of_singleton in Hy as ->. by apply served_add.
Qed.

Lemma esz_app a b : esz (a ++ b) = (esz a + esz b)%nat.
Proof. apply sum_list_with_app. Qed.

Lemma esz_length es : (32 * length es <= esz es)%nat.
Proof. induction es as [|x es IH]; cbn; [lia|]. unfold esz in IH. lia. Qed.

Lemma blocks_snoc file x D es h : blocks_inv file D -> bh_offset h = Z.of_nat (length file) -> es <> [] -> (0 < length x)%nat ->
  holds_block (file ++ x) h (raw e itv es) -> blocks_inv (file ++ x) (D ++ [(es, h)]).
Proof.
  intros [HB HO] Hoff Hne Hx Hh. split.
  - intros i d Hd. apply lookup_app_Some in Hd as [Hd|[_ Hd]].
    + destruct (HB i d Hd) as (H1 & H2 & H3). split; [by apply holds_more|]. split; [done|]. rewrite length_app. lia.
    + apply list_lookup_singleton_Some in Hd as [_ <-]. cbn. split; [done|]. split; [done|]. rewrite length_app. lia.
  - intros i j d d' Hij Hd Hd'. apply lookup_app_Some in Hd' as [Hd'|[Hge Hd']].
    + apply (HO i j d d'); [done| |done]. rewrite lookup_app_l in Hd; [done|]. apply lookup_lt_Some in Hd'. lia.
    + apply list_lookup_singleton_Some in Hd' as [Hj <-]. rewrite lookup_app_l in Hd by lia. cbn. rewrite Hoff. by apply (HB i).
Qed.

Lemma filter_flush D cur off off' n fb h : filter_inv D cur off n fb -> 0 <= off <= off' -> bh_offset h = off -> Z.of_nat n < 2 ^ 31 -> exists fb',
  start_filter off' fb = Ok fb' /\ filter_inv (D ++ [(cur, h)]) [] off' n fb'.
Proof.
  intros HF Hoff Hh Hn. destruct fb as [[p f]|]; cbn in *; [|by exists None]. destruct HF as (Hpol & F & ks & HF & HlF & Hks & Hz & HD & HC). pose proof (Hpolicy p Hpol) as FLp.
  destruct (start_ok (P := p) F ks f off' HF) as (F' & ks' & f' & E & HF' & Hl & Hk & Hz' & HS); [lia|lia|rewrite HlF; apply Z.div_le_mono; [done|lia]|].
  rewrite E. cbn [mbind res_bind]. eexists. split; [done|]. split; [done|]. exists F', ks'. split_and!; try done; [lia|lia| |].
  - intros d y [Hd|Hd]%elem_of_app Hy; [by apply HS, HD|]. apply list_elem_of_singleton in Hd as ->. cbn in *. rewrite Hh. by apply HS, HC.
  - intros y Hy. by apply elem_of_nil in Hy.
Qed.

Lemma tb_flush_ok D K cur r : tb_inv D K cur r -> tb_pending_index_entry r = false -> cur <> [] -> Z.of_nat (esz (concat (fst <$> D) ++ cur)) < 2 ^ 31 -> exists h r',
  tb_Flush e data_at r = Ok r' /\ tb_inv (D ++ [(cur, h)]) K [] r' /\ tb_pending_index_entry r' = true.
Proof.
  intros HI Hp Hne Hsz. pose proof (raw_size e itv cur) as Hraw. rewrite esz_app in Hsz. pose proof (esz_length cur). pose proof (esz_length (concat (fst <$> D))).
  assert (1 <= length cur)%nat by (destruct cur; [done|cbn; lia]). pose proof (v_size _ _ _ _ HI) as Hc. unfold tb_Flush, tb_ok. rewrite (v_status _ _ _ _ HI). cbn [status_ok status_OK negb].
  rewrite (v_data _ _ _ _ HI). rewrite bool_decide_eq_false_2 by (by rewrite buffer_empty).
  destruct (write_block (add_entries itv cur BlockBuilder_new) r (v_off _ _ _ _ HI)) as (h & f' & x & -> & Ef & Hx & Hh & HB); [unfold raw in Hraw; lia|]. fold (raw e itv cur) in *.
  cbn [mbind res_bind set_pending set_data_block set_offset set_io tb_status tb_file status_ok status_OK tb_pending_handle tb_pending_index_entry tb_options tb_offset tb_data_block tb_index_block tb_last_key tb_num_entries tb_closed tb_filter_block].
  destruct (flush_keeps f') as (f2 & -> & E2).
  match goal with |- context [start_filter ?a ?b] => change a with (Z.of_nat (length (contents f'))); change b with (tb_filter_block r) end.
  destruct (filter_flush D cur (tb_offset r) (Z.of_nat (length (contents f'))) _ (tb_filter_block r) h (v_filter _ _ _ _ HI)) as (fb' & -> & HFB);
    [rewrite (v_off _ _ _ _ HI), Ef, length_app; lia|done|rewrite length_app; lia|].
  cbn [mbind res_bind]. exists h. eexists. split; [done|]. split; [|done]. pose proof (v_pending _ _ _ _ HI) as HP. rewrite Hp in HP.
  assert (Hcat : concat (fst <$> D ++ [(cur, h)]) = concat (fst <$> D) ++ cur) by (rewrite fmap_app, concat_app; cbn; by rewrite app_nil_r).
  pose proof (v_off _ _ _ _ HI) as Hoff. pose proof (v_last _ _ _ _ HI) as Hlast. destruct (last cur) as [x0|] eqn:Hx0; [|by apply last_None in Hx0].
  destruct HI. split; try done; cbn; rewrite ?Hcat, ?app_nil_r, ?E2, ?Ef; try done.
  - rewrite esz_app, length_app. lia.
  - apply blocks_snoc; [done|congruence|done|lia|by rewrite <- Ef].
  - unfold index_of. rewrite zip_with_app_r, take_ge, drop_ge by lia. cbn. by rewrite app_nil_r.
  - split; [done|]. exists D, (cur, h), x0. cbn. split_and!; try done. by apply Hlast.
  - intros i k Hk. destruct (v_seps0 i k Hk) as (S1 & S2 & S3 & S4). rewrite fmap_app. cbn [fmap list_fmap fst].
    assert (Hlk : forall j b, b <> [] -> (((fst <$> D) ++ [cur]) ++ [[]]) !! j = Some b -> ((fst <$> D) ++ [cur]) !! j = Some b).
    { intros j b Hb Hj. apply lookup_app_Some in Hj as [Hj|[_ Hj]]; [done|]. apply list_lookup_singleton_Some in Hj as [_ <-]. done. }
    split; [done|]. split; [destruct S2 as (b & y & Hb & Hy); exists b, y; split; [by apply lookup_app_l_Some|done]|]. split.
    + intros b y Hb Hy. apply (S3 b); [|done]. apply Hlk; [|done]. intros ->. by apply elem_of_nil in Hy.
    + intros j b y Hj Hb Hy. apply (S4 j b); [done| |done]. apply Hlk; [|done]. intros ->. by apply elem_of_nil in Hy.
  - by rewrite <- Ef.
Qed.

(** After a call the index is behind only when its block is the last. *)
Definition tb_ready (D : written) (cur : entries) (r : @TableBuilder W) : Prop := tb_pending_index_entry r = false -> cur = [] -> D = [].

Lemma seps_below D K cur r (x : bytes * bytes) : tb_inv D K cur r -> dom uc (fst x) = true ->
  (exists j b y, (length K <= j)%nat /\ ((fst <$> D) ++ [cur]) !! j = Some b /\ y ∈ b /\ dom uc (fst y) = true /\ cmp uc (fst y) (fst x) <= 0) ->
  forall k, k ∈ K -> cmp uc k (fst x) < 0.
Proof.
  intros HI Hx (j & b & y & Hj & Hb & Hy & Hdy & Hle) k Hk. apply list_elem_of_lookup in Hk as [i Hi].
  destruct (v_seps _ _ _ _ HI i k Hi) as (H1 & _ & _ & H4). specialize (H4 j b y ltac:(apply lookup_lt_Some in Hi; lia) Hb Hy).
  destruct (decide (cmp uc (fst y) (fst x) = 0)) as [E|]; [apply cmp_eq in E; [by rewrite <- E|done|done]|]. apply (cmp_trans _ (fst y)); try done. lia.
Qed.

Lemma pending_ok D K cur r key v : tb_inv D K cur r -> tb_ready D cur r -> sorted_entries uc (concat (fst <$> D) ++ cur ++ [(key, v)]) ->
  Z.of_nat (length (contents (tb_file r))) < 2 ^ 63 -> exists K' r',
  (if tb_pending_index_entry r then last_key ← to_FindShortestSeparator (tb_options r) (tb_last_key r) key; add_pending last_key r else Ok r) = Ok r' /\
  tb_inv D K' cur r' /\ tb_pending_index_entry r' = false /\ forall k, k ∈ K' -> cmp uc k key < 0.
Proof.
  intros HI Hr Hs Hsz. pose proof (v_pending _ _ _ _ HI) as HP. assert (Hkey : dom uc key = true) by (apply (sorted_dom _ (key, v) Hs); set_solver).
  assert (Hlow : forall y, y ∈ concat (fst <$> D) ++ cur -> dom uc (fst y) = true /\ cmp uc (fst y) key < 0).
  { rewrite app_assoc in Hs. intros y Hy. split; [apply (sorted_dom _ y Hs); set_solver|]. apply (sorted_cross _ [(key, v)] y (key, v) Hs Hy). set_solver. }
  destruct (tb_pending_index_entry r) eqn:Hp.
  - destruct HP as (-> & D' & d & x & ED & HK & Hh & Hx & Hl). rewrite (v_opts _ _ _ _ HI).
    assert (Hxd : x ∈ fst d) by (destruct (fst d) as [|z b _] using rev_ind; [done|]; rewrite last_snoc in Hx; set_solver).
    assert (Hxc : x ∈ concat (fst <$> D) ++ []) by (rewrite app_nil_r, ED, fmap_app, concat_app; cbn; set_solver). destruct (Hlow x Hxc) as [Hdx Hlt].
    rewrite Hl. destruct (tc_sep (fst x) key Hdx Hkey Hlt) as (sk & -> & Hds & Hle & Hlt' & Hlen). cbn [mbind res_bind].
    destruct (close_index D K r sk HI Hp Hsz Hds) as (r' & -> & HI' & Hp' & _ & _); [by rewrite Hl|by rewrite Hl|]. exists (K ++ [sk]), r'. split; [done|]. split; [done|]. split; [done|].
    intros k [Hk|Hk]%elem_of_app; [|by apply list_elem_of_singleton in Hk as ->].
    apply (seps_below D K [] r (key, v) HI Hkey); [|done]. exists (length D'), (fst d), x. split; [lia|]. split.
    + apply lookup_app_l_Some. rewrite list_lookup_fmap, ED, lookup_app_r, Nat.sub_diag by done. done.
    + split; [done|]. split; [done|]. cbn. lia.
  - exists K, r. split; [done|]. split; [done|]. split; [done|]. destruct cur as [|z cur].
    + rewrite (Hr Hp eq_refl) in HP. destruct K; [|done]. intros k Hk. by apply elem_of_nil in Hk.
    + apply (seps_below D K (z :: cur) r (key, v) HI Hkey). exists (length D), (z :: cur), z. split; [lia|]. split.
      * rewrite lookup_app_r, length_fmap, Nat.sub_diag by (by rewrite length_fmap). done.
      * destruct (Hlow z) as [? ?]; [set_solver|]. split; [set_solver|]. split; [done|]. cbn. lia.
Qed.

Lemma add_ok D K cur r key v : tb_inv D K cur r -> tb_ready D cur r -> sorted_entries uc (concat (fst <$> D) ++ cur ++ [(key, v)]) ->
  Z.of_nat (esz (concat (fst <$> D) ++ cur ++ [(key, v)])) < 2 ^ 31 -> exists D' K' cur' r',
  tb_Add e data_at key v r = Ok r' /\ tb_inv D' K' cur' r' /\ tb_ready D' cur' r' /\ concat (fst <$> D') ++ cur' = concat (fst <$> D) ++ cur ++ [(key, v)].
Proof.
  intros HI Hr Hs Hsz. pose proof (v_size _ _ _ _ HI) as Hc. rewrite esz_app in Hsz.
  destruct (pending_ok D K cur r key v HI Hr Hs) as (K' & r1 & E & HI1 & Hp1 & HK1); [lia|].
  unfold tb_Add, tb_ok. rewrite (v_status _ _ _ _ HI). cbn [status_ok status_OK negb]. rewrite E. cbn [mbind res_bind].
  change (set_data_block _ (count_key key _)) with (take_entry key v r1). destruct (take_entry_ok D K' cur r1 key v HI1 Hp1 Hs HK1) as [HI2 Hp2].
  destruct (_ <=? _).
  - destruct (tb_flush_ok D K' _ _ HI2 Hp2) as (h & r' & E' & HI' & Hp'); [by destruct cur|rewrite esz_app; lia|].
    exists (D ++ [(cur ++ [(key, v)], h)]), K', [], r'. split; [done|]. split; [done|]. split; [by intros ?; congruence|].
    rewrite fmap_app, concat_app. cbn. by rewrite !app_nil_r.
  - exists D, K', (cur ++ [(key, v)]), (take_entry key v r1). split; [done|]. split; [done|]. split; [|done]. intros _ Hn. by destruct cur.
Qed.

Fixpoint add_all (es : entries) (r : TableBuilder) : res (@TableBuilder W) :=
  match es with [] => Ok r | (key, v) :: es' => r ← tb_Add e data_at key v r; add_all es' r end.

Lemma add_all_entries es : forall D K cur r, tb_inv D K cur r -> tb_ready D cur r -> sorted_entries uc (concat (fst <$> D) ++ cur ++ es) ->
  Z.of_nat (esz (concat (fst <$> D) ++ cur ++ es)) < 2 ^ 31 -> exists D' K' cur' r',
  add_all es r = Ok r' /\ tb_inv D' K' cur' r' /\ tb_ready D' cur' r' /\ concat (fst <$> D') ++ cur' = concat (fst <$> D) ++ cur ++ es.
Proof.
  induction es as [|[key v] es IH]; intros D K cur r HI Hr Hs Hsz; cbn [add_all].
  - exists D, K, cur, r. by rewrite app_nil_r.
  - assert (Hcat : concat (fst <$> D) ++ cur ++ (key, v) :: es = (concat (fst <$> D) ++ cur ++ [(key, v)]) ++ es) by (rewrite <- !app_assoc; done).
    rewrite Hcat in *. destruct (add_ok D K cur r key v HI Hr) as (D1 & K1 & cur1 & r1 & -> & HI1 & Hr1 & E1); [by apply sorted_app_l in Hs|rewrite esz_app in Hsz; lia|].
    cbn [mbind res_bind]. rewrite <- E1, <- app_assoc in Hs, Hsz |- *. by apply (IH D1 K1 cur1).
Qed.

(** ** Finishing *)

(** A builder that has written [x], with nothing else changed that matters. *)
Record wrote (x : bytes) (r r' : @TableBuilder W) : Prop := {
  w_opts : tb_options r' = tb_options r;
  w_status : tb_status r' = status_OK;
  w_file : contents (tb_file r') = contents (tb_file r) ++ x;
  w_off : tb_offset r' = Z.of_nat (length (contents (tb_file r')));
  w_index : tb_index_block r' = tb_index_block r;
  w_last : tb_last_key r' = tb_last_key r;
  w_pending : tb_pending_index_entry r' = tb_pending_index_entry r;
  w_handle : tb_pending_handle r' = tb_pending_handle r
}.

Definition name_length : nat := match to_filter_policy o with Some p => length (@fp_Name p) | None => 0 end.
Definition meta_entries (hf : BlockHandle) : entries :=
  match to_filter_policy o with Some p => [(lit "filter." ++ @fp_Name p, enc hf)] | None => [] end.

(** The file has the filter of the data blocks. *)
Definition has_filter (file : bytes) (D : written) (hf : BlockHandle) : Prop :=
  forall p, to_filter_policy o = Some p -> exists F, holds_block file hf (filter_bytes F) /\ Z.of_nat (length (filter_bytes F)) < 2 ^ 32 /\
    forall d y, d ∈ D -> y ∈ fst d -> made (P := p) F (bh_offset (snd d)) (fst y).

Lemma finish_filter_ok D n r : tb_status r = status_OK -> tb_offset r = Z.of_nat (length (contents (tb_file r))) ->
  filter_inv D [] (tb_offset r) n (tb_filter_block r) -> Z.of_nat (2 * length (contents (tb_file r)) + 2 * c * n + n) + 100 < 2 ^ 31 -> exists hf x r',
  finish_filter e data_at r = Ok (hf, r') /\ wrote x r r' /\ (length x <= length (contents (tb_file r)) + 2 * c * n + 14)%nat /\
  has_filter (contents (tb_file r')) D hf /\ (is_Some (tb_filter_block r') <-> is_Some (to_filter_policy o)).
Proof.
  intros Hst Hoff HF Hsz. unfold finish_filter, tb_ok. rewrite Hst. cbn [status_ok status_OK]. destruct (tb_filter_block r) as [[p f]|] eqn:Ef; cbn in HF.
  - destruct HF as (Hpol & F & ks & HF & HlF & Hks & Hz & HD & _). pose proof (Hpolicy p Hpol) as FLp.
    destruct (finish_ok e (P := p) F ks f HF ltac:(lia)) as (F' & data & f' & HM & Hl & E & Hd). rewrite E. cbn [mbind res_bind].
    assert (4 * Z.of_nat (length F) <= Z.of_nat (length (contents (tb_file r)))).
    { rewrite HlF, Hoff. change kFilterBase with 2048. pose proof (Z.mul_div_le (Z.of_nat (length (contents (tb_file r)))) 2048 eq_refl). lia. }
    specialize (Hd ltac:(lia)). destruct (write_raw data kNoCompression (set_filter_block (Some (p, f')) r)) as (g & -> & Eg). cbn [tb_file set_filter_block tb_offset] in *.
    assert (Lt : length (block_trailer data kNoCompression) = 5%nat) by (unfold block_trailer; cbn [length]; by rewrite length_le_split).
    eexists _, (data ++ block_trailer data kNoCompression), _. split; [done|].
    split; [split; try done; cbn; rewrite Eg, !length_app, Lt, wrap_u_small; unfold kBlockTrailerSize; lia|].
    split; [rewrite length_app, Lt; lia|]. split; [|by cbn; rewrite Hpol]. cbn. intros p' Hp'. assert (p' = p) as -> by congruence. exists F'. rewrite <- Hd. split; [|split; [lia|]].
    + exists (contents (tb_file r)), data, kNoCompression, []. rewrite Eg, app_nil_r. done.
    + intros d y Hdd Hy. by apply HM, HD.
  - exists BlockHandle_new, [], r. split; [done|]. split; [split; try done; by rewrite app_nil_r|]. split; [cbn; lia|].
    split; [intros p Hp; congruence|]. rewrite Ef, HF. done.
Qed.

Lemma write_block_wrote b (r : TableBuilder) : tb_offset r = Z.of_nat (length (contents (tb_file r))) ->
  Z.of_nat (length (contents (tb_file r))) + Z.of_nat (length (fst (bb_Finish e b))) < 2 ^ 32 -> exists h x r',
  WriteBlock e data_at b r = Ok (h, BlockBuilder_new, r') /\ wrote x r r' /\ (length x <= length (fst (bb_Finish e b)) + 5)%nat /\
  holds_block (contents (tb_file r')) h (fst (bb_Finish e b)).
Proof.
  intros Hoff Hsz. destruct (write_block b r Hoff Hsz) as (h & f' & x & E & Ef & Hx & _ & HB). exists h, x. eexists. split; [done|]. split; [by split|]. split; [lia|done].
Qed.

Lemma finish_metaindex_ok r hf : tb_options r = o -> tb_status r = status_OK -> tb_offset r = Z.of_nat (length (contents (tb_file r))) ->
  (is_Some (tb_filter_block r) <-> is_Some (to_filter_policy o)) -> (is_Some (to_filter_policy o) -> good_handle hf) ->
  Z.of_nat (length (contents (tb_file r)) + name_length) + 200 < 2 ^ 32 -> exists m x r',
  finish_metaindex e data_at hf r = Ok (m, r') /\ wrote x r r' /\ (length x <= name_length + 72)%nat /\
  holds_block (contents (tb_file r')) m (raw e itv (meta_entries hf)).
Proof.
  intros Ho Hst Hoff Hfil Hgood Hsz. unfold finish_metaindex, tb_ok. rewrite Hst. cbn [status_ok status_OK]. rewrite Ho.
  assert (Hb : (match tb_filter_block r with Some _ => policy ← of_option NullDeref (to_filter_policy o); handle_encoding ← bh_EncodeTo hf [];
      Ok (bb_Add itv (lit "filter." ++ @fp_Name policy) handle_encoding BlockBuilder_new) | None => Ok BlockBuilder_new end) = Ok (add_entries itv (meta_entries hf) BlockBuilder_new)).
  { unfold meta_entries. destruct (to_filter_policy o) as [p|], (tb_filter_block r) as [f|]; cbn.
    - destruct (enc_ok hf) as (-> & _); [by apply Hgood|done].
    - destruct Hfil as [_ Hfil]. by destruct (Hfil ltac:(by eexists)).
    - destruct Hfil as [Hfil _]. by destruct (Hfil ltac:(by eexists)).
    - done. }
  rewrite Hb. cbn [mbind res_bind]. pose proof (raw_size e itv (meta_entries hf)) as Hraw. unfold raw in Hraw.
  assert (Hesz : (esz (meta_entries hf) <= name_length + 59)%nat).
  { unfold meta_entries, name_length. destruct (to_filter_policy o); cbn; [|lia]. destruct (enc_ok hf) as (_ & ? & _); [by apply Hgood|]. lia. }
  destruct (write_block_wrote (add_entries itv (meta_entries hf) BlockBuilder_new) r Hoff ltac:(lia)) as (m & x & r' & -> & HW & Hx & HB). cbn [mbind res_bind].
  exists m, x, r'. split; [done|]. split; [done|]. split; [lia|done].
Qed.

Lemma separated_drop K (D : written) : (length K <= length D)%nat -> separated K ((fst <$> D) ++ [[]]) -> separated K (fst <$> D).
Proof.
  intros HK HS i k Hk. destruct (HS i k Hk) as (H1 & (b & y & Hb & Hy & Hl) & H2 & H3). assert (Hi : (i < length (fst <$> D))%nat) by (rewrite length_fmap; apply lookup_lt_Some in Hk; lia).
  rewrite lookup_app_l in Hb by done. split; [done|]. split; [by exists b, y|]. split.
  - intros b' y' Hb'. apply H2. by apply lookup_app_l_Some.
  - intros j b' y' Hj Hb'. apply (H3 j); [done|]. by apply lookup_app_l_Some.
Qed.

Lemma index_size K (D : written) : separated K (fst <$> D) -> (forall d, d ∈ D -> (length (enc (snd d)) <= 20)%nat) ->
  (esz (index_of K D) <= 2 * esz (concat (fst <$> D)))%nat.
Proof.
  intros HS He. assert (Hk : forall i key d, K !! i = Some key -> D !! i = Some d -> (length key + 32 <= esz (fst d))%nat).
  { intros i key d Hk Hd. destruct (HS i key Hk) as (_ & (b & y & Hb & Hy & Hl) & _). rewrite list_lookup_fmap, Hd in Hb. injection Hb as <-.
    pose proof (sum_list_with_in y (fun x => (length (fst x) + length (snd x) + 32)%nat) (fst d) Hy). unfold esz. cbn in *. lia. }
  clear HS. revert D Hk He. induction K as [|key K IH]; intros [|d D] Hk He; cbn [index_of zip_with fmap list_fmap concat]; [cbn; lia..|]. unfold index_of in IH.
  specialize (IH D (fun i => Hk (S i)) (fun d Hd => He d ltac:(set_solver))). specialize (Hk 0%nat key d eq_refl eq_refl). specialize (He d ltac:(set_solver)).
  change (list_fmap _ _ fst D) with (fst <$> D). rewrite esz_app. unfold esz at 1. cbn [sum_list_with fst snd]. fold (esz (zip_with (fun key d => (key, enc (snd d))) K D)). lia.
Qed.

Lemma close_ok D K r0 (r : @TableBuilder W) : tb_inv D K [] r0 -> Z.of_nat (length (contents (tb_file r0))) < 2 ^ 63 -> tb_options r = o -> tb_index_block r = tb_index_block r0 ->
  tb_last_key r = tb_last_key r0 -> tb_pending_index_entry r = tb_pending_index_entry r0 -> tb_pending_handle r = tb_pending_handle r0 -> exists K' r',
  (if tb_pending_index_entry r then last_key ← to_FindShortSuccessor (tb_options r) (tb_last_key r); add_pending last_key r else Ok r) = Ok r' /\
  tb_index_block r' = add_entries 1 (index_of K' D) BlockBuilder_new /\ separated K' (fst <$> D) /\ length K' = length D /\
  tb_status r' = tb_status r /\ tb_file r' = tb_file r /\ tb_offset r' = tb_offset r.
Proof.
  intros HI Hsz Ho Hix Hla Hpe Hha. pose proof (v_pending _ _ _ _ HI) as HP. pose proof (v_sorted _ _ _ _ HI) as Hs. rewrite Hpe, Hla, Ho.
  destruct (tb_pending_index_entry r0) eqn:Hp.
  - destruct HP as (_ & D' & d & x & ED & HK & Hh & Hx & Hl).
    assert (Hxd : x ∈ fst d) by (destruct (fst d) as [|z b _] using rev_ind; [done|]; rewrite last_snoc in Hx; set_solver).
    assert (Hdx : dom uc (fst x) = true) by (apply (sorted_dom _ x Hs); rewrite app_nil_r, ED, fmap_app, concat_app; cbn; set_solver).
    destruct (tc_succ (fst x) Hdx) as (sk & Es & Hds & Hle & Hlen). rewrite Hl, Es. cbn [mbind res_bind].
    destruct (close_index D K r0 sk HI Hp Hsz Hds) as (r1 & E1 & HI1 & Hp1 & _ & _); [by rewrite Hl|by rewrite Hl|].
    pose proof (v_pending _ _ _ _ HI1) as HP1. rewrite Hp1 in HP1. pose proof (v_index _ _ _ _ HI1) as HX1. unfold add_pending in E1 |- *. rewrite Hha.
    destruct (bh_EncodeTo (tb_pending_handle r0) []) as [he|]; [|done]. cbn [mbind res_bind] in *. injection E1 as <-. exists (K ++ [sk]). eexists. split; [done|].
    split; [cbn in *; by rewrite Hix|]. split; [|done]. apply separated_drop; [lia|]. exact (v_seps _ _ _ _ HI1).
  - exists K, r. split; [done|]. split; [rewrite Hix; exact (v_index _ _ _ _ HI)|]. split; [|done]. apply separated_drop; [lia|]. exact (v_seps _ _ _ _ HI).
Qed.

(** The whole file of a table. *)
Record is_table (D : written) (K : list bytes) (m i : BlockHandle) (file : bytes) : Prop := {
  t_blocks : blocks_inv file D;
  t_length : length K = length D;
  t_seps : separated K (fst <$> D);
  t_sorted : sorted_entries uc (concat (fst <$> D));
  t_meta : exists hf, holds_block file m (raw e itv (meta_entries hf)) /\ (is_Some (to_filter_policy o) -> good_handle hf) /\ has_filter file D hf;
  t_index : holds_block file i (raw e 1 (index_of K D));
  t_footer : exists pre, file = pre ++ footer_bytes m i;
  t_size : Z.of_nat (length file) < 2 ^ 32;
  t_bound : Z.of_nat (4 * esz (concat (fst <$> D)) + name_length) + 1000 < 2 ^ 31
}.

Lemma blocks_more file D x : blocks_inv file D -> blocks_inv (file ++ x) D.
Proof.
  intros [HB HO]. split; [|done]. intros j d Hd. destruct (HB j d Hd) as (H1 & H2 & H3). split; [by apply holds_more|]. split; [done|]. rewrite length_app. lia.
Qed.

Lemma finish_index_ok D K r0 (r : @TableBuilder W) : tb_inv D K [] r0 -> Z.of_nat (length (contents (tb_file r0))) < 2 ^ 63 -> tb_options r = o -> tb_index_block r = tb_index_block r0 ->
  tb_last_key r = tb_last_key r0 -> tb_pending_index_entry r = tb_pending_index_entry r0 -> tb_pending_handle r = tb_pending_handle r0 ->
  tb_status r = status_OK -> tb_offset r = Z.of_nat (length (contents (tb_file r))) ->
  Z.of_nat (length (contents (tb_file r)) + 2 * esz (concat (fst <$> D))) + 100 < 2 ^ 32 -> exists K' i x r',
  finish_index e data_at r = Ok (i, r') /\ separated K' (fst <$> D) /\ length K' = length D /\
  holds_block (contents (tb_file r')) i (raw e 1 (index_of K' D)) /\ (length x <= 2 * esz (concat (fst <$> D)) + 13)%nat /\
  contents (tb_file r') = contents (tb_file r) ++ x /\ tb_status r' = status_OK /\ tb_offset r' = Z.of_nat (length (contents (tb_file r'))).
Proof.
  intros HI Hsz Ho Hix Hla Hpe Hha Hst Hoff Hb. destruct (close_ok D K r0 r HI Hsz Ho Hix Hla Hpe Hha) as (K' & r1 & E & HX & HS & HL & Hst1 & Hf1 & Ho1).
  unfold finish_index, tb_ok. rewrite Hst. cbn [status_ok status_OK]. rewrite E. cbn [mbind res_bind]. rewrite HX.
  assert (Hisz : (esz (index_of K' D) <= 2 * esz (concat (fst <$> D)))%nat) by (apply index_size; [done|]; intros d Hd; destruct (enc_ok (snd d) (inv_good _ _ _ _ d HI Hsz Hd)) as (_ & ? & _); lia).
  pose proof (raw_size e 1 (index_of K' D)) as Hraw. unfold raw in Hraw.
  destruct (write_block_wrote (add_entries 1 (index_of K' D) BlockBuilder_new) r1) as (i & x & r' & -> & HW & Hx & HB); [congruence|rewrite Hf1; lia|]. cbn [mbind res_bind].
  exists K', i, x. eexists. split; [done|]. split; [done|]. split; [done|]. destruct HW. cbn. rewrite Hf1 in *. split; [done|]. split; [lia|]. done.
Qed.

Lemma last_flush D K cur r : tb_inv D K cur r -> Z.of_nat (esz (concat (fst <$> D) ++ cur)) < 2 ^ 31 -> exists D' r',
  tb_Flush e data_at r = Ok r' /\ tb_inv D' K [] r' /\ concat (fst <$> D') = concat (fst <$> D) ++ cur.
Proof.
  intros HI Hsz. destruct cur as [|x cur].
  - exists D, r. rewrite app_nil_r. split; [|done]. unfold tb_Flush, tb_ok. rewrite (v_status _ _ _ _ HI), (v_data _ _ _ _ HI). done.
  - pose proof (v_pending _ _ _ _ HI) as HP. destruct (tb_pending_index_entry r) eqn:Hp; [by destruct HP|].
    destruct (tb_flush_ok D K (x :: cur) r HI Hp ltac:(done) Hsz) as (h & r' & E & HI' & _). exists (D ++ [(x :: cur, h)]), r'. split; [done|]. split; [done|].
    rewrite fmap_app, concat_app. cbn. by rewrite app_nil_r.
Qed.

Lemma finish_table D K r0 : tb_inv D K [] r0 -> Z.of_nat (4 * esz (concat (fst <$> D)) + 2 * c * length (concat (fst <$> D)) + name_length) + 1000 < 2 ^ 31 -> exists K' m i r',
  ('(hf, r) ← finish_filter e data_at (set_closed r0); '(m, r) ← finish_metaindex e data_at hf r; '(i, r) ← finish_index e data_at r;
   r ← finish_footer e m i r; Ok (tb_status r, r)) = Ok (status_OK, r') /\
  is_table D K' m i (contents (tb_file r')) /\ tb_offset r' = Z.of_nat (length (contents (tb_file r'))).
Proof.
  intros HI Hsz. pose proof (v_size _ _ _ _ HI) as Hc. pose proof (v_filter _ _ _ _ HI) as HFI. rewrite app_nil_r in HFI. pose proof (esz_length (concat (fst <$> D))) as Hl.
  destruct (finish_filter_ok D _ (set_closed r0) (v_status _ _ _ _ HI) (v_off _ _ _ _ HI) HFI ltac:(cbn; lia)) as (hf & x1 & r1 & -> & W1 & Hx1 & HF1 & Hfil). cbn [mbind res_bind].
  pose proof (w_file _ _ _ W1) as F1. pose proof (w_opts _ _ _ W1) as O1. cbn in F1, O1, Hx1. rewrite (v_opts _ _ _ _ HI) in O1.
  assert (L1 : length (contents (tb_file r1)) = (length (contents (tb_file r0)) + length x1)%nat) by (by rewrite F1, length_app).
  assert (Hgood : is_Some (to_filter_policy o) -> good_handle hf).
  { intros [p Hp]. destruct (HF1 p Hp) as (F & HB & _). apply (holds_good _ _ _ HB). rewrite L1. lia. }
  destruct (finish_metaindex_ok r1 hf O1 (w_status _ _ _ W1) (w_off _ _ _ W1) Hfil Hgood ltac:(lia)) as (m & x2 & r2 & -> & W2 & Hx2 & HB2). cbn [mbind res_bind].
  pose proof (w_file _ _ _ W2) as F2. assert (L2 : length (contents (tb_file r2)) = (length (contents (tb_file r1)) + length x2)%nat) by (by rewrite F2, length_app).
  assert (HE : tb_options r2 = o /\ tb_index_block r2 = tb_index_block r0 /\ tb_last_key r2 = tb_last_key r0 /\
    tb_pending_index_entry r2 = tb_pending_index_entry r0 /\ tb_pending_handle r2 = tb_pending_handle r0) by (destruct W1, W2; cbn in *; split_and!; congruence).
  destruct HE as (A1 & A2 & A3 & A4 & A5).
  destruct (finish_index_ok D K r0 r2 HI ltac:(lia) A1 A2 A3 A4 A5 (w_status _ _ _ W2) (w_off _ _ _ W2) ltac:(lia)) as (K' & i & x3 & r3 & -> & HS & HL & HB3 & Hx3 & F3 & S3 & O3).
  cbn [mbind res_bind]. assert (L3 : length (contents (tb_file r3)) = (length (contents (tb_file r2)) + length x3)%nat) by (by rewrite F3, length_app).
  assert (Gm : good_handle m) by (apply (holds_good _ _ _ HB2); lia). assert (Gi : good_handle i) by (apply (holds_good _ _ _ HB3); lia).
  unfold finish_footer, tb_ok. rewrite S3. cbn [status_ok status_OK]. destruct (footer_roundtrip e m i Gm Gi) as (-> & Lf & _). cbn [mbind res_bind].
  destruct (append_grows (footer_bytes m i) (tb_file r3)) as (f4 & -> & F4). cbn [status_ok status_OK mbind res_bind]. exists K', m, i. eexists. split; [done|]. cbn.
  rewrite F4, length_app, Lf. split; [|rewrite O3, wrap_u_small; lia]. split; try done.
  - rewrite F3, F2, F1, <- !app_assoc. apply blocks_more. exact (v_blocks _ _ _ _ HI).
  - pose proof (v_sorted _ _ _ _ HI) as Hs. by rewrite app_nil_r in Hs.
  - exists hf. split; [rewrite F3, <- !app_assoc; by apply holds_more|]. split; [done|]. intros p Hp. destruct (HF1 p Hp) as (F & HB & HF). exists F. split; [|done].
    rewrite F3, F2, <- !app_assoc. by apply holds_more.
  - by apply holds_more.
  - by eexists.
  - rewrite length_app, Lf. lia.
  - lia.
Qed.

(** Building a table of sorted entries. *)
Definition build_table (es : entries) (file : W) : res (Status * TableBuilder) :=
  r ← TableBuilder_new o file; r ← add_all es r; tb_Finish e data_at r.

Lemma build_ok es file : contents file = [] -> sorted_entries uc es -> Z.of_nat (4 * esz es + 2 * c * length es + name_length) + 1000 < 2 ^ 31 -> exists r D K m i,
  build_table es file = Ok (status_OK, r) /\ concat (fst <$> D) = es /\ is_table D K m i (contents (tb_file r)) /\ FileSize r = Z.of_nat (length (contents (tb_file r))).
Proof.
  intros Hf Hs Hsz. unfold build_table. destruct (inv_new file Hf) as (r0 & -> & HI0 & Hp0). cbn [mbind res_bind].
  destruct (add_all_entries es [] [] [] r0 HI0) as (D1 & K1 & cur1 & r1 & -> & HI1 & _ & E1); [by intros _ _|done|change (concat (fst <$> []) ++ [] ++ es) with es; lia|]. cbn in E1. cbn [mbind res_bind].
  destruct (last_flush D1 K1 cur1 r1 HI1) as (D & r2 & E2 & HI2 & ED); [rewrite E1; lia|]. rewrite E1 in ED. unfold tb_Finish. rewrite E2. cbn [mbind res_bind].
  destruct (finish_table D K1 r2 HI2) as (K & m & i & r & E & HT & Ho); [by rewrite ED|]. exists r, D, K, m, i. split; [exact E|]. split; [done|]. split; [done|]. exact Ho.
Qed.

(** ** Reading *)
Section Read.
Context {F C : Type} `{!RandomAccessFile F} `{!BlockCache C} (fcontents : F -> bytes) {PL : Positioned F fcontents}.
Context (held : C -> bytes -> Block -> Prop) {CL : CacheLaws C held}.
Context (D : written) (K : list bytes) (m i : BlockHandle) (file : F) (HT : is_table D K m i (fcontents file)).

Lemma file_small : Z.of_nat (length (fcontents file)) < 2 ^ 63.
Proof. pose proof (t_size _ _ _ _ _ HT). lia. Qed.

Lemma block_esz d : d ∈ D -> (esz (fst d) <= esz (concat (fst <$> D)))%nat.
Proof.
  intros Hd. apply list_elem_of_lookup in Hd as [j Hj]. rewrite <- (take_drop_middle D j d Hj), fmap_app, concat_app. cbn. rewrite !esz_app. lia.
Qed.

Lemma block_small d : d ∈ D -> Z.of_nat (length (raw e itv (fst d))) < 2 ^ 32.
Proof. intros Hd. pose proof (raw_size e itv (fst d)). pose proof (block_esz d Hd). pose proof (t_bound _ _ _ _ _ HT). lia. Qed.

Lemma block_good d : d ∈ D -> good_handle (snd d) /\ holds_block (fcontents file) (snd d) (raw e itv (fst d)).
Proof.
  intros Hd. apply list_elem_of_lookup in Hd as [j Hj]. destruct (t_blocks _ _ _ _ _ HT) as [HB _]. destruct (HB j d Hj) as (Hh & _). split; [|done].
  apply (holds_good _ _ _ Hh), file_small.
Qed.

Lemma index_small : Z.of_nat (length (raw e 1 (index_of K D))) < 2 ^ 32.
Proof.
  pose proof (raw_size e 1 (index_of K D)). pose proof (t_bound _ _ _ _ _ HT).
  assert (esz (index_of K D) <= 2 * esz (concat (fst <$> D)))%nat; [|lia]. apply index_size; [exact (t_seps _ _ _ _ _ HT)|].
  intros d Hd. destruct (enc_ok (snd d)) as (_ & ? & _); [by apply block_good|lia].
Qed.

Lemma index_lookup j : index_of K D !! j = (key ← K !! j; d ← D !! j; Some (key, enc (snd d))).
Proof. unfold index_of. by rewrite lookup_zip_with. Qed.

Lemma index_some j x : index_of K D !! j = Some x -> exists key d, K !! j = Some key /\ D !! j = Some d /\ x = (key, enc (snd d)).
Proof. rewrite index_lookup. destruct (K !! j) as [key|]; [|done]. destruct (D !! j) as [d|]; [|done]. cbn. intros [= <-]. by exists key, d. Qed.

Lemma index_length : length (index_of K D) = length (fst <$> D).
Proof. unfold index_of. rewrite length_zip_with, length_fmap, (t_length _ _ _ _ _ HT). lia. Qed.

Lemma block_at j b : (fst <$> D) !! j = Some b -> exists d, D !! j = Some d /\ b = fst d /\ d ∈ D.
Proof. rewrite list_lookup_fmap. destruct (D !! j) as [d|] eqn:Hd; [|done]. intros [= <-]. exists d. split; [done|]. split; [done|]. by apply list_elem_of_lookup_2 in Hd. Qed.

Lemma block_dom j b y : (fst <$> D) !! j = Some b -> y ∈ b -> dom uc (fst y) = true.
Proof.
  intros Hb Hy. apply (sorted_dom _ y (t_sorted _ _ _ _ _ HT)). apply elem_of_concat. exists b. split; [done|]. by apply list_elem_of_lookup_2 in Hb.
Qed.

Lemma index_sorted : sorted_entries uc (index_of K D).
Proof.
  pose proof (t_seps _ _ _ _ _ HT) as HS. split.
  - apply Forall_lookup. intros j x Hx. apply index_some in Hx as (key & d & Hk & _ & ->). by destruct (HS j key Hk).
  - intros j j' x y Hx Hy Hj. apply index_some in Hx as (key & d & Hk & Hd & ->). apply index_some in Hy as (key' & d' & Hk' & Hd' & ->). cbn.
    destruct (HS j key Hk) as (D1 & _ & _ & H4). destruct (HS j' key' Hk') as (D2 & (b & z & Hb & Hz & _) & H3 & _).
    specialize (H4 j' b z Hj Hb Hz). specialize (H3 b z Hb Hz). pose proof (block_dom j' b z Hb Hz) as Hdz.
    destruct (decide (cmp uc (fst z) key' = 0)) as [E|]; [apply cmp_eq in E; [by rewrite <- E|done|done]|]. apply (cmp_trans _ (fst z)); try done. lia.
Qed.

Lemma block_sorted d : d ∈ D -> sorted_entries uc (fst d).
Proof.
  intros Hd. apply list_elem_of_lookup in Hd as [j Hj]. pose proof (t_sorted _ _ _ _ _ HT) as Hs. rewrite <- (take_drop_middle D j d Hj), fmap_app, concat_app in Hs.
  apply sorted_app_r in Hs. cbn in Hs. by apply sorted_app_l in Hs.
Qed.

(** ** Opening *)

(** No block is in the cache yet under the number the table gets. *)
Definition cache_fresh (w : option C) : Prop :=
  match w with None => True | Some ca => forall id ca' k b, bc_NewId ca = (id, ca') -> held ca' k b -> take 8 k <> le_split 8 id end.

(** A table object on the file. *)
Record opened (t : @Table F) : Prop := {
  o_options : t_options t = o;
  o_file : t_file t = file;
  o_index : Block_new e (raw e 1 (index_of K D)) = Ok (t_index_block t);
  o_meta : t_metaindex_handle t = m;
  o_id : 0 <= t_cache_id t < 2 ^ 64;
  o_filter : forall p fr, t_filter t = Some (p, fr) -> exists Fs, fr = reader_of Fs /\ Z.of_nat (length (filter_bytes Fs)) < 2 ^ 32 /\ FilterLaws p c /\
    forall d y, d ∈ D -> y ∈ fst d -> made (P := p) Fs (bh_offset (snd d)) (fst y)
}.

(** What the cache has of the table is right. *)
Definition cache_ok (t : @Table F) (w : option C) : Prop :=
  match w with None => True | Some ca => forall d b, d ∈ D -> held ca (cache_key e t (snd d)) b -> Block_new e (raw e itv (fst d)) = Ok b end.

Lemma read_filter_ok p hf : to_filter_policy o = Some p -> good_handle hf -> has_filter (fcontents file) D hf -> exists Fs,
  ReadFilter e data_at p o file (enc hf) = Ok (Some (p, reader_of Fs)) /\ Z.of_nat (length (filter_bytes Fs)) < 2 ^ 32 /\
  forall d y, d ∈ D -> y ∈ fst d -> made (P := p) Fs (bh_offset (snd d)) (fst y).
Proof.
  intros Hp Hg HF. destruct (HF p Hp) as (Fs & HB & Hsz & HM). exists Fs. split; [|done]. unfold ReadFilter. destruct (enc_ok hf Hg) as (_ & _ & Dh).
  specialize (Dh []). rewrite app_nil_r in Dh. rewrite Dh. cbn [fst]. destruct (read_block e data_at Hat fcontents file (meta_read_options o) hf (filter_bytes Fs) HB file_small) as [b ->].
  cbn [mbind res_bind bc_data]. rewrite reader_ok by done. done.
Qed.

Lemma read_meta_ok : exists fr, ReadMeta e data_at o file (MkFooter m i) = Ok fr /\ forall p r, fr = Some (p, r) -> exists Fs, r = reader_of Fs /\
  Z.of_nat (length (filter_bytes Fs)) < 2 ^ 32 /\ FilterLaws p c /\ forall d y, d ∈ D -> y ∈ fst d -> made (P := p) Fs (bh_offset (snd d)) (fst y).
Proof.
  unfold ReadMeta. destruct (to_filter_policy o) as [p|] eqn:Hp; [|by exists None]. destruct (t_meta _ _ _ _ _ HT) as (hf & HB & Hg & HF).
  destruct (read_block e data_at Hat fcontents file (meta_read_options o) m _ HB file_small) as [b E]. cbn [metaindex_handle]. rewrite E. cbn [mbind res_bind bc_data].
  assert (Hm : meta_entries hf = [(lit "filter." ++ @fp_Name p, enc hf)]) by (unfold meta_entries; by rewrite Hp). rewrite Hm.
  set (name := lit "filter." ++ @fp_Name p) in *. specialize (Hg ltac:(by eexists)).
  assert (Hsz : Z.of_nat (length (raw e itv [(name, enc hf)])) < 2 ^ 32).
  { pose proof (raw_size e itv [(name, enc hf)]) as Hr. pose proof (t_bound _ _ _ _ _ HT) as Hb. unfold name_length in Hb. rewrite Hp in Hb. destruct (enc_ok hf Hg) as (_ & ? & _).
    assert (length name = (7 + length (@fp_Name p))%nat) by done. unfold esz in Hr. cbn [sum_list_with fst snd length] in Hr. lia. }
  destruct (raw_open e itv [(name, enc hf)] Hinterval Hsz) as (bl & it & -> & EN & HP & _). cbn [mbind res_bind].
  rewrite EN. cbn [mbind res_bind].
  assert (HC : is_cursor lexical (fun _ : unit => True) (IT := block_iterator e lexical) (raw_pos itv [(name, enc hf)]) [(name, enc hf)]).
  { apply raw_cursor; [exact lexical_laws| |done]. split; [by repeat constructor|]. intros [|a] [|a'] x y Hx Hy Ha; try lia; done. }
  destruct (cur_seek _ _ _ _ HC _ _ name HP eq_refl tt Logic.I) as (it' & [] & -> & _ & HP'). cbn [mbind res_bind].
  assert (HL : lower_bound lexical name [(name, enc hf)] = 0%nat).
  { cbn [lower_bound fst]. pose proof lexical_laws. assert (cmp lexical name name = 0) as ->; [|done]. by apply (cmp_eq (c := lexical)). }
  rewrite HL in HP'. rewrite (cur_valid _ _ _ _ HC _ _ HP'). destruct (cur_at _ _ _ _ HC _ _ (name, enc hf) HP' eq_refl) as [-> ->]. cbn [fst snd length].
  rewrite !bool_decide_eq_true_2 by (done || lia). cbn [andb mbind res_bind]. destruct (read_filter_ok p hf Hp Hg HF) as (Fs & -> & Hs & HM).
  eexists. split; [done|]. intros p' r [= <- <-]. exists Fs. split_and!; try done. by apply Hpolicy.
Qed.

Lemma open_ok w : cache_fresh w -> exists t w', table_Open e data_at o file (Z.of_nat (length (fcontents file))) w = Ok (status_OK, Some t, w') /\ opened t /\ cache_ok t w'.
Proof.
  intros Hw. destruct (t_footer _ _ _ _ _ HT) as [pre Hf]. pose proof (t_index _ _ _ _ _ HT) as HBi. destruct (t_meta _ _ _ _ _ HT) as (hf & HBm & _).
  assert (Gm : good_handle m) by (apply (holds_good _ _ _ HBm), file_small). assert (Gi : good_handle i) by (apply (holds_good _ _ _ HBi), file_small).
  destruct (footer_roundtrip e m i Gm Gi) as (_ & Lf & Hdec). assert (Hlen : length (fcontents file) = (length pre + 48)%nat) by (by rewrite Hf, length_app, Lf).
  unfold table_Open. change kEncodedLength with 48. rewrite (proj2 (Z.ltb_ge _ _)) by lia.
  destruct (read_at (contents := fcontents) file (Z.of_nat (length (fcontents file)) - 48) 48) as [sc ->]; [lia|done|]. cbn [status_ok status_OK negb].
  replace (Z.to_nat (Z.of_nat (length (fcontents file)) - 48)) with (length pre) by lia.
  assert (take (Z.to_nat 48) (drop (length pre) (fcontents file)) = footer_bytes m i) as -> by (rewrite Hf, drop_app_length; apply take_ge; change (Z.to_nat 48) with 48%nat; lia).
  rewrite Hdec. cbn [mbind res_bind index_handle metaindex_handle]. destruct (read_block e data_at Hat fcontents file (meta_read_options o) i _ HBi file_small) as [b ->]. cbn [mbind res_bind bc_data].
  destruct (raw_open e 1 (index_of K D) ltac:(lia) index_small) as (bl & it & EB & _ & _). rewrite EB. cbn [mbind res_bind].
  destruct read_meta_ok as (fr & EM & Hfr). destruct w as [ca|].
  - destruct (bc_NewId ca) as [id ca'] eqn:Eid. rewrite EM. cbn [mbind res_bind]. do 2 eexists. split; [done|]. split; [split; try done; by eapply newid_range|].
    cbn. intros d bb _ Hh. exfalso. apply (Hw id ca' _ bb Eid Hh). unfold cache_key. cbn. rewrite encode64_le. by apply take_app_length'.
  - rewrite EM. cbn [mbind res_bind]. do 2 eexists. split; [done|]. split; [by split|done].
Qed.

(** ** The blocks of an open table *)
Context (t : @Table F) (HO : opened t) (ro : ReadOptions).

Lemma same_offset d d' : d ∈ D -> d' ∈ D -> bh_offset (snd d) = bh_offset (snd d') -> d = d'.
Proof.
  intros Hd Hd' E. apply list_elem_of_lookup in Hd as [a Ha]. apply list_elem_of_lookup in Hd' as [b Hb]. destruct (t_blocks _ _ _ _ _ HT) as [_ HOrd].
  destruct (Nat.lt_trichotomy a b) as [Hlt|[->|Hlt]]; [specialize (HOrd a b d d' Hlt Ha Hb); lia|congruence|specialize (HOrd b a d' d Hlt Hb Ha); lia].
Qed.

Lemma le_split8_inj a b : 0 <= a < 2 ^ 64 -> 0 <= b < 2 ^ 64 -> le_split 8 a = le_split 8 b -> a = b.
Proof. intros Ha Hb E. apply (f_equal le_combine) in E. rewrite !le_combine_split in E. by rewrite !Z.mod_small in E. Qed.

Lemma cache_key_inj d d' : d ∈ D -> d' ∈ D -> cache_key e t (snd d) = cache_key e t (snd d') -> d = d'.
Proof.
  intros Hd Hd' E. apply same_offset; [done|done|]. unfold cache_key in E. rewrite !encode64_le in E. apply app_inv_head in E.
  apply le_split8_inj; [|by destruct (block_good d' Hd') as [[? ?] _]|done]. by destruct (block_good d Hd) as [[? ?] _].
Qed.

Lemma find_block_ok d : d ∈ D -> exists b, Block_new e (raw e itv (fst d)) = Ok b /\
  steps (cache_ok t) (find_block e data_at t ro (snd d)) (fun r => r = inr b).
Proof.
  intros Hd. destruct (block_good d Hd) as [Hg HB]. destruct (raw_open e itv (fst d) Hinterval (block_small d Hd)) as (b & _ & Eb & _). exists b. split; [done|].
  intros w Hw. unfold find_block. rewrite (o_file _ HO). destruct (read_block e data_at Hat fcontents file ro (snd d) _ HB file_small) as [ca0 ER].
  destruct w as [ca|].
  - destruct (bc_Lookup (cache_key e t (snd d)) ca) as [[b'|] ca1] eqn:El.
    + exists (inr b'), (Some ca1). split; [done|]. split; [|].
      * intros d' b'' Hd' Hh. apply (Hw d' b'' Hd'). by eapply lookup_keeps.
      * assert (Ok b' = Ok b) as [= ->]; [|done]. rewrite <- Eb. symmetry. apply (Hw d b' Hd). by eapply lookup_held.
    + rewrite ER. cbn [mbind res_bind bc_data]. rewrite Eb. cbn [mbind res_bind]. do 2 eexists. split; [done|]. split; [|done].
      assert (Hca1 : cache_ok t (Some ca1)) by (intros d' b'' Hd' Hh; apply (Hw d' b'' Hd'); by eapply lookup_keeps).
      destruct (_ && _); [|exact Hca1]. intros d' b'' Hd' Hh. apply insert_held in Hh as [[Hk ->]|Hh]; [|by apply Hca1].
      apply cache_key_inj in Hk as ->; done.
  - rewrite ER. cbn [mbind res_bind bc_data]. rewrite Eb. cbn [mbind res_bind]. by eexists _, _.
Qed.

Lemma block_reader_ok d : d ∈ D -> steps (cache_ok t) (BlockReader e data_at t ro (enc (snd d))) (fun it => raw_pos itv (fst d) (length (fst d)) it).
Proof.
  intros Hd w Hw. destruct (block_good d Hd) as [Hg _]. destruct (enc_ok (snd d) Hg) as (_ & _ & Dh). specialize (Dh []). rewrite app_nil_r in Dh.
  unfold BlockReader. rewrite Dh. cbn [fst]. destruct (find_block_ok d Hd) as (b & Eb & HF). destruct (HF w Hw) as (r & w' & -> & Hw' & ->). cbn [mbind res_bind].
  destruct (raw_open e itv (fst d) Hinterval (block_small d Hd)) as (b' & it & Eb' & EN & HP & _). assert (b' = b) as -> by congruence. rewrite EN. cbn [mbind res_bind].
  by eexists _, _.
Qed.

Definition in_data (j p : nat) (it : BlockIter) : Prop := exists d, D !! j = Some d /\ raw_pos itv (fst d) p it.
Definition table_pos : nat -> TwoLevelIterator BlockIter BlockIter -> Prop :=
  tl_pos (IT := block_iterator e uc (W := option C)) (DT := block_iterator e uc (W := option C))
    (index_of K D) (fst <$> D) (raw_pos 1 (index_of K D)) in_data.

Lemma data_cursor j d : D !! j = Some d -> is_cursor uc (cache_ok t) (IT := block_iterator e uc) (in_data j) (fst d).
Proof.
  intros Hj. assert (Hd : d ∈ D) by (by apply list_elem_of_lookup_2 in Hj). apply cursor_union. intros p it (d' & Hj' & HP). assert (d' = d) as -> by congruence.
  exists (raw_pos itv (fst d)). split; [apply raw_cursor; [exact tc_laws|by apply block_sorted|by apply block_small]|]. split; [done|]. intros q it' HP'. by exists d.
Qed.

Lemma index_cursor W' (okw : W' -> Prop) : is_cursor uc okw (IT := block_iterator e uc) (raw_pos 1 (index_of K D)) (index_of K D).
Proof. apply raw_cursor; [exact tc_laws|exact index_sorted|exact index_small]. Qed.

Lemma index_rounds : (length (index_of K D) < S (length (bl_data (t_index_block t))))%nat.
Proof.
  destruct (raw_open e 1 (index_of K D) ltac:(lia) index_small) as (b & it & Eb & _ & _ & Hl). rewrite (o_index _ HO) in Eb. injection Eb as <-.
  rewrite (Block_data _ _ _ (o_index _ HO)). lia.
Qed.

Lemma table_cursor : is_cursor uc (cache_ok t) (IT := table_iterator e data_at t ro) table_pos (concat (fst <$> D)).
Proof.
  pose proof (t_seps _ _ _ _ _ HT) as HS. unfold table_iterator. rewrite (o_options _ HO). apply two_level_cursor.
  - exact tc_laws.
  - exact index_length.
  - apply index_cursor.
  - intros j b Hb. destruct (block_at j b Hb) as (d & Hd & -> & _). by apply data_cursor.
  - intros j x Hx. apply index_some in Hx as (key & d & _ & Hd & ->). cbn. eapply steps_mono; [apply block_reader_ok; by apply list_elem_of_lookup_2 in Hd|].
    cbn. intros it HP. by exists (length (fst d)), d.
  - intros j j' x y Hx Hy E. apply index_some in Hx as (key & d & _ & Hd & ->). apply index_some in Hy as (key' & d' & _ & Hd' & ->). cbn in E.
    pose proof (list_elem_of_lookup_2 _ _ _ Hd) as Hin. pose proof (list_elem_of_lookup_2 _ _ _ Hd') as Hin'.
    apply enc_inj in E; [|by apply block_good|by apply block_good]. destruct (t_blocks _ _ _ _ _ HT) as [_ HOrd].
    destruct (Nat.lt_trichotomy j j') as [Hlt|[->|Hlt]]; [specialize (HOrd j j' d d' Hlt Hd Hd'); rewrite E in HOrd; lia|done|specialize (HOrd j' j d' d Hlt Hd' Hd); rewrite E in HOrd; lia].
  - intros j x Hx. apply index_some in Hx as (key & d & Hk & _ & ->). by destruct (HS j key Hk).
  - intros j b y. apply block_dom.
  - intros j x b y Hx Hb Hy. apply index_some in Hx as (key & d & Hk & _ & ->). destruct (HS j key Hk) as (_ & _ & H3 & _). by apply (H3 b).
  - intros j j' x b y Hj Hx Hb Hy. apply index_some in Hx as (key & d & Hk & _ & ->). destruct (HS j key Hk) as (_ & _ & _ & H4). by apply (H4 j' b).
  - exact index_rounds.
Qed.

Lemma table_new : exists it, table_NewIterator (C := C) e t = Ok it /\ table_pos (length (concat (fst <$> D))) it.
Proof.
  unfold table_NewIterator. rewrite (o_options _ HO). destruct (raw_open e 1 (index_of K D) ltac:(lia) index_small) as (b & it & Eb & EN & HP & _).
  rewrite (o_index _ HO) in Eb. injection Eb as <-. rewrite EN. cbn [mbind res_bind].
  apply two_level_new. exact HP.
Qed.

(** ** Lookups *)
Lemma index_seek_ok k : dom uc k = true -> exists it, index_seek e t k = Ok it /\ raw_pos 1 (index_of K D) (lower_bound uc k (index_of K D)) it.
Proof.
  intros Hk. unfold index_seek. rewrite (o_options _ HO). destruct (raw_open e 1 (index_of K D) ltac:(lia) index_small) as (b & it & Eb & EN & HP & _).
  rewrite (o_index _ HO) in Eb. injection Eb as <-. rewrite EN. cbn [mbind res_bind].
  destruct (cur_seek _ _ _ _ (index_cursor unit (fun _ => True)) _ _ k HP Hk tt Logic.I) as (it' & [] & -> & _ & HP'). cbn [mbind res_bind]. by exists it'.
Qed.

Lemma not_filtered j d y : D !! j = Some d -> y ∈ fst d -> filtered_out e t (enc (snd d)) (fst y) = Ok false.
Proof.
  intros Hj Hy. pose proof (list_elem_of_lookup_2 _ _ _ Hj) as Hd. destruct (block_good d Hd) as [Hg _]. unfold filtered_out. destruct (t_filter t) as [[p fr]|] eqn:Ef; [|done].
  destruct (enc_ok (snd d) Hg) as (_ & _ & Dh). specialize (Dh []). rewrite app_nil_r in Dh. rewrite Dh. cbn [fst].
  destruct (o_filter _ HO p fr Ef) as (Fs & -> & Hs & FLp & HM). destruct (reader_matches e Fs (bh_offset (snd d)) (fst y) Hs) as [-> _]; [|by apply HM|done]. by destruct Hg as [[? _] _].
Qed.

Lemma filtered_total j d k : D !! j = Some d -> exists b, filtered_out e t (enc (snd d)) k = Ok b.
Proof.
  intros Hj. pose proof (list_elem_of_lookup_2 _ _ _ Hj) as Hd. destruct (block_good d Hd) as [Hg _]. unfold filtered_out. destruct (t_filter t) as [[p fr]|] eqn:Ef; [|by eexists].
  destruct (enc_ok (snd d) Hg) as (_ & _ & Dh). specialize (Dh []). rewrite app_nil_r in Dh. rewrite Dh. cbn [fst].
  destruct (o_filter _ HO p fr Ef) as (Fs & -> & Hs & FLp & HM). destruct (t_blocks _ _ _ _ _ HT) as [HB _]. destruct (HB j d Hj) as (_ & Hne & _).
  destruct (fst d) as [|y b] eqn:Eb; [done|]. destruct (reader_matches e Fs (bh_offset (snd d)) (fst y) Hs) as [_ Htot]; [by destruct Hg as [[? _] _]|apply HM; [done|rewrite Eb; set_solver]|].
  destruct (Htot k) as [bb ->]. by eexists.
Qed.

Lemma lower_key k x es : sorted_entries uc es -> x ∈ es -> fst x = k -> es !! lower_bound uc k es = Some x.
Proof.
  intros Hs Hx Hk. apply list_elem_of_lookup in Hx as [j Hj]. assert (Hd : dom uc k = true) by (rewrite <- Hk; apply (sorted_dom es); [done|by apply list_elem_of_lookup_2 in Hj]).
  assert (lower_bound uc k es = j) as ->; [|done]. rewrite <- (take_drop_middle es j x Hj), lower_app_low.
  - cbn [lower_bound]. assert (cmp uc (fst x) k = 0) as -> by (by apply cmp_eq; rewrite ?Hk). cbn. rewrite length_take. apply lookup_lt_Some in Hj. lia.
  - intros y Hy. rewrite <- Hk. by apply (sorted_before es x y j).
Qed.

(** A key of the table is in the block the index names for it. *)
Lemma in_named_block k v : dom uc k = true -> (k, v) ∈ concat (fst <$> D) -> exists d, D !! lower_bound uc k (index_of K D) = Some d /\ (k, v) ∈ fst d.
Proof.
  intros Hk Hin. apply elem_of_concat in Hin as (b & Hb & HbD). apply list_elem_of_lookup in HbD as [j Hj]. destruct (block_at j b Hj) as (d & Hd & -> & _).
  assert (is_Some (K !! j)) as [key HK] by (apply lookup_lt_is_Some_2; rewrite (t_length _ _ _ _ _ HT); by eapply lookup_lt_Some).
  destruct (t_seps _ _ _ _ _ HT j key HK) as (Hdk & _ & H3 & _). specialize (H3 _ _ Hj Hb). cbn in H3.
  assert (Hx : index_of K D !! j = Some (key, enc (snd d))) by (rewrite index_lookup, HK, Hd; done).
  destruct (Nat.lt_trichotomy j (lower_bound uc k (index_of K D))) as [Hlt|[<-|Hlt]]; [|by exists d|].
  - pose proof (lower_below uc k _ j _ Hlt Hx) as Hb'. cbn in Hb'. destruct (decide (cmp uc k key = 0)) as [E|].
    + apply cmp_eq in E as <-; [|done|done]. assert (cmp uc k k = 0) by (by apply cmp_eq). lia.
    + pose proof (cmp_trans (c := uc) k key k Hk Hdk Hk ltac:(lia) Hb'). assert (cmp uc k k = 0) by (by apply cmp_eq). lia.
  - exfalso. assert (is_Some (index_of K D !! lower_bound uc k (index_of K D))) as [y Hy] by (apply lookup_lt_is_Some_2; apply lookup_lt_Some in Hx; lia).
    pose proof (lower_found uc k _ y Hy) as Hge. apply index_some in Hy as (key' & d' & HK' & _ & ->). destruct (t_seps _ _ _ _ _ HT _ key' HK') as (_ & _ & _ & H4).
    specialize (H4 j _ _ Hlt Hj Hb). cbn in H4, Hge. lia.
Qed.

Lemma table_lower k j d : dom uc k = true -> j = lower_bound uc k (index_of K D) -> D !! j = Some d ->
  lower_bound uc k (concat (fst <$> D)) = (at_block (fst <$> D) j + lower_bound uc k (fst d))%nat.
Proof.
  intros Hk -> Hd. pose proof (t_seps _ _ _ _ _ HT) as HS. rewrite (lower_concat uc (index_of K D) (fst <$> D) index_length); [by rewrite list_lookup_fmap, Hd|..|done].
  - intros j x Hx. apply index_some in Hx as (key & d' & HK & _ & ->). by destruct (HS j key HK).
  - intros j b y. apply block_dom.
  - intros j x b y Hx Hb Hy. apply index_some in Hx as (key & d' & HK & _ & ->). destruct (HS j key HK) as (_ & _ & H3 & _). by apply (H3 b).
  - intros j j' x b y Hj Hx Hb Hy. apply index_some in Hx as (key & d' & HK & _ & ->). destruct (HS j key HK) as (_ & _ & _ & H4). by apply (H4 j' b).
Qed.

(** A lookup gives the first entry that is not before its key, or nothing, and
    never nothing for a key that is in the table. *)
Definition get_spec (es : entries) (k : bytes) (r : option (bytes * bytes)) : Prop :=
  (forall x, r = Some x -> es !! lower_bound uc k es = Some x) /\ (forall v, (k, v) ∈ es -> r = Some (k, v)).

Lemma table_get_ok k : dom uc k = true -> forall w, cache_ok t w -> exists r w', InternalGet e data_at t ro k w = Ok (status_OK, r, w') /\ cache_ok t w' /\
  get_spec (concat (fst <$> D)) k r.
Proof.
  intros Hk w Hw. destruct (index_seek_ok k Hk) as (ii & Ei & HP). unfold InternalGet. rewrite Ei, (o_options _ HO). cbn [mbind res_bind].
  pose proof (index_cursor (option C) (cache_ok t)) as HCI. rewrite (cur_valid _ _ _ _ HCI _ _ HP), (cur_status _ _ _ _ HCI _ _ HP).
  set (j := lower_bound uc k (index_of K D)) in *. destruct (index_of K D !! j) as [x|] eqn:Hx.
  - rewrite bool_decide_eq_true_2 by (by eapply lookup_lt_Some). destruct (cur_at _ _ _ _ HCI _ _ x HP Hx) as [_ ->]. cbn [mbind res_bind].
    destruct (index_some j x Hx) as (key & d & HK & Hd & ->). cbn [snd]. destruct (filtered_total j d k Hd) as [out Eo]. rewrite Eo. cbn [mbind res_bind].
    destruct out.
    + exists None, w. split; [done|]. split; [done|]. split; [done|]. intros v Hv. exfalso. destruct (in_named_block k v Hk Hv) as (d' & Hd' & Hin). fold j in Hd'.
      assert (d' = d) as -> by congruence. pose proof (not_filtered j d (k, v) Hd Hin) as Hf. cbn in Hf. congruence.
    + destruct (block_reader_ok d ltac:(by apply list_elem_of_lookup_2 in Hd) w Hw) as (it & w1 & -> & Hw1 & HP1). cbn [mbind res_bind].
      pose proof (data_cursor j d Hd) as HCD. destruct (cur_seek _ _ _ _ HCD _ it k ltac:(by exists d) Hk w1 Hw1) as (it2 & w2 & -> & Hw2 & HP2). cbn [mbind res_bind].
      pose proof (cursor_observe _ _ _ _ HCD _ _ HP2) as HOb. unfold i_observe in HOb. rewrite HOb. cbn [mbind res_bind]. rewrite (cur_status _ _ _ _ HCD _ _ HP2). cbn [status_ok status_OK].
      do 2 eexists. split; [done|]. split; [done|]. split.
      * intros y Hy. rewrite (table_lower k j d Hk eq_refl Hd). rewrite <- Hy. apply concat_at; [by rewrite list_lookup_fmap, Hd|]. by eapply lookup_lt_Some.
      * intros v Hv. destruct (in_named_block k v Hk Hv) as (d' & Hd' & Hin). fold j in Hd'. assert (d' = d) as -> by congruence.
        apply lower_key; [|done|done]. apply block_sorted. by apply list_elem_of_lookup_2 in Hd.
  - rewrite bool_decide_eq_false_2 by (apply lookup_ge_None in Hx; lia). exists None, w. split; [done|]. split; [done|]. split; [done|]. intros v Hv. exfalso.
    destruct (in_named_block k v Hk Hv) as (d' & Hd' & _). fold j in Hd'. apply lookup_lt_Some in Hd'. apply lookup_ge_None in Hx. rewrite index_length, length_fmap in Hx. lia.
Qed.

(** Lookups one after another. *)
Fixpoint run_gets (ks : list bytes) (w : option C) : res (list (Status * option (bytes * bytes)) * option C) :=
  match ks with
  | [] => Ok ([], w)
  | k :: ks' => '(s, r, w) ← InternalGet e data_at t ro k w; '(rs, w) ← run_gets ks' w; Ok ((s, r) :: rs, w)
  end.

Lemma gets_ok ks : Forall (fun k => dom uc k = true) ks -> forall w, cache_ok t w -> exists rs w', run_gets ks w = Ok (rs, w') /\
  Forall2 (fun k sr => fst sr = status_OK /\ get_spec (concat (fst <$> D)) k (snd sr)) ks rs.
Proof.
  induction 1 as [|k ks Hk _ IH]; intros w Hw; cbn [run_gets]; [by exists [], w|].
  destruct (table_get_ok k Hk w Hw) as (r & w1 & -> & Hw1 & Hr). cbn [mbind res_bind]. destruct (IH w1 Hw1) as (rs & w' & -> & HF). cbn [mbind res_bind].
  eexists _, _. split; [done|]. by constructor.
Qed.
End Read.

(** C31. A table is what was put in: built of sorted entries - with any block size,
    restart interval, filter policy and compression - the file opens again, and an
    iterator over it is a cursor in the list of the entries: any sequence of calls
    ends and shows after each the entry the list has at that place, with no error.
    Lookups then, in any number and through the block cache or without one, find
    every key that is there, and otherwise nothing or the first entry after. *)
Theorem table_refines {F C : Type} `{!RandomAccessFile F} `{!BlockCache C} (fcontents : F -> bytes) {PL : Positioned F fcontents}
    (held : C -> bytes -> Block -> Prop) {CL : CacheLaws C held} es (wfile : W) :
  contents wfile = [] -> sorted_entries uc es -> Z.of_nat (4 * esz es + 2 * c * length es + name_length) + 1000 < 2 ^ 31 -> exists r,
  build_table es wfile = Ok (status_OK, r) /\ forall file w, fcontents file = contents (tb_file r) -> cache_fresh held w -> exists t w1 it,
  table_Open e data_at o file (FileSize r) w = Ok (status_OK, Some t, w1) /\ table_NewIterator (C := C) e t = Ok it /\
  forall ro ops ks, bops_ok uc es ops (length es) -> Forall (fun k => dom uc k = true) ks -> exists it' w2 rs w3,
  run_iops (IT := table_iterator e data_at t ro) ops it w1 = Ok (spec_bops uc es ops (length es), it', w2) /\
  i_status (Iterator := table_iterator (C := C) e data_at t ro) it' = status_OK /\
  run_gets t ro ks w2 = Ok (rs, w3) /\ Forall2 (fun k sr => fst sr = status_OK /\ get_spec es k (snd sr)) ks rs.
Proof.
  intros Hw Hs Hsz. destruct (build_ok es wfile Hw Hs Hsz) as (r & D & K & m & i & Eb & <- & HT & Hfs). exists r. split; [done|]. intros file w Hf Hfresh. rewrite <- Hf in HT.
  destruct (open_ok fcontents held D K m i file HT w Hfresh) as (t & w1 & Eo & HO & Hok). rewrite Hfs, <- Hf.
  destruct (table_new fcontents (C := C) D K m i file HT t HO) as (it & En & HP). exists t, w1, it. split; [done|]. split; [done|]. intros ro ops ks Hops Hks.
  pose proof (table_cursor fcontents held D K m i file HT t HO ro) as HC.
  destruct (cursor_run _ _ _ _ HC ops _ it w1 HP Hok Hops) as (it' & w2 & Er & Hw2 & Hst).
  destruct (gets_ok fcontents held D K m i file HT t HO ro ks Hks w2 Hw2) as (rs & w3 & Eg & HF). by exists it', w2, rs, w3.
Qed.
End Build.

(** ** Instances *)

(** Files in memory. *)
#[export] Instance MemRandom : RandomAccessFile bytes := fun f off n => (status_OK, take (Z.to_nat n) (drop (Z.to_nat off) f), true).
#[export] Instance MemPositioned : Positioned bytes (fun f => f).
Proof. intros f off n _ _. by eexists. Qed.

(** A cache that keeps everything: the last number given out and the blocks. *)
#[export] Instance ListCache : BlockCache (Z * list (bytes * Block)) := {|
  bc_NewId c := (wrap_u 64 (fst c + 1), (fst c + 1, snd c));
  bc_Lookup k c := (snd <$> list_find (fun x => fst x = k) (snd c) ≫= (fun x => Some (snd x)), c);
  bc_Insert k b _ c := (fst c, (k, b) :: snd c) |}.
#[export] Instance ListCache_laws : CacheLaws (Z * list (bytes * Block)) (fun c k b => (k, b) ∈ snd c).
Proof.
  split; cbn.
  - intros k c b c' E. injection E as E ->. destruct (list_find _ (snd c')) as [[i [k' b']]|] eqn:Hf; [|done]. cbn in E. injection E as ->.
    apply list_find_Some in Hf as (Hi & Hk & _). cbn in Hk. subst. by apply list_elem_of_lookup_2 in Hi.
  - intros k c o c' k' b' E. by injection E as _ ->.
  - intros k b n c k' b' [E|E]%elem_of_cons; [left; by injection E as -> ->|by right].
  - intros c id c' E. injection E as <- _. by apply wrap_u_range.
Qed.

(** Run lengths in the place of Snappy: the length, then pairs of a count and a
    byte. *)
Fixpoint runs (s : bytes) : list (nat * byte) :=
  match s with
  | [] => []
  | b :: s' => match runs s' with
               | (n, b') :: l => if decide (b = b' /\ (n < 255)%nat) then (S n, b) :: l else (1%nat, b) :: (n, b') :: l
               | [] => [(1%nat, b)]
               end
  end.

Fixpoint put_runs (l : list (nat * byte)) : bytes := match l with [] => [] | (n, b) :: l' => byte.of_Z (Z.of_nat n) :: b :: put_runs l' end.
Fixpoint get_runs (s : bytes) : bytes := match s with n :: b :: s' => replicate (Z.to_nat (byte.unsigned n)) b ++ get_runs s' | _ => [] end.

Definition Rle : Snappy := {|
  Snappy_Compress s := Some (le_split 4 (Z.of_nat (length s)) ++ put_runs (runs s));
  Snappy_GetUncompressedLength c := Some (le_combine (take 4 c));
  Snappy_Uncompress c := Some (get_runs (drop 4 c)) |}.

Lemma runs_small s : Forall (fun x => (1 <= fst x <= 255)%nat) (runs s).
Proof.
  induction s as [|b s IH]; cbn [runs]; [constructor|]. destruct (runs s) as [|[n b'] l]; [constructor; [cbn; lia|constructor]|].
  inversion IH; subst. cbn in *. case_decide; repeat (constructor; [cbn; lia|]); done.
Qed.

Lemma runs_back s : get_runs (put_runs (runs s)) = s.
Proof.
  assert (HG : forall n b l, (n <= 255)%nat -> get_runs (put_runs ((n, b) :: l)) = replicate n b ++ get_runs (put_runs l)).
  { intros n b l Hn. cbn [put_runs get_runs]. rewrite byte_of_Z_small by lia. by rewrite Nat2Z.id. }
  induction s as [|b s IH]; [done|]. cbn [runs]. pose proof (runs_small s) as Hs. destruct (runs s) as [|[n b'] l].
  - rewrite HG by lia. cbn in *. by rewrite <- IH.
  - apply Forall_cons in Hs as [Hn _]. cbn [fst] in Hn. case_decide as Hd.
    + destruct Hd as [-> Hd]. rewrite HG in IH |- * by lia. cbn. by rewrite IH.
    + rewrite HG by lia. cbn [replicate app]. by rewrite IH.
Qed.

#[export] Instance Rle_laws : SnappyLaws Rle.
Proof.
  split. intros raw c Hsz E. cbn [Snappy_Compress Snappy_GetUncompressedLength Snappy_Uncompress Rle] in *.
  assert (c = le_split 4 (Z.of_nat (length raw)) ++ put_runs (runs raw)) as -> by congruence. rewrite take_app_length', drop_app_length' by (by rewrite length_le_split).
  rewrite le_combine_split, runs_back, Z.mod_small by (cbn; lia). done.
Qed.

(** The bytewise comparator, blocks of 64 bytes, run lengths and Bloom filters. *)
Definition demo_policy : BloomFilterPolicy := MkBloom 10 6.
Definition demo_options : TableOptions :=
  MkTableOptions lexical 1 (fun a b => Ok (bw_FindShortestSeparator a b)) (fun a => Ok (bw_FindShortSuccessor a)) 64 2 kSnappyCompression
    (Some (bloom_policy true demo_policy)) true.

#[export] Instance demo_comparator : TableComparator demo_options.
Proof.
  split; cbn.
  - exact lexical_laws.
  - intros a b _ _ Hlt. destruct (short_sep_ok a b Hlt) as (H1 & H2 & H3). eexists. split; [done|]. done.
  - intros a _. destruct (short_succ_ok a) as [H1 H2]. eexists. split; [done|]. done.
Qed.

(** The tables of a database, whose keys are internal keys, are such tables. *)
Lemma internal_table uc {UL : CmpLaws uc} sep {SEP : Separators uc sep} succ {SUC : Successors uc succ} a size interval comp pol par :
  TableComparator (MkTableOptions (internal_comparator uc) a (ikc_FindShortestSeparator uc sep) (ikc_FindShortSuccessor uc succ) size interval comp pol par).
Proof.
  split; cbn.
  - by apply internal_laws.
  - intros x y Hx Hy Hlt. by apply internal_separator_between.
  - intros x Hx. by apply internal_successor_after.
Qed.

Definition demo_entries : entries :=
  [(lit "apple", replicate 90 NUL); (lit "banana", lit "1"); (lit "bandana", lit "2"); (lit "cherry", replicate 70 (byte.of_Z 120))].

Lemma table_refines_witness : exists r,
  build_table true (fun _ => 0) (SN := Rle) demo_options demo_entries [] = Ok (status_OK, r) /\
  forall w, cache_fresh (fun c k b => (k, b) ∈ snd c) w -> exists t w1 it,
  table_Open true (fun _ => 0) (SN := Rle) demo_options (tb_file r) (FileSize r) w = Ok (status_OK, Some t, w1) /\
  table_NewIterator (C := Z * list (bytes * Block)) true t = Ok it /\
  forall ro, exists it' w2 rs w3,
  run_iops (IT := table_iterator true (fun _ => 0) (SN := Rle) t ro) [BSeek (lit "b"); BNext; BLast; BPrev] it w1 =
    Ok ([Some (lit "banana", lit "1"); Some (lit "bandana", lit "2"); Some (lit "cherry", replicate 70 (byte.of_Z 120)); Some (lit "bandana", lit "2")], it', w2) /\
  i_status (Iterator := table_iterator (C := Z * list (bytes * Block)) true (fun _ => 0) (SN := Rle) t ro) it' = status_OK /\
  run_gets true (fun _ => 0) (SN := Rle) t ro [lit "bandana"; lit "bandana"; lit "date"] w2 = Ok (rs, w3) /\
  Forall2 (fun k sr => fst sr = status_OK /\ get_spec demo_options demo_entries k (snd sr)) [lit "bandana"; lit "bandana"; lit "date"] rs.
Proof.
  destruct (table_refines true (fun _ => 0) (fun d => Z.le_refl 0) (SN := Rle) (fun w : bytes => w) demo_options 20
    ltac:(intros p [= <-]; by apply (bloom_laws true 10)) ltac:(cbn; lia) (fun f : bytes => f) (fun c k b => (k, b) ∈ snd c) demo_entries [])
    as (r & Eb & HR); [done| |by vm_compute|].
  - split; [by repeat constructor|]. intros [|[|[|[|i]]]] [|[|[|[|j]]]] x y; cbn [demo_entries lookup list_lookup]; try discriminate; intros [= <-] [= <-] Hij; try lia; by vm_compute.
  - exists r. split; [done|]. intros w Hw. destruct (HR (tb_file r) w eq_refl Hw) as (t & w1 & it & Eo & En & HI). exists t, w1, it. split; [done|]. split; [done|].
    intros ro. apply (HI ro [BSeek (lit "b"); BNext; BLast; BPrev] [lit "bandana"; lit "bandana"; lit "date"]); [cbn; repeat split; lia|by repeat constructor].
Defined.
