(* ===== verification/LvlBatch.v ===== *)
(** * Write batches of LevelDB

    db/write_batch.cc of src/3rd-party/leveldb/leveldb-1.18: the byte string a
    batch is kept in (an eight-byte sequence number, a four-byte count and the
    records), the operations that add to it, and [Iterate], which hands the
    records to a handler. *)
From S2P Require Import Prelude Store LvlCoding LvlBase LvlFormat.

Definition kHeader : nat := 12.

(** What a handler is given. *)
Inductive record := RPut (key value : bytes) | RDelete (key : bytes).

Definition batch_Clear : bytes := replicate kHeader NUL.
Definition WriteBatch : bytes := batch_Clear.

(** [int Count] of the unsigned field. *)
Definition batch_Count (rep : bytes) : res Z :=
  n ← DecodeFixed32 true (drop 8 rep); Ok (wrap_s 32 n).

Definition batch_SetCount (rep : bytes) (n : Z) : res bytes :=
  if (12 <=? length rep)%nat then Ok (take 8 rep ++ EncodeFixed32 true (wrap_u 32 n) ++ drop 12 rep)
  else Ub OobWrite.

Definition batch_Sequence (rep : bytes) : res Z := DecodeFixed64 true rep.

Definition batch_SetSequence (rep : bytes) (seq : Z) : res bytes :=
  if (8 <=? length rep)%nat then Ok (EncodeFixed64 true seq ++ drop 8 rep) else Ub OobWrite.

(** [Count(this) + n] in [int]. *)
Definition add_count (c n : Z) : res Z :=
  if (- 2 ^ 31 <=? c + n) && (c + n <? 2 ^ 31) then Ok (c + n) else Ub SignedOverflow.

Definition batch_Put (rep key value : bytes) : res bytes :=
  c ← batch_Count rep;
  c' ← add_count c 1;
  rep ← batch_SetCount rep c';
  Ok (PutLengthPrefixedSlice (PutLengthPrefixedSlice (rep ++ [byte.of_Z (vt_val kTypeValue)]) key) value).

Definition batch_Delete (rep key : bytes) : res bytes :=
  c ← batch_Count rep;
  c' ← add_count c 1;
  rep ← batch_SetCount rep c';
  Ok (PutLengthPrefixedSlice (rep ++ [byte.of_Z (vt_val kTypeDeletion)]) key).

(** [contents.size() >= kHeader] is asserted. *)
Definition batch_SetContents (contents : bytes) : bytes := contents.

Definition batch_Append (dst src : bytes) : res bytes :=
  cd ← batch_Count dst;
  cs ← batch_Count src;
  c ← add_count cd cs;
  dst ← batch_SetCount dst c;
  if (kHeader <=? length src)%nat then Ok (dst ++ drop kHeader src) else Ub OobRead.

Section Iterate.
Context {A : Type} (handle : A -> record -> A).

(** The loop over the records: [found] so far, the rest of the input. It ends
    with the handler's state, the count and the error if there was one. *)
Fixpoint iterate_loop (fuel : nat) (input : bytes) (found : Z) (h : A) : option (res (A * Z * option Status)) :=
  match fuel with
  | O => None
  | S f =>
      match input with
      | [] => Some (Ok (h, found, None))
      | tag :: input =>
          match add_count found 1 with
          | Ub u => Some (Ub u)
          | Ok found =>
              if decide (byte.unsigned tag = vt_val kTypeValue) then
                let '(k, input) := GetLengthPrefixedSlice input in
                match k with
                | Some key =>
                    let '(v, input) := GetLengthPrefixedSlice input in
                    match v with
                    | Some value => iterate_loop f input found (handle h (RPut key value))
                    | None => Some (Ok (h, found, Some (Corruption (lit "bad WriteBatch Put"))))
                    end
                | None => Some (Ok (h, found, Some (Corruption (lit "bad WriteBatch Put"))))
                end
              else if decide (byte.unsigned tag = vt_val kTypeDeletion) then
                let '(k, input) := GetLengthPrefixedSlice input in
                match k with
                | Some key => iterate_loop f input found (handle h (RDelete key))
                | None => Some (Ok (h, found, Some (Corruption (lit "bad WriteBatch Delete"))))
                end
              else Some (Ok (h, found, Some (Corruption (lit "unknown WriteBatch tag"))))
          end
      end
  end.

(** A round consumes at least a byte. *)
Definition batch_Iterate (rep : bytes) (h : A) : option (res (A * Status)) :=
  if (length rep <? kHeader)%nat then Some (Ok (h, Corruption (lit "malformed WriteBatch (too small)")))
  else
    match iterate_loop (S (length rep)) (drop kHeader rep) 0 h with
    | None => None
    | Some (Ub u) => Some (Ub u)
    | Some (Ok (h, _, Some e)) => Some (Ok (h, e))
    | Some (Ok (h, found, None)) =>
        Some (c ← batch_Count rep;
              Ok (h, if found =? c then status_OK else Corruption (lit "WriteBatch has wrong count")))
    end.
End Iterate.

(** Adding a list of records to a batch. *)
Definition batch_add (rep : bytes) (r : record) : res bytes :=
  match r with RPut k v => batch_Put rep k v | RDelete k => batch_Delete rep k end.

Fixpoint batch_add_all (rep : bytes) (l : list record) : res bytes :=
  match l with [] => Ok rep | r :: l' => rep ← batch_add rep r; batch_add_all rep l' end.

(** ** The representation *)
Definition put_slice (v : bytes) : bytes := EncodeVarint32 (Z.of_nat (length v)) ++ v.

Definition record_bytes (r : record) : bytes :=
  match r with
  | RPut k v => byte.of_Z (vt_val kTypeValue) :: put_slice k ++ put_slice v
  | RDelete k => byte.of_Z (vt_val kTypeDeletion) :: put_slice k
  end.

Definition records_bytes (l : list record) : bytes := concat (record_bytes <$> l).

Definition record_ok (r : record) : Prop :=
  match r with
  | RPut k v => Z.of_nat (length k) < 2 ^ 32 /\ Z.of_nat (length v) < 2 ^ 32
  | RDelete k => Z.of_nat (length k) < 2 ^ 32
  end.

(** [rep] is the batch of the records [l] with sequence number [seq]. *)
Definition batch_is (rep : bytes) (seq : Z) (l : list record) : Prop :=
  0 <= seq < 2 ^ 64 /\ Z.of_nat (length l) < 2 ^ 31 /\ Forall record_ok l /\
  rep = EncodeFixed64 true seq ++ EncodeFixed32 true (Z.of_nat (length l)) ++ records_bytes l.

Lemma put_slice_eq dst v : Z.of_nat (length v) < 2 ^ 32 -> PutLengthPrefixedSlice dst v = dst ++ put_slice v.
Proof.
  intros Hv. unfold PutLengthPrefixedSlice, PutVarint32, put_slice. rewrite wrap_u_small by lia. by rewrite app_assoc.
Qed.

Lemma get_slice v rest : Z.of_nat (length v) < 2 ^ 32 -> GetLengthPrefixedSlice (put_slice v ++ rest) = (Some v, rest).
Proof.
  intros Hv. destruct (length_prefixed_get [] v rest Hv) as (enc & He & Hg & _).
  rewrite put_slice_eq in He by done. cbn in He. by subst enc.
Qed.

(** ** The header of a batch, whatever the records look like *)
Definition header_is (rep : bytes) (seq n : Z) (body : bytes) : Prop :=
  0 <= seq < 2 ^ 64 /\ 0 <= n < 2 ^ 31 /\ rep = EncodeFixed64 true seq ++ EncodeFixed32 true n ++ body.

Section Header.
Context (rep : bytes) (seq n : Z) (body : bytes).
Hypothesis HH : header_is rep seq n body.

Lemma header_parts :
  (12 <= length rep)%nat /\ take 8 rep = EncodeFixed64 true seq /\
  drop 8 rep = EncodeFixed32 true n ++ body /\ drop 12 rep = body.
Proof.
  destruct HH as (_ & _ & ->). rewrite encode64_le, encode32_le, !length_app, !length_le_split.
  rewrite take_app_length', drop_app_length' by (by rewrite length_le_split). split_and!; [lia|done|done|].
  rewrite app_assoc. apply drop_app_length'. by rewrite length_app, !length_le_split.
Qed.

Lemma header_count : batch_Count rep = Ok n.
Proof.
  destruct HH as (_ & Hn & _). destruct header_parts as (_ & _ & Hd & _).
  unfold batch_Count. rewrite Hd, fixed32_get by lia. cbn [mbind res_bind]. by rewrite wrap_s_small by lia.
Qed.

Lemma header_sequence : batch_Sequence rep = Ok seq.
Proof. destruct HH as (Hs & _ & ->). unfold batch_Sequence. by apply fixed64_get. Qed.

Lemma header_set_sequence seq' : 0 <= seq' < 2 ^ 64 ->
  exists rep', batch_SetSequence rep seq' = Ok rep' /\ header_is rep' seq' n body.
Proof.
  intros Hs'. destruct header_parts as (Hl & _ & Hd & _). destruct HH as (_ & Hn & _).
  unfold batch_SetSequence. rewrite (proj2 (Nat.leb_le _ _)) by lia. eexists. split; [done|]. by rewrite Hd.
Qed.

Lemma header_set_count n' : 0 <= n' < 2 ^ 31 ->
  exists rep', batch_SetCount rep n' = Ok rep' /\ header_is rep' seq n' body.
Proof.
  intros Hn'. destruct header_parts as (Hl & Ht & _ & Hd). destruct HH as (Hs & _). unfold batch_SetCount.
  rewrite (proj2 (Nat.leb_le _ _)) by lia. eexists. split; [done|]. by rewrite Ht, Hd, wrap_u_small by lia.
Qed.

Lemma header_append more : header_is (rep ++ more) seq n (body ++ more).
Proof. destruct HH as (Hs & Hn & ->). split_and!; try lia. by rewrite <- !app_assoc. Qed.
End Header.

Lemma add_count_ok c n : 0 <= c -> 0 <= n -> c + n < 2 ^ 31 -> add_count c n = Ok (c + n).
Proof. intros. unfold add_count. by rewrite (proj2 (Z.leb_le _ _)), (proj2 (Z.ltb_lt _ _)) by lia. Qed.

(** Counting a record more and appending its bytes. *)
Lemma header_add rep seq n body (k : bytes -> bytes) more :
  header_is rep seq n body -> n + 1 < 2 ^ 31 -> (forall r, k r = r ++ more) ->
  exists rep', (c ← batch_Count rep; c' ← add_count c 1; r ← batch_SetCount rep c'; Ok (k r)) = Ok rep' /\
    header_is rep' seq (n + 1) (body ++ more).
Proof.
  intros HH Hn Hk. pose proof HH as (_ & Hn0 & _). rewrite (header_count _ _ _ _ HH). cbn [mbind res_bind].
  rewrite add_count_ok by lia. cbn [mbind res_bind].
  destruct (header_set_count _ _ _ _ HH (n + 1)) as (r & -> & Hr); [lia|]. cbn [mbind res_bind]. rewrite Hk.
  eexists. split; [done|]. by apply header_append.
Qed.

Section Rep.
Context (rep : bytes) (seq : Z) (l : list record).
Hypothesis HB : batch_is rep seq l.

Lemma batch_header : header_is rep seq (Z.of_nat (length l)) (records_bytes l).
Proof. destruct HB as (Hs & Hn & _ & ->). split_and!; [lia..|done]. Qed.

Lemma batch_parts :
  (12 <= length rep)%nat /\ take 8 rep = EncodeFixed64 true seq /\
  drop 8 rep = EncodeFixed32 true (Z.of_nat (length l)) ++ records_bytes l /\ drop 12 rep = records_bytes l.
Proof. exact (header_parts _ _ _ _ batch_header). Qed.

Lemma batch_count : batch_Count rep = Ok (Z.of_nat (length l)).
Proof. exact (header_count _ _ _ _ batch_header). Qed.

Lemma batch_sequence : batch_Sequence rep = Ok seq.
Proof. exact (header_sequence _ _ _ _ batch_header). Qed.

Lemma batch_set_sequence seq' : 0 <= seq' < 2 ^ 64 ->
  exists rep', batch_SetSequence rep seq' = Ok rep' /\ batch_is rep' seq' l.
Proof.
  intros Hs'. destruct (header_set_sequence _ _ _ _ batch_header seq' Hs') as (rep' & E & _ & _ & ->).
  destruct HB as (_ & Hn & Hr & _). by eexists.
Qed.

Lemma batch_add_ok r : record_ok r -> Z.of_nat (length l) + 1 < 2 ^ 31 ->
  exists rep', batch_add rep r = Ok rep' /\ batch_is rep' seq (l ++ [r]).
Proof.
  intros Hr Hn. destruct HB as (Hs & _ & Hl & _).
  assert (exists rep', batch_add rep r = Ok rep' /\
    header_is rep' seq (Z.of_nat (length l) + 1) (records_bytes l ++ record_bytes r)) as (rep' & E & _ & _ & ->).
  { destruct r as [k v|k]; cbn in Hr; (apply header_add; [exact batch_header|lia|]); intros rp;
      rewrite !put_slice_eq by apply Hr; by rewrite <- !app_assoc. }
  eexists. split; [exact E|]. split_and!; [lia|lia|rewrite length_app; cbn; lia|by apply Forall_app_2; [|apply Forall_singleton]|].
  rewrite length_app, Nat2Z.inj_add. unfold records_bytes. rewrite fmap_app, concat_app. cbn. by rewrite app_nil_r.
Qed.
End Rep.

Lemma batch_add_all_ok rep seq l l' :
  batch_is rep seq l -> Forall record_ok l' -> Z.of_nat (length l + length l') < 2 ^ 31 ->
  exists rep', batch_add_all rep l' = Ok rep' /\ batch_is rep' seq (l ++ l').
Proof.
  intros HB Hl. revert rep l HB. induction Hl as [|r l' Hr _ IH]; intros rep l HB Hn; cbn [batch_add_all].
  - exists rep. by rewrite app_nil_r.
  - cbn in Hn. destruct (batch_add_ok rep seq l HB r Hr ltac:(lia)) as (rep1 & -> & HB1). cbn [mbind res_bind].
    destruct (IH rep1 _ HB1) as (rep2 & -> & HB2); [rewrite length_app; cbn; lia|].
    exists rep2. by rewrite <- app_assoc in HB2.
Qed.

Lemma batch_is_empty : batch_is WriteBatch 0 [].
Proof. by split_and!. Qed.

Lemma batch_append_ok rep seq l rep' seq' l' :
  batch_is rep seq l -> batch_is rep' seq' l' -> Z.of_nat (length l + length l') < 2 ^ 31 ->
  exists rep'', batch_Append rep rep' = Ok rep'' /\ batch_is rep'' seq (l ++ l').
Proof.
  intros HB HB' Hn. unfold batch_Append. rewrite (batch_count rep seq l HB), (batch_count rep' seq' l' HB').
  cbn [mbind res_bind]. rewrite add_count_ok by lia. cbn [mbind res_bind].
  destruct (header_set_count _ _ _ _ (batch_header rep seq l HB) (Z.of_nat (length l) + Z.of_nat (length l')))
    as (rp & -> & _ & _ & ->); [lia|]. cbn [mbind res_bind].
  destruct (batch_parts rep' seq' l' HB') as (Hl' & _ & _ & Hd'). unfold kHeader.
  rewrite (proj2 (Nat.leb_le _ _)) by lia. eexists. split; [done|]. rewrite Hd'.
  destruct HB as (Hs & _ & Hr & _), HB' as (_ & _ & Hr' & _). split_and!; [lia|lia|rewrite length_app; lia|by apply Forall_app|].
  unfold records_bytes. rewrite fmap_app, concat_app, length_app, Nat2Z.inj_add, <- !app_assoc. done.
Qed.

Section IterateLemmas.
Context {A : Type} (handle : A -> record -> A).

Lemma iterate_records fuel l found h :
  Forall record_ok l -> 0 <= found -> found + Z.of_nat (length l) < 2 ^ 31 ->
  (length (records_bytes l) < fuel)%nat ->
  iterate_loop handle fuel (records_bytes l) found h =
    Some (Ok (foldl handle h l, found + Z.of_nat (length l), None)).
Proof.
  intros Hl. revert fuel found h. induction Hl as [|r l Hr _ IH]; intros [|f] found h Hf Hn Hfuel; try (cbn in Hfuel; lia).
  - cbn. f_equal. f_equal. f_equal. f_equal. lia.
  - assert (HA : add_count found 1 = Ok (found + 1)).
    { unfold add_count. cbn in Hn. by rewrite (proj2 (Z.leb_le _ _)), (proj2 (Z.ltb_lt _ _)) by lia. }
    assert (Hlen : (length (records_bytes l) < f)%nat).
    { unfold records_bytes in Hfuel. cbn in Hfuel. rewrite length_app in Hfuel. destruct r; cbn in Hfuel;
        fold (records_bytes l) in Hfuel; lia. }
    cbn in Hn. specialize (IH f (found + 1)). change (records_bytes (r :: l)) with (record_bytes r ++ records_bytes l).
    destruct r as [k v|k]; cbn [record_bytes app iterate_loop]; rewrite HA.
    + destruct Hr as [Hk Hv]. rewrite decide_True by done. rewrite <- app_assoc, get_slice by done. cbn [fst snd].
      rewrite get_slice by done. rewrite IH by (done || lia). cbn. do 4 f_equal. lia.
    + rewrite decide_False, decide_True by done. rewrite get_slice by done. rewrite IH by (done || lia). cbn. do 4 f_equal. lia.
Qed.

Lemma iterate_batch rep seq l h :
  batch_is rep seq l -> batch_Iterate handle rep h = Some (Ok (foldl handle h l, status_OK)).
Proof.
  intros HB. pose proof (batch_parts rep seq l HB) as (Hlen & _ & _ & Hd). unfold batch_Iterate, kHeader.
  rewrite (proj2 (Nat.ltb_ge _ _)) by lia. rewrite Hd. pose proof HB as (_ & Hn & Hr & ->).
  rewrite iterate_records; [|done|lia|lia|rewrite !length_app; lia].
  rewrite (batch_count _ seq l HB). cbn [mbind res_bind]. by rewrite Z.eqb_refl.
Qed.
End IterateLemmas.

(** The bytes determine the batch. *)
Lemma batch_is_inj rep seq l seq' l' : batch_is rep seq l -> batch_is rep seq' l' -> seq = seq' /\ l = l'.
Proof.
  intros HB HB'. pose proof (batch_sequence _ _ _ HB) as S1. rewrite (batch_sequence _ _ _ HB') in S1.
  pose proof (iterate_batch (fun l r => l ++ [r]) _ _ _ [] HB) as I1.
  rewrite (iterate_batch (fun l r => l ++ [r]) _ _ _ [] HB') in I1. injection S1 as ->. injection I1 as I1. split; [done|].
  assert (F : forall acc l, foldl (fun l r => l ++ [r]) acc l = acc ++ l :> list record).
  { intros acc m. revert acc. induction m as [|r m IH]; intros acc; cbn; [by rewrite app_nil_r|]. by rewrite IH, <- app_assoc. }
  by rewrite !F in I1.
Qed.

(** C38. What goes into a batch comes out of it: a batch built by [Put] and
    [Delete] calls, appended to another one and given a sequence number keeps
    that number, counts its records, and [Iterate] hands a handler exactly the
    records, in order, ending with OK, for keys and values shorter than 4 GiB
    and fewer than 2^31 records. *)
Theorem batch_roundtrip {A} (handle : A -> record -> A) h l l' seq :
  Forall record_ok (l ++ l') -> Z.of_nat (length (l ++ l')) < 2 ^ 31 -> 0 <= seq < 2 ^ 64 ->
  exists a b c rep, batch_add_all WriteBatch l = Ok a /\ batch_add_all WriteBatch l' = Ok b /\
    batch_Append a b = Ok c /\ batch_SetSequence c seq = Ok rep /\
    batch_Sequence rep = Ok seq /\ batch_Count rep = Ok (Z.of_nat (length (l ++ l'))) /\
    batch_Iterate handle rep h = Some (Ok (foldl handle h (l ++ l'), status_OK)).
Proof.
  intros [Hl Hl']%Forall_app Hn Hs. rewrite length_app in Hn.
  destruct (batch_add_all_ok WriteBatch 0 [] l batch_is_empty Hl ltac:(cbn; lia)) as (a & Ea & HA).
  destruct (batch_add_all_ok WriteBatch 0 [] l' batch_is_empty Hl' ltac:(cbn; lia)) as (b & Eb & HB).
  destruct (batch_append_ok a 0 l b 0 l' HA HB ltac:(lia)) as (c & Ec & HC).
  destruct (batch_set_sequence c 0 (l ++ l') HC seq Hs) as (rep & Er & HR).
  exists a, b, c, rep. split_and!; try done.
  - by apply (batch_sequence rep seq (l ++ l')).
  - by apply (batch_count rep seq (l ++ l')).
  - by apply (iterate_batch handle rep seq (l ++ l')).
Qed.

Lemma batch_roundtrip_witness : exists a b c rep,
  batch_add_all WriteBatch [RPut (lit "k") (lit "v")] = Ok a /\ batch_add_all WriteBatch [RDelete (lit "j")] = Ok b /\
  batch_Append a b = Ok c /\ batch_SetSequence c 7 = Ok rep /\ batch_Sequence rep = Ok 7 /\ batch_Count rep = Ok 2 /\
  batch_Iterate (fun l r => l ++ [r]) rep [] = Some (Ok ([RPut (lit "k") (lit "v"); RDelete (lit "j")], status_OK)).
Proof.
  apply (batch_roundtrip (fun l r => l ++ [r]) [] [RPut (lit "k") (lit "v")] [RDelete (lit "j")] 7);
    [repeat constructor|cbn; lia|lia].
Defined.

(** ** Damaged batches *)
Lemma iterate_total {A} (handle : A -> record -> A) fuel input found h :
  (length input < fuel)%nat -> 0 <= found -> found + Z.of_nat (length input) < 2 ^ 31 ->
  exists r, iterate_loop handle fuel input found h = Some (Ok r).
Proof.
  revert input found h. induction fuel as [|f IH]; intros input found h Hf H0 Hn; [lia|].
  destruct input as [|tag input]; cbn [iterate_loop]; [by eexists|]. cbn in Hf, Hn.
  unfold add_count. rewrite (proj2 (Z.leb_le _ _)), (proj2 (Z.ltb_lt _ _)) by lia. cbn [andb].
  pose proof (length_prefixed_rest input) as H1. destruct (GetLengthPrefixedSlice input) as [[k|] input1]; cbn in H1.
  - pose proof (length_prefixed_rest input1) as H2. destruct (GetLengthPrefixedSlice input1) as [[v|] input2]; cbn in H2;
      repeat case_decide; try (by eexists); apply IH; lia.
  - repeat case_decide; by eexists.
Qed.

Lemma batch_count_total rep : (12 <= length rep)%nat -> exists c, batch_Count rep = Ok c.
Proof.
  intros Hl. unfold batch_Count. destruct (drop 8 rep) as [|b0 [|b1 [|b2 [|b3 p]]]] eqn:E;
    try (apply (f_equal length) in E; rewrite length_drop in E; cbn in E; lia).
  rewrite decode32_le. by eexists.
Qed.

Lemma get_short v rest k :
  Z.of_nat (length v) < 2 ^ 32 ->
  if (k <? length (put_slice v))%nat then exists i, GetLengthPrefixedSlice (take k (put_slice v ++ rest)) = (None, i)
  else GetLengthPrefixedSlice (take k (put_slice v ++ rest)) = (Some v, take (k - length (put_slice v)) rest).
Proof.
  intros Hv. destruct (Nat.ltb_spec k (length (put_slice v))).
  - rewrite take_app_le by lia. eexists. rewrite (surjective_pairing (GetLengthPrefixedSlice _)).
    f_equal. by apply length_prefixed_short.
  - rewrite take_app_ge by lia. by apply get_slice.
Qed.

Lemma iterate_cut {A} (handle : A -> record -> A) fuel l k found h :
  Forall record_ok l -> (k < length (records_bytes l))%nat -> (k < fuel)%nat ->
  0 <= found -> found + Z.of_nat (length l) < 2 ^ 31 ->
  exists h' n e, iterate_loop handle fuel (take k (records_bytes l)) found h = Some (Ok (h', n, e)) /\
    match e with Some e => status_ok e = false | None => n < found + Z.of_nat (length l) end.
Proof.
  intros Hl. revert fuel k found h. induction Hl as [|r l Hr _ IH]; intros [|f] k found h Hk Hf H0 Hn; try (cbn in Hk; lia).
  destruct k as [|k]; [exists h, found, None; split; [done|]; cbn; lia|].
  change (records_bytes (r :: l)) with (record_bytes r ++ records_bytes l) in *. rewrite length_app in Hk. cbn in Hn.
  assert (HA : add_count found 1 = Ok (found + 1))
    by (unfold add_count; by rewrite (proj2 (Z.leb_le _ _)), (proj2 (Z.ltb_lt _ _)) by lia).
  destruct r as [a v|a]; cbn [record_bytes app take iterate_loop length] in Hk |- *; rewrite HA.
  - destruct Hr as [Ha Hv]. rewrite decide_True by done. rewrite length_app in Hk. rewrite <- app_assoc.
    pose proof (get_short a (put_slice v ++ records_bytes l) k Ha) as G1.
    destruct (Nat.ltb_spec k (length (put_slice a))).
    { destruct G1 as [i ->]. by do 3 eexists. }
    rewrite G1. pose proof (get_short v (records_bytes l) (k - length (put_slice a)) Hv) as G2.
    destruct (Nat.ltb_spec (k - length (put_slice a)) (length (put_slice v))).
    { destruct G2 as [i ->]. by do 3 eexists. }
    rewrite G2. destruct (IH f (k - length (put_slice a) - length (put_slice v))%nat (found + 1) (handle h (RPut a v)))
      as (h' & n & e & -> & He); try lia. exists h', n, e. split; [done|]. destruct e; [done|]. cbn. lia.
  - rewrite decide_False, decide_True by done. pose proof (get_short a (records_bytes l) k Hr) as G1.
    destruct (Nat.ltb_spec k (length (put_slice a))).
    { destruct G1 as [i ->]. by do 3 eexists. }
    rewrite G1. destruct (IH f (k - length (put_slice a))%nat (found + 1) (handle h (RDelete a)))
      as (h' & n & e & -> & He); try lia. exists h', n, e. split; [done|]. destruct e; [done|]. cbn. lia.
Qed.

(** Replaying a batch is safe on any bytes: for a string shorter than 2 GiB
    [Iterate] ends, reads inside it only and reports a status; and a batch cut
    off anywhere is never taken for a complete one. *)
Theorem batch_damage_detected {A} (handle : A -> record -> A) rep h :
  Z.of_nat (length rep) < 2 ^ 31 ->
  (exists r, batch_Iterate handle rep h = Some (Ok r)) /\
  (forall seq l k, batch_is rep seq l -> (k < length rep)%nat ->
     exists h' e, batch_Iterate handle (take k rep) h = Some (Ok (h', e)) /\ status_ok e = false).
Proof.
  intros Hn. split.
  - unfold batch_Iterate, kHeader. destruct (Nat.ltb_spec (length rep) 12); [by eexists|].
    destruct (iterate_total handle (S (length rep)) (drop 12 rep) 0 h) as [[[h' n] e] ->]; rewrite ?length_drop; try lia.
    destruct e; [by eexists|]. destruct (batch_count_total rep) as [c ->]; [done|]. by eexists.
  - intros seq l k HB Hk. pose proof (batch_parts rep seq l HB) as (Hlen & Ht & Hd8 & Hd).
    unfold batch_Iterate, kHeader. rewrite length_take, Nat.min_l by lia.
    destruct (Nat.ltb_spec k 12); [by do 2 eexists|].
    assert (Hc : batch_Count (take k rep) = Ok (Z.of_nat (length l))).
    { pose proof HB as (_ & Hnl & _). unfold batch_Count. rewrite skipn_firstn_comm, Hd8.
      rewrite take_app_ge by (rewrite encode32_le, length_le_split; lia). rewrite fixed32_get by lia.
      cbn [mbind res_bind]. by rewrite wrap_s_small by lia. }
    rewrite Hc, skipn_firstn_comm, Hd. pose proof HB as (_ & Hnl & Hr & _).
    assert (length (records_bytes l) = (length rep - 12)%nat) as Hlr by (by rewrite <- Hd, length_drop).
    destruct (iterate_cut handle (S k) l (k - 12) 0 h Hr) as (h' & n & e & -> & He); try lia.
    destruct e as [e|]; [by exists h', e|]. cbn [mbind res_bind].
    exists h'. eexists. split; [done|]. by rewrite (proj2 (Z.eqb_neq _ _)) by lia.
Qed.

Lemma batch_damage_detected_witness :
  (exists r, batch_Iterate (fun l r => l ++ [r]) WriteBatch [] = Some (Ok r)) /\
  (forall seq l k, batch_is WriteBatch seq l -> (k < length WriteBatch)%nat ->
     exists h' e, batch_Iterate (fun l r => l ++ [r]) (take k WriteBatch) [] = Some (Ok (h', e)) /\ status_ok e = false).
Proof. apply (batch_damage_detected (fun l r => l ++ [r]) WriteBatch []). cbn. lia. Defined.
