(* ===== verification/LvlSkipList.v ===== *)
(** * The skip list of LevelDB's memtable

    db/skiplist.h and util/random.h of src/3rd-party/leveldb/leveldb-1.18, as
    the pointer structure it is: nodes in an arena, each with an array of next
    pointers as high as the node, a head node, and searches that go right and
    down.  A pointer is the index of a node in the arena. *)
From Stdlib Require Import Sorting.Sorted.
From stdpp Require Import sorting.
From S2P Require Import Prelude.

(** ** Random numbers *)
Definition random_new (s : Z) : Z :=
  let seed := Z.land s 0x7fffffff in
  if (seed =? 0) || (seed =? 2147483647) then 1 else seed.

Definition random_Next (seed : Z) : Z :=
  let M := 2147483647 in
  let A := 16807 in
  let product := wrap_u 64 (seed * A) in
  let seed := wrap_u 32 (Z.shiftr product 31 + Z.land product M) in
  if M <? seed then seed - M else seed.

Definition kMaxHeight : nat := 12.

Section SkipList.
Context {K : Type} (compare : K -> K -> res Z).

(** The head has no key of its own. *)
Record node := Node { n_key : option K; n_next : list (option nat) }.

Record skiplist := SkipList { nodes : list node; max_height : nat; rnd : Z }.

Definition head_ : nat := 0.

Definition skiplist_new : skiplist :=
  SkipList [Node None (replicate kMaxHeight None)] 1 (random_new 0xdeadbeef).

Definition node_Next (ns : list node) (x n : nat) : res (option nat) :=
  match ns !! x with
  | None => Ub DanglingPtr
  | Some nd => of_option OobRead (n_next nd !! n)
  end.

Definition node_SetNext (ns : list node) (x n : nat) (y : option nat) : res (list node) :=
  match ns !! x with
  | None => Ub DanglingPtr
  | Some nd =>
      if (n <? length (n_next nd))%nat then Ok (<[x := Node (n_key nd) (<[n := y]> (n_next nd))]> ns)
      else Ub OobWrite
  end.

Definition node_key (ns : list node) (x : nat) : res K :=
  match ns !! x with
  | None => Ub DanglingPtr
  | Some nd => of_option UninitRead (n_key nd)
  end.

Definition KeyIsAfterNode (ns : list node) (key : K) (n : option nat) : res bool :=
  match n with
  | None => Ok false
  | Some a => k ← node_key ns a; c ← compare k key; Ok (c <? 0)
  end.

(** The loop of the searches: go right while [adv] says so, else remember the
    node and go down.  It ends with the node it stops at, the next one, and the
    nodes where it went down; [None] when the rounds are used up. *)
Fixpoint descend (fuel : nat) (ns : list node) (adv : option nat -> res bool) (x level : nat)
    (prev : list (option nat)) : option (res (nat * option nat * list (option nat))) :=
  match fuel with
  | O => None
  | S f =>
      match node_Next ns x level with
      | Ub u => Some (Ub u)
      | Ok next =>
          match adv next with
          | Ub u => Some (Ub u)
          | Ok true =>
              match next with
              | Some b => descend f ns adv b level prev
              | None => Some (Ub NullDeref)
              end
          | Ok false =>
              let prev := <[level := Some x]> prev in
              match level with
              | O => Some (Ok (x, next, prev))
              | S l => descend f ns adv x l prev
              end
          end
      end
  end.

(** Every level has at most as many rounds as there are nodes. *)
Definition rounds (ns : list node) : nat := kMaxHeight * length ns.

(** An array of [kMaxHeight] pointers that were not written yet. *)
Definition no_prev : list (option nat) := replicate kMaxHeight None.

Definition search (sl : skiplist) (adv : option nat -> res bool) :
    option (res (nat * option nat * list (option nat))) :=
  descend (rounds (nodes sl)) (nodes sl) adv head_ (max_height sl - 1) no_prev.

Definition FindGreaterOrEqual (sl : skiplist) (key : K) : option (res (option nat * list (option nat))) :=
  match search sl (KeyIsAfterNode (nodes sl) key) with
  | Some (Ok (_, next, prev)) => Some (Ok (next, prev))
  | Some (Ub u) => Some (Ub u)
  | None => None
  end.

Definition FindLessThan (sl : skiplist) (key : K) : option (res nat) :=
  match search sl (KeyIsAfterNode (nodes sl) key) with
  | Some (Ok (x, _, _)) => Some (Ok x)
  | Some (Ub u) => Some (Ub u)
  | None => None
  end.

Definition FindLast (sl : skiplist) : option (res nat) :=
  match search sl (fun next => Ok (bool_decide (is_Some next))) with
  | Some (Ok (x, _, _)) => Some (Ok x)
  | Some (Ub u) => Some (Ub u)
  | None => None
  end.

Fixpoint random_height_loop (fuel height : nat) (seed : Z) : nat * Z :=
  match fuel with
  | O => (height, seed)
  | S f =>
      if (height <? kMaxHeight)%nat then
        let seed := random_Next seed in
        if seed mod 4 =? 0 then random_height_loop f (S height) seed else (height, seed)
      else (height, seed)
  end.

Definition RandomHeight (seed : Z) : nat * Z := random_height_loop kMaxHeight 1 seed.

(** [for (int i = a; i < b; i++) prev[i] = head_] *)
Fixpoint fill_head (a n : nat) (prev : list (option nat)) : list (option nat) :=
  match n with O => prev | S n' => fill_head (S a) n' (<[a := Some head_]> prev) end.

(** The loop that links the node [x] in at the levels from [i] on. *)
Fixpoint link_loop (n i x : nat) (prev : list (option nat)) (ns : list node) : res (list node) :=
  match n with
  | O => Ok ns
  | S n' =>
      p ← of_option UninitRead (mjoin (prev !! i));
      nx ← node_Next ns p i;
      ns ← node_SetNext ns x i nx;
      ns ← node_SetNext ns p i (Some x);
      link_loop n' (S i) x prev ns
  end.

(** [x != NULL && Equal(key, x->key)] *)
Definition found_equal (ns : list node) (key : K) (x : option nat) : res bool :=
  match x with None => Ok false | Some a => k ← node_key ns a; c ← compare key k; Ok (c =? 0) end.

Definition Insert (sl : skiplist) (key : K) : option (res skiplist) :=
  match FindGreaterOrEqual sl key with
  | None => None
  | Some (Ub u) => Some (Ub u)
  | Some (Ok (x, prev)) =>
      match found_equal (nodes sl) key x with
      | Ub u => Some (Ub u)
      | Ok true => Some (Ub AssertFail)
      | Ok false =>
      let '(height, seed) := RandomHeight (rnd sl) in
      let prev := if (max_height sl <? height)%nat
                  then fill_head (max_height sl) (height - max_height sl) prev else prev in
      let mh := if (max_height sl <? height)%nat then height else max_height sl in
      let x := length (nodes sl) in
      let ns := nodes sl ++ [Node (Some key) (replicate height None)] in
      Some (ns ← link_loop height 0 x prev ns; Ok (SkipList ns mh seed))
      end
  end.

Definition Contains (sl : skiplist) (key : K) : option (res bool) :=
  match FindGreaterOrEqual sl key with
  | None => None
  | Some (Ub u) => Some (Ub u)
  | Some (Ok (x, _)) => Some (found_equal (nodes sl) key x)
  end.

(** ** Iterators: the node they are at *)
Definition iter_Valid (it : option nat) : bool := bool_decide (is_Some it).

Definition iter_key (sl : skiplist) (it : option nat) : res K :=
  x ← of_option NullDeref it; node_key (nodes sl) x.

Definition iter_Next (sl : skiplist) (it : option nat) : res (option nat) :=
  x ← of_option NullDeref it; node_Next (nodes sl) x 0.

Definition not_head (r : option (res nat)) : option (res (option nat)) :=
  match r with
  | None => None
  | Some (Ub u) => Some (Ub u)
  | Some (Ok x) => Some (Ok (if decide (x = head_) then None else Some x))
  end.

Definition iter_Prev (sl : skiplist) (it : option nat) : option (res (option nat)) :=
  match iter_key sl it with
  | Ub u => Some (Ub u)
  | Ok k => not_head (FindLessThan sl k)
  end.

Definition iter_Seek (sl : skiplist) (target : K) : option (res (option nat)) :=
  match FindGreaterOrEqual sl target with
  | None => None
  | Some (Ub u) => Some (Ub u)
  | Some (Ok (next, _)) => Some (Ok next)
  end.

Definition iter_SeekToFirst (sl : skiplist) : res (option nat) := node_Next (nodes sl) head_ 0.
Definition iter_SeekToLast (sl : skiplist) : option (res (option nat)) := not_head (FindLast sl).

(** ** The list it represents *)
Definition height (ns : list node) (a : nat) : nat := from_option (fun nd => length (n_next nd)) 0%nat (ns !! a).

(** The nodes of the list [l] that reach level [i]. *)
Definition level (ns : list node) (i : nat) (l : list nat) : list nat := filter (fun a => (i < height ns a)%nat) l.

(** Along the list [l] the pointers of level [i] lead from node to node. *)
Definition chain (ns : list node) (i : nat) (l : list nat) : Prop :=
  forall j a, l !! j = Some a -> node_Next ns a i = Ok (l !! S j).

(** [l] are the nodes in order, and their keys. *)
Record repr (sl : skiplist) (l : list nat) (ks : list K) : Prop := {
  r_keys : Forall2 (fun a k => exists nx, nodes sl !! a = Some (Node (Some k) nx) /\
                       (1 <= length nx <= max_height sl)%nat) l ks;
  r_head : exists nx, nodes sl !! head_ = Some (Node None nx) /\ length nx = kMaxHeight;
  r_nodup : NoDup (head_ :: l);
  r_chain i : (i < kMaxHeight)%nat -> chain (nodes sl) i (head_ :: level (nodes sl) i l);
  r_max : (1 <= max_height sl <= kMaxHeight)%nat;
  r_size : (length l < length (nodes sl))%nat
}.

(** ** Where a search stops *)

Lemma level_app ns i l1 l2 : level ns i (l1 ++ l2) = level ns i l1 ++ level ns i l2.
Proof. apply filter_app. Qed.

Lemma level_length ns i l : (length (level ns i l) <= length l)%nat.
Proof. apply length_filter. Qed.

Lemma elem_of_level ns i l a : a ∈ level ns i l <-> (i < height ns a)%nat /\ a ∈ l.
Proof. unfold level. apply (list_elem_of_filter (fun a => (i < height ns a)%nat)). Qed.

#[export] Instance set_unfold_level ns i l a Q :
  SetUnfoldElemOf a l Q -> SetUnfoldElemOf a (level ns i l) ((i < height ns a)%nat /\ Q).
Proof. constructor. by rewrite elem_of_level, (set_unfold_elem_of a l Q). Qed.

Lemma level_0 ns l : Forall (fun a => (0 < height ns a)%nat) l -> level ns 0 l = l.
Proof. apply list_filter_all. Qed.

Section Search.
Context (ns : list node) (l1 l2 : list nat) (adv : option nat -> res bool).
Hypothesis CH : forall i, (i < kMaxHeight)%nat -> chain ns i (head_ :: level ns i (l1 ++ l2)).
Hypothesis A1 : Forall (fun a => adv (Some a) = Ok true) l1.
Hypothesis A2 : Forall (fun a => adv (Some a) = Ok false) l2.
Hypothesis AN : adv None = Ok false.

Lemma adv_head i : adv (head (level ns i l2)) = Ok false.
Proof.
  destruct (level ns i l2) as [|b l] eqn:E; [done|]. cbn.
  rewrite Forall_forall in A2. apply A2. assert (b ∈ level ns i l2) as Hb by (rewrite E; set_solver).
  unfold level in Hb. apply list_elem_of_filter in Hb. by destruct Hb.
Qed.

(** One round at the [j]-th node of the first part. *)
Lemma round_right i j x :
  (i < kMaxHeight)%nat -> (head_ :: level ns i l1) !! j = Some x ->
  node_Next ns x i = Ok ((level ns i l1 ++ level ns i l2) !! j).
Proof.
  intros Hi Hx. specialize (CH i Hi). rewrite level_app in CH. apply (CH j).
  change (((head_ :: level ns i l1) ++ level ns i l2) !! j = Some x). by apply lookup_app_l_Some.
Qed.

(** The nodes where the search goes down, level by level. *)
Definition stops (lv : nat) (prev prev' : list (option nat)) : Prop :=
  length prev' = length prev /\
  (forall i, (i <= lv)%nat -> prev' !! i = Some (last (head_ :: level ns i l1))) /\
  (forall i, (lv < i)%nat -> prev' !! i = prev !! i).

Lemma level_down i x j :
  (head_ :: level ns (S i) l1) !! j = Some x -> exists j', (head_ :: level ns i l1) !! j' = Some x.
Proof.
  intros Hx%list_elem_of_lookup_2. apply list_elem_of_lookup_1. unfold level in *.
  apply elem_of_cons in Hx as [->|[Hh Hl]%list_elem_of_filter]; [set_solver|].
  apply elem_of_cons. right. apply list_elem_of_filter. split; [lia|done].
Qed.

Lemma descend_stops fuel lv j x prev :
  (lv < kMaxHeight)%nat -> (lv < length prev)%nat ->
  (head_ :: level ns lv l1) !! j = Some x ->
  (lv * S (length l1) + (length (level ns lv l1) - j) < fuel)%nat ->
  exists prev', stops lv prev prev' /\
    descend fuel ns adv x lv prev =
      Some (Ok (default head_ (last (head_ :: level ns 0 l1)), head (level ns 0 l2), prev')).
Proof.
  revert lv j x prev. induction fuel as [|fuel IH]; intros lv j x prev Hlv Hpr Hx Hf; [lia|].
  assert (j <= length (level ns lv l1))%nat as Hj
    by (apply lookup_lt_Some in Hx; cbn in Hx; lia).
  cbn [descend]. rewrite (round_right lv j x) by done.
  destruct (decide (j < length (level ns lv l1))%nat) as [Hlt|Hge].
  - destruct (lookup_lt_is_Some_2 _ _ Hlt) as [b Hb]. rewrite lookup_app_l, Hb by done.
    rewrite Forall_forall in A1. rewrite A1 by (apply list_elem_of_lookup_2, list_elem_of_filter in Hb; by destruct Hb).
    apply (IH lv (S j)); [done|done|done|lia].
  - assert (j = length (level ns lv l1)) as -> by lia. rewrite lookup_app_r, Nat.sub_diag by done.
    rewrite <- head_lookup, adv_head. cbv zeta.
    assert (Hlast : last (head_ :: level ns lv l1) = Some x) by (rewrite last_lookup; exact Hx).
    destruct lv as [|lv].
    + eexists. split; [|by rewrite Hlast]. split; [apply length_insert|]. split; intros i Hi.
      * assert (i = 0%nat) as -> by lia. rewrite Hlast. by apply list_lookup_insert_eq.
      * apply list_lookup_insert_ne. lia.
    + destruct (level_down lv x _ Hx) as [j' Hj'].
      destruct (IH lv j' x (<[S lv := Some x]> prev)) as (prev' & (S1 & S2 & S3) & ->).
      * lia.
      * rewrite length_insert. lia.
      * done.
      * pose proof (level_length ns lv l1). nia.
      * exists prev'. split; [|done]. split; [by rewrite S1, length_insert|]. split; intros i Hi.
        -- destruct (decide (i <= lv)%nat); [by apply S2|]. assert (i = S lv) as -> by lia.
           rewrite S3, Hlast by lia. by apply list_lookup_insert_eq.
        -- rewrite S3 by lia. apply list_lookup_insert_ne. lia.
Qed.
End Search.

Lemma repr_levels sl l ks :
  repr sl l ks -> Forall (fun a => (0 < height (nodes sl) a)%nat) l.
Proof.
  intros R. apply Forall_forall. intros a Ha.
  destruct (Forall2_lookup_l _ _ _ (default 0%nat (fst <$> list_find (a =.) l)) a (r_keys _ _ _ R)) as (k & _ & nx & Hn & Hh).
  - apply list_elem_of_lookup in Ha as [i Hi].
    destruct (list_find (a =.) l) as [[j b]|] eqn:E.
    + apply list_find_Some in E as (Hj & -> & _). done.
    + apply list_find_None in E. rewrite Forall_lookup in E. by destruct (E _ _ Hi).
  - unfold height. rewrite Hn. cbn. lia.
Qed.

Lemma search_stops sl l1 l2 ks adv :
  repr sl (l1 ++ l2) ks ->
  Forall (fun a => adv (Some a) = Ok true) l1 -> Forall (fun a => adv (Some a) = Ok false) l2 ->
  adv None = Ok false ->
  exists prev, stops (nodes sl) l1 (max_height sl - 1) no_prev prev /\
    search sl adv = Some (Ok (default head_ (last (head_ :: l1)), head l2, prev)).
Proof.
  intros R A1 A2 AN. pose proof (r_max _ _ _ R). pose proof (r_size _ _ _ R) as Hs. rewrite length_app in Hs.
  pose proof (repr_levels _ _ _ R) as [L1 L2]%Forall_app.
  destruct (descend_stops (nodes sl) l1 l2 adv (r_chain _ _ _ R) A1 A2 AN
    (rounds (nodes sl)) (max_height sl - 1) 0 head_ no_prev) as (prev & S & E).
  - lia.
  - unfold no_prev. rewrite length_replicate. lia.
  - done.
  - pose proof (level_length (nodes sl) (max_height sl - 1) l1). unfold rounds, kMaxHeight in *. nia.
  - exists prev. split; [done|]. unfold search. rewrite E, !level_0 by done. done.
Qed.

(** ** Linking a node in *)
Definition same_shape (ns ns' : list node) : Prop :=
  length ns' = length ns /\
  forall a, (fun nd => (n_key nd, length (n_next nd))) <$> ns' !! a =
            (fun nd => (n_key nd, length (n_next nd))) <$> ns !! a.

Lemma same_shape_trans ns1 ns2 ns3 : same_shape ns1 ns2 -> same_shape ns2 ns3 -> same_shape ns1 ns3.
Proof. intros [L1 H1] [L2 H2]. split; [congruence|]. intros a. by rewrite H2, H1. Qed.

Lemma same_shape_height ns ns' a : same_shape ns ns' -> height ns' a = height ns a.
Proof.
  intros [_ H]. specialize (H a). unfold height. destruct (ns !! a), (ns' !! a); naive_solver.
Qed.

Lemma next_reaches ns x i : (i < height ns x)%nat -> exists y, node_Next ns x i = Ok y.
Proof.
  unfold height, node_Next. destruct (ns !! x) as [nd|]; cbn; [|lia].
  intros Hi. destruct (lookup_lt_is_Some_2 _ _ Hi) as [y ->]. by exists y.
Qed.

Lemma SetNext_spec ns x i y :
  (i < height ns x)%nat ->
  exists ns', node_SetNext ns x i y = Ok ns' /\ same_shape ns ns' /\
    forall a k, node_Next ns' a k = if decide (a = x /\ k = i) then Ok y else node_Next ns a k.
Proof.
  unfold height, node_SetNext. destruct (ns !! x) as [nd|] eqn:Hx; cbn [from_option]; [|lia].
  intros Hi. rewrite (proj2 (Nat.ltb_lt _ _) Hi). eexists. split; [done|].
  pose proof (lookup_lt_Some _ _ _ Hx). split; [split; [apply length_insert|]|].
  - intros a. destruct (decide (a = x)) as [->|].
    + rewrite list_lookup_insert_eq, Hx by done. cbn. by rewrite length_insert.
    + by rewrite list_lookup_insert_ne.
  - intros a k. unfold node_Next. destruct (decide (a = x)) as [->|].
    + rewrite list_lookup_insert_eq, Hx by done. cbn. destruct (decide (k = i)) as [->|].
      * rewrite list_lookup_insert_eq by done. by rewrite decide_True.
      * rewrite list_lookup_insert_ne by done. rewrite decide_False by naive_solver. done.
    + rewrite list_lookup_insert_ne by done. rewrite decide_False by naive_solver. done.
Qed.

Lemma link_loop_spec n i x prev (p : nat -> nat) ns :
  (forall k, (i <= k < i + n)%nat -> prev !! k = Some (Some (p k)) /\ p k <> x /\
     (k < height ns (p k))%nat /\ (k < height ns x)%nat) ->
  exists ns', link_loop n i x prev ns = Ok ns' /\ same_shape ns ns' /\
    forall a k, node_Next ns' a k =
      if decide (i <= k < i + n)%nat then
        if decide (a = x) then node_Next ns (p k) k else if decide (a = p k) then Ok (Some x) else node_Next ns a k
      else node_Next ns a k.
Proof.
  revert i ns. induction n as [|n IH]; intros i ns H.
  - exists ns. split; [done|]. split; [by split|]. intros a k. by rewrite decide_False by lia.
  - destruct (H i) as (Hp & Hne & Hhp & Hhx); [lia|]. cbn [link_loop]. rewrite Hp. cbn.
    destruct (next_reaches ns (p i) i Hhp) as [nx Hnx]. rewrite Hnx. cbn.
    destruct (SetNext_spec ns x i nx Hhx) as (ns1 & -> & S1 & N1). cbn.
    destruct (SetNext_spec ns1 (p i) i (Some x)) as (ns2 & -> & S2 & N2); [by rewrite (same_shape_height _ _ _ S1)|]. cbn.
    pose proof (same_shape_trans _ _ _ S1 S2) as S12.
    destruct (IH (S i) ns2) as (ns' & -> & S3 & N3).
    { intros k Hk. rewrite !(same_shape_height _ _ _ S12). apply H. lia. }
    exists ns'. split; [done|]. split; [by eapply same_shape_trans|]. intros a k. rewrite N3, !N2, !N1.
    destruct (decide (k = i)) as [->|];
      repeat case_decide; destruct_and?; simplify_eq; try done; exfalso; tauto || lia.
Qed.

(** A node between the two parts of a chain. *)
Lemma chain_insert ns ns' i (A B : list nat) x p :
  chain ns i (A ++ B) -> NoDup (A ++ B) -> x ∉ A ++ B -> last A = Some p ->
  (forall a, node_Next ns' a i =
     if decide (a = x) then node_Next ns p i else if decide (a = p) then Ok (Some x) else node_Next ns a i) ->
  chain ns' i (A ++ x :: B).
Proof.
  intros C ND Hx Hp N j a Hj. rewrite N. rewrite last_lookup in Hp.
  pose proof (lookup_lt_Some _ _ _ Hp) as HA.
  assert (Hp' : (A ++ B) !! pred (length A) = Some p) by by apply lookup_app_l_Some.
  apply lookup_app_Some in Hj as [Hj|[Hle Hj]].
  - pose proof (lookup_lt_Some _ _ _ Hj). assert (Hj' : (A ++ B) !! j = Some a) by by apply lookup_app_l_Some.
    rewrite decide_False by (intros ->; apply Hx; by eapply list_elem_of_lookup_2).
    destruct (decide (a = p)) as [->|Hne].
    + assert (j = pred (length A)) as -> by by eapply NoDup_lookup.
      rewrite lookup_app_r by lia. by replace (S (pred (length A)) - length A)%nat with 0%nat by lia.
    + rewrite (C _ _ Hj'). assert (j <> pred (length A)) by naive_solver.
      by rewrite !lookup_app_l by lia.
  - destruct (j - length A)%nat as [|m] eqn:Em; cbn in Hj.
    + simplify_eq. rewrite decide_True by done. rewrite (C _ _ Hp'), !lookup_app_r by lia.
      replace (S j - length A)%nat with 1%nat by lia. by replace (S (pred (length A)) - length A)%nat with 0%nat by lia.
    + assert (Hj' : (A ++ B) !! (length A + m)%nat = Some a)
        by (rewrite lookup_app_r by lia; by replace (length A + m - length A)%nat with m by lia).
      rewrite decide_False by (intros ->; apply Hx; by eapply list_elem_of_lookup_2).
      rewrite decide_False by (intros ->; pose proof (NoDup_lookup _ _ _ _ ND Hp' Hj'); lia).
      rewrite (C _ _ Hj'), !lookup_app_r by lia.
      replace (S j - length A)%nat with (S (S m)) by lia. by replace (S (length A + m) - length A)%nat with (S m) by lia.
Qed.

Lemma random_height_loop_bounds fuel h seed :
  (1 <= h <= kMaxHeight)%nat -> (1 <= fst (random_height_loop fuel h seed) <= kMaxHeight)%nat.
Proof.
  revert h seed. induction fuel as [|fuel IH]; intros h seed H; cbn [random_height_loop]; [done|].
  destruct (Nat.ltb_spec h kMaxHeight); [|done]. cbv zeta. destruct (_ =? _); [|done]. apply IH. lia.
Qed.

Lemma RandomHeight_bounds seed : (1 <= fst (RandomHeight seed) <= kMaxHeight)%nat.
Proof. apply random_height_loop_bounds. unfold kMaxHeight. lia. Qed.

Lemma fill_head_lookup n a prev i :
  (a + n <= length prev)%nat ->
  fill_head a n prev !! i = if decide (a <= i < a + n)%nat then Some (Some head_) else prev !! i.
Proof.
  revert a prev. induction n as [|n IH]; intros a prev H; cbn [fill_head].
  - by rewrite decide_False by lia.
  - rewrite IH by (rewrite length_insert; lia).
    destruct (decide (i = a)) as [->|].
    + rewrite decide_False, decide_True by lia. apply list_lookup_insert_eq. lia.
    + rewrite list_lookup_insert_ne by done. repeat case_decide; done || lia.
Qed.

(** The keys [ks1] come before [key], the keys [ks2] do not. *)
Definition splits (key : K) (ks1 ks2 : list K) : Prop :=
  Forall (fun k => exists c, compare k key = Ok c /\ c < 0) ks1 /\
  Forall (fun k => exists c, compare k key = Ok c /\ 0 <= c) ks2.

Lemma repr_key sl l ks i a :
  repr sl l ks -> l !! i = Some a ->
  exists k nx, ks !! i = Some k /\ nodes sl !! a = Some (Node (Some k) nx) /\ (1 <= length nx <= max_height sl)%nat.
Proof. intros R Ha. destruct (Forall2_lookup_l _ _ _ _ _ (r_keys _ _ _ R) Ha) as (k & Hk & nx & ?). by exists k, nx. Qed.

Lemma after_nodes sl l ks key (b : bool) (Q : Z -> Prop) :
  Forall2 (fun a k => exists nx, nodes sl !! a = Some (Node (Some k) nx) /\ (1 <= length nx <= max_height sl)%nat) l ks ->
  (forall c, Q c -> (c <? 0) = b) ->
  Forall (fun k => exists c, compare k key = Ok c /\ Q c) ks ->
  Forall (fun a => KeyIsAfterNode (nodes sl) key (Some a) = Ok b) l.
Proof.
  intros R HQ. induction R as [|a k l ks (nx & Hn & _) _ IH]; intros F; [constructor|].
  inversion F as [|? ? (c & Hc & Hq) F']; subst. constructor; [|by apply IH].
  cbn. unfold node_key. rewrite Hn. cbn. rewrite Hc. cbn. by rewrite HQ.
Qed.

Lemma find_key sl l1 l2 ks1 ks2 key :
  repr sl (l1 ++ l2) (ks1 ++ ks2) -> length l1 = length ks1 -> splits key ks1 ks2 ->
  exists prev, stops (nodes sl) l1 (max_height sl - 1) no_prev prev /\
    search sl (KeyIsAfterNode (nodes sl) key) =
      Some (Ok (default head_ (last (head_ :: l1)), head l2, prev)).
Proof.
  intros R HL [S1 S2]. pose proof (r_keys _ _ _ R) as F.
  apply Forall2_app_inv in F as [F1 F2]; [|done].
  eapply search_stops; [done| | |done].
  - eapply after_nodes; [exact F1| |exact S1]. intros c Hc. by apply Z.ltb_lt.
  - eapply after_nodes; [exact F2| |exact S2]. intros c Hc. by apply Z.ltb_ge.
Qed.

Lemma repr_valid sl l ks a : repr sl l ks -> a ∈ head_ :: l -> (a < length (nodes sl))%nat.
Proof.
  intros R. rewrite elem_of_cons. intros [->|[i Hi]%list_elem_of_lookup].
  - destruct (r_head _ _ _ R) as (nx & Hh & _). by eapply lookup_lt_Some.
  - destruct (repr_key _ _ _ _ _ R Hi) as (k & nx & _ & Hn & _). by eapply lookup_lt_Some.
Qed.

Lemma repr_height sl l ks a : repr sl l ks -> a ∈ l -> (height (nodes sl) a <= max_height sl)%nat.
Proof.
  intros R [i Hi]%list_elem_of_lookup. destruct (repr_key _ _ _ _ _ R Hi) as (k & nx & _ & Hn & Hb).
  unfold height. rewrite Hn. cbn. lia.
Qed.

Lemma level_ext ns ns' i l : (forall a, a ∈ l -> height ns' a = height ns a) -> level ns' i l = level ns i l.
Proof.
  intros H. unfold level. induction l as [|a l IH]; [done|]. rewrite !filter_cons.
  rewrite H by set_solver. case_decide; [f_equal|]; apply IH; set_solver.
Qed.

Lemma level_none ns i l : (forall a, a ∈ l -> (height ns a <= i)%nat) -> level ns i l = [].
Proof.
  intros H. apply list_filter_none, Forall_forall. intros a Ha. specialize (H a Ha). lia.
Qed.

(** The nodes after which a new node of height [h] goes. *)
Lemma insert_prev sl l1 l2 ks h prev :
  repr sl (l1 ++ l2) ks -> (1 <= h <= kMaxHeight)%nat ->
  stops (nodes sl) l1 (max_height sl - 1) no_prev prev ->
  forall i, (i < h)%nat ->
    (if (max_height sl <? h)%nat then fill_head (max_height sl) (h - max_height sl) prev else prev) !! i =
      Some (last (head_ :: level (nodes sl) i l1)).
Proof.
  intros R Hh (S1 & S2 & _) i Hi. pose proof (r_max _ _ _ R).
  assert (Hlen : length prev = kMaxHeight) by (rewrite S1; apply length_replicate).
  destruct (Nat.ltb_spec (max_height sl) h) as [Hlt|Hge]; [|apply S2; lia].
  rewrite fill_head_lookup by lia. case_decide as Hc; [|apply S2; lia].
  rewrite level_none; [done|]. intros a Ha. pose proof (repr_height _ _ _ a R). set_solver by lia.
Qed.

(** ** Inserting a key *)
Section Inserting.
Context (sl : skiplist) (l1 l2 : list nat) (ks1 ks2 : list K) (key : K) (h : nat) (seed : Z) (prev : list (option nat)).
Hypothesis R : repr sl (l1 ++ l2) (ks1 ++ ks2).
Hypothesis HL : length l1 = length ks1.
Hypothesis Hh : (1 <= h <= kMaxHeight)%nat.

Let x := length (nodes sl).
Let ns0 := nodes sl ++ [Node (Some key) (replicate h None)].
Let mh := if (max_height sl <? h)%nat then h else max_height sl.

Lemma new_height : height ns0 x = h.
Proof. unfold height, ns0, x. rewrite list_lookup_middle by done. cbn. apply length_replicate. Qed.

Lemma old_node a : a ∈ head_ :: l1 ++ l2 -> ns0 !! a = nodes sl !! a /\ a <> x.
Proof.
  intros Ha. pose proof (repr_valid _ _ _ _ R Ha). unfold ns0, x. split; [by apply lookup_app_l|lia].
Qed.

Lemma old_height a : a ∈ head_ :: l1 ++ l2 -> height ns0 a = height (nodes sl) a.
Proof. intros Ha. unfold height. by destruct (old_node a Ha) as [-> _]. Qed.

Lemma last_level i : (i < h)%nat ->
  exists p, last (head_ :: level (nodes sl) i l1) = Some p /\ p ∈ head_ :: l1 /\ (i < height (nodes sl) p)%nat.
Proof.
  intros Hi. destruct (last (head_ :: level (nodes sl) i l1)) as [p|] eqn:E;
    [|by apply last_None in E]. exists p. split; [done|].
  apply last_Some_elem_of, elem_of_cons in E as [->|[? ?]%list_elem_of_filter]; [|set_solver].
  split; [set_solver|]. destruct (r_head _ _ _ R) as (nx & Hn & Hx). unfold height. rewrite Hn. cbn. lia.
Qed.

Lemma linked :
  stops (nodes sl) l1 (max_height sl - 1) no_prev prev ->
  exists ns', link_loop h 0 x (if (max_height sl <? h)%nat then fill_head (max_height sl) (h - max_height sl) prev else prev) ns0 = Ok ns' /\
    same_shape ns0 ns' /\
    forall a i, node_Next ns' a i =
      if decide (i < h)%nat then
        let p := default head_ (last (head_ :: level (nodes sl) i l1)) in
        if decide (a = x) then node_Next ns0 p i else if decide (a = p) then Ok (Some x) else node_Next ns0 a i
      else node_Next ns0 a i.
Proof.
  intros Hst. destruct (link_loop_spec h 0 x
    (if (max_height sl <? h)%nat then fill_head (max_height sl) (h - max_height sl) prev else prev)
    (fun i => default head_ (last (head_ :: level (nodes sl) i l1))) ns0) as (ns' & E & SS & N).
  - intros k Hk. rewrite (insert_prev _ _ _ _ _ _ R Hh Hst) by lia.
    destruct (last_level k) as (p & -> & Hp & Hph); [lia|]. cbn [from_option id]. split; [done|].
    assert (p ∈ head_ :: l1 ++ l2) as Hp' by set_solver.
    rewrite new_height, old_height by done. split; [by apply old_node|lia].
  - exists ns'. split; [done|]. split; [done|]. intros a i. rewrite N. cbv zeta.
    destruct (decide (i < h)%nat); [rewrite decide_True by lia|rewrite decide_False by lia]; done.
Qed.

Lemma insert_chain ns' i :
  same_shape ns0 ns' -> (i < kMaxHeight)%nat ->
  (forall a, node_Next ns' a i =
      if decide (i < h)%nat then
        let p := default head_ (last (head_ :: level (nodes sl) i l1)) in
        if decide (a = x) then node_Next ns0 p i else if decide (a = p) then Ok (Some x) else node_Next ns0 a i
      else node_Next ns0 a i) ->
  chain ns' i (head_ :: level ns' i (l1 ++ x :: l2)).
Proof.
  intros SS Hi N.
  assert (Hlv : forall l, l ⊆ l1 ++ l2 -> level ns' i l = level (nodes sl) i l).
  { intros l Hl. apply level_ext. intros a Ha. rewrite (same_shape_height _ _ _ SS). apply old_height. set_solver. }
  assert (C : chain ns0 i ((head_ :: level (nodes sl) i l1) ++ level (nodes sl) i l2)).
  { intros j a Ha. cbn [app]. rewrite <- level_app. rewrite <- (r_chain _ _ _ R i Hi j a) by (by rewrite level_app).
    unfold node_Next. destruct (old_node a) as [-> _]; [|done].
    apply list_elem_of_lookup_2 in Ha. set_solver. }
  rewrite level_app, Hlv by set_solver. unfold level at 2. rewrite filter_cons.
  rewrite (same_shape_height _ _ _ SS), new_height. fold (level ns' i l2). rewrite Hlv by set_solver.
  destruct (decide (i < h)%nat) as [Hlt|Hge].
  - destruct (last_level i Hlt) as (p & Hp & _). rewrite Hp in N. cbn in N.
    apply (chain_insert ns0 ns' i (head_ :: level (nodes sl) i l1) _ x p); [done| | |done|done].
    + cbn [app]. rewrite <- level_app. pose proof (r_nodup _ _ _ R) as ND. apply NoDup_cons in ND as [N1 N2].
      apply NoDup_cons. split; [set_solver|by apply NoDup_filter].
    + intros Hin. apply (old_node x); [|done]. set_solver.
  - intros j a Hj. rewrite N. by apply C.
Qed.

Lemma insert_repr ns' :
  same_shape ns0 ns' ->
  (forall a i, node_Next ns' a i =
      if decide (i < h)%nat then
        let p := default head_ (last (head_ :: level (nodes sl) i l1)) in
        if decide (a = x) then node_Next ns0 p i else if decide (a = p) then Ok (Some x) else node_Next ns0 a i
      else node_Next ns0 a i) ->
  repr (SkipList ns' mh seed) (l1 ++ x :: l2) (ks1 ++ key :: ks2).
Proof.
  intros SS N. pose proof (r_max _ _ _ R).
  assert (Hmh : (max_height sl <= mh /\ h <= mh <= kMaxHeight)%nat)
    by (unfold mh; destruct (Nat.ltb_spec (max_height sl) h); lia).
  assert (Hk : forall a k nx, ns0 !! a = Some (Node k nx) ->
    exists nx', ns' !! a = Some (Node k nx') /\ length nx' = length nx).
  { intros a k nx Ha. destruct SS as [_ SS]. specialize (SS a). rewrite Ha in SS. cbn in SS.
    apply fmap_Some in SS as ([k' nx'] & Hn & Heq). cbn in Heq. simplify_eq. by exists nx'. }
  assert (Ho : forall l ks, l ⊆ l1 ++ l2 ->
    Forall2 (fun a k => exists nx, nodes sl !! a = Some (Node (Some k) nx) /\ (1 <= length nx <= max_height sl)%nat) l ks ->
    Forall2 (fun a k => exists nx, ns' !! a = Some (Node (Some k) nx) /\ (1 <= length nx <= mh)%nat) l ks).
  { intros l ks Hl F. induction F as [|a k l ks (nx & Hn & Hb) _ IH]; constructor; [|apply IH; set_solver].
    destruct (Hk a (Some k) nx) as (nx' & Hn' & Hb'); [destruct (old_node a) as [-> _]; set_solver|].
    exists nx'. split; [done|lia]. }
  pose proof (r_keys _ _ _ R) as F. apply Forall2_app_inv in F as [F1 F2]; [|done].
  split; cbn [nodes max_height].
  - apply Forall2_app; [apply Ho; [set_solver|done]|]. constructor; [|apply Ho; [set_solver|done]].
    destruct (Hk x (Some key) (replicate h None)) as (nx' & Hn' & Hb'); [by apply list_lookup_middle|].
    exists nx'. rewrite length_replicate in Hb'. split; [done|lia].
  - destruct (r_head _ _ _ R) as (nx & Hn & Hx).
    destruct (Hk head_ None nx) as (nx' & Hn' & Hb'); [destruct (old_node head_) as [-> _]; set_solver|].
    exists nx'. split; [done|lia].
  - apply NoDup_cons. pose proof (r_nodup _ _ _ R) as [N1 N2]%NoDup_cons.
    destruct (old_node head_) as [_ Hx]; [set_solver|]. split; [set_solver|].
    rewrite <- Permutation_middle. apply NoDup_cons. split; [|done]. intros Hin. apply (old_node x); set_solver.
  - intros i Hi. apply insert_chain; auto.
  - lia.
  - destruct SS as [-> _]. unfold ns0. rewrite !length_app. pose proof (r_size _ _ _ R) as Hs. rewrite length_app in Hs.
    cbn. lia.
Qed.
End Inserting.

Lemma Insert_repr sl l1 l2 ks1 ks2 key :
  repr sl (l1 ++ l2) (ks1 ++ ks2) -> length l1 = length ks1 -> splits key ks1 ks2 ->
  match head ks2 with Some k => exists c, compare key k = Ok c /\ c <> 0 | None => True end ->
  exists sl', Insert sl key = Some (Ok sl') /\ repr sl' (l1 ++ length (nodes sl) :: l2) (ks1 ++ key :: ks2).
Proof.
  intros R HL HS Hne. destruct (find_key _ _ _ _ _ _ R HL HS) as (prev & Hst & E).
  unfold Insert, FindGreaterOrEqual. rewrite E.
  assert (found_equal (nodes sl) key (head l2) = Ok false) as ->.
  { pose proof (r_keys _ _ _ R) as F. apply Forall2_app_inv in F as [_ F2]; [|done].
    destruct F2 as [|a k l2 ks2 (nx & Hn & _) _]; [done|]. cbn in Hne |- *. destruct Hne as (c & Hc & Hz).
    unfold node_key. rewrite Hn. cbn. rewrite Hc. cbn. by rewrite (proj2 (Z.eqb_neq _ _)). }
  pose proof (RandomHeight_bounds (rnd sl)) as Hh. destruct (RandomHeight (rnd sl)) as [h seed]. cbn [fst] in Hh.
  destruct (linked sl l1 l2 ks1 ks2 key h prev R HL Hh Hst) as (ns' & -> & SS & N).
  eexists. split; [done|]. by apply insert_repr.
Qed.

Lemma new_repr : repr skiplist_new [] [].
Proof.
  split; cbn [nodes max_height skiplist_new].
  - constructor.
  - eexists. split; [done|]. apply length_replicate.
  - apply NoDup_singleton.
  - intros i Hi [|j] a Ha; cbn in Ha; [|done]. simplify_eq. unfold node_Next. cbn [lookup list_lookup head_ n_next].
    rewrite lookup_replicate_2 by done. done.
  - unfold kMaxHeight. lia.
  - cbn. lia.
Qed.
End SkipList.
