(* ===== verification/LvlSkipSpec.v ===== *)
(** * What LevelDB's skip list promises

    The skip list of [LvlSkipList] against the sorted list of its keys:
    insertions, lookups and iterators in every order of calls, and the random
    numbers that choose the heights. *)
From Stdlib Require Import Sorting.Sorted.
From stdpp Require Import sorting.
From S2P Require Import Prelude.
From S2P Require Import Store.
From S2P Require Import LvlSkipList.

(** The comparator of a skip list compares what its entries are found by. *)
Class KeyOrder {K : Type} (compare : K -> K -> res Z) (ik : K -> bytes) (good : K -> bool) (c : comparator) : Prop := {
  order_cmp a b : good a = true -> good b = true -> compare a b = Ok (cmp c (ik a) (ik b));
  order_dom a : good a = true -> dom c (ik a) = true;
  order_laws : CmpLaws c
}.

Section Spec.
Context {K : Type} (compare : K -> K -> res Z) (ik : K -> bytes) (good : K -> bool) (c : comparator).
Context {KO : KeyOrder compare ik good c}.

(** ** The specification: a sorted list *)
Fixpoint sorted_insert (key : K) (ks : list K) : list K :=
  match ks with
  | [] => [key]
  | k :: r => if cmp c (ik k) (ik key) <? 0 then k :: sorted_insert key r else key :: k :: r
  end.

Definition first_ge (key : K) (ks : list K) : option K :=
  head (filter (fun k => 0 <= cmp c (ik k) (ik key)) ks).

(** ** Runs of the code *)
Fixpoint insert_all (sl : skiplist) (keys : list K) : option (res skiplist) :=
  match keys with
  | [] => Some (Ok sl)
  | k :: r => match Insert compare sl k with Some (Ok sl') => insert_all sl' r | e => e end
  end.

(** The keys an iterator visits from where it is to the end. *)
Fixpoint iter_run (fuel : nat) (sl : skiplist) (it : option nat) : option (res (list K)) :=
  match fuel with
  | O => None
  | S f =>
      if iter_Valid it then
        match iter_key sl it, iter_Next sl it with
        | Ok k, Ok it' =>
            match iter_run f sl it' with
            | Some (Ok ks) => Some (Ok (k :: ks))
            | e => e
            end
        | Ub u, _ | _, Ub u => Some (Ub u)
        end
      else Some (Ok [])
  end.

(** ** Sorted lists *)
Definition key_le (a b : K) : Prop := cmp c (ik a) (ik b) <= 0.

Definition sorted_keys (ks : list K) : Prop := Forall (fun k => good k = true) ks /\ StronglySorted key_le ks.

Lemma key_opp a b : good a = true -> good b = true ->
  (0 < cmp c (ik b) (ik a) <-> cmp c (ik a) (ik b) < 0) /\ (cmp c (ik a) (ik b) = 0 <-> ik a = ik b).
Proof.
  intros Ha Hb. pose proof order_laws. apply order_dom in Ha, Hb. split; [by apply cmp_opp|by apply cmp_eq].
Qed.

Lemma key_le_trans a b d : good a = true -> good b = true -> good d = true ->
  key_le a b -> key_le b d -> key_le a d.
Proof.
  unfold key_le. intros Ha Hb Hd H1 H2. destruct (key_opp a b Ha Hb) as [_ E1], (key_opp b d Hb Hd) as [_ E2].
  pose proof order_laws. apply order_dom in Ha, Hb, Hd.
  destruct (Z.eq_dec (cmp c (ik a) (ik b)) 0) as [E|]; [apply E1 in E as ->; done|].
  destruct (Z.eq_dec (cmp c (ik b) (ik d)) 0) as [E|]; [apply E2 in E as <-; done|].
  pose proof (cmp_trans (ik a) (ik b) (ik d) Ha Hb Hd). lia.
Qed.

Lemma sorted_splits key ks :
  good key = true -> sorted_keys ks ->
  exists ks1 ks2, ks = ks1 ++ ks2 /\ splits compare key ks1 ks2 /\
    sorted_insert key ks = ks1 ++ key :: ks2 /\ first_ge key ks = head ks2.
Proof.
  intros Hg [G S]. induction S as [|k ks S IH H]; [by exists [], []|].
  apply Forall_cons in G as [Gk G]. cbn [sorted_insert]. unfold first_ge. rewrite filter_cons.
  destruct (Z.ltb_spec (cmp c (ik k) (ik key)) 0) as [Hlt|Hge].
  - destruct (IH G) as (ks1 & ks2 & -> & [S1 S2] & -> & E). exists (k :: ks1), ks2.
    split_and!; [done| |done|by rewrite decide_False by lia].
    split; [|done]. constructor; [|done]. eexists. by rewrite order_cmp.
  - exists [], (k :: ks). split_and!; [done| |done|by rewrite decide_True by lia].
    split; [done|]. constructor; [eexists; by rewrite order_cmp|].
    apply Forall_forall. intros k' Hk'. rewrite Forall_forall in H, G.
    assert (good k' = true) as Gk' by by apply G. specialize (H k' Hk').
    eexists. split; [by apply order_cmp|].
    destruct (key_opp key k Hg Gk) as [O1 E1], (key_opp key k' Hg Gk') as [O2 E2], (key_opp k' key Gk' Hg) as [O3 E3],
      (key_opp k key Gk Hg) as [O4 E4].
    assert (key_le key k) as L1 by (unfold key_le; lia).
    pose proof (key_le_trans _ _ _ Hg Gk Gk' L1 H) as L2. unfold key_le in L2. lia.
Qed.

Lemma insert_sorted key ks : good key = true -> sorted_keys ks -> sorted_keys (sorted_insert key ks).
Proof.
  intros Hg HS. destruct (sorted_splits key ks Hg HS) as (ks1 & ks2 & -> & [S1 S2] & -> & _). destruct HS as [G S].
  split; [apply Forall_app in G as [? ?]; apply Forall_app; split; [done|by constructor]|].
  apply Forall_app in G as [G1 G2]. rewrite Forall_forall in S1, S2, G1, G2.
  apply StronglySorted_app in S as (Sa & Sx & Sb). apply StronglySorted_app. split_and!; [|done|].
  - intros a b Ha [->|Hb]%elem_of_cons; [|by apply Sa].
    destruct (S1 a Ha) as (z & E & Hz). rewrite order_cmp in E by auto. simplify_eq. unfold key_le. lia.
  - constructor; [done|]. apply Forall_forall. intros b Hb. destruct (S2 b Hb) as (z & E & Hz).
    rewrite order_cmp in E by auto. simplify_eq. unfold key_le.
    destruct (key_opp key b Hg (G2 b Hb)), (key_opp b key (G2 b Hb) Hg). lia.
Qed.

Lemma sorted_insert_perm key ks : sorted_insert key ks ≡ₚ key :: ks.
Proof.
  induction ks as [|k ks IH]; [done|]. cbn. destruct (_ <? 0); [|done]. rewrite IH. constructor.
Qed.

Lemma insert_all_perm ks keys : foldl (flip sorted_insert) ks keys ≡ₚ ks ++ keys.
Proof.
  revert ks. induction keys as [|k keys IH]; intros ks; cbn [foldl]; [by rewrite app_nil_r|].
  rewrite IH. unfold flip. by rewrite sorted_insert_perm, <- Permutation_middle.
Qed.

Lemma first_ge_least key ks :
  sorted_keys ks ->
  match first_ge key ks with
  | Some f => f ∈ ks /\ 0 <= cmp c (ik f) (ik key) /\ forall k, k ∈ ks -> 0 <= cmp c (ik k) (ik key) -> key_le f k
  | None => forall k, k ∈ ks -> cmp c (ik k) (ik key) < 0
  end.
Proof.
  intros [G S]. unfold first_ge. induction S as [|k ks S IH H]; [by intros k ?%elem_of_nil|].
  apply Forall_cons in G as [Gk G]. specialize (IH G). rewrite filter_cons. case_decide as Hd; cbn.
  - split; [set_solver|]. split; [done|]. rewrite Forall_forall in H. intros k' [->|Hk']%elem_of_cons _; [|by apply H].
    unfold key_le. destruct (key_opp k k Gk Gk) as [_ E]. by rewrite (proj2 E).
  - destruct (head _) as [f|].
    + destruct IH as (? & ? & Hl). split; [set_solver|]. split; [done|].
      intros k' [->|Hk']%elem_of_cons Hge; [lia|by apply Hl].
    + intros k' [->|Hk']%elem_of_cons; [lia|by apply IH].
Qed.

(** ** Skip lists with their keys in order *)
Definition skip_of (sl : skiplist) (ks : list K) : Prop := sorted_keys ks /\ exists l, repr sl l ks.

Lemma skip_of_splits sl ks key :
  good key = true -> skip_of sl ks ->
  exists l1 l2 ks1 ks2, ks = ks1 ++ ks2 /\ length l1 = length ks1 /\ repr sl (l1 ++ l2) (ks1 ++ ks2) /\
    splits compare key ks1 ks2 /\ sorted_insert key ks = ks1 ++ key :: ks2 /\ first_ge key ks = head ks2.
Proof.
  intros Hg [HS [l R]]. destruct (sorted_splits key ks Hg HS) as (ks1 & ks2 & -> & Hsp & Hi & Hf).
  pose proof (Forall2_length _ _ _ (r_keys _ _ _ R)) as HL. rewrite length_app in HL.
  exists (take (length ks1) l), (drop (length ks1) l), ks1, ks2. rewrite take_drop.
  split_and!; try done. rewrite length_take. lia.
Qed.

Lemma new_skip : skip_of skiplist_new [].
Proof. split; [repeat constructor|]. exists []. apply new_repr. Qed.

Lemma insert_skip sl ks key :
  good key = true -> skip_of sl ks -> ik key ∉ ik <$> ks ->
  exists sl', Insert compare sl key = Some (Ok sl') /\ skip_of sl' (sorted_insert key ks).
Proof.
  intros Hg Hsk Hnew. destruct (skip_of_splits sl ks key Hg Hsk) as (l1 & l2 & ks1 & ks2 & E & HL & R & Hsp & Hi & _).
  destruct (Insert_repr compare sl l1 l2 ks1 ks2 key R HL Hsp) as (sl' & HI & R').
  { destruct ks2 as [|k ks2]; [done|]. cbn. destruct Hsk as [[G _] _]. rewrite E in G, Hnew.
    apply Forall_app in G as [_ [Gk _]%Forall_cons]. eexists. split; [by apply order_cmp|].
    intros Hz%(key_opp key k Hg Gk). apply Hnew. rewrite Hz, fmap_app. apply elem_of_app. right. by left. }
  exists sl'. split; [done|]. split; [apply insert_sorted; [done|by destruct Hsk]|]. rewrite Hi. eauto.
Qed.

Lemma insert_all_skip sl ks keys :
  Forall (fun k => good k = true) keys -> skip_of sl ks -> NoDup (ik <$> ks ++ keys) ->
  exists sl', insert_all sl keys = Some (Ok sl') /\ skip_of sl' (foldl (flip sorted_insert) ks keys).
Proof.
  intros G. revert sl ks. induction G as [|k keys Gk _ IH]; intros sl ks Hsk HN; [by exists sl|].
  destruct (insert_skip sl ks k Gk Hsk) as (sl1 & HI & Hsk1).
  { rewrite fmap_app in HN. apply NoDup_app in HN as (_ & HN & _). intros Hin. apply (HN _ Hin). by left. }
  cbn [insert_all foldl]. rewrite HI. apply IH; [done|].
  assert (ik <$> sorted_insert k ks ++ keys ≡ₚ ik <$> ks ++ k :: keys) as -> by (by rewrite sorted_insert_perm, <- Permutation_middle). done.
Qed.

Lemma seek_skip sl ks key :
  good key = true -> skip_of sl ks ->
  exists it prev, FindGreaterOrEqual compare sl key = Some (Ok (it, prev)) /\
    node_key (nodes sl) <$> it = Ok <$> first_ge key ks.
Proof.
  intros Hg Hsk. destruct (skip_of_splits sl ks key Hg Hsk) as (l1 & l2 & ks1 & ks2 & E & HL & R & Hsp & _ & Hf).
  destruct (find_key compare sl l1 l2 ks1 ks2 key R HL Hsp) as (prev & _ & Es).
  exists (head l2), prev. unfold FindGreaterOrEqual. rewrite Es, Hf. split; [done|].
  pose proof (r_keys _ _ _ R) as F. apply Forall2_app_inv in F as [_ F2]; [|done].
  destruct F2 as [|a k l2 ks2 (nx & Hn & _) _]; [done|]. cbn. unfold node_key. by rewrite Hn.
Qed.

Lemma contains_skip sl ks key :
  good key = true -> skip_of sl ks ->
  Contains compare sl key = Some (Ok (bool_decide (ik key ∈ ik <$> ks))).
Proof.
  intros Hg Hsk. destruct (seek_skip sl ks key Hg Hsk) as (it & prev & E & Hk). unfold Contains, found_equal. rewrite E.
  destruct (skip_of_splits sl ks key Hg Hsk) as (_ & _ & ks1 & ks2 & -> & _ & _ & [S1 S2] & _ & Hf).
  rewrite Hf in Hk. destruct Hsk as [[G SS] _]. apply Forall_app in G as [G1 G2].
  assert (H1 : ik key ∉ ik <$> ks1).
  { intros (k & Hik & Hin)%list_elem_of_fmap. rewrite Forall_forall in S1, G1. destruct (S1 k Hin) as (z & Ez & Hz).
    rewrite order_cmp in Ez by auto. simplify_eq. rewrite <- Hik in Hz.
    destruct (key_opp key key Hg Hg) as [_ Hr]. rewrite (proj2 Hr) in Hz by done. lia. }
  rewrite fmap_app. destruct ks2 as [|k ks2], it as [x|]; try done.
  - rewrite app_nil_r. by rewrite bool_decide_eq_false_2.
  - cbn in Hk. injection Hk as Hk. rewrite Hk. cbn. apply Forall_cons in G2 as [Gk G2].
    rewrite order_cmp by done. cbn. do 2 f_equal. destruct (key_opp key k Hg Gk) as [Ho He].
    apply eq_true_iff_eq. rewrite Z.eqb_eq, bool_decide_eq_true, He. split; [set_solver|].
    intros [?|[->|(k' & Hik & Hin)%list_elem_of_fmap]%elem_of_cons]%elem_of_app; [done|done|].
    apply StronglySorted_app in SS as (_ & _ & SS). apply StronglySorted_cons in SS as [SS _].
    rewrite Forall_forall in SS. specialize (SS k' Hin). unfold key_le in SS. rewrite <- Hik in SS.
    apply Forall_cons in S2 as [(z & Ez & Hz) _]. rewrite order_cmp in Ez by done. simplify_eq.
    symmetry. apply (key_opp k key Gk Hg). lia.
Qed.

(** Inserting a key that is there fails the assertion. *)
Lemma insert_twice sl ks key : good key = true -> skip_of sl ks -> ik key ∈ ik <$> ks -> Insert compare sl key = Some (Ub AssertFail).
Proof.
  intros Hg Hsk Hin. pose proof (contains_skip sl ks key Hg Hsk) as HC. unfold Contains in HC. unfold Insert.
  destruct (FindGreaterOrEqual compare sl key) as [[[x prev]|]|]; [|done..]. injection HC as ->. by rewrite bool_decide_eq_true_2.
Qed.

(** C35. After insertions of distinct keys, in any order, LevelDB's skip list
    holds its keys sorted: the insertions end, [Contains] is membership, and
    [Seek] finds the first key that is not before its target.  A key that is
    there can not be inserted again: the assertion of [Insert] fails. *)
Theorem skiplist_refines keys :
  Forall (fun k => good k = true) keys -> NoDup (ik <$> keys) ->
  exists sl, insert_all skiplist_new keys = Some (Ok sl) /\
    let ks := foldl (flip sorted_insert) [] keys in
    StronglySorted key_le ks /\ ks ≡ₚ keys /\
    forall key, good key = true ->
      Contains compare sl key = Some (Ok (bool_decide (ik key ∈ ik <$> keys))) /\
      (ik key ∈ ik <$> keys -> Insert compare sl key = Some (Ub AssertFail)) /\
      exists it, iter_Seek compare sl key = Some (Ok it) /\ node_key (nodes sl) <$> it = Ok <$> first_ge key ks.
Proof.
  intros G HN. destruct (insert_all_skip _ _ keys G new_skip HN) as (sl & E & Hsk). exists sl. split; [done|]. cbv zeta.
  pose proof (insert_all_perm [] keys) as P. cbn in P.
  split; [by destruct Hsk as [[_ ?] _]|]. split; [done|]. intros key Hg. split.
  - rewrite (contains_skip sl _ key Hg Hsk). do 2 f_equal. apply bool_decide_ext. by rewrite P.
  - split; [intros Hin; apply (insert_twice sl _ key Hg Hsk); by rewrite P|]. destruct (seek_skip sl _ key Hg Hsk) as (it & prev & Es & Hk). exists it. unfold iter_Seek. by rewrite Es.
Qed.

(** ** Iterators *)

Lemma keys_above key ks : good key = true -> sorted_keys ks ->
  forall ks1 ks2, ks = ks1 ++ ks2 -> splits compare key ks1 ks2 ->
  filter (fun k => cmp c (ik k) (ik key) < 0) ks = ks1 /\ filter (fun k => 0 <= cmp c (ik k) (ik key)) ks = ks2.
Proof.
  intros Hg [G _] ks1 ks2 -> [S1 S2]. apply Forall_app in G as [G1 G2]. rewrite !filter_app.
  assert (A1 : Forall (fun k => cmp c (ik k) (ik key) < 0) ks1).
  { apply Forall_forall. intros k Hk. rewrite Forall_forall in S1, G1. destruct (S1 k Hk) as (z & E & ?).
    rewrite order_cmp in E by auto. by simplify_eq. }
  assert (A2 : Forall (fun k => 0 <= cmp c (ik k) (ik key)) ks2).
  { apply Forall_forall. intros k Hk. rewrite Forall_forall in S2, G2. destruct (S2 k Hk) as (z & E & ?).
    rewrite order_cmp in E by auto. by simplify_eq. }
  rewrite (list_filter_all _ ks1 A1), (list_filter_all _ ks2 A2).
  rewrite (list_filter_none (fun k => cmp c (ik k) (ik key) < 0) ks2), (list_filter_none (fun k => 0 <= cmp c (ik k) (ik key)) ks1).
  - by rewrite app_nil_r.
  - eapply Forall_impl; [exact A1|]. cbn. intros. lia.
  - eapply Forall_impl; [exact A2|]. cbn. intros. lia.
Qed.

Lemma iter_run_step f sl a k it' ks :
  iter_key sl (Some a) = Ok k -> iter_Next sl (Some a) = Ok it' ->
  iter_run f sl it' = Some (Ok ks) -> iter_run (S f) sl (Some a) = Some (Ok (k :: ks)).
Proof. intros H1 H2 H3. cbn [iter_run iter_Valid]. by rewrite H1, H2, H3. Qed.

Lemma iter_run_more f f' sl it ks : iter_run f sl it = Some (Ok ks) -> (f <= f')%nat -> iter_run f' sl it = Some (Ok ks).
Proof.
  revert f' it ks. induction f as [|f IH]; intros f' it ks H Hf; [done|]. destruct f' as [|f']; [lia|].
  cbn [iter_run] in *. destruct (iter_Valid it); [|done].
  destruct (iter_key sl it) as [k|]; [|done]. destruct (iter_Next sl it) as [it'|]; [|done].
  destruct (iter_run f sl it') as [[ks'|]|] eqn:E; [|done|done]. by rewrite (IH f' it' ks' E) by lia.
Qed.

Lemma run_from sl l1 l2 ks1 ks2 :
  repr sl (l1 ++ l2) (ks1 ++ ks2) -> length l1 = length ks1 ->
  iter_run (S (length ks2)) sl (head l2) = Some (Ok ks2).
Proof.
  revert l1 ks1 l2. induction ks2 as [|k ks2 IH]; intros l1 ks1 l2 R HL;
    pose proof (r_keys _ _ _ R) as F; apply Forall2_app_inv in F as [_ F2]; try done;
    inversion F2 as [|a ? l2' ? (nx & Hn & Hb) F2']; subst; [done|].
  apply (iter_run_step _ _ _ _ (head l2')).
  - cbn. unfold node_key. by rewrite Hn.
  - unfold iter_Next. cbn [of_option mbind res_bind].
    pose proof (r_chain _ _ _ R 0 ltac:(unfold kMaxHeight; lia)) as C. rewrite level_0 in C by by eapply repr_levels.
    rewrite (C (S (length l1)) a (list_lookup_middle l1 l2' a (length l1) eq_refl)).
    change ((head_ :: l1 ++ a :: l2') !! S (S (length l1))) with ((l1 ++ a :: l2') !! S (length l1)).
    rewrite lookup_app_r by lia. replace (S (length l1) - length l1)%nat with 1%nat by lia. by destruct l2'.
  - apply (IH (l1 ++ [a]) (ks1 ++ [k])); [by rewrite <- !app_assoc|]. rewrite !length_app. cbn. lia.
Qed.

Lemma key_of_last sl l ks (R : repr sl l ks) (l1 : list nat) (ks1 : list K) l2 ks2 :
  l = l1 ++ l2 -> ks = ks1 ++ ks2 -> length l1 = length ks1 ->
  let x := default head_ (last (head_ :: l1)) in
  node_key (nodes sl) <$> (if decide (x = head_) then None else Some x) = Ok <$> last ks1.
Proof.
  intros -> -> HL. pose proof (r_keys _ _ _ R) as F. apply Forall2_app_inv in F as [F1 _]; [|done].
  destruct l1 as [|a l1 _] using rev_ind; [by destruct ks1|]. destruct ks1 as [|k ks1 _] using rev_ind.
  { rewrite length_app in HL. cbn in HL. lia. }
  rewrite app_comm_cons, !last_snoc. cbn. apply Forall2_app_inv in F1 as [_ F]; [|rewrite !length_app in HL; cbn in HL; lia].
  inversion F as [|? ? ? ? (nx & Hn & _)]; subst. rewrite decide_False.
  - cbn. unfold node_key. by rewrite Hn.
  - intros ->. pose proof (r_nodup _ _ _ R) as [ND _]%NoDup_cons. set_solver.
Qed.

Lemma prev_skip sl ks key k it :
  good key = true -> skip_of sl ks -> iter_Seek compare sl key = Some (Ok it) -> first_ge key ks = Some k ->
  exists it', iter_Prev compare sl it = Some (Ok it') /\
    node_key (nodes sl) <$> it' = Ok <$> last (filter (fun k' => cmp c (ik k') (ik k) < 0) ks).
Proof.
  intros Hg Hsk Es Hf. destruct (seek_skip sl ks key Hg Hsk) as (it0 & prev & E & Hk).
  unfold iter_Seek in Es. rewrite E in Es. simplify_eq. rewrite Hf in Hk.
  destruct it as [x|]; [|done]. cbn in Hk. injection Hk as Hk. unfold iter_Prev. cbn [iter_key of_option mbind res_bind].
  unfold iter_key. cbn [of_option mbind res_bind]. rewrite Hk.
  assert (Gk : good k = true).
  { destruct Hsk as [[G _] _]. rewrite Forall_forall in G. apply G. unfold first_ge in Hf.
    apply head_Some_elem_of, list_elem_of_filter in Hf. by destruct Hf. }
  destruct (skip_of_splits sl ks k Gk Hsk) as (l1 & l2 & ks1 & ks2 & Eks & HL & R & Hsp & _ & _).
  destruct (find_key compare sl l1 l2 ks1 ks2 k R HL Hsp) as (prev' & _ & Es').
  unfold FindLessThan. rewrite Es'. eexists. split; [done|].
  destruct Hsk as [HS _]. destruct (keys_above k ks Gk HS ks1 ks2 Eks Hsp) as [-> _].
  by apply (key_of_last _ _ _ R _ _ l2 ks2).
Qed.

Lemma last_skip sl ks :
  skip_of sl ks -> exists it, iter_SeekToLast sl = Some (Ok it) /\ node_key (nodes sl) <$> it = Ok <$> last ks.
Proof.
  intros [_ [l R]].
  destruct (search_stops sl l [] ks (fun next => Ok (bool_decide (is_Some next)))) as (prev & _ & E); [by rewrite app_nil_r|..].
  - apply Forall_forall. intros a _. by rewrite bool_decide_eq_true_2 by eauto.
  - constructor.
  - done.
  - unfold iter_SeekToLast, FindLast. rewrite E. eexists. split; [done|].
    eapply (key_of_last sl l ks R l ks [] []); rewrite ?app_nil_r; [done|done|].
    by apply (Forall2_length _ _ _ (r_keys _ _ _ R)).
Qed.

Lemma first_skip sl ks :
  skip_of sl ks -> exists it, iter_SeekToFirst sl = Ok it /\ iter_run (S (length ks)) sl it = Some (Ok ks).
Proof.
  intros [_ [l R]]. exists (head l). split.
  - unfold iter_SeekToFirst. pose proof (r_chain _ _ _ R 0 ltac:(unfold kMaxHeight; lia)) as C.
    rewrite level_0 in C by by eapply repr_levels. rewrite (C 0%nat head_ eq_refl). by destruct l.
  - by apply (run_from sl [] l [] ks).
Qed.

(** Iterators of the skip list visit its keys in order: from the first one
    all of them, from [Seek] those not before the target, [Prev] goes to the
    last key before, and [SeekToLast] to the last one; every call ends. *)
Theorem skiplist_iterates sl ks :
  skip_of sl ks ->
  (exists it, iter_SeekToFirst sl = Ok it /\ iter_run (S (length ks)) sl it = Some (Ok ks)) /\
  (exists it, iter_SeekToLast sl = Some (Ok it) /\ node_key (nodes sl) <$> it = Ok <$> last ks) /\
  forall key, good key = true ->
    exists it, iter_Seek compare sl key = Some (Ok it) /\
      iter_run (S (length ks)) sl it = Some (Ok (filter (fun k => 0 <= cmp c (ik k) (ik key)) ks)) /\
      forall k, first_ge key ks = Some k ->
        exists it', iter_Prev compare sl it = Some (Ok it') /\
          node_key (nodes sl) <$> it' = Ok <$> last (filter (fun k' => cmp c (ik k') (ik k) < 0) ks).
Proof.
  intros Hsk. split; [by apply first_skip|]. split; [by apply last_skip|]. intros key Hg.
  destruct (skip_of_splits sl ks key Hg Hsk) as (l1 & l2 & ks1 & ks2 & E & HL & R & Hsp & _ & Hf).
  destruct (find_key compare sl l1 l2 ks1 ks2 key R HL Hsp) as (prev & _ & Es).
  assert (Ei : iter_Seek compare sl key = Some (Ok (head l2))).
  { unfold iter_Seek, FindGreaterOrEqual. by rewrite Es. }
  exists (head l2). split; [done|]. split.
  - destruct Hsk as [HS _]. destruct (keys_above key ks Hg HS ks1 ks2 E Hsp) as [_ ->].
    eapply iter_run_more; [by eapply run_from|]. rewrite E, length_app. lia.
  - intros k Hk. by eapply prev_skip.
Qed.
End Spec.

(** The heights come from Lehmer's generator: [Random::Next] reduces without
    dividing, and its result is [seed * 16807 mod (2^31 - 1)], never 0 again. *)
Theorem random_next_lehmer seed :
  1 <= seed < 2147483647 ->
  random_Next seed = (seed * 16807) mod 2147483647 /\ 1 <= random_Next seed < 2147483647.
Proof.
  intros Hs. unfold random_Next. cbv zeta. rewrite (wrap_u_small 64) by lia.
  rewrite Z.shiftr_div_pow2 by lia.
  assert (Hland : Z.land (seed * 16807) 2147483647 = (seed * 16807) mod 2 ^ 31) by (apply (Z.land_ones _ 31); lia).
  rewrite Hland.
  remember (seed * 16807) as p eqn:Hp. pose proof (Z.div_mod p (2 ^ 31) ltac:(lia)) as Hd.
  pose proof (Z.mod_pos_bound p (2 ^ 31) ltac:(lia)) as Hr.
  assert (0 <= p / 2 ^ 31 < 16807) by (split; [apply Z.div_pos|apply Z.div_lt_upper_bound]; lia).
  remember (p / 2 ^ 31) as q eqn:Hq. remember (p mod 2 ^ 31) as r. clear Hq.
  assert (Hnd : forall z, p <> 2147483647 * z).
  { intros z Hz. assert (D : (2147483647 | 16807 * seed)) by (exists z; lia).
    apply Z.gauss in D as [y Hy]; [nia|done]. }
  rewrite wrap_u_small by lia. pose proof (Hnd (q + 1)).
  destruct (Z.ltb_spec 2147483647 (q + r)).
  - split; [|lia]. apply (Z.mod_unique_pos _ _ (q + 1)); lia.
  - split; [|lia]. apply (Z.mod_unique_pos _ _ q); lia.
Qed.

Lemma random_next_lehmer_witness : 1 <= 1 < 2147483647 /\ random_Next 1 = 16807.
Proof. split; [lia|]. apply (random_next_lehmer 1). lia. Defined.

(** Strings in the order of [memcmp], as they are. *)
#[export] Instance lexical_order : KeyOrder (fun a b => Ok (lex_cmp a b)) id (fun _ => true) lexical.
Proof. split; [done|done|]. apply lexical_laws. Qed.

Definition demo_skip_keys : list bytes := [[Byte.x62]; [Byte.x61; Byte.x61]; []; [Byte.x63]; [Byte.x61]].

Lemma skiplist_refines_witness :
  exists sl, insert_all (fun a b => Ok (lex_cmp a b)) skiplist_new demo_skip_keys = Some (Ok sl) /\
    Contains (fun a b => Ok (lex_cmp a b)) sl [Byte.x61] = Some (Ok true) /\
    Contains (fun a b => Ok (lex_cmp a b)) sl [Byte.x64] = Some (Ok false).
Proof.
  destruct (skiplist_refines (fun a b => Ok (lex_cmp a b)) id (fun _ => true) lexical demo_skip_keys) as (sl & E & _ & _ & H);
    [repeat constructor|apply (bool_decide_unpack _); vm_compute; reflexivity|]. exists sl. split; [done|].
  split; [by destruct (H [Byte.x61]) as [-> _]|by destruct (H [Byte.x64]) as [-> _]].
Defined.

Lemma skiplist_iterates_witness :
  exists sl it, insert_all (fun a b => Ok (lex_cmp a b)) skiplist_new demo_skip_keys = Some (Ok sl) /\
    iter_SeekToFirst sl = Ok it /\ iter_run 6 sl it = Some (Ok [[]; [Byte.x61]; [Byte.x61; Byte.x61]; [Byte.x62]; [Byte.x63]]).
Proof.
  destruct (insert_all_skip (fun a b => Ok (lex_cmp a b)) id (fun _ => true) lexical skiplist_new [] demo_skip_keys)
    as (sl & E & Hsk); [repeat constructor|by apply new_skip|apply (bool_decide_unpack _); vm_compute; reflexivity|].
  assert (Hks : foldl (flip (sorted_insert id lexical)) [] demo_skip_keys =
    [[]; [Byte.x61]; [Byte.x61; Byte.x61]; [Byte.x62]; [Byte.x63]]) by (vm_compute; reflexivity).
  rewrite Hks in Hsk.
  destruct (skiplist_iterates (fun a b => Ok (lex_cmp a b)) id (fun _ => true) lexical sl _ Hsk) as [(it & H1 & H2) _].
  exists sl, it. split; [exact E|]. split; [exact H1|exact H2].
Defined.
