(* ===== verification/LvlMemtable.v ===== *)
(** * LevelDB's memtable

    db/memtable.cc, db/memtable.h and the inserter of db/write_batch.cc of
    src/3rd-party/leveldb/leveldb-1.18: entries of an internal key and a value,
    each behind its length, kept in a skip list; lookups at a snapshot; write
    batches replayed into a memtable. *)
From Stdlib Require Import Sorting.Sorted.
From stdpp Require Import sorting.
From S2P Require Import Prelude.
From S2P Require Import Store LvlCoding LvlBase LvlFormat LvlBatch.
From S2P Require Import LvlSkipList LvlSkipSpec.

(** [GetLengthPrefixedSlice] of memtable.cc: the string and what lies behind
    it.  It looks at five bytes for the length, and trusts what it reads. *)
Definition entry_slice (data : bytes) : res (bytes * bytes) :=
  match GetVarint32Ptr (take 5 data) with
  | None => Ub NullDeref
  | Some (len, q) =>
      let p := drop (length (take 5 data) - length q) data in
      if (Z.to_nat len <=? length p)%nat then Ok (take (Z.to_nat len) p, drop (Z.to_nat len) p) else Ub OobRead
  end.

Record memtable := Mem { mt_refs : Z; mt_table : skiplist (K := bytes) }.

Definition memtable_new : memtable := Mem 0 skiplist_new.

Definition mt_Ref (m : memtable) : memtable := Mem (mt_refs m + 1) (mt_table m).

(** [None]: the table deleted itself. *)
Definition mt_Unref (m : memtable) : option memtable :=
  let refs := mt_refs m - 1 in if refs <=? 0 then None else Some (Mem refs (mt_table m)).

Definition EncodeKey (target : bytes) : bytes := PutVarint32 [] (wrap_u 32 (Z.of_nat (length target))) ++ target.

Section Memtable.
Context (uc : comparator).

Definition mt_compare (aptr bptr : bytes) : res Z :=
  a ← entry_slice aptr;
  b ← entry_slice bptr;
  ikc_Compare uc (fst a) (fst b).

(** The entry [Add] writes into the [encoded_len] bytes of the arena. *)
Definition mt_entry (s : Z) (type : ValueType) (key value : bytes) : option (res bytes) :=
  let key_size := length key in
  let val_size := length value in
  let internal_key_size := (key_size + 8)%nat in
  match VarintLength (Z.of_nat internal_key_size), VarintLength (Z.of_nat val_size) with
  | Some n1, Some n2 =>
      let encoded_len := n1 + Z.of_nat internal_key_size + n2 + Z.of_nat val_size in
      let buf := EncodeVarint32 (wrap_u 32 (Z.of_nat internal_key_size)) ++ key ++
                 EncodeFixed64 true (Z.lor (wrap_u 64 (Z.shiftl s 8)) (vt_val type)) ++
                 EncodeVarint32 (wrap_u 32 (Z.of_nat val_size)) ++ value in
      Some (if Z.of_nat (length buf) <=? encoded_len then Ok buf else Ub OobWrite)
  | _, _ => None
  end.

Definition mt_Add (m : memtable) (s : Z) (type : ValueType) (key value : bytes) : option (res memtable) :=
  match mt_entry s type key value with
  | None => None
  | Some (Ub u) => Some (Ub u)
  | Some (Ok buf) =>
      match Insert mt_compare (mt_table m) buf with
      | None => None
      | Some (Ub u) => Some (Ub u)
      | Some (Ok t) => Some (Ok (Mem (mt_refs m) t))
      end
  end.

(** What [Get] does with the entry its iterator is at: the answer, what it
    assigned to [*value], and [*s]. *)
Definition mt_check (entry : bytes) (key : LookupKey) (s : Status) : res (bool * option bytes * Status) :=
  match GetVarint32Ptr (take 5 entry) with
  | None => Ub NullDeref
  | Some (key_length, q) =>
      let key_ptr := drop (length (take 5 entry) - length q) entry in
      let n := Z.to_nat (wrap_u 32 (key_length - 8)) in
      if (n <=? length key_ptr)%nat then
        if cmp uc (take n key_ptr) (lk_user_key key) =? 0 then
          tag ← DecodeFixed64 true (drop (Z.to_nat key_length - 8) key_ptr);
          if Z.land tag 0xff =? vt_val kTypeValue then
            v ← entry_slice (drop (Z.to_nat key_length) key_ptr);
            Ok (true, Some (fst v), s)
          else if Z.land tag 0xff =? vt_val kTypeDeletion then Ok (true, None, NotFound [])
          else Ok (false, None, s)
        else Ok (false, None, s)
      else Ub OobRead
  end.

Definition mt_Get (m : memtable) (key : LookupKey) (s : Status) : option (res (bool * option bytes * Status)) :=
  match iter_Seek mt_compare (mt_table m) (memtable_key key) with
  | None => None
  | Some (Ub u) => Some (Ub u)
  | Some (Ok iter) =>
      Some (if iter_Valid iter then entry ← iter_key (mt_table m) iter; mt_check entry key s
            else Ok (false, None, s))
  end.

(** ** Its iterator *)
Definition mti_Seek (m : memtable) (k : bytes) : option (res (option nat)) := iter_Seek mt_compare (mt_table m) (EncodeKey k).
Definition mti_SeekToFirst (m : memtable) : res (option nat) := iter_SeekToFirst (mt_table m).
Definition mti_SeekToLast (m : memtable) : option (res (option nat)) := iter_SeekToLast (mt_table m).
Definition mti_Next (m : memtable) (it : option nat) : res (option nat) := iter_Next (mt_table m) it.
Definition mti_Prev (m : memtable) (it : option nat) : option (res (option nat)) := iter_Prev mt_compare (mt_table m) it.

Definition mti_key (m : memtable) (it : option nat) : res bytes :=
  e ← iter_key (mt_table m) it; s ← entry_slice e; Ok (fst s).

Definition mti_value (m : memtable) (it : option nat) : res bytes :=
  e ← iter_key (mt_table m) it; s ← entry_slice e; v ← entry_slice (snd s); Ok (fst v).

(** ** Replaying a batch *)

(** [MemTableInserter] on one record: the table and the next sequence number. *)
Definition inserter_handle (st : option (res (memtable * Z))) (r : record) : option (res (memtable * Z)) :=
  match st with
  | Some (Ok (m, sequence_)) =>
      match match r with
            | RPut key value => mt_Add m sequence_ kTypeValue key value
            | RDelete key => mt_Add m sequence_ kTypeDeletion key []
            end with
      | None => None
      | Some (Ub u) => Some (Ub u)
      | Some (Ok m) => Some (Ok (m, wrap_u 64 (sequence_ + 1)))
      end
  | e => e
  end.

(** The table, and the status of [Iterate]. *)
Definition InsertInto (b : bytes) (m : memtable) : option (res (memtable * Status)) :=
  match batch_Sequence b with
  | Ub u => Some (Ub u)
  | Ok seq =>
      match batch_Iterate inserter_handle b (Some (Ok (m, seq))) with
      | None => None
      | Some (Ub u) => Some (Ub u)
      | Some (Ok (None, _)) => None
      | Some (Ok (Some (Ub u), _)) => Some (Ub u)
      | Some (Ok (Some (Ok (m, _)), st)) => Some (Ok (m, st))
      end
  end.
End Memtable.

(** ** The specification *)

(** An entry: a write of a key at a sequence number. *)
Record entry := Entry { e_key : ParsedInternalKey; e_value : bytes }.

(** The records of a list, numbered from [seq] on. *)
Fixpoint numbered (seq : Z) (l : list record) : list entry :=
  match l with
  | [] => []
  | RPut k v :: l' => Entry (PIK k seq kTypeValue) v :: numbered (seq + 1) l'
  | RDelete k :: l' => Entry (PIK k seq kTypeDeletion) [] :: numbered (seq + 1) l'
  end.

(** A record applied to a map of keys; [Some None] is a deleted key. *)
Definition apply_record (m : gmap bytes (option bytes)) (r : record) : gmap bytes (option bytes) :=
  match r with RPut k v => <[k := Some v]> m | RDelete k => <[k := None]> m end.

(** What [Get] answers for what the map says of the key. *)
Definition get_answer (o : option (option bytes)) (s : Status) : bool * option bytes * Status :=
  match o with
  | Some (Some v) => (true, Some v, s)
  | Some None => (true, None, NotFound [])
  | None => (false, None, s)
  end.

(** ** Entries *)
Lemma varint32_get5 v rest : 0 <= v < 2 ^ 32 ->
  exists q, GetVarint32Ptr (take 5 (EncodeVarint32 v ++ rest)) = Some (v, q) /\
    drop (length (take 5 (EncodeVarint32 v ++ rest)) - length q) (EncodeVarint32 v ++ rest) = rest.
Proof.
  intros Hv. destruct (varint32_length v Hv) as [_ Hl]. rewrite take_app_ge by lia. rewrite varint32_get by done.
  eexists. split; [done|]. rewrite length_app. apply drop_app_length'. lia.
Qed.

Lemma entry_slice_put v rest : Z.of_nat (length v) < 2 ^ 32 -> entry_slice (put_slice v ++ rest) = Ok (v, rest).
Proof.
  intros Hv. unfold entry_slice, put_slice. rewrite <- app_assoc.
  destruct (varint32_get5 (Z.of_nat (length v)) (v ++ rest)) as (q & -> & Hd); [lia|]. cbv zeta. rewrite Hd.
  rewrite Nat2Z.id, length_app, (proj2 (Nat.leb_le _ _)) by lia. by rewrite take_app_length, drop_app_length.
Qed.

Section Entries.
Context (uc : comparator) {UL : CmpLaws uc}.

Definition entry_ok (e : entry) : Prop :=
  good_seq (sequence (e_key e)) /\ dom uc (user_key (e_key e)) = true /\
  Z.of_nat (length (user_key (e_key e))) + 8 < 2 ^ 32 /\ Z.of_nat (length (e_value e)) < 2 ^ 32.

Definition entry_bytes (e : entry) : bytes := put_slice (AppendInternalKey [] (e_key e)) ++ put_slice (e_value e).

(** The internal key at the start of an entry or of a lookup key. *)
Definition entry_ik (b : bytes) : bytes := match entry_slice b with Ok p => fst p | Ub _ => [] end.
Definition entry_good (b : bytes) : bool :=
  match entry_slice b with Ok p => dom (internal_comparator uc) (fst p) | Ub _ => false end.

#[local] Instance entries_order : KeyOrder (mt_compare uc) entry_ik entry_good (internal_comparator uc).
Proof.
  assert (D : forall a, entry_good a = true -> dom (internal_comparator uc) (entry_ik a) = true).
  { intros a. unfold entry_good, entry_ik. by destruct (entry_slice a). }
  split; [|done|apply _]. intros a b Ha Hb. pose proof (D a Ha) as [La _]%internal_dom. pose proof (D b Hb) as [Lb _]%internal_dom.
  unfold entry_good, entry_ik in *. unfold mt_compare. destruct (entry_slice a) as [pa|]; [|done].
  destruct (entry_slice b) as [pb|]; [|done]. cbn [mbind res_bind]. cbn [cmp internal_comparator].
  by rewrite (ikc_split uc (fst pa) (fst pb) La Lb).
Qed.

Lemma ik_length e : entry_ok e -> length (AppendInternalKey [] (e_key e)) = (length (user_key (e_key e)) + 8)%nat.
Proof. intros (Hs & _). rewrite append_tagged. by apply tag_user_key. Qed.

Lemma entry_key e rest : entry_ok e ->
  entry_slice (put_slice (AppendInternalKey [] (e_key e)) ++ rest) = Ok (AppendInternalKey [] (e_key e), rest).
Proof. intros He. apply entry_slice_put. rewrite ik_length by done. destruct He as (_ & _ & Hl & _). lia. Qed.

Lemma ik_dom key : good_seq (sequence key) -> dom uc (user_key key) = true ->
  dom (internal_comparator uc) (AppendInternalKey [] key) = true.
Proof.
  intros Hs Hd. apply internal_dom. rewrite append_tagged. destruct (split_tagged (sequence key) (type key) (user_key key) Hs) as [-> Hl].
  done.
Qed.

Lemma entry_bytes_ik e : entry_ok e -> entry_ik (entry_bytes e) = AppendInternalKey [] (e_key e) /\ entry_good (entry_bytes e) = true.
Proof.
  intros He. unfold entry_ik, entry_good, entry_bytes. rewrite entry_key by done. split; [done|].
  destruct He as (? & ? & _). by apply ik_dom.
Qed.

Lemma mt_entry_ok s t k v : entry_ok (Entry (PIK k s t) v) -> mt_entry s t k v = Some (Ok (entry_bytes (Entry (PIK k s t) v))).
Proof.
  intros He. pose proof (ik_length _ He) as Hik. cbn [e_key user_key] in Hik. destruct He as (Hs & _ & Hk & Hv). cbn in Hs, Hk, Hv.
  unfold mt_entry. destruct (varint32_length (Z.of_nat (length k + 8))) as [-> _]; [lia|].
  destruct (varint32_length (Z.of_nat (length v))) as [-> _]; [lia|]. cbv zeta. rewrite !wrap_u_small by lia.
  match goal with |- context [if Z.of_nat (length ?b) <=? _ then _ else _] => assert (E : b = entry_bytes (Entry (PIK k s t) v)) end.
  { unfold entry_bytes, put_slice. cbn [e_key e_value]. rewrite Hik. rewrite append_tagged. cbn [e_key user_key sequence type].
    rewrite <- !app_assoc. by rewrite (wrap_u_small 32 (Z.of_nat (length v))) by lia. }
  rewrite E. rewrite (proj2 (Z.leb_le _ _)); [done|]. unfold entry_bytes, put_slice. cbn [e_key e_value user_key].
  rewrite !length_app, Hik. lia.
Qed.

(** Sorting of the internal keys of two entries. *)
Lemma ik_le a b :
  good_seq (sequence a) -> good_seq (sequence b) -> dom uc (user_key a) = true -> dom uc (user_key b) = true ->
  (cmp (internal_comparator uc) (AppendInternalKey [] a) (AppendInternalKey [] b) <= 0 <->
   cmp uc (user_key a) (user_key b) < 0 \/
   user_key a = user_key b /\ sequence b * 256 + vt_val (type b) <= sequence a * 256 + vt_val (type a)).
Proof.
  intros Ha Hb Da Db. rewrite internal_cmp by by apply ik_dom. rewrite !append_tagged.
  destruct (split_tagged (sequence a) (type a) (user_key a) Ha) as [-> _], (split_tagged (sequence b) (type b) (user_key b) Hb) as [-> _].
  cbn [fst snd]. pose proof (cmp_eq (user_key a) (user_key b) Da Db) as E.
  destruct (Z.eqb_spec (cmp uc (user_key a) (user_key b)) 0) as [E0|E0].
  - repeat match goal with |- context [?x <? ?y] => destruct (Z.ltb_spec x y) end; split; intros; try lia;
      try (right; split; [by apply E|lia]); destruct_or?; lia.
  - split; [lia|]. intros [?|[?%E _]]; lia.
Qed.

(** ** Tables with their entries *)
Definition mem_holds (m : memtable) (l : list entry) : Prop :=
  Forall entry_ok l /\
  exists ks, skip_of entry_ik entry_good (internal_comparator uc) (mt_table m) ks /\ ks ≡ₚ entry_bytes <$> l.

(** What an entry says of its key. *)
Definition entry_val (e : entry) : option bytes :=
  match type (e_key e) with kTypeValue => Some (e_value e) | kTypeDeletion => None end.

Definition visible (k : bytes) (s : Z) (e : entry) : Prop := user_key (e_key e) = k /\ sequence (e_key e) <= s.

#[global] Instance visible_dec k s e : Decision (visible k s e).
Proof. unfold visible. apply _. Defined.

Lemma append_inj a b : good_seq (sequence a) -> good_seq (sequence b) -> AppendInternalKey [] a = AppendInternalKey [] b -> a = b.
Proof. intros Ha Hb E. destruct (internal_key_roundtrip a Ha) as (Pa & _), (internal_key_roundtrip b Hb) as (Pb & _). congruence. Qed.

Lemma new_holds : mem_holds memtable_new [].
Proof. split; [done|]. exists []. split; [apply new_skip|done]. Qed.

Lemma add_holds m l k s t v :
  mem_holds m l -> entry_ok (Entry (PIK k s t) v) -> PIK k s t ∉ e_key <$> l ->
  exists m', mt_Add uc m s t k v = Some (Ok m') /\ mem_holds m' (Entry (PIK k s t) v :: l).
Proof.
  intros (Hl & ks & Hsk & Hp) He Hnew. unfold mt_Add. rewrite mt_entry_ok by done.
  destruct (entry_bytes_ik _ He) as [Hik Hg].
  destruct (insert_skip (mt_compare uc) _ _ _ _ ks _ Hg Hsk) as (sl' & -> & Hsk').
  { rewrite Hp, Hik, <- list_fmap_compose. intros (e & E & Hin)%list_elem_of_fmap. rewrite Forall_forall in Hl. cbn in E.
    rewrite (proj1 (entry_bytes_ik e (Hl e Hin))) in E. apply Hnew, list_elem_of_fmap. exists e. split; [|done].
    apply append_inj; [apply He|apply (Hl e Hin)|done]. }
  eexists. split; [done|]. split; [by constructor|]. eexists. split; [exact Hsk'|].
  by rewrite sorted_insert_perm, Hp.
Qed.

Lemma check_entry e k s st :
  entry_ok e -> dom uc k = true -> lk_user_key (lookup_key k s) = k ->
  mt_check uc (entry_bytes e) (lookup_key k s) st =
    Ok (get_answer (if decide (user_key (e_key e) = k) then Some (entry_val e) else None) st).
Proof.
  intros He Dk Hk. pose proof (ik_length _ He) as Hik. destruct He as (Hs & Du & Hl & Hv).
  unfold mt_check, entry_bytes, put_slice. rewrite <- app_assoc.
  match goal with |- context [EncodeVarint32 ?n ++ ?r] => destruct (varint32_get5 n r) as (q & -> & Hd); [lia|] end.
  cbv zeta. rewrite Hd, Hk, Hik. rewrite wrap_u_small by lia.
  replace (Z.to_nat (Z.of_nat (length (user_key (e_key e)) + 8) - 8)) with (length (user_key (e_key e))) by lia.
  rewrite append_tagged, <- !app_assoc, length_app, (proj2 (Nat.leb_le _ _)), take_app_length by lia.
  rewrite Nat2Z.id, Nat.add_sub, drop_app_length. destruct (pack_val (sequence (e_key e)) (type (e_key e)) Hs) as [Hp Hr].
  rewrite fixed64_get by (rewrite Hp; lia). rewrite Hp. cbn [mbind res_bind].
  destruct (tag_parts (sequence (e_key e)) (type (e_key e))) as [-> _]; [apply Hs|].
  assert (Hrest : forall r, drop (length (user_key (e_key e)) + 8) (user_key (e_key e) ++
      EncodeFixed64 true (sequence (e_key e) * 256 + vt_val (type (e_key e))) ++ r) = r).
  { intros r. rewrite app_assoc. apply drop_app_length'. by rewrite length_app, encode64_le, length_le_split. }
  rewrite Hrest.
  pose proof (entry_slice_put (e_value e) [] Hv) as Hsl. rewrite app_nil_r in Hsl. unfold put_slice in Hsl. rewrite Hsl.
  pose proof (cmp_eq (user_key (e_key e)) k Du Dk) as E. unfold entry_val.
  destruct (Z.eqb_spec (cmp uc (user_key (e_key e)) k) 0) as [E0|E0].
  - rewrite decide_True by by apply E. by destruct (type (e_key e)).
  - rewrite decide_False by (intros ?; apply E0; by apply E). done.
Qed.

Lemma lookup_bytes k s : Z.of_nat (length k) + 8 < 2 ^ 32 -> good_seq s ->
  memtable_key (lookup_key k s) = put_slice (AppendInternalKey [] (PIK k s kValueTypeForSeek)) /\
  lk_user_key (lookup_key k s) = k.
Proof.
  intros Hk Hs. destruct (tag_user_key s kValueTypeForSeek k Hs) as (Hl & _).
  unfold memtable_key, lk_user_key, lookup_key, put_slice. cbn [lk_start lk_kstart].
  rewrite append_tagged. cbn [user_key sequence type]. rewrite Hl, wrap_u_small by lia. split; [done|].
  rewrite drop_app_length, length_app, Hl.
  match goal with |- take ?n _ = _ => replace n with (length k) by lia end. by rewrite take_app_length.
Qed.

Lemma lookup_good k s : Z.of_nat (length k) + 8 < 2 ^ 32 -> good_seq s -> dom uc k = true ->
  entry_ik (memtable_key (lookup_key k s)) = AppendInternalKey [] (PIK k s kValueTypeForSeek) /\
  entry_good (memtable_key (lookup_key k s)) = true.
Proof.
  intros Hk Hs Hd. destruct (lookup_bytes k s Hk Hs) as [-> _].
  assert (He : entry_ok (Entry (PIK k s kValueTypeForSeek) [])) by (split_and!; done).
  pose proof (entry_key _ [] He) as E. rewrite app_nil_r in E. cbn [e_key] in E.
  unfold entry_ik, entry_good. rewrite E. split; [done|]. by apply ik_dom.
Qed.

(** In the order of the table, the entries a lookup may stop at. *)
Lemma entry_after e k s :
  entry_ok e -> good_seq s -> dom uc k = true -> Z.of_nat (length k) + 8 < 2 ^ 32 ->
  (0 <= cmp (internal_comparator uc) (entry_ik (entry_bytes e)) (entry_ik (memtable_key (lookup_key k s))) <->
   cmp uc k (user_key (e_key e)) < 0 \/ visible k s e).
Proof.
  intros He Hs Dk Hk. destruct (entry_bytes_ik _ He) as [-> _], (lookup_good k s Hk Hs Dk) as [-> _].
  pose proof He as (Hse & De & _).
  rewrite (cmp_flip (internal_comparator uc)) by by apply ik_dom.
  pose proof (ik_le (PIK k s kValueTypeForSeek) (e_key e) Hs Hse Dk De) as L. cbn [user_key sequence type] in L.
  unfold visible. assert (0 <= vt_val (type (e_key e)) <= 1) by (by destruct (type (e_key e))). cbn [vt_val kValueTypeForSeek] in L.
  rewrite L. split; intros [?|[? ?]]; [by left|right; split; [done|lia]|by left|right; split; [done|lia]].
Qed.

(** A visible entry that is not older than the other visible ones. *)
Definition newest (k : bytes) (s : Z) (l : list entry) (e : entry) : Prop :=
  e ∈ l /\ visible k s e /\ forall e', e' ∈ l -> visible k s e' -> sequence (e_key e') <= sequence (e_key e).

Lemma get_holds m l k s st :
  mem_holds m l -> good_seq s -> dom uc k = true -> Z.of_nat (length k) + 8 < 2 ^ 32 ->
  (exists e, newest k s l e /\ mt_Get uc m (lookup_key k s) st = Some (Ok (get_answer (Some (entry_val e)) st))) \/
  ((forall e, e ∈ l -> ~ visible k s e) /\ mt_Get uc m (lookup_key k s) st = Some (Ok (get_answer None st))).
Proof.
  intros (Hl & ks & Hsk & Hp) Hs Dk Hk. rewrite Forall_forall in Hl.
  assert (Hin : forall b, b ∈ ks <-> exists e, b = entry_bytes e /\ e ∈ l)
    by (intros b; rewrite Hp; apply list_elem_of_fmap).
  destruct (lookup_good k s Hk Hs Dk) as [_ Hg]. destruct (lookup_bytes k s Hk Hs) as [_ Hu].
  destruct (seek_skip (mt_compare uc) _ _ _ _ ks _ Hg Hsk) as (it & prev & E & Hit).
  pose proof (first_ge_least (mt_compare uc) entry_ik entry_good _ (memtable_key (lookup_key k s)) ks (proj1 Hsk)) as Hf.
  unfold mt_Get, iter_Seek. rewrite E.
  destruct (first_ge _ _ _ ks) as [f|]; destruct it as [x|]; try done.
  - destruct Hf as ((e & -> & He)%Hin & Hge & Hleast). cbn in Hit. injection Hit as Hit.
    apply (entry_after e) in Hge; [|auto..]. cbn [iter_Valid]. unfold iter_key. cbn [of_option mbind res_bind]. rewrite Hit.
    cbn [mbind res_bind]. rewrite check_entry by auto.
    assert (Hmin : forall e', e' ∈ l -> visible k s e' -> user_key (e_key e) = k /\ sequence (e_key e') <= sequence (e_key e)).
    { intros e' He' Hv'.
      assert (Hge' : 0 <= cmp (internal_comparator uc) (entry_ik (entry_bytes e')) (entry_ik (memtable_key (lookup_key k s))))
        by (apply entry_after; auto).
      specialize (Hleast (entry_bytes e') (proj2 (Hin _) (ex_intro _ e' (conj eq_refl He'))) Hge').
      clear Hge'. unfold key_le in Hleast.
      rewrite (proj1 (entry_bytes_ik _ (Hl e He))), (proj1 (entry_bytes_ik _ (Hl e' He'))) in Hleast.
      pose proof (Hl e He) as (Se & De & _). pose proof (Hl e' He') as (Se' & De' & _).
      rewrite ik_le in Hleast by done. destruct Hv' as [<- Hs'].
      assert (0 <= vt_val (type (e_key e)) <= 1) by by destruct (type (e_key e)).
      assert (0 <= vt_val (type (e_key e')) <= 1) by by destruct (type (e_key e')).
      destruct Hleast as [Hlt|[Heq Htag]]; [|split; [done|lia]].
      pose proof (cmp_opp (user_key (e_key e)) (user_key (e_key e')) De De'). destruct Hge as [Hge|[Hge _]]; [lia|].
      rewrite Hge, cmp_refl in Hlt by done. lia. }
    case_decide as Hkey.
    + left. exists e. split; [|done]. split; [done|]. split; [|intros e' ? ?; by apply Hmin].
      destruct Hge as [Hlt|?]; [|done]. rewrite Hkey, cmp_refl in Hlt by done. lia.
    + right. split; [|done]. intros e' He' Hv'. by destruct (Hmin e' He' Hv').
  - right. split; [|done]. intros e He Hv. specialize (Hf (entry_bytes e)).
    assert (0 <= cmp (internal_comparator uc) (entry_ik (entry_bytes e)) (entry_ik (memtable_key (lookup_key k s))))
      by (apply entry_after; auto).
    assert (entry_bytes e ∈ ks) as Hb by (apply Hin; by exists e). specialize (Hf Hb). lia.
Qed.

(** ** Batches replayed *)

(** A record with the numbers and sizes LevelDB is made for. *)
Definition record_good (r : record) : Prop :=
  match r with
  | RPut k v => dom uc k = true /\ Z.of_nat (length k) + 8 < 2 ^ 32 /\ Z.of_nat (length v) < 2 ^ 32
  | RDelete k => dom uc k = true /\ Z.of_nat (length k) + 8 < 2 ^ 32
  end.

Lemma good_record_ok l : Forall record_good l -> Forall record_ok l.
Proof. intros H. eapply Forall_impl; [exact H|]. intros [k v|k]; cbn; intros; destruct_and?; lia. Qed.

Lemma inserter_all l m held seq :
  mem_holds m held -> (forall e, e ∈ held -> sequence (e_key e) < seq) -> Forall record_good l -> 0 <= seq -> seq + Z.of_nat (length l) <= kMaxSequenceNumber ->
  exists m', foldl (inserter_handle uc) (Some (Ok (m, seq))) l = Some (Ok (m', seq + Z.of_nat (length l))) /\
    mem_holds m' (reverse (numbered seq l) ++ held).
Proof.
  intros Hm Hlt Hl. revert m held seq Hm Hlt. induction Hl as [|r l Hr _ IH]; intros m held seq Hm Hlt H0 Hs.
  { exists m. cbn. by rewrite Z.add_0_r. }
  cbn [length] in Hs. pose proof max_seq as Hmax.
  assert (exists k t v, entry_ok (Entry (PIK k seq t) v) /\ numbered seq (r :: l) = Entry (PIK k seq t) v :: numbered (seq + 1) l /\
    inserter_handle uc (Some (Ok (m, seq))) r =
      match mt_Add uc m seq t k v with None => None | Some (Ub u) => Some (Ub u) | Some (Ok m) => Some (Ok (m, wrap_u 64 (seq + 1))) end)
    as (k & t & v & He & Hn & Hi).
  { destruct r as [k v|k]; [exists k, kTypeValue, v|exists k, kTypeDeletion, []]; (split; [|done]);
      cbn in Hr; destruct_and?; split_and!; cbn; (done || lia || (unfold good_seq; lia)). }
  destruct (add_holds m held k seq t v Hm He) as (m1 & HA & Hm1).
  { intros (e & E & Hin%Hlt)%list_elem_of_fmap. rewrite <- E in Hin. cbn in Hin. lia. }
  cbn [foldl]. rewrite Hi, HA, wrap_u_small by lia.
  destruct (IH m1 _ (seq + 1) Hm1) as (m' & E & Hm'); [by intros e [->|Hin%Hlt]%elem_of_cons; cbn; lia|lia|lia|]. exists m'. rewrite E. split; [cbn [length]; do 3 f_equal; lia|].
  by rewrite Hn, reverse_cons, <- app_assoc.
Qed.

Lemma insert_into_holds b seq l m held :
  batch_is b seq l -> Forall record_good l -> mem_holds m held -> (forall e, e ∈ held -> sequence (e_key e) < seq) -> seq + Z.of_nat (length l) <= kMaxSequenceNumber ->
  exists m', InsertInto uc b m = Some (Ok (m', status_OK)) /\ mem_holds m' (reverse (numbered seq l) ++ held).
Proof.
  intros HB Hl Hm Hlt Hs. pose proof HB as (Hseq & _). unfold InsertInto. rewrite (batch_sequence b seq l HB).
  rewrite (iterate_batch _ b seq l _ HB).
  destruct (inserter_all l m held seq Hm Hlt Hl) as (m' & -> & Hm'); [lia|lia|]. by exists m'.
Qed.
End Entries.

(** Batches written one after the other: the table and the last sequence
    number in use. *)
Fixpoint write_all (uc : comparator) (m : memtable) (last_sequence : Z) (bs : list (list record)) : option (res (memtable * Z)) :=
  match bs with
  | [] => Some (Ok (m, last_sequence))
  | l :: bs' =>
      match rep ← batch_add_all WriteBatch l; updates ← batch_SetSequence rep (last_sequence + 1);
            n ← batch_Count updates; Ok (updates, n) with
      | Ub u => Some (Ub u)
      | Ok (updates, n) =>
          match InsertInto uc updates m with
          | None => None
          | Some (Ub u) => Some (Ub u)
          | Some (Ok (m, _)) => write_all uc m (last_sequence + n) bs'
          end
      end
  end.

Lemma numbered_length seq l : length (numbered seq l) = length l.
Proof. revert seq. induction l as [|[k v|k] l IH]; intros seq; cbn; [done|by rewrite IH..]. Qed.

Lemma numbered_app seq l l' : numbered seq (l ++ l') = numbered seq l ++ numbered (seq + Z.of_nat (length l)) l'.
Proof.
  revert seq. induction l as [|r l IH]; intros seq; [cbn; by rewrite Z.add_0_r|].
  replace (seq + Z.of_nat (length (r :: l))) with ((seq + 1) + Z.of_nat (length l)) by (cbn; lia).
  destruct r; cbn; by rewrite IH.
Qed.

Lemma numbered_range q l e : e ∈ numbered q l -> q <= sequence (e_key e) < q + Z.of_nat (length l).
Proof.
  revert q. induction l as [|r l IH]; intros q; cbn [numbered]; [by intros ?%elem_of_nil|]. assert (Hc : e ∈ numbered (q + 1) l -> q <= sequence (e_key e) < q + Z.of_nat (length (r :: l))) by (intros He%IH; cbn; lia).
  destruct r; intros [->|He]%elem_of_cons; try (by apply Hc); cbn; lia.
Qed.

Lemma write_all_holds uc {UL : CmpLaws uc} bs m recs :
  mem_holds uc m (reverse (numbered 1 recs)) -> Forall (Forall (record_good uc)) bs ->
  Z.of_nat (length recs + length (concat bs)) < 2 ^ 31 ->
  exists m', write_all uc m (Z.of_nat (length recs)) bs = Some (Ok (m', Z.of_nat (length recs + length (concat bs)))) /\
    mem_holds uc m' (reverse (numbered 1 (recs ++ concat bs))).
Proof.
  intros Hm Hbs. revert m recs Hm. induction Hbs as [|l bs Hl _ IH]; intros m recs Hm Hn.
  { exists m. cbn. by rewrite Nat.add_0_r, app_nil_r. }
  cbn [concat] in Hn |- *. rewrite length_app in Hn. cbn [write_all].
  destruct (batch_add_all_ok WriteBatch 0 [] l batch_is_empty (good_record_ok uc l Hl)) as (rep & -> & HB); [cbn; lia|].
  cbn [mbind res_bind].
  destruct (batch_set_sequence rep 0 l HB (Z.of_nat (length recs) + 1)) as (up & -> & HB'); [lia|]. cbn [mbind res_bind].
  rewrite (batch_count up _ l HB'). cbn [mbind res_bind].
  destruct (insert_into_holds uc up _ l m _ HB' Hl Hm) as (m1 & -> & Hm1);
    [intros e He%elem_of_reverse%numbered_range; lia|rewrite max_seq; lia|].
  destruct (IH m1 (recs ++ l)) as (m' & E & Hm').
  - rewrite numbered_app, reverse_app. by replace (1 + Z.of_nat (length recs)) with (Z.of_nat (length recs) + 1) by lia.
  - rewrite length_app. lia.
  - exists m'. rewrite length_app, Nat2Z.inj_add in E. rewrite E, <- app_assoc in *. split; [|done].
    rewrite length_app. do 3 f_equal. lia.
Qed.

(** ** The newest entry and the map of keys *)
Lemma numbered_above q l e : e ∈ numbered q l -> q <= sequence (e_key e).
Proof.
  revert q. induction l as [|[k v|k] l IH]; intros q; cbn [numbered]; [by intros ?%elem_of_nil|..];
    (intros [->|H%IH]%elem_of_cons; cbn; lia).
Qed.

Lemma numbered_sorted q l : StronglySorted (fun a b => sequence (e_key a) < sequence (e_key b)) (numbered q l).
Proof.
  revert q. induction l as [|[k v|k] l IH]; intros q; cbn [numbered]; constructor; try done;
    apply Forall_forall; intros e He%numbered_above; cbn; lia.
Qed.

Lemma sorted_filter {A} (R : A -> A -> Prop) (P : A -> Prop) `{!forall x, Decision (P x)} l :
  StronglySorted R l -> StronglySorted R (filter P l).
Proof.
  induction 1 as [|a l _ IH Ha]; [constructor|]. rewrite filter_cons. case_decide; [|done]. constructor; [done|].
  rewrite Forall_forall in *. intros b [_ Hb]%list_elem_of_filter. by apply Ha.
Qed.

Lemma newest_last k s q l e :
  newest k s (reverse (numbered q l)) e -> last (filter (visible k s) (numbered q l)) = Some e.
Proof.
  intros (Hin & Hv & Hmax). rewrite elem_of_reverse in Hin.
  assert (HS : StronglySorted (fun a b => sequence (e_key a) < sequence (e_key b)) (filter (visible k s) (numbered q l)))
    by apply sorted_filter, numbered_sorted.
  assert (HF : e ∈ filter (visible k s) (numbered q l)) by by apply list_elem_of_filter.
  assert (HM : forall e', e' ∈ filter (visible k s) (numbered q l) -> sequence (e_key e') <= sequence (e_key e)).
  { intros e' [Hv' Hin']%list_elem_of_filter. apply Hmax; [by apply elem_of_reverse|done]. }
  destruct (filter (visible k s) (numbered q l)) as [|f F _] using rev_ind; [by apply elem_of_nil in HF|].
  rewrite last_snoc. apply elem_of_app in HF as [HF|Hf]; [|by apply list_elem_of_singleton in Hf as ->].
  apply StronglySorted_app in HS as (HS & _ & _). specialize (HS e f HF ltac:(set_solver)).
  specialize (HM f ltac:(set_solver)). lia.
Qed.

Lemma lookup_numbered k s q l m0 :
  foldl apply_record m0 (take (Z.to_nat (s - q + 1)) l) !! k =
    match last (filter (visible k s) (numbered q l)) with Some e => Some (entry_val e) | None => m0 !! k end.
Proof.
  revert q m0. induction l as [|r l IH]; intros q m0; [by rewrite take_nil|].
  destruct (decide (s < q)) as [Hlt|Hge].
  - replace (Z.to_nat (s - q + 1)) with 0%nat by lia. rewrite list_filter_none; [done|].
    apply Forall_forall. intros e He%numbered_above [_ Hs]. lia.
  - replace (Z.to_nat (s - q + 1)) with (S (Z.to_nat (s - (q + 1) + 1))) by lia. cbn [take foldl]. rewrite IH.
    destruct r as [k' v|k']; cbn [numbered apply_record]; rewrite filter_cons;
      (destruct (decide (k' = k)) as [->|Hne];
        [rewrite decide_True by (split; [done|cbn; lia])|rewrite decide_False by (intros [? _]; done)]);
      rewrite ?last_cons, ?lookup_insert_eq, ?lookup_insert_ne by done; by destruct (last _).
Qed.

(** C34. LevelDB's memtable is a map with a history: after any write batches,
    replayed in order from sequence number 1, a lookup of a key at a snapshot
    answers as a map to which the first [snapshot] records were applied - the
    value, NotFound for a deleted key, nothing for a key never written. *)
Theorem memtable_refines_map (uc : comparator) (UL : CmpLaws uc) bs :
  Forall (Forall (record_good uc)) bs -> Z.of_nat (length (concat bs)) < 2 ^ 31 ->
  exists m, write_all uc memtable_new 0 bs = Some (Ok (m, Z.of_nat (length (concat bs)))) /\
    forall k snapshot st, dom uc k = true -> Z.of_nat (length k) + 8 < 2 ^ 32 -> good_seq snapshot ->
      mt_Get uc m (lookup_key k snapshot) st =
        Some (Ok (get_answer (foldl apply_record ∅ (take (Z.to_nat snapshot) (concat bs)) !! k) st)).
Proof.
  intros Hbs Hn. destruct (write_all_holds uc bs memtable_new []) as (m & E & Hm); [apply new_holds|done|cbn; lia|].
  exists m. cbn in E, Hm. split; [done|]. intros k s st Dk Hk Hs.
  pose proof (lookup_numbered k s 1 (concat bs) ∅) as HL. replace (s - 1 + 1) with s in HL by lia. rewrite HL.
  destruct (get_holds uc m _ k s st Hm Hs Dk Hk) as [(e & He & ->)|[Hno ->]].
  - by rewrite (newest_last _ _ _ _ _ He).
  - rewrite list_filter_none; [done|]. apply Forall_forall. intros e He. apply Hno. by apply elem_of_reverse.
Qed.

Definition demo_batches : list (list record) :=
  [[RPut (lit "k") (lit "v1"); RPut (lit "j") (lit "w")]; [RDelete (lit "k")]; [RPut (lit "k") (lit "v2")]].

Lemma memtable_refines_map_witness :
  exists m, write_all lexical memtable_new 0 demo_batches = Some (Ok (m, 4)) /\
    mt_Get lexical m (lookup_key (lit "k") 2) None = Some (Ok (true, Some (lit "v1"), None)) /\
    mt_Get lexical m (lookup_key (lit "k") 3) None = Some (Ok (true, None, NotFound [])) /\
    mt_Get lexical m (lookup_key (lit "k") 4) None = Some (Ok (true, Some (lit "v2"), None)) /\
    mt_Get lexical m (lookup_key (lit "i") 4) None = Some (Ok (false, None, None)).
Proof.
  destruct (memtable_refines_map lexical lexical_laws demo_batches) as (m & E & H).
  - repeat constructor.
  - cbn. lia.
  - assert (HL : Z.of_nat (length (concat demo_batches)) = 4) by (vm_compute; reflexivity). rewrite HL in E.
    exists m. split; [exact E|].
    assert (G : forall s, 0 <= s <= 4 -> good_seq s) by (intros s Hs; unfold good_seq; rewrite max_seq; lia).
    rewrite (H (lit "k") 2), (H (lit "k") 3), (H (lit "k") 4), (H (lit "i") 4);
      try (apply G; lia); try reflexivity; try (vm_compute; reflexivity).
    vm_compute. repeat split.
Defined.
