(* ===== verification/RocksBatch.v ===== *)
(** * Write batches of RocksDB

    db/write_batch.cc of src/3rd-party/leveldb/leveldb-rocksdb-3.7.  The header
    is that of LevelDB, and so are the functions of util/coding.h; a record may
    be for a column family other than the default one, may be a merge, and may
    be a blob for the log only. *)
From S2P Require Import Prelude Store LvlCoding LvlBase LvlFormat LvlBatch.

(** The tags of db/dbformat.h. *)
Inductive RValueType :=
| RkTypeDeletion | RkTypeValue | RkTypeMerge | RkTypeLogData
| RkTypeColumnFamilyDeletion | RkTypeColumnFamilyValue | RkTypeColumnFamilyMerge.

Definition rvt_val (t : RValueType) : Z :=
  match t with
  | RkTypeDeletion => 0 | RkTypeValue => 1 | RkTypeMerge => 2 | RkTypeLogData => 3
  | RkTypeColumnFamilyDeletion => 4 | RkTypeColumnFamilyValue => 5 | RkTypeColumnFamilyMerge => 6
  end.

Definition rtag (t : RValueType) : byte := byte.of_Z (rvt_val t).

Inductive rk_status := RkOK | RkCorruption (msg : bytes) | RkInvalidArgument (msg : bytes).
Definition rk_ok (s : rk_status) : bool := match s with RkOK => true | _ => false end.

(** ** Adding to a batch *)

(** [reserve] does not change the string. *)
Definition rb_new : bytes := batch_Clear.

(** The tag of a record, with the number of its family when it has one. *)
Definition push_tag (rep : bytes) (plain cf : RValueType) (id : Z) : bytes :=
  if id =? 0 then rep ++ [rtag plain] else PutVarint32 (rep ++ [rtag cf]) id.

Definition count_one (rep : bytes) : res bytes :=
  c ← batch_Count rep; c' ← add_count c 1; batch_SetCount rep c'.

Definition rb_Put (rep : bytes) (id : Z) (key value : bytes) : res bytes :=
  rep ← count_one rep;
  Ok (PutLengthPrefixedSlice (PutLengthPrefixedSlice (push_tag rep RkTypeValue RkTypeColumnFamilyValue id) key) value).

Definition rb_Delete (rep : bytes) (id : Z) (key : bytes) : res bytes :=
  rep ← count_one rep;
  Ok (PutLengthPrefixedSlice (push_tag rep RkTypeDeletion RkTypeColumnFamilyDeletion id) key).

Definition rb_Merge (rep : bytes) (id : Z) (key value : bytes) : res bytes :=
  rep ← count_one rep;
  Ok (PutLengthPrefixedSlice (PutLengthPrefixedSlice (push_tag rep RkTypeMerge RkTypeColumnFamilyMerge id) key) value).

Definition rb_PutLogData (rep blob : bytes) : bytes := PutLengthPrefixedSlice (rep ++ [rtag RkTypeLogData]) blob.

(** [total_bytes] is a 32-bit sum. *)
Definition PutLengthPrefixedSliceParts (dst : bytes) (parts : list bytes) : bytes :=
  let total := foldl (fun t p => wrap_u 32 (t + Z.of_nat (length p))) 0 parts in
  foldl (fun d p => d ++ p) (PutVarint32 dst total) parts.

Definition rb_PutParts (rep : bytes) (id : Z) (key value : list bytes) : res bytes :=
  rep ← count_one rep;
  Ok (PutLengthPrefixedSliceParts
        (PutLengthPrefixedSliceParts (push_tag rep RkTypeValue RkTypeColumnFamilyValue id) key) value).

Definition rb_DeleteParts (rep : bytes) (id : Z) (key : list bytes) : res bytes :=
  rep ← count_one rep;
  Ok (PutLengthPrefixedSliceParts (push_tag rep RkTypeDeletion RkTypeColumnFamilyDeletion id) key).

Definition rb_Append (dst src : bytes) : res bytes := batch_Append dst src.

(** ** Reading *)

(** The variables [ReadRecordFromWriteBatch] is given the addresses of; the
    ones a record does not have keep what they had. *)
Record outs := Outs { o_tag : Z; o_cf : Z; o_key : bytes; o_value : bytes; o_blob : bytes }.

Definition read_key (msg : bytes) (input : bytes) (o : outs) : rk_status * bytes * outs :=
  match GetLengthPrefixedSlice input with
  | (Some k, input) => (RkOK, input, Outs (o_tag o) (o_cf o) k (o_value o) (o_blob o))
  | (None, input) => (RkCorruption msg, input, o)
  end.

Definition read_key_value (msg : bytes) (input : bytes) (o : outs) : rk_status * bytes * outs :=
  match read_key msg input o with
  | (RkOK, input, o) =>
      match GetLengthPrefixedSlice input with
      | (Some v, input) => (RkOK, input, Outs (o_tag o) (o_cf o) (o_key o) v (o_blob o))
      | (None, input) => (RkCorruption msg, input, o)
      end
  | r => r
  end.

(** A case with a family falls through to the one without. *)
Definition read_cf (msg : bytes) (input : bytes) (o : outs) (next : bytes -> outs -> rk_status * bytes * outs) :
    rk_status * bytes * outs :=
  match GetVarint32 input with
  | (Some cf, input) => next input (Outs (o_tag o) cf (o_key o) (o_value o) (o_blob o))
  | (None, input) => (RkCorruption msg, input, o)
  end.

Definition ReadRecordFromWriteBatch (input : bytes) (o : outs) : res (rk_status * bytes * outs) :=
  match input with
  | [] => Ub OobRead
  | b :: input =>
      let tag := byte.unsigned b in
      let o := Outs tag 0 (o_key o) (o_value o) (o_blob o) in
      Ok (if tag =? rvt_val RkTypeColumnFamilyValue then
            read_cf (lit "bad WriteBatch Put") input o (read_key_value (lit "bad WriteBatch Put"))
          else if tag =? rvt_val RkTypeValue then read_key_value (lit "bad WriteBatch Put") input o
          else if tag =? rvt_val RkTypeColumnFamilyDeletion then
            read_cf (lit "bad WriteBatch Delete") input o (read_key (lit "bad WriteBatch Delete"))
          else if tag =? rvt_val RkTypeDeletion then read_key (lit "bad WriteBatch Delete") input o
          else if tag =? rvt_val RkTypeColumnFamilyMerge then
            read_cf (lit "bad WriteBatch Merge") input o (read_key_value (lit "bad WriteBatch Merge"))
          else if tag =? rvt_val RkTypeMerge then read_key_value (lit "bad WriteBatch Merge") input o
          else if tag =? rvt_val RkTypeLogData then
            match GetLengthPrefixedSlice input with
            | (Some x, input) => (RkOK, input, Outs (o_tag o) (o_cf o) (o_key o) (o_value o) x)
            | (None, input) => (RkCorruption (lit "bad WriteBatch Blob"), input, o)
            end
          else (RkCorruption (lit "unknown WriteBatch tag"), input, o))
  end.

(** [WriteBatch::Handler]: what is called with the state of the handler. *)
Record handler (A : Type) := Handler {
  PutCF : A -> Z -> bytes -> bytes -> A * rk_status;
  DeleteCF : A -> Z -> bytes -> A * rk_status;
  MergeCF : A -> Z -> bytes -> bytes -> A * rk_status;
  LogData : A -> bytes -> A;
  Continue : A -> bool
}.
Arguments Handler {A}.
Arguments PutCF {A}.
Arguments DeleteCF {A}.
Arguments MergeCF {A}.
Arguments LogData {A}.
Arguments Continue {A}.

(** What a handler that overrides only [Put], [Delete] and [Merge] does. *)
Section Base.
Context {A : Type} (Put : A -> bytes -> bytes -> A) (Delete : A -> bytes -> A) (Merge : A -> bytes -> bytes -> A).

Definition base_PutCF (h : A) (id : Z) (key value : bytes) : A * rk_status :=
  if id =? 0 then (Put h key value, RkOK)
  else (h, RkInvalidArgument (lit "non-default column family and PutCF not implemented")).

Definition base_MergeCF (h : A) (id : Z) (key value : bytes) : A * rk_status :=
  if id =? 0 then (Merge h key value, RkOK)
  else (h, RkInvalidArgument (lit "non-default column family and MergeCF not implemented")).

Definition base_DeleteCF (h : A) (id : Z) (key : bytes) : A * rk_status :=
  if id =? 0 then (Delete h key, RkOK)
  else (h, RkInvalidArgument (lit "non-default column family and DeleteCF not implemented")).

Definition base_handler : handler A :=
  Handler base_PutCF base_DeleteCF base_MergeCF (fun h _ => h) (fun _ => true).
End Base.

Section Iterate.
Context {A : Type} (H : handler A).

(** The switch over the tag that was read. *)
Definition dispatch (h : A) (o : outs) : option (A * rk_status * Z) :=
  let tag := o_tag o in
  if (tag =? rvt_val RkTypeColumnFamilyValue) || (tag =? rvt_val RkTypeValue) then
    Some (PutCF H h (o_cf o) (o_key o) (o_value o), 1)
  else if (tag =? rvt_val RkTypeColumnFamilyDeletion) || (tag =? rvt_val RkTypeDeletion) then
    Some (DeleteCF H h (o_cf o) (o_key o), 1)
  else if (tag =? rvt_val RkTypeColumnFamilyMerge) || (tag =? rvt_val RkTypeMerge) then
    Some (MergeCF H h (o_cf o) (o_key o) (o_value o), 1)
  else if tag =? rvt_val RkTypeLogData then Some (LogData H h (o_blob o), RkOK, 0)
  else None.

(** The loop: [inr] is a return from inside it. *)
Fixpoint rb_loop (fuel : nat) (input : bytes) (o : outs) (s : rk_status) (found : Z) (h : A) :
    option (res (A * (rk_status * Z + rk_status))) :=
  match fuel with
  | O => None
  | S f =>
      if rk_ok s && negb (bool_decide (input = [])) && Continue H h then
        match ReadRecordFromWriteBatch input (Outs 0 0 (o_key o) (o_value o) (o_blob o)) with
        | Ub u => Some (Ub u)
        | Ok (s, input, o) =>
            if rk_ok s then
              match dispatch h o with
              | Some (h, s, n) =>
                  match add_count found n with
                  | Ok found => rb_loop f input o s found h
                  | Ub u => Some (Ub u)
                  end
              | None => Some (Ok (h, inr (RkCorruption (lit "unknown WriteBatch tag"))))
              end
            else Some (Ok (h, inr s))
        end
      else Some (Ok (h, inl (s, found)))
  end.

Definition rb_Iterate (rep : bytes) (h : A) : option (res (A * rk_status)) :=
  if (length rep <? kHeader)%nat then Some (Ok (h, RkCorruption (lit "malformed WriteBatch (too small)")))
  else
    match rb_loop (S (length rep)) (drop kHeader rep) (Outs 0 0 [] [] []) RkOK 0 h with
    | None => None
    | Some (Ub u) => Some (Ub u)
    | Some (Ok (h, inr e)) => Some (Ok (h, e))
    | Some (Ok (h, inl (s, found))) =>
        if negb (rk_ok s) then Some (Ok (h, s))
        else
          Some (c ← batch_Count rep;
                Ok (h, if negb (found =? c) then RkCorruption (lit "WriteBatch has wrong count") else RkOK))
    end.
End Iterate.

(** ** Records *)
Inductive rrecord :=
| RkPut (id : Z) (key value : bytes)
| RkDelete (id : Z) (key : bytes)
| RkMerge (id : Z) (key value : bytes)
| RkLog (blob : bytes).

Definition handle_one {A} (H : handler A) (h : A) (r : rrecord) : A * rk_status :=
  match r with
  | RkPut id k v => PutCF H h id k v
  | RkDelete id k => DeleteCF H h id k
  | RkMerge id k v => MergeCF H h id k v
  | RkLog x => (LogData H h x, RkOK)
  end.

(** A handler is given the records until it objects to one. *)
Fixpoint handle_all {A} (H : handler A) (h : A) (l : list rrecord) : A * rk_status :=
  match l with
  | [] => (h, RkOK)
  | r :: l' => let '(h', s) := handle_one H h r in if rk_ok s then handle_all H h' l' else (h', s)
  end.

(** The calls that add a record, and the record they add. *)
Inductive rop :=
| OAdd (r : rrecord)
| OPutParts (id : Z) (key value : list bytes)
| ODeleteParts (id : Z) (key : list bytes).

Definition rop_record (o : rop) : rrecord :=
  match o with
  | OAdd r => r
  | OPutParts id k v => RkPut id (concat k) (concat v)
  | ODeleteParts id k => RkDelete id (concat k)
  end.

Definition rb_add (rep : bytes) (o : rop) : res bytes :=
  match o with
  | OAdd (RkPut id k v) => rb_Put rep id k v
  | OAdd (RkDelete id k) => rb_Delete rep id k
  | OAdd (RkMerge id k v) => rb_Merge rep id k v
  | OAdd (RkLog x) => Ok (rb_PutLogData rep x)
  | OPutParts id k v => rb_PutParts rep id k v
  | ODeleteParts id k => rb_DeleteParts rep id k
  end.

Fixpoint rb_add_all (rep : bytes) (l : list rop) : res bytes :=
  match l with [] => Ok rep | o :: l' => rep ← rb_add rep o; rb_add_all rep l' end.

Definition tag_bytes (plain cf : RValueType) (id : Z) : bytes :=
  if id =? 0 then [rtag plain] else rtag cf :: EncodeVarint32 id.

Definition rrecord_bytes (r : rrecord) : bytes :=
  match r with
  | RkPut id k v => tag_bytes RkTypeValue RkTypeColumnFamilyValue id ++ put_slice k ++ put_slice v
  | RkDelete id k => tag_bytes RkTypeDeletion RkTypeColumnFamilyDeletion id ++ put_slice k
  | RkMerge id k v => tag_bytes RkTypeMerge RkTypeColumnFamilyMerge id ++ put_slice k ++ put_slice v
  | RkLog x => rtag RkTypeLogData :: put_slice x
  end.

Definition rrecords_bytes (l : list rrecord) : bytes := concat (rrecord_bytes <$> l).

Definition fits (b : bytes) : Prop := Z.of_nat (length b) < 2 ^ 32.

Definition rrecord_ok (r : rrecord) : Prop :=
  match r with
  | RkPut id k v | RkMerge id k v => 0 <= id < 2 ^ 32 /\ fits k /\ fits v
  | RkDelete id k => 0 <= id < 2 ^ 32 /\ fits k
  | RkLog x => fits x
  end.

(** Blobs are not counted. *)
Definition counted (r : rrecord) : Z := match r with RkLog _ => 0 | _ => 1 end.
Definition rcount (l : list rrecord) : Z := foldr (fun r n => counted r + n) 0 l.

Definition rb_is (rep : bytes) (seq : Z) (l : list rrecord) : Prop :=
  Forall rrecord_ok l /\ header_is rep seq (rcount l) (rrecords_bytes l).

(** ** Building *)
Lemma parts_concat dst parts : PutLengthPrefixedSliceParts dst parts = PutLengthPrefixedSlice dst (concat parts).
Proof.
  unfold PutLengthPrefixedSliceParts, PutLengthPrefixedSlice.
  assert (HT : forall t, foldl (fun t p => wrap_u 32 (t + Z.of_nat (length p))) (wrap_u 32 t) parts =
    wrap_u 32 (t + Z.of_nat (length (concat parts)))).
  { induction parts as [|p l IH]; intros t; cbn; [by rewrite Z.add_0_r|].
    assert (wrap_u 32 (wrap_u 32 t + Z.of_nat (length p)) = wrap_u 32 (t + Z.of_nat (length p))) as ->
      by (unfold wrap_u; by rewrite Zplus_mod_idemp_l).
    rewrite IH, length_app. f_equal. lia. }
  assert (HD : forall d, foldl (fun d p => d ++ p) d parts = d ++ concat parts).
  { clear HT. induction parts as [|p l IH]; intros d; cbn; [by rewrite app_nil_r|]. by rewrite IH, <- app_assoc. }
  rewrite HD. specialize (HT 0). rewrite Z.add_0_l in HT. change (wrap_u 32 0) with 0 in HT. by rewrite HT.
Qed.

Lemma rb_add_record rep o : rb_add rep o = rb_add rep (OAdd (rop_record o)).
Proof.
  destruct o as [r|id k v|id k]; [done|..]; cbn [rb_add rop_record]; unfold rb_PutParts, rb_DeleteParts, rb_Put, rb_Delete;
    (destruct (count_one rep); [|done]); cbn [mbind res_bind]; by rewrite !parts_concat.
Qed.

Lemma push_tag_eq rep plain cf id : push_tag rep plain cf id = rep ++ tag_bytes plain cf id.
Proof. unfold push_tag, tag_bytes, PutVarint32. destruct (id =? 0); [done|]. by rewrite <- app_assoc. Qed.

Lemma rcount_app l l' : rcount (l ++ l') = rcount l + rcount l'.
Proof. unfold rcount. induction l as [|r l IH]; [done|]. cbn [foldr app]. lia. Qed.

Lemma rcount_bounds l : 0 <= rcount l <= Z.of_nat (length l).
Proof. unfold rcount. induction l as [|r l IH]; [done|]. cbn [foldr length]. destruct r; cbn [counted]; lia. Qed.

Lemma rrecords_app l l' : rrecords_bytes (l ++ l') = rrecords_bytes l ++ rrecords_bytes l'.
Proof. unfold rrecords_bytes. by rewrite fmap_app, concat_app. Qed.

Lemma rb_add_ok rep seq l o :
  rb_is rep seq l -> rrecord_ok (rop_record o) -> rcount l + 1 < 2 ^ 31 ->
  exists rep', rb_add rep o = Ok rep' /\ rb_is rep' seq (l ++ [rop_record o]).
Proof.
  intros [Hl HH] Hr Hn. rewrite rb_add_record. generalize dependent (rop_record o). clear o. intros r Hr.
  assert (exists rep', rb_add rep (OAdd r) = Ok rep' /\
    header_is rep' seq (rcount l + counted r) (rrecords_bytes l ++ rrecord_bytes r)) as (rep' & E & HH').
  { assert (HC : forall (k : bytes -> bytes) more, (forall r, k r = r ++ more) ->
      exists rep', (r ← count_one rep; Ok (k r)) = Ok rep' /\ header_is rep' seq (rcount l + 1) (rrecords_bytes l ++ more)).
    { intros k more Hk. destruct (header_add rep seq (rcount l) _ k more HH Hn Hk) as (rep' & E & HH'). exists rep'.
      split; [|done]. rewrite <- E. unfold count_one. destruct (batch_Count rep) as [c|]; [|done]. cbn.
      by destruct (add_count c 1). }
    destruct r as [id k v|id k|id k v|x]; cbn in Hr; cbn [rb_add counted rrecord_bytes].
    1-3: apply HC; intros r; unfold fits in *; destruct_and!; rewrite !put_slice_eq, push_tag_eq by done; by rewrite <- !app_assoc.
    eexists. split; [done|]. unfold rb_PutLogData. rewrite put_slice_eq, <- app_assoc, Z.add_0_r by apply Hr.
    by apply header_append. }
  exists rep'. split; [done|]. split; [by apply Forall_app_2; [|apply Forall_singleton]|].
  rewrite rcount_app, rrecords_app. unfold rcount at 2, rrecords_bytes at 2. cbn. by rewrite app_nil_r, Z.add_0_r.
Qed.

Lemma rb_add_all_ok rep seq l ops :
  rb_is rep seq l -> Forall (fun o => rrecord_ok (rop_record o)) ops -> Z.of_nat (length l + length ops) < 2 ^ 31 ->
  exists rep', rb_add_all rep ops = Ok rep' /\ rb_is rep' seq (l ++ (rop_record <$> ops)).
Proof.
  intros HB Ho. revert rep l HB. induction Ho as [|o ops Hr _ IH]; intros rep l HB Hn; cbn [rb_add_all].
  { exists rep. by rewrite app_nil_r. }
  cbn in Hn. pose proof (rcount_bounds l). destruct (rb_add_ok rep seq l o HB Hr) as (rep1 & -> & HB1); [lia|].
  cbn [mbind res_bind]. destruct (IH rep1 _ HB1) as (rep2 & -> & HB2); [rewrite length_app; cbn; lia|].
  exists rep2. by rewrite <- app_assoc in HB2.
Qed.

Lemma rb_is_empty : rb_is rb_new 0 [].
Proof. split; [done|]. by split_and!. Qed.

(** ** Reading it back *)
Definition outs_of (o : outs) (r : rrecord) : outs :=
  match r with
  | RkPut id k v => Outs (rvt_val (if id =? 0 then RkTypeValue else RkTypeColumnFamilyValue)) id k v (o_blob o)
  | RkDelete id k => Outs (rvt_val (if id =? 0 then RkTypeDeletion else RkTypeColumnFamilyDeletion)) id k (o_value o) (o_blob o)
  | RkMerge id k v => Outs (rvt_val (if id =? 0 then RkTypeMerge else RkTypeColumnFamilyMerge)) id k v (o_blob o)
  | RkLog x => Outs (rvt_val RkTypeLogData) 0 (o_key o) (o_value o) x
  end.

Lemma read_key_ok msg k rest o : fits k ->
  read_key msg (put_slice k ++ rest) o = (RkOK, rest, Outs (o_tag o) (o_cf o) k (o_value o) (o_blob o)).
Proof. intros Hk. unfold read_key. by rewrite get_slice. Qed.

Lemma read_key_value_ok msg k v rest o : fits k -> fits v ->
  read_key_value msg (put_slice k ++ put_slice v ++ rest) o = (RkOK, rest, Outs (o_tag o) (o_cf o) k v (o_blob o)).
Proof. intros Hk Hv. unfold read_key_value. rewrite read_key_ok by done. by rewrite get_slice. Qed.

Lemma read_cf_ok msg id rest o next : 0 <= id < 2 ^ 32 ->
  read_cf msg (EncodeVarint32 id ++ rest) o next = next rest (Outs (o_tag o) id (o_key o) (o_value o) (o_blob o)).
Proof. intros Hid. unfold read_cf, GetVarint32. by rewrite varint32_get. Qed.

Lemma rtag_val t : byte.unsigned (rtag t) = rvt_val t.
Proof. by destruct t. Qed.

Lemma read_record_ok r rest o : rrecord_ok r ->
  ReadRecordFromWriteBatch (rrecord_bytes r ++ rest) o = Ok (RkOK, rest, outs_of o r).
Proof.
  intros Hr. destruct r as [id k v|id k|id k v|x]; cbn in Hr; cbn [rrecord_bytes outs_of]; unfold tag_bytes.
  1-3: destruct_and!; destruct (Z.eqb_spec id 0) as [->|]; cbn [app]; rewrite <- ?app_assoc; cbn [ReadRecordFromWriteBatch];
    f_equal; rewrite rtag_val; cbn -[read_key read_key_value read_cf lit]; rewrite <- ?app_assoc; rewrite ?read_cf_ok by done;
    first [rewrite read_key_value_ok by done|rewrite read_key_ok by done]; done.
  cbn [app ReadRecordFromWriteBatch]. rewrite rtag_val. cbn -[GetLengthPrefixedSlice lit]. by rewrite get_slice by done.
Qed.

Section Read.
Context {A : Type} (H : handler A).
Hypothesis go_on : forall a, Continue H a = true.

Lemma dispatch_ok h o r : dispatch H h (outs_of o r) = Some (handle_one H h r, counted r).
Proof. destruct r as [id k v|id k|id k v|x]; cbn [outs_of]; try (destruct (Z.eqb_spec id 0)); done. Qed.

Lemma rb_loop_records fuel l o found h :
  Forall rrecord_ok l -> 0 <= found -> found + rcount l < 2 ^ 31 -> (length (rrecords_bytes l) < fuel)%nat ->
  exists n, rb_loop H fuel (rrecords_bytes l) o RkOK found h =
    Some (Ok (fst (handle_all H h l), inl (snd (handle_all H h l), n))) /\
    (rk_ok (snd (handle_all H h l)) = true -> n = found + rcount l).
Proof.
  intros Hl. revert fuel o found h. induction Hl as [|r l Hr _ IH]; intros [|f] o found h H0 Hn Hf; try lia.
  { exists found. cbn. split; [done|lia]. }
  unfold rcount in Hn. cbn [foldr] in Hn. fold (rcount l) in Hn. pose proof (rcount_bounds l).
  change (rrecords_bytes (r :: l)) with (rrecord_bytes r ++ rrecords_bytes l) in *.
  assert (Hne : (1 <= length (rrecord_bytes r))%nat) by (destruct r; cbn; unfold tag_bytes; try case_match; cbn; lia).
  rewrite length_app in Hf. cbn [rb_loop rk_ok andb]. rewrite bool_decide_eq_false_2, go_on; cbn [negb andb].
  2:{ intros E. apply (f_equal length) in E. rewrite length_app in E. cbn in E. lia. }
  rewrite read_record_ok by done. cbn [rk_ok]. rewrite dispatch_ok. cbn [handle_all].
  destruct (handle_one H h r) as [h' s]. rewrite add_count_ok by (destruct r; cbn in *; lia).
  destruct (rk_ok s) eqn:Es.
  - destruct s; try done. destruct (IH f (outs_of (Outs 0 0 (o_key o) (o_value o) (o_blob o)) r) (found + counted r) h') as (n & E & En);
      [destruct r; cbn in *; lia|lia|lia|]. exists n. split; [done|]. intros Hok. rewrite En by done. unfold rcount. cbn [foldr]. lia.
  - destruct f as [|f]; [lia|]. exists (found + counted r). cbn [rb_loop fst snd]. rewrite Es. by cbn [andb].
Qed.

Lemma rb_iterate_ok rep seq l h : rb_is rep seq l -> rb_Iterate H rep h = Some (Ok (handle_all H h l)).
Proof.
  intros [Hl HH]. pose proof (header_parts _ _ _ _ HH) as (Hlen & _ & _ & Hd). pose proof HH as (_ & Hn & _).
  unfold rb_Iterate, kHeader. rewrite (proj2 (Nat.ltb_ge _ _)) by lia. rewrite Hd.
  destruct (rb_loop_records (S (length rep)) l (Outs 0 0 [] [] []) 0 h Hl) as (n & -> & En); [lia|lia| |].
  { rewrite <- Hd, length_drop. lia. }
  rewrite (surjective_pairing (handle_all H h l)). cbn [fst snd].
  destruct (snd (handle_all H h l)) as [|m|m] eqn:Es; cbn [rk_ok negb]; try done.
  rewrite (header_count _ _ _ _ HH). cbn [mbind res_bind]. rewrite En by done. by rewrite Z.add_0_l, Z.eqb_refl.
Qed.
End Read.

(** The bytes determine the batch. *)
Definition collect : handler (list rrecord) :=
  Handler (fun l id k v => (l ++ [RkPut id k v], RkOK)) (fun l id k => (l ++ [RkDelete id k], RkOK))
          (fun l id k v => (l ++ [RkMerge id k v], RkOK)) (fun l x => l ++ [RkLog x]) (fun _ => true).

Lemma collect_all acc l : handle_all collect acc l = (acc ++ l, RkOK).
Proof.
  revert acc. induction l as [|r l IH]; intros acc; cbn [handle_all]; [by rewrite app_nil_r|].
  assert (handle_one collect acc r = (acc ++ [r], RkOK)) as -> by by destruct r. cbn [rk_ok]. by rewrite IH, <- app_assoc.
Qed.

Lemma rb_is_inj rep seq l seq' l' : rb_is rep seq l -> rb_is rep seq' l' -> l = l'.
Proof.
  intros HB HB'. pose proof (rb_iterate_ok collect (fun _ => eq_refl) _ _ _ [] HB) as E.
  rewrite (rb_iterate_ok collect (fun _ => eq_refl) _ _ _ [] HB'), !collect_all in E. by injection E.
Qed.

(** C14. What goes into a RocksDB batch comes out of it.  A batch built by any of
    the calls that add to it - also those that take a key and a value in parts,
    which come out joined - appended to another one and given a sequence number
    keeps that number; and [Iterate] hands a handler exactly the records, each
    with its column family, in order, up to the first one the handler objects
    to, and gives back what the handler said. *)
Theorem rocks_batch_roundtrip {A} (H : handler A) h ops ops' seq :
  (forall a, Continue H a = true) -> Forall (fun o => rrecord_ok (rop_record o)) (ops ++ ops') ->
  Z.of_nat (length (ops ++ ops')) < 2 ^ 31 -> 0 <= seq < 2 ^ 64 ->
  exists a b c rep, rb_add_all rb_new ops = Ok a /\ rb_add_all rb_new ops' = Ok b /\
    rb_Append a b = Ok c /\ batch_SetSequence c seq = Ok rep /\ batch_Sequence rep = Ok seq /\
    rb_Iterate H rep h = Some (Ok (handle_all H h (rop_record <$> ops ++ ops'))).
Proof.
  intros Hgo [Ho Ho']%Forall_app Hn Hs. rewrite length_app in Hn.
  destruct (rb_add_all_ok rb_new 0 [] ops rb_is_empty Ho ltac:(cbn; lia)) as (a & Ea & HA).
  destruct (rb_add_all_ok rb_new 0 [] ops' rb_is_empty Ho' ltac:(cbn; lia)) as (b & Eb & HB). cbn [app] in HA, HB.
  pose proof (rcount_bounds (rop_record <$> ops)) as R1. pose proof (rcount_bounds (rop_record <$> ops')) as R2.
  rewrite length_fmap in R1, R2. destruct HA as [HA1 HA], HB as [HB1 HB].
  destruct (header_parts _ _ _ _ HB) as (Hlb & _ & _ & Hdb).
  destruct (header_set_count _ _ _ _ HA (rcount (rop_record <$> ops) + rcount (rop_record <$> ops'))) as (a' & Ea' & HA'); [lia|].
  destruct (header_set_sequence _ _ _ _ (header_append _ _ _ _ HA' (drop 12 b)) seq Hs) as (rep & Er & HR).
  exists a, b, (a' ++ drop 12 b), rep. split; [done|]. split; [done|]. split.
  { unfold rb_Append, batch_Append. rewrite (header_count _ _ _ _ HA), (header_count _ _ _ _ HB). cbn [mbind res_bind].
    rewrite add_count_ok by lia. cbn [mbind res_bind]. rewrite Ea'. cbn [mbind res_bind]. unfold kHeader.
    by rewrite (proj2 (Nat.leb_le _ _)) by lia. }
  split; [done|]. split; [exact (header_sequence _ _ _ _ HR)|]. apply (rb_iterate_ok H Hgo _ seq).
  rewrite fmap_app. split; [by apply Forall_app|]. by rewrite rcount_app, rrecords_app, <- Hdb.
Qed.

Lemma rocks_batch_roundtrip_witness : exists a b c rep,
  rb_add_all rb_new [OPutParts 3 [lit "k"; lit "1"] [lit "v"]] = Ok a /\
  rb_add_all rb_new [OAdd (RkDelete 0 (lit "j")); OAdd (RkLog (lit "x"))] = Ok b /\
  rb_Append a b = Ok c /\ batch_SetSequence c 7 = Ok rep /\ batch_Sequence rep = Ok 7 /\
  rb_Iterate collect rep [] = Some (Ok ([RkPut 3 (lit "k1") (lit "v"); RkDelete 0 (lit "j"); RkLog (lit "x")], RkOK)).
Proof.
  apply (rocks_batch_roundtrip collect [] [OPutParts 3 [lit "k"; lit "1"] [lit "v"]]
    [OAdd (RkDelete 0 (lit "j")); OAdd (RkLog (lit "x"))] 7); [done| |cbn; lia|lia].
  unfold app. repeat (apply Forall_cons; split); [..|constructor]; cbn; unfold fits; cbn; lia.
Defined.
