(* ===== verification/LsmApi.v ===== *)
(** * The interface of LevelDB and RocksDB

    What the bindings of src/src/leveldb and src/src/rocksdb call: databases of
    one or several column families, iterators over a snapshot, statuses.  As
    for LMDB, [allowed] is what the headers (leveldb/db.h, leveldb/iterator.h,
    rocksdb/db.h) ask of a caller and [answers] what they promise.  The keys of
    a family are kept in the order of its comparator. *)
From S2P Require Import Prelude Prog Store LmdbApi LvlFormat LvlBatch RocksBatch.

(** A status by what the bindings ask it: ok, [IsNotFound], and the text of
    [ToString]. *)
Inductive lstatus := LOk | LNotFound (text : bytes) | LError (text : bytes).

Definition ls_ok (s : lstatus) : bool := match s with LOk => true | _ => false end.
Definition ls_IsNotFound (s : lstatus) : bool := match s with LNotFound _ => true | _ => false end.
Definition ls_ToString (s : lstatus) : bytes :=
  match s with LOk => lit "OK" | LNotFound t | LError t => t end.

Inductive it_fn := SeekToFirst | SeekToLast | Next | Prev.

(** LevelDB has one family; RocksDB is given the handle of one, and has the
    number of one in a batch. *)
Inductive family := Default | Handle (h : ptr) | Numbered (id : Z).

(** The writes of a batch give it back: the engine stores the sequence number
    in it. *)
Inductive lsm_call : Type -> Type :=
| NewLRUCache (capacity : Z) : lsm_call nat
| level_Open (path : bytes) (create_if_missing : bool) (cache : ptr) (c : comparator) : lsm_call (lstatus * ptr)
| rocks_Open (path : bytes) (write_buffer : option Z) (descs : list (bytes * comparator)) : lsm_call (lstatus * (ptr * list nat))
| GetColumnFamilyID (h : ptr) : lsm_call Z
| lsm_Get (d : ptr) (cf : family) (k : bytes) : lsm_call (lstatus * bytes)
| lsm_Put (d : ptr) (cf : family) (k v : bytes) : lsm_call lstatus
| lsm_Delete (d : ptr) (cf : family) (k : bytes) : lsm_call lstatus
| level_Write (d : ptr) (rep : bytes) : lsm_call (lstatus * bytes)
| rocks_Write (d : ptr) (rep : bytes) : lsm_call (lstatus * bytes)
| lsm_NewIterator (d : ptr) (cf : family) : lsm_call nat
| it_move (it : ptr) (fn : it_fn) : lsm_call unit
| it_Seek (it : ptr) (k : bytes) : lsm_call unit
| it_Valid (it : ptr) : lsm_call bool
| it_key (it : ptr) : lsm_call bytes
| it_value (it : ptr) : lsm_call bytes
| delete_iter (it : ptr) : lsm_call unit
| delete_handle (h : ptr) : lsm_call unit
| delete_db (d : ptr) : lsm_call unit
| delete_cache (c : ptr) : lsm_call unit.

(** ** Abstract state *)
Record fam_st := Fam { f_id : Z; f_cmp : comparator; f_data : entries }.
Record ldb_st := LDb { ld_fams : list fam_st; ld_cache : ptr }.

(** An iterator sees the entries there were when it was made. *)
Record it_st := It { it_db : nat; it_cmp : comparator; it_data : entries; it_pos : option nat }.

Record lsm := Lsm {
  l_dbs : gmap nat ldb_st;
  l_handles : gmap nat (nat * nat);    (* the database and the number of the family *)
  l_its : gmap nat it_st;
  l_caches : gset nat
}.

Definition lsm0 : lsm := Lsm ∅ ∅ ∅ ∅.

Definition up_dbs (f : gmap nat ldb_st -> gmap nat ldb_st) (s : lsm) : lsm :=
  Lsm (f (l_dbs s)) (l_handles s) (l_its s) (l_caches s).
Definition up_its (f : gmap nat it_st -> gmap nat it_st) (s : lsm) : lsm :=
  Lsm (l_dbs s) (l_handles s) (f (l_its s)) (l_caches s).
Definition up_handles (f : gmap nat (nat * nat) -> gmap nat (nat * nat)) (s : lsm) : lsm :=
  Lsm (l_dbs s) (f (l_handles s)) (l_its s) (l_caches s).
Definition up_caches (f : gset nat -> gset nat) (s : lsm) : lsm :=
  Lsm (l_dbs s) (l_handles s) (l_its s) (f (l_caches s)).

(** A database goes after the handles of its families: RocksDB asserts that no
    one holds a family when it deletes it.  Those that are left are not freed
    with it, but no longer of use. *)
Definition drop_db (d : nat) (s : lsm) : lsm :=
  up_handles (filter (fun x => fst (snd x) <> d)) (up_dbs (delete d) s).

(** The family a call is about. *)
Definition fam_index (s : lsm) (d : nat) (x : ldb_st) (cf : family) : option nat :=
  match cf with
  | Default => Some 0%nat
  | Numbered id => fst <$> list_find (fun f => f_id f = id) (ld_fams x)
  | Handle None => None
  | Handle (Some h) => p ← l_handles s !! h; if decide (fst p = d) then Some (snd p) else None
  end.

Definition find_fam (s : lsm) (d : ptr) (cf : family) : option (nat * nat * fam_st) :=
  d ← d; x ← l_dbs s !! d; i ← fam_index s d x cf; f ← ld_fams x !! i; Some (d, i, f).

Definition handle_fam (s : lsm) (h : nat) : option fam_st :=
  p ← l_handles s !! h; x ← l_dbs s !! fst p; ld_fams x !! snd p.

Definition set_fam (d i : nat) (f : fam_st) (s : lsm) : lsm :=
  up_dbs (alter (fun x => LDb (<[i := f]> (ld_fams x)) (ld_cache x)) d) s.

Definition rec_key (r : record) : bytes := match r with RPut k _ => k | RDelete k => k end.

Definition do_record (r : record) (f : fam_st) : fam_st :=
  Fam (f_id f) (f_cmp f) (match r with
                          | RPut k v => s_put (f_cmp f) None k v (f_data f)
                          | RDelete k => s_del (f_cmp f) k (f_data f)
                          end).

(** The records of a RocksDB batch; no merge operator is set, so it has no
    merges. *)
Fixpoint batch_records (l : list rrecord) : option (list (family * record)) :=
  match l with
  | [] => Some []
  | RkPut id k v :: l' => cons (Numbered id, RPut k v) <$> batch_records l'
  | RkDelete id k :: l' => cons (Numbered id, RDelete k) <$> batch_records l'
  | RkMerge _ _ _ :: _ => None
  | RkLog _ :: l' => batch_records l'
  end.

(** The records of a batch, each to its family. *)
Fixpoint do_records (d : ptr) (l : list (family * record)) (s : lsm) : option lsm :=
  match l with
  | [] => Some s
  | (cf, r) :: l' =>
      p ← find_fam s d cf;
      let '(d0, i, f) := p in
      if dom (f_cmp f) (rec_key r) then do_records d l' (set_fam d0 i (do_record r f) s) else None
  end.

Definition it_go (x : it_st) (fn : it_fn) : option nat :=
  match fn with
  | SeekToFirst => if decide (it_data x = []) then None else Some 0%nat
  | SeekToLast => last_index (it_data x)
  | Next => p ← it_pos x; if (S p <? length (it_data x))%nat then Some (S p) else None
  | Prev => p ← it_pos x; match p with O => None | S p' => Some p' end
  end.

Definition it_seek (x : it_st) (k : bytes) : option nat :=
  s_find (fun p => 0 <=? cmp (it_cmp x) (fst p) k) (it_data x).

Definition it_at (x : it_st) : option (bytes * bytes) := p ← it_pos x; it_data x !! p.
Definition set_pos (o : option nat) (x : it_st) : it_st := It (it_db x) (it_cmp x) (it_data x) o.

Definition get_it (s : lsm) (it : ptr) : option it_st := i ← it; l_its s !! i.

(** ** What a caller must see to *)
Definition lsm_allowed {X} (s : lsm) (c : lsm_call X) : Prop :=
  match c with
  | NewLRUCache _ => True
  | level_Open _ _ cache _ => match cache with Some c => c ∈ l_caches s | None => True end
  | rocks_Open _ _ descs =>
      fst <$> head descs = Some (lit "default") /\ NoDup (fst <$> descs) /\ Z.of_nat (length descs) < 2 ^ 32
  | GetColumnFamilyID h => match h with Some h => is_Some (handle_fam s h) | None => True end
  | lsm_Get d cf k | lsm_Put d cf k _ | lsm_Delete d cf k =>
      exists d0 i f, find_fam s d cf = Some (d0, i, f) /\ dom (f_cmp f) k = true
  | level_Write d rep => exists seq l, batch_is rep seq l /\ is_Some (do_records d ((Default,.) <$> l) s)
  | rocks_Write d rep => exists seq l recs, rb_is rep seq l /\ batch_records l = Some recs /\ is_Some (do_records d recs s)
  | lsm_NewIterator d cf => is_Some (find_fam s d cf)
  | it_move it SeekToFirst | it_move it SeekToLast | it_Valid it => is_Some (get_it s it)
  | it_Seek it k => exists x, get_it s it = Some x /\ dom (it_cmp x) k = true
  | it_move it Next | it_move it Prev | it_key it | it_value it =>
      exists x, get_it s it = Some x /\ is_Some (it_at x)
  | delete_iter it => is_Some (get_it s it)
  | delete_handle h => match h with Some h => is_Some (l_handles s !! h) | None => True end
  | delete_db d =>
      match d with
      | Some d => is_Some (l_dbs s !! d) /\ (forall i x, l_its s !! i = Some x -> it_db x <> d) /\
          (forall h p, l_handles s !! h = Some p -> fst p <> d)
      | None => True
      end
  | delete_cache c =>
      match c with
      | Some c => c ∈ l_caches s /\ (forall d x, l_dbs s !! d = Some x -> ld_cache x <> Some c)
      | None => True
      end
  end.

(** ** What the engine answers *)

(** A write that is reported to have failed may have been done or not. *)
Definition written (st : lstatus) (s s1 s' : lsm) : Prop :=
  st = LOk /\ s' = s1 \/ (exists t, st = LError t) /\ (s' = s \/ s' = s1).

Definition lsm_answers {X} (s : lsm) (c : lsm_call X) : X -> lsm -> Prop :=
  match c with
  | NewLRUCache _ => fun c s' => (c ∉ l_caches s) /\ s' = up_caches (fun x => {[c]} ∪ x) s
  | level_Open _ _ cache kc => fun r s' =>
      (exists d l, r = (LOk, Some d) /\ l_dbs s !! d = None /\ store_wf kc None l /\
         s' = up_dbs <[d := LDb [Fam 0 kc l] cache]> s) \/
      (exists t o, r = (LError t, o)) /\ s' = s
  | rocks_Open _ _ descs => fun r s' =>
      (exists d hs fams, r = (LOk, (Some d, hs)) /\ l_dbs s !! d = None /\
         f_cmp <$> fams = snd <$> descs /\ Forall (fun f => store_wf (f_cmp f) None (f_data f)) fams /\
         (f_id <$> head fams = Some 0 /\ NoDup (f_id <$> fams) /\ Forall (fun f => 0 <= f_id f < 2 ^ 32) fams) /\
         length hs = length descs /\ NoDup hs /\ (forall h, h ∈ hs -> l_handles s !! h = None) /\
         s' = up_handles (fun m => list_to_map (imap (fun i h => (h, (d, i))) hs) ∪ m)
                (up_dbs <[d := LDb fams None]> s)) \/
      (exists t o, r = (LError t, (o, []))) /\ s' = s
  | GetColumnFamilyID h => fun id s' => s' = s /\
      match h with
      | Some h => exists f, handle_fam s h = Some f /\ id = f_id f
      | None => id = 0
      end
  | lsm_Get d cf k => fun r s' => s' = s /\ exists d0 i f, find_fam s d cf = Some (d0, i, f) /\
      (match s_get (f_cmp f) k (f_data f) with
       | Some v => r = (LOk, v)
       | None => exists v, r = (LNotFound (lit "NotFound: "), v)
       end \/ exists t v, r = (LError t, v))
  | lsm_Put d cf k v => fun st s' => exists s1, do_records d [(cf, RPut k v)] s = Some s1 /\ written st s s1 s'
  | lsm_Delete d cf k => fun st s' => exists s1, do_records d [(cf, RDelete k)] s = Some s1 /\ written st s s1 s'
  | level_Write d rep => fun r s' => exists seq l s1, batch_is rep seq l /\
      do_records d ((Default,.) <$> l) s = Some s1 /\ written (fst r) s s1 s' /\
      exists seq', batch_is (snd r) seq' l
  | rocks_Write d rep => fun r s' => exists seq l recs s1, rb_is rep seq l /\ batch_records l = Some recs /\
      do_records d recs s = Some s1 /\ written (fst r) s s1 s' /\ exists seq', rb_is (snd r) seq' l
  | lsm_NewIterator d cf => fun it s' => exists d0 i f, find_fam s d cf = Some (d0, i, f) /\
      l_its s !! it = None /\ s' = up_its <[it := It d0 (f_cmp f) (f_data f) None]> s
  | it_move it fn => fun _ s' => exists i x, it = Some i /\ l_its s !! i = Some x /\
      s' = up_its <[i := set_pos (it_go x fn) x]> s
  | it_Seek it k => fun _ s' => exists i x, it = Some i /\ l_its s !! i = Some x /\
      s' = up_its <[i := set_pos (it_seek x k) x]> s
  | it_Valid it => fun b s' => s' = s /\ exists x, get_it s it = Some x /\ b = bool_decide (is_Some (it_at x))
  | it_key it => fun k s' => s' = s /\ exists x v, get_it s it = Some x /\ it_at x = Some (k, v)
  | it_value it => fun v s' => s' = s /\ exists x k, get_it s it = Some x /\ it_at x = Some (k, v)
  | delete_iter it => fun _ s' => exists i, it = Some i /\ s' = up_its (delete i) s
  | delete_handle h => fun _ s' => s' = match h with Some h => up_handles (delete h) s | None => s end
  | delete_db d => fun _ s' => s' = match d with Some d => drop_db d s | None => s end
  | delete_cache c => fun _ s' => s' = match c with Some c => up_caches (fun x => x ∖ {[c]}) s | None => s end
  end.

Definition LSM : api lsm_call := Api lsm (fun X => @lsm_allowed X) (fun X => @lsm_answers X).

(** An engine whose reads and writes do not fail. *)
Definition lsm_sound {X} (c : lsm_call X) : X -> Prop :=
  match c with
  | level_Open _ _ _ _ => fun r => ls_ok (fst r) = true
  | rocks_Open _ _ _ => fun r => ls_ok (fst r) = true
  | lsm_Get _ _ _ => fun r => match fst r with LError _ => False | _ => True end
  | lsm_Put _ _ _ _ | lsm_Delete _ _ _ => fun st => st = LOk
  | level_Write _ _ | rocks_Write _ _ => fun r => fst r = LOk
  | _ => fun _ => True
  end.

Definition LSM_sure : api lsm_call :=
  Api lsm (fun X => @lsm_allowed X) (fun X s c x s' => @lsm_answers X s c x s' /\ @lsm_sound X c x).
