(* ===== verification/LsmEngine.v ===== *)
(** * A reference engine

    An executable database that conforms to the contract of [LsmApi]: the
    contract can be met, and the bindings can be run on it.  It never fails. *)
From S2P Require Import Prelude Prog Store LmdbApi LvlBase LvlFormat LvlBatch RocksBatch LsmApi.

(** A handle that is not in use. *)
Definition above (l : list nat) : nat := S (foldr Nat.max 0%nat l).
Definition fresh_id {A} (m : gmap nat A) : nat := above (fst <$> map_to_list m).

(** The records of a batch, as [Iterate] hands them out. *)
Definition records_of (rep : bytes) : list record :=
  match batch_Iterate (fun l r => l ++ [r]) rep [] with Some (Ok (l, _)) => l | _ => [] end.

Definition rrecords_of (rep : bytes) : list (family * record) :=
  match rb_Iterate collect rep [] with Some (Ok (l, _)) => default [] (batch_records l) | _ => [] end.

Definition lsm_write (d : ptr) (l : list (family * record)) (s : lsm) : lstatus * lsm :=
  match do_records d l s with Some s' => (LOk, s') | None => (LError (lit "IO error: "), s) end.

Definition new_fams (descs : list (bytes * comparator)) : list fam_st :=
  imap (fun i p => Fam (Z.of_nat i) (snd p) []) descs.

Definition upd_it (it : ptr) (f : it_st -> option nat) (s : lsm) : lsm :=
  match it with
  | Some i => match l_its s !! i with Some x => up_its <[i := set_pos (f x) x]> s | None => s end
  | None => s
  end.

Definition lsm_exec (X : Type) (c : lsm_call X) (s : lsm) : X * lsm :=
  match c in lsm_call X return X * lsm with
  | NewLRUCache _ => let c := above (elements (l_caches s)) in (c, up_caches (fun x => {[c]} ∪ x) s)
  | level_Open _ _ cache kc =>
      let d := fresh_id (l_dbs s) in ((LOk, Some d), up_dbs <[d := LDb [Fam 0 kc []] cache]> s)
  | rocks_Open _ _ descs =>
      let d := fresh_id (l_dbs s) in
      let hs := seq (fresh_id (l_handles s)) (length descs) in
      ((LOk, (Some d, hs)),
       up_handles (fun m => list_to_map (imap (fun i h => (h, (d, i))) hs) ∪ m)
         (up_dbs <[d := LDb (new_fams descs) None]> s))
  | GetColumnFamilyID h => (default 0 (h ← h; f ← handle_fam s h; Some (f_id f)), s)
  | lsm_Get d cf k =>
      (match find_fam s d cf with
       | Some (_, _, f) =>
           match s_get (f_cmp f) k (f_data f) with
           | Some v => (LOk, v)
           | None => (LNotFound (lit "NotFound: "), [])
           end
       | None => (LError (lit "IO error: "), [])
       end, s)
  | lsm_Put d cf k v => lsm_write d [(cf, RPut k v)] s
  | lsm_Delete d cf k => lsm_write d [(cf, RDelete k)] s
  | level_Write d rep =>
      let r := lsm_write d ((Default,.) <$> records_of rep) s in ((fst r, rep), snd r)
  | rocks_Write d rep => let r := lsm_write d (rrecords_of rep) s in ((fst r, rep), snd r)
  | lsm_NewIterator d cf =>
      let it := fresh_id (l_its s) in
      (it, match find_fam s d cf with
           | Some (d0, _, f) => up_its <[it := It d0 (f_cmp f) (f_data f) None]> s
           | None => s
           end)
  | it_move it fn => (tt, upd_it it (fun x => it_go x fn) s)
  | it_Seek it k => (tt, upd_it it (fun x => it_seek x k) s)
  | it_Valid it => (match get_it s it with Some x => bool_decide (is_Some (it_at x)) | None => false end, s)
  | it_key it => (default [] (x ← get_it s it; p ← it_at x; Some (fst p)), s)
  | it_value it => (default [] (x ← get_it s it; p ← it_at x; Some (snd p)), s)
  | delete_iter it => (tt, match it with Some i => up_its (delete i) s | None => s end)
  | delete_handle h => (tt, match h with Some h => up_handles (delete h) s | None => s end)
  | delete_db d => (tt, match d with Some d => drop_db d s | None => s end)
  | delete_cache c => (tt, match c with Some c => up_caches (fun x => x ∖ {[c]}) s | None => s end)
  end.

(** ** Conformance *)
Lemma above_spec l n : n ∈ l -> (n < above l)%nat.
Proof.
  unfold above. induction l as [|m l IH]; [by intros ?%elem_of_nil|]. cbn. intros [->|H%IH]%elem_of_cons; lia.
Qed.

Lemma fresh_id_above {A} (m : gmap nat A) n : (fresh_id m <= n)%nat -> m !! n = None.
Proof.
  intros Hn. destruct (m !! n) as [x|] eqn:E; [|done]. apply elem_of_map_to_list in E.
  assert (n < fresh_id m)%nat; [|lia]. apply above_spec, list_elem_of_fmap. by exists (n, x).
Qed.

Lemma records_of_spec rep seq l : batch_is rep seq l -> records_of rep = l.
Proof.
  intros HB. unfold records_of. rewrite (iterate_batch _ rep seq l [] HB).
  assert (F : forall acc m, foldl (fun l r => l ++ [r]) acc m = acc ++ m :> list record); [|by rewrite F].
  intros acc m. revert acc. induction m as [|r m IH]; intros acc; cbn; [by rewrite app_nil_r|]. by rewrite IH, <- app_assoc.
Qed.

Lemma rrecords_of_spec rep seq l recs : rb_is rep seq l -> batch_records l = Some recs -> rrecords_of rep = recs.
Proof.
  intros HB E. unfold rrecords_of. rewrite (rb_iterate_ok collect (fun _ => eq_refl) _ _ _ [] HB), collect_all. cbn [app].
  by rewrite E.
Qed.

Lemma new_fams_spec descs :
  f_cmp <$> new_fams descs = snd <$> descs /\ Forall (fun f => store_wf (f_cmp f) None (f_data f)) (new_fams descs) /\
  f_id <$> new_fams descs = Z.of_nat <$> seq 0 (length descs).
Proof.
  unfold new_fams. split_and!.
  - apply list_eq. intros i. rewrite !list_lookup_fmap, list_lookup_imap. by destruct (descs !! i).
  - apply Forall_lookup. intros i f. rewrite list_lookup_imap. destruct (descs !! i); [|done]. intros [= <-]. split; constructor.
  - apply list_eq. intros i. rewrite !list_lookup_fmap, list_lookup_imap.
    destruct (descs !! i) as [p|] eqn:E; cbn; [rewrite lookup_seq_lt by (by apply lookup_lt_Some in E); done|].
    by rewrite lookup_seq_ge by (by apply lookup_ge_None).
Qed.

Lemma write_ok d l s : is_Some (do_records d l s) ->
  exists s1, do_records d l s = Some s1 /\ lsm_write d l s = (LOk, s1).
Proof. intros [s1 E]. exists s1. split; [done|]. unfold lsm_write. by rewrite E. Qed.

Lemma one_record d cf r s d0 i f :
  find_fam s d cf = Some (d0, i, f) -> dom (f_cmp f) (rec_key r) = true -> is_Some (do_records d [(cf, r)] s).
Proof. intros Hf Hd. cbn [do_records]. rewrite Hf. cbn [mbind option_bind]. rewrite Hd. by eexists. Qed.

Lemma upd_it_spec it f s x : get_it s it = Some x ->
  exists i, it = Some i /\ l_its s !! i = Some x /\ upd_it it f s = up_its <[i := set_pos (f x) x]> s.
Proof. destruct it as [i|]; cbn; [|done]. intros Hx. exists i. by rewrite Hx. Qed.

Lemma lsm_exec_ok X (c : lsm_call X) s :
  lsm_allowed s c -> lsm_answers s c (fst (lsm_exec X c s)) (snd (lsm_exec X c s)) /\ lsm_sound c (fst (lsm_exec X c s)).
Proof.
  assert (HM : forall it x f, get_it s it = Some x -> exists i y, it = Some i /\ l_its s !! i = Some y /\
    upd_it it f s = up_its <[i := set_pos (f y) y]> s).
  { intros it x f Hx. destruct (upd_it_spec it f s x Hx) as (i & ? & ? & ?). by exists i, x. }
  assert (HW : forall d l, is_Some (do_records d l s) -> exists s1, do_records d l s = Some s1 /\
    written (fst (lsm_write d l s)) s s1 (snd (lsm_write d l s)) /\ fst (lsm_write d l s) = LOk).
  { intros d l Hl. destruct (write_ok d l s Hl) as (s1 & E & ->). exists s1. split; [done|]. split; [by left|done]. }
  destruct c; cbn; intros HA.
  - split; [|done]. split; [|done]. intros Hin%elem_of_elements%above_spec. lia.
  - split; [|done]. left. eexists _, []. split; [done|]. split; [by apply fresh_id_above|].
    split; [split; repeat constructor|done].
  - destruct HA as (Hh & _ & Hlen). destruct (new_fams_spec descs) as (H1 & H2 & H3). split; [|done]. left.
    eexists _, _, (new_fams descs). split; [done|]. split; [by apply fresh_id_above|]. split; [done|]. split; [done|].
    split; [|split; [apply length_seq|split; [apply NoDup_seq|split; [|done]]; intros h [Hh' _]%elem_of_seq; by apply fresh_id_above]].
    split; [by destruct descs|]. split; [rewrite H3; apply NoDup_fmap; [intros ? ?; lia|apply NoDup_seq]|].
    apply Forall_lookup. intros i f Hf. apply (f_equal (.!! i)) in H3. rewrite !list_lookup_fmap, Hf in H3.
    destruct (seq 0 (length descs) !! i) as [j|] eqn:E; [|done]. apply lookup_seq in E as [-> ?]. cbn in H3. injection H3 as ->. lia.
  - split; [|done]. split; [done|]. destruct h as [h|]; [|done]. destruct HA as [f Hf]. cbn. rewrite Hf. by exists f.
  - destruct HA as (d0 & i & f & Hf & Hd). rewrite Hf. split; [|by destruct (s_get _ _ _)]. split; [done|].
    exists d0, i, f. split; [done|]. left. destruct (s_get _ _ _); [done|by eexists].
  - destruct HA as (d0 & i & f & Hf & Hd). destruct (HW d [(cf, RPut k v)]) as (s1 & ? & ? & ?); [by eapply one_record|].
    split; [by exists s1|done].
  - destruct HA as (d0 & i & f & Hf & Hd). destruct (HW d [(cf, RDelete k)]) as (s1 & ? & ? & ?); [by eapply one_record|].
    split; [by exists s1|done].
  - destruct HA as (sq & l & HB & Hs). rewrite (records_of_spec _ _ _ HB).
    destruct (HW d ((Default,.) <$> l) Hs) as (s1 & ? & ? & ?). split; [|done]. exists sq, l, s1. split_and!; try done. by exists sq.
  - destruct HA as (sq & l & recs & HB & Hl & Hs). rewrite (rrecords_of_spec _ _ _ _ HB Hl).
    destruct (HW d recs Hs) as (s1 & ? & ? & ?). split; [|done]. exists sq, l, recs, s1. split_and!; try done. by exists sq.
  - destruct HA as [[[d0 i] f] Hf]. rewrite Hf. split; [|done]. exists d0, i, f. split_and!; try done. by apply fresh_id_above.
  - split; [|by destruct fn]. destruct fn; [destruct HA as [x Hx]|destruct HA as [x Hx]|destruct HA as (x & Hx & _)|destruct HA as (x & Hx & _)];
      eapply (HM it x (fun x => it_go x _) Hx).
  - destruct HA as (x & Hx & _). split; [|done]. eapply (HM it x (fun x => it_seek x k) Hx).
  - destruct HA as [x Hx]. rewrite Hx. split; [|done]. split; [done|]. by exists x.
  - destruct HA as (x & Hx & [[k v] Hp]). rewrite Hx. cbn. rewrite Hp. split; [|done]. split; [done|]. by exists x, v.
  - destruct HA as (x & Hx & [[k v] Hp]). rewrite Hx. cbn. rewrite Hp. split; [|done]. split; [done|]. by exists x, k.
  - destruct HA as [x Hx]. split; [|done]. destruct it as [i|]; [|done]. by exists i.
  - done.
  - done.
  - done.
Qed.

#[export] Instance lsm_conforms : Engine LSM lsm_exec eq.
Proof. intros X c w s -> HA. eexists. split; [by apply lsm_exec_ok|done]. Qed.

#[export] Instance lsm_conforms_sure : Engine LSM_sure lsm_exec eq.
Proof. intros X c w s -> HA. eexists. split; [by apply lsm_exec_ok|done]. Qed.
