(* ===== verification/LvlBind.v ===== *)
(** * The LevelDB binding

    src/src/leveldb: the class templates [db] and [cursor] and the class
    [batch], method by method, over the calls of [LsmApi].  An optional batch
    argument is the object it refers to, or [None] when it is not an object.
    The bodies that the RocksDB binding repeats word for word take the database
    and the family the call goes to. *)
From S2P Require Import Prelude Nan KvTypes Prog Store LmdbApi LvlFormat LvlBatch LsmApi.

(** ** The comparator of a key type *)
Definition lvl_comparator (K : kv_type) : comparator :=
  match get_cmp K with
  | Some n => Cmp (fun a b => match cmp_Compare n a b with Ok z => z | Ub _ => 0 end)
                  (fun b => (length b =? num_sizeof n)%nat)
  | None => lexical
  end.

(** [s.ToString().c_str()] *)
Definition status_text (s : lstatus) : bytes := default [] (c_str (ls_ToString s ++ [NUL])).

(** ** Bodies shared with RocksDB *)
Section Bodies.
Context `{V8} {Hp : Type} (K V : kv_type).
Abbreviation bmeth := (meth lsm_call Hp).

Definition throw_status (s : lstatus) (i : info) : info := throw_error (status_text s) i.

Definition get_body (d : ptr) (cf : family) (a : value) : bmeth info :=
  key ← pure (kv_encode K a);
  r ← ffi (lsm_Get d cf key);
  let s := fst r in
  let i := if ls_IsNotFound s then set_ret v_null info0 else info0 in
  if negb (ls_ok s) then mret (throw_status s i)
  else x ← pure (kv_decode V (snd r) (length (snd r))); mret (set_ret x i).

Definition done_status (s : lstatus) : info := if negb (ls_ok s) then throw_status s info0 else info0.

Definition put_body (d : ptr) (cf : family) (key val : bytes) : bmeth info :=
  s ← ffi (lsm_Put d cf key val); mret (done_status s).

Definition del_body (d : ptr) (cf : family) (key : bytes) : bmeth info :=
  s ← ffi (lsm_Delete d cf key); mret (done_status s).

(** [cursorOp<FN>] *)
Definition cursorOp_body (it : ptr) (fn : it_fn) : bmeth info :=
  ffi (it_move it fn) ;;
  b ← ffi (it_Valid it);
  mret (set_ret (v_bool b) info0).

Definition key_body (it : ptr) : bmeth info :=
  b ← ffi (it_Valid it);
  let i := if negb b then set_ret v_null info0 else info0 in
  key ← ffi (it_key it);
  x ← pure (kv_decode K key (length key));
  mret (set_ret x i).

Definition value_body (it : ptr) : bmeth info :=
  b ← ffi (it_Valid it);
  let i := if negb b then set_ret v_null info0 else info0 in
  val ← ffi (it_value it);
  x ← pure (kv_decode V val (length val));
  mret (set_ret x i).

Definition gte_body (it : ptr) (a : value) : bmeth info :=
  key ← pure (kv_encode K a);
  ffi (it_Seek it key) ;;
  b ← ffi (it_Valid it);
  mret (set_ret (v_bool b) info0).
End Bodies.

(** ** Objects *)
Record ldb := LDB { ldb_key : kv_type; ldb_val : kv_type; ldb_db : ptr; ldb_cache : ptr }.
Record lcursor := LCursor { lc_key : kv_type; lc_val : kv_type; lc_cursor : ptr }.
Record lbatch := LBatch { lb_rep : bytes }.

Record lheap := LHeap { lh_db : gmap nat ldb; lh_cur : gmap nat lcursor; lh_batch : gmap nat lbatch }.

Definition lheap0 : lheap := LHeap ∅ ∅ ∅.

Definition lup_db (f : gmap nat ldb -> gmap nat ldb) (h : lheap) : lheap := LHeap (f (lh_db h)) (lh_cur h) (lh_batch h).
Definition lup_cur (f : gmap nat lcursor -> gmap nat lcursor) (h : lheap) : lheap := LHeap (lh_db h) (f (lh_cur h)) (lh_batch h).
Definition lup_batch (f : gmap nat lbatch -> gmap nat lbatch) (h : lheap) : lheap := LHeap (lh_db h) (lh_cur h) (f (lh_batch h)).

Abbreviation vmeth := (meth lsm_call lheap).

(** [batch::ctor], [batch::clear] and the implicit destructor *)
Section Batch.
Context `{V8}.

Definition get_lbatch (j : nat) : vmeth lbatch := unwrap (fun h => lh_batch h !! j).

Definition lvl_batch_ctor (j : nat) : vmeth info :=
  modify (lup_batch <[j := LBatch WriteBatch]>) ;; mret (set_ret (v_object j) info0).

Definition lvl_batch_clear (j : nat) : vmeth info :=
  get_lbatch j ;; modify (lup_batch <[j := LBatch batch_Clear]>) ;; mret info0.

Definition lvl_batch_dtor (j : nat) : vmeth unit := get_lbatch j ;; modify (lup_batch (delete j)).
End Batch.

Section Binding.
Context `{V8} (K V : kv_type).

(** [Unwrap<db<K, V> >] and [Unwrap<cursor>] *)
Definition get_ldb (i : nat) : vmeth ldb :=
  unwrap (fun h => dw ← lh_db h !! i; if decide (ldb_key dw = K /\ ldb_val dw = V) then Some dw else None).

Definition get_lcur (c : nat) : vmeth lcursor :=
  unwrap (fun h => cw ← lh_cur h !! c; if decide (lc_key cw = K /\ lc_val cw = V) then Some cw else None).

(** ** Databases *)
Definition lvl_db_ctor (i : nat) (path cacheSize : value) : vmeth info :=
  cache ← (if IsNumber cacheSize
           then n ← pure (to_unsigned 64 (NumberValue cacheSize)); c ← ffi (NewLRUCache n); mret (Some c)
           else mret None);
  r ← ffi (level_Open (utf8 path) true cache (lvl_comparator K));
  if negb (ls_ok (fst r)) then mret (throw_status (fst r) info0)
  else
    pdb ← pure (of_option UninitRead (snd r));
    modify (lup_db <[i := LDB K V (Some pdb) cache]>) ;;
    mret (set_ret (v_object i) info0).

Definition lvl_db_get (i : nat) (a : value) : vmeth info :=
  dw ← get_ldb i; get_body K V (ldb_db dw) Default a.

Definition lvl_db_put (i : nat) (a b : value) (bat : option nat) : vmeth info :=
  dw ← get_ldb i;
  key ← pure (kv_encode K a);
  val ← pure (kv_encode V b);
  match bat with
  | Some j =>
      bw ← get_lbatch j;
      rep ← pure (batch_Put (lb_rep bw) key val);
      modify (lup_batch <[j := LBatch rep]>) ;;
      mret info0
  | None => put_body (ldb_db dw) Default key val
  end.

Definition lvl_db_del (i : nat) (a : value) (bat : option nat) : vmeth info :=
  dw ← get_ldb i;
  key ← pure (kv_encode K a);
  match bat with
  | Some j =>
      bw ← get_lbatch j;
      rep ← pure (batch_Delete (lb_rep bw) key);
      modify (lup_batch <[j := LBatch rep]>) ;;
      mret info0
  | None => del_body (ldb_db dw) Default key
  end.

Definition lvl_db_write (i j : nat) : vmeth info :=
  dw ← get_ldb i;
  bw ← get_lbatch j;
  r ← ffi (level_Write (ldb_db dw) (lb_rep bw));
  modify (lup_batch <[j := LBatch (snd r)]>) ;;
  mret (done_status (fst r)).

Definition lvl_db_dtor (i : nat) : vmeth unit :=
  dw ← get_ldb i;
  ffi (delete_db (ldb_db dw)) ;;
  ffi (delete_cache (ldb_cache dw)) ;;
  modify (lup_db (delete i)).

(** ** Cursors *)
Definition lvl_cursor_ctor (c i : nat) : vmeth info :=
  dw ← get_ldb i;
  cur ← ffi (lsm_NewIterator (ldb_db dw) Default);
  modify (lup_cur <[c := LCursor K V (Some cur)]>) ;;
  mret (set_ret (v_object c) info0).

Definition lvl_cursorOp (fn : it_fn) (c : nat) : vmeth info :=
  cw ← get_lcur c; cursorOp_body (lc_cursor cw) fn.

Definition lvl_cursor_next := lvl_cursorOp Next.
Definition lvl_cursor_prev := lvl_cursorOp Prev.
Definition lvl_cursor_first := lvl_cursorOp SeekToFirst.
Definition lvl_cursor_last := lvl_cursorOp SeekToLast.

Definition lvl_cursor_key (c : nat) : vmeth info := cw ← get_lcur c; key_body K (lc_cursor cw).
Definition lvl_cursor_value (c : nat) : vmeth info := cw ← get_lcur c; value_body V (lc_cursor cw).
Definition lvl_cursor_gte (c : nat) (a : value) : vmeth info := cw ← get_lcur c; gte_body K (lc_cursor cw) a.

Definition lvl_cursor_dtor (c : nat) : vmeth unit :=
  cw ← get_lcur c;
  ffi (delete_iter (lc_cursor cw)) ;;
  modify (lup_cur (delete c)).
End Binding.
