(* ===== verification/LvlBindSafe.v ===== *)
(** * Safety of the LevelDB binding

    The objects JavaScript can reach and LevelDB's state, in every state the
    methods of [LvlBind] lead to when they are called as documented; what that
    takes ([lvl_ok]) is small: arguments of the types, a cursor that is valid
    before its key or value is asked for, and a database collected after its
    cursors. *)
From S2P Require Import Prelude Nan KvTypes Prog Store LmdbApi LmdbObjects LmdbInv.
From S2P Require Import LvlFormat LvlBatch LsmApi LsmEngine LvlBind.

#[export] Hint Unfold get_ldb get_lcur get_lbatch : meth.

(** ** Calls *)
Section Ops.
Context `{V8}.

Inductive lvl_op :=
| LDbNew (K V : kv_type) (i : nat) (path cacheSize : value)
| LDbGet (K V : kv_type) (i : nat) (a : value)
| LDbPut (K V : kv_type) (i : nat) (a b : value) (bat : option nat)
| LDbDel (K V : kv_type) (i : nat) (a : value) (bat : option nat)
| LDbWrite (K V : kv_type) (i j : nat)
| LDbGc (K V : kv_type) (i : nat)
| LCurNew (K V : kv_type) (c i : nat)
| LCurMove (K V : kv_type) (fn : it_fn) (c : nat)
| LCurKey (K V : kv_type) (c : nat)
| LCurVal (K V : kv_type) (c : nat)
| LCurGte (K V : kv_type) (c : nat) (a : value)
| LCurGc (K V : kv_type) (c : nat)
| LBatNew (j : nat)
| LBatClear (j : nat)
| LBatGc (j : nat).

Definition ignore (m : vmeth unit) : vmeth info := m ;; mret info0.

Definition lvl_exec (o : lvl_op) : vmeth info :=
  match o with
  | LDbNew K V i path cs => lvl_db_ctor K V i path cs
  | LDbGet K V i a => lvl_db_get K V i a
  | LDbPut K V i a b bat => lvl_db_put K V i a b bat
  | LDbDel K V i a bat => lvl_db_del K V i a bat
  | LDbWrite K V i j => lvl_db_write K V i j
  | LDbGc K V i => ignore (lvl_db_dtor K V i)
  | LCurNew K V c i => lvl_cursor_ctor K V c i
  | LCurMove K V fn c => lvl_cursorOp K V fn c
  | LCurKey K V c => lvl_cursor_key K V c
  | LCurVal K V c => lvl_cursor_value K V c
  | LCurGte K V c a => lvl_cursor_gte K V c a
  | LCurGc K V c => ignore (lvl_cursor_dtor K V c)
  | LBatNew j => lvl_batch_ctor j
  | LBatClear j => lvl_batch_clear j
  | LBatGc j => ignore (lvl_batch_dtor j)
  end.

(** ** The invariant *)

(** A database object and its database. *)
Definition db_alive (s : lsm) (dw : ldb) (d : nat) (f : fam_st) : Prop :=
  ldb_db dw = Some d /\ l_dbs s !! d = Some (LDb [f] (ldb_cache dw)) /\
  f_cmp f = lvl_comparator (ldb_key dw) /\ store_wf (f_cmp f) None (f_data f).

Definition cur_alive (s : lsm) (cw : lcursor) (it : nat) (x : it_st) : Prop :=
  lc_cursor cw = Some it /\ l_its s !! it = Some x /\ it_cmp x = lvl_comparator (lc_key cw) /\
  is_Some (l_dbs s !! it_db x) /\ store_wf (it_cmp x) None (it_data x).

Definition batch_ok (bw : lbatch) (l : list record) : Prop := exists seq, batch_is (lb_rep bw) seq l.

Record lvl_inv (h : lheap) (s : lsm) : Prop := {
  li_db i dw : lh_db h !! i = Some dw -> exists d f, db_alive s dw d f;
  li_db_inj i j dw : lh_db h !! i = Some dw -> (exists dw', lh_db h !! j = Some dw' /\ ldb_db dw' = ldb_db dw) -> i = j;
  li_own d x : l_dbs s !! d = Some x -> exists i dw, lh_db h !! i = Some dw /\ ldb_db dw = Some d;
  li_cache i dw c : lh_db h !! i = Some dw -> ldb_cache dw = Some c ->
    c ∈ l_caches s /\ forall j dw', lh_db h !! j = Some dw' -> ldb_cache dw' = Some c -> i = j;
  li_cur c cw : lh_cur h !! c = Some cw -> exists it x, cur_alive s cw it x;
  li_cur_inj c c' cw : lh_cur h !! c = Some cw -> (exists cw', lh_cur h !! c' = Some cw' /\ lc_cursor cw' = lc_cursor cw) -> c = c';
  li_it it x : l_its s !! it = Some x -> exists c cw, lh_cur h !! c = Some cw /\ lc_cursor cw = Some it;
  li_batch j bw : lh_batch h !! j = Some bw -> exists l, batch_ok bw l;
  li_handles : l_handles s = ∅
}.

(** ** Calls as documented *)
Definition has_ldb (h : lheap) (K V : kv_type) (i : nat) (dw : ldb) : Prop :=
  lh_db h !! i = Some dw /\ ldb_key dw = K /\ ldb_val dw = V.
Definition has_lcur (h : lheap) (K V : kv_type) (c : nat) (cw : lcursor) : Prop :=
  lh_cur h !! c = Some cw /\ lc_key cw = K /\ lc_val cw = V.

Definition encodes (T : kv_type) (v : value) : Prop := exists bs, kv_encode T v = Ok bs.
Definition decodes (T : kv_type) (b : bytes) : Prop := exists v, kv_decode T b (length b) = Ok v.

(** A batch takes a record more: sizes of 32 bits, a count of 31. *)
Definition batch_takes (h : lheap) (j : nat) (r : record) : Prop :=
  exists bw l, lh_batch h !! j = Some bw /\ batch_ok bw l /\ record_ok r /\ Z.of_nat (length l) + 1 < 2 ^ 31.

Definition lvl_ok (o : lvl_op) (h : lheap) (s : lsm) : Prop :=
  match o with
  | LDbNew K V i path cs => lh_db h !! i = None /\ (IsNumber cs = true -> exists z, to_unsigned 64 (NumberValue cs) = Ok z)
  | LDbGet K V i a => exists dw d f, has_ldb h K V i dw /\ db_alive s dw d f /\ encodes K a /\
      forall k v, (k, v) ∈ f_data f -> decodes V v
  | LDbPut K V i a b bat => exists dw k v, has_ldb h K V i dw /\ kv_encode K a = Ok k /\ kv_encode V b = Ok v /\
      match bat with Some j => batch_takes h j (RPut k v) | None => True end
  | LDbDel K V i a bat => exists dw k, has_ldb h K V i dw /\ kv_encode K a = Ok k /\
      match bat with Some j => batch_takes h j (RDelete k) | None => True end
  | LDbWrite K V i j => exists dw bw l, has_ldb h K V i dw /\ lh_batch h !! j = Some bw /\ batch_ok bw l /\
      Forall (fun r => dom (lvl_comparator K) (rec_key r) = true) l
  | LDbGc K V i => exists dw, has_ldb h K V i dw /\
      forall c cw it x, lh_cur h !! c = Some cw -> lc_cursor cw = Some it -> l_its s !! it = Some x -> Some (it_db x) <> ldb_db dw
  | LCurNew K V c i => lh_cur h !! c = None /\ exists dw, has_ldb h K V i dw
  | LCurMove K V fn c => exists cw, has_lcur h K V c cw /\
      match fn with Next | Prev => exists it x, cur_alive s cw it x /\ is_Some (it_at x) | _ => True end
  | LCurKey K V c => exists cw it x k v, has_lcur h K V c cw /\ cur_alive s cw it x /\ it_at x = Some (k, v) /\ decodes K k
  | LCurVal K V c => exists cw it x k v, has_lcur h K V c cw /\ cur_alive s cw it x /\ it_at x = Some (k, v) /\ decodes V v
  | LCurGte K V c a => exists cw, has_lcur h K V c cw /\ encodes K a
  | LCurGc K V c => exists cw, has_lcur h K V c cw
  | LBatNew j => lh_batch h !! j = None
  | LBatClear j | LBatGc j => is_Some (lh_batch h !! j)
  end.

Inductive lvl_reach : lheap -> lsm -> Prop :=
| lreach_0 : lvl_reach lheap0 lsm0
| lreach_op o h s i h' s' : lvl_reach h s -> lvl_ok o h s -> may LSM (lvl_exec o h) s (i, h') s' -> lvl_reach h' s'.

(** ** Comparators of the key types *)
Lemma lvl_comparator_type K : lvl_comparator K = type_comparator K.
Proof. by destruct K. Qed.

#[local] Instance lvl_laws K : CmpLaws (lvl_comparator K).
Proof. rewrite lvl_comparator_type. apply type_comparator_laws. Qed.

Lemma lvl_encode_dom K a k : kv_encode K a = Ok k -> dom (lvl_comparator K) k = true.
Proof. rewrite lvl_comparator_type. apply encode_dom. Qed.

(** ** Records in a database of one family *)
Lemma do_record_wf K r f :
  f_cmp f = lvl_comparator K -> store_wf (f_cmp f) None (f_data f) -> dom (f_cmp f) (rec_key r) = true ->
  f_cmp (do_record r f) = lvl_comparator K /\ store_wf (f_cmp (do_record r f)) None (f_data (do_record r f)).
Proof.
  intros Hc Hw Hd. split; [done|]. cbn. rewrite Hc in *. destruct r as [k v|k].
  - apply (s_put_wf (lvl_comparator K) None); [done|by split|done].
  - by apply filter_wf.
Qed.

Lemma find_fam_default s d x f : l_dbs s !! d = Some x -> ld_fams x = [f] -> find_fam s (Some d) Default = Some (d, 0%nat, f).
Proof. intros Hx Hf. unfold find_fam. cbn. rewrite Hx. cbn. by rewrite Hf. Qed.

Lemma do_records_default s d f cc l :
  l_dbs s !! d = Some (LDb [f] cc) -> Forall (fun r => dom (f_cmp f) (rec_key r) = true) l ->
  do_records (Some d) ((Default,.) <$> l) s = Some (up_dbs <[d := LDb [foldl (flip do_record) f l] cc]> s).
Proof.
  intros Hx Hl. revert s f Hx Hl. induction l as [|r l IH]; intros s f Hx Hl.
  { cbn. f_equal. destruct s. unfold up_dbs. cbn in *. by rewrite insert_id. }
  apply Forall_cons in Hl as [Hr Hl]. cbn [fmap list_fmap do_records foldl].
  rewrite (find_fam_default _ _ _ f Hx eq_refl). cbn [mbind option_bind]. rewrite Hr.
  rewrite (IH _ (do_record r f)); [|cbn; by rewrite lookup_alter_eq, Hx|done].
  f_equal. unfold up_dbs, set_fam. cbn. f_equal. apply map_eq. intros j.
  destruct (decide (j = d)) as [->|]; [by rewrite !lookup_insert_eq|by rewrite !lookup_insert_ne, lookup_alter_ne].
Qed.

Lemma foldl_wf K l f :
  f_cmp f = lvl_comparator K -> store_wf (f_cmp f) None (f_data f) ->
  Forall (fun r => dom (lvl_comparator K) (rec_key r) = true) l ->
  f_cmp (foldl (flip do_record) f l) = lvl_comparator K /\
  store_wf (f_cmp (foldl (flip do_record) f l)) None (f_data (foldl (flip do_record) f l)).
Proof.
  intros Hc Hw Hl. revert f Hc Hw. induction Hl as [|r l Hr _ IH]; intros f Hc Hw; [done|]. cbn [foldl].
  rewrite <- Hc in Hr. destruct (do_record_wf K r f Hc Hw Hr). by apply IH.
Qed.

(** ** The invariant is kept *)
Lemma inv_write h s i dw d f f' :
  lvl_inv h s -> lh_db h !! i = Some dw -> db_alive s dw d f ->
  f_cmp f' = lvl_comparator (ldb_key dw) -> store_wf (f_cmp f') None (f_data f') ->
  lvl_inv h (up_dbs <[d := LDb [f'] (ldb_cache dw)]> s).
Proof.
  intros HI Hi (Hd & Hx & Hc & Hw) Hc' Hw'. split; try apply HI.
  - intros j dw' Hj. destruct (li_db _ _ HI j dw' Hj) as (d' & g & Hd' & Hx' & ? & ?).
    destruct (decide (d' = d)) as [->|Hne].
    + assert (i = j) as <- by (eapply (li_db_inj _ _ HI); [done|exists dw'; split; congruence]).
      assert (dw' = dw) as -> by congruence. exists d, f'. split_and!; try done. cbn. by rewrite lookup_insert_eq.
    + exists d', g. split_and!; try done. cbn. by rewrite lookup_insert_ne.
  - intros d' x. cbn. destruct (decide (d' = d)) as [->|]; [|rewrite lookup_insert_ne by done; apply HI].
    intros _. by exists i, dw.
  - intros c cw Hcw. destruct (li_cur _ _ HI c cw Hcw) as (it & x & ? & ? & ? & Hal & ?). exists it, x. split_and!; try done.
    cbn. destruct (decide (it_db x = d)) as [->|]; [by rewrite lookup_insert_eq; eexists|by rewrite lookup_insert_ne].
Qed.

Lemma inv_batch h s j bw l : lvl_inv h s -> batch_ok bw l -> lvl_inv (lup_batch <[j := bw]> h) s.
Proof.
  intros HI Hb. split; try apply HI. intros j' bw'. cbn.
  destruct (decide (j' = j)) as [->|]; [rewrite lookup_insert_eq; intros [= <-]; by exists l|].
  rewrite lookup_insert_ne by done. apply HI.
Qed.

Lemma inv_batch_gc h s j : lvl_inv h s -> lvl_inv (lup_batch (delete j) h) s.
Proof. intros HI. split; try apply HI. intros j' bw'. cbn. intros [_ Hj]%lookup_delete_Some. by apply HI in Hj. Qed.

Lemma inv_move h s it x o :
  lvl_inv h s -> l_its s !! it = Some x -> lvl_inv h (up_its <[it := set_pos o x]> s).
Proof.
  intros HI Hx. split; try apply HI.
  - intros c cw Hc. destruct (li_cur _ _ HI c cw Hc) as (it' & x' & ? & Hx' & ? & ? & ?).
    destruct (decide (it' = it)) as [->|].
    + assert (x' = x) as -> by congruence. exists it, (set_pos o x). split_and!; try done. cbn. by rewrite lookup_insert_eq.
    + exists it', x'. split_and!; try done. cbn. by rewrite lookup_insert_ne.
  - intros it' x'. cbn. destruct (decide (it' = it)) as [->|]; [intros _; by eapply (li_it _ _ HI)|].
    rewrite lookup_insert_ne by done. apply HI.
Qed.

(** ** Every method *)
Lemma has_ldb_unwrap h K V i dw :
  has_ldb h K V i dw ->
  (dw ← lh_db h !! i; if decide (ldb_key dw = K /\ ldb_val dw = V) then Some dw else None) = Some dw.
Proof. intros (Hi & <- & <-). rewrite Hi. cbn. by rewrite decide_True. Qed.

Lemma has_lcur_unwrap h K V c cw :
  has_lcur h K V c cw ->
  (cw ← lh_cur h !! c; if decide (lc_key cw = K /\ lc_val cw = V) then Some cw else None) = Some cw.
Proof. intros (Hi & <- & <-). rewrite Hi. cbn. by rewrite decide_True. Qed.

Definition stays (h : lheap) (s : lsm) (m : vmeth info) : Prop :=
  wpm LSM (fun _ => False) m h s (fun _ h' s' => lvl_inv h' s').

Lemma safe_write_body h s i dw d f l (r : lstatus) s1 s' :
  lvl_inv h s -> lh_db h !! i = Some dw -> db_alive s dw d f ->
  Forall (fun r => dom (f_cmp f) (rec_key r) = true) l ->
  do_records (Some d) ((Default,.) <$> l) s = Some s1 -> written r s s1 s' -> lvl_inv h s'.
Proof.
  intros HI Hi Ha Hl E W. pose proof Ha as (Hd & Hx & Hc & Hw).
  rewrite (do_records_default _ _ _ _ _ Hx Hl) in E. injection E as <-. rewrite Hc in Hl.
  destruct (foldl_wf _ l f Hc Hw Hl) as [Hc' Hw'].
  assert (HI' := inv_write _ _ _ _ _ _ _ HI Hi Ha Hc' Hw').
  destruct W as [[_ ->]|[_ [->| ->]]]; done.
Qed.

Lemma safe_get K V i a h s : lvl_inv h s -> lvl_ok (LDbGet K V i a) h s -> stays h s (lvl_db_get K V i a).
Proof.
  intros HI (dw & d & f & Hi & (Hd & Hx & Hc & Hw) & [k Hk] & Hdec). pose proof (has_ldb_unwrap _ _ _ _ _ Hi) as Hu.
  unfold stays, lvl_db_get, get_body. wstep. wstep. wstep. wstep. wstep. rewrite Hd.
  pose proof (find_fam_default _ _ _ _ Hx eq_refl) as Hf. wstep.
  { exists d, 0%nat, f. split; [done|]. rewrite Hc. destruct Hi as (_ & -> & _). by eapply lvl_encode_dom. }
  intros r s' (-> & d0 & i0 & f0 & Hf' & Ha). rewrite Hf in Hf'. injection Hf' as <- <- <-. cbv zeta.
  destruct r as [st v]. cbn [fst snd]. destruct (negb (ls_ok st)) eqn:Hok; [by wstep|].
  destruct Ha as [Ha|(t & v' & [= -> ->])]; [|done].
  destruct (s_get (f_cmp f) k (f_data f)) as [v'|] eqn:Hg; [|by destruct Ha as [? [= -> ->]]].
  injection Ha as -> ->. apply s_get_in in Hg as [k' Hin]. destruct (Hdec k' v' Hin) as [x Hx'].
  wstep. wstep. by wstep.
Qed.

Lemma safe_put K V i a b bat h s : lvl_inv h s -> lvl_ok (LDbPut K V i a b bat) h s -> stays h s (lvl_db_put K V i a b bat).
Proof.
  intros HI (dw & k & v & Hi & Hk & Hv & Hb). pose proof (has_ldb_unwrap _ _ _ _ _ Hi) as Hu.
  unfold stays, lvl_db_put, put_body. wstep. wstep. wstep. wstep. wstep. wstep. destruct bat as [j|].
  - destruct Hb as (bw & l & Hj & [seq Hbw] & Hr & Hn). destruct (batch_add_ok _ _ _ Hbw (RPut k v) Hr Hn) as (rep' & HA & HB).
    cbn in HA. wstep. wstep. wstep. wstep. wstep. wstep. wstep. eapply inv_batch; [done|]. by exists seq.
  - destruct (li_db _ _ HI i dw) as (d & f & Ha); [apply Hi|]. pose proof Ha as (Hd & Hx & Hc & Hw).
    assert (Hdom : dom (f_cmp f) k = true) by (rewrite Hc; destruct Hi as (_ & -> & _); by eapply lvl_encode_dom).
    wstep. rewrite Hd. wstep.
    { exists d, 0%nat, f. split; [by eapply find_fam_default|done]. }
    intros st s' (s1 & E & W). wstep. eapply (safe_write_body _ _ _ _ _ _ [RPut k v]); try done; [apply Hi|by repeat constructor].
Qed.

Lemma safe_del K V i a bat h s : lvl_inv h s -> lvl_ok (LDbDel K V i a bat) h s -> stays h s (lvl_db_del K V i a bat).
Proof.
  intros HI (dw & k & Hi & Hk & Hb). pose proof (has_ldb_unwrap _ _ _ _ _ Hi) as Hu.
  unfold stays, lvl_db_del, del_body. wstep. wstep. wstep. wstep. destruct bat as [j|].
  - destruct Hb as (bw & l & Hj & [seq Hbw] & Hr & Hn). destruct (batch_add_ok _ _ _ Hbw (RDelete k) Hr Hn) as (rep' & HA & HB).
    cbn in HA. wstep. wstep. wstep. wstep. wstep. wstep. wstep. eapply inv_batch; [done|]. by exists seq.
  - destruct (li_db _ _ HI i dw) as (d & f & Ha); [apply Hi|]. pose proof Ha as (Hd & Hx & Hc & Hw).
    assert (Hdom : dom (f_cmp f) k = true) by (rewrite Hc; destruct Hi as (_ & -> & _); by eapply lvl_encode_dom).
    wstep. rewrite Hd. wstep.
    { exists d, 0%nat, f. split; [by eapply find_fam_default|done]. }
    intros st s' (s1 & E & W). wstep. eapply (safe_write_body _ _ _ _ _ _ [RDelete k]); try done; [apply Hi|by repeat constructor].
Qed.

Lemma safe_write K V i j h s : lvl_inv h s -> lvl_ok (LDbWrite K V i j) h s -> stays h s (lvl_db_write K V i j).
Proof.
  intros HI (dw & bw & l & Hi & Hj & [seq Hb] & Hl). pose proof (has_ldb_unwrap _ _ _ _ _ Hi) as Hu.
  destruct (li_db _ _ HI i dw) as (d & f & Ha); [apply Hi|]. pose proof Ha as (Hd & Hx & Hc & Hw).
  assert (Hl' : Forall (fun r => dom (f_cmp f) (rec_key r) = true) l) by (rewrite Hc; by destruct Hi as (_ & -> & _)).
  unfold stays, lvl_db_write. wstep. wstep. wstep. wstep. wstep. rewrite Hd. wstep.
  { exists seq, l. split; [done|]. rewrite (do_records_default _ _ _ _ _ Hx Hl'). by eexists. }
  intros r s' (seq' & l' & s1 & Hb' & E & W & seq'' & Hb''). wstep. wstep. wstep.
  pose proof (batch_is_inj _ _ _ _ _ Hb Hb') as [_ <-].
  eapply inv_batch; [|by exists seq'']. eapply safe_write_body; try done. apply Hi.
Qed.

(** A new database object, with a database that no other object has. *)
Lemma inv_new_db K V i d cache l h s :
  lvl_inv h s -> lh_db h !! i = None -> l_dbs s !! d = None -> store_wf (lvl_comparator K) None l ->
  (forall c, cache = Some c -> c ∈ l_caches s /\ forall j dw, lh_db h !! j = Some dw -> ldb_cache dw <> Some c) ->
  lvl_inv (lup_db <[i := LDB K V (Some d) cache]> h) (up_dbs <[d := LDb [Fam 0 (lvl_comparator K) l] cache]> s).
Proof.
  intros HI Hi Hd Hl Hca.
  assert (Hfresh : forall j dw, lh_db h !! j = Some dw -> ldb_db dw <> Some d).
  { intros j dw Hj E. destruct (li_db _ _ HI j dw Hj) as (d' & f & Hd' & Hx' & _). congruence. }
  split; try apply HI; cbn.
  - intros j dw [[<- <-]|[Hne Hj]]%lookup_insert_Some.
    + exists d, (Fam 0 (lvl_comparator K) l). split_and!; try done. cbn. by rewrite lookup_insert_eq.
    + destruct (li_db _ _ HI j dw Hj) as (d' & f & Hd' & Hx' & ? & ?). exists d', f. split_and!; try done. cbn.
      rewrite lookup_insert_ne; [done|]. congruence.
  - intros j j' dw [[<- <-]|[Hne Hj]]%lookup_insert_Some (dw' & [[<- <-]|[Hne' Hj']]%lookup_insert_Some & E); [done|..].
    + by destruct (Hfresh j' dw' Hj').
    + by destruct (Hfresh j dw Hj).
    + eapply (li_db_inj _ _ HI); eauto.
  - intros d' x [[<- <-]|[Hne Hx]]%lookup_insert_Some.
    + exists i, (LDB K V (Some d) cache). by rewrite lookup_insert_eq.
    + destruct (li_own _ _ HI d' x Hx) as (j & dw & Hj & E). exists j, dw. rewrite lookup_insert_ne; [done|]. congruence.
  - intros j dw c [[<- <-]|[Hne Hj]]%lookup_insert_Some Hc; cbn in Hc.
    + destruct (Hca c Hc) as [Hin Hno]. split; [done|].
      intros j' dw' [[<- <-]|[Hne' Hj']]%lookup_insert_Some Hc'; [done|by destruct (Hno j' dw' Hj')].
    + destruct (li_cache _ _ HI j dw c Hj Hc) as [Hin Hu]. split; [done|].
      intros j' dw' [[<- <-]|[Hne' Hj']]%lookup_insert_Some Hc'; [|by eapply Hu].
      cbn in Hc'. destruct (Hca c Hc') as [_ Hno]. by destruct (Hno j dw Hj).
  - intros c cw Hc. destruct (li_cur _ _ HI c cw Hc) as (it & x & ? & ? & ? & [y Hy] & ?). exists it, x. split_and!; try done.
    cbn. rewrite lookup_insert_ne; [by exists y|]. congruence.
Qed.

Lemma inv_caches h s c : lvl_inv h s -> lvl_inv h (up_caches (fun x => {[c]} ∪ x) s).
Proof.
  intros HI. split; try apply HI. intros i dw c' Hi Hc. destruct (li_cache _ _ HI i dw c' Hi Hc) as [? ?].
  split; [cbn; set_solver|done].
Qed.

Lemma safe_new K V i path cs h s : lvl_inv h s -> lvl_ok (LDbNew K V i path cs) h s -> stays h s (lvl_db_ctor K V i path cs).
Proof.
  intros HI [Hi Hcs]. unfold stays, lvl_db_ctor. wstep.
  assert (HR : forall cache s1, lvl_inv h s1 -> l_dbs s1 = l_dbs s ->
    (forall c, cache = Some c -> c ∈ l_caches s1 /\ forall j dw, lh_db h !! j = Some dw -> ldb_cache dw <> Some c) ->
    wpm LSM (fun _ => False) (r ← ffi (level_Open (utf8 path) true cache (lvl_comparator K));
      if negb (ls_ok (fst r)) then mret (throw_status (fst r) info0)
      else pdb ← pure (of_option UninitRead (snd r));
        modify (lup_db <[i := LDB K V (Some pdb) cache]>) ;; mret (set_ret (v_object i) info0)) h s1
      (fun _ h' s' => lvl_inv h' s')).
  { intros cache s1 HI1 Hd1 Hca. wstep. wstep.
    { destruct cache as [c|]; [|done]. by destruct (Hca c eq_refl). }
    intros r s' [(d & l & -> & Hd & Hl & ->)|[(t & o & ->) ->]]; cbn; [|by wstep].
    wstep. eapply wpm_pure; [done|]. wstep. wstep. wstep. by apply inv_new_db. }
  destruct (IsNumber cs); [|wstep; by apply HR].
  destruct (Hcs eq_refl) as [z Hz]. wstep. wstep. wstep. wstep; [done|]. intros c s' [Hc ->]. wstep.
  apply HR; [by apply inv_caches|done|]. intros c' [= <-]. split; [cbn; set_solver|].
  intros j dw Hj E. destruct (li_cache _ _ HI j dw c Hj E). done.
Qed.

(** A new cursor object, with an iterator that no other object has. *)
Lemma inv_new_cur K V c it x h s :
  lvl_inv h s -> lh_cur h !! c = None -> l_its s !! it = None -> it_cmp x = lvl_comparator K ->
  is_Some (l_dbs s !! it_db x) -> store_wf (it_cmp x) None (it_data x) ->
  lvl_inv (lup_cur <[c := LCursor K V (Some it)]> h) (up_its <[it := x]> s).
Proof.
  intros HI Hc Hit Hcm Hal Hw. split; try apply HI; cbn.
  - intros c' cw [[<- <-]|[Hne Hc']]%lookup_insert_Some.
    + exists it, x. split; [done|]. split; [apply lookup_insert_eq|done].
    + destruct (li_cur _ _ HI c' cw Hc') as (it' & x' & ? & Hx' & ? & ? & ?). exists it', x'. split_and!; try done.
      cbn. rewrite lookup_insert_ne; [done|]. congruence.
  - intros c1 c2 cw [[<- <-]|[Hne Hc1]]%lookup_insert_Some (cw' & [[<- <-]|[Hne' Hc2]]%lookup_insert_Some & E); [done|..].
    + destruct (li_cur _ _ HI c2 cw' Hc2) as (it' & x' & E' & Hx' & _). cbn in E. congruence.
    + destruct (li_cur _ _ HI c1 cw Hc1) as (it' & x' & E' & Hx' & _). cbn in E. congruence.
    + eapply (li_cur_inj _ _ HI); eauto.
  - intros it' x' [[<- <-]|[Hne Hx']]%lookup_insert_Some.
    + exists c, (LCursor K V (Some it)). by rewrite lookup_insert_eq.
    + destruct (li_it _ _ HI it' x' Hx') as (c' & cw & Hc' & E). exists c', cw. rewrite lookup_insert_ne; [done|]. congruence.
Qed.

Lemma safe_cursor_new K V c i h s : lvl_inv h s -> lvl_ok (LCurNew K V c i) h s -> stays h s (lvl_cursor_ctor K V c i).
Proof.
  intros HI (Hc & dw & Hi). pose proof (has_ldb_unwrap _ _ _ _ _ Hi) as Hu.
  destruct (li_db _ _ HI i dw) as (d & f & Hd & Hx & Hcm & Hw); [apply Hi|]. pose proof (find_fam_default _ _ _ _ Hx eq_refl) as Hf.
  unfold stays, lvl_cursor_ctor. wstep. wstep. wstep. rewrite Hd. wstep; [by eexists|].
  intros it s' (d0 & i0 & f0 & Hf' & Hit & ->). rewrite Hf in Hf'. injection Hf' as <- <- <-. wstep. wstep. wstep.
  apply inv_new_cur; [done|done|done|cbn; rewrite Hcm; by destruct Hi as (_ & -> & _)|by eexists|done].
Qed.

Lemma cur_get c cw it x s : cur_alive s cw it x -> c = lc_cursor cw -> get_it s c = Some x /\ c = Some it /\ l_its s !! it = Some x.
Proof. intros (E & Hx & _) ->. rewrite E. by cbn. Qed.

Lemma safe_move K V fn c h s : lvl_inv h s -> lvl_ok (LCurMove K V fn c) h s -> stays h s (lvl_cursorOp K V fn c).
Proof.
  intros HI (cw & Hc & Hfn). pose proof (has_lcur_unwrap _ _ _ _ _ Hc) as Hu.
  destruct (li_cur _ _ HI c cw) as (it & x & Ha); [apply Hc|]. destruct (cur_get _ _ _ _ _ Ha eq_refl) as (Hg & E & Hx).
  unfold stays, lvl_cursorOp, cursorOp_body. wstep. wstep. wstep. wstep.
  { destruct fn; cbn; [by eexists|by eexists|..]; destruct Hfn as (it' & x' & Ha' & Hv);
      destruct (cur_get _ _ _ _ _ Ha' eq_refl) as (Hg' & _); by exists x'. }
  intros _ s' (it' & x' & E' & Hx' & ->). rewrite E in E'. injection E' as <-. assert (x' = x) as -> by congruence.
  wstep. wstep; [rewrite E; cbn; rewrite lookup_insert_eq; by eexists|].
  intros b s' [-> _]. wstep. by apply inv_move.
Qed.

Lemma safe_gte K V c a h s : lvl_inv h s -> lvl_ok (LCurGte K V c a) h s -> stays h s (lvl_cursor_gte K V c a).
Proof.
  intros HI (cw & Hc & [k Hk]). pose proof (has_lcur_unwrap _ _ _ _ _ Hc) as Hu.
  destruct (li_cur _ _ HI c cw) as (it & x & Ha); [apply Hc|]. destruct (cur_get _ _ _ _ _ Ha eq_refl) as (Hg & E & Hx).
  unfold stays, lvl_cursor_gte, gte_body. wstep. wstep. wstep. wstep. wstep. wstep.
  { exists x. split; [done|]. destruct Ha as (_ & _ & -> & _). destruct Hc as (_ & -> & _). by eapply lvl_encode_dom. }
  intros _ s' (it' & x' & E' & Hx' & ->). rewrite E in E'. injection E' as <-. assert (x' = x) as -> by congruence.
  wstep. wstep; [rewrite E; cbn; rewrite lookup_insert_eq; by eexists|].
  intros b s' [-> _]. wstep. by apply inv_move.
Qed.

Lemma safe_key K V c h s : lvl_inv h s -> lvl_ok (LCurKey K V c) h s -> stays h s (lvl_cursor_key K V c).
Proof.
  intros HI (cw & it & x & k & v & Hc & Ha & Hat & [y Hy]). pose proof (has_lcur_unwrap _ _ _ _ _ Hc) as Hu.
  destruct (cur_get _ _ _ _ _ Ha eq_refl) as (Hg & E & Hx).
  unfold stays, lvl_cursor_key, key_body. wstep. wstep. wstep. wstep; [by eexists|].
  intros b s' [-> _]. cbv zeta. wstep. wstep; [exists x; split; [done|by eexists]|].
  intros k' s' (-> & x' & v' & Hg' & Hat'). assert (k' = k) as -> by congruence. wstep. wstep. by wstep.
Qed.

Lemma safe_value K V c h s : lvl_inv h s -> lvl_ok (LCurVal K V c) h s -> stays h s (lvl_cursor_value K V c).
Proof.
  intros HI (cw & it & x & k & v & Hc & Ha & Hat & [y Hy]). pose proof (has_lcur_unwrap _ _ _ _ _ Hc) as Hu.
  destruct (cur_get _ _ _ _ _ Ha eq_refl) as (Hg & E & Hx).
  unfold stays, lvl_cursor_value, value_body. wstep. wstep. wstep. wstep; [by eexists|].
  intros b s' [-> _]. cbv zeta. wstep. wstep; [exists x; split; [done|by eexists]|].
  intros v' s' (-> & x' & k' & Hg' & Hat'). assert (v' = v) as -> by congruence. wstep. wstep. by wstep.
Qed.

Lemma safe_cursor_gc K V c h s : lvl_inv h s -> lvl_ok (LCurGc K V c) h s -> stays h s (ignore (lvl_cursor_dtor K V c)).
Proof.
  intros HI [cw Hc]. pose proof (has_lcur_unwrap _ _ _ _ _ Hc) as Hu. destruct Hc as (Hc & _).
  destruct (li_cur _ _ HI c cw Hc) as (it & x & Ha). destruct (cur_get _ _ _ _ _ Ha eq_refl) as (Hg & E & Hx).
  unfold stays, ignore, lvl_cursor_dtor. wstep. wstep. wstep. wstep. wstep; [by eexists|].
  intros _ s' (it' & E' & ->). assert (it' = it) as -> by congruence. wstep. wstep.
  split; try apply HI; cbn.
  - intros c' cw' [Hne Hc']%lookup_delete_Some. destruct (li_cur _ _ HI c' cw' Hc') as (it' & x' & E1 & ? & ? & ?).
    exists it', x'. split; [done|]. split; [|done]. cbn. rewrite lookup_delete_ne; [done|]. intros <-.
    apply Hne. eapply (li_cur_inj _ _ HI); [done|]. exists cw'. split; congruence.
  - intros c1 c2 cw1 [Hne1 Hc1]%lookup_delete_Some (cw2 & [Hne2 Hc2]%lookup_delete_Some & E2). eapply (li_cur_inj _ _ HI); eauto.
  - intros it' x' [Hne Hx']%lookup_delete_Some. destruct (li_it _ _ HI it' x' Hx') as (c' & cw' & Hc' & E1).
    exists c', cw'. rewrite lookup_delete_ne; [done|]. congruence.
Qed.

Lemma inv_db_gc h s i dw d :
  lvl_inv h s -> lh_db h !! i = Some dw -> ldb_db dw = Some d ->
  (forall c cw it x, lh_cur h !! c = Some cw -> lc_cursor cw = Some it -> l_its s !! it = Some x -> it_db x <> d) ->
  lvl_inv (lup_db (delete i) h)
    (match ldb_cache dw with Some c => up_caches (fun x => x ∖ {[c]}) (up_dbs (delete d) s) | None => up_dbs (delete d) s end).
Proof.
  intros HI Hi Hd Hno.
  assert (HJ : lvl_inv (lup_db (delete i) h) (up_dbs (delete d) s)).
  { split; try apply HI; cbn.
    - intros j dw' [Hne Hj]%lookup_delete_Some. destruct (li_db _ _ HI j dw' Hj) as (d' & f & E & ? & ?). exists d', f.
      split; [done|]. split; [|done]. cbn. rewrite lookup_delete_ne; [done|]. intros <-. apply Hne.
      eapply (li_db_inj _ _ HI); [done|]. exists dw'. split; congruence.
    - intros j j' dw' [Hne Hj]%lookup_delete_Some (dw2 & [Hne2 Hj2]%lookup_delete_Some & E). eapply (li_db_inj _ _ HI); eauto.
    - intros d' x [Hne Hx]%lookup_delete_Some. destruct (li_own _ _ HI d' x Hx) as (j & dw' & Hj & E).
      exists j, dw'. rewrite lookup_delete_ne; [done|]. congruence.
    - intros j dw' c [Hne Hj]%lookup_delete_Some Hc. destruct (li_cache _ _ HI j dw' c Hj Hc) as [? Hu]. split; [done|].
      intros j' dw2 [_ Hj2]%lookup_delete_Some. by apply Hu.
    - intros c cw Hc. destruct (li_cur _ _ HI c cw Hc) as (it & x & E & Hx & ? & ? & ?). exists it, x. split_and!; try done.
      cbn. rewrite lookup_delete_ne; [done|]. intros Heq. by destruct (Hno c cw it x Hc E Hx). }
  destruct (ldb_cache dw) as [c|] eqn:Hc; [|done]. split; try apply HJ. intros j dw' c' Hj Hc'.
  destruct (li_cache _ _ HJ j dw' c' Hj Hc') as [Hin Hu]. split; [|done]. cbn. apply elem_of_difference. split; [done|].
  intros ->%elem_of_singleton. cbn in Hj. apply lookup_delete_Some in Hj as [Hne Hj].
  destruct (li_cache _ _ HI i dw c Hi Hc) as [_ Hu']. by apply Hne, (Hu' j dw').
Qed.

Lemma drop_db_alone s d : l_handles s = ∅ -> drop_db d s = up_dbs (delete d) s.
Proof. intros E. destruct s. unfold drop_db, up_handles, up_dbs. cbn in *. by rewrite E, map_filter_empty. Qed.

Lemma lsafe_db_gc K V i h s : lvl_inv h s -> lvl_ok (LDbGc K V i) h s -> stays h s (ignore (lvl_db_dtor K V i)).
Proof.
  intros HI (dw & Hi & Hno). pose proof (has_ldb_unwrap _ _ _ _ _ Hi) as Hu. destruct Hi as (Hi & _).
  destruct (li_db _ _ HI i dw Hi) as (d & f & Hd & Hx & _). rewrite Hd in Hno.
  assert (Hno' : forall c cw it x, lh_cur h !! c = Some cw -> lc_cursor cw = Some it -> l_its s !! it = Some x -> it_db x <> d).
  { intros c cw it x Hc E Hit <-. by destruct (Hno c cw it x Hc E Hit). }
  pose proof (inv_db_gc _ _ _ _ _ HI Hi Hd Hno') as HJ.
  unfold stays, ignore, lvl_db_dtor. wstep. wstep. wstep. wstep. rewrite Hd. wstep.
  { split; [by eexists|]. split; [|intros hh p; by rewrite (li_handles _ _ HI), lookup_empty]. intros it x Hit. destruct (li_it _ _ HI it x Hit) as (c & cw & Hc & E). by eapply Hno'. }
  intros _ s' ->. rewrite drop_db_alone by apply HI. wstep. wstep.
  { destruct (ldb_cache dw) as [c|] eqn:Hc; [|done]. destruct (li_cache _ _ HI i dw c Hi Hc) as [Hin Huq].
    split; [done|]. cbn. intros d' x [Hne Hx']%lookup_delete_Some Hcx.
    destruct (li_own _ _ HI d' x Hx') as (j & dw' & Hj & E). destruct (li_db _ _ HI j dw' Hj) as (d2 & f2 & E2 & Hx2 & _).
    assert (d2 = d') as -> by congruence. rewrite Hx' in Hx2. injection Hx2 as ->. cbn in Hcx.
    assert (i = j) as <- by by eapply Huq. congruence. }
  intros _ s' ->. wstep. wstep. destruct (ldb_cache dw); exact HJ.
Qed.

Lemma lvl_op_safe o h s : lvl_inv h s -> lvl_ok o h s -> stays h s (lvl_exec o).
Proof.
  intros HI HO. destruct o; cbn [lvl_exec].
  - by apply safe_new.
  - by apply safe_get.
  - by apply safe_put.
  - by apply safe_del.
  - by apply safe_write.
  - by apply lsafe_db_gc.
  - by apply safe_cursor_new.
  - by apply safe_move.
  - by apply safe_key.
  - by apply safe_value.
  - by apply safe_gte.
  - by apply safe_cursor_gc.
  - unfold stays, lvl_batch_ctor. wstep. wstep. wstep. eapply (inv_batch _ _ _ _ []); [done|]. exists 0. apply batch_is_empty.
  - destruct HO as [bw Hb]. unfold stays, lvl_batch_clear. wstep. wstep. wstep. wstep. wstep.
    eapply (inv_batch _ _ _ _ []); [done|]. exists 0. apply batch_is_empty.
  - destruct HO as [bw Hb]. unfold stays, ignore, lvl_batch_dtor. wstep. wstep. wstep. wstep. wstep. by apply inv_batch_gc.
Qed.

Lemma inv_0 : lvl_inv lheap0 lsm0.
Proof. split; cbn; try done; intros *; rewrite lookup_empty; done. Qed.

Lemma lvl_reach_inv h s : lvl_reach h s -> lvl_inv h s.
Proof.
  induction 1 as [|o h s i h' s' _ IH HO HM]; [apply inv_0|].
  apply (wpu_may LSM _ _ _ _ _ _ (lvl_op_safe o h s IH HO) HM).
Qed.

(** C6. Every method of the LevelDB binding, called as documented in a state
    that such calls lead to, runs to its end on any LevelDB, makes only calls
    LevelDB's headers allow, and leads to such a state again: objects and
    handles stay paired, no handle is used after it was deleted or deleted
    twice, and no database is deleted before its iterators. *)
Theorem lvl_calls_safe {W} (Eng : forall X, lsm_call X -> W -> X * W) (R : W -> lsm -> Prop)
    (EN : Engine LSM Eng R) o h s w :
  lvl_reach h s -> lvl_ok o h s -> R w s ->
  ends LSM (fun _ => False) (fun r s' => lvl_reach (snd r) s') R (run Eng (lvl_exec o h) w).
Proof.
  intros HR HO HW. eapply (run_sound LSM); [exact EN|exact HW|].
  eapply wpu_mono; [exact (wpu_result _ _ _ _ _ (lvl_op_safe o h s (lvl_reach_inv h s HR) HO))|done|].
  intros [i h'] s' [HM _]. by eapply lreach_op.
Qed.
End Ops.

(** ** An example *)
Definition demo_fam : fam_st := Fam 0 (lvl_comparator (Num I32)) [].
Definition demo_lheap : lheap := lup_db <[0%nat := LDB (Num I32) Str (Some 1%nat) None]> lheap0.
Definition demo_lsm : lsm := up_dbs <[1%nat := LDb [demo_fam] None]> lsm0.

Lemma demo_inv : @lvl_inv demo_lheap demo_lsm.
Proof.
  apply (inv_new_db (Num I32) Str 0 1 None []); [apply inv_0|apply lookup_empty|apply lookup_empty|split; constructor|done].
Qed.

Lemma lvl_calls_safe_witness :
  ends LSM (fun _ => False) (fun r s' => @lvl_reach SimpleV8 (snd r) s') eq
    (run lsm_exec (@lvl_exec SimpleV8 (@LDbNew SimpleV8 (Num I32) Str 0 (SStr (lit "db")) (SNum 4096)) lheap0) lsm0).
Proof.
  apply (@lvl_calls_safe SimpleV8 lsm lsm_exec eq lsm_conforms _ lheap0 lsm0 lsm0); [constructor| |done].
  split; [apply lookup_empty|]. intros _. exists 4096. reflexivity.
Defined.
