(* ===== verification/LsmBodies.v ===== *)
(** * The bodies both bindings share

    What the methods of [LvlBind] and [RocksBind] do once they have their
    objects, on an engine that answers as [LsmApi] says and as [P] says
    besides. *)
From S2P Require Import Prelude Nan KvTypes Prog Store LmdbApi LmdbObjects LmdbInv.
From S2P Require Import LvlFormat LvlBatch LsmApi LsmEngine LvlBind LvlBindSafe.

Definition LSM_with (P : forall X, lsm_call X -> X -> Prop) : api lsm_call :=
  Api lsm (fun X => @lsm_allowed X) (fun X s c x s' => @lsm_answers X s c x s' /\ P X c x).

Lemma wpm_LSM {Hp A} U (m : meth lsm_call Hp A) h s Q : wpm (LSM_with (fun _ _ _ => True)) U m h s Q -> wpm LSM U m h s Q.
Proof. unfold wpm. apply wpu_stronger. done. Qed.

Lemma wpm_sure {Hp A} U (m : meth lsm_call Hp A) h s Q : wpm LSM U m h s Q -> wpm LSM_sure U m h s Q.
Proof. unfold wpm. apply wpu_stronger. by intros X c s1 x s2 []. Qed.

Section Bodies.
Context `{V8} {Hp : Type} (P : forall X, lsm_call X -> X -> Prop) (K V : kv_type).
Abbreviation safe m h s Q := (wpm (LSM_with P) (fun _ => False) m h s Q).

Lemma get_body_ok d cf a k (h : Hp) s d0 i f :
  find_fam s d cf = Some (d0, i, f) -> kv_encode K a = Ok k -> dom (f_cmp f) k = true ->
  (forall k v, (k, v) ∈ f_data f -> decodes V v) ->
  safe (get_body K V d cf a) h s (fun r h' s' => h' = h /\ s' = s /\
    ((exists t v, P _ (lsm_Get d cf k) (LError t, v) /\ js r = JsThrow (status_text (LError t))) \/
     match s_get (f_cmp f) k (f_data f) with
     | Some v => exists x, kv_decode V v (length v) = Ok x /\ js r = JsReturn x
     | None => js r = JsThrow (lit "NotFound: ")
     end)).
Proof.
  intros Hf Hk Hd Hdec. unfold get_body. wstep. wstep. wstep. wstep; [by exists d0, i, f|].
  intros q s' ((-> & d1 & i1 & f1 & Hf' & Hans) & HP). rewrite Hf in Hf'. injection Hf' as <- <- <-. cbv zeta.
  destruct Hans as [Hans|(t & v & ->)]; [|cbn; wstep; split_and!; try done; left; by exists t, v].
  destruct (s_get (f_cmp f) k (f_data f)) as [v|] eqn:Hg.
  - subst q. cbn. apply s_get_in in Hg as [k' Hin]. destruct (Hdec k' v Hin) as [x Hx]. wstep. wstep. wstep.
    split_and!; try done. right. by exists x.
  - destruct Hans as [v ->]. cbn. wstep. split_and!; try done. by right.
Qed.

(** What a write leaves, by its status. *)
Definition wrote (st : lstatus) (s s1 : lsm) (r : info) (s' : lsm) : Prop :=
  js r = JsReturn v_undefined /\ s' = s1 \/
  (exists t, st = LError t /\ js r = JsThrow (status_text st)) /\ (s' = s \/ s' = s1).

Lemma written_wrote st s s1 s' : written st s s1 s' -> wrote st s s1 (done_status st) s'.
Proof. intros [[-> ->]|[[t ->] Hs]]; [by left|]. right. split; [by exists t|done]. Qed.

Lemma put_body_ok d cf k v (h : Hp) s d0 i f :
  find_fam s d cf = Some (d0, i, f) -> dom (f_cmp f) k = true ->
  safe (put_body d cf k v) h s (fun r h' s' => h' = h /\ exists st, P _ (lsm_Put d cf k v) st /\
    wrote st s (set_fam d0 i (do_record (RPut k v) f) s) r s').
Proof.
  intros Hf Hd. unfold put_body. wstep. wstep; [by exists d0, i, f|]. intros st s' ((s1 & E & W) & HP). wstep.
  cbn [do_records] in E. rewrite Hf in E. cbn [mbind option_bind rec_key] in E. rewrite Hd in E. injection E as <-.
  split; [done|]. exists st. split; [done|]. by apply written_wrote.
Qed.

Lemma del_body_ok d cf k (h : Hp) s d0 i f :
  find_fam s d cf = Some (d0, i, f) -> dom (f_cmp f) k = true ->
  safe (del_body d cf k) h s (fun r h' s' => h' = h /\ exists st, P _ (lsm_Delete d cf k) st /\
    wrote st s (set_fam d0 i (do_record (RDelete k) f) s) r s').
Proof.
  intros Hf Hd. unfold del_body. wstep. wstep; [by exists d0, i, f|]. intros st s' ((s1 & E & W) & HP). wstep.
  cbn [do_records] in E. rewrite Hf in E. cbn [mbind option_bind rec_key] in E. rewrite Hd in E. injection E as <-.
  split; [done|]. exists st. split; [done|]. by apply written_wrote.
Qed.

Lemma cursorOp_body_ok it fn (h : Hp) s x :
  l_its s !! it = Some x -> match fn with Next | Prev => is_Some (it_at x) | _ => True end ->
  safe (cursorOp_body (Some it) fn) h s (fun r h' s' => h' = h /\
    s' = up_its <[it := set_pos (it_go x fn) x]> s /\
    r = set_ret (v_bool (bool_decide (is_Some (it_at (set_pos (it_go x fn) x))))) info0).
Proof.
  intros Hx Hfn. unfold cursorOp_body. wstep. wstep; [destruct fn; cbn; rewrite ?Hx; (by eexists) || (by exists x)|].
  intros _ s' ((i' & x' & [= <-] & Hx' & ->) & _). assert (x' = x) as -> by congruence. wstep.
  assert (Hg : get_it (up_its <[it := set_pos (it_go x fn) x]> s) (Some it) = Some (set_pos (it_go x fn) x))
    by (cbn; by rewrite lookup_insert_eq).
  wstep; [by eexists|]. intros b s' ((-> & y & Hy & ->) & _). rewrite Hg in Hy. injection Hy as <-. by wstep.
Qed.

Lemma gte_body_ok it a k (h : Hp) s x :
  l_its s !! it = Some x -> kv_encode K a = Ok k -> dom (it_cmp x) k = true ->
  safe (gte_body K (Some it) a) h s (fun r h' s' => h' = h /\
    s' = up_its <[it := set_pos (it_seek x k) x]> s /\
    r = set_ret (v_bool (bool_decide (is_Some (it_at (set_pos (it_seek x k) x))))) info0).
Proof.
  intros Hx Hk Hd. unfold gte_body. wstep. wstep. wstep. wstep; [by exists x|].
  intros _ s' ((i' & x' & [= <-] & Hx' & ->) & _). assert (x' = x) as -> by congruence. wstep.
  assert (Hg : get_it (up_its <[it := set_pos (it_seek x k) x]> s) (Some it) = Some (set_pos (it_seek x k) x))
    by (cbn; by rewrite lookup_insert_eq).
  wstep; [by eexists|]. intros b s' ((-> & y & Hy & ->) & _). rewrite Hg in Hy. injection Hy as <-. by wstep.
Qed.

Lemma key_body_ok it (h : Hp) s x k v y :
  l_its s !! it = Some x -> it_at x = Some (k, v) -> kv_decode K k (length k) = Ok y ->
  safe (key_body K (Some it)) h s (fun r h' s' => h' = h /\ s' = s /\ js r = JsReturn y).
Proof.
  intros Hx Hat Hy. unfold key_body. wstep. wstep; [by exists x|]. intros b s' ((-> & _) & _). cbv zeta. wstep.
  wstep; [exists x; split; [done|by eexists]|]. intros k' s' ((-> & x' & v' & Hg & Hat') & _). cbn in Hg.
  assert (k' = k) as -> by congruence. wstep. wstep. wstep. by destruct b.
Qed.

Lemma value_body_ok it (h : Hp) s x k v y :
  l_its s !! it = Some x -> it_at x = Some (k, v) -> kv_decode V v (length v) = Ok y ->
  safe (value_body V (Some it)) h s (fun r h' s' => h' = h /\ s' = s /\ js r = JsReturn y).
Proof.
  intros Hx Hat Hy. unfold value_body. wstep. wstep; [by exists x|]. intros b s' ((-> & _) & _). cbv zeta. wstep.
  wstep; [exists x; split; [done|by eexists]|]. intros v' s' ((-> & x' & k' & Hg & Hat') & _). cbn in Hg.
  assert (v' = v) as -> by congruence. wstep. wstep. wstep. by destruct b.
Qed.
End Bodies.

(** What is known of the reads and writes that fail. *)
Class Failing (P : forall X, lsm_call X -> X -> Prop) (fl : Prop) : Prop := {
  fail_get d cf k t v : P _ (lsm_Get d cf k) (LError t, v) -> fl;
  fail_put d cf k v t : P _ (lsm_Put d cf k v) (LError t) -> fl;
  fail_del d cf k t : P _ (lsm_Delete d cf k) (LError t) -> fl
}.

#[export] Instance may_fail : Failing (fun _ _ _ => True) True.
Proof. done. Qed.

#[export] Instance never_fails : Failing (fun X => @lsm_sound X) False.
Proof. by split; intros *; cbn. Qed.
