(* ===== verification/LvlBindSpec.v ===== *)
(** * What a LevelDB database does for JavaScript

    The methods of [LvlBind] against an ordered store: calls on a database,
    batches, cursors, and what the methods do where they should not be called. *)
From S2P Require Import Prelude Nan KvTypes Prog Store LmdbApi LmdbObjects LmdbInv.
From S2P Require Import LvlFormat LvlBatch LsmApi LsmEngine LvlBind LvlBindSafe LsmBodies.

Section Spec.
Context `{V8} (K V : kv_type).

(** ** The specification *)
Inductive ldb_op := LPut (a b : value) | LGet (a : value) | LDel (a : value).

Definition spec_ldb (o : ldb_op) (f : fam_st) : res (js_result * fam_st) :=
  match o with
  | LPut a b => k ← kv_encode K a; v ← kv_encode V b; Ok (JsReturn v_undefined, do_record (RPut k v) f)
  | LDel a => k ← kv_encode K a; Ok (JsReturn v_undefined, do_record (RDelete k) f)
  | LGet a =>
      k ← kv_encode K a;
      match s_get (f_cmp f) k (f_data f) with
      | Some v => x ← kv_decode V v (length v); Ok (JsReturn x, f)
      | None => Ok (JsThrow (lit "NotFound: "), f)
      end
  end.

Fixpoint spec_ldb_all (l : list ldb_op) (f : fam_st) : res (list js_result * fam_st) :=
  match l with
  | [] => Ok ([], f)
  | o :: l' => r ← spec_ldb o f; rs ← spec_ldb_all l' (snd r); Ok (fst r :: fst rs, snd rs)
  end.

(** How a call may end when the engine may fail, if [fl]: as specified or with
    an exception, and a write that failed may have been done or not. *)
Definition ends_ldb (fl : Prop) (o : ldb_op) (f : fam_st) (r : js_result) (f' : fam_st) : Prop :=
  spec_ldb o f = Ok (r, f') \/
  fl /\ (exists t, r = JsThrow t) /\ (f' = f \/ exists r0, spec_ldb o f = Ok (r0, f')).

Fixpoint ldb_runs (fl : Prop) (l : list ldb_op) (f : fam_st) (rs : list js_result) (f' : fam_st) : Prop :=
  match l, rs with
  | [], [] => f' = f
  | o :: l', r :: rs' => exists f1, ends_ldb fl o f r f1 /\ ldb_runs fl l' f1 rs' f'
  | _, _ => False
  end.

Lemma ldb_runs_exact l f rs f' : ldb_runs False l f rs f' -> spec_ldb_all l f = Ok (rs, f').
Proof.
  revert f rs. induction l as [|o l IH]; intros f [|r rs]; cbn [ldb_runs spec_ldb_all]; try done; [by intros ->|].
  intros (f1 & [->|([] & _)] & Hr). cbn [mbind res_bind fst snd]. by rewrite (IH f1 rs Hr).
Qed.

Definition run_ldb (i : nat) (o : ldb_op) : vmeth info :=
  match o with
  | LPut a b => lvl_db_put K V i a b None
  | LGet a => lvl_db_get K V i a
  | LDel a => lvl_db_del K V i a None
  end.

Fixpoint run_ldb_all (i : nat) (l : list ldb_op) : vmeth (list js_result) :=
  match l with
  | [] => mret []
  | o :: l' => r ← run_ldb i o; rs ← run_ldb_all i l'; mret (js r :: rs)
  end.

(** The object [i] is a database of the entries of [f], all of its types. *)
Definition lvl_holds (h : lheap) (s : lsm) (i : nat) (f : fam_st) : Prop :=
  lvl_inv h s /\ (exists dw d, has_ldb h K V i dw /\ db_alive s dw d f) /\
  forall k v, (k, v) ∈ f_data f -> decodes V v.

Definition ldb_op_ok (o : ldb_op) : Prop :=
  match o with
  | LPut a b => encodes K a /\ exists v, kv_encode V b = Ok v /\ decodes V v
  | LGet a | LDel a => encodes K a
  end.

(** ** Batches *)
Inductive lbat_op := BPut (a b : value) | BDel (a : value).

Definition bat_record (o : lbat_op) : res record :=
  match o with
  | BPut a b => k ← kv_encode K a; v ← kv_encode V b; Ok (RPut k v)
  | BDel a => k ← kv_encode K a; Ok (RDelete k)
  end.

Fixpoint run_lbat (i j : nat) (l : list lbat_op) : vmeth unit :=
  match l with
  | [] => mret tt
  | BPut a b :: l' => lvl_db_put K V i a b (Some j) ;; run_lbat i j l'
  | BDel a :: l' => lvl_db_del K V i a (Some j) ;; run_lbat i j l'
  end.

(** [batch.put(...)]..., [db.write(batch)] *)
Definition run_batch_write (i j : nat) (l : list lbat_op) : vmeth info := run_lbat i j l ;; lvl_db_write K V i j.

(** ** Cursors *)

(** [for (ok = c.first(); ok; ok = c.next()) use(c.key(), c.val())], at most
    [fuel] turns. *)
Fixpoint lscan_loop (fuel : nat) (c : nat) (ok : bool) : vmeth (list (js_result * js_result)) :=
  match fuel with
  | O => mret []
  | S f =>
      if ok then
        k ← lvl_cursor_key K V c;
        v ← lvl_cursor_value K V c;
        r ← lvl_cursor_next K V c;
        rs ← lscan_loop f c (BooleanValue (rv r));
        mret ((js k, js v) :: rs)
      else mret []
  end.

(** The loop starts with [c.first()], or with [c.gte(a)]. *)
Definition lscan (fuel c : nat) (from : option value) : vmeth (list (js_result * js_result)) :=
  r ← match from with None => lvl_cursor_first K V c | Some a => lvl_cursor_gte K V c a end;
  lscan_loop fuel c (BooleanValue (rv r)).

Definition lshown (p : bytes * bytes) : res (js_result * js_result) :=
  a ← kv_decode K (fst p) (length (fst p)); b ← kv_decode V (snd p) (length (snd p)); Ok (JsReturn a, JsReturn b).

Lemma mapM_Some_records {A B} (f : A -> res B) l k : mapM f l = Ok k -> Forall (fun y => exists x, f x = Ok y) k.
Proof.
  revert k. induction l as [|x l IH]; intros k; [intros [= <-]; constructor|]. cbn.
  destruct (f x) as [y|] eqn:E; [|done]. cbn. destruct (mapM f l) as [ys|]; [|done]. intros [= <-]. constructor; eauto.
Qed.

(** In a sorted store the entries from the one a seek finds on are those not
    below the key. *)
Lemma seek_filter c `{!CmpLaws c} l k :
  store_wf c None l -> dom c k = true ->
  match s_find (fun p => 0 <=? cmp c (fst p) k) l with Some n => drop n l | None => [] end =
    filter (fun p => 0 <= cmp c (fst p) k) l.
Proof.
  intros [Hd Hs] Hk. induction Hs as [|p l Hs IH Hl]; [done|]. apply Forall_cons in Hd as [[Hp _] Hd]. cbn [s_find].
  destruct (Z.leb_spec 0 (cmp c (fst p) k)) as [Hge|Hlt].
  - symmetry. apply list_filter_all. constructor; [done|]. rewrite Forall_forall in *. intros q Hq.
    destruct (Hl q Hq) as [Hpq|[_ []]]. destruct (Hd q Hq) as [Hdq _].
    destruct (Z.eq_dec (cmp c (fst p) k) 0) as [E|E]; [apply cmp_eq in E as <-; [|done|done]; pose proof (cmp_opp (fst p) (fst q) Hp Hdq); lia|].
    pose proof (cmp_opp k (fst p) Hk Hp) as O1. pose proof (cmp_opp k (fst q) Hk Hdq) as O2.
    pose proof (cmp_trans k (fst p) (fst q) Hk Hp Hdq). lia.
  - rewrite filter_cons_False by lia. rewrite <- IH by done. by destruct (s_find _ l).
Qed.

Definition ldb_typed (f : fam_st) : Prop := forall k v, (k, v) ∈ f_data f -> decodes V v.

(** The value a record puts can be read back. *)
Definition record_typed (r : record) : Prop := forall k v, r = RPut k v -> decodes V v.

Lemma do_record_typed r f : record_typed r -> ldb_typed f -> ldb_typed (do_record r f).
Proof.
  intros Hr Ht k v Hin. destruct r as [k' v'|k']; cbn in Hin.
  - apply s_put_in in Hin as [[= -> ->]|Hin]; [by eapply Hr|by eapply Ht].
  - apply list_elem_of_filter in Hin as [_ Hin]. by eapply Ht.
Qed.

(** ** Calls on a database *)
Lemma lvl_holds_after h s i f r dw d :
  lvl_holds h s i f -> has_ldb h K V i dw -> db_alive s dw d f ->
  dom (f_cmp f) (rec_key r) = true -> (forall k v, r = RPut k v -> decodes V v) ->
  lvl_holds h (up_dbs <[d := LDb [do_record r f] (ldb_cache dw)]> s) i (do_record r f).
Proof.
  intros (HI & _ & Hdec) Hi Ha Hd Hv. pose proof Ha as (Ed & Hx & Hc & Hw).
  destruct (do_record_wf (ldb_key dw) r f Hc Hw Hd) as [Hc' Hw']. split; [|split].
  - eapply inv_write; try done. apply Hi.
  - exists dw, d. split; [done|]. split; [done|]. split; [apply lookup_insert_eq|done].
  - by apply do_record_typed.
Qed.

Lemma set_fam_only s d f f' cc : l_dbs s !! d = Some (LDb [f] cc) -> set_fam d 0 f' s = up_dbs <[d := LDb [f'] cc]> s.
Proof.
  intros Hx. unfold set_fam, up_dbs. f_equal. apply map_eq. intros j.
  destruct (decide (j = d)) as [->|]; [by rewrite lookup_alter_eq, lookup_insert_eq, Hx|by rewrite lookup_alter_ne, lookup_insert_ne].
Qed.

(** A write of the binding leaves the record done, or throws. *)
Lemma lvl_wrote (fl : Prop) o r0 h s i f dw d st q s' :
  lvl_holds h s i f -> has_ldb h K V i dw -> db_alive s dw d f -> dom (f_cmp f) (rec_key r0) = true ->
  (forall k v, r0 = RPut k v -> decodes V v) -> spec_ldb o f = Ok (JsReturn v_undefined, do_record r0 f) ->
  (forall t, st = LError t -> fl) -> wrote st s (set_fam d 0 (do_record r0 f) s) q s' ->
  exists f', ends_ldb fl o f (js q) f' /\ lvl_holds h s' i f'.
Proof.
  intros HH Hi Ha Hd Hv E Hfl W. pose proof Ha as (_ & Hx & _). rewrite (set_fam_only _ _ _ _ _ Hx) in W.
  pose proof (lvl_holds_after h s i f r0 dw d HH Hi Ha Hd Hv) as HH'.
  destruct W as [[-> ->]|[(t & Ht & ->) [->| ->]]].
  - exists (do_record r0 f). split; [by left|done].
  - exists f. split; [|done]. right. split; [by eapply Hfl|]. split; [by eexists|by left].
  - exists (do_record r0 f). split; [|done]. right. split; [by eapply Hfl|]. split; [by eexists|right; by eexists].
Qed.

Lemma ldb_one (P : forall X, lsm_call X -> X -> Prop) (fl : Prop) `{!Failing P fl} h s i f o :
  lvl_holds h s i f -> ldb_op_ok o ->
  wpm (LSM_with P) (fun _ => False) (run_ldb i o) h s (fun q h' s' => h' = h /\ exists f', ends_ldb fl o f (js q) f' /\ lvl_holds h s' i f').
Proof.
  intros HH Ho. pose proof HH as (HI & (dw & d & Hi & Ha) & Hdec). pose proof Ha as (Hd & Hx & Hc & Hw).
  pose proof (has_ldb_unwrap _ _ _ _ _ Hi) as Hu. pose proof (find_fam_default _ _ _ _ Hx eq_refl) as Hf. rewrite <- Hd in Hf.
  assert (Hdom : forall a k, kv_encode K a = Ok k -> dom (f_cmp f) k = true).
  { intros a k Hk. rewrite Hc. destruct Hi as (_ & -> & _). by eapply lvl_encode_dom. }
  destruct o as [a b|a|a]; cbn [ldb_op_ok] in Ho; cbn [run_ldb].
  - destruct Ho as [[k Hk] (v & Hv & Hvd)]. unfold lvl_db_put. do 6 wstep.
    eapply wpm_mono; [eapply put_body_ok; [exact Hf|by eapply Hdom]|]. intros q h' s' (-> & st & HP & W). split; [done|].
    eapply (lvl_wrote fl _ (RPut k v)); [done|done|done|by eapply Hdom|by intros ? ? [= <- <-]|cbn; by rewrite Hk, Hv| |exact W].
    intros t ->. by eapply fail_put.
  - destruct Ho as [k Hk]. unfold lvl_db_get. do 2 wstep.
    eapply wpm_mono; [eapply get_body_ok; [exact Hf|exact Hk|by eapply Hdom|done]|]. intros q h' s' (-> & -> & Hq). split; [done|].
    exists f. split; [|done]. destruct Hq as [(t & v & HP & ->)|Hq].
    + right. split; [by eapply fail_get|]. split; [by eexists|by left].
    + left. cbn. rewrite Hk. cbn. destruct (s_get (f_cmp f) k (f_data f)); [destruct Hq as (x & -> & ->)|rewrite Hq]; done.
  - destruct Ho as [k Hk]. unfold lvl_db_del. do 4 wstep.
    eapply wpm_mono; [eapply del_body_ok; [exact Hf|by eapply Hdom]|]. intros q h' s' (-> & st & HP & W). split; [done|].
    eapply (lvl_wrote fl _ (RDelete k)); [done|done|done|by eapply Hdom|by intros ? ? [=]|cbn; by rewrite Hk| |exact W].
    intros t ->. by eapply fail_del.
Qed.

Lemma spec_ldb_one o f : ldb_op_ok o -> ldb_typed f -> exists r f1, spec_ldb o f = Ok (r, f1) /\ ldb_typed f1.
Proof.
  intros Ho Hf. destruct o as [a b|a|a]; cbn in Ho |- *.
  - destruct Ho as [[k ->] (v & -> & Hv)]. do 2 eexists. split; [done|].
    intros k' v' [[= -> ->]|Hin]%s_put_in; [done|by eapply Hf].
  - destruct Ho as [k ->]. cbn. destruct (s_get _ _ _) as [v|] eqn:Hg; [|by do 2 eexists].
    apply s_get_in in Hg as [k' Hin]. destruct (Hf _ _ Hin) as [x ->]. by do 2 eexists.
  - destruct Ho as [k ->]. do 2 eexists. split; [done|]. intros k' v' [_ Hin]%list_elem_of_filter. by eapply Hf.
Qed.

Lemma spec_ldb_total l f : ldb_typed f -> Forall ldb_op_ok l -> exists rs f', spec_ldb_all l f = Ok (rs, f').
Proof.
  intros Hf Hl. revert f Hf. induction Hl as [|o l Ho _ IH]; intros f Hf; [by exists [], f|].
  destruct (spec_ldb_one o f Ho Hf) as (r & f1 & E & Hf1).
  destruct (IH f1 Hf1) as (rs & f' & E'). exists (r :: rs), f'. cbn [spec_ldb_all]. rewrite E. cbn [mbind res_bind snd].
  by rewrite E'.
Qed.

Lemma ldb_all (P : forall X, lsm_call X -> X -> Prop) (fl : Prop) `{!Failing P fl} l h s i f :
  lvl_holds h s i f -> Forall ldb_op_ok l ->
  wpm (LSM_with P) (fun _ => False) (run_ldb_all i l) h s (fun q h' s' => h' = h /\ exists f', ldb_runs fl l f q f' /\ lvl_holds h s' i f').
Proof.
  intros HH Hl. revert s f HH. induction Hl as [|o l Ho _ IH]; intros s f HH.
  { apply wpm_ret. split; [done|]. by exists f. }
  cbn [run_ldb_all]. apply wpm_bind. eapply wpm_mono; [exact (ldb_one P fl h s i f o HH Ho)|].
  intros q h' s1 (-> & f1 & Hq & HH1). apply wpm_bind. eapply wpm_mono; [exact (IH s1 f1 HH1)|].
  intros qs h' s2 (-> & f2 & Hqs & HH2). apply wpm_ret. split; [done|]. exists f2. split; [by exists f1|done].
Qed.


(** ** Batches *)
Definition db_is (h : lheap) (s : lsm) (i : nat) (f : fam_st) : Prop :=
  lvl_inv h s /\ exists dw d, has_ldb h K V i dw /\ db_alive s dw d f.

Definition batch_has (h : lheap) (j : nat) (l : list record) : Prop :=
  exists bw, lh_batch h !! j = Some bw /\ batch_ok bw l.

Lemma db_is_batch h s i f j bw l : db_is h s i f -> batch_ok bw l -> db_is (lup_batch <[j := bw]> h) s i f.
Proof. intros [HI (dw & d & Hi & Ha)] Hb. split; [by eapply inv_batch|]. by exists dw, d. Qed.

Lemma record_dom o r : bat_record o = Ok r -> dom (lvl_comparator K) (rec_key r) = true.
Proof.
  destruct o as [a b|a]; cbn; destruct (kv_encode K a) as [k|] eqn:Hk; cbn; try done.
  - destruct (kv_encode V b); cbn; [|done]. intros [= <-]. by eapply lvl_encode_dom.
  - intros [= <-]. by eapply lvl_encode_dom.
Qed.

Lemma run_lbat_spec ops recs h s i j f l0 :
  db_is h s i f -> batch_has h j l0 -> mapM bat_record ops = Ok recs -> Forall record_ok recs ->
  Z.of_nat (length (l0 ++ recs)) < 2 ^ 31 ->
  wpm LSM (fun _ => False) (run_lbat i j ops) h s (fun _ h' s' =>
    s' = s /\ db_is h' s i f /\ batch_has h' j (l0 ++ recs)).
Proof.
  revert recs h l0. induction ops as [|o ops IH]; intros recs h l0 HD HB E HR Hn.
  { injection E as <-. apply wpm_ret. by rewrite app_nil_r. }
  cbn in E. destruct (bat_record o) as [r|] eqn:Er; [|done]. cbn in E. destruct (mapM bat_record ops) as [rs|] eqn:Es; [|done].
  injection E as <-. apply Forall_cons in HR as [Hr HR]. rewrite length_app in Hn. cbn in Hn.
  assert (HM : forall m : vmeth info,
    wpm LSM (fun _ => False) m h s (fun _ h' s' => s' = s /\ db_is h' s i f /\ batch_has h' j (l0 ++ [r])) ->
    wpm LSM (fun _ => False) (m ;; run_lbat i j ops) h s (fun _ h' s' =>
      s' = s /\ db_is h' s i f /\ batch_has h' j (l0 ++ r :: rs))).
  { intros m Hm. apply wpm_bind. eapply wpm_mono; [exact Hm|]. intros q h' s' (-> & HD' & HB').
    replace (l0 ++ r :: rs) with ((l0 ++ [r]) ++ rs) by by rewrite <- app_assoc.
    apply IH; try done. rewrite !length_app. cbn. lia. }
  destruct HD as [HI (dw & d & Hi & Ha)]. pose proof (has_ldb_unwrap _ _ _ _ _ Hi) as Hu.
  destruct HB as (bw & Hj & [seq Hb]). destruct (batch_add_ok _ _ _ Hb r Hr) as (rep & HA & HB'); [lia|].
  assert (HF : db_is (lup_batch <[j := LBatch rep]> h) s i f /\ batch_has (lup_batch <[j := LBatch rep]> h) j (l0 ++ [r])).
  { split; [eapply (db_is_batch _ _ _ _ _ _ (l0 ++ [r])); [split; [done|by exists dw, d]|by exists seq]|].
    exists (LBatch rep). split; [apply lookup_insert_eq|by exists seq]. }
  destruct o as [a b|a]; cbn in Er; cbn [run_lbat]; apply HM.
  - destruct (kv_encode K a) as [k|] eqn:Hk; [|done]. cbn in Er. destruct (kv_encode V b) as [v|] eqn:Hv; [|done].
    injection Er as <-. cbn in HA. unfold lvl_db_put. wstep. wstep. wstep. wstep. wstep. wstep. wstep. wstep. wstep.
    wstep. wstep. wstep. by wstep.
  - destruct (kv_encode K a) as [k|] eqn:Hk; [|done]. injection Er as <-. cbn in HA. unfold lvl_db_del.
    wstep. wstep. wstep. wstep. wstep. wstep. wstep. wstep. wstep. wstep. by wstep.
Qed.

(** C7. A batch is written as a whole, whatever LevelDB fails at: while records
    are put into it the database stays as it was; [write] leaves either that
    database or the one with all the records, in order; when it does not throw,
    the latter; and the batch keeps its records. *)
Theorem lvl_batch_atomic ops recs h s i j f l0 :
  db_is h s i f -> batch_has h j l0 -> mapM bat_record ops = Ok recs -> Forall record_ok recs ->
  Z.of_nat (length (l0 ++ recs)) < 2 ^ 31 ->
  Forall (fun r => dom (lvl_comparator K) (rec_key r) = true) l0 ->
  wpm LSM (fun _ => False) (run_batch_write i j ops) h s (fun q h' s' =>
    let f1 := foldl (flip do_record) f (l0 ++ recs) in
    batch_has h' j (l0 ++ recs) /\
    (db_is h' s' i f1 \/ db_is h' s' i f /\ exists msg, js q = JsThrow msg)).
Proof.
  intros HD HB E HR Hn Hl0. unfold run_batch_write. apply wpm_bind.
  eapply wpm_mono; [exact (run_lbat_spec ops recs h s i j f l0 HD HB E HR Hn)|]. clear h HD HB.
  intros _ h s0 (-> & [HI (dw & d & Hi & Ha)] & (bw & Hj & [seq Hb])). pose proof (has_ldb_unwrap _ _ _ _ _ Hi) as Hu.
  pose proof Ha as (Hd & Hx & Hc & Hw).
  assert (Hl : Forall (fun r => dom (lvl_comparator K) (rec_key r) = true) (l0 ++ recs)).
  { apply Forall_app. split; [done|]. apply mapM_Some_records in E. eapply Forall_impl; [exact E|].
    intros r [o Ho]. by eapply record_dom. }
  assert (Hl' : Forall (fun r => dom (f_cmp f) (rec_key r) = true) (l0 ++ recs)) by (rewrite Hc; by destruct Hi as (_ & -> & _)).
  pose proof (do_records_default _ _ _ _ _ Hx Hl') as E1.
  unfold lvl_db_write. wstep. wstep. wstep. wstep. wstep. rewrite Hd. wstep.
  { exists seq, (l0 ++ recs). split; [done|]. by rewrite E1. }
  intros r s' (seq' & l' & s1 & Hb' & E2 & W & seq'' & Hb''). pose proof (batch_is_inj _ _ _ _ _ Hb Hb') as [_ <-].
  rewrite E1 in E2. injection E2 as <-. wstep. wstep. wstep. cbv zeta.
  assert (batch_ok (LBatch (snd r)) (l0 ++ recs)) as Hok by by exists seq''.
  split; [exists (LBatch (snd r)); split; [apply lookup_insert_eq|done]|].
  destruct (foldl_wf K _ f ltac:(by destruct Hi as (_ & <- & _)) Hw Hl) as [Hc1 Hw1].
  assert (D1 : db_is h (up_dbs <[d := LDb [foldl (flip do_record) f (l0 ++ recs)] (ldb_cache dw)]> s) i
    (foldl (flip do_record) f (l0 ++ recs))).
  { split; [eapply inv_write; try done; [apply Hi|by destruct Hi as (_ & -> & _)]|]. exists dw, d. split; [done|].
    split; [done|]. split; [apply lookup_insert_eq|]. split; [by destruct Hi as (_ & -> & _)|done]. }
  destruct W as [[_ ->]|[[t Ht] [->| ->]]].
  - left. by eapply db_is_batch.
  - right. split; [eapply db_is_batch; [split; [done|by exists dw, d]|done]|]. rewrite Ht. by eexists.
  - left. by eapply db_is_batch.
Qed.

(** ** Cursors *)

(** The cursor object [c] has the iterator [x]. *)
Definition cur_is (h : lheap) (s : lsm) (c : nat) (x : it_st) : Prop :=
  lvl_inv h s /\ exists cw it, has_lcur h K V c cw /\ cur_alive s cw it x.

(** What moving the iterator leaves. *)
Lemma cur_is_move h s c x it cw o :
  cur_is h s c x -> has_lcur h K V c cw -> lc_cursor cw = Some it -> l_its s !! it = Some x ->
  cur_is h (up_its <[it := set_pos o x]> s) c (set_pos o x).
Proof.
  intros [HI (cw' & it' & Hc' & Ha)] Hc E Hx. split; [by apply inv_move|]. exists cw, it. split; [done|].
  assert (cw' = cw) as -> by (destruct Hc as (? & _), Hc' as (? & _); congruence).
  destruct Ha as (? & ? & ? & ? & ?). split; [done|]. split; [apply lookup_insert_eq|done].
Qed.

Lemma it_at_pos x n p : it_pos x = Some n -> it_data x !! n = Some p -> it_at x = Some p.
Proof. intros Hp Hn. unfold it_at. by rewrite Hp. Qed.

(** A method that moves the iterator [x] to [o] and reports whether there is
    an entry. *)
Lemma move_spec fn h s c x :
  cur_is h s c x -> (match fn with Next | Prev => is_Some (it_at x) | _ => True end) ->
  wpm LSM (fun _ => False) (lvl_cursorOp K V fn c) h s (fun q h' s' =>
    h' = h /\ cur_is h s' c (set_pos (it_go x fn) x) /\
    rv q = v_bool (bool_decide (is_Some (it_at (set_pos (it_go x fn) x))))).
Proof.
  intros HC Hfn. pose proof HC as [HI (cw & it & Hc & Ha)]. pose proof (has_lcur_unwrap _ _ _ _ _ Hc) as Hu.
  destruct (cur_get _ _ _ _ _ Ha eq_refl) as (Hg & E & Hx).
  unfold lvl_cursorOp, cursorOp_body. wstep. wstep. wstep. wstep.
  { destruct fn; cbn; [by eexists|by eexists|by exists x|by exists x]. }
  intros _ s' (it' & x' & E' & Hx' & ->). rewrite E in E'. injection E' as <-. assert (x' = x) as -> by congruence.
  wstep. wstep; [rewrite E; cbn; rewrite lookup_insert_eq; by eexists|].
  intros b s' (-> & x' & Hg' & ->). rewrite E in Hg'. cbn in Hg'. rewrite lookup_insert_eq in Hg'. injection Hg' as <-.
  wstep. split; [done|]. split; [|done]. by eapply cur_is_move.
Qed.

Lemma gte_spec h s c x a k :
  cur_is h s c x -> kv_encode K a = Ok k ->
  wpm LSM (fun _ => False) (lvl_cursor_gte K V c a) h s (fun q h' s' =>
    h' = h /\ cur_is h s' c (set_pos (it_seek x k) x) /\
    rv q = v_bool (bool_decide (is_Some (it_at (set_pos (it_seek x k) x))))).
Proof.
  intros HC Hk. pose proof HC as [HI (cw & it & Hc & Ha)]. pose proof (has_lcur_unwrap _ _ _ _ _ Hc) as Hu.
  destruct (cur_get _ _ _ _ _ Ha eq_refl) as (Hg & E & Hx).
  unfold lvl_cursor_gte, gte_body. wstep. wstep. wstep. wstep. wstep. wstep.
  { exists x. split; [done|]. destruct Ha as (_ & _ & -> & _). destruct Hc as (_ & -> & _). by eapply lvl_encode_dom. }
  intros _ s' (it' & x' & E' & Hx' & ->). rewrite E in E'. injection E' as <-. assert (x' = x) as -> by congruence.
  wstep. wstep; [rewrite E; cbn; rewrite lookup_insert_eq; by eexists|].
  intros b s' (-> & x' & Hg' & ->). rewrite E in Hg'. cbn in Hg'. rewrite lookup_insert_eq in Hg'. injection Hg' as <-.
  wstep. split; [done|]. split; [|done]. by eapply cur_is_move.
Qed.

Lemma key_value_spec h s c x p r :
  cur_is h s c x -> it_at x = Some p -> lshown p = Ok r ->
  wpm LSM (fun _ => False) (lvl_cursor_key K V c) h s (fun q h' s' => h' = h /\ s' = s /\ js q = fst r) /\
  wpm LSM (fun _ => False) (lvl_cursor_value K V c) h s (fun q h' s' => h' = h /\ s' = s /\ js q = snd r).
Proof.
  intros [HI (cw & it & Hc & Ha)] Hat. destruct p as [k v]. unfold lshown. cbn [fst snd].
  destruct (kv_decode K k (length k)) as [a|] eqn:Hk; [|done]. cbn.
  destruct (kv_decode V v (length v)) as [b|] eqn:Hv; [|done]. intros [= <-].
  pose proof (has_lcur_unwrap _ _ _ _ _ Hc) as Hu. destruct (cur_get _ _ _ _ _ Ha eq_refl) as (Hg & E & Hx).
  unfold lvl_cursor_key, key_body, lvl_cursor_value, value_body. split.
  - wstep. wstep. wstep. wstep; [by eexists|]. intros b0 s' (-> & x' & Hg' & ->). cbv zeta. wstep. wstep; [by exists x; eauto|].
    intros k' s' (-> & x'' & v' & Hg'' & Hat'). assert (k' = k) as -> by congruence. wstep. wstep. wstep.
    split_and!; try done. assert (x' = x) as -> by congruence. by rewrite Hat.
  - wstep. wstep. wstep. wstep; [by eexists|]. intros b0 s' (-> & x' & Hg' & ->). cbv zeta. wstep. wstep; [by exists x; eauto|].
    intros v' s' (-> & x'' & k' & Hg'' & Hat'). assert (v' = v) as -> by congruence. wstep. wstep. wstep.
    split_and!; try done. assert (x' = x) as -> by congruence. by rewrite Hat.
Qed.

Lemma scan_loop_spec `{L : !V8Laws _} fuel h s c x out :
  cur_is h s c x -> mapM lshown (match it_pos x with Some n => drop n (it_data x) | None => [] end) = Ok out ->
  (length out <= fuel)%nat ->
  wpm LSM (fun _ => False) (lscan_loop fuel c (bool_decide (is_Some (it_at x)))) h s (fun r h' s' =>
    r = out /\ h' = h /\ exists y, cur_is h s' c y).
Proof.
  revert s x out. induction fuel as [|fuel IH]; intros s x out HC Hout Hf.
  { destruct out; [|cbn in Hf; lia]. apply wpm_ret. eauto. }
  cbn [lscan_loop]. unfold it_at. destruct (it_pos x) as [n|] eqn:Hn; cbn [mbind option_bind].
  2: { rewrite bool_decide_eq_false_2 by (by intros [? ?]). injection Hout as <-. apply wpm_ret. eauto. }
  destruct (it_data x !! n) as [p|] eqn:Hp.
  2: { rewrite bool_decide_eq_false_2 by (by intros [? ?]). rewrite drop_ge in Hout by (by apply lookup_ge_None).
       injection Hout as <-. apply wpm_ret. eauto. }
  rewrite bool_decide_eq_true_2 by eauto. rewrite (drop_S _ _ _ Hp) in Hout. cbn in Hout.
  destruct (lshown p) as [r|] eqn:Hr; [|done]. cbn in Hout. destruct (mapM lshown (drop (S n) (it_data x))) as [rest|] eqn:Hrest; [|done].
  injection Hout as <-. cbn in Hf. destruct (key_value_spec h s c x p r HC (it_at_pos _ _ _ Hn Hp) Hr) as [W1 W2].
  apply wpm_bind. eapply wpm_mono; [exact W1|]. intros q1 h1 s1 (-> & -> & Hq1).
  apply wpm_bind. eapply wpm_mono; [exact W2|]. intros q2 h2 s2 (-> & -> & Hq2).
  apply wpm_bind. eapply wpm_mono; [apply (move_spec Next h s c x HC); rewrite (it_at_pos _ _ _ Hn Hp); eauto|].
  intros q3 h3 s3 (-> & HC3 & ->). rewrite BooleanValue_bool. apply wpm_bind.
  eapply wpm_mono; [apply (IH s3 _ rest HC3)|].
  - cbn [it_pos set_pos it_data it_go]. rewrite Hn. cbn [mbind option_bind]. destruct (Nat.ltb_spec (S n) (length (it_data x))); [done|].
    rewrite drop_ge in Hrest by done. by injection Hrest as <-.
  - lia.
  - intros rs h4 s4 (-> & -> & Hy). apply wpm_ret. rewrite Hq1, Hq2. by destruct r.
Qed.

Lemma mapM_total {A B} (f : A -> res B) l : Forall (fun x => exists y, f x = Ok y) l ->
  exists k, mapM f l = Ok k /\ length k = length l.
Proof.
  induction 1 as [|x l [y Hy] _ (k & Hk & Hl)]; [by exists []|]. exists (y :: k). cbn. rewrite Hy. cbn. rewrite Hk. cbn. by rewrite Hl.
Qed.

(** The entries from [bound] on. *)
Definition from_bound (x : it_st) (bound : option bytes) : entries :=
  match bound with None => it_data x | Some k => filter (fun p => 0 <= cmp (it_cmp x) (fst p) k) (it_data x) end.


(** ** Where the methods should not be called *)

(** C9. [key] and [val] of a LevelDB cursor look whether there is an entry, but
    go on without one: on a cursor that is not at an entry they ask LevelDB for
    one, which its contract forbids; and so is collecting a database before a
    cursor on it, which nothing keeps JavaScript from. *)
Theorem lvl_misuse_undefined h s U (Q : info -> lheap -> lsm -> Prop) :
  (forall c x, cur_is h s c x -> it_at x = None ->
     ~ wpm LSM U (lvl_cursor_key K V c) h s Q /\ ~ wpm LSM U (lvl_cursor_value K V c) h s Q) /\
  (forall c x i dw, cur_is h s c x -> has_ldb h K V i dw -> ldb_db dw = Some (it_db x) ->
     ~ wpm LSM U (ignore (lvl_db_dtor K V i)) h s Q).
Proof.
  split.
  - intros c x [HI (cw & it & Hc & Ha)] Hat. pose proof (has_lcur_unwrap _ _ _ _ _ Hc) as Hu.
    destruct (cur_get _ _ _ _ _ Ha eq_refl) as (Hg & E & Hx).
    assert (HA : lsm_answers s (it_Valid (lc_cursor cw)) (bool_decide (is_Some (it_at x))) s) by (split; [done|by exists x]).
    split; intros HW; [unfold lvl_cursor_key, key_body in HW|unfold lvl_cursor_value, value_body in HW];
      winv HW; winv HW; winv HW; apply (ffi_inv LSM U _ _ _ _ _ _ HA) in HW as [_ HW]; winv HW;
      apply (proj1 (wpm_ffi _ _ _ _ _ _)) in HW as [(x' & Hx' & Hat') _];
      assert (x' = x) as -> by congruence; rewrite Hat in Hat'; by destruct Hat'.
  - intros c x i dw [HI (cw & it & Hc & Ha)] Hi Hd HW. pose proof (has_ldb_unwrap _ _ _ _ _ Hi) as Hu.
    unfold ignore, lvl_db_dtor in HW. winv HW. winv HW. winv HW. winv HW.
    apply (proj1 (wpm_ffi _ _ _ _ _ _)) in HW as [HA _]. rewrite Hd in HA. destruct HA as (_ & Hno & _).
    destruct Ha as (_ & Hx & _). by destruct (Hno it x Hx).
Qed.
End Spec.

(** ** Examples *)
Lemma demo_db_alive : has_ldb demo_lheap (Num I32) Str 0 (LDB (Num I32) Str (Some 1%nat) None) /\
  db_alive demo_lsm (LDB (Num I32) Str (Some 1%nat) None) 1 demo_fam.
Proof. split; [by split_and!|]. split_and!; [done|done|done|split; constructor]. Qed.

Definition demo_calls : list (@ldb_op SimpleV8) :=
  [@LPut SimpleV8 (SNum 7) (SStr (lit "x")); @LGet SimpleV8 (SNum 7); @LDel SimpleV8 (SNum 7); @LGet SimpleV8 (SNum 7)].


Definition demo_bheap : lheap := lup_batch <[0%nat := LBatch WriteBatch]> demo_lheap.

Lemma lvl_batch_atomic_witness :
  wpm LSM (fun _ => False)
    (@run_batch_write SimpleV8 (Num I32) Str 0 0 [@BPut SimpleV8 (SNum 7) (SStr (lit "x")); @BDel SimpleV8 (SNum 8)])
    demo_bheap demo_lsm (fun q h' s' =>
      let recs := [RPut (le_split 4 7) (lit "x" ++ [NUL]); RDelete (le_split 4 8)] in
      let f1 := foldl (flip do_record) demo_fam ([] ++ recs) in
      batch_has h' 0 ([] ++ recs) /\
      (db_is (Num I32) Str h' s' 0 f1 \/ db_is (Num I32) Str h' s' 0 demo_fam /\ exists msg, js q = JsThrow msg)).
Proof.
  apply (@lvl_batch_atomic SimpleV8 (Num I32) Str
    [@BPut SimpleV8 (SNum 7) (SStr (lit "x")); @BDel SimpleV8 (SNum 8)]
    [RPut (le_split 4 7) (lit "x" ++ [NUL]); RDelete (le_split 4 8)] demo_bheap demo_lsm 0 0 demo_fam []).
  - apply (db_is_batch (Num I32) Str _ _ _ _ _ _ []); [|exists 0; apply batch_is_empty]. split; [exact demo_inv|].
    exists (LDB (Num I32) Str (Some 1%nat) None), 1%nat. apply demo_db_alive.
  - exists (LBatch WriteBatch). split; [apply lookup_insert_eq|]. exists 0. apply batch_is_empty.
  - vm_compute. reflexivity.
  - repeat constructor.
  - cbn. lia.
  - constructor.
Defined.

Definition demo_it : it_st := It 1 (lvl_comparator (Num I32)) [(le_split 4 7, lit "x" ++ [NUL])] None.

Definition demo_cheap : lheap := lup_cur <[0%nat := LCursor (Num I32) Str (Some 2%nat)]> demo_lheap.
Definition demo_clsm : lsm := up_its <[2%nat := demo_it]> demo_lsm.

Lemma demo_cur_is : cur_is (Num I32) Str demo_cheap demo_clsm 0 demo_it.
Proof.
  assert (store_wf (it_cmp demo_it) None (it_data demo_it)) as Hw.
  { split; [constructor; [split; [vm_compute; reflexivity|exact I]|constructor]|repeat constructor]. }
  assert (is_Some (l_dbs demo_lsm !! it_db demo_it)) as Hd by (exists (LDb [demo_fam] None); apply lookup_insert_eq).
  split; [apply (inv_new_cur (Num I32) Str); [exact demo_inv|apply lookup_empty|apply lookup_empty|reflexivity|exact Hd|exact Hw]|].
  exists (LCursor (Num I32) Str (Some 2%nat)), 2%nat. split; [by split_and!|].
  split; [reflexivity|]. split; [apply lookup_insert_eq|]. split; [reflexivity|]. split; [exact Hd|exact Hw].
Qed.

Lemma demo_shown : Forall (fun p => exists r, @lshown SimpleV8 (Num I32) Str p = Ok r) (it_data demo_it).
Proof.
  assert (@kv_decode SimpleV8 (Num I32) (le_split 4 7) 4 = Ok (SNum 7)) as Hk by (vm_compute; reflexivity).
  assert (@kv_decode SimpleV8 Str (lit "x" ++ [NUL]) 2 = Ok (SStr (lit "x"))) as Hv by (vm_compute; reflexivity).
  constructor; [|constructor]. eexists. unfold lshown. cbn [fst snd].
  change (length (le_split 4 7)) with 4%nat. change (length (lit "x" ++ [NUL])) with 2%nat.
  rewrite Hk, Hv. reflexivity.
Qed.


Lemma lvl_misuse_undefined_witness :
  ~ wpm LSM (fun _ => False) (@lvl_cursor_key SimpleV8 (Num I32) Str 0) demo_cheap demo_clsm (fun _ _ _ => True).
Proof.
  refine (proj1 (proj1 (@lvl_misuse_undefined SimpleV8 (Num I32) Str demo_cheap demo_clsm (fun _ => False)
    (fun _ _ _ => True)) 0%nat demo_it demo_cur_is _)). reflexivity.
Defined.
