(* ===== verification/RocksBind.v ===== *)
(** * The RocksDB binding

    src/src/rocksdb: the classes [env] and [batch] and the class templates [db]
    and [cursor], method by method.  Databases are column families: each one is
    registered with its environment before that is opened, and looks up its
    handle in [init].  What the methods share with the LevelDB binding is in
    [LvlBind]. *)
From S2P Require Import Prelude Nan KvTypes Prog Store LmdbApi LvlFormat LvlBatch RocksBatch LsmApi LvlBind.

Record renv := REnv { re_db : ptr; re_desc : list (bytes * comparator); re_handles : list nat }.
Record rdb := RDB { rd_key : kv_type; rd_val : kv_type; rd_cfidx : Z; rd_db : ptr; rd_cf : ptr }.
Record rcursor := RCursor { rc_key : kv_type; rc_val : kv_type; rc_cursor : ptr }.
Record rbatch := RBatch { rb_rep : bytes }.

Record rheap := RHeap {
  rh_env : gmap nat renv; rh_db : gmap nat rdb; rh_cur : gmap nat rcursor; rh_batch : gmap nat rbatch }.

Definition rheap0 : rheap := RHeap ∅ ∅ ∅ ∅.

Definition rup_env (f : gmap nat renv -> gmap nat renv) (h : rheap) : rheap :=
  RHeap (f (rh_env h)) (rh_db h) (rh_cur h) (rh_batch h).
Definition rup_db (f : gmap nat rdb -> gmap nat rdb) (h : rheap) : rheap :=
  RHeap (rh_env h) (f (rh_db h)) (rh_cur h) (rh_batch h).
Definition rup_cur (f : gmap nat rcursor -> gmap nat rcursor) (h : rheap) : rheap :=
  RHeap (rh_env h) (rh_db h) (f (rh_cur h)) (rh_batch h).
Definition rup_batch (f : gmap nat rbatch -> gmap nat rbatch) (h : rheap) : rheap :=
  RHeap (rh_env h) (rh_db h) (rh_cur h) (f (rh_batch h)).

Abbreviation rmeth := (meth lsm_call rheap).

(** ** Environments *)
Section Env.
Context `{V8}.

Definition get_renv (e : nat) : rmeth renv := unwrap (fun h => rh_env h !! e).

Definition kDefaultColumnFamilyName : bytes := lit "default".

(** [env::env] *)
Definition renv_new : renv := REnv None [(kDefaultColumnFamilyName, lexical)] [].

Definition rocks_env_ctor (e : nat) : rmeth info :=
  modify (rup_env <[e := renv_new]>) ;; mret (set_ret (v_object e) info0).

(** [_desc.size() - 1] is returned as an [int]. *)
Definition register_db (desc : bytes * comparator) (ew : renv) : Z * renv :=
  let d := re_desc ew ++ [desc] in (wrap_s 32 (Z.of_nat (length d) - 1), REnv (re_db ew) d (re_handles ew)).

(** [DB::Open] writes the handles whether it succeeds or not. *)
Definition rocks_env_open (e : nat) (path bufferSize : value) : rmeth info :=
  ew ← get_renv e;
  buf ← (if IsNumber bufferSize then n ← pure (to_unsigned 64 (NumberValue bufferSize)); mret (Some n) else mret None);
  r ← ffi (rocks_Open (utf8 path) buf (re_desc ew));
  modify (rup_env <[e := REnv (re_db ew) (re_desc ew) (snd (snd r))]>) ;;
  if negb (ls_ok (fst r)) then mret (throw_status (fst r) info0)
  else
    pdb ← pure (of_option UninitRead (fst (snd r)));
    modify (rup_env <[e := REnv (Some pdb) (re_desc ew) (snd (snd r))]>) ;;
    mret info0.

Definition rocks_env_dtor (e : nat) : rmeth unit :=
  ew ← get_renv e;
  ffi (delete_db (re_db ew)) ;;
  modify (rup_env (delete e)).
End Env.

(** ** Batches *)
Section Batch.
Context `{V8}.

Definition get_rbatch (j : nat) : rmeth rbatch := unwrap (fun h => rh_batch h !! j).

Definition rocks_batch_ctor (j : nat) : rmeth info :=
  modify (rup_batch <[j := RBatch rb_new]>) ;; mret (set_ret (v_object j) info0).

Definition rocks_batch_clear (j : nat) : rmeth info :=
  get_rbatch j ;; modify (rup_batch <[j := RBatch batch_Clear]>) ;; mret info0.

Definition rocks_batch_dtor (j : nat) : rmeth unit := get_rbatch j ;; modify (rup_batch (delete j)).
End Batch.

Section Binding.
Context `{V8} (K V : kv_type).

Definition get_rdb (i : nat) : rmeth rdb :=
  unwrap (fun h => dw ← rh_db h !! i; if decide (rd_key dw = K /\ rd_val dw = V) then Some dw else None).

Definition get_rcur (c : nat) : rmeth rcursor :=
  unwrap (fun h => cw ← rh_cur h !! c; if decide (rc_key cw = K /\ rc_val cw = V) then Some cw else None).

(** ** Databases *)
Definition rocks_db_ctor (i e : nat) (name : value) : rmeth info :=
  ew ← get_renv e;
  let r := register_db (utf8 name, lvl_comparator K) ew in
  modify (rup_env <[e := snd r]>) ;;
  modify (rup_db <[i := RDB K V (fst r) None None]>) ;;
  mret (set_ret (v_object i) info0).

(** [_handles[_cfidx]] is not checked. *)
Definition rocks_db_init (i e : nat) : rmeth info :=
  dw ← get_rdb i;
  ew ← get_renv e;
  cf ← pure (if rd_cfidx dw <? 0 then Ub OobRead else of_option OobRead (re_handles ew !! Z.to_nat (rd_cfidx dw)));
  modify (rup_db <[i := RDB K V (rd_cfidx dw) (re_db ew) (Some cf)]>) ;;
  mret info0.

Definition rocks_db_get (i : nat) (a : value) : rmeth info :=
  dw ← get_rdb i; get_body K V (rd_db dw) (Handle (rd_cf dw)) a.

Definition rocks_db_put (i : nat) (a b : value) (bat : option nat) : rmeth info :=
  dw ← get_rdb i;
  key ← pure (kv_encode K a);
  val ← pure (kv_encode V b);
  match bat with
  | Some j =>
      bw ← get_rbatch j;
      id ← ffi (GetColumnFamilyID (rd_cf dw));
      rep ← pure (rb_Put (rb_rep bw) id key val);
      modify (rup_batch <[j := RBatch rep]>) ;;
      mret info0
  | None => put_body (rd_db dw) (Handle (rd_cf dw)) key val
  end.

Definition rocks_db_del (i : nat) (a : value) (bat : option nat) : rmeth info :=
  dw ← get_rdb i;
  key ← pure (kv_encode K a);
  match bat with
  | Some j =>
      bw ← get_rbatch j;
      id ← ffi (GetColumnFamilyID (rd_cf dw));
      rep ← pure (rb_Delete (rb_rep bw) id key);
      modify (rup_batch <[j := RBatch rep]>) ;;
      mret info0
  | None => del_body (rd_db dw) (Handle (rd_cf dw)) key
  end.

Definition rocks_db_write (i j : nat) : rmeth info :=
  dw ← get_rdb i;
  bw ← get_rbatch j;
  r ← ffi (rocks_Write (rd_db dw) (rb_rep bw));
  modify (rup_batch <[j := RBatch (snd r)]>) ;;
  mret (done_status (fst r)).

Definition rocks_db_dtor (i : nat) : rmeth unit :=
  dw ← get_rdb i;
  ffi (delete_handle (rd_cf dw)) ;;
  modify (rup_db (delete i)).

(** ** Cursors *)
Definition rocks_cursor_ctor (c i : nat) : rmeth info :=
  dw ← get_rdb i;
  cur ← ffi (lsm_NewIterator (rd_db dw) (Handle (rd_cf dw)));
  modify (rup_cur <[c := RCursor K V (Some cur)]>) ;;
  mret (set_ret (v_object c) info0).

Definition rocks_cursorOp (fn : it_fn) (c : nat) : rmeth info :=
  cw ← get_rcur c; cursorOp_body (rc_cursor cw) fn.

Definition rocks_cursor_next := rocks_cursorOp Next.
Definition rocks_cursor_prev := rocks_cursorOp Prev.
Definition rocks_cursor_first := rocks_cursorOp SeekToFirst.
Definition rocks_cursor_last := rocks_cursorOp SeekToLast.

Definition rocks_cursor_key (c : nat) : rmeth info := cw ← get_rcur c; key_body K (rc_cursor cw).
Definition rocks_cursor_value (c : nat) : rmeth info := cw ← get_rcur c; value_body V (rc_cursor cw).
Definition rocks_cursor_gte (c : nat) (a : value) : rmeth info := cw ← get_rcur c; gte_body K (rc_cursor cw) a.

Definition rocks_cursor_dtor (c : nat) : rmeth unit :=
  cw ← get_rcur c;
  ffi (delete_iter (rc_cursor cw)) ;;
  modify (rup_cur (delete c)).
End Binding.
