(* ===== verification/RocksSafe.v ===== *)
(** * Safety of the RocksDB binding

    The states the methods of [RocksBind] lead to when they are called as
    documented, and that every such call is allowed by RocksDB.  [rocks_ok] is
    what a caller has to see to: databases are registered before the environment
    is opened and initialised once after that, a cursor is on an entry before its
    key or value is asked for, cursors are collected before the environment, and
    an environment is not collected while RocksDB has a handle of it: nothing
    deletes that of the default family, so one that was opened must stay. *)
From S2P Require Import Prelude Nan KvTypes Prog Store LmdbApi LmdbObjects LmdbInv.
From S2P Require Import LvlFormat LvlBatch RocksBatch LsmApi LsmEngine LvlBind LvlBindSafe LsmBodies RocksBind.

#[export] Hint Unfold get_rdb get_rcur get_rbatch get_renv : meth.

(** ** Calls *)
Section Ops.
Context `{V8}.

Inductive rocks_op :=
| REnvNew (e : nat)
| REnvOpen (e : nat) (path bufferSize : value)
| REnvGc (e : nat)
| RDbNew (K V : kv_type) (i e : nat) (name : value)
| RDbInit (K V : kv_type) (i e : nat)
| RDbGet (K V : kv_type) (i : nat) (a : value)
| RDbPut (K V : kv_type) (i : nat) (a b : value) (bat : option nat)
| RDbDel (K V : kv_type) (i : nat) (a : value) (bat : option nat)
| RDbWrite (K V : kv_type) (i j : nat)
| RDbGc (K V : kv_type) (i : nat)
| RCurNew (K V : kv_type) (c i : nat)
| RCurMove (K V : kv_type) (fn : it_fn) (c : nat)
| RCurKey (K V : kv_type) (c : nat)
| RCurVal (K V : kv_type) (c : nat)
| RCurGte (K V : kv_type) (c : nat) (a : value)
| RCurGc (K V : kv_type) (c : nat)
| RBatNew (j : nat)
| RBatClear (j : nat)
| RBatGc (j : nat).

Definition rignore (m : rmeth unit) : rmeth info := m ;; mret info0.

Definition rocks_exec (o : rocks_op) : rmeth info :=
  match o with
  | REnvNew e => rocks_env_ctor e
  | REnvOpen e path bs => rocks_env_open e path bs
  | REnvGc e => rignore (rocks_env_dtor e)
  | RDbNew K V i e name => rocks_db_ctor K V i e name
  | RDbInit K V i e => rocks_db_init K V i e
  | RDbGet K V i a => rocks_db_get K V i a
  | RDbPut K V i a b bat => rocks_db_put K V i a b bat
  | RDbDel K V i a bat => rocks_db_del K V i a bat
  | RDbWrite K V i j => rocks_db_write K V i j
  | RDbGc K V i => rignore (rocks_db_dtor K V i)
  | RCurNew K V c i => rocks_cursor_ctor K V c i
  | RCurMove K V fn c => rocks_cursorOp K V fn c
  | RCurKey K V c => rocks_cursor_key K V c
  | RCurVal K V c => rocks_cursor_value K V c
  | RCurGte K V c a => rocks_cursor_gte K V c a
  | RCurGc K V c => rignore (rocks_cursor_dtor K V c)
  | RBatNew j => rocks_batch_ctor j
  | RBatClear j => rocks_batch_clear j
  | RBatGc j => rignore (rocks_batch_dtor j)
  end.

(** ** The invariant *)
Definition fam_ok (f : fam_st) : Prop :=
  (exists K, f_cmp f = lvl_comparator K) /\ store_wf (f_cmp f) None (f_data f) /\ 0 <= f_id f < 2 ^ 32.

(** A family by its database and its number there. *)
Definition fam_at (s : lsm) (d j : nat) (f : fam_st) : Prop :=
  exists x, l_dbs s !! d = Some x /\ ld_fams x !! j = Some f.

(** An initialised database object. *)
Definition rdb_alive (s : lsm) (dw : rdb) (d hh j : nat) (f : fam_st) : Prop :=
  rd_db dw = Some d /\ rd_cf dw = Some hh /\ l_handles s !! hh = Some (d, j) /\ fam_at s d j f /\
  f_cmp f = lvl_comparator (rd_key dw).

Definition rcur_alive (s : lsm) (cw : rcursor) (it : nat) (x : it_st) : Prop :=
  rc_cursor cw = Some it /\ l_its s !! it = Some x /\ it_cmp x = lvl_comparator (rc_key cw) /\
  is_Some (l_dbs s !! it_db x) /\ store_wf (it_cmp x) None (it_data x).

(** The descriptors an environment was opened with come first. *)
Definition renv_ok (s : lsm) (ew : renv) : Prop :=
  fst <$> head (re_desc ew) = Some kDefaultColumnFamilyName /\
  Forall (fun p => exists K, snd p = lvl_comparator K) (re_desc ew) /\
  match re_db ew with
  | None => re_handles ew = []
  | Some d => exists x, l_dbs s !! d = Some x /\ length (re_handles ew) = length (ld_fams x) /\
      forall j f, ld_fams x !! j = Some f -> exists nm, re_desc ew !! j = Some (nm, f_cmp f)
  end.

Record rocks_inv (h : rheap) (s : lsm) : Prop := {
  ri_fams d j f : fam_at s d j f -> fam_ok f;
  ri_env e ew : rh_env h !! e = Some ew -> renv_ok s ew;
  ri_env_inj e e' ew ew' d : rh_env h !! e = Some ew -> rh_env h !! e' = Some ew' ->
    re_db ew = Some d -> re_db ew' = Some d -> e = e';
  ri_own d x : l_dbs s !! d = Some x -> exists e ew, rh_env h !! e = Some ew /\ re_db ew = Some d;
  ri_db i dw hh : rh_db h !! i = Some dw -> rd_cf dw = Some hh -> exists d j f, rdb_alive s dw d hh j f;
  ri_db_inj i i' dw dw' hh : rh_db h !! i = Some dw -> rh_db h !! i' = Some dw' ->
    rd_cf dw = Some hh -> rd_cf dw' = Some hh -> i = i';
  ri_handle hh d j : l_handles s !! hh = Some (d, j) -> exists f, fam_at s d j f;
  ri_handle_inj hh hh' p : l_handles s !! hh = Some p -> l_handles s !! hh' = Some p -> hh = hh';
  ri_ids d x : l_dbs s !! d = Some x -> NoDup (f_id <$> ld_fams x);
  ri_cur c cw : rh_cur h !! c = Some cw -> exists it x, rcur_alive s cw it x;
  ri_cur_inj c c' cw cw' : rh_cur h !! c = Some cw -> rh_cur h !! c' = Some cw' -> rc_cursor cw' = rc_cursor cw -> c = c';
  ri_it it x : l_its s !! it = Some x -> exists c cw, rh_cur h !! c = Some cw /\ rc_cursor cw = Some it;
  ri_batch j bw : rh_batch h !! j = Some bw -> exists seq l, rb_is (rb_rep bw) seq l;
  ri_idx i dw : rh_db h !! i = Some dw -> 0 < rd_cfidx dw;
  ri_cf i dw hh p : rh_db h !! i = Some dw -> rd_cf dw = Some hh -> l_handles s !! hh = Some p -> snd p <> 0%nat;
  ri_default e ew d : rh_env h !! e = Some ew -> re_db ew = Some d -> exists hh, l_handles s !! hh = Some (d, 0%nat)
}.

(** ** Calls as documented *)
Definition has_rdb (h : rheap) (K V : kv_type) (i : nat) (dw : rdb) : Prop :=
  rh_db h !! i = Some dw /\ rd_key dw = K /\ rd_val dw = V.
Definition has_rcur (h : rheap) (K V : kv_type) (c : nat) (cw : rcursor) : Prop :=
  rh_cur h !! c = Some cw /\ rc_key cw = K /\ rc_val cw = V.

(** The object is initialised: [init] was called on it. *)
Definition ready (h : rheap) (K V : kv_type) (i : nat) (dw : rdb) : Prop :=
  has_rdb h K V i dw /\ is_Some (rd_cf dw).

Definition rbatch_takes (h : rheap) (j : nat) (k v : bytes) : Prop :=
  exists bw seq l, rh_batch h !! j = Some bw /\ rb_is (rb_rep bw) seq l /\ fits k /\ fits v /\ rcount l + 1 < 2 ^ 31.

Definition rocks_ok (o : rocks_op) (h : rheap) (s : lsm) : Prop :=
  match o with
  | REnvNew e => rh_env h !! e = None
  | REnvOpen e path bs => exists ew, rh_env h !! e = Some ew /\ re_db ew = None /\
      NoDup (fst <$> re_desc ew) /\ Z.of_nat (length (re_desc ew)) < 2 ^ 31 /\
      (IsNumber bs = true -> exists z, to_unsigned 64 (NumberValue bs) = Ok z)
  | REnvGc e => exists ew, rh_env h !! e = Some ew /\
      (forall i dw, rh_db h !! i = Some dw -> rd_db dw = None \/ rd_db dw <> re_db ew) /\
      (forall it x, l_its s !! it = Some x -> Some (it_db x) <> re_db ew) /\
      (forall hh p, l_handles s !! hh = Some p -> Some (fst p) <> re_db ew)
  | RDbNew K V i e name => rh_db h !! i = None /\ exists ew, rh_env h !! e = Some ew /\
      Z.of_nat (length (re_desc ew)) < 2 ^ 31
  | RDbInit K V i e => exists dw ew n nm hh d, has_rdb h K V i dw /\ rh_env h !! e = Some ew /\
      rd_cfidx dw = Z.of_nat n /\ re_desc ew !! n = Some (nm, lvl_comparator K) /\
      re_db ew = Some d /\ re_handles ew !! n = Some hh /\ l_handles s !! hh = Some (d, n) /\
      (forall i' dw', rh_db h !! i' = Some dw' -> rd_cf dw' <> Some hh)
  | RDbGet K V i a => exists dw d hh j f, has_rdb h K V i dw /\ rdb_alive s dw d hh j f /\ encodes K a /\
      forall k v, (k, v) ∈ f_data f -> decodes V v
  | RDbPut K V i a b bat => exists dw k v, ready h K V i dw /\ kv_encode K a = Ok k /\ kv_encode V b = Ok v /\
      match bat with Some j => rbatch_takes h j k v | None => True end
  | RDbDel K V i a bat => exists dw k, ready h K V i dw /\ kv_encode K a = Ok k /\
      match bat with Some j => rbatch_takes h j k [] | None => True end
  | RDbWrite K V i j => exists dw bw seq l recs, ready h K V i dw /\ rh_batch h !! j = Some bw /\
      rb_is (rb_rep bw) seq l /\ batch_records l = Some recs /\ is_Some (do_records (rd_db dw) recs s)
  | RDbGc K V i => exists dw, has_rdb h K V i dw
  | RCurNew K V c i => rh_cur h !! c = None /\ exists dw, ready h K V i dw
  | RCurMove K V fn c => exists cw, has_rcur h K V c cw /\
      match fn with Next | Prev => exists it x, rcur_alive s cw it x /\ is_Some (it_at x) | _ => True end
  | RCurKey K V c => exists cw it x k v, has_rcur h K V c cw /\ rcur_alive s cw it x /\ it_at x = Some (k, v) /\ decodes K k
  | RCurVal K V c => exists cw it x k v, has_rcur h K V c cw /\ rcur_alive s cw it x /\ it_at x = Some (k, v) /\ decodes V v
  | RCurGte K V c a => exists cw, has_rcur h K V c cw /\ encodes K a
  | RCurGc K V c => exists cw, has_rcur h K V c cw
  | RBatNew j => rh_batch h !! j = None
  | RBatClear j | RBatGc j => is_Some (rh_batch h !! j)
  end.

Inductive rocks_reach : rheap -> lsm -> Prop :=
| rreach_0 : rocks_reach rheap0 lsm0
| rreach_op o h s i h' s' : rocks_reach h s -> rocks_ok o h s -> may LSM (rocks_exec o h) s (i, h') s' -> rocks_reach h' s'.

(** ** Writing *)

(** Only what the families hold has changed. *)
Definition rewritten (s s' : lsm) : Prop :=
  l_handles s' = l_handles s /\ l_its s' = l_its s /\
  forall d, (fun x => (f_id <$> ld_fams x, f_cmp <$> ld_fams x)) <$> l_dbs s' !! d =
            (fun x => (f_id <$> ld_fams x, f_cmp <$> ld_fams x)) <$> l_dbs s !! d.

Definition all_fams_ok (s : lsm) : Prop := forall d j f, fam_at s d j f -> fam_ok f.

Lemma rewritten_refl s : rewritten s s.
Proof. by split_and!. Qed.

Lemma rewritten_trans s1 s2 s3 : rewritten s1 s2 -> rewritten s2 s3 -> rewritten s1 s3.
Proof. intros (A1 & A2 & A3) (B1 & B2 & B3). split_and!; [congruence|congruence|]. intros d. by rewrite B3. Qed.

Lemma rewritten_db s s' d x : rewritten s s' -> l_dbs s !! d = Some x ->
  exists x', l_dbs s' !! d = Some x' /\ f_id <$> ld_fams x' = f_id <$> ld_fams x /\ f_cmp <$> ld_fams x' = f_cmp <$> ld_fams x.
Proof.
  intros (_ & _ & Hd) Hx. specialize (Hd d). rewrite Hx in Hd. destruct (l_dbs s' !! d) as [x'|]; [|done].
  injection Hd as ? ?. by exists x'.
Qed.

Lemma rewritten_sym s s' : rewritten s s' -> rewritten s' s.
Proof. intros (A1 & A2 & A3). by split_and!. Qed.

Lemma rewritten_fam s s' d j f : rewritten s s' -> fam_at s d j f ->
  exists f', fam_at s' d j f' /\ f_cmp f' = f_cmp f /\ f_id f' = f_id f.
Proof.
  intros HR (x & Hx & Hj). destruct (rewritten_db _ _ _ _ HR Hx) as (x' & Hx' & Ei & Ec).
  apply (f_equal (lookup j)) in Ei. apply (f_equal (lookup j)) in Ec.
  rewrite !list_lookup_fmap, Hj in Ei. rewrite !list_lookup_fmap, Hj in Ec.
  destruct (ld_fams x' !! j) as [f'|] eqn:Hj'; [|done]. injection Ei as Ei. injection Ec as Ec. exists f'. split; [by exists x'|done].
Qed.

Lemma fam_at_set d j f' s d' j' g : fam_at (set_fam d j f' s) d' j' g -> g = f' \/ fam_at s d' j' g.
Proof.
  intros (x & Hx & Hj). cbn in Hx. destruct (decide (d' = d)) as [->|Hne].
  - rewrite lookup_alter_eq in Hx. destruct (l_dbs s !! d) as [y|] eqn:Hy; [|done]. injection Hx as <-. cbn in Hj.
    apply list_lookup_insert_Some in Hj as [(_ & <- & _)|[_ Hj]]; [by left|right; by exists y].
  - rewrite lookup_alter_ne in Hx by done. right. by exists x.
Qed.

Lemma set_fam_rewritten d j f f' s :
  fam_at s d j f -> f_cmp f' = f_cmp f -> f_id f' = f_id f -> rewritten s (set_fam d j f' s).
Proof.
  intros (x & Hx & Hj) Ec Ei. split; [done|]. split; [done|]. intros d'. cbn.
  destruct (decide (d' = d)) as [->|]; [|by rewrite lookup_alter_ne]. rewrite lookup_alter_eq, Hx. cbn. f_equal.
  rewrite !list_fmap_insert, Ec, Ei. f_equal; apply list_insert_id; by rewrite list_lookup_fmap, Hj.
Qed.

Lemma find_fam_at s d cf d0 i f : find_fam s d cf = Some (d0, i, f) -> d = Some d0 /\ fam_at s d0 i f.
Proof.
  unfold find_fam. destruct d as [d|]; [|done]. cbn. destruct (l_dbs s !! d) as [x|] eqn:Hx; [|done]. cbn.
  destruct (fam_index s d x cf) as [n|]; [|done]. cbn. destruct (ld_fams x !! n) as [g|] eqn:Hj; [|done]. cbn.
  intros [= <- <- <-]. split; [done|by exists x].
Qed.

Lemma do_record_ok r f : fam_ok f -> dom (f_cmp f) (rec_key r) = true -> fam_ok (do_record r f).
Proof. intros ([K HK] & Hw & Hid) Hd. destruct (do_record_wf K r f HK Hw Hd) as [Hc Hw']. split; [by exists K|done]. Qed.

Lemma do_records_rewritten d l s s' :
  all_fams_ok s -> do_records d l s = Some s' -> rewritten s s' /\ all_fams_ok s'.
Proof.
  revert s. induction l as [|[cf r] l IH]; intros s Hok; cbn [do_records].
  { intros [= <-]. split; [apply rewritten_refl|done]. }
  destruct (find_fam s d cf) as [[[d0 i] f]|] eqn:Hf; [|done]. cbn [mbind option_bind].
  destruct (dom (f_cmp f) (rec_key r)) eqn:Hd; [|done]. apply find_fam_at in Hf as [_ Hf]. intros E.
  destruct (IH (set_fam d0 i (do_record r f) s)) as [HR Hok']; [|done|].
  - intros d' j' g [->|Hg]%fam_at_set; [apply do_record_ok; [by eapply Hok|done]|by eapply Hok].
  - split; [|done]. eapply rewritten_trans; [|exact HR]. by eapply set_fam_rewritten.
Qed.

Lemma inv_rewritten h s s' : rocks_inv h s -> rewritten s s' -> all_fams_ok s' -> rocks_inv h s'.
Proof.
  intros HI HR Hok. pose proof HR as (Hh & Hi & _). split; try apply HI; try done.
  - intros e ew He. destruct (ri_env _ _ HI e ew He) as (H1 & H2 & H3). split; [done|]. split; [done|].
    destruct (re_db ew) as [d|]; [|done]. destruct H3 as (x & Hx & Hl & Hj).
    destruct (rewritten_db _ _ _ _ HR Hx) as (x' & Hx' & Ei & Ec). exists x'. split; [done|].
    split; [apply (f_equal length) in Ei; rewrite !length_fmap in Ei; congruence|]. intros j f Hf.
    destruct (rewritten_fam _ _ _ _ _ (rewritten_sym _ _ HR) (ex_intro _ x' (conj Hx' Hf))) as (g & (y & Hy & Hg) & Eg & _).
    assert (y = x) as -> by congruence. rewrite <- Eg. by apply Hj.
  - intros d x Hx. destruct (rewritten_db _ _ _ _ (rewritten_sym _ _ HR) Hx) as (x' & Hx' & _). by eapply (ri_own _ _ HI).
  - intros i dw hh Hi' Hcf. destruct (ri_db _ _ HI i dw hh Hi' Hcf) as (d & j & f & ? & ? & ? & Hf & ?).
    destruct (rewritten_fam _ _ _ _ _ HR Hf) as (f' & Hf' & Ec & _). exists d, j, f'. split_and!; try done; congruence.
  - intros hh d j. rewrite Hh. intros Hj. destruct (ri_handle _ _ HI hh d j Hj) as [f Hf].
    destruct (rewritten_fam _ _ _ _ _ HR Hf) as (f' & Hf' & _). by exists f'.
  - intros hh hh' q. rewrite Hh. apply HI.
  - intros d x Hx. destruct (rewritten_db _ _ _ _ (rewritten_sym _ _ HR) Hx) as (x' & Hx' & <- & _). by eapply (ri_ids _ _ HI).
  - intros c cw Hc. destruct (ri_cur _ _ HI c cw Hc) as (it & x & ? & ? & ? & [y Hy] & ?). exists it, x.
    destruct (rewritten_db _ _ _ _ HR Hy) as (y' & Hy' & _). split_and!; try done; (congruence || by exists y').
  - intros it x. rewrite Hi. apply HI.
  - intros i dw hh q. rewrite Hh. by apply (ri_cf _ _ HI).
  - intros e ew d. rewrite Hh. apply HI.
Qed.

Lemma inv_do_records h s d l s' : rocks_inv h s -> do_records d l s = Some s' -> rocks_inv h s'.
Proof. intros HI E. destruct (do_records_rewritten d l s s' (ri_fams _ _ HI) E). by eapply inv_rewritten. Qed.

Lemma inv_wrote h s d0 i f r st q s' :
  rocks_inv h s -> fam_at s d0 i f -> dom (f_cmp f) (rec_key r) = true ->
  wrote st s (set_fam d0 i (do_record r f) s) q s' -> rocks_inv h s'.
Proof.
  intros HI Hf Hd HW.
  assert (HI' : rocks_inv h (set_fam d0 i (do_record r f) s)).
  { eapply inv_rewritten; [done|by eapply set_fam_rewritten|].
    intros d' j' g [->|Hg]%fam_at_set; [apply do_record_ok; [by eapply (ri_fams _ _ HI)|done]|by eapply (ri_fams _ _ HI)]. }
  destruct HW as [[_ ->]|[_ [->| ->]]]; done.
Qed.

(** ** Objects come and go *)
Lemma inv_env h s e ew : rocks_inv h s -> rh_env h !! e = None -> re_db ew = None -> renv_ok s ew -> rocks_inv (rup_env <[e := ew]> h) s.
Proof.
  intros HI He Hn Hok. split; try apply HI; cbn.
  - intros e' ew' [[<- <-]|[_ He']]%lookup_insert_Some; [done|by eapply (ri_env _ _ HI)].
  - intros e1 e2 ew1 ew2 d [[<- <-]|[_ H1]]%lookup_insert_Some [[<- <-]|[_ H2]]%lookup_insert_Some E1 E2; [done|congruence|congruence|].
    by eapply (ri_env_inj _ _ HI).
  - intros d x Hx. destruct (ri_own _ _ HI d x Hx) as (e' & ew' & He' & E). exists e', ew'. split; [|done].
    rewrite lookup_insert_ne; [done|]. congruence.
  - intros e' ew' d [[<- <-]|[_ He']]%lookup_insert_Some E; [congruence|by eapply (ri_default _ _ HI)].
Qed.

(** An environment that keeps its database. *)
Lemma inv_env_update h s e ew ew' :
  rocks_inv h s -> rh_env h !! e = Some ew -> re_db ew' = re_db ew -> renv_ok s ew' -> rocks_inv (rup_env <[e := ew']> h) s.
Proof.
  intros HI He Hd Hok. split; try apply HI; cbn.
  - intros e' ew1 [[<- <-]|[_ He']]%lookup_insert_Some; [done|by eapply (ri_env _ _ HI)].
  - intros e1 e2 ew1 ew2 d [[<- <-]|[_ H1]]%lookup_insert_Some [[<- <-]|[_ H2]]%lookup_insert_Some E1 E2; try done;
      eapply (ri_env_inj _ _ HI); try done; congruence.
  - intros d x Hx. destruct (ri_own _ _ HI d x Hx) as (e' & ew1 & He' & E). destruct (decide (e' = e)) as [->|].
    + exists e, ew'. rewrite lookup_insert_eq. split; [done|]. congruence.
    + exists e', ew1. by rewrite lookup_insert_ne.
  - intros e' ew1 d [[<- <-]|[_ He']]%lookup_insert_Some E; [rewrite Hd in E|]; by eapply (ri_default _ _ HI).
Qed.

Lemma inv_new_rdb h s i dw :
  rocks_inv h s -> rh_db h !! i = None -> rd_cf dw = None -> 0 < rd_cfidx dw -> rocks_inv (rup_db <[i := dw]> h) s.
Proof.
  intros HI Hi Hcf Hix. split; try apply HI; cbn.
  - intros i' dw' hh [[<- <-]|[_ Hi']]%lookup_insert_Some E; [congruence|by eapply (ri_db _ _ HI)].
  - intros i1 i2 dw1 dw2 hh [[<- <-]|[_ H1]]%lookup_insert_Some [[<- <-]|[_ H2]]%lookup_insert_Some E1 E2; try congruence.
    by eapply (ri_db_inj _ _ HI).
  - intros i' dw' [[<- <-]|[_ Hi']]%lookup_insert_Some; [done|by eapply (ri_idx _ _ HI)].
  - intros i' dw' hh q [[<- <-]|[_ Hi']]%lookup_insert_Some E; [congruence|by eapply (ri_cf _ _ HI)].
Qed.

Lemma inv_init h s i dw d hh j f :
  rocks_inv h s -> is_Some (rh_db h !! i) -> rdb_alive s dw d hh j f ->
  (forall i' dw', rh_db h !! i' = Some dw' -> rd_cf dw' <> Some hh) -> 0 < rd_cfidx dw -> j <> 0%nat ->
  rocks_inv (rup_db <[i := dw]> h) s.
Proof.
  intros HI Hi Ha Hno Hix Hj. split; try apply HI; cbn.
  - intros i' dw' hh' [[<- <-]|[_ Hi']]%lookup_insert_Some E; [|by eapply (ri_db _ _ HI)].
    destruct Ha as (? & Hcf & ?). assert (hh' = hh) as -> by congruence. by exists d, j, f.
  - destruct Ha as (_ & Hcf & _). intros i1 i2 dw1 dw2 hh' [[<- <-]|[_ H1]]%lookup_insert_Some [[<- <-]|[_ H2]]%lookup_insert_Some E1 E2; [done|..].
    + destruct (Hno i2 dw2 H2). congruence.
    + destruct (Hno i1 dw1 H1). congruence.
    + by eapply (ri_db_inj _ _ HI).
  - intros i' dw' [[<- <-]|[_ Hi']]%lookup_insert_Some; [done|by eapply (ri_idx _ _ HI)].
  - destruct Ha as (_ & Hcf & Hh & _). intros i' dw' hh' q [[<- <-]|[_ Hi']]%lookup_insert_Some E Hq; [|by eapply (ri_cf _ _ HI)].
    assert (q = (d, j)) as -> by congruence. done.
Qed.

Lemma inv_rdb_gc h s i dw :
  rocks_inv h s -> rh_db h !! i = Some dw ->
  rocks_inv (rup_db (delete i) h) (match rd_cf dw with Some hh => up_handles (delete hh) s | None => s end).
Proof.
  intros HI Hi.
  assert (HJ : rocks_inv (rup_db (delete i) h) s).
  { split; try apply HI; cbn.
    - intros i' dw' hh [_ Hi']%lookup_delete_Some. by eapply (ri_db _ _ HI).
    - intros i1 i2 dw1 dw2 hh [_ H1]%lookup_delete_Some [_ H2]%lookup_delete_Some. by eapply (ri_db_inj _ _ HI).
    - intros i' dw' [_ Hi']%lookup_delete_Some. by eapply (ri_idx _ _ HI).
    - intros i' dw' hh q [_ Hi']%lookup_delete_Some. by eapply (ri_cf _ _ HI). }
  destruct (rd_cf dw) as [hh|] eqn:Hcf; [|done]. split; try apply HJ; cbn.
  - intros i' dw' hh' Hi' E. destruct (ri_db _ _ HJ i' dw' hh' Hi' E) as (d & j & f & ? & ? & Hh & HF).
    exists d, j, f. split; [done|]. split; [done|]. split; [|exact HF]. cbn. rewrite lookup_delete_ne; [done|]. intros <-. cbn in Hi'.
    apply lookup_delete_Some in Hi' as [Hne Hi']. apply Hne. by eapply (ri_db_inj _ _ HI).
  - intros hh' d j [_ Hh]%lookup_delete_Some. by eapply (ri_handle _ _ HI).
  - intros h1 h2 q [_ H1]%lookup_delete_Some [_ H2]%lookup_delete_Some. by eapply (ri_handle_inj _ _ HI).
  - intros i' dw' hh' q Hi' E [_ Hq]%lookup_delete_Some. by eapply (ri_cf _ _ HJ).
  - intros e ew d He Hd. destruct (ri_default _ _ HI e ew d He Hd) as [h0 Hh0]. exists h0. rewrite lookup_delete_ne; [done|].
    intros <-. by destruct (ri_cf _ _ HI i dw hh _ Hi Hcf Hh0).
Qed.

Lemma inv_rbatch h s j bw seq l : rocks_inv h s -> rb_is (rb_rep bw) seq l -> rocks_inv (rup_batch <[j := bw]> h) s.
Proof.
  intros HI Hb. split; try apply HI. intros j' bw'. cbn.
  intros [[<- <-]|[_ Hj]]%lookup_insert_Some; [by exists seq, l|by eapply (ri_batch _ _ HI)].
Qed.

Lemma inv_rbatch_gc h s j : rocks_inv h s -> rocks_inv (rup_batch (delete j) h) s.
Proof. intros HI. split; try apply HI. intros j' bw'. cbn. intros [_ Hj]%lookup_delete_Some. by eapply (ri_batch _ _ HI). Qed.

Lemma inv_rmove h s it x o : rocks_inv h s -> l_its s !! it = Some x -> rocks_inv h (up_its <[it := set_pos o x]> s).
Proof.
  intros HI Hx. split; try apply HI.
  - intros c cw Hc. destruct (ri_cur _ _ HI c cw Hc) as (it' & x' & ? & Hx' & ? & ? & ?). destruct (decide (it' = it)) as [->|].
    + assert (x' = x) as -> by congruence. exists it, (set_pos o x). split_and!; try done. cbn. by rewrite lookup_insert_eq.
    + exists it', x'. split_and!; try done. cbn. by rewrite lookup_insert_ne.
  - intros it' x'. cbn. destruct (decide (it' = it)) as [->|]; [intros _; by eapply (ri_it _ _ HI)|].
    rewrite lookup_insert_ne by done. apply HI.
Qed.

Lemma inv_new_rcur K V c it x h s :
  rocks_inv h s -> rh_cur h !! c = None -> l_its s !! it = None -> it_cmp x = lvl_comparator K ->
  is_Some (l_dbs s !! it_db x) -> store_wf (it_cmp x) None (it_data x) ->
  rocks_inv (rup_cur <[c := RCursor K V (Some it)]> h) (up_its <[it := x]> s).
Proof.
  intros HI Hc Hit Hcm Hal Hw. split; try apply HI; cbn.
  - intros c' cw [[<- <-]|[Hne Hc']]%lookup_insert_Some.
    + exists it, x. split; [done|]. split; [apply lookup_insert_eq|done].
    + destruct (ri_cur _ _ HI c' cw Hc') as (it' & x' & ? & Hx' & ? & ? & ?). exists it', x'. split_and!; try done.
      cbn. rewrite lookup_insert_ne; [done|]. congruence.
  - intros c1 c2 cw cw' [[<- <-]|[Hne Hc1]]%lookup_insert_Some [[<- <-]|[Hne' Hc2]]%lookup_insert_Some E; [done|..].
    + destruct (ri_cur _ _ HI c2 cw' Hc2) as (it' & x' & E' & Hx' & _). cbn in E. congruence.
    + destruct (ri_cur _ _ HI c1 cw Hc1) as (it' & x' & E' & Hx' & _). cbn in E. congruence.
    + by eapply (ri_cur_inj _ _ HI).
  - intros it' x' [[<- <-]|[Hne Hx']]%lookup_insert_Some.
    + exists c, (RCursor K V (Some it)). by rewrite lookup_insert_eq.
    + destruct (ri_it _ _ HI it' x' Hx') as (c' & cw & Hc' & E). exists c', cw. rewrite lookup_insert_ne; [done|]. congruence.
Qed.

Lemma inv_rcur_gc h s c cw it :
  rocks_inv h s -> rh_cur h !! c = Some cw -> rc_cursor cw = Some it -> rocks_inv (rup_cur (delete c) h) (up_its (delete it) s).
Proof.
  intros HI Hc E. split; try apply HI; cbn.
  - intros c' cw' [Hne Hc']%lookup_delete_Some. destruct (ri_cur _ _ HI c' cw' Hc') as (it' & x' & E1 & ? & ? & ?).
    exists it', x'. split; [done|]. split; [|done]. cbn. rewrite lookup_delete_ne; [done|]. intros <-.
    apply Hne. eapply (ri_cur_inj _ _ HI); [done|done|congruence].
  - intros c1 c2 cw1 cw2 [_ Hc1]%lookup_delete_Some [_ Hc2]%lookup_delete_Some. by eapply (ri_cur_inj _ _ HI).
  - intros it' x' [Hne Hx']%lookup_delete_Some. destruct (ri_it _ _ HI it' x' Hx') as (c' & cw' & Hc' & E1).
    exists c', cw'. rewrite lookup_delete_ne; [done|]. congruence.
Qed.

Lemma imap_fst {A} (hs : list nat) (g : nat -> A) : fst <$> imap (fun i h => (h, g i)) hs = hs.
Proof. apply list_eq. intros i. rewrite list_lookup_fmap, list_lookup_imap. by destruct (hs !! i). Qed.

(** The handles [DB::Open] makes. *)
Lemma new_handles (m : gmap nat (nat * nat)) d hs hh p :
  NoDup hs -> (forall h, h ∈ hs -> m !! h = None) ->
  (list_to_map (imap (fun i h => (h, (d, i))) hs) ∪ m) !! hh = Some p <->
  (exists i, hs !! i = Some hh /\ p = (d, i)) \/ m !! hh = Some p.
Proof.
  intros Hnd Hfr.
  assert (HM : (list_to_map (imap (fun i h => (h, (d, i))) hs) : gmap nat (nat * nat)) !! hh = Some p <->
    exists i, hs !! i = Some hh /\ p = (d, i)).
  { rewrite <- elem_of_list_to_map by (by rewrite imap_fst). rewrite elem_of_lookup_imap.
    split; [intros (i & y & [= -> ->] & Hy); by exists i|intros (i & Hi & ->); by exists i, hh]. }
  rewrite lookup_union_Some_raw, HM. split; [tauto|]. intros [?|Hm]; [by left|]. right. split; [|done].
  destruct (list_to_map _ !! hh) as [q|] eqn:E; [|done]. apply elem_of_list_to_map_2, elem_of_lookup_imap in E as (i & y & [= -> ->] & Hy).
  rewrite Hfr in Hm; [done|]. by eapply list_elem_of_lookup_2.
Qed.

Lemma inv_open h s e ew d hs fams :
  rocks_inv h s -> rh_env h !! e = Some ew -> re_db ew = None -> l_dbs s !! d = None ->
  f_cmp <$> fams = snd <$> re_desc ew -> Forall (fun f => store_wf (f_cmp f) None (f_data f)) fams ->
  Forall (fun f => 0 <= f_id f < 2 ^ 32) fams -> NoDup (f_id <$> fams) ->
  length hs = length (re_desc ew) -> NoDup hs -> (forall h, h ∈ hs -> l_handles s !! h = None) ->
  rocks_inv (rup_env <[e := REnv (Some d) (re_desc ew) hs]> h)
    (up_handles (fun m => list_to_map (imap (fun i h => (h, (d, i))) hs) ∪ m) (up_dbs <[d := LDb fams None]> s)).
Proof.
  intros HI He Hn Hd Hc Hw Hids Hnid Hl Hnd Hfr. destruct (ri_env _ _ HI e ew He) as (Hh & HK & _).
  assert (Hcl : forall j, f_cmp <$> fams !! j = snd <$> re_desc ew !! j).
  { intros j. by rewrite <- !list_lookup_fmap, Hc. }
  assert (Hold : forall d' j f, fam_at s d' j f -> d' <> d) by (intros d' j f (x & Hx & _) ->; congruence).
  assert (Hup : forall d' j f, fam_at s d' j f -> fam_at (up_handles (fun m => list_to_map (imap (fun i h => (h, (d, i))) hs) ∪ m)
    (up_dbs <[d := LDb fams None]> s)) d' j f).
  { intros d' j f Hf. pose proof (Hold _ _ _ Hf). destruct Hf as (x & Hx & Hj). exists x. split; [|done]. cbn. by rewrite lookup_insert_ne. }
  split; cbn.
  - intros d' j f (x & Hx & Hj). cbn in Hx. apply lookup_insert_Some in Hx as [[<- <-]|[_ Hx]]; [|eapply (ri_fams _ _ HI); by exists x]. cbn in Hj.
    specialize (Hcl j). rewrite Hj in Hcl. destruct (re_desc ew !! j) as [[nm c]|] eqn:Ej; [|done]. injection Hcl as Ec.
    rewrite Forall_lookup in HK. rewrite Forall_lookup in Hw. rewrite Forall_lookup in Hids. destruct (HK j _ Ej) as [K HK'].
    split; [exists K; cbn in HK'; congruence|]. split; [by eapply Hw|by eapply Hids].
  - intros e' ew' [[<- <-]|[_ He']]%lookup_insert_Some.
    + split; [done|]. split; [done|]. cbn. exists (LDb fams None). rewrite lookup_insert_eq. split; [done|]. cbn. split.
      * apply (f_equal length) in Hc. rewrite !length_fmap in Hc. congruence.
      * intros j f Hj. specialize (Hcl j). rewrite Hj in Hcl. destruct (re_desc ew !! j) as [[nm c]|]; [|done].
        injection Hcl as ->. by exists nm.
    + destruct (ri_env _ _ HI e' ew' He') as (H1 & H2 & H3). split; [done|]. split; [done|].
      destruct (re_db ew') as [d'|]; [|done]. destruct H3 as (x & Hx & ? & ?). exists x. split; [|done]. cbn.
      rewrite lookup_insert_ne; [done|]. congruence.
  - assert (Hne : forall e' ew' d', rh_env h !! e' = Some ew' -> re_db ew' = Some d' -> d' <> d).
    { intros e' ew' d' He' E ->. destruct (ri_env _ _ HI e' ew' He') as (_ & _ & H3). rewrite E in H3. destruct H3 as (x & Hx & _). congruence. }
    intros e1 e2 ew1 ew2 d' [[<- <-]|[_ H1]]%lookup_insert_Some [[<- <-]|[_ H2]]%lookup_insert_Some E1 E2; [done|..]; cbn in *.
    + injection E1 as <-. by destruct (Hne _ _ _ H2 E2).
    + injection E2 as <-. by destruct (Hne _ _ _ H1 E1).
    + by eapply (ri_env_inj _ _ HI).
  - intros d' x [[<- <-]|[Hne Hx]]%lookup_insert_Some; [exists e; eexists; by rewrite lookup_insert_eq|].
    destruct (ri_own _ _ HI d' x Hx) as (e' & ew' & He' & E). exists e', ew'. rewrite lookup_insert_ne; [done|]. congruence.
  - intros i dw hh Hi Hcf. destruct (ri_db _ _ HI i dw hh Hi Hcf) as (d' & j & f & ? & ? & Hh' & Hf & ?). exists d', j, f.
    split; [done|]. split; [done|]. split; [cbn; apply new_handles; [done|done|by right]|]. split; [by apply Hup|done].
  - apply HI.
  - intros hh d' j [(i & Hi & [= -> ->])|Hh']%new_handles; [|destruct (ri_handle _ _ HI hh d' j Hh') as [f Hf]; exists f; by apply Hup|done|done].
    assert (is_Some (fams !! i)) as [f Hf].
    { apply lookup_lt_is_Some. apply (f_equal length) in Hc. rewrite !length_fmap in Hc. apply lookup_lt_Some in Hi. lia. }
    exists f, (LDb fams None). cbn. by rewrite lookup_insert_eq.
  - intros h1 h2 q [(i1 & H1 & ->)|H1]%new_handles [(i2 & H2 & E)|H2]%new_handles; try done.
    + injection E as ->. congruence.
    + destruct (ri_handle _ _ HI _ _ _ H2) as [f Hf]. by destruct (Hold _ _ _ Hf).
    + subst q. destruct (ri_handle _ _ HI _ _ _ H1) as [f Hf]. by destruct (Hold _ _ _ Hf).
    + by eapply (ri_handle_inj _ _ HI).
  - intros d' x [[<- <-]|[_ Hx]]%lookup_insert_Some; [done|by eapply (ri_ids _ _ HI)].
  - intros c cw Hc'. destruct (ri_cur _ _ HI c cw Hc') as (it & x & ? & ? & ? & [y Hy] & ?). exists it, x. split_and!; try done.
    cbn. rewrite lookup_insert_ne; [by exists y|]. congruence.
  - apply HI.
  - apply HI.
  - apply HI.
  - apply HI.
  - intros i dw hh q Hi Hcf [(n & Hn' & _)|Hq]%new_handles; [|by eapply (ri_cf _ _ HI)|done|done].
    destruct (ri_db _ _ HI i dw hh Hi Hcf) as (d' & j & f & _ & _ & Hh' & _). rewrite Hfr in Hh'; [done|]. by eapply list_elem_of_lookup_2.
  - intros e' ew' d' [[<- <-]|[_ He']]%lookup_insert_Some E.
    + injection E as <-. destruct hs as [|h0 hs]; [by destruct (re_desc ew)|]. exists h0. apply new_handles; [done|done|]. left. by exists 0%nat.
    + destruct (ri_default _ _ HI e' ew' d' He' E) as [h0 Hh0]. exists h0. apply new_handles; [done|done|by right].
Qed.

Lemma inv_env_gc h s e ew :
  rocks_inv h s -> rh_env h !! e = Some ew ->
  (forall i dw, rh_db h !! i = Some dw -> rd_db dw = None \/ rd_db dw <> re_db ew) ->
  (forall it x, l_its s !! it = Some x -> Some (it_db x) <> re_db ew) ->
  rocks_inv (rup_env (delete e) h) (match re_db ew with Some d => drop_db d s | None => s end).
Proof.
  intros HI He Hdb Hit. destruct (re_db ew) as [d|] eqn:Hd.
  - split; cbn.
    + intros d' j f (x & Hx & Hj). cbn in Hx. apply lookup_delete_Some in Hx as [_ Hx]. eapply (ri_fams _ _ HI). by exists x.
    + intros e' ew' [Hne He']%lookup_delete_Some. destruct (ri_env _ _ HI e' ew' He') as (H1 & H2 & H3).
      split; [done|]. split; [done|]. destruct (re_db ew') as [d'|] eqn:E'; [|done]. destruct H3 as (x & Hx & ? & ?).
      exists x. split; [|done]. cbn. rewrite lookup_delete_ne; [done|]. intros <-. apply Hne. by eapply (ri_env_inj _ _ HI).
    + intros e1 e2 ew1 ew2 d' [_ H1]%lookup_delete_Some [_ H2]%lookup_delete_Some. by eapply (ri_env_inj _ _ HI).
    + intros d' x [Hne Hx]%lookup_delete_Some. destruct (ri_own _ _ HI d' x Hx) as (e' & ew' & He' & E).
      exists e', ew'. rewrite lookup_delete_ne; [done|]. congruence.
    + intros i dw hh Hi Hcf. destruct (ri_db _ _ HI i dw hh Hi Hcf) as (d' & j & f & E & ? & Hh & (x & Hx & Hj) & ?).
      assert (d' <> d) by (destruct (Hdb i dw Hi); congruence). exists d', j, f.
      split; [done|]. split; [done|]. split; [cbn; by apply map_lookup_filter_Some|]. split; [|done].
      exists x. split; [|done]. cbn. by rewrite lookup_delete_ne.
    + apply HI.
    + intros hh d' j [Hh Hne]%map_lookup_filter_Some. destruct (ri_handle _ _ HI hh d' j Hh) as (f & x & Hx & Hj).
      exists f, x. split; [|done]. cbn. rewrite lookup_delete_ne; [done|]. intros <-. by apply Hne.
    + intros h1 h2 q [H1 _]%map_lookup_filter_Some [H2 _]%map_lookup_filter_Some. by eapply (ri_handle_inj _ _ HI).
    + intros d' x [_ Hx]%lookup_delete_Some. by eapply (ri_ids _ _ HI).
    + intros c cw Hc. destruct (ri_cur _ _ HI c cw Hc) as (it & x & ? & Hx & ? & ? & ?). exists it, x. split_and!; try done.
      cbn. rewrite lookup_delete_ne; [done|]. intros ->. by destruct (Hit it x Hx).
    + apply HI.
    + apply HI.
    + apply HI.
    + apply HI.
    + intros i dw hh q Hi Hcf [Hq _]%map_lookup_filter_Some. by eapply (ri_cf _ _ HI).
    + intros e' ew' d' [Hne He']%lookup_delete_Some E. destruct (ri_default _ _ HI e' ew' d' He' E) as [h0 Hh0]. exists h0.
      apply map_lookup_filter_Some. split; [done|]. cbn. intros ->. apply Hne. by eapply (ri_env_inj _ _ HI).
  - split; try apply HI; cbn.
    + intros e' ew' [_ He']%lookup_delete_Some. by eapply (ri_env _ _ HI).
    + intros e1 e2 ew1 ew2 d' [_ H1]%lookup_delete_Some [_ H2]%lookup_delete_Some. by eapply (ri_env_inj _ _ HI).
    + intros d' x Hx. destruct (ri_own _ _ HI d' x Hx) as (e' & ew' & He' & E).
      exists e', ew'. rewrite lookup_delete_ne; [done|]. congruence.
    + intros e' ew' d' [_ He']%lookup_delete_Some. by eapply (ri_default _ _ HI).
Qed.

(** ** Every method *)
Lemma has_rdb_unwrap h K V i dw :
  has_rdb h K V i dw ->
  (dw ← rh_db h !! i; if decide (rd_key dw = K /\ rd_val dw = V) then Some dw else None) = Some dw.
Proof. intros (Hi & <- & <-). rewrite Hi. cbn. by rewrite decide_True. Qed.

Lemma has_rcur_unwrap h K V c cw :
  has_rcur h K V c cw ->
  (cw ← rh_cur h !! c; if decide (rc_key cw = K /\ rc_val cw = V) then Some cw else None) = Some cw.
Proof. intros (Hi & <- & <-). rewrite Hi. cbn. by rewrite decide_True. Qed.

Definition rstays (h : rheap) (s : lsm) (m : rmeth info) : Prop :=
  wpm LSM (fun _ => False) m h s (fun _ h' s' => rocks_inv h' s').

Lemma alive_find s dw d hh j f :
  rdb_alive s dw d hh j f -> find_fam s (rd_db dw) (Handle (rd_cf dw)) = Some (d, j, f).
Proof.
  intros (-> & -> & Hh & (x & Hx & Hj) & _). unfold find_fam. cbn. rewrite Hx. cbn. rewrite Hh. cbn.
  rewrite decide_True by done. cbn. by rewrite Hj.
Qed.

Lemma alive_id s dw d hh j f : rdb_alive s dw d hh j f -> handle_fam s hh = Some f.
Proof. intros (_ & _ & Hh & (x & Hx & Hj) & _). unfold handle_fam. rewrite Hh. cbn. by rewrite Hx. Qed.

Lemma alive_dom s dw d hh j f K V h i a k :
  rdb_alive s dw d hh j f -> has_rdb h K V i dw -> kv_encode K a = Ok k -> dom (f_cmp f) k = true.
Proof. intros (_ & _ & _ & _ & ->) (_ & -> & _) Hk. by eapply lvl_encode_dom. Qed.

Lemma ready_alive h s K V i dw :
  rocks_inv h s -> ready h K V i dw -> has_rdb h K V i dw /\ exists d hh j f, rdb_alive s dw d hh j f.
Proof.
  intros HI [Hi [hh Hh]]. split; [done|]. destruct (ri_db _ _ HI i dw hh) as (d & j & f & Ha); [apply Hi|done|].
  by exists d, hh, j, f.
Qed.

Lemma rsafe_env_open e path bs h s :
  rocks_inv h s -> rocks_ok (REnvOpen e path bs) h s -> rstays h s (rocks_env_open e path bs).
Proof.
  intros HI (ew & He & Hn & Hnd & Hlen & Hbs). pose proof (ri_env _ _ HI e ew He) as Hok. pose proof Hok as (Hh & HK & _).
  unfold rstays, rocks_env_open. wstep. wstep. wstep.
  assert (HR : forall buf, wpm LSM (fun _ => False) (r ← ffi (rocks_Open (utf8 path) buf (re_desc ew));
      modify (rup_env <[e := REnv (re_db ew) (re_desc ew) (snd (snd r))]>) ;;
      if negb (ls_ok (fst r)) then mret (throw_status (fst r) info0)
      else pdb ← pure (of_option UninitRead (fst (snd r)));
        modify (rup_env <[e := REnv (Some pdb) (re_desc ew) (snd (snd r))]>) ;; mret info0) h s
      (fun _ h' s' => rocks_inv h' s')).
  { intros buf. wstep. wstep; [split_and!; [done|done|lia]|].
    intros r s' [(d & hs & fams & -> & Hd & Hc & Hw & (_ & Hnid & Hids) & Hl & Hnh & Hfr & ->)|[(t & o & ->) ->]]; cbn [fst snd]; wstep; wstep.
    - cbn. wstep. eapply wpm_pure; [done|]. wstep. wstep. wstep. unfold rup_env. cbn. rewrite insert_insert_eq.
      by apply (inv_open h s e ew d hs fams).
    - cbn. wstep. apply (inv_env_update h s e ew); [done|done|done|]. split; [done|]. split; [done|]. cbn. by rewrite Hn. }
  destruct (IsNumber bs); [|wstep; by apply HR]. destruct (Hbs eq_refl) as [z Hz]. wstep. wstep. wstep. by apply HR.
Qed.

Lemma rsafe_db_new K V i e name h s :
  rocks_inv h s -> rocks_ok (RDbNew K V i e name) h s -> rstays h s (rocks_db_ctor K V i e name).
Proof.
  intros HI (Hi & ew & He & Hlen). destruct (ri_env _ _ HI e ew He) as (Hh & HK & H3).
  unfold rstays, rocks_db_ctor. wstep. wstep. cbv zeta. wstep. wstep. wstep. wstep. wstep.
  apply inv_new_rdb; [|done|done|cbn; rewrite length_app; cbn; destruct (re_desc ew); [done|]; cbn in *; rewrite wrap_s_small; lia].
  apply (inv_env_update h s e ew); [done|done|done|]. cbn. split; [by destruct (re_desc ew)|].
  split; [apply Forall_app; split; [done|]; apply Forall_singleton; by exists K|]. cbn.
  destruct (re_db ew) as [d|]; [|done]. destruct H3 as (x & Hx & Hl & Hj). exists x. split; [done|]. split; [done|].
  intros j f Hf. destruct (Hj j f Hf) as [nm Hnm]. exists nm. by apply lookup_app_l_Some.
Qed.

Lemma rsafe_init K V i e h s : rocks_inv h s -> rocks_ok (RDbInit K V i e) h s -> rstays h s (rocks_db_init K V i e).
Proof.
  intros HI (dw & ew & n & nm & hh & d & Hi & He & Hn & Hds & Hd & Hhh & Hh & Hno). pose proof (has_rdb_unwrap _ _ _ _ _ Hi) as Hu.
  destruct (ri_handle _ _ HI hh d n Hh) as [f Hf]. pose proof (ri_env _ _ HI e ew He) as (_ & _ & H3). rewrite Hd in H3.
  destruct H3 as (x & Hx & Hl & Hj). pose proof Hf as (x' & Hx' & Hf'). assert (x' = x) as -> by congruence.
  destruct (Hj n f Hf') as [nm' Hnm]. rewrite Hds in Hnm. injection Hnm as <- Hc.
  unfold rstays, rocks_db_init. wstep. wstep. wstep. wstep. wstep. eapply (wpm_pure _ _ _ hh).
  { rewrite Hn, (proj2 (Z.ltb_ge _ _)), Nat2Z.id, Hhh by lia. done. }
  wstep. wstep. wstep. eapply (inv_init h s i _ d hh n f); [done|destruct Hi as [Hi _]; by eexists| |done|cbn; apply (ri_idx _ _ HI i dw), Hi|].
  - split_and!; try done.
  - pose proof (ri_idx _ _ HI i dw (proj1 Hi)). lia.
Qed.

Lemma rsafe_get K V i a h s : rocks_inv h s -> rocks_ok (RDbGet K V i a) h s -> rstays h s (rocks_db_get K V i a).
Proof.
  intros HI (dw & d & hh & j & f & Hi & Ha & [k Hk] & Hdec). pose proof (has_rdb_unwrap _ _ _ _ _ Hi) as Hu.
  unfold rstays, rocks_db_get. wstep. wstep.
  eapply wpm_mono; [apply wpm_LSM; eapply (get_body_ok _ K V _ _ a k); [by eapply alive_find|done|by eapply alive_dom|done]|].
  by intros r h' s' (-> & -> & _).
Qed.

Lemma rsafe_put K V i a b bat h s :
  rocks_inv h s -> rocks_ok (RDbPut K V i a b bat) h s -> rstays h s (rocks_db_put K V i a b bat).
Proof.
  intros HI (dw & k & v & Hr & Hk & Hv & Hb). destruct (ready_alive _ _ _ _ _ _ HI Hr) as (Hi & d & hh & j & f & Ha).
  pose proof (has_rdb_unwrap _ _ _ _ _ Hi) as Hu. pose proof (alive_dom _ _ _ _ _ _ _ _ _ _ _ _ Ha Hi Hk) as Hd.
  unfold rstays, rocks_db_put. wstep. wstep. wstep. wstep. wstep. wstep. destruct bat as [n|].
  - destruct Hb as (bw & sq & l & Hj & Hbw & Hfk & Hfv & Hn). pose proof Ha as (_ & Hcf & _). wstep. wstep. wstep. wstep.
    { rewrite Hcf. cbn. rewrite (alive_id _ _ _ _ _ _ Ha). by eexists. }
    intros id s' (-> & Hid). rewrite Hcf in Hid. destruct Hid as (g & Hg & ->). rewrite (alive_id _ _ _ _ _ _ Ha) in Hg.
    injection Hg as <-. destruct (ri_fams _ _ HI d j f) as (_ & _ & Hid); [apply Ha|].
    destruct (rb_add_ok _ _ _ (OAdd (RkPut (f_id f) k v)) Hbw) as (rep & E & Hrep); [done|done|]. cbn in E.
    wstep. wstep. wstep. wstep. wstep. by eapply inv_rbatch.
  - eapply wpm_mono; [apply wpm_LSM; eapply put_body_ok; [by eapply alive_find|done]|].
    intros r h' s' (-> & st & _ & HW). eapply (inv_wrote _ _ _ _ _ (RPut k v)); [done|apply Ha|exact Hd|exact HW].
Qed.

Lemma rsafe_del K V i a bat h s :
  rocks_inv h s -> rocks_ok (RDbDel K V i a bat) h s -> rstays h s (rocks_db_del K V i a bat).
Proof.
  intros HI (dw & k & Hr & Hk & Hb). destruct (ready_alive _ _ _ _ _ _ HI Hr) as (Hi & d & hh & j & f & Ha).
  pose proof (has_rdb_unwrap _ _ _ _ _ Hi) as Hu. pose proof (alive_dom _ _ _ _ _ _ _ _ _ _ _ _ Ha Hi Hk) as Hd.
  unfold rstays, rocks_db_del. wstep. wstep. wstep. wstep. destruct bat as [n|].
  - destruct Hb as (bw & sq & l & Hj & Hbw & Hfk & _ & Hn). pose proof Ha as (_ & Hcf & _). wstep. wstep. wstep. wstep.
    { rewrite Hcf. cbn. rewrite (alive_id _ _ _ _ _ _ Ha). by eexists. }
    intros id s' (-> & Hid). rewrite Hcf in Hid. destruct Hid as (g & Hg & ->). rewrite (alive_id _ _ _ _ _ _ Ha) in Hg.
    injection Hg as <-. destruct (ri_fams _ _ HI d j f) as (_ & _ & Hid); [apply Ha|].
    destruct (rb_add_ok _ _ _ (OAdd (RkDelete (f_id f) k)) Hbw) as (rep & E & Hrep); [done|done|]. cbn in E.
    wstep. wstep. wstep. wstep. wstep. by eapply inv_rbatch.
  - eapply wpm_mono; [apply wpm_LSM; eapply del_body_ok; [by eapply alive_find|done]|].
    intros r h' s' (-> & st & _ & HW). eapply (inv_wrote _ _ _ _ _ (RDelete k)); [done|apply Ha|exact Hd|exact HW].
Qed.

Lemma rsafe_write K V i j h s : rocks_inv h s -> rocks_ok (RDbWrite K V i j) h s -> rstays h s (rocks_db_write K V i j).
Proof.
  intros HI (dw & bw & sq & l & recs & Hr & Hj & Hb & Hl & Hs). destruct (ready_alive _ _ _ _ _ _ HI Hr) as (Hi & _).
  pose proof (has_rdb_unwrap _ _ _ _ _ Hi) as Hu. unfold rstays, rocks_db_write. wstep. wstep. wstep. wstep. wstep.
  wstep; [by exists sq, l, recs|]. intros r s' (sq' & l' & recs' & s1 & Hb' & Hl' & E & W & sq2 & Hb2). wstep. wstep. wstep.
  eapply inv_rbatch; [|exact Hb2]. pose proof (inv_do_records _ _ _ _ _ HI E). by destruct W as [[_ ->]|[_ [->| ->]]].
Qed.

Lemma rsafe_cursor_new K V c i h s : rocks_inv h s -> rocks_ok (RCurNew K V c i) h s -> rstays h s (rocks_cursor_ctor K V c i).
Proof.
  intros HI (Hc & dw & Hr). destruct (ready_alive _ _ _ _ _ _ HI Hr) as (Hi & d & hh & j & f & Ha).
  pose proof (has_rdb_unwrap _ _ _ _ _ Hi) as Hu. pose proof (alive_find _ _ _ _ _ _ Ha) as Hf.
  pose proof Ha as (_ & _ & _ & Hfa & Hcm). destruct (ri_fams _ _ HI d j f Hfa) as (_ & Hw & _).
  unfold rstays, rocks_cursor_ctor. wstep. wstep. wstep. wstep; [by eexists|].
  intros it s' (d0 & i0 & f0 & Hf' & Hit & ->). rewrite Hf in Hf'. injection Hf' as <- <- <-. wstep. wstep. wstep.
  apply inv_new_rcur; [done|done|done|cbn; rewrite Hcm; by destruct Hi as (_ & -> & _)|destruct Hfa as (x & Hx & _); by exists x|done].
Qed.

Lemma rsafe_move K V fn c h s : rocks_inv h s -> rocks_ok (RCurMove K V fn c) h s -> rstays h s (rocks_cursorOp K V fn c).
Proof.
  intros HI (cw & Hc & Hfn). pose proof (has_rcur_unwrap _ _ _ _ _ Hc) as Hu.
  destruct (ri_cur _ _ HI c cw) as (it & x & E & Hx & _); [apply Hc|].
  unfold rstays, rocks_cursorOp. wstep. wstep. rewrite E.
  eapply wpm_mono; [apply wpm_LSM, (cursorOp_body_ok _ it fn h s x Hx)|].
  - destruct fn; try done; destruct Hfn as (it' & x' & (E' & Hx' & _) & Hv); assert (x' = x) as -> by congruence; done.
  - intros r h' s' (-> & -> & _). by apply inv_rmove.
Qed.

Lemma rsafe_gte K V c a h s : rocks_inv h s -> rocks_ok (RCurGte K V c a) h s -> rstays h s (rocks_cursor_gte K V c a).
Proof.
  intros HI (cw & Hc & [k Hk]). pose proof (has_rcur_unwrap _ _ _ _ _ Hc) as Hu.
  destruct (ri_cur _ _ HI c cw) as (it & x & E & Hx & Hcm & _); [apply Hc|].
  unfold rstays, rocks_cursor_gte. wstep. wstep. rewrite E.
  eapply wpm_mono; [apply wpm_LSM, (gte_body_ok _ K it a k h s x Hx Hk)|].
  - rewrite Hcm. destruct Hc as (_ & -> & _). by eapply lvl_encode_dom.
  - intros r h' s' (-> & -> & _). by apply inv_rmove.
Qed.

Lemma rsafe_key K V c h s : rocks_inv h s -> rocks_ok (RCurKey K V c) h s -> rstays h s (rocks_cursor_key K V c).
Proof.
  intros HI (cw & it & x & k & v & Hc & (E & Hx & _) & Hat & [y Hy]). pose proof (has_rcur_unwrap _ _ _ _ _ Hc) as Hu.
  unfold rstays, rocks_cursor_key. wstep. wstep. rewrite E.
  eapply wpm_mono; [apply wpm_LSM, (key_body_ok _ K it h s x k v y Hx Hat Hy)|]. by intros r h' s' (-> & -> & _).
Qed.

Lemma rsafe_value K V c h s : rocks_inv h s -> rocks_ok (RCurVal K V c) h s -> rstays h s (rocks_cursor_value K V c).
Proof.
  intros HI (cw & it & x & k & v & Hc & (E & Hx & _) & Hat & [y Hy]). pose proof (has_rcur_unwrap _ _ _ _ _ Hc) as Hu.
  unfold rstays, rocks_cursor_value. wstep. wstep. rewrite E.
  eapply wpm_mono; [apply wpm_LSM, (value_body_ok _ V it h s x k v y Hx Hat Hy)|]. by intros r h' s' (-> & -> & _).
Qed.

Lemma rsafe_gc_env e h s : rocks_inv h s -> rocks_ok (REnvGc e) h s -> rstays h s (rignore (rocks_env_dtor e)).
Proof.
  intros HI (ew & He & Hdb & Hit & Hhs). pose proof (inv_env_gc h s e ew HI He Hdb Hit) as HJ.
  pose proof (ri_env _ _ HI e ew He) as (_ & _ & H3).
  unfold rstays, rignore, rocks_env_dtor. wstep. wstep. wstep. wstep. wstep.
  { destruct (re_db ew) as [d|]; [|done]. destruct H3 as (x & Hx & _). split; [by exists x|].
    split; [intros it y Hy E; destruct (Hit it y Hy); congruence|]. intros hh q Hq E. destruct (Hhs hh q Hq). congruence. }
  intros _ s' ->. wstep. wstep. destruct (re_db ew); exact HJ.
Qed.

Lemma rsafe_gc_db K V i h s : rocks_inv h s -> rocks_ok (RDbGc K V i) h s -> rstays h s (rignore (rocks_db_dtor K V i)).
Proof.
  intros HI [dw Hi]. pose proof (has_rdb_unwrap _ _ _ _ _ Hi) as Hu. destruct Hi as [Hi _]. pose proof (inv_rdb_gc h s i dw HI Hi) as HJ.
  unfold rstays, rignore, rocks_db_dtor. wstep. wstep. wstep. wstep. wstep.
  { destruct (rd_cf dw) as [hh|] eqn:E; [|done]. destruct (ri_db _ _ HI i dw hh Hi E) as (d & j & f & _ & _ & Hh & _). by eexists. }
  intros _ s' ->. wstep. wstep. destruct (rd_cf dw); exact HJ.
Qed.

Lemma rsafe_gc_cursor K V c h s : rocks_inv h s -> rocks_ok (RCurGc K V c) h s -> rstays h s (rignore (rocks_cursor_dtor K V c)).
Proof.
  intros HI [cw Hc]. pose proof (has_rcur_unwrap _ _ _ _ _ Hc) as Hu. destruct Hc as [Hc _].
  destruct (ri_cur _ _ HI c cw Hc) as (it & x & E & Hx & _).
  unfold rstays, rignore, rocks_cursor_dtor. wstep. wstep. wstep. wstep. wstep; [rewrite E; cbn; rewrite Hx; by eexists|].
  intros _ s' (it' & E' & ->). assert (it' = it) as -> by congruence. wstep. wstep. by eapply inv_rcur_gc.
Qed.

Lemma rocks_op_safe o h s : rocks_inv h s -> rocks_ok o h s -> rstays h s (rocks_exec o).
Proof.
  intros HI HO. destruct o; cbn [rocks_exec].
  - unfold rstays, rocks_env_ctor. wstep. wstep. wstep. apply inv_env; [done|done|done|].
    split; [done|]. split; [|done]. apply Forall_singleton. by exists Str.
  - by apply rsafe_env_open.
  - by apply rsafe_gc_env.
  - by apply rsafe_db_new.
  - by apply rsafe_init.
  - by apply rsafe_get.
  - by apply rsafe_put.
  - by apply rsafe_del.
  - by apply rsafe_write.
  - by apply rsafe_gc_db.
  - by apply rsafe_cursor_new.
  - by apply rsafe_move.
  - by apply rsafe_key.
  - by apply rsafe_value.
  - by apply rsafe_gte.
  - by apply rsafe_gc_cursor.
  - unfold rstays, rocks_batch_ctor. wstep. wstep. wstep. eapply inv_rbatch; [done|apply rb_is_empty].
  - destruct HO as [bw Hb]. unfold rstays, rocks_batch_clear. wstep. wstep. wstep. wstep. wstep.
    eapply inv_rbatch; [done|apply rb_is_empty].
  - destruct HO as [bw Hb]. unfold rstays, rignore, rocks_batch_dtor. wstep. wstep. wstep. wstep. wstep. by apply inv_rbatch_gc.
Qed.

Lemma rocks_inv_0 : rocks_inv rheap0 lsm0.
Proof.
  split; cbn; try (intros *; rewrite lookup_empty; done). intros d j f (x & Hx & _). cbn in Hx. by rewrite lookup_empty in Hx.
Qed.

Lemma rocks_reach_inv h s : rocks_reach h s -> rocks_inv h s.
Proof.
  induction 1 as [|o h s i h' s' _ IH HO HM]; [apply rocks_inv_0|].
  apply (wpu_may LSM _ _ _ _ _ _ (rocks_op_safe o h s IH HO) HM).
Qed.

(** C12. Every method of the RocksDB binding, called as documented in a state
    that such calls lead to, runs to its end on any RocksDB, makes only calls
    RocksDB allows, and leads to such a state again: families and the objects
    that stand for them stay paired, [init] reads inside the vector of handles,
    and no handle or iterator is used after it was deleted or deleted twice.
    Documented here excludes collecting an environment that was opened, which
    [rocks_misuse_undefined] is about. *)
Theorem rocks_calls_safe {W} (Eng : forall X, lsm_call X -> W -> X * W) (R : W -> lsm -> Prop)
    (EN : Engine LSM Eng R) o h s w :
  rocks_reach h s -> rocks_ok o h s -> R w s ->
  ends LSM (fun _ => False) (fun r s' => rocks_reach (snd r) s') R (run Eng (rocks_exec o h) w).
Proof.
  intros HR HO HW. eapply (run_sound LSM); [exact EN|exact HW|].
  eapply wpu_mono; [exact (wpu_result _ _ _ _ _ (rocks_op_safe o h s (rocks_reach_inv h s HR) HO))|done|].
  intros [i h'] s' [HM _]. by eapply rreach_op.
Qed.
End Ops.

(** ** An example

    An environment with one database of 32-bit keys and string values. *)
Section Demo.
#[local] Existing Instance SimpleV8.

Definition rdemo_do (o : rocks_op) (st : rheap * lsm) : rheap * lsm :=
  match run lsm_exec (rocks_exec o (fst st)) (snd st) with
  | (Done (_, h'), s') => (h', s')
  | (Undefined _, s') => (fst st, s')
  end.

Definition rdemo_done (o : rocks_op) (st : rheap * lsm) : bool :=
  match fst (run lsm_exec (rocks_exec o (fst st)) (snd st)) with Done _ => true | Undefined _ => false end.

Lemma rdemo_step st o :
  rocks_reach (fst st) (snd st) -> rocks_ok o (fst st) (snd st) -> rdemo_done o st = true ->
  rocks_reach (fst (rdemo_do o st)) (snd (rdemo_do o st)).
Proof.
  intros HR HO. unfold rdemo_done, rdemo_do. destruct st as [h s]. cbn [fst snd] in *.
  destruct (run lsm_exec (rocks_exec o h) s) as [[[i h']|u] s'] eqn:E; [|done]. intros _. cbn [fst snd].
  destruct (run_may LSM _ lsm_exec eq (rocks_exec o h) s s _ (i, h') s' eq_refl
              (rocks_op_safe o h s (rocks_reach_inv h s HR) HO) E) as (s2 & HM & <-). by eapply rreach_op.
Qed.

Definition rdemo1 : rheap * lsm := rdemo_do (REnvNew 0) (rheap0, lsm0).
Definition rdemo2 : rheap * lsm := rdemo_do (@RDbNew SimpleV8 (Num I32) Str 0 0 (SStr (lit "n"))) rdemo1.
Definition rdemo3 : rheap * lsm := rdemo_do (@REnvOpen SimpleV8 0 (SStr (lit "db")) SUndefined) rdemo2.
Definition rdemo4 : rheap * lsm := rdemo_do (RDbInit (Num I32) Str 0 0) rdemo3.

(** What is registered and open, the comparators left aside. *)
Definition renv_view (st : rheap * lsm) (e : nat) : option (list bytes * option nat * list nat) :=
  (fun ew => (fst <$> re_desc ew, re_db ew, re_handles ew)) <$> rh_env (fst st) !! e.

Lemma renv_viewed st e v : renv_view st e = Some v ->
  exists ew, rh_env (fst st) !! e = Some ew /\ fst <$> re_desc ew = v.1.1 /\ re_db ew = v.1.2 /\ re_handles ew = v.2.
Proof. unfold renv_view. intros (ew & -> & ->)%fmap_Some. by exists ew. Qed.

Lemma rdemo3_reach : rocks_reach (fst rdemo3) (snd rdemo3).
Proof.
  assert (H1 : rocks_reach (fst rdemo1) (snd rdemo1)).
  { apply rdemo_step; [constructor|apply lookup_empty|by vm_compute]. }
  assert (H2 : rocks_reach (fst rdemo2) (snd rdemo2)).
  { apply rdemo_step; [exact H1| |by vm_compute]. split; [by vm_compute|].
    destruct (renv_viewed rdemo1 0 ([lit "default"], None, []) ltac:(by vm_compute)) as (ew & He & Hd & _).
    exists ew. split; [done|]. apply (f_equal length) in Hd. rewrite length_fmap in Hd. rewrite Hd. by vm_compute. }
  apply rdemo_step; [exact H2| |by vm_compute].
  destruct (renv_viewed rdemo2 0 ([lit "default"; lit "n"], None, []) ltac:(by vm_compute)) as (ew & He & Hd & Ho & _).
  exists ew. split; [done|]. split; [done|]. rewrite Hd. split; [apply (bool_decide_unpack _); by vm_compute|].
  apply (f_equal length) in Hd. rewrite length_fmap in Hd. rewrite Hd. split; [by vm_compute|]. by intros [=].
Qed.

Lemma rdemo4_reach : rocks_reach (fst rdemo4) (snd rdemo4).
Proof.
  apply rdemo_step; [exact rdemo3_reach| |by vm_compute].
  assert (Hv : (fun dw => (rd_key dw, rd_val dw, rd_cfidx dw, rd_cf dw)) <$> rh_db (fst rdemo3) !! 0%nat = Some (Num I32, Str, 1, None))
    by (by vm_compute).
  apply fmap_Some in Hv as (dw & Hdw & [= HK HV Hix Hcf]).
  assert (Hc : snd <$> (rh_env (fst rdemo3) !! 0%nat ≫= fun ew => re_desc ew !! 1%nat) = Some (lvl_comparator (Num I32))) by reflexivity.
  destruct (renv_viewed rdemo3 0 ([lit "default"; lit "n"], Some 1%nat, [1%nat; 2%nat]) ltac:(by vm_compute)) as (ew & He & _ & Ho & Hh).
  rewrite He in Hc. cbn in Hc. apply fmap_Some in Hc as ([nm c] & Hc & [= <-]).
  exists dw, ew, 1%nat, nm, 2%nat, 1%nat. split; [done|]. split; [done|]. split; [done|]. split; [done|]. split; [done|].
  split; [by rewrite Hh|]. split; [by vm_compute|].
  assert (N : map_Forall (fun _ dw => rd_cf dw <> Some 2%nat) (rh_db (fst rdemo3))) by (apply (bool_decide_unpack _); by vm_compute).
  exact N.
Qed.

Lemma rdemo4_db : exists dw, ready (fst rdemo4) (Num I32) Str 0 dw.
Proof.
  assert (Hv : (fun dw => (rd_key dw, rd_val dw, rd_cf dw)) <$> rh_db (fst rdemo4) !! 0%nat = Some (Num I32, Str, Some 2%nat)) by (by vm_compute).
  apply fmap_Some in Hv as (dw & Hdw & [= HK HV Hcf]). exists dw. split; [done|]. by rewrite <- Hcf.
Qed.
End Demo.
Lemma rocks_calls_safe_witness :
  let o := @RDbPut SimpleV8 (Num I32) Str 0 (SNum 7) (SStr (lit "seven")) None in
  ends LSM (fun _ => False) (fun r s' => @rocks_reach SimpleV8 (snd r) s') eq
    (run lsm_exec (@rocks_exec SimpleV8 o (fst rdemo4)) (snd rdemo4)).
Proof.
  apply (@rocks_calls_safe SimpleV8 lsm lsm_exec eq lsm_conforms _ (fst rdemo4) (snd rdemo4) (snd rdemo4));
    [exact rdemo4_reach| |reflexivity].
  destruct rdemo4_db as [dw Hdw]. exists dw. do 2 eexists. split; [exact Hdw|]. by split_and!.
Defined.
