(* ===== verification/RocksSpec.v ===== *)
(** * What RocksDB databases do for JavaScript

    The databases of an environment against independent ordered stores: calls
    on any of them, and batches that go to several of them at once. *)
From S2P Require Import Prelude Nan KvTypes Prog Store LmdbApi LmdbObjects LmdbInv.
From S2P Require Import LvlFormat LvlBatch RocksBatch LsmApi LsmEngine LvlBind LvlBindSafe LvlBindSpec LsmBodies RocksBind RocksSafe.

Section Spec.
Context `{V8}.

(** ** The specification *)

(** A call on the object [c_obj] of the class [DB_K_V]. *)
Record rcall (O : Type) := RCall { c_obj : nat; c_key : kv_type; c_val : kv_type; c_op : O }.
Arguments RCall {O}.
Arguments c_obj {O}.
Arguments c_key {O}.
Arguments c_val {O}.
Arguments c_op {O}.

Fixpoint spec_rocks (l : list (rcall ldb_op)) (M : gmap nat fam_st) : res (list js_result * gmap nat fam_st) :=
  match l with
  | [] => Ok ([], M)
  | c :: l' =>
      f ← of_option BadUnwrap (M !! c_obj c);
      r ← spec_ldb (c_key c) (c_val c) (c_op c) f;
      rs ← spec_rocks l' (<[c_obj c := snd r]> M);
      Ok (fst r :: fst rs, snd rs)
  end.

(** The same on an engine that may fail, if [fl] ([ends_ldb]). *)
Fixpoint rocks_runs (fl : Prop) (l : list (rcall ldb_op)) (M : gmap nat fam_st) (rs : list js_result) (M' : gmap nat fam_st) : Prop :=
  match l, rs with
  | [], [] => M' = M
  | c :: l', r :: rs' => exists f f1, M !! c_obj c = Some f /\ ends_ldb (c_key c) (c_val c) fl (c_op c) f r f1 /\
      rocks_runs fl l' (<[c_obj c := f1]> M) rs' M'
  | _, _ => False
  end.

Lemma rocks_runs_exact l M rs M' : rocks_runs False l M rs M' -> spec_rocks l M = Ok (rs, M').
Proof.
  revert M rs. induction l as [|c l IH]; intros M [|r rs]; cbn [rocks_runs spec_rocks]; try done; [by intros ->|].
  intros (f & f1 & -> & [E|([] & _)] & Hr). cbn [of_option mbind res_bind]. rewrite E. cbn [mbind res_bind fst snd].
  by rewrite (IH _ rs Hr).
Qed.

Definition run_rocks1 (c : rcall ldb_op) : rmeth info :=
  match c_op c with
  | LPut a b => rocks_db_put (c_key c) (c_val c) (c_obj c) a b None
  | LGet a => rocks_db_get (c_key c) (c_val c) (c_obj c) a
  | LDel a => rocks_db_del (c_key c) (c_val c) (c_obj c) a None
  end.

Fixpoint run_rocks (l : list (rcall ldb_op)) : rmeth (list js_result) :=
  match l with
  | [] => mret []
  | c :: l' => r ← run_rocks1 c; rs ← run_rocks l'; mret (js r :: rs)
  end.

(** The objects of [M] are databases that hold the entries [M] says, all of
    their types. *)
Definition rdb_holds (h : rheap) (s : lsm) (i : nat) (f : fam_st) : Prop :=
  exists dw d hh j, rh_db h !! i = Some dw /\ rdb_alive s dw d hh j f /\ ldb_typed (rd_val dw) f.

Definition rocks_holds (h : rheap) (s : lsm) (M : gmap nat fam_st) : Prop :=
  rocks_inv h s /\ forall i f, M !! i = Some f -> rdb_holds h s i f.

Definition rcall_ok (h : rheap) (M : gmap nat fam_st) (c : rcall ldb_op) : Prop :=
  is_Some (M !! c_obj c) /\ (exists dw, has_rdb h (c_key c) (c_val c) (c_obj c) dw) /\ ldb_op_ok (c_key c) (c_val c) (c_op c).

(** ** Batches over several databases *)
Fixpoint run_rbat (j : nat) (l : list (rcall lbat_op)) : rmeth unit :=
  match l with
  | [] => mret tt
  | c :: l' =>
      match c_op c with
      | BPut a b => rocks_db_put (c_key c) (c_val c) (c_obj c) a b (Some j)
      | BDel a => rocks_db_del (c_key c) (c_val c) (c_obj c) a (Some j)
      end ;; run_rbat j l'
  end.

Definition run_rbatch_write (K V : kv_type) (i j : nat) (l : list (rcall lbat_op)) : rmeth info :=
  run_rbat j l ;; rocks_db_write K V i j.

(** What the batch does to the stores. *)
Fixpoint spec_rbat (l : list (rcall lbat_op)) (M : gmap nat fam_st) : res (gmap nat fam_st) :=
  match l with
  | [] => Ok M
  | c :: l' =>
      f ← of_option BadUnwrap (M !! c_obj c);
      r ← bat_record (c_key c) (c_val c) (c_op c);
      spec_rbat l' (<[c_obj c := do_record r f]> M)
  end.

(** ** A record to one of the databases *)
Lemma rdb_holds_set h s i f f' d j dw hh :
  rocks_inv h s -> rh_db h !! i = Some dw -> rdb_alive s dw d hh j f -> ldb_typed (rd_val dw) f' ->
  f_cmp f' = f_cmp f -> rdb_holds h (set_fam d j f' s) i f'.
Proof.
  intros HI Hi (E1 & E2 & Hh & (x & Hx & Hj) & Hc) Ht Ec. exists dw, d, hh, j. split; [done|]. split; [|done].
  split; [done|]. split; [done|]. split; [done|]. split; [|congruence]. eexists. cbn. rewrite lookup_alter_eq, Hx. split; [done|]. cbn.
  apply list_lookup_insert_eq. by eapply lookup_lt_Some.
Qed.

Lemma rdb_holds_other h s i f i' f' d j dw hh g :
  rocks_inv h s -> rh_db h !! i = Some dw -> rdb_alive s dw d hh j f -> i' <> i ->
  rdb_holds h s i' f' -> rdb_holds h (set_fam d j g s) i' f'.
Proof.
  intros HI Hi Ha Hne (dw' & d' & hh' & j' & Hi' & Ha' & Ht'). exists dw', d', hh', j'. split; [done|]. split; [|done].
  destruct Ha as (_ & Ec & Hh & _). destruct Ha' as (? & Ec' & Hh' & (x & Hx & Hj) & ?).
  split; [done|]. split; [done|]. split; [done|]. split; [|done]. unfold fam_at. cbn.
  destruct (decide (d' = d)) as [->|]; [|exists x; by rewrite lookup_alter_ne].
  eexists. rewrite lookup_alter_eq, Hx. split; [done|]. cbn. rewrite list_lookup_insert_ne; [done|]. intros <-.
  apply Hne. assert (hh' = hh) as -> by by eapply (ri_handle_inj _ _ HI). by eapply (ri_db_inj _ _ HI).
Qed.

Lemma rocks_holds_set h s M i f r dw d hh j :
  rocks_holds h s M -> M !! i = Some f -> rh_db h !! i = Some dw -> rdb_alive s dw d hh j f ->
  dom (f_cmp f) (rec_key r) = true -> record_typed (rd_val dw) r -> ldb_typed (rd_val dw) f ->
  rocks_holds h (set_fam d j (do_record r f) s) (<[i := do_record r f]> M).
Proof.
  intros [HI HM] Hf Hi Ha Hd Hr Ht. split.
  - eapply (inv_wrote h s d j f r LOk info0); [done|apply Ha|done|by left].
  - intros i' f' [[<- <-]|[Hne Hf']]%lookup_insert_Some.
    + eapply rdb_holds_set; [done|done|done|by apply do_record_typed|done].
    + eapply rdb_holds_other; [done|done|done|done|by apply HM].
Qed.

(** ** Calls on the databases *)
(** A write of the binding leaves the record done, or throws. *)
Lemma rocks_wrote (fl : Prop) K V o r0 h s M i f dw d hh j st q s' :
  rocks_holds h s M -> M !! i = Some f -> rh_db h !! i = Some dw -> rdb_alive s dw d hh j f ->
  dom (f_cmp f) (rec_key r0) = true -> record_typed (rd_val dw) r0 -> ldb_typed (rd_val dw) f ->
  spec_ldb K V o f = Ok (JsReturn v_undefined, do_record r0 f) ->
  (forall t, st = LError t -> fl) -> wrote st s (set_fam d j (do_record r0 f) s) q s' ->
  exists f', ends_ldb K V fl o f (js q) f' /\ rocks_holds h s' (<[i := f']> M).
Proof.
  intros HH Hf Hi Ha Hd Hr Ht E Hfl W. pose proof (rocks_holds_set h s M i f r0 dw d hh j HH Hf Hi Ha Hd Hr Ht) as HH'.
  destruct W as [[Hq ->]|[(t & Et & Hq) Hs]].
  - exists (do_record r0 f). split; [left; by rewrite Hq|done].
  - assert (Hth : fl /\ exists t', js q = JsThrow t') by (split; [by eapply Hfl|by eexists]). destruct Hth as [Hfl' Hth].
    destruct Hs as [->| ->].
    + exists f. rewrite insert_id by done. split; [right; split; [done|]; split; [done|by left]|done].
    + exists (do_record r0 f). split; [right; split; [done|]; split; [done|right; by eexists]|done].
Qed.

Lemma rocks_call (P : forall X, lsm_call X -> X -> Prop) (fl : Prop) `{!Failing P fl} h s M c f :
  rocks_holds h s M -> rcall_ok h M c -> M !! c_obj c = Some f ->
  wpm (LSM_with P) (fun _ => False) (run_rocks1 c) h s (fun q h' s' => h' = h /\
    exists f', ends_ldb (c_key c) (c_val c) fl (c_op c) f (js q) f' /\ rocks_holds h s' (<[c_obj c := f']> M)).
Proof.
  intros HH (_ & (dw & Hi) & Ho) Hf. pose proof HH as [HI HM]. destruct c as [i K V o]. cbn [c_obj c_key c_val c_op] in *.
  destruct (HM i f Hf) as (dw' & d & hh & j & Hi' & Ha & Ht). pose proof Hi as (Hi1 & EK & EV). assert (dw' = dw) as -> by congruence.
  pose proof (has_rdb_unwrap _ _ _ _ _ Hi) as Hu. pose proof (alive_find _ _ _ _ _ _ Ha) as Hfind.
  unfold run_rocks1. cbn [c_op c_key c_val c_obj]. destruct o as [a b|a|a]; cbn [ldb_op_ok] in Ho.
  - destruct Ho as [[k Hk] (v & Hv & Hvd)]. pose proof (alive_dom _ _ _ _ _ _ _ _ _ _ _ _ Ha Hi Hk) as Hd.
    unfold rocks_db_put. do 6 wstep. eapply wpm_mono; [eapply put_body_ok; [exact Hfind|exact Hd]|].
    intros q h' s' (-> & st & HP & W). split; [done|].
    eapply (rocks_wrote fl K V _ (RPut k v)); [done|done|done|done|done| |done|cbn; by rewrite Hk, Hv| |exact W].
    + rewrite EV. by intros ? ? [= <- <-].
    + intros t ->. by eapply fail_put.
  - destruct Ho as [k Hk]. pose proof (alive_dom _ _ _ _ _ _ _ _ _ _ _ _ Ha Hi Hk) as Hd. unfold rocks_db_get. do 2 wstep.
    eapply wpm_mono; [eapply (get_body_ok P K V); [exact Hfind|exact Hk|exact Hd|by rewrite <- EV]|].
    intros q h' s' (-> & -> & Hq). split; [done|]. exists f. rewrite insert_id by done. split; [|done].
    destruct Hq as [(t & v & HP & ->)|Hq].
    + right. split; [by eapply fail_get|]. split; [by eexists|by left].
    + left. cbn. rewrite Hk. cbn. destruct (s_get (f_cmp f) k (f_data f)); [destruct Hq as (x & -> & ->)|rewrite Hq]; done.
  - destruct Ho as [k Hk]. pose proof (alive_dom _ _ _ _ _ _ _ _ _ _ _ _ Ha Hi Hk) as Hd.
    unfold rocks_db_del. do 4 wstep. eapply wpm_mono; [eapply del_body_ok; [exact Hfind|exact Hd]|].
    intros q h' s' (-> & st & HP & W). split; [done|].
    eapply (rocks_wrote fl K V _ (RDelete k)); [done|done|done|done|done|by intros ? ? [=]|done|cbn; by rewrite Hk| |exact W].
    intros t ->. by eapply fail_del.
Qed.

(** ... on an engine that does not fail. *)
Lemma rocks_one h s M c f r f' :
  rocks_holds h s M -> rcall_ok h M c -> M !! c_obj c = Some f -> spec_ldb (c_key c) (c_val c) (c_op c) f = Ok (r, f') ->
  wpm LSM_sure (fun _ => False) (run_rocks1 c) h s (fun q h' s' => js q = r /\ h' = h /\ rocks_holds h s' (<[c_obj c := f']> M)).
Proof.
  intros HH Hc Hf E. eapply wpm_mono; [exact (rocks_call _ False h s M c f HH Hc Hf)|].
  intros q h' s' (-> & f1 & [E1|([] & _)] & HH'). rewrite E in E1. by injection E1 as <- <-.
Qed.

Definition rtyped (h : rheap) (M : gmap nat fam_st) : Prop :=
  forall i f dw, M !! i = Some f -> rh_db h !! i = Some dw -> ldb_typed (rd_val dw) f.

Lemma rocks_holds_typed h s M : rocks_holds h s M -> rtyped h M.
Proof. intros [_ HM] i f dw Hf Hi. destruct (HM i f Hf) as (dw' & d & hh & j & Hi' & _ & Ht). assert (dw' = dw) as <- by congruence. exact Ht. Qed.

Lemma rcall_ok_insert h M i f c : rcall_ok h M c -> rcall_ok h (<[i := f]> M) c.
Proof. intros (Hs & ?). split; [|done]. apply lookup_insert_is_Some'. by right. Qed.

Lemma spec_rocks_step h M c : rtyped h M -> rcall_ok h M c ->
  exists f r f1, M !! c_obj c = Some f /\ spec_ldb (c_key c) (c_val c) (c_op c) f = Ok (r, f1) /\ rtyped h (<[c_obj c := f1]> M).
Proof.
  intros Ht ([f Hf] & (dw & Hi & EK & EV) & Ho). pose proof (Ht _ _ _ Hf Hi) as Htf. rewrite EV in Htf.
  destruct (spec_ldb_one _ _ _ f Ho Htf) as (r & f1 & E & Ht1). exists f, r, f1. split_and!; try done.
  intros i g dw' [[<- <-]|[_ Hg]]%lookup_insert_Some Hi'; [|by eapply Ht]. assert (dw' = dw) as -> by congruence. by rewrite EV.
Qed.

Lemma spec_rocks_total h l M : rtyped h M -> Forall (rcall_ok h M) l -> exists rs M', spec_rocks l M = Ok (rs, M').
Proof.
  revert M. induction l as [|c l IH]; intros M Ht Hl; [by exists [], M|]. apply Forall_cons in Hl as [Hc Hl].
  destruct (spec_rocks_step h M c Ht Hc) as (f & r & f1 & Hf & E & Ht1).
  destruct (IH _ Ht1) as (rs & M' & E'); [eapply Forall_impl; [exact Hl|]; intros c'; apply rcall_ok_insert|].
  exists (r :: rs), M'. cbn [spec_rocks]. rewrite Hf. cbn [of_option mbind res_bind]. rewrite E. cbn [mbind res_bind snd fst].
  by rewrite E'.
Qed.

Lemma rocks_all (P : forall X, lsm_call X -> X -> Prop) (fl : Prop) `{!Failing P fl} l h s M :
  rocks_holds h s M -> Forall (rcall_ok h M) l ->
  wpm (LSM_with P) (fun _ => False) (run_rocks l) h s (fun q h' s' => h' = h /\ exists M', rocks_runs fl l M q M' /\ rocks_holds h s' M').
Proof.
  revert s M. induction l as [|c l IH]; intros s M HH Hl; [apply wpm_ret; split; [done|by exists M]|].
  apply Forall_cons in Hl as [Hc Hl]. pose proof Hc as ([f Hf] & _). cbn [run_rocks]. apply wpm_bind.
  eapply wpm_mono; [exact (rocks_call P fl h s M c f HH Hc Hf)|]. intros q h' s1 (-> & f1 & Hq & HH1). apply wpm_bind.
  eapply wpm_mono; [apply (IH s1 _ HH1)|].
  - eapply Forall_impl; [exact Hl|]. intros c'. apply rcall_ok_insert.
  - intros qs h' s2 (-> & M' & Hqs & HH2). apply wpm_ret. split; [done|]. exists M'. split; [by exists f, f1|done].
Qed.


(** ** Batches *)
Definition numbered (id : Z) (r : record) : rrecord :=
  match r with RPut k v => RkPut id k v | RDelete k => RkDelete id k end.

(** The records of the batch, with the numbers of their families. *)
Fixpoint rbat_records (M : gmap nat fam_st) (l : list (rcall lbat_op)) : res (list (Z * record)) :=
  match l with
  | [] => Ok []
  | c :: l' =>
      f ← of_option BadUnwrap (M !! c_obj c);
      r ← bat_record (c_key c) (c_val c) (c_op c);
      rs ← rbat_records M l';
      Ok ((f_id f, r) :: rs)
  end.

Definition rbcall_ok (h : rheap) (M : gmap nat fam_st) (d : nat) (c : rcall lbat_op) : Prop :=
  is_Some (M !! c_obj c) /\ (exists dw, has_rdb h (c_key c) (c_val c) (c_obj c) dw /\ rd_db dw = Some d) /\
  exists r, bat_record (c_key c) (c_val c) (c_op c) = Ok r /\ record_ok r /\ record_typed (c_val c) r.

Lemma rbat_total h M d l : Forall (rbcall_ok h M d) l -> exists rs, rbat_records M l = Ok rs /\ length rs = length l.
Proof.
  induction 1 as [|c l ([f Hf] & _ & r & Hr & _) _ (rs & E & El)]; [by exists []|]. exists ((f_id f, r) :: rs).
  cbn [rbat_records]. rewrite Hf. cbn [of_option mbind res_bind]. rewrite Hr. cbn [mbind res_bind]. rewrite E. cbn. by rewrite El.
Qed.

Lemma rocks_holds_batch h s M j bw sq l :
  rocks_holds h s M -> rb_is (rb_rep bw) sq l -> rocks_holds (rup_batch <[j := bw]> h) s M.
Proof. intros [HI HM] Hb. split; [by eapply inv_rbatch|]. exact HM. Qed.

(** One call collects one record. *)
Definition rbat_call (j : nat) (c : rcall lbat_op) : rmeth info :=
  match c_op c with
  | BPut a b => rocks_db_put (c_key c) (c_val c) (c_obj c) a b (Some j)
  | BDel a => rocks_db_del (c_key c) (c_val c) (c_obj c) a (Some j)
  end.

Lemma rbat_call_ok c h s M d j sq l0 f r bw :
  rocks_holds h s M -> rh_batch h !! j = Some bw -> rb_is (rb_rep bw) sq l0 -> rbcall_ok h M d c ->
  M !! c_obj c = Some f -> bat_record (c_key c) (c_val c) (c_op c) = Ok r -> Z.of_nat (length l0) + 1 < 2 ^ 31 ->
  exists rep, rb_is rep sq (l0 ++ [numbered (f_id f) r]) /\
    wpm LSM (fun _ => False) (rbat_call j c) h s (fun q h' s' =>
      js q = JsReturn v_undefined /\ s' = s /\ h' = rup_batch <[j := RBatch rep]> h).
Proof.
  intros [HI HM] Hj Hb (_ & (dw & Hi & Hd) & r' & Hr' & Hro & Hrt) Hf Hr Hn. assert (r' = r) as -> by congruence.
  destruct (HM _ f Hf) as (dw' & d' & hh & n & Hi' & Ha & _).
  assert (dw' = dw) as -> by (destruct Hi; congruence). pose proof Ha as (_ & Hcf & _ & Hfa & _).
  destruct (ri_fams _ _ HI d' n f Hfa) as (_ & _ & Hid). pose proof (alive_id _ _ _ _ _ _ Ha) as Hg.
  destruct (rb_add_ok _ _ _ (OAdd (numbered (f_id f) r)) Hb) as (rep & HA & HB').
  { destruct r; cbn in *; unfold fits; split_and!; try lia; apply Hro. }
  { pose proof (rcount_bounds l0). lia. }
  exists rep. split; [exact HB'|]. pose proof (has_rdb_unwrap _ _ _ _ _ Hi) as Hu.
  unfold rbat_call. destruct (c_op c) as [a b|a]; cbn in Hr.
  - destruct (kv_encode (c_key c) a) as [k|] eqn:Hk; [|done]. cbn in Hr. destruct (kv_encode (c_val c) b) as [v|] eqn:Hv; [|done].
    injection Hr as <-. cbn in HA. unfold rocks_db_put. wstep. wstep. wstep. wstep. wstep. wstep. wstep. wstep. wstep. rewrite Hcf.
    wstep; [by eexists|]. intros id s' (-> & g & Hg' & ->). rewrite Hg in Hg'. injection Hg' as <-. wstep. wstep. wstep. wstep. by wstep.
  - destruct (kv_encode (c_key c) a) as [k|] eqn:Hk; [|done]. injection Hr as <-. cbn in HA. unfold rocks_db_del.
    wstep. wstep. wstep. wstep. wstep. wstep. wstep. rewrite Hcf.
    wstep; [by eexists|]. intros id s' (-> & g & Hg' & ->). rewrite Hg in Hg'. injection Hg' as <-. wstep. wstep. wstep. wstep. by wstep.
Qed.

(** Collecting the records leaves the databases as they are. *)
Lemma run_rbat_spec l h s M d j sq l0 rs :
  rocks_holds h s M -> (exists bw, rh_batch h !! j = Some bw /\ rb_is (rb_rep bw) sq l0) -> Forall (rbcall_ok h M d) l ->
  rbat_records M l = Ok rs -> Z.of_nat (length l0 + length l) < 2 ^ 31 ->
  wpm LSM (fun _ => False) (run_rbat j l) h s (fun _ h' s' => s' = s /\ rocks_holds h' s M /\ rh_db h' = rh_db h /\
    exists bw, rh_batch h' !! j = Some bw /\ rb_is (rb_rep bw) sq (l0 ++ (uncurry numbered <$> rs))).
Proof.
  revert h l0 rs. induction l as [|c l IH]; intros h l0 rs HH HB Hl E Hn.
  { injection E as <-. apply wpm_ret. by rewrite app_nil_r. }
  apply Forall_cons in Hl as [Hc Hl]. pose proof Hc as ([f Hf] & _ & r & Hr & _). cbn [rbat_records] in E.
  rewrite Hf in E. cbn [of_option mbind res_bind] in E. rewrite Hr in E. cbn [mbind res_bind] in E.
  destruct (rbat_records M l) as [rs1|] eqn:E1; [|done]. injection E as <-. cbn [length] in Hn. destruct HB as (bw & Hj & Hb).
  destruct (rbat_call_ok c h s M d j sq l0 f r bw HH Hj Hb Hc Hf Hr) as (rep & HB' & HW); [lia|].
  cbn [run_rbat]. apply wpm_bind. eapply wpm_mono; [exact HW|].
  intros _ h' s' (_ & -> & ->). replace (l0 ++ (uncurry numbered <$> (f_id f, r) :: rs1)) with ((l0 ++ [numbered (f_id f) r]) ++ (uncurry numbered <$> rs1)) by (cbn; by rewrite <- app_assoc).
  eapply (IH (rup_batch <[j := RBatch rep]> h)); [by eapply rocks_holds_batch|exists (RBatch rep); split; [apply lookup_insert_eq|done]|exact Hl|done|].
  rewrite length_app. cbn. lia.
Qed.

(** Writing them changes the stores one record after the other. *)
Lemma find_numbered h s dw d hh j f :
  rocks_inv h s -> rdb_alive s dw d hh j f -> find_fam s (Some d) (Numbered (f_id f)) = Some (d, j, f).
Proof.
  intros HI (_ & _ & _ & (x & Hx & Hj) & _). unfold find_fam. cbn. rewrite Hx. cbn.
  assert (list_find (fun g => f_id g = f_id f) (ld_fams x) = Some (j, f)) as ->.
  { apply list_find_Some. split; [done|]. split; [done|]. intros k g Hk Hlt E. pose proof (ri_ids _ _ HI d x Hx) as Hnd.
    assert (k = j); [|lia]. eapply NoDup_lookup; [exact Hnd|by rewrite list_lookup_fmap, Hk|]. rewrite list_lookup_fmap, Hj. cbn. by rewrite E. }
  cbn. by rewrite Hj.
Qed.

Lemma batch_records_numbered l : batch_records (uncurry numbered <$> l) = Some ((fun p => (Numbered (fst p), snd p)) <$> l).
Proof. induction l as [|[id r] l IH]; [done|]. cbn. destruct r; cbn; by rewrite IH. Qed.

Lemma rbat_records_insert M i f f' l :
  M !! i = Some f -> f_id f' = f_id f -> rbat_records (<[i := f']> M) l = rbat_records M l.
Proof.
  intros Hf E. induction l as [|c l IH]; [done|]. cbn [rbat_records]. rewrite IH.
  destruct (decide (c_obj c = i)) as [->|]; [by rewrite lookup_insert_eq, Hf; cbn [of_option mbind res_bind]; rewrite E|].
  by rewrite lookup_insert_ne.
Qed.

Lemma write_rbat l h s M d rs :
  rocks_holds h s M -> Forall (rbcall_ok h M d) l -> rbat_records M l = Ok rs ->
  exists s1 M', do_records (Some d) ((fun p => (Numbered (fst p), snd p)) <$> rs) s = Some s1 /\
    spec_rbat l M = Ok M' /\ rocks_holds h s1 M'.
Proof.
  revert s M rs. induction l as [|c l IH]; intros s M rs HH Hl E; [injection E as <-; by exists s, M|].
  apply Forall_cons in Hl as [([f Hf] & (dw & Hi & Hd) & r & Hr & Hro & Hrt) Hl]. cbn [rbat_records] in E.
  rewrite Hf in E. cbn [of_option mbind res_bind] in E. rewrite Hr in E. cbn [mbind res_bind] in E.
  destruct (rbat_records M l) as [rs1|] eqn:E1; [|done]. injection E as <-.
  pose proof HH as [HI HM]. destruct (HM _ f Hf) as (dw' & d' & hh & n & Hi' & Ha & Ht).
  assert (dw' = dw) as -> by (destruct Hi; congruence). assert (d' = d) as -> by (destruct Ha; congruence).
  assert (Hdom : dom (f_cmp f) (rec_key r) = true).
  { destruct Ha as (_ & _ & _ & _ & ->). destruct Hi as (_ & -> & _). by eapply record_dom. }
  assert (HH' : rocks_holds h (set_fam d n (do_record r f) s) (<[c_obj c := do_record r f]> M)).
  { eapply rocks_holds_set; try done. by destruct Hi as (_ & _ & ->). }
  destruct (IH _ _ rs1 HH') as (s1 & M' & E2 & E3 & HH1).
  { eapply Forall_impl; [exact Hl|]. intros c' (Hs & ?). split; [|done]. apply lookup_insert_is_Some'. by right. }
  { by rewrite (rbat_records_insert _ _ f). }
  exists s1, M'. split; [|split; [|done]].
  - cbn [fmap list_fmap do_records fst snd]. rewrite (find_numbered _ _ _ _ _ _ _ HI Ha). cbn [mbind option_bind]. by rewrite Hdom.
  - cbn [spec_rbat]. rewrite Hf. cbn [of_option mbind res_bind]. by rewrite Hr.
Qed.

(** C11. A batch over several databases of one environment is written as a whole:
    putting records into it changes no database; [write] then leaves either all
    the databases as they were, and throws, or every record done, each in its
    own database and in order - whatever RocksDB fails at. *)
Theorem rocks_batch_atomic l h s M K V i j bw sq dw d :
  rocks_holds h s M -> rh_batch h !! j = Some bw -> rb_is (rb_rep bw) sq [] -> Forall (rbcall_ok h M d) l ->
  Z.of_nat (length l) < 2 ^ 31 -> has_rdb h K V i dw -> rd_db dw = Some d ->
  exists M', spec_rbat l M = Ok M' /\
    wpm LSM (fun _ => False) (run_rbatch_write K V i j l) h s (fun q h' s' =>
      rocks_holds h' s' M' \/ rocks_holds h' s' M /\ exists msg, js q = JsThrow msg).
Proof.
  intros HH Hj Hb Hl Hn Hi Hd. destruct (rbat_total h M d l Hl) as (rs & E & _).
  destruct (write_rbat l h s M d rs HH Hl E) as (s1 & M' & ED & ES & _). exists M'. split; [done|].
  unfold run_rbatch_write. apply wpm_bind. eapply wpm_mono; [apply (run_rbat_spec l h s M d j sq [] rs HH); [by exists bw|done|done|done]|].
  intros _ h1 s' (-> & HH1 & Edb & bw1 & Hj1 & Hb1). cbn [app] in Hb1.
  assert (Hi1 : has_rdb h1 K V i dw) by (unfold has_rdb; by rewrite Edb). pose proof (has_rdb_unwrap _ _ _ _ _ Hi1) as Hu.
  pose proof (batch_records_numbered rs) as HN. unfold rocks_db_write. wstep. wstep. wstep. wstep. wstep. rewrite Hd.
  wstep; [by exists sq, (uncurry numbered <$> rs), ((fun p => (Numbered (fst p), snd p)) <$> rs); rewrite ED|].
  intros r s' (sq' & l' & recs & s2 & Hb' & Hr' & E2 & W & sq2 & Hb2). wstep. wstep. wstep.
  pose proof (rb_is_inj _ _ _ _ _ Hb1 Hb') as <-. rewrite HN in Hr'. injection Hr' as <-. rewrite ED in E2. injection E2 as <-.
  assert (Hl1 : Forall (rbcall_ok h1 M d) l).
  { eapply Forall_impl; [exact Hl|]. intros c (? & (dw' & Hc & ?) & ?). split_and!; try done. exists dw'. split; [|done]. unfold has_rdb. by rewrite Edb. }
  destruct (write_rbat l h1 s M d rs HH1 Hl1 E) as (s1' & M1 & ED' & ES' & HH2).
  rewrite ED in ED'. injection ED' as <-. rewrite ES in ES'. injection ES' as <-.
  destruct r as [st rep]. cbn [fst snd] in *.
  destruct W as [[-> ->]|[[t ->] [->| ->]]]; [left; by eapply rocks_holds_batch| |left; by eapply rocks_holds_batch].
  right. split; [by eapply rocks_holds_batch|]. by eexists.
Qed.

(** ** Where the methods should not be called *)

End Spec.

(** ** An example: one environment with one database *)
Definition demo_desc : list (bytes * comparator) := [(kDefaultColumnFamilyName, lexical); (lit "n", lvl_comparator (Num I32))].
Definition demo_rfam : fam_st := Fam 1 (lvl_comparator (Num I32)) [].
Definition demo_fams : list fam_st := [Fam 0 lexical []; demo_rfam].
Definition demo_rdb : rdb := RDB (Num I32) Str 1 (Some 1%nat) (Some 11%nat).
Definition demo_rheap : rheap :=
  rup_batch <[0%nat := RBatch rb_new]> (rup_db <[0%nat := demo_rdb]> (rup_db <[0%nat := RDB (Num I32) Str 1 None None]>
    (rup_env <[0%nat := REnv (Some 1%nat) demo_desc [10%nat; 11%nat]]> (rup_env <[0%nat := REnv None demo_desc []]> rheap0)))).
Definition demo_rlsm : lsm :=
  up_handles (fun m => list_to_map (imap (fun i h => (h, (1%nat, i))) [10%nat; 11%nat]) ∪ m)
    (up_dbs <[1%nat := LDb demo_fams None]> lsm0).

Lemma demo_alive : rdb_alive demo_rlsm demo_rdb 1 11 1 demo_rfam.
Proof.
  split; [reflexivity|]. split; [reflexivity|]. split; [|split; [|reflexivity]].
  - cbn [demo_rlsm up_handles l_handles]. apply new_handles; [|intros h _; apply lookup_empty|left; exists 1%nat; split; reflexivity].
    apply NoDup_cons. split; [|apply NoDup_singleton]. rewrite list_elem_of_singleton. lia.
  - exists (LDb demo_fams None). split; [apply lookup_insert_eq|reflexivity].
Qed.

Lemma demo_rinv : rocks_inv demo_rheap demo_rlsm.
Proof.
  eapply (inv_rbatch _ _ _ _ 0 []); [|exact rb_is_empty].
  eapply (inv_init _ _ _ _ 1 11 1 demo_rfam); [|cbn; rewrite lookup_insert_eq; by eexists|exact demo_alive| |reflexivity|lia].
  - apply inv_new_rdb; [|apply lookup_empty|reflexivity|reflexivity].
    apply (inv_open _ lsm0 0 (REnv None demo_desc []) 1 [10%nat; 11%nat] demo_fams); try reflexivity.
    + apply inv_env; [exact rocks_inv_0|apply lookup_empty|reflexivity|]. split; [reflexivity|]. split; [|reflexivity].
      constructor; [by exists Str|constructor; [by exists (Num I32)|constructor]].
    + repeat constructor.
    + repeat constructor; cbn; lia.
    + cbn. apply NoDup_cons. split; [|apply NoDup_singleton]. rewrite list_elem_of_singleton. lia.
    + apply NoDup_cons. split; [|apply NoDup_singleton]. rewrite list_elem_of_singleton. lia.
  - cbn. intros i' dw' [[<- <-]|[_ Hi']]%lookup_insert_Some; [done|by rewrite lookup_empty in Hi'].
Qed.

Lemma demo_rholds : @rocks_holds SimpleV8 demo_rheap demo_rlsm {[0%nat := demo_rfam]}.
Proof.
  split; [exact demo_rinv|]. intros i f [<- <-]%lookup_singleton_Some. exists demo_rdb, 1%nat, 11%nat, 1%nat.
  split; [apply lookup_insert_eq|]. split; [exact demo_alive|]. intros k v Hin. by apply elem_of_nil in Hin.
Qed.

Lemma demo_has : has_rdb demo_rheap (Num I32) Str 0 demo_rdb.
Proof. split; [apply lookup_insert_eq|split; reflexivity]. Qed.

Definition demo_stores : gmap nat fam_st := {[0%nat := demo_rfam]}.
Definition demo_rcall {O} (o : O) : rcall O := RCall O 0 (Num I32) Str o.
Definition demo_rcalls : list (rcall (@ldb_op SimpleV8)) :=
  [demo_rcall (@LPut SimpleV8 (SNum 7) (SStr (lit "x"))); demo_rcall (@LGet SimpleV8 (SNum 7)); demo_rcall (@LGet SimpleV8 (SNum 8))].

Lemma demo_key n : n = 7 \/ n = 8 -> @encodes SimpleV8 (Num I32) (SNum n).
Proof. intros [-> | ->]; eexists; vm_compute; reflexivity. Qed.

Lemma demo_val : exists v, @kv_encode SimpleV8 Str (SStr (lit "x")) = Ok v /\ @decodes SimpleV8 Str v.
Proof. exists (lit "x" ++ [NUL]). split; [vm_compute; reflexivity|]. exists (SStr (lit "x")). vm_compute. reflexivity. Qed.


Definition demo_rbat : list (rcall (@lbat_op SimpleV8)) :=
  [demo_rcall (@BPut SimpleV8 (SNum 7) (SStr (lit "x"))); demo_rcall (@BDel SimpleV8 (SNum 8))].

Lemma rocks_batch_atomic_witness : exists M', @spec_rbat SimpleV8 demo_rbat demo_stores = Ok M' /\
  wpm LSM (fun _ => False) (@run_rbatch_write SimpleV8 (Num I32) Str 0 0 demo_rbat) demo_rheap demo_rlsm (fun q h' s' =>
    @rocks_holds SimpleV8 h' s' M' \/ @rocks_holds SimpleV8 h' s' demo_stores /\ exists msg, js q = JsThrow msg).
Proof.
  apply (@rocks_batch_atomic SimpleV8 demo_rbat demo_rheap demo_rlsm demo_stores (Num I32) Str 0 0 (RBatch rb_new) 0 demo_rdb 1);
    [exact demo_rholds|apply lookup_insert_eq|exact rb_is_empty| |cbn; lia|exact demo_has|reflexivity].
  assert (HC : forall o r, @bat_record SimpleV8 (Num I32) Str o = Ok r -> record_ok r -> @record_typed SimpleV8 Str r ->
    @rbcall_ok SimpleV8 demo_rheap demo_stores 1 (demo_rcall o)).
  { intros o r Hr Ho Ht. split; [eexists; apply lookup_insert_eq|]. split; [exists demo_rdb; split; [exact demo_has|reflexivity]|by exists r]. }
  constructor; [|constructor; [|constructor]].
  - apply (HC _ (RPut (le_split 4 7) (lit "x" ++ [NUL]))); [vm_compute; reflexivity|split; vm_compute; reflexivity|].
    intros k v [= <- <-]. exists (SStr (lit "x")). vm_compute. reflexivity.
  - apply (HC _ (RDelete (le_split 4 8))); [vm_compute; reflexivity|vm_compute; reflexivity|]. by intros k v [=].
Defined.

