(* ===== verification/JsMeth.v ===== *)
(** * JavaScript methods

    A function of lib may call native methods, change the objects of lib, and
    throw: a [meth] that ends in a value or an exception.  [call_native] runs a
    native method on the part of the state that belongs to the addon. *)
From S2P Require Import Prelude Nan JsSanitize Prog.

Section Methods.
Context {E : Type -> Type} {S : Type}.

Definition jm (A : Type) : Type := meth E S (jsx A).

Definition jret {A} (a : A) : jm A := mret (Value a).
Definition jthrow {A} (msg : bytes) : jm A := mret (Thrown msg).
Definition jbind {A C} (m : jm A) (f : A -> jm C) : meth E S (jsx C) :=
  x ← (m : meth E S (jsx A)); match x with Value a => f a | Thrown msg => mret (Thrown msg) end.
Definition jx {A} (x : jsx A) : jm A := mret x.
Definition jget {A} (f : S -> option A) : meth E S (jsx A) := a ← unwrap f; mret (Value a).
Definition jset (f : S -> S) : meth E S (jsx unit) := modify f ;; mret (Value tt).

(** [try { m } catch (e) { f(e) }] *)
Definition jcatch {A} (m : jm A) (f : bytes -> jm A) : meth E S (jsx A) :=
  x ← (m : meth E S (jsx A)); match x with Value a => mret (Value a) | Thrown msg => (f msg : meth E S (jsx A)) end.

(** A native method, on the native objects. *)
Definition call_native `{V8} {Hp : Type} (get : S -> Hp) (put : Hp -> S -> S) (m : meth E Hp info) : jm value := fun s =>
  r ← m (get s);
  let s' := put (snd r) s in
  match js (fst r) with JsReturn v => Ret (Value v, s') | JsThrow msg => Ret (Thrown msg, s') end.

(** ** Reasoning about them *)
Context (A : api E) (U : ub -> Prop).
Local Abbreviation wpj := (wpm A U).

Lemma wp_jbind {X C} (m : jm X) (f : X -> jm C) st s Q :
  wpj m st s (fun x st' s' => match x with Value a => wpj (f a) st' s' Q | Thrown msg => Q (Thrown msg) st' s' end) ->
  wpj (jbind m f) st s Q.
Proof.
  intros HQ. unfold jbind. apply wpm_bind. eapply wpm_mono; [exact HQ|]. by intros [msg|a] h' s'; [intros; apply wpm_ret|].
Qed.

Lemma wp_jcatch {X} (m : jm X) f st s Q :
  wpj m st s (fun x st' s' => match x with Value a => Q (Value a) st' s' | Thrown msg => wpj (f msg) st' s' Q end) ->
  wpj (jcatch m f) st s Q.
Proof.
  intros HQ. unfold jcatch. apply wpm_bind. eapply wpm_mono; [exact HQ|]. by intros [msg|a] h' s'; [|intros; apply wpm_ret].
Qed.

Lemma wp_jget {X} (f : S -> option X) a st s Q : f st = Some a -> Q (Value a) st s -> wpj (jget f) st s Q.
Proof. intros Hf HQ. unfold jget. apply wpm_bind. eapply wpm_unwrap; [exact Hf|]. by apply wpm_ret. Qed.

Lemma wp_jset f st s Q : Q (Value tt) (f st) s -> wpj (jset f) st s Q.
Proof. intros HQ. unfold jset. apply wpm_bind, wpm_modify. by apply wpm_ret. Qed.

Lemma wp_call_native `{V8} {Hp} (get : S -> Hp) put m st s Q :
  wpm A U m (get st) s (fun r h' s' =>
    Q (match js r with JsReturn v => Value v | JsThrow msg => Thrown msg end) (put h' st) s') ->
  wpj (call_native get put m) st s Q.
Proof.
  unfold wpm, call_native. intros HQ. apply wpu_bind. eapply wpu_mono; [exact HQ|done|]. cbn.
  intros [r h'] s'. cbn. by destruct (js r).
Qed.

(** The same of a method that is known to be safe. *)
Lemma jbind_inv {X C} (m : jm X) (f : X -> jm C) st s Q : wpj (jbind m f) st s Q ->
  wpj m st s (fun x st' s' => match x with Value a => wpj (f a) st' s' Q | Thrown msg => Q (Thrown msg) st' s' end).
Proof. unfold jbind. intros HW%wpm_bind. eapply wpm_mono; [exact HW|]. by intros [msg|a] h' s'; [intros HQ%wpm_ret|]. Qed.

Lemma jcatch_inv {X} (m : jm X) f st s Q : wpj (jcatch m f) st s Q ->
  wpj m st s (fun x st' s' => match x with Value a => Q (Value a) st' s' | Thrown msg => wpj (f msg) st' s' Q end).
Proof. unfold jcatch. intros HW%wpm_bind. eapply wpm_mono; [exact HW|]. by intros [msg|a] h' s'; [|intros HQ%wpm_ret]. Qed.

Lemma jget_inv {X} (f : S -> option X) a st s Q : f st = Some a -> wpj (jget f) st s Q -> Q (Value a) st s.
Proof. intros Hf. unfold jget, wpm. unfold mbind, meth_bind. intros HW%wpu_bind. unfold unwrap in HW. by rewrite Hf in HW. Qed.

Lemma call_native_inv `{V8} {Hp} (get : S -> Hp) put m st s Q : wpj (call_native get put m) st s Q ->
  wpm A U m (get st) s (fun r h' s' =>
    Q (match js r with JsReturn v => Value v | JsThrow msg => Thrown msg end) (put h' st) s').
Proof.
  unfold wpm, call_native. intros HW%wpu_bind. eapply wpu_mono; [exact HW|done|]. cbn.
  intros [r h'] s'. cbn. by destruct (js r).
Qed.
End Methods.

#[global] Arguments jm : clear implicits.
