(* ===== verification/JsLib.v ===== *)
(** * The JavaScript side of LevelDB and RocksDB

    lib/leveldb and lib/rocksdb: the classes [Env], [Db] and [Batch] around the
    native objects, with the batch every [Db] collects its [batchPut] and
    [batchDel] calls in.  The two directories differ in the addon they load;
    what they share is written once, over the methods an addon has
    ([Backend]).  A method runs to a value or an exception and changes the
    JavaScript objects, the native objects and the engine. *)
From S2P Require Import Prelude Nan KvTypes Exports JsSanitize Prog JsMeth Store LmdbApi LvlFormat LvlBatch LsmApi.

(** ** What is called *)

(** The methods of a cursor without an argument. *)
Inductive cur_fn := CKey | CVal | CNext | CPrev | CFirst | CLast.

(** The methods of the native classes. *)
Class Backend `{V8} := {
  bk_engine : engine;
  bk_heap : Type;
  bk_get : kv_type -> kv_type -> nat -> value -> meth lsm_call bk_heap info;
  bk_put : kv_type -> kv_type -> nat -> value -> value -> option nat -> meth lsm_call bk_heap info;
  bk_del : kv_type -> kv_type -> nat -> value -> option nat -> meth lsm_call bk_heap info;
  bk_write : kv_type -> kv_type -> nat -> nat -> meth lsm_call bk_heap info;
  bk_batch_new : nat -> meth lsm_call bk_heap info;
  bk_batch_clear : nat -> meth lsm_call bk_heap info;
  bk_cursor_new : kv_type -> kv_type -> nat -> nat -> meth lsm_call bk_heap info;
  bk_cursor_call : kv_type -> kv_type -> cur_fn -> nat -> meth lsm_call bk_heap info;
  bk_gte : kv_type -> kv_type -> nat -> value -> meth lsm_call bk_heap info
}.

(** [_.debounce(f, wait)]: calls with their [this], and the moment the wait is
    over, when [f] may be called. *)
Class Debounce := {
  deb : Type;
  deb0 : deb;
  deb_call : nat -> deb -> deb;
  deb_fire : deb -> option nat * deb
}.

(** What lodash documents: [f] is called once after the last call, with the
    [this] of that call, and not again until there is another. *)
Class DebounceLaws (D : Debounce) : Prop := {
  deb_fire_last t d : fst (deb_fire (deb_call t d)) = Some t;
  deb_fire_once d : fst (deb_fire (snd (deb_fire d))) = None;
  deb_fire_new : fst (deb_fire deb0) = None
}.

#[export] Instance LastCall : Debounce := {|
  deb := option nat; deb0 := None; deb_call t _ := Some t; deb_fire d := (d, None) |}.

#[export] Instance LastCall_laws : DebounceLaws LastCall.
Proof. by split. Qed.

Section Lib.
Context `{V : V8} `{B : !Backend} `{D : Debounce}.

(** ** Objects *)

(** The options a [Db] is opened with. *)
Record jopt := JOpt {
  o_name : option bytes; o_keyType : option bytes; o_valueType : option bytes; o_valType : option bytes;
  o_cacheSize : value; o_batchSize : option Z }.

Record jbatch := JBatch { jb_db : nat; jb_batch : nat; jb_cnt : Z }.

(** [_batchSize] is [None] when it is not a number, which no count reaches. *)
Record jdb := JDb { jd_key : kv_type; jd_val : kv_type; jd_db : nat; jd_batch : nat; jd_batchSize : option Z; jd_opt : jopt }.

Record jcursor := JCursor { jc_key : kv_type; jc_val : kv_type; jc_cursor : nat }.

Record jstate := JState {
  j_dbs : gmap nat jdb; j_batches : gmap nat jbatch; j_curs : gmap nat jcursor; j_timer : deb; j_native : bk_heap }.

Definition up_jdb (i : nat) (x : jdb) (s : jstate) : jstate :=
  JState (<[i := x]> (j_dbs s)) (j_batches s) (j_curs s) (j_timer s) (j_native s).
Definition up_jbatch (i : nat) (x : jbatch) (s : jstate) : jstate :=
  JState (j_dbs s) (<[i := x]> (j_batches s)) (j_curs s) (j_timer s) (j_native s).
Definition up_jcur (i : nat) (x : jcursor) (s : jstate) : jstate :=
  JState (j_dbs s) (j_batches s) (<[i := x]> (j_curs s)) (j_timer s) (j_native s).
Definition up_timer (d : deb) (s : jstate) : jstate := JState (j_dbs s) (j_batches s) (j_curs s) d (j_native s).
Definition up_native (h : bk_heap) (s : jstate) : jstate := JState (j_dbs s) (j_batches s) (j_curs s) (j_timer s) h.

(** ** Methods that may throw *)
Definition J (A : Type) : Type := jm lsm_call jstate A.

(** A native method, on the native objects. *)
Definition native_call (m : meth lsm_call bk_heap info) : J value := call_native j_native up_native m.

Notation "'jlet' x ':=' m 'in' k" := (jbind m (fun x => k)) (at level 10, x name, k at level 200).
Notation "m ';>' k" := (jbind m (fun _ => k)) (at level 100, k at level 200, right associativity).

Definition the_db (d : nat) : J jdb := jget (fun s => j_dbs s !! d).
Definition the_batch (b : nat) : J jbatch := jget (fun s => j_batches s !! b).

(** ** Db *)
Definition Db_get (d : nat) (key : value) : J value :=
  jlet x := the_db d in
  jlet k := jx (sanitize (jd_key x) key) in
  native_call (bk_get (jd_key x) (jd_val x) (jd_db x) k).

Definition Db_put (d : nat) (key val : value) (batch : option nat) : J value :=
  jlet x := the_db d in
  jlet k := jx (sanitize (jd_key x) key) in
  jlet v := jx (sanitize (jd_val x) val) in
  native_call (bk_put (jd_key x) (jd_val x) (jd_db x) k v batch).

Definition Db_del (d : nat) (key : value) (batch : option nat) : J value :=
  jlet x := the_db d in
  jlet k := jx (sanitize (jd_key x) key) in
  native_call (bk_del (jd_key x) (jd_val x) (jd_db x) k batch).

Definition Db_setBatchSize (d : nat) (num : option Z) : J unit :=
  jlet x := the_db d in
  jset (up_jdb d (JDb (jd_key x) (jd_val x) (jd_db x) (jd_batch x) num (jd_opt x))).

(** ** Batch *)
Definition Batch_ctor (b j d : nat) : J unit :=
  native_call (bk_batch_new j) ;>
  jset (up_jbatch b (JBatch d j 0)).

Definition Batch_del (b : nat) (key : value) : J unit :=
  jlet x := the_batch b in
  Db_del (jb_db x) key (Some (jb_batch x)) ;>
  jset (up_jbatch b (JBatch (jb_db x) (jb_batch x) (jb_cnt x + 1))).

Definition Batch_put (b : nat) (key val : value) : J unit :=
  jlet x := the_batch b in
  Db_put (jb_db x) key val (Some (jb_batch x)) ;>
  jset (up_jbatch b (JBatch (jb_db x) (jb_batch x) (jb_cnt x + 1))).

Definition Batch_clear (b : nat) : J unit :=
  jlet x := the_batch b in
  native_call (bk_batch_clear (jb_batch x)) ;>
  jset (up_jbatch b (JBatch (jb_db x) (jb_batch x) 0)).

Definition Batch_write (b : nat) : J unit :=
  jlet x := the_batch b in
  if jb_cnt x >? 0 then
    jlet y := the_db (jb_db x) in
    native_call (bk_write (jd_key y) (jd_val y) (jd_db y) (jb_batch x)) ;>
    Batch_clear b
  else jret tt.

(** ** The batch of a Db *)
Definition Db_createBatch (d b j : nat) : J unit := Batch_ctor b j d.

Definition Db_flushBatchOps (d : nat) : J unit :=
  jlet x := the_db d in
  Batch_write (jd_batch x).

(** The debounced function is one for all objects: it is made once, for the
    prototype. *)
Definition Db_autoFlush (d : nat) : J unit :=
  jset (fun s => up_timer (deb_call d (j_timer s)) s).

(** The last line of [batchPut] and [batchDel]. *)
Definition flush_or_wait (d : nat) : J unit :=
  jlet x := the_db d in
  jlet y := the_batch (jd_batch x) in
  if (match jd_batchSize x with Some n => jb_cnt y >=? n | None => false end)
  then Db_flushBatchOps d
  else Db_autoFlush d.

Definition Db_batchPut (d : nat) (key val : value) : J unit :=
  jlet x := the_db d in
  Batch_put (jd_batch x) key val ;>
  flush_or_wait d.

Definition Db_batchDel (d : nat) (key : value) : J unit :=
  jlet x := the_db d in
  Batch_del (jd_batch x) key ;>
  flush_or_wait d.

(** The timer of the debounced function. *)
Definition tick : J unit := fun s =>
  let r := deb_fire (j_timer s) in
  match fst r with
  | Some d => Db_flushBatchOps d (up_timer (snd r) s)
  | None => Ret (Value tt, up_timer (snd r) s)
  end.

(** ** Opening a Db *)

(** [a || b] of strings. *)
Definition or_str (a b : option bytes) : option bytes :=
  match a with Some (_ :: _) => a | _ => b end.

(** [opt.batchSize || 64] *)
Definition batch_size (o : option Z) : option Z :=
  match o with Some n => if n =? 0 then Some 64 else Some n | None => Some 64 end.

(** The name of the class for the types of [opt]; [join] prints [undefined] as
    nothing. *)
Definition types_name (prefix : bytes) (o : jopt) : bytes :=
  join_name prefix (default [] (o_keyType o)) (default [] (or_str (o_valueType o) (o_valType o))).

Definition db_class (o : jopt) : option FunctionTemplate :=
  binding_class bk_engine (types_name (lit "DB") o).

(** The constructor, with the native one as an argument: it is called after the
    class was found and before the batch is made. *)
Definition Db_ctor (d i b j : nat) (o : jopt) (native_ctor : kv_type -> kv_type -> J value) : J unit :=
  match db_class o with
  | None => jthrow (lit "Unsupported db key/value types.")
  | Some t =>
      match n_class (tpl_ctor t) with
      | CDb K V =>
          native_ctor K V ;>
          jset (up_jdb d (JDb K V i b None o)) ;>
          Db_createBatch d b j ;>
          jset (up_jdb d (JDb K V i b (batch_size (o_batchSize o)) o))
      | _ => jthrow (lit "Unsupported db key/value types.")
      end
  end.

(** ** Cursor *)
Definition the_cursor (c : nat) : J jcursor := jget (fun s => j_curs s !! c).

Definition Cursor_ctor (c cn d : nat) : J unit :=
  jlet x := the_db d in
  match binding_class bk_engine (types_name (lit "Cursor") (jd_opt x)) with
  | Some t =>
      match n_class (tpl_ctor t) with
      | CCursor K V =>
          native_call (bk_cursor_new K V cn (jd_db x)) ;>
          jset (up_jcur c (JCursor K V cn))
      | _ => jthrow (lit "Unsupported cursor key/value types, this should not happen.")
      end
  | None => jthrow (lit "Unsupported cursor key/value types, this should not happen.")
  end.

Definition Db_cursor (d c cn : nat) : J unit := Cursor_ctor c cn d.

(** The methods [delegate] makes. *)
Definition Cursor_call (fn : cur_fn) (c : nat) : J value :=
  jlet x := the_cursor c in
  native_call (bk_cursor_call (jc_key x) (jc_val x) fn (jc_cursor x)).

Definition Cursor_gte (c : nat) (key : value) : J value :=
  jlet x := the_cursor c in
  jlet k := jx (sanitize (jc_key x) key) in
  native_call (bk_gte (jc_key x) (jc_val x) (jc_cursor x) k).

(** ** Environments *)

(** The object [dbs] of an [Env] with its [dir] and [cacheSize]; the values of
    [dbs] are [Db] objects, which are never falsy. *)
Record jenv := JEnv { je_dir : bytes; je_cacheSize : value; je_dbs : object nat }.

(** What every object inherits from [Object.prototype]. *)
Definition proto_names : list bytes :=
  [lit "constructor"; lit "toString"; lit "toLocaleString"; lit "valueOf"; lit "hasOwnProperty"; lit "isPrototypeOf";
   lit "propertyIsEnumerable"; lit "__proto__"; lit "__defineGetter__"; lit "__defineSetter__"; lit "__lookupGetter__";
   lit "__lookupSetter__"].

Definition has_db (name : bytes) (e : jenv) : bool :=
  match obj_get name (je_dbs e) with Some _ => true | None => bool_decide (name ∈ proto_names) end.

(** [openDb] and [registerDb], which differ in a word of a message: [mk] makes
    the [Db] object [d] for the name. *)
Definition Env_add (taken : bytes) (d : nat) (e : jenv) (o : jopt) (mk : bytes -> J unit) : J jenv :=
  match o_name o with
  | Some (b :: s) =>
      let name := b :: s in
      if has_db name e then jthrow (lit "LMDB env: db[" ++ name ++ lit "] is already " ++ taken ++ lit ".")
      else
        mk name ;>
        jret (JEnv (je_dir e) (je_cacheSize e) (obj_set name d (je_dbs e)))
  | _ => jthrow (lit "LMDB env: openDb requires db name.")
  end.

(** [a || b] *)
Definition or_value (a b : value) : value := if BooleanValue a then a else b.
End Lib.
