(* ===== verification/JsLibSpec.v ===== *)
(** * What the JavaScript side promises

    The methods of [JsLib] against a specification: every [Db] is an ordered
    store and a list of records that wait, and one timer flushes the [Db] that
    batched last.  The proofs use of the native side only what [BackendLaws]
    states; [JsLevel] and [JsRocks] prove that of the two bindings. *)
From S2P Require Import Prelude Nan KvTypes Exports JsSanitize Prog JsMeth Store LmdbApi LmdbObjects.
From S2P Require Import LvlFormat LvlBatch LsmApi LsmEngine LvlBind LvlBindSafe LvlBindSpec JsLib.

(** ** The interface of a binding *)

(** A native database and the batch that is used with it. *)
Record bstate := BSt { bs_key : kv_type; bs_val : kv_type; bs_batch : nat; bs_fam : fam_st; bs_pend : list record }.

Definition apply_all (l : list record) (f : fam_st) : fam_st := foldl (flip do_record) f l.

Definition with_pend (l : list record) (x : bstate) : bstate := BSt (bs_key x) (bs_val x) (bs_batch x) (bs_fam x) l.
Definition with_fam (f : fam_st) (x : bstate) : bstate := BSt (bs_key x) (bs_val x) (bs_batch x) f (bs_pend x).

Class BackendLaws `{V8} (B : Backend) := {
  bk_holds : bk_heap -> lsm -> gmap nat bstate -> Prop;
  bk_get_ok h s M i x a k : bk_holds h s M -> M !! i = Some x -> kv_encode (bs_key x) a = Ok k ->
    wpm LSM_sure (fun _ => False) (bk_get (bs_key x) (bs_val x) i a) h s (fun r h' s' => bk_holds h' s' M /\
      match s_get (f_cmp (bs_fam x)) k (f_data (bs_fam x)) with
      | Some v => exists y, kv_decode (bs_val x) v (length v) = Ok y /\ js r = JsReturn y
      | None => js r = JsThrow (lit "NotFound: ")
      end);
  bk_put_ok h s M i x a b k v bat : bk_holds h s M -> M !! i = Some x ->
    kv_encode (bs_key x) a = Ok k -> kv_encode (bs_val x) b = Ok v -> decodes (bs_val x) v ->
    (bat = true -> record_ok (RPut k v) /\ Z.of_nat (length (bs_pend x)) + 1 < 2 ^ 31) ->
    wpm LSM_sure (fun _ => False) (bk_put (bs_key x) (bs_val x) i a b (if bat then Some (bs_batch x) else None)) h s
      (fun r h' s' => js r = JsReturn v_undefined /\ bk_holds h' s' (<[i :=
        if bat : bool then with_pend (bs_pend x ++ [RPut k v]) x else with_fam (do_record (RPut k v) (bs_fam x)) x]> M));
  bk_del_ok h s M i x a k bat : bk_holds h s M -> M !! i = Some x -> kv_encode (bs_key x) a = Ok k ->
    (bat = true -> record_ok (RDelete k) /\ Z.of_nat (length (bs_pend x)) + 1 < 2 ^ 31) ->
    wpm LSM_sure (fun _ => False) (bk_del (bs_key x) (bs_val x) i a (if bat then Some (bs_batch x) else None)) h s
      (fun r h' s' => js r = JsReturn v_undefined /\ bk_holds h' s' (<[i :=
        if bat : bool then with_pend (bs_pend x ++ [RDelete k]) x else with_fam (do_record (RDelete k) (bs_fam x)) x]> M));
  bk_write_ok h s M i x : bk_holds h s M -> M !! i = Some x ->
    wpm LSM_sure (fun _ => False) (bk_write (bs_key x) (bs_val x) i (bs_batch x)) h s
      (fun r h' s' => js r = JsReturn v_undefined /\ bk_holds h' s' (<[i := with_fam (apply_all (bs_pend x) (bs_fam x)) x]> M));
  bk_clear_ok h s M i x : bk_holds h s M -> M !! i = Some x ->
    wpm LSM_sure (fun _ => False) (bk_batch_clear (bs_batch x)) h s
      (fun r h' s' => js r = JsReturn v_undefined /\ bk_holds h' s' (<[i := with_pend [] x]> M))
}.

Section Spec.
Context `{V : V8} `{B : !Backend} `{BL : !BackendLaws B} `{D : Debounce} `{DL : !DebounceLaws D}.

(** ** The specification *)
Record sdb := SDb { sd_key : kv_type; sd_val : kv_type; sd_size : option Z; sd_fam : fam_st; sd_pend : list record }.
Record jspec := JSpec { sp_dbs : gmap nat sdb; sp_timer : option nat }.

Inductive jop :=
| JBatchPut (d : nat) (key val : value) | JBatchDel (d : nat) (key : value) | JFlush (d : nat)
| JGet (d : nat) (key : value) | JPut (d : nat) (key val : value) | JDel (d : nat) (key : value)
| JSetBatchSize (d : nat) (n : option Z) | JTick.

Definition sp_upd (d : nat) (x : sdb) (S : jspec) : jspec := JSpec (<[d := x]> (sp_dbs S)) (sp_timer S).
Definition sd_flush (x : sdb) : sdb := SDb (sd_key x) (sd_val x) (sd_size x) (apply_all (sd_pend x) (sd_fam x)) [].
Definition sd_add (r : record) (x : sdb) : sdb := SDb (sd_key x) (sd_val x) (sd_size x) (sd_fam x) (sd_pend x ++ [r]).
Definition sd_do (r : record) (x : sdb) : sdb := SDb (sd_key x) (sd_val x) (sd_size x) (do_record r (sd_fam x)) (sd_pend x).

(** The batch is full. *)
Definition full (x : sdb) : bool := match sd_size x with Some n => Z.of_nat (length (sd_pend x)) >=? n | None => false end.

Definition spec_batch (d : nat) (r : record) (x : sdb) (S : jspec) : jspec :=
  let x' := sd_add r x in
  if full x' then sp_upd d (sd_flush x') S else JSpec (<[d := x']> (sp_dbs S)) (Some d).

(** The record of a call, or the exception its arguments raise. *)
Definition put_record (x : sdb) (key val : value) : res (jsx record) :=
  match sanitize (sd_key x) key with
  | Thrown m => Ok (Thrown m)
  | Value k =>
      match sanitize (sd_val x) val with
      | Thrown m => Ok (Thrown m)
      | Value v => k' ← kv_encode (sd_key x) k; v' ← kv_encode (sd_val x) v; Ok (Value (RPut k' v'))
      end
  end.
Definition del_record (x : sdb) (key : value) : res (jsx record) :=
  match sanitize (sd_key x) key with
  | Thrown m => Ok (Thrown m)
  | Value k => k' ← kv_encode (sd_key x) k; Ok (Value (RDelete k'))
  end.

Definition with_record (S : jspec) (r : res (jsx record)) (f : record -> jspec) : res (js_result * jspec) :=
  x ← r; Ok (match x with Thrown m => (JsThrow m, S) | Value r => (JsReturn v_undefined, f r) end).

Definition spec_jop (o : jop) (S : jspec) : res (js_result * jspec) :=
  match o with
  | JTick =>
      Ok (JsReturn v_undefined,
          match sp_timer S with
          | Some d => JSpec (match sp_dbs S !! d with Some x => <[d := sd_flush x]> (sp_dbs S) | None => sp_dbs S end) None
          | None => JSpec (sp_dbs S) None
          end)
  | JBatchPut d key val => x ← of_option BadUnwrap (sp_dbs S !! d); with_record S (put_record x key val) (fun r => spec_batch d r x S)
  | JBatchDel d key => x ← of_option BadUnwrap (sp_dbs S !! d); with_record S (del_record x key) (fun r => spec_batch d r x S)
  | JFlush d => x ← of_option BadUnwrap (sp_dbs S !! d); Ok (JsReturn v_undefined, sp_upd d (sd_flush x) S)
  | JPut d key val => x ← of_option BadUnwrap (sp_dbs S !! d); with_record S (put_record x key val) (fun r => sp_upd d (sd_do r x) S)
  | JDel d key => x ← of_option BadUnwrap (sp_dbs S !! d); with_record S (del_record x key) (fun r => sp_upd d (sd_do r x) S)
  | JSetBatchSize d n =>
      x ← of_option BadUnwrap (sp_dbs S !! d);
      Ok (JsReturn v_undefined, sp_upd d (SDb (sd_key x) (sd_val x) n (sd_fam x) (sd_pend x)) S)
  | JGet d key =>
      x ← of_option BadUnwrap (sp_dbs S !! d);
      match sanitize (sd_key x) key with
      | Thrown m => Ok (JsThrow m, S)
      | Value a =>
          k ← kv_encode (sd_key x) a;
          match s_get (f_cmp (sd_fam x)) k (f_data (sd_fam x)) with
          | Some v => y ← kv_decode (sd_val x) v (length v); Ok (JsReturn y, S)
          | None => Ok (JsThrow (lit "NotFound: "), S)
          end
      end
  end.

Fixpoint spec_jops (l : list jop) (S : jspec) : res (list js_result * jspec) :=
  match l with
  | [] => Ok ([], S)
  | o :: l' => r ← spec_jop o S; rs ← spec_jops l' (snd r); Ok (fst r :: fst rs, snd rs)
  end.

(** ** The library *)
Definition void (m : J unit) : J value := jbind m (fun _ => jret v_undefined).

Definition exec_jop (o : jop) : J value :=
  match o with
  | JBatchPut d key val => void (Db_batchPut d key val)
  | JBatchDel d key => void (Db_batchDel d key)
  | JFlush d => void (Db_flushBatchOps d)
  | JGet d key => Db_get d key
  | JPut d key val => Db_put d key val None
  | JDel d key => Db_del d key None
  | JSetBatchSize d n => void (Db_setBatchSize d n)
  | JTick => void tick
  end.

Definition to_js (x : jsx value) : js_result := match x with Thrown m => JsThrow m | Value v => JsReturn v end.

Fixpoint exec_jops (l : list jop) : meth lsm_call jstate (list js_result) :=
  match l with
  | [] => mret []
  | o :: l' => x ← (exec_jop o : meth lsm_call jstate (jsx value)); rs ← exec_jops l'; mret (to_js x :: rs)
  end.

(** ** How the two belong together *)
Definition db_rel (st : jstate) (M : gmap nat bstate) (d : nat) (z : sdb) : Prop :=
  exists x y, j_dbs st !! d = Some x /\ j_batches st !! jd_batch x = Some y /\
    jd_key x = sd_key z /\ jd_val x = sd_val z /\ jd_batchSize x = sd_size z /\ jb_db y = d /\
    jb_cnt y = Z.of_nat (length (sd_pend z)) /\
    M !! jd_db x = Some (BSt (sd_key z) (sd_val z) (jb_batch y) (sd_fam z) (sd_pend z)).

Definition apart (st : jstate) (S : jspec) : Prop :=
  forall d d' x x', d <> d' -> is_Some (sp_dbs S !! d) -> is_Some (sp_dbs S !! d') ->
    j_dbs st !! d = Some x -> j_dbs st !! d' = Some x' -> jd_db x <> jd_db x' /\ jd_batch x <> jd_batch x'.

(** The JavaScript objects fit the specification and the native objects [M]. *)
Definition core (st : jstate) (M : gmap nat bstate) (S : jspec) : Prop :=
  apart st S /\ forall d z, sp_dbs S !! d = Some z -> db_rel st M d z.

Definition js_rel (st : jstate) (s : lsm) (S : jspec) : Prop :=
  fst (deb_fire (j_timer st)) = sp_timer S /\
  (forall d, sp_timer S = Some d -> is_Some (sp_dbs S !! d)) /\
  exists M, bk_holds (j_native st) s M /\ core st M S.

(** What a call asks for: arguments that have bytes, values that can be read
    back, and for a batch records of the size its format has room for. *)
Definition rec_ok (x : sdb) (batched : bool) (r : res (jsx record)) : Prop :=
  match r with
  | Ok (Thrown _) => True
  | Ok (Value r) =>
      match r with RPut _ v => decodes (sd_val x) v | RDelete _ => True end /\
      (batched = true -> record_ok r /\ Z.of_nat (length (sd_pend x)) + 1 < 2 ^ 31)
  | Ub _ => False
  end.

Definition jop_ok (o : jop) (S : jspec) : Prop :=
  match o with
  | JTick => True
  | JBatchPut d key val => exists x, sp_dbs S !! d = Some x /\ rec_ok x true (put_record x key val)
  | JBatchDel d key => exists x, sp_dbs S !! d = Some x /\ rec_ok x true (del_record x key)
  | JPut d key val => exists x, sp_dbs S !! d = Some x /\ rec_ok x false (put_record x key val)
  | JDel d key => exists x, sp_dbs S !! d = Some x /\ rec_ok x false (del_record x key)
  | JFlush d | JSetBatchSize d _ => is_Some (sp_dbs S !! d)
  | JGet d key => exists x, sp_dbs S !! d = Some x /\ rec_ok x false (del_record x key)
  end.

Fixpoint jops_ok (l : list jop) (S : jspec) : Prop :=
  match l with
  | [] => True
  | o :: l' => jop_ok o S /\ forall r S', spec_jop o S = Ok (r, S') -> jops_ok l' S'
  end.

(** ** Reasoning about methods that may throw *)
Local Abbreviation wpj := (wpm LSM_sure (fun _ => False)).

Lemma wp_native m st s Q :
  wpj m (j_native st) s (fun r h' s' =>
    Q (match js r with JsReturn v => Value v | JsThrow msg => Thrown msg end) (up_native h' st) s') ->
  wpj (native_call m) st s Q.
Proof. apply wp_call_native. Qed.

(** ** The methods *)
Section Methods.
Context {st : jstate} {s : lsm} {M : gmap nat bstate} {d : nat} {x : jdb} {y : jbatch} {z : sdb}.
Hypothesis (HB : bk_holds (j_native st) s M) (Hx : j_dbs st !! d = Some x) (Hy : j_batches st !! jd_batch x = Some y).
Hypothesis (HK : jd_key x = sd_key z) (HV : jd_val x = sd_val z) (Hd : jb_db y = d).
Hypothesis (Hc : jb_cnt y = Z.of_nat (length (sd_pend z))).
Hypothesis (HM : M !! jd_db x = Some (BSt (sd_key z) (sd_val z) (jb_batch y) (sd_fam z) (sd_pend z))).

Lemma Batch_write_ok :
  wpj (Batch_write (jd_batch x)) st s (fun r st' s' => r = Value tt /\ exists h',
    st' = up_jbatch (jd_batch x) (JBatch d (jb_batch y) 0) (up_native h' st) /\
    bk_holds h' s' (<[jd_db x := BSt (sd_key z) (sd_val z) (jb_batch y) (apply_all (sd_pend z) (sd_fam z)) []]> M)).
Proof.
  unfold Batch_write, the_batch, the_db. apply wp_jbind. eapply wp_jget; [exact Hy|].
  destruct (jb_cnt y >? 0) eqn:E.
  - apply wp_jbind. rewrite Hd. eapply wp_jget; [exact Hx|]. apply wp_jbind, wp_native. rewrite HK, HV.
    eapply wpm_mono; [exact (bk_write_ok _ _ _ _ _ HB HM)|]. intros r1 h1 s1 [-> HB1]. cbn.
    unfold Batch_clear, the_batch. apply wp_jbind. eapply wp_jget; [exact Hy|]. apply wp_jbind, wp_native. cbn.
    eapply wpm_mono; [exact (bk_clear_ok _ _ _ (jd_db x) _ HB1 (lookup_insert_eq _ _ _))|].
    intros r2 h2 s2 [-> HB2]. apply wp_jset. split; [done|]. exists h2. rewrite Hd. split; [done|].
    by rewrite insert_insert_eq in HB2.
  - assert (HP : sd_pend z = []) by (apply nil_length_inv; lia). rewrite HP in HM.
    apply wpm_ret. split; [done|]. exists (j_native st). split.
    + destruct st as [a b g c h], y as [bd bb bc]. unfold up_jbatch, up_native. cbn in *. f_equal.
      rewrite insert_id; [done|]. rewrite Hy, Hd. do 2 f_equal. rewrite Hc, HP. done.
    + by rewrite HP; cbn; rewrite insert_id.
Qed.

Lemma Db_put_ok bat key val : rec_ok z bat (put_record z key val) ->
  wpj (Db_put d key val (if bat then Some (jb_batch y) else None)) st s (fun r st' s' =>
    match put_record z key val with
    | Ok (Thrown m) => r = Thrown m /\ st' = st /\ s' = s
    | Ok (Value rec) => r = Value v_undefined /\ exists h', st' = up_native h' st /\ bk_holds h' s' (<[jd_db x :=
        if bat then BSt (sd_key z) (sd_val z) (jb_batch y) (sd_fam z) (sd_pend z ++ [rec])
        else BSt (sd_key z) (sd_val z) (jb_batch y) (do_record rec (sd_fam z)) (sd_pend z)]> M)
    | Ub _ => False
    end).
Proof.
  intros Hok. unfold Db_put, the_db, jx. apply wp_jbind. eapply wp_jget; [exact Hx|]. cbn beta iota. rewrite HK, HV.
  unfold put_record in *. apply wp_jbind, wpm_ret. destruct (sanitize (sd_key z) key) as [m|k]; [done|].
  apply wp_jbind, wpm_ret. destruct (sanitize (sd_val z) val) as [m|v]; [done|].
  destruct (kv_encode (sd_key z) k) as [k'|] eqn:Ek; [|done]. destruct (kv_encode (sd_val z) v) as [v'|] eqn:Ev; [|done].
  cbn in Hok |- *. destruct Hok as [H1 H2]. apply wp_native.
  eapply wpm_mono; [exact (bk_put_ok _ _ _ _ _ k v k' v' bat HB HM Ek Ev H1 H2)|].
  intros r h' s' [-> HB']. split; [done|]. exists h'. split; [done|]. by destruct bat.
Qed.

Lemma Db_del_ok bat key : rec_ok z bat (del_record z key) ->
  wpj (Db_del d key (if bat then Some (jb_batch y) else None)) st s (fun r st' s' =>
    match del_record z key with
    | Ok (Thrown m) => r = Thrown m /\ st' = st /\ s' = s
    | Ok (Value rec) => r = Value v_undefined /\ exists h', st' = up_native h' st /\ bk_holds h' s' (<[jd_db x :=
        if bat then BSt (sd_key z) (sd_val z) (jb_batch y) (sd_fam z) (sd_pend z ++ [rec])
        else BSt (sd_key z) (sd_val z) (jb_batch y) (do_record rec (sd_fam z)) (sd_pend z)]> M)
    | Ub _ => False
    end).
Proof.
  intros Hok. unfold Db_del, the_db, jx. apply wp_jbind. eapply wp_jget; [exact Hx|]. cbn beta iota. rewrite HK, HV.
  unfold del_record in *. apply wp_jbind, wpm_ret. destruct (sanitize (sd_key z) key) as [m|k]; [done|].
  destruct (kv_encode (sd_key z) k) as [k'|] eqn:Ek; [|done]. cbn in Hok |- *. destruct Hok as [H1 H2]. apply wp_native.
  eapply wpm_mono; [exact (bk_del_ok _ _ _ _ _ k k' bat HB HM Ek H2)|].
  intros r h' s' [-> HB']. split; [done|]. exists h'. split; [done|]. by destruct bat.
Qed.
End Methods.

(** ** One call *)

(** A state in which only the objects of [d] have changed. *)
Lemma core_upd {st M S d z x y} st' M' z' x' y' t : core st M S -> sp_dbs S !! d = Some z ->
  j_dbs st !! d = Some x -> j_batches st !! jd_batch x = Some y ->
  j_dbs st' !! d = Some x' -> jd_db x' = jd_db x -> jd_batch x' = jd_batch x ->
  jd_key x' = sd_key z' -> jd_val x' = sd_val z' -> jd_batchSize x' = sd_size z' ->
  (forall d', d' <> d -> j_dbs st' !! d' = j_dbs st !! d') ->
  j_batches st' !! jd_batch x = Some y' -> jb_db y' = d -> jb_cnt y' = Z.of_nat (length (sd_pend z')) ->
  (forall b, b <> jd_batch x -> j_batches st' !! b = j_batches st !! b) ->
  M' !! jd_db x = Some (BSt (sd_key z') (sd_val z') (jb_batch y') (sd_fam z') (sd_pend z')) ->
  (forall i, i <> jd_db x -> M' !! i = M !! i) ->
  core st' M' (JSpec (<[d := z']> (sp_dbs S)) t).
Proof.
  intros [HA HC] Hz Hx Hy Hx' Ei Eb Hk Hv Hs HD Hy' Hd Hc HBs HM HMs. split.
  - intros d1 d2 x1 x2 Hne H1 H2 E1 E2. cbn in H1, H2.
    assert (Hold : forall d3 x3, is_Some (<[d := z']> (sp_dbs S) !! d3) -> j_dbs st' !! d3 = Some x3 ->
      is_Some (sp_dbs S !! d3) /\ exists x4, j_dbs st !! d3 = Some x4 /\ jd_db x4 = jd_db x3 /\ jd_batch x4 = jd_batch x3).
    { intros d3 x3 Hi E3. destruct (decide (d3 = d)) as [->|Hn].
      - split; [by eexists|]. exists x. by simplify_eq.
      - rewrite lookup_insert_ne in Hi by done. split; [done|]. exists x3. by rewrite <- HD. }
    destruct (Hold _ _ H1 E1) as (I1 & x3 & E3 & <- & <-). destruct (Hold _ _ H2 E2) as (I2 & x4 & E4 & <- & <-).
    exact (HA d1 d2 x3 x4 Hne I1 I2 E3 E4).
  - cbn. intros d1 z1. destruct (decide (d1 = d)) as [->|Hn].
    + rewrite lookup_insert_eq. intros [= <-]. exists x', y'. rewrite Eb, Ei. auto 10.
    + rewrite lookup_insert_ne by done. intros E1. destruct (HC _ _ E1) as (x1 & y1 & F1 & F2 & F).
      destruct (HA d1 d x1 x Hn ltac:(by eexists) ltac:(by eexists) F1 Hx) as [N1 N2].
      exists x1, y1. rewrite HD, HBs, HMs by done. auto.
Qed.

Lemma flush_ok st s S d z : js_rel st s S -> sp_dbs S !! d = Some z ->
  wpj (Db_flushBatchOps d) st s (fun r st' s' => r = Value tt /\ js_rel st' s' (sp_upd d (sd_flush z) S)).
Proof.
  intros (HT & HTd & M & HB & HC) Hz. destruct (proj2 HC _ _ Hz) as (x & y & Hx & Hy & HK & HV & Hs & Hd & Hc & HM).
  unfold Db_flushBatchOps, the_db. apply wp_jbind. eapply wp_jget; [exact Hx|].
  eapply wpm_mono; [exact (Batch_write_ok HB Hx Hy HK HV Hd Hc HM)|]. intros r st' s' (-> & h' & -> & HB').
  split; [done|]. split; [done|]. split; [intros d'; cbn; intros Ht; rewrite lookup_insert_is_Some'; auto|].
  eexists. split; [exact HB'|].
  eapply (core_upd _ _ (sd_flush z) x (JBatch d (jb_batch y) 0)); eauto; cbn.
  - by rewrite lookup_insert_eq.
  - intros b Hb. by rewrite lookup_insert_ne.
  - by rewrite lookup_insert_eq.
  - intros i Hi. by rewrite lookup_insert_ne.
Qed.

(** The end of [batchPut] and [batchDel]. *)
Lemma flush_or_wait_ok st s S d z r : js_rel st s (sp_upd d (sd_add r z) S) ->
  wpj (flush_or_wait d) st s (fun x st' s' => x = Value tt /\ js_rel st' s' (spec_batch d r z S)).
Proof.
  intros HR. pose proof HR as (HT & HTd & M & HB & HC).
  assert (Hz : sp_dbs (sp_upd d (sd_add r z) S) !! d = Some (sd_add r z)) by apply lookup_insert_eq.
  destruct (proj2 HC _ _ Hz) as (x & y & Hx & Hy & HK & HV & Hs & Hd & Hc & HM).
  unfold flush_or_wait, the_db, the_batch. apply wp_jbind. eapply wp_jget; [exact Hx|].
  apply wp_jbind. eapply wp_jget; [exact Hy|]. unfold spec_batch, full. rewrite Hs, Hc.
  destruct (match sd_size (sd_add r z) with Some n => _ | None => _ end).
  - eapply wpm_mono; [exact (flush_ok _ _ _ _ _ HR Hz)|]. intros x' st' s' [-> HR']. split; [done|].
    unfold sp_upd in *. cbn in HR'. by rewrite insert_insert_eq in HR'.
  - unfold Db_autoFlush. apply wp_jset. split; [done|]. split; [apply deb_fire_last|].
    split; [intros d' [= <-]; cbn; rewrite lookup_insert_eq; by eexists|]. exists M. split; [exact HB|]. exact HC.
Qed.

(** A record was added to the batch, or done at once. *)
Lemma js_rel_native st s S d z h' s' rec : js_rel st s S -> sp_dbs S !! d = Some z -> forall M x y,
  core st M S -> j_dbs st !! d = Some x -> j_batches st !! jd_batch x = Some y -> db_rel st M d z ->
  bk_holds h' s' (<[jd_db x := BSt (sd_key z) (sd_val z) (jb_batch y) (do_record rec (sd_fam z)) (sd_pend z)]> M) ->
  js_rel (up_native h' st) s' (sp_upd d (sd_do rec z) S).
Proof.
  intros (HT & HTd & _) Hz M x y HC Hx Hy (x1 & y1 & Hx1 & Hy1 & HK & HV & Hs & Hd & Hc & HM) HB'.
  assert (x1 = x) as -> by congruence. assert (y1 = y) as -> by congruence. subst d.
  split; [done|]. split; [intros d' Ht; cbn; rewrite lookup_insert_is_Some'; auto|].
  eexists. split; [exact HB'|]. eapply (core_upd _ _ (sd_do rec z) x y); eauto; cbn.
  - by rewrite lookup_insert_eq.
  - intros i Hi. by rewrite lookup_insert_ne.
Qed.

Lemma js_rel_batch st s S d z h' s' rec : js_rel st s S -> sp_dbs S !! d = Some z -> forall M x y,
  core st M S -> j_dbs st !! d = Some x -> j_batches st !! jd_batch x = Some y -> db_rel st M d z ->
  bk_holds h' s' (<[jd_db x := BSt (sd_key z) (sd_val z) (jb_batch y) (sd_fam z) (sd_pend z ++ [rec])]> M) ->
  js_rel (up_jbatch (jd_batch x) (JBatch d (jb_batch y) (jb_cnt y + 1)) (up_native h' st)) s' (sp_upd d (sd_add rec z) S).
Proof.
  intros (HT & HTd & _) Hz M x y HC Hx Hy (x1 & y1 & Hx1 & Hy1 & HK & HV & Hs & Hd & Hc & HM) HB'.
  assert (x1 = x) as -> by congruence. assert (y1 = y) as -> by congruence. subst d.
  split; [done|]. split; [intros d' Ht; cbn; rewrite lookup_insert_is_Some'; auto|].
  eexists. split; [exact HB'|].
  eapply (core_upd _ _ (sd_add rec z) x (JBatch (jb_db y) (jb_batch y) (jb_cnt y + 1))); eauto; cbn.
  - by rewrite lookup_insert_eq.
  - rewrite length_app. cbn. lia.
  - intros b Hb. by rewrite lookup_insert_ne.
  - by rewrite lookup_insert_eq.
  - intros i Hi. by rewrite lookup_insert_ne.
Qed.

Lemma wp_void (m : J unit) st s (Q : jsx value -> jstate -> lsm -> Prop) :
  wpj m st s (fun r st' s' => match r with Value _ => Q (Value v_undefined) st' s' | Thrown msg => Q (Thrown msg) st' s' end) ->
  wpj (void m) st s Q.
Proof. intros HQ. apply wp_jbind. eapply wpm_mono; [exact HQ|]. intros [msg|u] st' s' H'; [exact H'|by apply wpm_ret]. Qed.

Lemma batch_op_ok st s S d z x y (m : jbatch -> J value) (r : res (jsx record)) M : js_rel st s S -> sp_dbs S !! d = Some z ->
  core st M S -> j_dbs st !! d = Some x -> j_batches st !! jd_batch x = Some y -> db_rel st M d z -> jb_db y = d ->
  wpj (m y) st s (fun v st' s' =>
    match r with
    | Ok (Thrown msg) => v = Thrown msg /\ st' = st /\ s' = s
    | Ok (Value rec) => v = Value v_undefined /\ exists h', st' = up_native h' st /\ bk_holds h' s' (<[jd_db x :=
        BSt (sd_key z) (sd_val z) (jb_batch y) (sd_fam z) (sd_pend z ++ [rec])]> M)
    | Ub _ => False
    end) ->
  wpj (void (jbind (the_db d) (fun x => jbind (jbind (the_batch (jd_batch x)) (fun y =>
      jbind (m y) (fun _ => jset (up_jbatch (jd_batch x) (JBatch (jb_db y) (jb_batch y) (jb_cnt y + 1))))))
    (fun _ => flush_or_wait d)))) st s
    (fun v st' s' => exists S', with_record S r (fun rec => spec_batch d rec z S) = Ok (to_js v, S') /\ js_rel st' s' S').
Proof.
  intros HR Hz HC Hx Hy Hrel Hd Hm. apply wp_void. unfold the_db, the_batch. apply wp_jbind.
  eapply wp_jget; [exact Hx|]. do 2 apply wp_jbind. eapply wp_jget; [exact Hy|]. apply wp_jbind.
  eapply wpm_mono; [exact Hm|]. intros v st' s' Hv. destruct r as [[msg|rec]|u]; [| |done].
  - destruct Hv as (-> & -> & ->). cbn. eauto.
  - destruct Hv as (-> & h' & -> & HB'). apply wp_jset. rewrite Hd.
    eapply wpm_mono; [exact (flush_or_wait_ok _ _ _ _ _ _ (js_rel_batch _ _ _ _ _ _ _ _ HR Hz _ _ _ HC Hx Hy Hrel HB'))|].
    intros v st2 s2 [-> HR2]. cbn. eauto.
Qed.

Lemma direct_op_ok st s S d z x y (m : J value) (r : res (jsx record)) M : js_rel st s S -> sp_dbs S !! d = Some z ->
  core st M S -> j_dbs st !! d = Some x -> j_batches st !! jd_batch x = Some y -> db_rel st M d z ->
  wpj m st s (fun v st' s' =>
    match r with
    | Ok (Thrown msg) => v = Thrown msg /\ st' = st /\ s' = s
    | Ok (Value rec) => v = Value v_undefined /\ exists h', st' = up_native h' st /\ bk_holds h' s' (<[jd_db x :=
        BSt (sd_key z) (sd_val z) (jb_batch y) (do_record rec (sd_fam z)) (sd_pend z)]> M)
    | Ub _ => False
    end) ->
  wpj m st s (fun v st' s' => exists S', with_record S r (fun rec => sp_upd d (sd_do rec z) S) = Ok (to_js v, S') /\ js_rel st' s' S').
Proof.
  intros HR Hz HC Hx Hy Hrel Hm. eapply wpm_mono; [exact Hm|]. intros v st' s' Hv.
  destruct r as [[msg|rec]|u]; [| |done].
  - destruct Hv as (-> & -> & ->). cbn. eauto.
  - destruct Hv as (-> & h' & -> & HB'). cbn. eexists. split; [done|]. by eapply js_rel_native.
Qed.

Lemma get_ok st s S d z key : js_rel st s S -> sp_dbs S !! d = Some z -> rec_ok z false (del_record z key) ->
  wpj (Db_get d key) st s (fun v st' s' => exists S', spec_jop (JGet d key) S = Ok (to_js v, S') /\ js_rel st' s' S').
Proof.
  intros HR Hz Hok. pose proof HR as (HT & HTd & M & HB & HC).
  destruct (proj2 HC _ _ Hz) as (x & y & Hx & Hy & HK & HV & Hs & Hd & Hc & HM).
  unfold Db_get, the_db, jx. apply wp_jbind. eapply wp_jget; [exact Hx|]. cbn beta iota. rewrite HK, HV. cbn. rewrite Hz. cbn.
  unfold del_record in Hok. apply wp_jbind, wpm_ret. destruct (sanitize (sd_key z) key) as [m|k]; [eauto|].
  destruct (kv_encode (sd_key z) k) as [k'|] eqn:Ek; [|done]. cbn. apply wp_native.
  eapply wpm_mono; [exact (bk_get_ok _ _ _ _ _ k k' HB HM Ek)|]. cbn.
  intros r h' s' [HB' Hr]. exists S. assert (js_rel (up_native h' st) s' S) by (split_and!; eauto).
  destruct (s_get _ _ _) as [v|].
  - destruct Hr as (w & -> & ->). eauto.
  - rewrite Hr. eauto.
Qed.

Lemma tick_ok st s S : js_rel st s S ->
  wpj tick st s (fun v st' s' => v = Value tt /\ exists S', spec_jop JTick S = Ok (JsReturn v_undefined, S') /\ js_rel st' s' S').
Proof.
  intros (HT & HTd & M & HB & HC). unfold wpm, tick. cbn. rewrite HT.
  assert (HR : js_rel (up_timer (snd (deb_fire (j_timer st))) st) s (JSpec (sp_dbs S) None)).
  { split; [apply deb_fire_once|]. split; [done|]. exists M. by split. }
  destruct (sp_timer S) as [d|]; [|cbn; eauto].
  destruct (HTd d eq_refl) as [z Hz]. rewrite Hz.
  eapply wpu_mono; [exact (flush_ok _ _ _ _ _ HR Hz)|done|]. cbn. intros [v st'] s' [-> HR']. eauto.
Qed.

Lemma js_rel_look {st s S d z} : js_rel st s S -> sp_dbs S !! d = Some z -> exists M x y, bk_holds (j_native st) s M /\
  core st M S /\ j_dbs st !! d = Some x /\ j_batches st !! jd_batch x = Some y /\ db_rel st M d z /\
  jd_key x = sd_key z /\ jd_val x = sd_val z /\ jb_db y = d /\ jb_cnt y = Z.of_nat (length (sd_pend z)) /\
  M !! jd_db x = Some (BSt (sd_key z) (sd_val z) (jb_batch y) (sd_fam z) (sd_pend z)).
Proof.
  intros (_ & _ & M & HB & HC) Hz. pose proof (proj2 HC _ _ Hz) as Hr. pose proof Hr as (x & y & ? & ? & ? & ? & ? & ? & ? & ?).
  exists M, x, y. auto 12.
Qed.

Lemma setBatchSize_ok st s S d z n : js_rel st s S -> sp_dbs S !! d = Some z ->
  wpj (Db_setBatchSize d n) st s (fun v st' s' => v = Value tt /\
    js_rel st' s' (sp_upd d (SDb (sd_key z) (sd_val z) n (sd_fam z) (sd_pend z)) S)).
Proof.
  intros HR Hz. destruct (js_rel_look HR Hz) as (M & x & y & HB & HC & Hx & Hy & Hrel & HK & HV & Hd & Hc & HM).
  destruct HR as (HT & HTd & _). unfold Db_setBatchSize, the_db. apply wp_jbind. eapply wp_jget; [exact Hx|]. apply wp_jset.
  split; [done|]. split; [done|]. split; [intros d' Ht; cbn; rewrite lookup_insert_is_Some'; auto|].
  exists M. split; [exact HB|].
  eapply (core_upd _ M (SDb (sd_key z) (sd_val z) n (sd_fam z) (sd_pend z)) (JDb (jd_key x) (jd_val x) (jd_db x) (jd_batch x) n (jd_opt x)) y);
    eauto; cbn; [by rewrite lookup_insert_eq|]. intros d' Hn. by rewrite lookup_insert_ne.
Qed.

Lemma exec_jop_ok o st s S : js_rel st s S -> jop_ok o S ->
  wpj (exec_jop o) st s (fun v st' s' => exists S', spec_jop o S = Ok (to_js v, S') /\ js_rel st' s' S').
Proof.
  intros HR Hok. destruct o as [d key val|d key|d|d key|d key val|d key|d n|]; cbn [exec_jop]; cbn in Hok.
  all: try (destruct Hok as (z & Hz & Hok)); try match type of Hok with is_Some _ => destruct Hok as [z Hz] end.
  all: try (destruct (js_rel_look HR Hz) as (M & x & y & HB & HC & Hx & Hy & Hrel & HK & HV & Hd & Hc & HM)).
  - cbn. rewrite Hz. apply (batch_op_ok _ _ _ _ _ _ _ (fun y => Db_put (jb_db y) key val (Some (jb_batch y))) _ _ HR Hz HC Hx Hy Hrel Hd).
    rewrite Hd. exact (Db_put_ok HB Hx HK HV HM true key val Hok).
  - cbn. rewrite Hz. apply (batch_op_ok _ _ _ _ _ _ _ (fun y => Db_del (jb_db y) key (Some (jb_batch y))) _ _ HR Hz HC Hx Hy Hrel Hd).
    rewrite Hd. exact (Db_del_ok HB Hx HK HV HM true key Hok).
  - cbn. rewrite Hz. apply wp_void. eapply wpm_mono; [exact (flush_ok _ _ _ _ _ HR Hz)|]. intros v st' s' [-> HR']. eauto.
  - by eapply get_ok.
  - cbn. rewrite Hz. eapply direct_op_ok; eauto. exact (Db_put_ok HB Hx HK HV HM false key val Hok).
  - cbn. rewrite Hz. eapply direct_op_ok; eauto. exact (Db_del_ok HB Hx HK HV HM false key Hok).
  - cbn. rewrite Hz. apply wp_void. eapply wpm_mono; [exact (setBatchSize_ok _ _ _ _ _ n HR Hz)|]. intros v st' s' [-> HR']. eauto.
  - apply wp_void. eapply wpm_mono; [exact (tick_ok _ _ _ HR)|]. intros v st' s' (-> & S' & HS & HR'). eauto.
Qed.

Lemma exec_jops_ok l st s S : js_rel st s S -> jops_ok l S ->
  wpj (exec_jops l) st s (fun rs st' s' => exists S', spec_jops l S = Ok (rs, S') /\ js_rel st' s' S').
Proof.
  revert st s S. induction l as [|o l IH]; intros st s S HR Hok; cbn.
  - apply wpm_ret. eauto.
  - destruct Hok as [Ho Hl]. apply wpm_bind. eapply wpm_mono; [exact (exec_jop_ok _ _ _ _ HR Ho)|].
    intros v st' s' (S1 & HS1 & HR1). apply wpm_bind. eapply wpm_mono; [exact (IH _ _ _ HR1 (Hl _ _ HS1))|].
    intros rs st2 s2 (S2 & HS2 & HR2). apply wpm_ret. exists S2. rewrite HS1. cbn. rewrite HS2. done.
Qed.
End Spec.
