(* ===== verification/JsLevel.v ===== *)
(** * lib/leveldb

    The LevelDB addon as the native side of [JsLib], with the proof that it
    does what [BackendLaws] asks for, and the class [Env]. *)
From S2P Require Import Prelude Nan KvTypes Exports JsSanitize Prog JsMeth Store LmdbApi LmdbObjects.
From S2P Require Import LvlFormat LvlBatch LsmApi LsmEngine LvlBind LvlBindSafe LvlBindSpec LsmBodies JsLib JsLibSpec.

Definition lvl_cursor_call `{V8} (K V : kv_type) (fn : cur_fn) (c : nat) : vmeth info :=
  match fn with
  | CKey => lvl_cursor_key K V c
  | CVal => lvl_cursor_value K V c
  | CNext => lvl_cursor_next K V c
  | CPrev => lvl_cursor_prev K V c
  | CFirst => lvl_cursor_first K V c
  | CLast => lvl_cursor_last K V c
  end.

#[export] Instance LevelBackend `{V8} : Backend := {|
  bk_engine := Level; bk_heap := lheap;
  bk_get := lvl_db_get; bk_put := lvl_db_put; bk_del := lvl_db_del; bk_write := lvl_db_write;
  bk_batch_new := lvl_batch_ctor; bk_batch_clear := lvl_batch_clear;
  bk_cursor_new := lvl_cursor_ctor; bk_cursor_call := lvl_cursor_call; bk_gte := lvl_cursor_gte |}.

Section Laws.
Context `{V8}.

Definition level_one (h : lheap) (s : lsm) (i : nat) (x : bstate) : Prop :=
  (exists dw d, has_ldb h (bs_key x) (bs_val x) i dw /\ db_alive s dw d (bs_fam x)) /\
  ldb_typed (bs_val x) (bs_fam x) /\ batch_has h (bs_batch x) (bs_pend x) /\
  Forall (fun r => dom (lvl_comparator (bs_key x)) (rec_key r) = true /\ record_typed (bs_val x) r) (bs_pend x).

Definition level_holds (h : lheap) (s : lsm) (M : gmap nat bstate) : Prop :=
  lvl_inv h s /\ (forall i i' x x', M !! i = Some x -> M !! i' = Some x' -> bs_batch x = bs_batch x' -> i = i') /\
  forall i x, M !! i = Some x -> level_one h s i x.

(** Only the database and the batch of the object [i] have changed. *)
Lemma level_upd {h s M i x dw d} h' s' x' : level_holds h s M -> M !! i = Some x ->
  lh_db h !! i = Some dw -> ldb_db dw = Some d -> lvl_inv h' s' -> lh_db h' = lh_db h ->
  (forall j, j <> bs_batch x -> lh_batch h' !! j = lh_batch h !! j) ->
  (forall d', d' <> d -> l_dbs s' !! d' = l_dbs s !! d') -> bs_batch x' = bs_batch x -> level_one h' s' i x' ->
  level_holds h' s' (<[i := x']> M).
Proof.
  intros (HI & Hinj & HM) Hx Hi Hd HI' Edb Eb Es Ex H1. split; [done|].
  assert (Hold : forall i1 x1, <[i := x']> M !! i1 = Some x1 -> exists x2, M !! i1 = Some x2 /\ bs_batch x2 = bs_batch x1).
  { intros i1 x1 [[<- <-]|[_ E]]%lookup_insert_Some; eauto. }
  split.
  - intros i1 i2 x1 x2 (y1 & F1 & G1)%Hold (y2 & F2 & G2)%Hold E. eapply Hinj; [exact F1|exact F2|congruence].
  - intros i1 x1 [[<- <-]|[Hn E]]%lookup_insert_Some; [done|].
    destruct (HM i1 x1 E) as ((dw1 & d1 & (Hi1 & Hk1) & (Hd1 & Hx1 & Hc1)) & Ht & (bw & Hb & Hbo) & HF).
    split; [|split; [done|split; [|done]]].
    + exists dw1, d1. split; [by split; [rewrite Edb|]|]. split; [done|]. rewrite Es; [done|]. intros ->. apply Hn.
      eapply (li_db_inj _ _ HI); [exact Hi|]. exists dw1. split; [done|congruence].
    + exists bw. rewrite Eb; [done|]. intros E1. apply Hn. by eapply Hinj.
Qed.

(** The batch of [i] takes or loses records. *)
Lemma level_batch h s M i x rep seq l : level_holds h s M -> M !! i = Some x -> batch_is rep seq l ->
  Forall (fun r => dom (lvl_comparator (bs_key x)) (rec_key r) = true /\ record_typed (bs_val x) r) l ->
  level_holds (lup_batch <[bs_batch x := LBatch rep]> h) s (<[i := with_pend l x]> M).
Proof.
  intros HH Hx Hb HF. pose proof HH as (HI & Hinj & HM). destruct (HM i x Hx) as ((dw & d & Hi & Ha) & Ht & _ & _).
  assert (Hok : batch_ok (LBatch rep) l) by by exists seq. pose proof (proj1 Hi) as Hi1. pose proof (proj1 Ha) as Hd.
  eapply (level_upd _ _ (with_pend l x) HH Hx Hi1 Hd); [by eapply inv_batch|done| |done|done|].
  - intros j Hj. cbn. by rewrite lookup_insert_ne.
  - split; [by exists dw, d|]. split; [done|]. split; [|done]. exists (LBatch rep). split; [apply lookup_insert_eq|done].
Qed.

(** The entries of [i] change. *)
Lemma level_data h s M i x dw d l : level_holds h s M -> M !! i = Some x ->
  has_ldb h (bs_key x) (bs_val x) i dw -> db_alive s dw d (bs_fam x) ->
  Forall (fun r => dom (lvl_comparator (bs_key x)) (rec_key r) = true /\ record_typed (bs_val x) r) l ->
  level_holds h (up_dbs <[d := LDb [apply_all l (bs_fam x)] (ldb_cache dw)]> s) (<[i := with_fam (apply_all l (bs_fam x)) x]> M).
Proof.
  intros HH Hx Hi Ha HF. pose proof HH as (HI & Hinj & HM). destruct (HM i x Hx) as (_ & Ht & Hb & HP).
  pose proof Ha as (Hd & Hl & Hc & Hw). pose proof Hi as (Hi1 & EK & EV).
  apply Forall_and in HF as [HF1 HF2]. destruct (foldl_wf (bs_key x) l (bs_fam x)) as [Hc1 Hw1]; [congruence|done|done|].
  eapply (level_upd _ _ (with_fam (apply_all l (bs_fam x)) x) HH Hx Hi1 Hd); [|done|done| |done|].
  - eapply (inv_write _ _ i); try done. by rewrite EK.
  - intros d' Hn. cbn. by rewrite lookup_insert_ne.
  - split; [|split; [|by split]].
    + exists dw, d. split; [done|]. split; [done|]. split; [apply lookup_insert_eq|]. split; [by rewrite EK|done].
    + cbn. clear -HF2 Ht. revert Ht. generalize (bs_fam x). induction HF2 as [|r l Hr _ IH]; intros f Ht; [done|].
      apply IH. by apply do_record_typed.
Qed.

Local Abbreviation wpl m h s Q := (wpm LSM_sure (fun _ => False) m h s Q).

Lemma level_get h s M i x a k : level_holds h s M -> M !! i = Some x -> kv_encode (bs_key x) a = Ok k ->
  wpl (lvl_db_get (bs_key x) (bs_val x) i a) h s (fun r h' s' => level_holds h' s' M /\
    match s_get (f_cmp (bs_fam x)) k (f_data (bs_fam x)) with
    | Some v => exists y, kv_decode (bs_val x) v (length v) = Ok y /\ js r = JsReturn y
    | None => js r = JsThrow (lit "NotFound: ")
    end).
Proof.
  intros HH Hx Hk. pose proof HH as (HI & Hinj & HM). destruct (HM i x Hx) as ((dw & d & Hi & Ha) & Ht & _ & _).
  pose proof Ha as (Hd & Hl & Hc & Hw). pose proof (has_ldb_unwrap _ _ _ _ _ Hi) as Hu.
  unfold lvl_db_get. wstep. wstep. rewrite Hd.
  eapply wpm_mono; [eapply (get_body_ok (fun X => @lsm_sound X)); [by eapply find_fam_default|exact Hk| |exact Ht]|].
  - rewrite Hc. destruct Hi as (_ & -> & _). by eapply lvl_encode_dom.
  - intros r h' s' (-> & -> & [(t & v & [] & _)|Hg]). by split.
Qed.

(** A record goes into the batch, or is done at once. *)
Lemma level_add h s M i x r seq bw rep : level_holds h s M -> M !! i = Some x -> lh_batch h !! bs_batch x = Some bw ->
  batch_is (lb_rep bw) seq (bs_pend x) -> batch_is rep seq (bs_pend x ++ [r]) ->
  dom (lvl_comparator (bs_key x)) (rec_key r) = true -> record_typed (bs_val x) r ->
  level_holds (lup_batch <[bs_batch x := LBatch rep]> h) s (<[i := with_pend (bs_pend x ++ [r]) x]> M).
Proof.
  intros HH Hx Hbw Hb Hb' Hd Ht. eapply level_batch; [done|done|done|]. apply Forall_app. split; [by apply HH in Hx as (_ & _ & _ & HP)|].
  by constructor.
Qed.

Lemma level_do h s M i x dw d r : level_holds h s M -> M !! i = Some x ->
  has_ldb h (bs_key x) (bs_val x) i dw -> db_alive s dw d (bs_fam x) ->
  dom (lvl_comparator (bs_key x)) (rec_key r) = true -> record_typed (bs_val x) r ->
  level_holds h (set_fam d 0 (do_record r (bs_fam x)) s) (<[i := with_fam (do_record r (bs_fam x)) x]> M).
Proof.
  intros HH Hx Hi Ha Hd Ht. pose proof (level_data h s M i x dw d [r] HH Hx Hi Ha) as HD. cbn in HD.
  replace (set_fam d 0 (do_record r (bs_fam x)) s) with (up_dbs <[d := LDb [do_record r (bs_fam x)] (ldb_cache dw)]> s); [by apply HD; constructor|].
  unfold set_fam, up_dbs. f_equal. apply map_eq. intros j. destruct Ha as (_ & Hl & _).
  destruct (decide (j = d)) as [->|]; [by rewrite lookup_insert_eq, lookup_alter_eq, Hl|by rewrite lookup_insert_ne, lookup_alter_ne].
Qed.

Lemma level_put h s M i x a b k v bat : level_holds h s M -> M !! i = Some x ->
  kv_encode (bs_key x) a = Ok k -> kv_encode (bs_val x) b = Ok v -> decodes (bs_val x) v ->
  (bat = true -> record_ok (RPut k v) /\ Z.of_nat (length (bs_pend x)) + 1 < 2 ^ 31) ->
  wpl (lvl_db_put (bs_key x) (bs_val x) i a b (if bat then Some (bs_batch x) else None)) h s
    (fun r h' s' => js r = JsReturn v_undefined /\ level_holds h' s' (<[i :=
      if bat then with_pend (bs_pend x ++ [RPut k v]) x else with_fam (do_record (RPut k v) (bs_fam x)) x]> M)).
Proof.
  intros HH Hx Hk Hv Hvd Hbat. destruct (proj2 (proj2 HH) i x Hx) as ((dw & d & Hi & Ha) & Ht & (bw & Hbw & seq & Hb) & _).
  pose proof (has_ldb_unwrap _ _ _ _ _ Hi) as Hu. pose proof (lvl_encode_dom _ _ _ Hk) as Hdom.
  assert (record_typed (bs_val x) (RPut k v)) as Htr by by intros ? ? [= <- <-].
  unfold lvl_db_put. wstep. wstep. wstep. wstep. wstep. wstep. destruct bat.
  - destruct (Hbat eq_refl) as [Hr Hn]. destruct (batch_add_ok _ _ _ Hb (RPut k v) Hr) as (rep & HA & HB'); [lia|]. cbn in HA.
    wstep. wstep. wstep. wstep. wstep. wstep. wstep. split; [done|]. by eapply level_add.
  - pose proof Ha as (Hd & Hl & Hc & _). rewrite Hd.
    eapply wpm_mono; [eapply (put_body_ok (fun X => @lsm_sound X)); [by eapply find_fam_default|]|].
    + rewrite Hc. by destruct Hi as (_ & -> & _).
    + intros q h' s' (-> & st & -> & [[Hq ->]|[(t & [=] & _) _]]). split; [done|]. by eapply level_do.
Qed.

Lemma level_del h s M i x a k bat : level_holds h s M -> M !! i = Some x -> kv_encode (bs_key x) a = Ok k ->
  (bat = true -> record_ok (RDelete k) /\ Z.of_nat (length (bs_pend x)) + 1 < 2 ^ 31) ->
  wpl (lvl_db_del (bs_key x) (bs_val x) i a (if bat then Some (bs_batch x) else None)) h s
    (fun r h' s' => js r = JsReturn v_undefined /\ level_holds h' s' (<[i :=
      if bat then with_pend (bs_pend x ++ [RDelete k]) x else with_fam (do_record (RDelete k) (bs_fam x)) x]> M)).
Proof.
  intros HH Hx Hk Hbat. destruct (proj2 (proj2 HH) i x Hx) as ((dw & d & Hi & Ha) & Ht & (bw & Hbw & seq & Hb) & _).
  pose proof (has_ldb_unwrap _ _ _ _ _ Hi) as Hu. pose proof (lvl_encode_dom _ _ _ Hk) as Hdom.
  assert (record_typed (bs_val x) (RDelete k)) as Htr by by intros ? ? [=].
  unfold lvl_db_del. wstep. wstep. wstep. wstep. destruct bat.
  - destruct (Hbat eq_refl) as [Hr Hn]. destruct (batch_add_ok _ _ _ Hb (RDelete k) Hr) as (rep & HA & HB'); [lia|]. cbn in HA.
    wstep. wstep. wstep. wstep. wstep. wstep. wstep. split; [done|]. by eapply level_add.
  - pose proof Ha as (Hd & Hl & Hc & _). rewrite Hd.
    eapply wpm_mono; [eapply (del_body_ok (fun X => @lsm_sound X)); [by eapply find_fam_default|]|].
    + rewrite Hc. by destruct Hi as (_ & -> & _).
    + intros q h' s' (-> & st & -> & [[Hq ->]|[(t & [=] & _) _]]). split; [done|]. by eapply level_do.
Qed.

Lemma level_write h s M i x : level_holds h s M -> M !! i = Some x ->
  wpl (lvl_db_write (bs_key x) (bs_val x) i (bs_batch x)) h s
    (fun r h' s' => js r = JsReturn v_undefined /\ level_holds h' s' (<[i := with_fam (apply_all (bs_pend x) (bs_fam x)) x]> M)).
Proof.
  intros HH Hx. destruct (proj2 (proj2 HH) i x Hx) as ((dw & d & Hi & Ha) & Ht & (bw & Hbw & seq & Hb) & HP).
  pose proof (has_ldb_unwrap _ _ _ _ _ Hi) as Hu. pose proof Ha as (Hd & Hl & Hc & _).
  assert (Hdom : Forall (fun r => dom (f_cmp (bs_fam x)) (rec_key r) = true) (bs_pend x)).
  { rewrite Hc. destruct Hi as (_ & -> & _). eapply Forall_impl; [exact HP|]. by intros r [? _]. }
  pose proof (do_records_default _ _ _ _ _ Hl Hdom) as E1.
  unfold lvl_db_write. wstep. wstep. wstep. wstep. wstep. rewrite Hd. wstep; [by exists seq, (bs_pend x); rewrite E1|].
  intros [st rep] s' ((seq' & l' & s1 & Hb' & E2 & W & seq2 & Hb2) & Hs). cbn [fst snd] in *.
  pose proof (batch_is_inj _ _ _ _ _ Hb Hb') as [_ <-]. rewrite E1 in E2. injection E2 as <-.
  destruct W as [[-> ->]|[[t ->] _]]; [|done]. wstep. wstep. wstep. split; [done|].
  pose proof (level_data _ _ _ _ _ _ _ _ HH Hx Hi Ha HP) as HH1.
  pose proof (level_batch _ _ _ i _ rep seq2 (bs_pend x) HH1 (lookup_insert_eq _ _ _) Hb2 HP) as HH2.
  by rewrite insert_insert_eq in HH2.
Qed.

Lemma level_clear h s M i x : level_holds h s M -> M !! i = Some x ->
  wpl (lvl_batch_clear (bs_batch x)) h s (fun r h' s' => js r = JsReturn v_undefined /\ level_holds h' s' (<[i := with_pend [] x]> M)).
Proof.
  intros HH Hx. destruct (proj2 (proj2 HH) i x Hx) as (_ & _ & (bw & Hbw & _) & _).
  unfold lvl_batch_clear. wstep. wstep. wstep. wstep. wstep. split; [done|]. eapply level_batch; [done|done|exact batch_is_empty|constructor].
Qed.
End Laws.

#[export] Instance LevelLaws `{V8} : BackendLaws LevelBackend := {|
  bk_holds := level_holds : @bk_heap _ LevelBackend -> _;
  bk_get_ok := level_get; bk_put_ok := level_put; bk_del_ok := level_del;
  bk_write_ok := level_write; bk_clear_ok := level_clear |}.

(** ** The classes of lib/leveldb *)
Section Classes.
Context `{V8} `{D : Debounce} (path_join : bytes -> bytes -> bytes).
Local Abbreviation J := (@J _ LevelBackend D).

(** [new DbClass(path.join(env.dir, opt.name), opt.cacheSize || env.cacheSize)] *)
Definition level_new (i : nat) (e : jenv) (o : jopt) (name : bytes) (K V : kv_type) : J value :=
  native_call (lvl_db_ctor K V i (new_string (path_join (je_dir e) name)) (or_value (o_cacheSize o) (je_cacheSize e)) : meth lsm_call bk_heap info).

Definition level_Db_ctor (d i b j : nat) (e : jenv) (o : jopt) (name : bytes) : J unit := Db_ctor d i b j o (level_new i e o name).

(** [Env]: the directory is made before. *)
Definition level_Env_ctor (dir : bytes) (cacheSize : value) : jenv := JEnv dir cacheSize [].

Definition level_openDb (d i b j : nat) (e : jenv) (o : jopt) : J jenv :=
  Env_add (lit "opened") d e o (level_Db_ctor d i b j e o).
End Classes.
