(* ===== verification/JsRocks.v ===== *)
(** * lib/rocksdb

    The RocksDB addon as the native side of [JsLib], with the proof that it
    does what [BackendLaws] asks for, and the class [Env]. *)
From S2P Require Import Prelude Nan KvTypes Exports JsSanitize Prog JsMeth Store LmdbApi LmdbObjects.
From S2P Require Import LvlFormat LvlBatch RocksBatch LsmApi LsmEngine LvlBind LvlBindSafe LvlBindSpec LsmBodies.
From S2P Require Import RocksBind RocksSafe RocksSpec JsLib JsLibSpec.

Definition rocks_cursor_call `{V8} (K V : kv_type) (fn : cur_fn) (c : nat) : rmeth info :=
  match fn with
  | CKey => rocks_cursor_key K V c
  | CVal => rocks_cursor_value K V c
  | CNext => rocks_cursor_next K V c
  | CPrev => rocks_cursor_prev K V c
  | CFirst => rocks_cursor_first K V c
  | CLast => rocks_cursor_last K V c
  end.

#[export] Instance RocksBackend `{V8} : Backend := {|
  bk_engine := Rocks; bk_heap := rheap;
  bk_get := rocks_db_get; bk_put := rocks_db_put; bk_del := rocks_db_del; bk_write := rocks_db_write;
  bk_batch_new := rocks_batch_ctor; bk_batch_clear := rocks_batch_clear;
  bk_cursor_new := rocks_cursor_ctor; bk_cursor_call := rocks_cursor_call; bk_gte := rocks_cursor_gte |}.

Section Laws.
Context `{V8}.
Local Abbreviation wpl m h s Q := (wpm LSM_sure (fun _ => False) m h s Q).

(** The records of a batch fit the database they are for. *)
Definition fit_all (x : bstate) (l : list record) : Prop :=
  Forall (fun r => dom (lvl_comparator (bs_key x)) (rec_key r) = true /\ record_typed (bs_val x) r) l.

Definition rocks_one_holds (h : rheap) (i : nat) (x : bstate) : Prop :=
  (exists dw, has_rdb h (bs_key x) (bs_val x) i dw) /\
  (exists bw sq, rh_batch h !! bs_batch x = Some bw /\ rb_is (rb_rep bw) sq (numbered (f_id (bs_fam x)) <$> bs_pend x)) /\
  fit_all x (bs_pend x).

Definition rocks_all_hold (h : rheap) (s : lsm) (M : gmap nat bstate) : Prop :=
  rocks_holds h s (bs_fam <$> M) /\ (forall i i' x x', M !! i = Some x -> M !! i' = Some x' -> bs_batch x = bs_batch x' -> i = i') /\
  forall i x, M !! i = Some x -> rocks_one_holds h i x.

Lemma fam_lookup {M : gmap nat bstate} {i x} : M !! i = Some x -> (bs_fam <$> M) !! i = Some (bs_fam x).
Proof. intros E. by rewrite lookup_fmap, E. Qed.

(** Only the database and the batch of the object [i] have changed. *)
Lemma rocks_upd {h s M i x} h' s' x' : rocks_all_hold h s M -> M !! i = Some x ->
  rocks_holds h' s' (<[i := bs_fam x']> (bs_fam <$> M)) -> rh_db h' = rh_db h ->
  (forall j, j <> bs_batch x -> rh_batch h' !! j = rh_batch h !! j) -> bs_batch x' = bs_batch x ->
  rocks_one_holds h' i x' -> rocks_all_hold h' s' (<[i := x']> M).
Proof.
  intros (HR & Hinj & HM) Hx HR' Edb Eb Ex H1. split; [by rewrite fmap_insert|].
  assert (Hold : forall i1 x1, <[i := x']> M !! i1 = Some x1 -> exists x2, M !! i1 = Some x2 /\ bs_batch x2 = bs_batch x1).
  { intros i1 x1 [[<- <-]|[_ E]]%lookup_insert_Some; eauto. }
  split.
  - intros i1 i2 x1 x2 (y1 & F1 & G1)%Hold (y2 & F2 & G2)%Hold E. eapply Hinj; [exact F1|exact F2|congruence].
  - intros i1 x1 [[<- <-]|[Hn E]]%lookup_insert_Some; [done|].
    destruct (HM i1 x1 E) as (Hdw & (bw & sq & Hb & Hbo) & HF). split; [|split; [|done]].
    + destruct Hdw as [dw Hdw]. exists dw. unfold has_rdb. by rewrite Edb.
    + exists bw, sq. rewrite Eb; [done|]. intros E1. apply Hn. by eapply Hinj.
Qed.

Lemma rocks_batch_set h s M i x rep sq l : rocks_all_hold h s M -> M !! i = Some x ->
  rb_is rep sq (numbered (f_id (bs_fam x)) <$> l) -> fit_all x l ->
  rocks_all_hold (rup_batch <[bs_batch x := RBatch rep]> h) s (<[i := with_pend l x]> M).
Proof.
  intros HH Hx Hb HF. pose proof HH as (HR & Hinj & HM). destruct (HM i x Hx) as (Hdw & _ & _).
  eapply (rocks_upd _ _ (with_pend l x) HH Hx); [|done| |done|].
  - rewrite insert_id; [by eapply rocks_holds_batch|exact (fam_lookup Hx)].
  - intros j Hj. cbn. by rewrite lookup_insert_ne.
  - split; [done|]. split; [|done]. exists (RBatch rep), sq. split; [apply lookup_insert_eq|done].
Qed.

Lemma rocks_fam_set h s s' M i x f : rocks_all_hold h s M -> M !! i = Some x -> f_id f = f_id (bs_fam x) ->
  rocks_holds h s' (<[i := f]> (bs_fam <$> M)) -> rocks_all_hold h s' (<[i := with_fam f x]> M).
Proof.
  intros HH Hx Hf HR'. eapply (rocks_upd h s' (with_fam f x) HH Hx); try done.
  destruct (proj2 (proj2 HH) i x Hx) as (Hdw & Hb & HF). split; [done|]. split; [|done]. cbn. by rewrite Hf.
Qed.

Lemma rocks_get h s M i x a k : rocks_all_hold h s M -> M !! i = Some x -> kv_encode (bs_key x) a = Ok k ->
  wpl (rocks_db_get (bs_key x) (bs_val x) i a) h s (fun r h' s' => rocks_all_hold h' s' M /\
    match s_get (f_cmp (bs_fam x)) k (f_data (bs_fam x)) with
    | Some v => exists y, kv_decode (bs_val x) v (length v) = Ok y /\ js r = JsReturn y
    | None => js r = JsThrow (lit "NotFound: ")
    end).
Proof.
  intros HH Hx Hk. pose proof HH as ((HI & HR) & Hinj & HM). destruct (HM i x Hx) as ((dw & Hi) & _).
  destruct (HR i _ (fam_lookup Hx)) as (dw' & d & hh & j & Hi' & Ha & Ht).
  assert (dw' = dw) as -> by (destruct Hi; congruence). pose proof (has_rdb_unwrap _ _ _ _ _ Hi) as Hu.
  pose proof (alive_find _ _ _ _ _ _ Ha) as Hfind. pose proof (alive_dom _ _ _ _ _ _ _ _ _ _ _ _ Ha Hi Hk) as Hd.
  unfold rocks_db_get. wstep. wstep.
  eapply wpm_mono; [eapply (get_body_ok (fun X => @lsm_sound X)); [exact Hfind|exact Hk|exact Hd|]|].
  - destruct Hi as (_ & _ & <-). exact Ht.
  - intros r h' s' (-> & -> & [(t & v & [] & _)|Hg]). by split.
Qed.

Lemma rbat_ok h s M i x dw o r : rocks_all_hold h s M -> M !! i = Some x -> has_rdb h (bs_key x) (bs_val x) i dw ->
  bat_record (bs_key x) (bs_val x) o = Ok r -> record_ok r -> record_typed (bs_val x) r ->
  Z.of_nat (length (bs_pend x)) + 1 < 2 ^ 31 ->
  wpl (rbat_call (bs_batch x) (RCall _ i (bs_key x) (bs_val x) o)) h s
    (fun q h' s' => js q = JsReturn v_undefined /\ rocks_all_hold h' s' (<[i := with_pend (bs_pend x ++ [r]) x]> M)).
Proof.
  intros HH Hx Hi Hr Hro Hrt Hn. pose proof HH as (HR & Hinj & HM). destruct (HM i x Hx) as (_ & (bw & sq & Hb & Hbo) & HF).
  destruct (proj2 HR i _ (fam_lookup Hx)) as (dw' & d & hh & j & Hi' & Ha & _). assert (dw' = dw) as -> by (destruct Hi; congruence).
  destruct (rbat_call_ok (RCall _ i (bs_key x) (bs_val x) o) h s _ d (bs_batch x) sq _ (bs_fam x) r bw HR Hb Hbo) as (rep & HB' & HW).
  - split; [exact (mk_is_Some _ _ (fam_lookup Hx))|]. split; [exists dw; split; [done|apply Ha]|by exists r].
  - exact (fam_lookup Hx).
  - done.
  - by rewrite length_fmap.
  - apply wpm_sure. eapply wpm_mono; [exact HW|]. intros q h' s' (Hq & -> & ->). split; [done|].
    eapply rocks_batch_set; [done|done|by rewrite fmap_app|]. apply Forall_app. split; [done|]. constructor; [|done].
    split; [by eapply record_dom|done].
Qed.

Lemma rocks_direct h s M i x dw o r f' : rocks_all_hold h s M -> M !! i = Some x -> has_rdb h (bs_key x) (bs_val x) i dw ->
  ldb_op_ok (bs_key x) (bs_val x) o -> spec_ldb (bs_key x) (bs_val x) o (bs_fam x) = Ok (r, f') -> f_id f' = f_id (bs_fam x) ->
  wpl (run_rocks1 (RCall _ i (bs_key x) (bs_val x) o)) h s
    (fun q h' s' => js q = r /\ rocks_all_hold h' s' (<[i := with_fam f' x]> M)).
Proof.
  intros HH Hx Hi Ho E Hid. pose proof HH as (HR & _).
  eapply wpm_mono; [eapply (rocks_one h s _ (RCall _ i (bs_key x) (bs_val x) o) (bs_fam x) r f' HR)|].
  - split; [exact (mk_is_Some _ _ (fam_lookup Hx))|]. split; [by exists dw|done].
  - exact (fam_lookup Hx).
  - done.
  - intros q h' s' (Hq & -> & HR'). split; [done|]. by eapply rocks_fam_set.
Qed.

Lemma rocks_put h s M i x a b k v bat : rocks_all_hold h s M -> M !! i = Some x ->
  kv_encode (bs_key x) a = Ok k -> kv_encode (bs_val x) b = Ok v -> decodes (bs_val x) v ->
  (bat = true -> record_ok (RPut k v) /\ Z.of_nat (length (bs_pend x)) + 1 < 2 ^ 31) ->
  wpl (rocks_db_put (bs_key x) (bs_val x) i a b (if bat then Some (bs_batch x) else None)) h s
    (fun r h' s' => js r = JsReturn v_undefined /\ rocks_all_hold h' s' (<[i :=
      if bat then with_pend (bs_pend x ++ [RPut k v]) x else with_fam (do_record (RPut k v) (bs_fam x)) x]> M)).
Proof.
  intros HH Hx Hk Hv Hvd Hbat. destruct (proj2 (proj2 HH) i x Hx) as ((dw & Hi) & _). destruct bat.
  - destruct (Hbat eq_refl) as [Hr Hn]. apply (rbat_ok h s M i x dw (BPut a b) (RPut k v)); try done.
    + cbn. by rewrite Hk, Hv.
    + by intros ? ? [= <- <-].
  - apply (rocks_direct h s M i x dw (LPut a b)); try done; [|cbn; by rewrite Hk, Hv]. split; [by exists k|by exists v].
Qed.

Lemma rocks_del h s M i x a k bat : rocks_all_hold h s M -> M !! i = Some x -> kv_encode (bs_key x) a = Ok k ->
  (bat = true -> record_ok (RDelete k) /\ Z.of_nat (length (bs_pend x)) + 1 < 2 ^ 31) ->
  wpl (rocks_db_del (bs_key x) (bs_val x) i a (if bat then Some (bs_batch x) else None)) h s
    (fun r h' s' => js r = JsReturn v_undefined /\ rocks_all_hold h' s' (<[i :=
      if bat then with_pend (bs_pend x ++ [RDelete k]) x else with_fam (do_record (RDelete k) (bs_fam x)) x]> M)).
Proof.
  intros HH Hx Hk Hbat. destruct (proj2 (proj2 HH) i x Hx) as ((dw & Hi) & _). destruct bat.
  - destruct (Hbat eq_refl) as [Hr Hn]. apply (rbat_ok h s M i x dw (BDel a) (RDelete k)); try done. cbn. by rewrite Hk.
  - apply (rocks_direct h s M i x dw (LDel a)); try done; [|cbn; by rewrite Hk]. by exists k.
Qed.

Lemma write_numbered h M i dw d hh j l s f :
  rocks_holds h s M -> M !! i = Some f -> rh_db h !! i = Some dw -> rdb_alive s dw d hh j f -> ldb_typed (rd_val dw) f ->
  Forall (fun r => dom (f_cmp f) (rec_key r) = true /\ record_typed (rd_val dw) r) l ->
  exists s1, do_records (Some d) ((fun r => (Numbered (f_id f), r)) <$> l) s = Some s1 /\ rocks_holds h s1 (<[i := apply_all l f]> M).
Proof.
  revert s f M. induction l as [|r l IH]; intros s f M HH Hf Hi Ha Ht HF; [exists s; by rewrite insert_id|].
  apply Forall_cons in HF as [[Hd Hr] HF]. pose proof (rocks_holds_set h s M i f r dw d hh j HH Hf Hi Ha Hd Hr Ht) as HH1.
  destruct (IH (set_fam d j (do_record r f) s) (do_record r f) (<[i := do_record r f]> M)) as (s1 & E & HH2); try done.
  - apply lookup_insert_eq.
  - destruct Ha as (E1 & E2 & Hh & (x & Hx & Hj) & Hc). split; [done|]. split; [done|]. split; [done|]. split; [|done].
    eexists. cbn. rewrite lookup_alter_eq, Hx. split; [done|]. cbn. apply list_lookup_insert_eq. by eapply lookup_lt_Some.
  - by apply do_record_typed.
  - exists s1. rewrite insert_insert_eq in HH2. split; [|done]. cbn [fmap list_fmap do_records].
    rewrite (find_numbered _ _ _ _ _ _ _ (proj1 HH) Ha). cbn [mbind option_bind]. rewrite Hd. exact E.
Qed.

Lemma apply_all_id l f : f_id (apply_all l f) = f_id f.
Proof. revert f. induction l as [|r l IH]; intros f; [done|]. cbn. unfold apply_all in IH. rewrite IH. by destruct r. Qed.

Lemma rocks_write h s M i x : rocks_all_hold h s M -> M !! i = Some x ->
  wpl (rocks_db_write (bs_key x) (bs_val x) i (bs_batch x)) h s
    (fun r h' s' => js r = JsReturn v_undefined /\ rocks_all_hold h' s' (<[i := with_fam (apply_all (bs_pend x) (bs_fam x)) x]> M)).
Proof.
  intros HH Hx. pose proof HH as ((HI & HR) & Hinj & HM). destruct (HM i x Hx) as ((dw & Hi) & (bw & sq & Hb & Hbo) & HF).
  destruct (HR i _ (fam_lookup Hx)) as (dw' & d & hh & j & Hi' & Ha & Ht). assert (dw' = dw) as -> by (destruct Hi; congruence).
  pose proof (has_rdb_unwrap _ _ _ _ _ Hi) as Hu. pose proof Hi as (_ & EK & EV). pose proof Ha as (Hd & _ & _ & _ & Hc).
  destruct (write_numbered h _ i dw d hh j (bs_pend x) s (bs_fam x) (conj HI HR) (fam_lookup Hx) Hi' Ha Ht) as (s1 & E1 & HR1).
  { by rewrite Hc, EK, EV. }
  assert (HN : batch_records (numbered (f_id (bs_fam x)) <$> bs_pend x) = Some ((fun r => (Numbered (f_id (bs_fam x)), r)) <$> bs_pend x)).
  { clear. induction (bs_pend x) as [|r l IH]; [done|]. cbn. destruct r; cbn; by rewrite IH. }
  unfold rocks_db_write. wstep. wstep. wstep. wstep. wstep. rewrite Hd. wstep; [by do 3 eexists; rewrite E1|].
  intros [st rep] s' ((sq' & l' & recs & s2 & Hb' & Hr' & E2 & W & sq2 & Hb2) & Hs). cbn [fst snd] in *.
  pose proof (rb_is_inj _ _ _ _ _ Hbo Hb') as <-. rewrite HN in Hr'. injection Hr' as <-. rewrite E1 in E2. injection E2 as <-.
  destruct W as [[-> ->]|[[t ->] _]]; [|done]. wstep. wstep. wstep. split; [done|].
  pose proof (rocks_fam_set _ _ _ _ _ _ _ HH Hx (apply_all_id _ _) HR1) as HH1.
  pose proof (rocks_batch_set _ _ _ i _ rep sq2 (bs_pend x) HH1 (lookup_insert_eq _ _ _)) as HH2. cbn in HH2.
  rewrite apply_all_id, insert_insert_eq in HH2. by apply HH2.
Qed.

Lemma rocks_clear h s M i x : rocks_all_hold h s M -> M !! i = Some x ->
  wpl (rocks_batch_clear (bs_batch x)) h s (fun r h' s' => js r = JsReturn v_undefined /\ rocks_all_hold h' s' (<[i := with_pend [] x]> M)).
Proof.
  intros HH Hx. destruct (proj2 (proj2 HH) i x Hx) as (_ & (bw & sq & Hbw & _) & _).
  unfold rocks_batch_clear. wstep. wstep. wstep. wstep. wstep. split; [done|]. eapply rocks_batch_set; [done|done|exact rb_is_empty|constructor].
Qed.
End Laws.

#[export] Instance RocksLaws `{V8} : BackendLaws RocksBackend := {|
  bk_holds := rocks_all_hold : @bk_heap _ RocksBackend -> _;
  bk_get_ok := rocks_get; bk_put_ok := rocks_put; bk_del_ok := rocks_del;
  bk_write_ok := rocks_write; bk_clear_ok := rocks_clear |}.

(** ** The classes of lib/rocksdb *)
Section Classes.
Context `{V8} `{D : Debounce}.
Local Abbreviation J := (@J _ RocksBackend D).

Definition rocks_Db_get : nat -> value -> J value := Db_get.
Definition rocks_Db_put : nat -> value -> value -> option nat -> J value := Db_put.
Definition rocks_Db_del : nat -> value -> option nat -> J value := Db_del.
Definition rocks_Db_setBatchSize : nat -> option Z -> J unit := Db_setBatchSize.
Definition rocks_Db_createBatch : nat -> nat -> nat -> J unit := Db_createBatch.
Definition rocks_Db_flushBatchOps : nat -> J unit := Db_flushBatchOps.
Definition rocks_Db_batchPut : nat -> value -> value -> J unit := Db_batchPut.
Definition rocks_Db_batchDel : nat -> value -> J unit := Db_batchDel.
Definition rocks_Db_autoFlush : nat -> J unit := Db_autoFlush.
Definition rocks_Batch_ctor : nat -> nat -> nat -> J unit := Batch_ctor.
Definition rocks_Batch_del : nat -> value -> J unit := Batch_del.
Definition rocks_Batch_put : nat -> value -> value -> J unit := Batch_put.
Definition rocks_Batch_clear : nat -> J unit := Batch_clear.
Definition rocks_Batch_write : nat -> J unit := Batch_write.

Definition rocks_Db_cursor : nat -> nat -> nat -> J unit := Db_cursor.
Definition rocks_Cursor_ctor : nat -> nat -> nat -> J unit := Cursor_ctor.
Definition rocks_Cursor_call : cur_fn -> nat -> J value := Cursor_call.
Definition rocks_Cursor_gte : nat -> value -> J value := Cursor_gte.

(** [new DbClass(env._env, opt.name)] *)
Definition rocks_new (i en : nat) (name : bytes) (K V : kv_type) : J value :=
  native_call (rocks_db_ctor K V i en (new_string name) : meth lsm_call bk_heap info).

Definition rocks_Db_ctor (d i b j en : nat) (o : jopt) (name : bytes) : J unit := Db_ctor d i b j o (rocks_new i en name).

(** [Env], with the native environment [en]. *)
Definition rocks_Env_ctor (en : nat) (dir : bytes) (cacheSize : value) : J jenv :=
  jbind (native_call (rocks_env_ctor en : meth lsm_call bk_heap info)) (fun _ => jret (JEnv dir cacheSize [])).

Definition rocks_registerDb (d i b j en : nat) (e : jenv) (o : jopt) : J jenv :=
  Env_add (lit "registered") d e o (rocks_Db_ctor d i b j en o).

(** [_.each] calls back for the keys in the order of the object; the order does
    not show in what [init] does. *)
Fixpoint rocks_init_all (en : nat) (l : list nat) : J unit :=
  match l with
  | [] => jret tt
  | d :: l' =>
      jbind (the_db d) (fun x =>
      jbind (native_call (rocks_db_init (jd_key x) (jd_val x) (jd_db x) en : meth lsm_call bk_heap info)) (fun _ =>
      rocks_init_all en l'))
  end.

Definition rocks_Env_open (en : nat) (e : jenv) : J unit :=
  jbind (native_call (rocks_env_open en (new_string (je_dir e)) (je_cacheSize e) : meth lsm_call bk_heap info)) (fun _ =>
  rocks_init_all en (snd <$> je_dbs e)).
End Classes.
