(* ===== verification/JsAuto.v ===== *)
(** * What callers of the JavaScript side get

    The claims about [Db] objects of lib/leveldb and lib/rocksdb: they refine
    the specification of [JsLibSpec]; records batched on one [Db] are all
    written when the timer has run; and they need not be when another [Db] of
    the process batches in between, because all of them share the timer. *)
From S2P Require Import Prelude Nan KvTypes Exports JsSanitize Prog JsMeth Store LmdbApi LmdbObjects.
From S2P Require Import LvlFormat LvlBatch LsmApi LsmEngine LvlBind LvlBindSafe LvlBindSpec JsLib JsLibSpec JsLevel.

Section Claims.
Context `{V : V8} `{B : !Backend} `{BL : !BackendLaws B} `{D : Debounce} `{DL : !DebounceLaws D}.

(** Fewer records wait than the batch size of the [Db]. *)
Definition pend_bounded (S : jspec) : Prop :=
  forall d x n, sp_dbs S !! d = Some x -> sd_size x = Some n -> 0 < n -> Z.of_nat (length (sd_pend x)) < n.

Definition sets_size (o : jop) : bool := match o with JSetBatchSize _ _ => true | _ => false end.

Lemma bounded_upd S d x t : pend_bounded S ->
  (forall n, sd_size x = Some n -> 0 < n -> Z.of_nat (length (sd_pend x)) < n) -> pend_bounded (JSpec (<[d := x]> (sp_dbs S)) t).
Proof. intros HS Hx d' x' n. cbn. intros [[<- <-]|[_ E]]%lookup_insert_Some; [apply Hx|by eapply HS]. Qed.

Lemma bounded_flush S d x t : pend_bounded S -> pend_bounded (JSpec (<[d := sd_flush x]> (sp_dbs S)) t).
Proof. intros HS. apply bounded_upd; [done|]. cbn. lia. Qed.

Lemma bounded_batch S d r x : pend_bounded S -> pend_bounded (spec_batch d r x S).
Proof.
  intros HS. unfold spec_batch. destruct (full _) eqn:E; [by apply bounded_flush|]. apply bounded_upd; [done|].
  intros n Hn _. unfold full in E. rewrite Hn in E. lia.
Qed.

Lemma bounded_record S r f : pend_bounded S -> (forall rec, pend_bounded (f rec)) -> forall v S', with_record S r f = Ok (v, S') -> pend_bounded S'.
Proof. intros HS Hf v S'. unfold with_record. destruct r as [[m|rec]|]; cbn; [by intros [= <- <-]|by intros [= <- <-]|done]. Qed.

Lemma bounded_step o S v S' : sets_size o = false -> pend_bounded S -> spec_jop o S = Ok (v, S') -> pend_bounded S'.
Proof.
  intros Ho HS. destruct o as [d key val|d key|d|d key|d key val|d key|d n|]; try done; cbn.
  7: { intros [= <- <-]. destruct (sp_timer S) as [d|]; [|done]. destruct (sp_dbs S !! d) as [x|]; [|done]. by apply bounded_flush. }
  all: destruct (sp_dbs S !! d) as [x|] eqn:Hx; [|done]; cbn.
  - apply bounded_record; [done|]. intros. by apply bounded_batch.
  - apply bounded_record; [done|]. intros. by apply bounded_batch.
  - intros [= <- <-]. by apply bounded_flush.
  - destruct (sanitize (sd_key x) key) as [m|a]; [by intros [= <- <-]|]. destruct (kv_encode _ a) as [k|]; [|done]. cbn.
    destruct (s_get _ _ _) as [w|]; [|by intros [= <- <-]]. destruct (kv_decode _ _ _); [|done]. by intros [= <- <-].
  - apply bounded_record; [done|]. intros. apply bounded_upd; [done|]. intros n. exact (HS d x n Hx).
  - apply bounded_record; [done|]. intros. apply bounded_upd; [done|]. intros n. exact (HS d x n Hx).
Qed.

Lemma bounded_steps l S rs S' : Forall (fun o => sets_size o = false) l -> pend_bounded S -> spec_jops l S = Ok (rs, S') -> pend_bounded S'.
Proof.
  intros Hl. revert S rs. induction Hl as [|o l Ho _ IH]; intros S rs HS E; [by injection E as <- <-|]. cbn in E.
  destruct (spec_jop o S) as [[v S1]|] eqn:E1; [|done]. cbn in E.
  destruct (spec_jops l S1) as [[rs1 S2]|] eqn:E2; [|done]. injection E as <- <-.
  eapply IH; [|exact E2]. by eapply bounded_step.
Qed.


(** ** Batched records *)

(** The call [o] batches the record [r] on [d]. *)
Definition rec_of (x : sdb) (d : nat) (o : jop) (r : record) : Prop :=
  match o with
  | JBatchPut d' key val => d' = d /\ put_record x key val = Ok (Value r)
  | JBatchDel d' key => d' = d /\ del_record x key = Ok (Value r)
  | _ => False
  end.

Definition rec_fine (x : sdb) (r : record) : Prop :=
  record_ok r /\ match r with RPut _ v => decodes (sd_val x) v | RDelete _ => True end.

Lemma rec_of_step x d o r S : sp_dbs S !! d = Some x -> rec_of x d o r ->
  spec_jop o S = Ok (JsReturn v_undefined, spec_batch d r x S).
Proof. intros Hx. destruct o; try done; intros [-> E]; cbn; rewrite Hx; cbn; by rewrite E. Qed.

Lemma rec_of_ok x d o r S : sp_dbs S !! d = Some x -> rec_of x d o r -> rec_fine x r ->
  Z.of_nat (length (sd_pend x)) + 1 < 2 ^ 31 -> jop_ok o S.
Proof. intros Hx Ho [H1 H2] Hn. destruct o; try done; destruct Ho as [-> E]; exists x; split; try done; by rewrite E. Qed.

Lemma apply_all_app l l' f : apply_all (l ++ l') f = apply_all l' (apply_all l f).
Proof. apply foldl_app. Qed.

(** What batching [r] does to [d], and to nothing else. *)
Lemma spec_batch_at S d r x : exists x', sp_dbs (spec_batch d r x S) = <[d := x']> (sp_dbs S) /\
  sd_key x' = sd_key x /\ sd_val x' = sd_val x /\ (length (sd_pend x') <= length (sd_pend x) + 1)%nat /\
  apply_all (sd_pend x') (sd_fam x') = apply_all (sd_pend x ++ [r]) (sd_fam x) /\
  (sp_timer (spec_batch d r x S) = Some d \/ sd_pend x' = []).
Proof.
  unfold spec_batch. destruct (full (sd_add r x)).
  - exists (sd_flush (sd_add r x)). split_and!; try done; [cbn; lia|]. by right.
  - exists (sd_add r x). split_and!; try done; [cbn; rewrite length_app; cbn; lia|]. by left.
Qed.

Lemma rec_of_types x x' d o r : sd_key x' = sd_key x -> sd_val x' = sd_val x -> rec_of x d o r -> rec_of x' d o r.
Proof. intros EK EV. destruct o; try done; cbn; unfold put_record, del_record; by rewrite EK, ?EV. Qed.

Lemma batched_run l recs S d x : sp_dbs S !! d = Some x -> Forall2 (rec_of x d) l recs -> Forall (rec_fine x) recs ->
  Z.of_nat (length (sd_pend x) + length recs) < 2 ^ 31 -> sp_timer S = Some d \/ sd_pend x = [] ->
  exists rs S' x', jops_ok l S /\ spec_jops l S = Ok (rs, S') /\ sp_dbs S' = <[d := x']> (sp_dbs S) /\
    apply_all (sd_pend x') (sd_fam x') = apply_all (sd_pend x ++ recs) (sd_fam x) /\
    (sp_timer S' = Some d \/ sd_pend x' = []).
Proof.
  intros Hx Hl. revert S x Hx Hl. revert recs. induction l as [|o l IH]; intros recs S x Hx Hl HF Hn Ht.
  - inversion Hl; subst. exists [], S, x. rewrite app_nil_r, insert_id by done. by split_and!.
  - inversion Hl as [|? r ? recs' Ho Hl']; subst. apply Forall_cons in HF as [Hr HF]. cbn [length] in Hn.
    destruct (spec_batch_at S d r x) as (x1 & E1 & EK & EV & Hlen & HA & Ht1). pose proof (rec_of_step _ _ _ _ _ Hx Ho) as Es.
    destruct (IH recs' (spec_batch d r x S) x1) as (rs & S' & x' & Hok & E & Ed & HA' & Ht').
    + rewrite E1. apply lookup_insert_eq.
    + eapply Forall2_impl; [exact Hl'|]. intros. by eapply rec_of_types.
    + eapply Forall_impl; [exact HF|]. unfold rec_fine. by rewrite EV.
    + lia.
    + done.
    + exists (JsReturn v_undefined :: rs), S', x'. split; [|split; [|split; [|split; [|done]]]].
      * split; [eapply rec_of_ok; try done; lia|]. rewrite Es. by intros ? ? [= <- <-].
      * cbn. rewrite Es. cbn. by rewrite E.
      * by rewrite Ed, E1, insert_insert_eq.
      * rewrite HA', !apply_all_app, HA, apply_all_app. done.
Qed.

(** ** The timer *)
Lemma jops_ok_app l l' S : jops_ok l S -> (forall rs S', spec_jops l S = Ok (rs, S') -> jops_ok l' S') -> jops_ok (l ++ l') S.
Proof.
  revert S. induction l as [|o l IH]; intros S Hl Hl'; [by apply (Hl' [] S)|]. destruct Hl as [Ho Hl]. split; [done|].
  intros r S1 E. apply IH; [by eapply Hl|]. intros rs S' E'. apply (Hl' (r :: rs)). cbn. rewrite E. cbn. by rewrite E'.
Qed.

Lemma spec_jops_app l l' S rs S1 rs' S2 :
  spec_jops l S = Ok (rs, S1) -> spec_jops l' S1 = Ok (rs', S2) -> spec_jops (l ++ l') S = Ok (rs ++ rs', S2).
Proof.
  revert S rs. induction l as [|o l IH]; intros S rs E E'; [injection E as <- <-; done|]. cbn in *.
  destruct (spec_jop o S) as [[v S']|]; [|done]. cbn in *. destruct (spec_jops l S') as [[vs S3]|] eqn:E3; [|done].
  injection E as <- <-. by rewrite (IH _ _ E3 E').
Qed.

Lemma ticks_ok n S : jops_ok (replicate n JTick) S.
Proof. revert S. induction n as [|n IH]; intros S; [done|]. by split; [done|intros]. Qed.

Lemma ticks_idle n S : sp_timer S = None -> exists rs S', spec_jops (replicate n JTick) S = Ok (rs, S') /\ sp_timer S' = None /\ sp_dbs S' = sp_dbs S.
Proof.
  revert S. induction n as [|n IH]; intros S HS; [by exists [], S|]. cbn. rewrite HS.
  destruct (IH (JSpec (sp_dbs S) None) eq_refl) as (rs & S' & -> & HT & HD). by do 2 eexists.
Qed.

(** C16. When only one [Db] object batches and no engine call fails, everything
    it batched is written once the timer has run out: after any batchPut and
    batchDel calls on it, with no call of another [Db] among them, and one run
    of the timer, all of its records are in the store, in the order of the
    calls, and nothing waits. *)
Theorem autoflush_alone l recs st s S d x :
  js_rel st s S -> sp_dbs S !! d = Some x -> sp_timer S = Some d \/ sd_pend x = [] ->
  Forall2 (rec_of x d) l recs -> Forall (rec_fine x) recs -> Z.of_nat (length (sd_pend x) + length recs) < 2 ^ 31 ->
  wpm LSM_sure (fun _ => False) (exec_jops (l ++ [JTick])) st s (fun rs st' s' => exists S' x',
    js_rel st' s' S' /\ sp_dbs S' !! d = Some x' /\
    sd_pend x' = [] /\ sd_fam x' = apply_all (sd_pend x ++ recs) (sd_fam x)).
Proof.
  intros HR Hx Ht Hl HF Hn. destruct (batched_run l recs S d x Hx Hl HF Hn Ht) as (rs & S1 & x1 & Hok & E & Ed & HA & Ht1).
  eapply wpm_mono; [apply (exec_jops_ok (l ++ [JTick]) st s S HR)|].
  { apply jops_ok_app; [done|]. intros rs' S' _. split; [done|by intros]. }
  intros rs' st' s' (S' & E' & HR'). erewrite spec_jops_app in E'; [|exact E|reflexivity]. injection E' as _ <-.
  exists (match sp_timer S1 with Some d => JSpec (match sp_dbs S1 !! d with Some x => <[d := sd_flush x]> (sp_dbs S1) | None => sp_dbs S1 end) None | None => JSpec (sp_dbs S1) None end), (sd_flush x1).
  split; [exact HR'|]. split; [|split; [done|exact HA]].
  assert (Hx1 : sp_dbs S1 !! d = Some x1) by (rewrite Ed; apply lookup_insert_eq).
  assert (Hid : sd_pend x1 = [] -> sd_flush x1 = x1) by (destruct x1; cbn; by intros ->).
  destruct (sp_timer S1) as [d1|]; [|destruct Ht1 as [[=]|Hp]; cbn; by rewrite Hid].
  destruct (decide (d1 = d)) as [->|Hne]; [rewrite Hx1; apply lookup_insert_eq|].
  destruct Ht1 as [[= ->]|Hp]; [done|]. rewrite Hid by done. cbn. destruct (sp_dbs S1 !! d1); [by rewrite lookup_insert_ne|done].
Qed.

(** C17. But the timer is one for all [Db] objects of a library: when a second
    [Db] batches before it runs out, neither batch being full and no engine call
    failing, the record of the first is not written by that or any later run of
    the timer if only such runs follow - it stays in its batch - while that of
    the second is. *)
Theorem autoflush_shared o o' r r' st s S d d' x x' n :
  js_rel st s S -> d <> d' -> sp_dbs S !! d = Some x -> sp_dbs S !! d' = Some x' ->
  rec_of x d o r -> rec_of x' d' o' r' -> rec_fine x r -> rec_fine x' r' -> full (sd_add r x) = false -> full (sd_add r' x') = false ->
  Z.of_nat (length (sd_pend x)) + 1 < 2 ^ 31 -> Z.of_nat (length (sd_pend x')) + 1 < 2 ^ 31 ->
  wpm LSM_sure (fun _ => False) (exec_jops ([o; o'] ++ replicate (1 + n) JTick)) st s (fun rs st' s' => exists S',
    js_rel st' s' S' /\ sp_timer S' = None /\
    sp_dbs S' !! d = Some (sd_add r x) /\ sp_dbs S' !! d' = Some (sd_flush (sd_add r' x'))).
Proof.
  intros HR Hne Hx Hx' Ho Ho' Hr Hr' Hf Hf' Hn Hn'.
  pose proof (rec_of_step _ _ _ _ _ Hx Ho) as E1. unfold spec_batch in E1. rewrite Hf in E1.
  set (S1 := JSpec (<[d := sd_add r x]> (sp_dbs S)) (Some d)) in *.
  assert (Hx1 : sp_dbs S1 !! d' = Some x') by (cbn; by rewrite lookup_insert_ne).
  pose proof (rec_of_step _ _ _ _ _ Hx1 Ho') as E2. unfold spec_batch in E2. rewrite Hf' in E2.
  set (S2 := JSpec (<[d' := sd_add r' x']> (sp_dbs S1)) (Some d')) in *.
  set (S3 := JSpec (<[d' := sd_flush (sd_add r' x')]> (sp_dbs S2)) None).
  assert (E3 : spec_jop JTick S2 = Ok (JsReturn v_undefined, S3)) by (cbn; by rewrite lookup_insert_eq).
  destruct (ticks_idle n S3 eq_refl) as (rs & S4 & E4 & HT & HD).
  eapply wpm_mono; [apply (exec_jops_ok ([o; o'] ++ replicate (1 + n) JTick) st s S HR)|].
  { split; [exact (rec_of_ok x d o r S Hx Ho Hr Hn)|]. rewrite E1. intros ? ? [= <- <-].
    split; [exact (rec_of_ok x' d' o' r' S1 Hx1 Ho' Hr' Hn')|]. rewrite E2.
    intros ? ? [= <- <-]. apply (ticks_ok (1 + n)). }
  intros rs' st' s' (S' & E' & HR'). exists S4.
  assert (S' = S4) as ->.
  { cbn [app replicate Nat.add spec_jops] in E'. rewrite E1 in E'. cbn [mbind res_bind snd fst] in E'.
    rewrite E2 in E'. cbn [mbind res_bind snd fst] in E'. rewrite E3 in E'. cbn [mbind res_bind snd fst] in E'. rewrite E4 in E'.
    cbn [mbind res_bind snd fst] in E'. congruence. }
  split; [done|]. split; [done|]. rewrite HD. split; cbn; [|by rewrite lookup_insert_eq].
  rewrite !lookup_insert_ne by done. apply lookup_insert_eq.
Qed.
End Claims.

(** ** An example: two [Db] objects of strings on LevelDB *)
Module Demo.
#[local] Existing Instance SimpleV8.

Definition fam : fam_st := Fam 0 (lvl_comparator Str) [].
Definition heap : lheap :=
  lup_batch <[1%nat := LBatch WriteBatch]> (lup_batch <[0%nat := LBatch WriteBatch]>
    (lup_db <[1%nat := LDB Str Str (Some 2%nat) None]> (lup_db <[0%nat := LDB Str Str (Some 1%nat) None]> lheap0))).
Definition lsm2 : lsm := up_dbs <[2%nat := LDb [fam] None]> (up_dbs <[1%nat := LDb [fam] None]> lsm0).
Definition opt : @jopt SimpleV8 := JOpt (Some (lit "n")) (Some (lit "string")) (Some (lit "string")) None SUndefined None.
Definition objs : gmap nat bstate := <[1%nat := BSt Str Str 1 fam []]> {[0%nat := BSt Str Str 0 fam []]}.
Definition st : @jstate SimpleV8 LevelBackend LastCall :=
  @JState SimpleV8 LevelBackend LastCall
    (<[1%nat := JDb Str Str 1 1 (Some 64) opt]> {[0%nat := JDb Str Str 0 0 (Some 64) opt]})
    (<[1%nat := JBatch 1 1 0]> {[0%nat := JBatch 0 0 0]}) ∅ None heap.
Definition sdb0 : sdb := SDb Str Str (Some 64) fam [].
Definition spec : jspec := JSpec (<[1%nat := sdb0]> {[0%nat := sdb0]}) None.

Lemma inv : lvl_inv heap lsm2.
Proof.
  apply (inv_batch _ _ _ _ []); [|exists 0; exact batch_is_empty]. apply (inv_batch _ _ _ _ []); [|exists 0; exact batch_is_empty].
  apply (inv_new_db Str Str 1 2 None []).
  - apply (inv_new_db Str Str 0 1 None []); [apply inv_0|apply lookup_empty|apply lookup_empty|split; constructor|done].
  - cbn. by rewrite lookup_insert_ne.
  - cbn. by rewrite lookup_insert_ne.
  - split; constructor.
  - done.
Qed.

Lemma objs_inv i x : objs !! i = Some x -> i = 0%nat /\ x = BSt Str Str 0 fam [] \/ i = 1%nat /\ x = BSt Str Str 1 fam [].
Proof. unfold objs. intros [[<- <-]|[_ [<- <-]%lookup_singleton_Some]]%lookup_insert_Some; auto. Qed.

Lemma holds : level_holds heap lsm2 objs.
Proof.
  split; [exact inv|]. split.
  - intros i i' x x' [[-> ->]|[-> ->]]%objs_inv [[-> ->]|[-> ->]]%objs_inv; cbn; done.
  - assert (W : store_wf (f_cmp fam) None (f_data fam)) by (split; constructor).
    intros i x [[-> ->]|[-> ->]]%objs_inv; (split; [|split; [by intros k v Hin%elem_of_nil|split; [|constructor]]]).
    + exists (LDB Str Str (Some 1%nat) None), 1%nat. split; [split; [cbn; by rewrite lookup_insert_ne|done]|].
      split; [done|]. split; [|done]. cbn. by rewrite lookup_insert_ne.
    + exists (LBatch WriteBatch). split; [cbn; by rewrite lookup_insert_ne|]. exists 0. exact batch_is_empty.
    + exists (LDB Str Str (Some 2%nat) None), 2%nat. split; [split; [cbn; by rewrite lookup_insert_eq|done]|].
      split; [done|]. split; [|done]. cbn. by rewrite lookup_insert_eq.
    + exists (LBatch WriteBatch). split; [cbn; by rewrite lookup_insert_eq|]. exists 0. exact batch_is_empty.
Qed.

Lemma spec_inv d z : sp_dbs spec !! d = Some z -> (d = 0%nat \/ d = 1%nat) /\ z = sdb0.
Proof. cbn. intros [[<- <-]|[_ [<- <-]%lookup_singleton_Some]]%lookup_insert_Some; auto. Qed.

Lemma rel : js_rel st lsm2 spec.
Proof.
  split; [reflexivity|]. split; [done|]. exists objs. split; [exact holds|]. split.
  - intros d d' x x' Hne [z Hz] [z' Hz']. apply spec_inv in Hz as [Hd _]. apply spec_inv in Hz' as [Hd' _].
    destruct Hd as [-> | ->], Hd' as [-> | ->]; try done; cbn.
    + rewrite lookup_insert_ne, lookup_singleton_eq, lookup_insert_eq by done. by intros [= <-] [= <-].
    + rewrite lookup_insert_eq, lookup_insert_ne, lookup_singleton_eq by done. by intros [= <-] [= <-].
  - intros d z [Hd ->]%spec_inv. destruct Hd as [-> | ->].
    + exists (JDb Str Str 0 0 (Some 64) opt), (JBatch 0 0 0). cbn. by rewrite !lookup_insert_ne by done.
    + exists (JDb Str Str 1 1 (Some 64) opt), (JBatch 1 1 0). cbn. by rewrite !lookup_insert_eq.
Qed.

Definition put0 : @jop SimpleV8 := @JBatchPut SimpleV8 0 (SStr (lit "k")) (SStr (lit "v")).
Definition put1 : @jop SimpleV8 := @JBatchPut SimpleV8 1 (SStr (lit "a")) (SStr (lit "b")).
Definition rec0 : record := RPut (lit "k" ++ [NUL]) (lit "v" ++ [NUL]).
Definition rec1 : record := RPut (lit "a" ++ [NUL]) (lit "b" ++ [NUL]).

Lemma of0 : rec_of sdb0 0 put0 rec0.
Proof. split; [reflexivity|]. vm_compute. reflexivity. Qed.
Lemma of1 : rec_of sdb0 1 put1 rec1.
Proof. split; [reflexivity|]. vm_compute. reflexivity. Qed.

Lemma fine r : r = rec0 \/ r = rec1 -> rec_fine sdb0 r.
Proof. intros [-> | ->]; (split; [split; vm_compute; reflexivity|]); eexists; vm_compute; reflexivity. Qed.
End Demo.


Lemma autoflush_alone_witness :
  wpm LSM_sure (fun _ => False) (exec_jops ([Demo.put0] ++ [JTick])) Demo.st Demo.lsm2 (fun rs st' s' => exists S' x',
    js_rel st' s' S' /\ sp_dbs S' !! 0%nat = Some x' /\
    sd_pend x' = [] /\ sd_fam x' = apply_all (sd_pend Demo.sdb0 ++ [Demo.rec0]) (sd_fam Demo.sdb0)).
Proof.
  apply (@autoflush_alone SimpleV8 LevelBackend LevelLaws LastCall LastCall_laws _ _ Demo.st Demo.lsm2 Demo.spec 0 Demo.sdb0 Demo.rel eq_refl).
  - right. reflexivity.
  - constructor; [exact Demo.of0|constructor].
  - constructor; [exact (Demo.fine _ (or_introl eq_refl))|constructor].
  - reflexivity.
Defined.

Lemma autoflush_shared_witness :
  wpm LSM_sure (fun _ => False) (exec_jops ([Demo.put0; Demo.put1] ++ replicate (1 + 9) JTick)) Demo.st Demo.lsm2 (fun rs st' s' => exists S',
    js_rel st' s' S' /\ sp_timer S' = None /\
    sp_dbs S' !! 0%nat = Some (sd_add Demo.rec0 Demo.sdb0) /\ sp_dbs S' !! 1%nat = Some (sd_flush (sd_add Demo.rec1 Demo.sdb0))).
Proof.
  apply (@autoflush_shared SimpleV8 LevelBackend LevelLaws LastCall LastCall_laws _ _ _ _ Demo.st Demo.lsm2 Demo.spec 0 1 Demo.sdb0 Demo.sdb0 9 Demo.rel);
    [discriminate|reflexivity|reflexivity|exact Demo.of0|exact Demo.of1|exact (Demo.fine _ (or_introl eq_refl))|exact (Demo.fine _ (or_intror eq_refl))|reflexivity..].
Defined.
