(* ===== verification/JsLmdb.v ===== *)
(** * lib/lmdb

    The classes [Env], [Db], [Txn] and [Cursor] of lib/lmdb around the native
    objects.  An [Env] keeps the operations of [batchPut] and [batchDel] of all
    its databases in one list, which [flushBatchOps] executes in one write
    transaction.  A [Txn] has a single field, its native object, and is known by
    it; the same holds for the native object of an [Env]. *)
From S2P Require Import Prelude Nan KvTypes Exports JsSanitize Prog JsMeth Store LmdbApi.
From S2P Require Import LmdbObjects LmdbEnv LmdbTxn LmdbDb LmdbCursor LsmApi JsLib.

Section Lib.
Context `{V : V8} `{Libc} `{D : Debounce}.

(** ** Objects *)

(** What [_pushBatch] is given: [exec] is a put of [op_val], or a del. *)
Record lop := LOp { op_K : kv_type; op_V : kv_type; op_db : nat; op_key : value; op_val : option value }.

Record jlopt := JLOpt {
  lo_name : option bytes; lo_keyType : option bytes; lo_valueType : option bytes; lo_valType : option bytes; lo_allowDup : value }.

(** [_batchSize] is [None] when it is NaN. *)
Record jlenv := JLEnv { le_env : nat; le_dir : bytes; le_dbs : object nat; le_ops : list lop; le_size : option Z }.

Record jldb := JLDb { ld_env : nat; ld_key : kv_type; ld_val : kv_type; ld_db : nat; ld_opt : jlopt }.
Record jlcur := JLCur { lc_K : kv_type; lc_V : kv_type; lc_cur : nat }.

Record jl := JL {
  jl_envs : gmap nat jlenv; jl_dbs : gmap nat jldb; jl_curs : gmap nat jlcur; jl_timer : deb; jl_native : heap }.

Definition up_lenv (e : nat) (x : jlenv) (s : jl) : jl :=
  JL (<[e := x]> (jl_envs s)) (jl_dbs s) (jl_curs s) (jl_timer s) (jl_native s).
Definition up_ldb (d : nat) (x : jldb) (s : jl) : jl :=
  JL (jl_envs s) (<[d := x]> (jl_dbs s)) (jl_curs s) (jl_timer s) (jl_native s).
Definition up_lcur (c : nat) (x : jlcur) (s : jl) : jl :=
  JL (jl_envs s) (jl_dbs s) (<[c := x]> (jl_curs s)) (jl_timer s) (jl_native s).
Definition up_ltimer (t : deb) (s : jl) : jl := JL (jl_envs s) (jl_dbs s) (jl_curs s) t (jl_native s).
Definition up_lnative (h : heap) (s : jl) : jl := JL (jl_envs s) (jl_dbs s) (jl_curs s) (jl_timer s) h.

Definition set_ops (l : list lop) (x : jlenv) : jlenv := JLEnv (le_env x) (le_dir x) (le_dbs x) l (le_size x).
Definition set_size (n : option Z) (x : jlenv) : jlenv := JLEnv (le_env x) (le_dir x) (le_dbs x) (le_ops x) n.
Definition set_dbs (o : object nat) (x : jlenv) : jlenv := JLEnv (le_env x) (le_dir x) o (le_ops x) (le_size x).

Definition L (A : Type) : Type := jm mdb_call jl A.

Notation "'jlet' x ':=' m 'in' k" := (jbind m (fun x => k)) (at level 10, x name, k at level 200).
Notation "m ';>' k" := (jbind m (fun _ => k)) (at level 100, k at level 200, right associativity).

Definition lnative (m : lmeth info) : L value := call_native jl_native up_lnative m.
Definition the_lenv (e : nat) : L jlenv := jget (fun s => jl_envs s !! e).
Definition the_ldb (d : nat) : L jldb := jget (fun s => jl_dbs s !! d).
Definition the_lcur (c : nat) : L jlcur := jget (fun s => jl_curs s !! c).

(** ** Txn *)
Definition Txn_ctor (t env : nat) (readonly : bool) : L unit := lnative (txn_ctor t env (v_bool readonly)) ;> jret tt.
Definition Txn_commit (t : nat) : L unit := lnative (txn_commit t) ;> jret tt.
Definition Txn_abort (t : nat) : L unit := lnative (txn_abort t) ;> jret tt.
Definition Txn_reset (t : nat) : L unit := lnative (txn_reset t) ;> jret tt.
Definition Txn_renew (t : nat) : L unit := lnative (txn_renew t) ;> jret tt.

(** ** Env *)

(** [parseInt(opt.batchSize) || 64] *)
Definition env_batch_size (v : value) : option Z :=
  match parseInt (utf8 v) with Some z => if z =? 0 then Some 64 else Some z | None => Some 64 end.

(** The directory is made before [env.open]. *)
Definition LEnv_ctor (e en : nat) (dir : bytes) (mapSize maxDbs batchSize : value) : L unit :=
  lnative (env_ctor en) ;>
  lnative (env_setMapSize en (or_value mapSize (new_number (128 * 1024 * 1024)))) ;>
  lnative (env_setMaxDbs en (or_value maxDbs (new_number 32))) ;>
  lnative (env_open en (new_string dir)) ;>
  jset (up_lenv e (JLEnv en dir [] [] (env_batch_size batchSize))).

(** A new native object. *)
Definition new_txn_id (s : jl) : nat := fresh (base.dom (h_txn (jl_native s)) : gset nat).

Definition LEnv_beginTxn (e : nat) (readonly : bool) : L nat :=
  jlet x := the_lenv e in
  jlet t := jget (fun s => Some (new_txn_id s)) in
  Txn_ctor t (le_env x) readonly ;>
  jret t.

(** [op.exec(txn)]: the del of a batch hands the transaction over in the place
    of the value. *)
Definition op_exec (t : nat) (o : lop) : L value :=
  lnative (match op_val o with
           | Some v => db_put (op_K o) (op_V o) (op_db o) (op_key o) v (Some t)
           | None => db_del (op_K o) (op_V o) (op_db o) (op_key o) (v_object t) None
           end).

Fixpoint exec_all (t : nat) (l : list lop) : L unit :=
  match l with
  | [] => jret tt
  | o :: l' => op_exec t o ;> exec_all t l'
  end.

(** [s.indexOf(t) >= 0] *)
Fixpoint contains (t s : bytes) : bool :=
  bool_decide (t `prefix_of` s) || match s with [] => false | _ :: s' => contains t s' end.

(** [onfull] is set by the owner of the [Env], or not. *)
Context (onfull : nat -> option (list lop -> L unit)).

Definition LEnv_flushBatchOps (e : nat) : L unit :=
  jlet x := the_lenv e in
  match le_ops x with
  | [] => jret tt
  | ops =>
      jlet t := LEnv_beginTxn e false in
      jcatch (exec_all t ops ;> Txn_commit t) (fun msg =>
        jcatch (Txn_abort t) (fun _ => jret tt) ;>
        match onfull e with
        | Some f => if contains (lit "MDB_MAP_FULL") msg then f ops else jthrow msg
        | None => jthrow msg
        end) ;>
      jlet y := the_lenv e in
      jset (up_lenv e (set_ops [] y))
  end.

(** As in the other libraries, one debounced function serves every [Env]. *)
Definition LEnv_autoFlush (e : nat) : L unit := jset (fun s => up_ltimer (deb_call e (jl_timer s)) s).

Definition LEnv_tick : L unit := fun s =>
  let r := deb_fire (jl_timer s) in
  match fst r with
  | Some e => LEnv_flushBatchOps e (up_ltimer (snd r) s)
  | None => Ret (Value tt, up_ltimer (snd r) s)
  end.

Definition LEnv_pushBatch (e : nat) (o : lop) : L lop :=
  jlet x := the_lenv e in
  let ops := le_ops x ++ [o] in
  jset (up_lenv e (set_ops ops x)) ;>
  (if (match le_size x with Some n => Z.of_nat (length ops) >=? n | None => false end)
   then LEnv_flushBatchOps e else LEnv_autoFlush e) ;>
  jret o.

(** [num] is [None] when it is not a number, and [Some None] for NaN, which is
    one. *)
Definition LEnv_setBatchSize (e : nat) (num : option (option Z)) : L unit :=
  match num with
  | None => jthrow (lit "LMDB env: setBatchSize must have a number param.")
  | Some n =>
      jlet x := the_lenv e in
      let n' := Z.min 256 <$> n in
      jset (up_lenv e (set_size n' x)) ;>
      (if (match n' with Some n => Z.of_nat (length (le_ops x)) >? n | None => false end)
       then LEnv_flushBatchOps e else jret tt)
  end.

Definition LEnv_sync (e : nat) (cb : option nat) : L unit :=
  match cb with
  | None => jthrow (lit "LMDB env: sync Must have a callbck to sync LMDB env.")
  | Some cb => jlet x := the_lenv e in lnative (env_sync (le_env x) cb) ;> jret tt
  end.

(** ** Db *)
Definition ltypes_name (prefix : bytes) (o : jlopt) : bytes :=
  join_name prefix (default [] (lo_keyType o)) (default [] (or_str (lo_valueType o) (lo_valType o))).

Definition LDb_ctor (d i e : nat) (o : jlopt) (name : bytes) : L unit :=
  match binding_class Lmdb (ltypes_name (lit "DB") o) with
  | None => jthrow (lit "Unsupported db key/value types.")
  | Some t =>
      match n_class (tpl_ctor t) with
      | CDb K V =>
          jlet x := the_lenv e in
          lnative (db_ctor K V i (le_env x) (Some (new_string name, lo_allowDup o))) ;>
          jset (up_ldb d (JLDb e K V i o))
      | _ => jthrow (lit "Unsupported db key/value types.")
      end
  end.

Definition LEnv_openDb (d i e : nat) (o : jlopt) : L unit :=
  match lo_name o with
  | Some (b :: s) =>
      let name := b :: s in
      jlet x := the_lenv e in
      if (match obj_get name (le_dbs x) with Some _ => true | None => bool_decide (name ∈ proto_names) end)
      then jthrow (lit "LMDB env: db[" ++ name ++ lit "] is already opened.")
      else
        LDb_ctor d i e o name ;>
        jlet y := the_lenv e in
        jset (up_lenv e (set_dbs (obj_set name d (le_dbs y)) y))
  | _ => jthrow (lit "LMDB env: openDb requires db name.")
  end.

Definition LDb_close (d : nat) : L unit :=
  jlet x := the_ldb d in
  lnative (db_close (ld_key x) (ld_val x) (ld_db x)) ;> jret tt.

(** [txn && txn._txn] is [None] when there is no transaction. *)
Definition LDb_get (d : nat) (key : value) (txn : option nat) : L value :=
  jlet x := the_ldb d in
  jlet k := jx (sanitize (ld_key x) key) in
  lnative (db_get (ld_key x) (ld_val x) (ld_db x) k txn).

Definition LDb_exists (d : nat) (key val : value) (txn : option nat) : L value :=
  jlet x := the_ldb d in
  jlet k := jx (sanitize (ld_key x) key) in
  jlet v := jx (sanitize (ld_val x) val) in
  lnative (db_exists (ld_key x) (ld_val x) (ld_db x) k v txn).

Definition LDb_put (d : nat) (key val : value) (txn : option nat) : L value :=
  jlet x := the_ldb d in
  jlet k := jx (sanitize (ld_key x) key) in
  jlet v := jx (sanitize (ld_val x) val) in
  lnative (db_put (ld_key x) (ld_val x) (ld_db x) k v txn).

(** A parameter that is not given is [undefined]. *)
Definition LDb_del (d : nat) (key : value) (txn : option nat) (val : option value) : L value :=
  jlet x := the_ldb d in
  jlet k := jx (sanitize (ld_key x) key) in
  jlet v := jx (sanitize (ld_val x) (default v_undefined val)) in
  lnative (db_del (ld_key x) (ld_val x) (ld_db x) k v txn).

Definition LDb_delDup (d : nat) (key val : value) (txn : option nat) : L value := LDb_del d key txn (Some val).

Definition LDb_batchPut (d : nat) (key val : value) : L lop :=
  jlet x := the_ldb d in
  jlet k := jx (sanitize (ld_key x) key) in
  jlet v := jx (sanitize (ld_val x) val) in
  LEnv_pushBatch (ld_env x) (LOp (ld_key x) (ld_val x) (ld_db x) k (Some v)).

Definition LDb_batchDel (d : nat) (key : value) : L lop :=
  jlet x := the_ldb d in
  jlet k := jx (sanitize (ld_key x) key) in
  LEnv_pushBatch (ld_env x) (LOp (ld_key x) (ld_val x) (ld_db x) k None).

(** ** Closing an Env

    The first part runs at once; the callback of [sync] closes the native
    object later.  [has_debug] says whether the console has a method [debug]. *)
Fixpoint close_all (l : list nat) : L unit :=
  match l with
  | [] => jret tt
  | d :: l' => LDb_close d ;> close_all l'
  end.

Definition LEnv_close (has_debug : bool) (e cb : nat) : L unit :=
  if has_debug then
    jlet x := the_lenv e in
    close_all (snd <$> le_dbs x) ;>
    lnative (env_sync (le_env x) cb) ;> jret tt
  else jthrow (lit "console.debug is not a function").

Definition LEnv_close_synced (en : nat) : L unit := lnative (env_close en) ;> jret tt.

(** ** Cursor *)
Definition LCursor_ctor (c cn d : nat) (txn : option nat) : L unit :=
  match txn with
  | None => jthrow (lit "LMDB_cursor: Invalid txn param.")
  | Some t =>
      jlet x := the_ldb d in
      match n_class ∘ tpl_ctor <$> binding_class Lmdb (ltypes_name (lit "Cursor") (ld_opt x)) with
      | Some (CCursor K V) =>
          lnative (cursor_ctor K V cn (ld_db x) t) ;>
          jset (up_lcur c (JLCur K V cn))
      | _ => jthrow (lit "Unsupported cursor key/value types, this should not happen.")
      end
  end.

Definition LDb_cursor (d c cn : nat) (txn : option nat) : L unit := LCursor_ctor c cn d txn.

(** The methods that are forwarded without arguments; of the names given to
    [delegate], two are not on the native prototype. *)
Inductive lcur_fn := LKey | LVal | LClose | LDel | LNext | LPrev | LNextDup | LPrevDup | LFirst | LLast | LFirstDup | LLastDup.

Definition LCursor_call (fn : lcur_fn) (c : nat) : L value :=
  jlet x := the_lcur c in
  let K := lc_K x in let V := lc_V x in let i := lc_cur x in
  match fn with
  | LKey => lnative (cursor_key K V i)
  | LVal => lnative (cursor_value K V i)
  | LClose => lnative (cursor_close K V i)
  | LDel => lnative (cursor_del K V i)
  | LNext => lnative (cursor_next K V i)
  | LPrev => lnative (cursor_prev K V i)
  | LNextDup => lnative (cursor_nextDup K V i)
  | LPrevDup => lnative (cursor_prevDup K V i)
  | LFirst => lnative (cursor_first K V i)
  | LLast => lnative (cursor_last K V i)
  | LFirstDup | LLastDup => jthrow (lit "undefined is not a function")
  end.

(** [val] is [None] when one argument is given. *)
Definition LCursor_seek (c : nat) (key : value) (val : option value) : L value :=
  jlet x := the_lcur c in
  jlet k := jx (sanitize (lc_K x) key) in
  match val with
  | None => lnative (cursor_seek (lc_K x) (lc_V x) (lc_cur x) [k])
  | Some v => jlet v := jx (sanitize (lc_V x) v) in lnative (cursor_seek (lc_K x) (lc_V x) (lc_cur x) [k; v])
  end.

Definition LCursor_gte (c : nat) (key : value) (val : option value) : L value :=
  jlet x := the_lcur c in
  jlet k := jx (sanitize (lc_K x) key) in
  match val with
  | None => lnative (cursor_gte (lc_K x) (lc_V x) (lc_cur x) [k])
  | Some v => jlet v := jx (sanitize (lc_V x) v) in lnative (cursor_gte (lc_K x) (lc_V x) (lc_cur x) [k; v])
  end.
End Lib.
