(* ===== verification/JsLmdbSpec.v ===== *)
(** * What callers of lib/lmdb get

    The batches of an [Env]: one flush is one transaction, done as a whole or,
    with an exception, not at all; and two calls that cannot work. *)
From S2P Require Import Prelude Nan KvTypes Exports JsSanitize Prog JsMeth Store LmdbApi LmdbEngine LmdbObjects LmdbEnv LmdbTxn.
From S2P Require Import LmdbDb LmdbCursor LmdbInv LmdbSystem LmdbSafety LmdbSafetyDb LmdbSafetyRun LmdbSpec JsLib JsLmdb.

(** ** The databases of an environment *)
Section Native.
Context `{V : V8} `{Libc}.

(** The native environment [eo] is open, no transaction object is open on it,
    and its databases are [m]. *)
Definition env_is (g : gset nat) (h : heap) (s : lmdb) (eo : nat) (m : gmap nat db_st) : Prop :=
  quiet g h s /\ exists e ex, handle_of (h_env h) eo = Some e /\ no_open_txn h e /\
    envs s !! e = Some ex /\ env_opened ex = true /\ env_dbs ex = m.

(** The write transaction [j] is the only one open on it, and sees [v]. *)
Definition in_txn (g : gset nat) (h : heap) (s : lmdb) (eo j : nat) (m v : gmap nat db_st) : Prop :=
  quiet g h s /\ exists e ex tw t x, handle_of (h_env h) eo = Some e /\
    h_txn h !! j = Some tw /\ t_txn tw = Some t /\ t_env tw = Some e /\
    (forall j' w' t', j' <> j -> h_txn h !! j' = Some w' -> t_txn w' = Some t' -> t_env w' <> Some e) /\
    envs s !! e = Some ex /\ env_opened ex = true /\ env_dbs ex = m /\
    txns s !! t = Some x /\ txn_env x = e /\ txn_ro x = false /\ txn_dbs x = v /\ no_cursor_in s t.

(** The queued operation puts [k] and [v] into the database [dbi]. *)
Definition op_puts (g : gset nat) (h : heap) (eo : nat) (o : lop) (p : nat * bytes * bytes) : Prop :=
  exists w a, open_db g h (op_K o) (op_V o) (op_db o) w /\ d_env w = eo /\ d_dbi w = p.1.1 /\ op_val o = Some a /\
    kv_encode (op_K o) (op_key o) = Ok p.1.2 /\ kv_encode (op_V o) a = Ok p.2.

Definition put_one (p : nat * bytes * bytes) (m : gmap nat db_st) : gmap nat db_st :=
  alter (fun d => db_after_put d p.1.2 p.2) p.1.1 m.
(** The sizes of a put into one of the databases [m]. *)
Definition sized_in (sizes : bool -> bytes -> bytes -> Prop) (m : gmap nat db_st) (p : nat * bytes * bytes) : Prop :=
  forall d, m !! p.1.1 = Some d -> sizes (db_dup d) p.1.2 p.2.

Lemma sized_put_one sizes p q m : sized_in sizes m q -> sized_in sizes (put_one p m) q.
Proof.
  intros HS d. unfold put_one. rewrite lookup_alter. case_decide as E; [|apply HS]. rewrite E in *.
  destruct (m !! q.1.1) as [d'|] eqn:Hd; cbn; [|done]. intros [= <-]. by apply (HS d').
Qed.

Definition put_all (ps : list (nat * bytes * bytes)) (m : gmap nat db_st) : gmap nat db_st := foldl (flip put_one) m ps.

(** ** LMDB, with what is known of the calls that fail *)
Context (P : forall X, lmdb -> mdb_call X -> X -> Prop) (may_fail : Prop) (sizes : bool -> bytes -> bytes -> Prop).

Definition LMDB_with : api mdb_call :=
  Api lmdb mdb_allowed (fun X s c x s' => mdb_answers X s c x s' /\ renewals X s c x /\ P X s c x).

Hypothesis fail_begin : forall s e r, P _ s (mdb_txn_begin (Some e) None 0) r -> fst r <> 0 -> may_fail.
Hypothesis fail_commit : forall s t x rc, txns s !! t = Some x -> is_Some (envs s !! txn_env x) ->
  P _ s (mdb_txn_commit (Some t)) rc -> rc <> 0 -> may_fail.
Hypothesis fail_put : forall s t dbi k v x d rc, writable s t dbi = Some (x, d) -> sizes (db_dup d) k v ->
  P _ s (mdb_put (Some t) dbi k v 0) rc -> fails rc -> may_fail.

Local Abbreviation wpa := (wpm LMDB_with (fun _ => False)).

Lemma safe_with o g h s R : (forall u, ~ tolerated o u) -> quiet g h s -> disc g h s o ->
  wlp (fun X s c x s' => mdb_answers X s c x s' /\ renewals X s c x /\ P X s c x) (exec_op o) h s R ->
  wpa (exec_op o) h s (fun r h' s' => quiet (after o g h') h' s' /\ R r h' s').
Proof.
  intros HU HI HD HR. pose proof (every_op_safe o g h s HI HD) as HS.
  apply (wpu_stronger _ _ (fun X s c x s' => mdb_answers X s c x s' /\ renewals X s c x /\ P X s c x)) in HS; [|by intros ????? (? & ? & _)].
  eapply wpu_mono; [exact (wpm_wlp _ _ _ _ _ _ _ _ HS HR)|exact HU|]. by intros [r h'] s'.
Qed.

Lemma begin_with g h s eo j m : env_is g h s eo m -> h_txn h !! j = None -> BooleanValue (v_bool false) = false ->
  wpa (txn_ctor j eo (v_bool false)) h s (fun r h' s' =>
    (exists v, js r = JsReturn v) /\ in_txn g h' s' eo j m m /\ h_db h' = h_db h \/
    may_fail /\ (exists msg, js r = JsThrow msg) /\ env_is g h' s' eo m /\ h_db h' = h_db h).
Proof.
  intros (HI & e & ex & Hh & Hn & He & Ho & Hm) Hj Hb.
  assert (HD : disc g h s (TxnNew j eo (v_bool false))).
  { split; [done|]. exists e, ex. split; [by split_and!|]. intros _ j' w' t' Hj' Ht' _. by apply (Hn j' w' t'). }
  assert (exists ew, h_env h !! eo = Some ew /\ e_env ew = Some e) as (ew & Hew & Hewe).
  { unfold handle_of in Hh. destruct (h_env h !! eo) as [ew|]; [|done]. by exists ew. }
  eapply wpm_mono; [eapply (safe_with (TxnNew j eo (v_bool false)) g h s (fun r h' s' =>
     (exists v t, js r = JsReturn v /\ txns s !! t = None /\ h' = up_txn <[j := Txn false (Some t) (Some e)]> h /\ s' = upd_txn t (begun e false ex) s) \/
     may_fail /\ (exists msg, js r = JsThrow msg) /\ h' = h /\ s' = s) (fun u Hu => Hu) HI HD)|].
  - cbn [exec_op]. unfold txn_ctor. wstep. wstep. wstep. cbn [t_env t_readonly]. rewrite Hb, Hewe.
    wstep; [done|]. intros r s' (Ha & _ & HP). destruct Ha as [(t & eh & exh & -> & [= <-] & Hexh & Ht & _ & ->)|(Hf & _ & ->)].
    + assert (exh = ex) as -> by congruence. cbn. wstep. wstep. wstep. left. by do 2 eexists.
    + destruct r as [rc t]. cbn in Hf. rewrite (proj2 (Z.eqb_neq rc 0)) by done. wred. wstep.
      right. split; [by eapply fail_begin|]. split; [by eexists|done].
  - intros r h' s' [HQ [(v & t & Hr & Ht & -> & ->)|(Hf & Hr & -> & ->)]]; [left|right].
    + split; [by eexists|]. split; [|done]. split; [exact HQ|]. exists e, ex. do 3 eexists. cbn. split_and!; try done.
      * apply lookup_insert_eq.
      * done.
      * done.
      * intros j' w' t' Hne. rewrite lookup_insert_ne by done. apply Hn.
      * apply lookup_insert_eq.
      * done.
      * done.
      * done.
      * exact (fresh_no_cursor g h s t HI Ht).
    + split; [done|]. split; [done|]. split; [|done]. split; [done|]. by exists e, ex.
Qed.

Lemma put_with g h s eo j m v o p : in_txn g h s eo j m v -> op_puts g h eo o p -> is_Some (v !! p.1.1) -> sized_in sizes v p ->
  wpa (match op_val o with
       | Some a => db_put (op_K o) (op_V o) (op_db o) (op_key o) a (Some j)
       | None => db_del (op_K o) (op_V o) (op_db o) (op_key o) (v_object j) None
       end) h s (fun r h' s' => h' = h /\
    ((exists a, js r = JsReturn a) /\ in_txn g h s' eo j m (put_one p v) \/
     may_fail /\ (exists msg, js r = JsThrow msg) /\ in_txn g h s' eo j m v)).
Proof.
  intros (HI & e & ex & tw & t & x & Hh & Htw & Ht & Hte & Hn & He & Ho & Hm & Hx & Hxe & Hro & Hv & Hnc) (w & a & Hw & Ed & Ei & -> & Hk & Hb) [d Hd] HZ.
  specialize (HZ d Hd). destruct p as [[dbi k] b]. cbn in *. subst dbi. rewrite <- Hv in Hd.
  assert (HD : disc g h s (DbPut (op_K o) (op_V o) (op_db o) (op_key o) a (Some j))).
  { exists w. split; [done|]. split; [by exists k|]. split; [by exists b|]. split; [|by intros [=]].
    intros j' [= <-]. exists tw. split; [done|]. intros t' Ht'. congruence. }
  assert (Hwr : writable s t (d_dbi w) = Some (x, d)) by (unfold writable; rewrite Hx; cbn; by rewrite Hro, Hd).
  pose proof (open_db_unwrap _ _ _ _ _ _ Hw) as Hu. destruct (open_db_env _ _ _ _ _ _ _ _ _ _ HI Hw) as [ew Hew].
  eapply wpm_mono; [eapply (safe_with (DbPut (op_K o) (op_V o) (op_db o) (op_key o) a (Some j)) g h s (fun r h' s' => h' = h /\
     ((exists a, js r = JsReturn a) /\ txn_updated s t x (d_dbi w) (db_after_put d k b) s' \/
      may_fail /\ (exists msg, js r = JsThrow msg) /\ s' = s)) (fun u Hu => Hu) HI HD)|].
  - cbn [exec_op]. unfold db_put, get_kvdb. do 9 wstep. unfold scope_write. wstep. wstep. wstep. wstep. wred. cbn [ts_txn]. rewrite Ht.
    wstep; [done|]. intros rc s2 (Ha & _ & HP). cbn in Ha. rewrite Hwr in Ha. cbn in Ha. destruct Ha as [[-> Hup]|[Hf ->]].
    + wred. wstep. unfold scope_dtor. cbn [scope_commit ts_created]. wred. wstep. wstep. split; [done|]. left. by split; [eexists|].
    + rewrite (proj2 (Z.eqb_neq rc 0)) by apply Hf. wred. wstep. unfold scope_dtor. cbn [ts_created]. wred. wstep. wstep.
      split; [done|]. right. split; [by eapply fail_put|]. by split; [eexists|].
  - intros r h' s' (HQ & -> & [[Hr (Ee & Et & Hc)]|(Hf & Hr & ->)]); (split; [done|]); [left|right].
    + split; [done|]. split; [exact HQ|]. exists e, ex, tw, t. eexists. rewrite Ee, Et, lookup_insert_eq. split_and!; try done.
      * cbn. unfold put_one. cbn. rewrite Hv. apply map_eq. intros i. rewrite Hv in Hd.
        destruct (decide (i = d_dbi w)) as [->|]; [by rewrite lookup_insert_eq, lookup_alter_eq, Hd|by rewrite lookup_insert_ne, lookup_alter_ne].
      * intros c cu Hcu. specialize (Hc c). rewrite Hcu in Hc.
        destruct (curs s !! c) as [cu'|] eqn:Hcu'; [|done]. destruct Hc as (q & -> & _). by apply (Hnc c cu').
    + split; [done|]. split; [done|]. split; [exact HQ|]. by exists e, ex, tw, t, x.
Qed.

(** The end of the transaction; the object stays, closed. *)
Definition closed_txn (h : heap) (j : nat) : Prop := exists tw, h_txn h !! j = Some tw /\ t_txn tw = None.

Lemma end_disc g h s eo j m v (commit : bool) : in_txn g h s eo j m v -> disc g h s (if commit then TxnCommit j else TxnAbort j).
Proof.
  intros (HI & e & ex & tw & t & x & Hh & Htw & Ht & Hte & Hn & He & Ho & Hm & Hx & Hxe & Hro & Hv & Hnc).
  assert (exists w, h_txn h !! j = Some w /\ forall t, t_txn w = Some t -> cursors_closed h s t); [|by destruct commit].
  exists tw. split; [done|]. intros t' Ht' k cw c cu _ _ Hcu. assert (t' = t) as -> by congruence. by apply (Hnc c cu).
Qed.

Lemma env_after g h s eo j m v h' s' m' : in_txn g h s eo j m v ->
  (forall tw, h_txn h !! j = Some tw -> h' = up_txn <[j := set_txn None tw]> h) -> quiet g h' s' ->
  (forall e ex, handle_of (h_env h) eo = Some e -> envs s !! e = Some ex -> exists ex', envs s' !! e = Some ex' /\
     env_opened ex' = env_opened ex /\ env_dbs ex' = m') ->
  env_is g h' s' eo m' /\ closed_txn h' j /\ h_db h' = h_db h.
Proof.
  intros (HI & e & ex & tw & t & x & Hh & Htw & Ht & Hte & Hn & He & Ho & Hm & Hx & Hxe & Hro & Hv & Hnc) Hh' HQ HE.
  rewrite (Hh' tw Htw) in *. destruct (HE e ex Hh He) as (ex' & He' & Ho' & Hd'). split; [|split; [|done]].
  - split; [done|]. exists e, ex'. split_and!; try done; [|congruence].
    intros j' w' t'. cbn. destruct (decide (j' = j)) as [->|Hne]; [rewrite lookup_insert_eq; by intros [= <-]|].
    rewrite lookup_insert_ne by done. by apply Hn.
  - exists (set_txn None tw). split; [apply lookup_insert_eq|done].
Qed.

Lemma commit_with g h s eo j m v : in_txn g h s eo j m v ->
  wpa (txn_commit j) h s (fun r h' s' => h_db h' = h_db h /\ closed_txn h' j /\
    ((exists a, js r = JsReturn a) /\ env_is g h' s' eo v \/ may_fail /\ (exists msg, js r = JsThrow msg) /\ env_is g h' s' eo m)).
Proof.
  intros HB. pose proof (end_disc g h s eo j m v true HB) as HD.
  pose proof HB as (HI & e & ex & tw & t & x & Hh & Htw & Ht & Hte & Hn & He & Ho & Hm & Hx & Hxe & Hro & Hv & Hnc).
  eapply wpm_mono; [eapply (safe_with (TxnCommit j) g h s (fun r h' s' => h' = up_txn <[j := set_txn None tw]> h /\
     ((exists a, js r = JsReturn a) /\ (exists ex', envs s' !! e = Some ex' /\ env_opened ex' = env_opened ex /\ env_dbs ex' = v) \/
      may_fail /\ (exists msg, js r = JsThrow msg) /\ envs s' = envs s)) (fun u Hu => Hu) HI HD)|].
  - cbn [exec_op]. unfold txn_commit. wstep. wstep. rewrite Ht. wstep. wstep; [done|].
    intros rc s' ((y & Hy & Ha) & _ & HP). assert (y = x) as -> by congruence. rewrite Hro in Ha.
    destruct Ha as [(-> & ex' & Hex' & ->)|[Hf ->]].
    + wstep. wstep. wred. wstep. split; [done|]. left. split; [by eexists|]. assert (ex' = ex) as -> by congruence.
      eexists. cbn. rewrite Hxe. split; [apply lookup_insert_eq|]. by split.
    + wstep. wstep. rewrite (proj2 (Z.eqb_neq rc 0)) by done. wred. wstep. split; [done|]. right.
      split; [|by split; [eexists|]]. eapply fail_commit; [exact Hx|rewrite Hxe; by eexists|done|done].
  - intros r h' s' (HQ & -> & [[Hr (ex' & He' & Ho' & Hd')]|(Hf & Hr & Es)]).
    + destruct (env_after g h s eo j m v (up_txn <[j := set_txn None tw]> h) s' v HB) as (H1 & H2 & H3); [intros tw' ?; congruence|exact HQ| |auto 10].
      intros e' ex'' Hh' He''. assert (e' = e) as -> by congruence. assert (ex'' = ex) as -> by congruence. by exists ex'.
    + destruct (env_after g h s eo j m v (up_txn <[j := set_txn None tw]> h) s' m HB) as (H1 & H2 & H3); [intros tw' ?; congruence|exact HQ| |auto 10].
      intros e' ex'' Hh' He''. rewrite Es. exists ex''. split_and!; try done. congruence.
Qed.

Lemma abort_with g h s eo j m v : in_txn g h s eo j m v ->
  wpa (txn_abort j) h s (fun r h' s' => h_db h' = h_db h /\ env_is g h' s' eo m).
Proof.
  intros HB. pose proof (end_disc g h s eo j m v false HB) as HD.
  pose proof HB as (HI & e & ex & tw & t & x & Hh & Htw & Ht & Hte & Hn & He & Ho & Hm & Hx & Hxe & Hro & Hv & Hnc).
  eapply wpm_mono; [eapply (safe_with (TxnAbort j) g h s (fun r h' s' => h' = up_txn <[j := set_txn None tw]> h /\ envs s' = envs s) (fun u Hu => Hu) HI HD)|].
  - cbn [exec_op]. unfold txn_abort. wstep. wstep. rewrite Ht. wstep. wstep; [done|]. intros [] s' ((y & Hy & ->) & _). wstep. wstep. by wstep.
  - intros r h' s' (HQ & -> & Es). destruct (env_after g h s eo j m v (up_txn <[j := set_txn None tw]> h) s' m HB) as (H1 & H2 & H3); [intros tw' ?; congruence|exact HQ| |auto].
    intros e' ex'' Hh' He''. rewrite Es. exists ex''. split_and!; try done. congruence.
Qed.

(** [abort] of a closed transaction throws and changes nothing. *)
Lemma abort_closed h s j Q : closed_txn h j -> Q (throw_error TXN_CLOSED info0) h s -> wpa (txn_abort j) h s Q.
Proof. intros (tw & Htw & Ht) HQ. unfold txn_abort. wstep. wstep. rewrite Ht. by wstep. Qed.
End Native.

(** ** Batches of an Env *)
Section Batch.
Context `{V : V8} `{Libc} `{L : !V8Laws V} `{D : Debounce}.
Context (onfull : nat -> option (list lop -> @JsLmdb.L V D unit)).
Context (P : forall X, lmdb -> mdb_call X -> X -> Prop) (may_fail : Prop) (sizes : bool -> bytes -> bytes -> Prop).
Hypothesis fail_begin : forall s e r, P _ s (mdb_txn_begin (Some e) None 0) r -> fst r <> 0 -> may_fail.
Hypothesis fail_commit : forall s t x rc, txns s !! t = Some x -> is_Some (envs s !! txn_env x) ->
  P _ s (mdb_txn_commit (Some t)) rc -> rc <> 0 -> may_fail.
Hypothesis fail_put : forall s t dbi k v x d rc, writable s t dbi = Some (x, d) -> sizes (db_dup d) k v ->
  P _ s (mdb_put (Some t) dbi k v 0) rc -> fails rc -> may_fail.
Local Abbreviation wpa := (wpm (LMDB_with P) (fun _ => False)).

Lemma put_one_is_some p m i : is_Some (m !! i) -> is_Some (put_one p m !! i).
Proof.
  intros Hm. unfold put_one. destruct (decide (i = p.1.1)) as [->|]; [rewrite lookup_alter_eq; by apply fmap_is_Some|by rewrite lookup_alter_ne].
Qed.

Lemma put_all_is_some ps m i : is_Some (m !! i) -> is_Some (put_all ps m !! i).
Proof. revert m. induction ps as [|p ps IH]; intros m Hm; [done|]. by apply IH, put_one_is_some. Qed.

(** The operations [ops] of the Env over the native [eo] put [ps]. *)
Definition queue_is (g : gset nat) (h : heap) (eo : nat) (m : gmap nat db_st) (ops : list lop) (ps : list (nat * bytes * bytes)) : Prop :=
  Forall2 (op_puts g h eo) ops ps /\ Forall (fun p => is_Some (m !! p.1.1)) ps.

Lemma queue_kept g h h' eo m m' ops ps : queue_is g h eo m ops ps -> h_db h' = h_db h ->
  (forall i, is_Some (m !! i) -> is_Some (m' !! i)) -> queue_is g h' eo m' ops ps.
Proof.
  intros [H1 H2] Hd Hm. split; [|eapply Forall_impl; [exact H2|]; intros p; apply Hm].
  eapply Forall2_impl; [exact H1|]. intros o p (w & a & Hw & Ho). exists w, a. split; [|done]. unfold open_db. by rewrite Hd.
Qed.

Lemma exec_all_with ops : forall g st s eo j m v ps, queue_is g (jl_native st) eo v ops ps -> Forall (sized_in sizes v) ps -> in_txn g (jl_native st) s eo j m v ->
  wpa (exec_all j ops) st s (fun r st' s' => st' = st /\
    (r = Value tt /\ in_txn g (jl_native st) s' eo j m (put_all ps v) \/
     may_fail /\ (exists msg, r = Thrown msg) /\ exists v', in_txn g (jl_native st) s' eo j m v')).
Proof.
  induction ops as [|o ops IH]; intros g st s eo j m v ps HQ HZ HT.
  { destruct HQ as [HQ%Forall2_nil_inv_l _]. subst ps. apply wpm_ret. split; [done|]. by left. }
  pose proof HQ as [(p & ps' & Ho & Hps & ->)%Forall2_cons_inv_l [Hp Hps']%Forall_cons].
  apply Forall_cons in HZ as [Hz HZ]. cbn [exec_all]. apply wp_jbind. unfold op_exec, lnative. apply wp_call_native.
  eapply wpm_mono; [eapply (put_with P may_fail sizes fail_put); eassumption|].
  intros r h' s' [-> [[(a & ->) HT']|(Hf & (msg & ->) & HT')]]; cbn; destruct st as [a1 a2 a3 a4 h].
  - eapply wpm_mono; [apply (IH g (JL a1 a2 a3 a4 h) s' eo j m (put_one p v) ps'); [| |done]|done].
    2: { eapply Forall_impl; [exact HZ|]. intros q. apply sized_put_one. }
    split; [done|]. eapply Forall_impl; [exact Hps'|]. intros q. apply put_one_is_some.
  - split; [done|]. right. split; [done|]. split; [by eexists|by exists v].
Qed.

Lemma new_txn_fresh (st : jl) : h_txn (jl_native st) !! new_txn_id st = None.
Proof. apply not_elem_of_dom. apply is_fresh. Qed.

(** An [Env] object, its committed databases and what its queue puts. *)
Definition env_batch (g : gset nat) (st : jl) (s : lmdb) (e : nat) (x : jlenv) (m : gmap nat db_st) (ps : list (nat * bytes * bytes)) : Prop :=
  jl_envs st !! e = Some x /\ env_is g (jl_native st) s (le_env x) m /\ queue_is g (jl_native st) (le_env x) m (le_ops x) ps.

(** The catch block, when nobody handles a full map: it ends the transaction
    and throws the exception again. *)
Lemma rethrow_with e j ops msg h st s (R : heap -> lmdb -> Prop) : onfull e = None ->
  wpa (txn_abort j) h s (fun _ h' s' => R h' s') ->
  wpa (jbind (jcatch (Txn_abort j) (fun _ => jret tt)) (fun _ => match onfull e with
    | Some f => if contains (lit "MDB_MAP_FULL") msg then f ops else jthrow msg
    | None => jthrow msg end)) (up_lnative h st) s (fun r st' s' => r = Thrown msg /\ exists h', st' = up_lnative h' st /\ R h' s').
Proof.
  intros -> HR. apply wp_jbind, wp_jcatch. unfold Txn_abort. apply wp_jbind, wp_call_native. eapply wpm_mono; [exact HR|].
  intros r h' s' HR'. cbn. destruct (js r); repeat apply wpm_ret; (split; [done|]); by exists h'.
Qed.

Lemma flush_with g st s e x m ps : env_batch g st s e x m ps -> Forall (sized_in sizes m) ps -> onfull e = None ->
  wpa (LEnv_flushBatchOps onfull e) st s (fun r st' s' => exists h',
    h_db h' = h_db (jl_native st) /\
    (r = Value tt /\ st' = up_lenv e (set_ops [] x) (up_lnative h' st) /\ env_is g h' s' (le_env x) (put_all ps m) \/
     may_fail /\ (exists msg, r = Thrown msg) /\ st' = up_lnative h' st /\ env_is g h' s' (le_env x) m)).
Proof.
  intros (Hx & HE & HQ) HZ Hf. unfold LEnv_flushBatchOps. apply wp_jbind, (wp_jget _ _ _ x); [done|].
  assert (Est : up_lnative (jl_native st) st = st) by (by destruct st).
  destruct (le_ops x) as [|o ops] eqn:Hops.
  { apply wpm_ret. exists (jl_native st). split; [done|]. left. destruct HQ as [->%Forall2_nil_inv_l _]. split; [done|]. split; [|done].
    unfold up_lenv, set_ops. rewrite <- Hops. rewrite Est. destruct st, x; cbn in *. by rewrite insert_id. }
  rewrite <- Hops in *. apply wp_jbind. unfold LEnv_beginTxn. apply wp_jbind, (wp_jget _ _ _ x); [done|].
  apply wp_jbind. eapply wp_jget; [done|]. set (j := new_txn_id st). apply wp_jbind. unfold Txn_ctor. apply wp_jbind. apply wp_call_native.
  eapply wpm_mono; [apply (begin_with P may_fail fail_begin g (jl_native st) s (le_env x) j m HE (new_txn_fresh st) (BooleanValue_bool false))|].
  intros r h1 s1 [((a & ->) & HT & Hd1)|(Hm & (msg & ->) & HE1 & Hd1)]; cbn.
  2: { exists h1. split; [done|]. right. split; [done|]. by split; [eexists|]. }
  apply wpm_ret. apply wpm_ret. apply wp_jbind, wp_jcatch, wp_jbind.
  eapply wpm_mono; [apply (exec_all_with (le_ops x) g (up_lnative h1 st) s1 (le_env x) j m m ps); [by eapply queue_kept|done|done]|].
  intros r1 st2 s2 [-> [[-> HT2]|(Hm & (msg & ->) & v' & HT2)]].
  - unfold Txn_commit. apply wp_jbind, wp_call_native.
    eapply wpm_mono; [apply (commit_with P may_fail fail_commit g h1 s2 (le_env x) j m _ HT2)|].
    intros r2 h3 s3 (Hd3 & Hc3 & [[(a2 & ->) HE3]|(Hm & (msg & ->) & HE3)]); cbn.
    + apply wpm_ret. apply wp_jbind, (wp_jget _ _ _ x); [done|]. apply wp_jset. exists h3. split; [congruence|]. by left.
    + eapply wpm_mono; [apply (rethrow_with e j _ msg h3 st s3 (fun h' s' => h' = h3 /\ s' = s3) Hf)|].
      { by eapply abort_closed. }
      intros r3 st3 s4 (-> & h4 & -> & -> & ->). exists h3. split; [congruence|]. right. split; [done|]. by split; [eexists|].
  - eapply wpm_mono; [apply (rethrow_with e j _ msg h1 st s2 _ Hf (abort_with P g h1 s2 (le_env x) j m v' HT2))|].
    intros r3 st3 s4 (-> & h4 & -> & Hd4 & HE4). exists h4. split; [congruence|]. right. split; [done|]. by split; [eexists|].
Qed.

(** *** Sequences of batchPut *)

(** [batchPut] of each database, key and value; an exception ends only its own
    call. *)
Fixpoint batch_calls (l : list (nat * value * value)) : meth mdb_call jl (list (jsx lop)) :=
  match l with
  | [] => mret []
  | c :: l' =>
      r ← (LDb_batchPut onfull c.1.1 c.1.2 c.2 : meth mdb_call jl (jsx lop));
      rs ← batch_calls l';
      mret (r :: rs)
  end.

(** The call is let through and puts [p] into a database of the Env. *)
Definition call_puts (g : gset nat) (st : jl) (e eo : nat) (c : nat * value * value) (p : nat * bytes * bytes) : Prop :=
  exists y k v, jl_dbs st !! c.1.1 = Some y /\ ld_env y = e /\
    sanitize (ld_key y) c.1.2 = Value k /\ sanitize (ld_val y) c.2 = Value v /\
    op_puts g (jl_native st) eo (LOp (ld_key y) (ld_val y) (ld_db y) k (Some v)) p.

(** Unless every put is committed, the timer runs for the Env; and it runs for
    no other. *)
Definition waits (e : nat) (st : jl) (n : nat) (all : list (nat * bytes * bytes)) : Prop :=
  fst (deb_fire (jl_timer st)) = Some e \/ n = length all /\ fst (deb_fire (jl_timer st)) = None.

Definition same_dbs (st st' : jl) : Prop := jl_dbs st' = jl_dbs st /\ h_db (jl_native st') = h_db (jl_native st).

Lemma call_puts_same g st st' e eo c p : same_dbs st st' -> call_puts g st e eo c p -> call_puts g st' e eo c p.
Proof.
  intros [E1 E2] (y & k & v & Hy & He & Hk & Hv & w & a & Hw & Ho). exists y, k, v. rewrite E1. split_and!; try done.
  exists w, a. split; [|done]. unfold open_db. by rewrite E2.
Qed.

(** Of the puts [all] asked for, the first [n] are committed and the others
    are queued, in their order. *)
Definition batched (g : gset nat) (st0 st : jl) (s : lmdb) (e eo : nat) (m : gmap nat db_st) (all : list (nat * bytes * bytes)) (n : nat) : Prop :=
  same_dbs st0 st /\ exists x, le_env x = eo /\ env_batch g st s e x (put_all (take n all) m) (drop n all).

Lemma batched_env g st0 st s e eo m all n x : batched g st0 st s e eo m all n -> jl_envs st !! e = Some x ->
  le_env x = eo /\ env_batch g st s e x (put_all (take n all) m) (drop n all).
Proof. intros (_ & x' & He & HB) Hx. destruct HB as (Hx' & HB). assert (x' = x) as -> by congruence. done. Qed.

Lemma put_all_app ps qs m : put_all (ps ++ qs) m = put_all qs (put_all ps m).
Proof. apply foldl_app. Qed.

Lemma sized_put_all ps qs m : Forall (sized_in sizes m) qs -> Forall (sized_in sizes (put_all ps m)) qs.
Proof.
  revert m. induction ps as [|p ps IH]; intros m Hq; [done|]. apply IH. eapply Forall_impl; [exact Hq|]. intros q. apply sized_put_one.
Qed.

Lemma flush_batched g st0 st s e eo m all n : batched g st0 st s e eo m all n -> Forall (sized_in sizes m) all -> onfull e = None -> (n <= length all)%nat ->
  wpa (LEnv_flushBatchOps onfull e) st s (fun r st' s' => jl_timer st' = jl_timer st /\
    (r = Value tt /\ batched g st0 st' s' e eo m all (length all) \/
     may_fail /\ (exists msg, r = Thrown msg) /\ batched g st0 st' s' e eo m all n)).
Proof.
  intros ((E1 & E2) & x & He & HB) HZ Hf Hn. pose proof HB as (Hx & HE & HQ).
  eapply wpm_mono; [exact (flush_with g st s e x _ _ HB (sized_put_all _ _ _ (Forall_drop _ _ _ HZ)) Hf)|].
  intros r st' s' (h' & Hd & [(-> & -> & HE')|(Hm & Hr & -> & HE')]); (split; [done|]); [left|right].
  - split; [done|]. split; [by split; [|cbn; congruence]|]. exists (set_ops [] x). split; [done|]. rewrite firstn_all, drop_all.
    split; [apply lookup_insert_eq|]. cbn. split; [|by split; constructor]. rewrite <- put_all_app, take_drop in HE'. done.
  - split; [done|]. split; [done|]. split; [by split; [|cbn; congruence]|]. exists x. split; [done|]. split; [done|]. split; [done|].
    cbn. eapply queue_kept; [exact HQ|done|done].
Qed.

Lemma push_batched g st0 st s e eo m all n o p : batched g st0 st s e eo m all n -> Forall (sized_in sizes m) (all ++ [p]) -> onfull e = None -> (n <= length all)%nat ->
  op_puts g (jl_native st) eo o p -> is_Some (m !! p.1.1) ->
  wpa (LEnv_pushBatch onfull e o) st s (fun r st' s' => exists n', (n' <= length (all ++ [p]))%nat /\
    batched g st0 st' s' e eo m (all ++ [p]) n' /\ ((exists msg, r = Thrown msg) /\ may_fail \/
      r = Value o /\ (n' = length (all ++ [p]) /\ jl_timer st' = jl_timer st \/ jl_timer st' = deb_call e (jl_timer st)))).
Proof.
  intros ((E1 & E2) & x & He & (Hx & HE & HQ1 & HQ2)) HZ Hf Hn Ho Hp. unfold LEnv_pushBatch. apply wp_jbind, (wp_jget _ _ _ x); [done|].
  apply wp_jbind, wp_jset. set (st1 := up_lenv e _ st).
  assert (HB : batched g st0 st1 s e eo m (all ++ [p]) n).
  { split; [done|]. exists (set_ops (le_ops x ++ [o]) x). split; [done|]. rewrite take_app_le, drop_app_le by done.
    split; [apply lookup_insert_eq|]. split; [done|]. cbn. rewrite He. split; [apply Forall2_app; [by rewrite He in HQ1|by constructor]|].
    apply Forall_app. split; [done|]. constructor; [|done]. by apply put_all_is_some. }
  assert (Hn' : (n <= length (all ++ [p]))%nat) by (rewrite length_app; lia).
  apply wp_jbind. destruct (match le_size x with Some n => _ | None => _ end).
  - eapply wpm_mono; [exact (flush_batched g st0 st1 s e eo m _ n HB HZ Hf Hn')|].
    intros r st' s' (Ht & [[-> HB']|(Hm & (msg & ->) & HB')]).
    + apply wpm_ret. exists (length (all ++ [p])). split; [done|]. split; [done|]. right. split; [done|]. left. by split.
    + exists n. split; [done|]. split; [done|]. left. by split; [eexists|].
  - unfold LEnv_autoFlush. apply wp_jset, wpm_ret. exists n. split; [done|]. split; [|by right; split; [|right]].
    destruct HB as (HS & x' & He' & HB'). split; [done|]. by exists x'.
Qed.

Lemma batchPut_batched g st0 st s e eo m all n c p : batched g st0 st s e eo m all n -> Forall (sized_in sizes m) (all ++ [p]) -> onfull e = None -> (n <= length all)%nat ->
  call_puts g st e eo c p -> is_Some (m !! p.1.1) ->
  wpa (LDb_batchPut onfull c.1.1 c.1.2 c.2) st s (fun r st' s' => exists n', (n' <= length (all ++ [p]))%nat /\
    batched g st0 st' s' e eo m (all ++ [p]) n' /\ ((exists msg, r = Thrown msg) /\ may_fail \/
      (exists o, r = Value o) /\ (n' = length (all ++ [p]) /\ jl_timer st' = jl_timer st \/ jl_timer st' = deb_call e (jl_timer st)))).
Proof.
  intros HB HZ Hf Hn (y & k & v & Hy & He & Hk & Hv & Ho) Hp. unfold LDb_batchPut. apply wp_jbind, (wp_jget _ _ _ y); [done|].
  rewrite Hk, Hv, He. apply wp_jbind, wpm_ret, wp_jbind, wpm_ret.
  eapply wpm_mono; [exact (push_batched g st0 st s e eo m all n _ p HB HZ Hf Hn Ho Hp)|].
  intros r st' s' (n' & Hn' & HB' & [Hr|[-> Ht]]); exists n'; (split; [done|]); (split; [done|]); [by left|right].
  by split; [eexists|].
Qed.

Context `{!DebounceLaws D}.

Lemma batch_calls_ok l qs : forall g st0 st s e eo m all n, batched g st0 st s e eo m all n -> Forall (sized_in sizes m) (all ++ qs) -> onfull e = None -> (n <= length all)%nat ->
  Forall2 (call_puts g st0 e eo) l qs -> Forall (fun p => is_Some (m !! p.1.1)) qs ->
  may_fail \/ waits e st n all ->
  wpa (batch_calls l) st s (fun rs st' s' => exists n', (n' <= length (all ++ qs))%nat /\ batched g st0 st' s' e eo m (all ++ qs) n' /\
    (may_fail \/ Forall (fun r => exists o, r = Value o) rs /\ waits e st' n' (all ++ qs))).
Proof.
  revert qs. induction l as [|c l IH]; intros qs g st0 st s e eo m all n HB HZ Hf Hn Hl Hq Ht.
  { apply Forall2_nil_inv_l in Hl as ->. apply wpm_ret. exists n. rewrite app_nil_r. split; [done|]. split; [done|].
    destruct Ht as [Ht|Ht]; [by left|right; by split]. }
  apply Forall2_cons_inv_l in Hl as (p & qs' & Hc & Hl & ->). apply Forall_cons in Hq as [Hp Hq]. cbn [batch_calls].
  rewrite (app_assoc all [p] qs' : all ++ p :: qs' = _) in HZ. pose proof HZ as [HZ1 _]%Forall_app.
  apply wpm_bind. pose proof HB as (HS & _).
  eapply wpm_mono; [exact (batchPut_batched g st0 st s e eo m all n c p HB HZ1 Hf Hn (call_puts_same _ _ _ _ _ _ _ HS Hc) Hp)|].
  intros r st1 s1 (n1 & Hn1 & HB1 & Hr1). rewrite (app_assoc all [p] qs' : all ++ p :: qs' = _). apply wpm_bind.
  eapply wpm_mono; [apply (IH qs' g st0 st1 s1 e eo m (all ++ [p]) n1 HB1 HZ Hf Hn1 Hl Hq)|].
  { destruct Hr1 as [[_ Hm]|[_ [[-> E]|E]]]; [by left| |].
    - destruct Ht as [Ht|[Ht|[_ Ht]]]; [by left|right; left; congruence|right; right; by rewrite E].
    - right. left. rewrite E. apply deb_fire_last. }
  intros rs st2 s2 (n2 & Hn2 & HB2 & Hr2). apply wpm_ret. exists n2. split; [done|]. split; [done|].
  destruct Hr2 as [Hm|[Hrs Ht2]]; [by left|]. destruct Hr1 as [[_ Hm]|[Ho _]]; [by left|]. right. split; [by constructor|done].
Qed.

(** The moment the wait is over. *)
Lemma tick_batched g st0 st s e eo m all n : batched g st0 st s e eo m all n -> Forall (sized_in sizes m) all -> onfull e = None -> (n <= length all)%nat -> waits e st n all ->
  wpa (LEnv_tick onfull) st s (fun r st' s' =>
    r = Value tt /\ batched g st0 st' s' e eo m all (length all) \/
    may_fail /\ (exists msg, r = Thrown msg) /\ batched g st0 st' s' e eo m all n).
Proof.
  intros HB HZ Hf Hn Ht. set (st1 := up_ltimer (snd (deb_fire (jl_timer st))) st).
  assert (HB1 : batched g st0 st1 s e eo m all n).
  { destruct HB as (HS & x & He & HB). split; [done|]. by exists x. }
  unfold LEnv_tick, wpm. destruct Ht as [->|[-> ->]]; [|by left].
  eapply wpu_mono; [exact (flush_batched g st0 st1 s e eo m all n HB1 HZ Hf Hn)|done|]. by intros [r st'] s' [_ HR].
Qed.
End Batch.

Section Claims.
Context `{V : V8} `{Libc} `{L : !V8Laws V} `{D : Debounce} `{!DebounceLaws D}.
Context (onfull : nat -> option (list lop -> @JsLmdb.L V D unit)).

Lemma with_steady {A} (m : meth mdb_call jl A) st s Q :
  wpm (LMDB_with (fun _ _ _ _ => True)) (fun _ => False) m st s Q -> wpm LMDB_steady (fun _ => False) m st s Q.
Proof. apply wpu_stronger. by intros ????? []. Qed.

Lemma any_size m (ps : list (nat * bytes * bytes)) : Forall (sized_in (fun _ _ _ => True) m) ps.
Proof. by apply Forall_true. Qed.

(** The sizes lmdb.h asks for. *)
Definition put_sizes (dup : bool) (k v : bytes) : Prop := key_size_ok k /\ data_size_ok dup v.

(** C20. One flush of the puts queued in an [Env] that has no [onfull] handler is
    one transaction, on any LMDB that renews its read-only transactions: when it returns, everything queued is committed, in all the
    databases of the [Env], and the queue is empty; when any call of it fails it
    throws, nothing is committed, every operation is still queued for the next
    flush, and no transaction stays open. *)
Theorem lenv_flush_atomic g st s e x m ps :
  env_batch g st s e x m ps -> onfull e = None ->
  wpm LMDB_steady (fun _ => False) (LEnv_flushBatchOps onfull e) st s (fun r st' s' => exists x',
    (r = Value tt /\ env_batch g st' s' e x' (put_all ps m) [] \/
     (exists msg, r = Thrown msg) /\ x' = x /\ env_batch g st' s' e x' m ps)).
Proof.
  intros HB Hf. pose proof HB as (Hx & HE & HQ). apply with_steady.
  eapply wpm_mono; [exact (flush_with onfull _ True (fun _ _ _ => True) ltac:(done) ltac:(done) ltac:(done) g st s e x m ps HB (any_size _ _) Hf)|].
  intros r st' s' (h' & Hd & [(-> & -> & HE')|(_ & Hr & -> & HE')]).
  - exists (set_ops [] x). left. split; [done|]. split; [apply lookup_insert_eq|]. split; [done|]. by split; constructor.
  - exists x. right. split; [done|]. split; [done|]. split; [done|]. split; [done|]. by eapply queue_kept.
Qed.

(** C18. Whatever fails, [batchPut] loses nothing and reorders nothing in an [Env]
    that has no [onfull] handler: after any calls on any databases of it, with
    puts alone in the queue, the committed databases are those after
    a prefix of the puts asked for, and the queue holds exactly the others. *)
Theorem lenv_batches_keep_all l qs g st s e x m ps :
  env_batch g st s e x m ps -> onfull e = None ->
  Forall2 (call_puts g st e (le_env x)) l qs -> Forall (fun p => is_Some (m !! p.1.1)) qs ->
  wpm LMDB_steady (fun _ => False) (batch_calls onfull l) st s (fun rs st' s' => exists n,
    (n <= length (ps ++ qs))%nat /\ batched g st st' s' e (le_env x) m (ps ++ qs) n).
Proof.
  intros HB Hf Hl Hq. apply with_steady.
  eapply wpm_mono; [apply (batch_calls_ok onfull _ True (fun _ _ _ => True) ltac:(done) ltac:(done) ltac:(done) l qs g st st s e (le_env x) m ps 0)|].
  - split; [done|]. by exists x.
  - apply any_size.
  - done.
  - lia.
  - done.
  - done.
  - by left.
  - intros rs st' s' (n & Hn & HB' & _). by exists n.
Qed.


(** ** Two calls that cannot work *)

(** The write transaction [j] is open and sees [v]. *)
Definition writing (h : heap) (s : lmdb) (eo j : nat) (v : gmap nat db_st) : Prop :=
  exists e ew tw t x, h_env h !! eo = Some ew /\ e_env ew = Some e /\ h_txn h !! j = Some tw /\ t_txn tw = Some t /\
    txns s !! t = Some x /\ txn_env x = e /\ txn_ro x = false /\ txn_dbs x = v.

(** The flush may come to an operation: the puts before it may succeed. *)
Lemma exec_put_inv g st s eo j v o p U Q : writing (jl_native st) s eo j v -> op_puts g (jl_native st) eo o p -> is_Some (v !! p.1.1) ->
  wpm LMDB_sure U (op_exec j o) st s Q -> exists a s', writing (jl_native st) s' eo j (put_one p v) /\ Q (Value a) st s'.
Proof.
  intros (e & ew & tw & t & x & Hew & Hewe & Htw & Ht & Hx & Hxe & Hro & Hv) (w & a & Hw & Ed & Ei & Ha & Hk & Hb) [d Hd] HW.
  unfold op_exec in HW. rewrite Ha in HW. apply call_native_inv in HW. pose proof (open_db_unwrap _ _ _ _ _ _ Hw) as Hu.
  rewrite <- Ed in Hew. subst v. rewrite <- Ei in Hd.
  unfold db_put, get_kvdb in HW. do 8 winv HW. unfold scope_write in HW. do 4 winv HW. winv HW. cbn [ts_txn] in HW. rewrite Ht in HW.
  apply (proj1 (wpm_ffi _ _ _ _ _ _)) in HW as [_ HW].
  set (s' := upd_txn t (upd_db (d_dbi w) (db_after_put d p.1.2 p.2) x) s).
  assert (Hwr : writable s t (d_dbi w) = Some (x, d)) by (unfold writable; rewrite Hx; cbn; by rewrite Hro, Hd).
  assert (HA : answers LMDB_sure s (mdb_put (Some t) (d_dbi w) p.1.2 p.2 0) 0 s').
  { split; [|split; [done|]]; [|by intros h y d' _ _ _ _ []]. cbn. rewrite Hwr. left. split; [done|]. split; [done|]. split; [done|].
    intros c. cbn. destruct (curs s !! c) as [cu|]; [|done]. exists (cur_pos cu). split; [by destruct cu|by right]. }
  specialize (HW 0 s' HA). eexists _, s'. split; [|destruct st; exact HW].
  exists e, ew, tw, t. eexists. rewrite <- Ed. split_and!; [done|done|done|done|apply lookup_insert_eq|done|done|].
  cbn. rewrite Ei. unfold put_one. apply map_eq. intros i. rewrite Ei in Hd.
  destruct (decide (i = p.1.1)) as [->|]; [by rewrite lookup_insert_eq, lookup_alter_eq, Hd|by rewrite lookup_insert_ne, lookup_alter_ne].
Qed.

Lemma exec_del_stuck g st eo j o k rest w U : op_val o = None -> open_db g (jl_native st) (op_K o) (op_V o) (op_db o) w -> d_env w = eo ->
  kv_encode (op_K o) (op_key o) = Ok k -> (forall j, exists b, kv_encode (op_V o) (v_object j) = Ok b) ->
  forall puts ps s v Q, Forall2 (op_puts g (jl_native st) eo) puts ps -> Forall (fun p => is_Some (v !! p.1.1)) ps ->
  writing (jl_native st) s eo j v -> ~ wpm LMDB_sure U (exec_all j (puts ++ o :: rest)) st s Q.
Proof.
  intros Ho Hw Hwe Hk Hb. induction puts as [|q puts IH]; intros ps s v Q Hps Hin HT HW; cbn [app exec_all] in HW; apply jbind_inv in HW.
  - unfold op_exec in HW. rewrite Ho in HW. apply call_native_inv in HW. destruct (Hb j) as [b Hbj].
    pose proof (open_db_unwrap _ _ _ _ _ _ Hw) as Hu. destruct HT as (e & ew & tw & t & x & Hew & Hewe & Htw & Ht & Hx & Hxe & Hro & Hv).
    rewrite <- Hwe in Hew. unfold db_del, get_kvdb in HW. do 8 winv HW. unfold scope_write in HW. winv HW. winv HW. rewrite Hewe in HW.
    apply (proj1 (wpm_ffi _ _ _ _ _ _)) in HW as [(_ & h & y & [= <-] & _ & _ & Hnw) _]. specialize (Hnw eq_refl t x Hx Hxe). congruence.
  - apply Forall2_cons_inv_l in Hps as (p & ps' & Hq & Hps & ->). apply Forall_cons in Hin as [Hp Hin].
    destruct (exec_put_inv g st s eo j v q p U _ HT Hq Hp HW) as (a & s' & HT' & HW').
    apply (IH ps' s' (put_one p v) Q Hps); [|done|done]. eapply Forall_impl; [exact Hin|]. intros r. apply put_one_is_some.
Qed.

(** C21. A flush that comes to a [batchDel] waits for itself: the native [del] gets
    the transaction in the place of the value and no transaction, and begins a
    second write transaction while that of the flush is open, which LMDB forbids
    to one thread. *)
Theorem batchDel_second_writer g st s e x m puts ps o rest w k U Q :
  jl_envs st !! e = Some x -> env_is g (jl_native st) s (le_env x) m ->
  le_ops x = puts ++ o :: rest -> queue_is g (jl_native st) (le_env x) m puts ps -> op_val o = None ->
  open_db g (jl_native st) (op_K o) (op_V o) (op_db o) w -> d_env w = le_env x ->
  kv_encode (op_K o) (op_key o) = Ok k -> (forall j, exists b, kv_encode (op_V o) (v_object j) = Ok b) ->
  ~ wpm LMDB_sure U (LEnv_flushBatchOps onfull e) st s Q.
Proof.
  intros Hx (HI & en & ex & Hh & Hn & He & Ho & Hm) Hops HQ Hv Hw Hwe Hk Hb HW.
  assert (exists ew, h_env (jl_native st) !! le_env x = Some ew /\ e_env ew = Some en) as (ew & Hew & Hewe).
  { unfold handle_of in Hh. destruct (h_env (jl_native st) !! le_env x) as [ew|]; [|done]. by exists ew. }
  unfold LEnv_flushBatchOps in HW. apply jbind_inv, (jget_inv _ _ _ x) in HW; [|done].
  destruct (le_ops x) as [|o1 ops1] eqn:Hl; [by destruct puts|]. rewrite Hops in HW.
  apply jbind_inv in HW. unfold LEnv_beginTxn in HW. apply jbind_inv, (jget_inv _ _ _ x) in HW; [|done].
  apply jbind_inv, (jget_inv _ _ _ (new_txn_id st)) in HW; [|done]. set (j := new_txn_id st) in *.
  unfold Txn_ctor in HW. do 2 apply jbind_inv in HW. apply call_native_inv in HW.
  unfold txn_ctor in HW. winv HW. winv HW. cbn [t_env t_readonly] in HW. rewrite BooleanValue_bool, Hewe in HW. winv HW.
  assert (exists t, txns s !! t = None) as [t Ht].
  { exists (fresh (base.dom (txns s) : gset nat)). apply not_elem_of_dom, is_fresh. }
  apply (proj1 (wpm_ffi _ _ _ _ _ _)) in HW as [_ HW]. specialize (HW (0, Some t) (upd_txn t (begun en false ex) s)).
  assert (HA : answers LMDB_sure s (mdb_txn_begin (Some en) None 0) (0, Some t) (upd_txn t (begun en false ex) s)).
  { split; [|by split; [|intros]]. left. by exists t, en, ex. }
  specialize (HW HA). cbn in HW. apply wpm_bind in HW. apply wpm_modify in HW. apply wpm_ret in HW. cbn in HW. repeat apply wpm_ret in HW.
  apply jbind_inv, jcatch_inv, jbind_inv in HW. revert HW. destruct HQ as [HQ1 HQ2].
  eapply (exec_del_stuck g (up_lnative (up_txn <[j := Txn false (Some t) (Some en)]> (jl_native st)) st) (le_env x) j o k rest w U Hv Hw Hwe Hk Hb puts ps _ m _ HQ1 HQ2).
  exists en, ew. do 3 eexists. split_and!; [done|done|apply lookup_insert_eq|done|apply lookup_insert_eq|done|done|done].
Qed.

(** [del] of lib/lmdb given a key alone, as README.md and test/lmdb.js call
    it, throws unless the values are strings: the missing value is checked like
    any other.  Nothing is deleted, also not in the transaction given. *)
Theorem del_without_value st s d y key txn :
  jl_dbs st !! d = Some y -> ld_val y <> Str ->
  wpm LMDB_steady (fun _ => False) (LDb_del d key txn None) st s (fun r st' s' => (exists msg, r = Thrown msg) /\ st' = st /\ s' = s).
Proof.
  intros Hy Hv. unfold LDb_del. apply wp_jbind, (wp_jget _ _ _ y); [done|]. apply wp_jbind, wpm_ret.
  destruct (sanitize (ld_key y) key) as [msg|k]; [by split; [eexists|]|].
  assert (exists msg, sanitize (ld_val y) (default v_undefined None) = Thrown msg) as [msg ->].
  { destruct (ld_val y) as [| | |[]]; try done; cbn;
      unfold sanitize_binary, sanitize_int32, sanitize_uint32, sanitize_int64, sanitize_hex;
      rewrite ?utf8_undefined, ?buffer_undefined; by eexists. }
  apply wp_jbind, wpm_ret. by split; [eexists|].
Qed.
End Claims.

(** ** A concrete run

    An [Env] over the objects of the run of LmdbSystem.v, with one database of
    numbers and strings. *)
Module LDemo.
Definition opt : @jlopt SimpleV8 := @JLOpt SimpleV8 (Some (lit "db")) (Some (lit "int32")) (Some (lit "string")) None SUndefined.
Definition lenv0 (ops : list (@lop SimpleV8)) : @jlenv SimpleV8 := @JLEnv SimpleV8 0 (lit "/tmp/kv") [(lit "db", 0%nat)] ops (Some 64).
Definition st (ops : list (@lop SimpleV8)) : @jl SimpleV8 LastCall :=
  @JL SimpleV8 LastCall {[0%nat := lenv0 ops]} {[0%nat := @JLDb SimpleV8 0 (Num I32) Str 0 opt]} ∅ None (fst demo3).
Definition put : @lop SimpleV8 := @LOp SimpleV8 (Num I32) Str 0 (SNum 7) (Some (SStr (lit "seven"))).
Definition del : @lop SimpleV8 := @LOp SimpleV8 (Num I32) Str 0 (SNum 7) None.
Definition rec : nat * bytes * bytes := (2%nat, le_split 4 7, lit "seven" ++ [NUL]).

Lemma db : @open_db {[0%nat]} (fst demo3) (Num I32) Str 0 (Db (Num I32) Str 2 0 None).
Proof. split_and!; [set_solver|by vm_compute|done|done]. Qed.

Lemma is_env : exists m, @env_is {[0%nat]} (fst demo3) (fst (snd demo3)) 0 m /\ is_Some (m !! 2%nat).
Proof.
  destruct demo3_holds as (d & (HI & w & e & ex & (_ & Hw & _) & Hh & Hn & He & Hd) & _ & _).
  assert (Hw' : h_db (fst demo3) !! 0%nat = Some (Db (Num I32) Str 2 0 None)) by (by vm_compute).
  assert (w = Db (Num I32) Str 2 0 None) as -> by congruence. exists (env_dbs ex). split; [|by eexists]. split; [done|].
  destruct (quiet_db _ _ _ _ _ _ _ HI db) as (ew & e' & ex' & _ & _ & Hh' & Hx' & Ho). cbn in Hh, Hh'.
  assert (e' = e) as -> by congruence. assert (ex' = ex) as -> by congruence. by exists e, ex.
Qed.

Lemma puts : @op_puts SimpleV8 {[0%nat]} (fst demo3) 0 put rec.
Proof. exists (Db (Num I32) Str 2 0 None), (SStr (lit "seven")). split; [exact db|]. by split_and!. Qed.

Lemma calls ops : @call_puts SimpleV8 LastCall {[0%nat]} (st ops) 0 0 (0%nat, SNum 7, SStr (lit "seven")) rec.
Proof. exists (@JLDb SimpleV8 0 (Num I32) Str 0 opt), (SNum 7), (SStr (lit "seven")). split_and!; try done. exact puts. Qed.

Lemma batch : exists m, @env_batch SimpleV8 LastCall {[0%nat]} (st []) (fst (snd demo3)) 0 (lenv0 []) m [] /\ is_Some (m !! 2%nat).
Proof. destruct is_env as (m & HE & Hm). exists m. split; [|done]. split; [done|]. split; [done|]. by split; constructor. Qed.
End LDemo.

Lemma lenv_flush_atomic_witness : exists m,
  wpm LMDB_steady (fun _ => False) (@LEnv_flushBatchOps SimpleV8 demo_libc LastCall (fun _ => None) 0) (LDemo.st [LDemo.put]) (fst (snd demo3)) (fun r st' s' => exists x',
    (r = Value tt /\ @env_batch SimpleV8 LastCall {[0%nat]} st' s' 0 x' (put_all [LDemo.rec] m) [] \/
     (exists msg, r = Thrown msg) /\ x' = LDemo.lenv0 [LDemo.put] /\ @env_batch SimpleV8 LastCall {[0%nat]} st' s' 0 x' m [LDemo.rec])).
Proof.
  destruct LDemo.is_env as (m & HE & Hm). exists m.
  apply (@lenv_flush_atomic SimpleV8 demo_libc SimpleV8_laws LastCall (fun _ => None) {[0%nat]}); [|reflexivity].
  split; [reflexivity|]. split; [exact HE|]. split; (constructor; [|constructor]); [exact LDemo.puts|exact Hm].
Defined.

Lemma lenv_batches_keep_all_witness : exists m,
  wpm LMDB_steady (fun _ => False) (@batch_calls SimpleV8 demo_libc LastCall (fun _ => None) [(0%nat, SNum 7, SStr (lit "seven"))]) (LDemo.st []) (fst (snd demo3))
    (fun rs st' s' => exists n, (n <= length ([] ++ [LDemo.rec]))%nat /\ @batched SimpleV8 LastCall {[0%nat]} (LDemo.st []) st' s' 0 0 m ([] ++ [LDemo.rec]) n).
Proof.
  destruct LDemo.batch as (m & HB & Hm). exists m.
  apply (@lenv_batches_keep_all SimpleV8 demo_libc SimpleV8_laws LastCall LastCall_laws (fun _ => None) _ _ {[0%nat]} _ _ 0%nat _ m [] HB); [reflexivity| |].
  - constructor; [apply LDemo.calls|constructor].
  - constructor; [exact Hm|constructor].
Defined.


Lemma batchDel_second_writer_witness :
  ~ wpm LMDB_sure (fun _ => True) (@LEnv_flushBatchOps SimpleV8 demo_libc LastCall (fun _ => None) 0) (LDemo.st [LDemo.put; LDemo.del]) (fst (snd demo3)) (fun _ _ _ => True).
Proof.
  destruct LDemo.is_env as (m & HE & Hm).
  apply (@batchDel_second_writer SimpleV8 demo_libc SimpleV8_laws LastCall (fun _ => None) {[0%nat]} (LDemo.st [LDemo.put; LDemo.del]) _ 0%nat
    (LDemo.lenv0 [LDemo.put; LDemo.del]) m [LDemo.put] [LDemo.rec] LDemo.del [] (Db (Num I32) Str 2 0 None) (le_split 4 7));
    try reflexivity; [exact HE| |exact LDemo.db|].
  - split; (constructor; [|constructor]); [exact LDemo.puts|exact Hm].
  - intros j. eexists. reflexivity.
Defined.

Lemma del_without_value_witness :
  wpm LMDB_steady (fun _ => False) (@LDb_del SimpleV8 demo_libc LastCall 0 (SNum 7) None None)
    (@JL SimpleV8 LastCall ∅ {[0%nat := @JLDb SimpleV8 0 (Num I32) Hex 0 LDemo.opt]} ∅ None (fst demo3)) (fst (snd demo3))
    (fun r st' s' => (exists msg, r = Thrown msg) /\
       st' = @JL SimpleV8 LastCall ∅ {[0%nat := @JLDb SimpleV8 0 (Num I32) Hex 0 LDemo.opt]} ∅ None (fst demo3) /\ s' = fst (snd demo3)).
Proof.
  apply (@del_without_value SimpleV8 demo_libc SimpleV8_laws LastCall _ _ 0%nat (@JLDb SimpleV8 0 (Num I32) Hex 0 LDemo.opt)); [reflexivity|discriminate].
Defined.
