(* ===== verification/LvlMerge.v ===== *)
(** * LevelDB's merging iterator

    src/3rd-party/leveldb/leveldb-1.18/table/merger.cc: one iterator over the
    entries of several, which may be of different kinds. *)
From S2P Require Import Prelude Store LvlCoding LvlBase LvlBlock LvlIterator.

(** ** Iterators of two kinds

    A call through an [Iterator*] is dispatched on the object it points to. *)
Section Dispatch.
Context {W A B : Type} `{!Iterator W A} `{!Iterator W B}.

Definition inl_state (r : res (A * W)) : res ((A + B) * W) := '(it, w) ← r; Ok (inl it, w).
Definition inr_state (r : res (B * W)) : res ((A + B) * W) := '(it, w) ← r; Ok (inr it, w).

#[export] Instance sum_iterator : Iterator W (A + B) := {|
  i_Valid it := match it with inl a => i_Valid a | inr b => i_Valid b end;
  i_SeekToFirst it w := match it with inl a => inl_state (i_SeekToFirst a w) | inr b => inr_state (i_SeekToFirst b w) end;
  i_SeekToLast it w := match it with inl a => inl_state (i_SeekToLast a w) | inr b => inr_state (i_SeekToLast b w) end;
  i_Seek t it w := match it with inl a => inl_state (i_Seek t a w) | inr b => inr_state (i_Seek t b w) end;
  i_Next it w := match it with inl a => inl_state (i_Next a w) | inr b => inr_state (i_Next b w) end;
  i_Prev it w := match it with inl a => inl_state (i_Prev a w) | inr b => inr_state (i_Prev b w) end;
  i_key it := match it with inl a => i_key a | inr b => i_key b end;
  i_value it := match it with inl a => i_value a | inr b => i_value b end;
  i_status it := match it with inl a => i_status a | inr b => i_status b end |}.
End Dispatch.

(** ** Merging *)
Inductive Direction := kForward | kReverse.

#[export] Instance Direction_eq_dec : EqDecision Direction.
Proof. solve_decision. Defined.

Section Merging.
Context (comparator_ : comparator) {W I : Type} `{!Iterator W I}.

(** [current_] points to one of the [n_] children; [None] is [NULL]. *)
Record MergingIterator := MkMerging {
  mg_children : list (IteratorWrapper I); mg_current : option nat; mg_direction : Direction }.

Definition MergingIterator_new (children : list I) : res MergingIterator :=
  cs ← mapM (fun it => IteratorWrapper_new (W := W) (Some it)) children;
  Ok (MkMerging cs None kForward).

Definition with_children (cs : list (IteratorWrapper I)) (m : MergingIterator) : MergingIterator :=
  MkMerging cs (mg_current m) (mg_direction m).

Definition set_direction (d : Direction) (m : MergingIterator) : MergingIterator :=
  MkMerging (mg_children m) (mg_current m) d.

Definition child_at (cs : list (IteratorWrapper I)) (i : nat) : res (IteratorWrapper I) := of_option DanglingPtr (cs !! i).

(** The body of the two loops that look for the child to stand on. *)
Definition better (wins : Z -> bool) (cs : list (IteratorWrapper I)) (best : option nat) (i : nat) : res (option nat) :=
  child ← child_at cs i;
  if iw_valid child then
    match best with
    | None => Ok (Some i)
    | Some b => c ← child_at cs b; Ok (if wins (cmp comparator_ (iw_key child) (iw_key c)) then Some i else best)
    end
  else Ok best.

Fixpoint find_best (wins : Z -> bool) (cs : list (IteratorWrapper I)) (l : list nat) (best : option nat) : res (option nat) :=
  match l with
  | [] => Ok best
  | i :: l' => best ← better wins cs best i; find_best wins cs l' best
  end.

Definition FindSmallest (m : MergingIterator) : res MergingIterator :=
  c ← find_best (fun r => r <? 0) (mg_children m) (seq 0 (length (mg_children m))) None;
  Ok (MkMerging (mg_children m) c (mg_direction m)).

Definition FindLargest (m : MergingIterator) : res MergingIterator :=
  c ← find_best (fun r => 0 <? r) (mg_children m) (reverse (seq 0 (length (mg_children m)))) None;
  Ok (MkMerging (mg_children m) c (mg_direction m)).

(** [for (int i = 0; i < n_; i++)] with a step of the child. *)
Fixpoint each_child (f : nat -> IteratorWrapper I -> W -> res (IteratorWrapper I * W)) (i : nat) (cs : list (IteratorWrapper I)) (w : W) :
    res (list (IteratorWrapper I) * W) :=
  match cs with
  | [] => Ok ([], w)
  | c :: cs' => '(c, w) ← f i c w; '(cs', w) ← each_child f (S i) cs' w; Ok (c :: cs', w)
  end.

Definition mg_SeekToFirst (m : MergingIterator) (w : W) : res (MergingIterator * W) :=
  '(cs, w) ← each_child (fun _ => iw_SeekToFirst) 0 (mg_children m) w;
  m ← FindSmallest (with_children cs m);
  Ok (set_direction kForward m, w).

Definition mg_SeekToLast (m : MergingIterator) (w : W) : res (MergingIterator * W) :=
  '(cs, w) ← each_child (fun _ => iw_SeekToLast) 0 (mg_children m) w;
  m ← FindLargest (with_children cs m);
  Ok (set_direction kReverse m, w).

Definition mg_Seek (target : bytes) (m : MergingIterator) (w : W) : res (MergingIterator * W) :=
  '(cs, w) ← each_child (fun _ => iw_Seek target) 0 (mg_children m) w;
  m ← FindSmallest (with_children cs m);
  Ok (set_direction kForward m, w).

(** The children other than [current_], put behind the key the iterator is at. *)
Definition child_after (c : nat) (key : bytes) (i : nat) (child : IteratorWrapper I) (w : W) : res (IteratorWrapper I * W) :=
  if (i =? c)%nat then Ok (child, w)
  else
    '(child, w) ← iw_Seek key child w;
    if iw_valid child && (cmp comparator_ key (iw_key child) =? 0) then iw_Next child w else Ok (child, w).

(** And before it. *)
Definition child_before (c : nat) (key : bytes) (i : nat) (child : IteratorWrapper I) (w : W) : res (IteratorWrapper I * W) :=
  if (i =? c)%nat then Ok (child, w)
  else
    '(child, w) ← iw_Seek key child w;
    if iw_valid child then iw_Prev child w else iw_SeekToLast child w.

(** The change of direction of [Next] and [Prev]. *)
Definition turn (d : Direction) (move : nat -> bytes -> nat -> IteratorWrapper I -> W -> res (IteratorWrapper I * W))
    (c : nat) (m : MergingIterator) (w : W) : res (MergingIterator * W) :=
  if bool_decide (mg_direction m = d) then Ok (m, w)
  else
    current ← child_at (mg_children m) c;
    '(cs, w) ← each_child (move c (iw_key current)) 0 (mg_children m) w;
    Ok (set_direction d (with_children cs m), w).

(** A step of the child [current_] points to. *)
Definition on_current (f : IteratorWrapper I -> W -> res (IteratorWrapper I * W)) (c : nat) (m : MergingIterator) (w : W) :
    res (MergingIterator * W) :=
  current ← child_at (mg_children m) c;
  '(current, w) ← f current w;
  Ok (with_children (<[c := current]> (mg_children m)) m, w).

Definition mg_Next (m : MergingIterator) (w : W) : res (MergingIterator * W) :=
  c ← of_option NullDeref (mg_current m);
  '(m, w) ← turn kForward child_after c m w;
  '(m, w) ← on_current iw_Next c m w;
  m ← FindSmallest m;
  Ok (m, w).

Definition mg_Prev (m : MergingIterator) (w : W) : res (MergingIterator * W) :=
  c ← of_option NullDeref (mg_current m);
  '(m, w) ← turn kReverse child_before c m w;
  '(m, w) ← on_current iw_Prev c m w;
  m ← FindLargest m;
  Ok (m, w).

Definition mg_Valid (m : MergingIterator) : bool := bool_decide (mg_current m <> None).

(** Called when [Valid()] only. *)
Definition mg_key (m : MergingIterator) : bytes :=
  match c ← mg_current m; mg_children m !! c with Some x => iw_key x | None => [] end.

Definition mg_value (m : MergingIterator) : res bytes :=
  c ← of_option NullDeref (mg_current m); x ← child_at (mg_children m) c; iw_value (W := W) x.

(** The children are not [NULL]. *)
Fixpoint children_status (cs : list (IteratorWrapper I)) (status : Status) : Status :=
  match cs with
  | [] => status
  | c :: cs' =>
      match iw_iter c with
      | Some it => if status_ok (i_status it) then children_status cs' (i_status it) else i_status it
      | None => status
      end
  end.

Definition mg_status (m : MergingIterator) : Status := children_status (mg_children m) status_OK.

Definition merging_iterator : Iterator W MergingIterator := {|
  i_Valid := mg_Valid; i_SeekToFirst := mg_SeekToFirst; i_SeekToLast := mg_SeekToLast; i_Seek := mg_Seek;
  i_Next := mg_Next; i_Prev := mg_Prev; i_key := mg_key; i_value := mg_value; i_status := mg_status |}.
End Merging.
Arguments MergingIterator I : clear implicits.

(** No child, one, or several. *)
Definition NewMergingIterator {W I} `{!Iterator W I} (list_ : list I) : res (EmptyIterator + (I + MergingIterator I)) :=
  match list_ with
  | [] => Ok (inl NewEmptyIterator)
  | [it] => Ok (inr (inl it))
  | _ => m ← MergingIterator_new (W := W) list_; Ok (inr (inr m))
  end.
