(* ===== verification/LvlMergeSpec.v ===== *)
(** * The merging iterator is a cursor

    When the entries of several cursors are one ascending list without equal
    keys, the iterator that merges the cursors is a cursor in that list, in both
    directions and across changes of direction. *)
From S2P Require Import Prelude Store LvlCoding LvlBase LvlBlock LvlBlockSpec LvlIterator LvlIteratorSpec LvlMerge.

(** ** Iterators of two kinds *)
Section Dispatch.
Context (uc : comparator) {W A B : Type} {AT : Iterator W A} {BT : Iterator W B} (okw : W -> Prop).

Definition in_sum (RA : nat -> A -> Prop) (RB : nat -> B -> Prop) (p : nat) (it : A + B) : Prop :=
  match it with inl a => RA p a | inr b => RB p b end.

Lemma steps_inl (f : W -> res (A * W)) (Q : A + B -> Prop) : steps okw f (fun a => Q (inl a)) -> steps okw (fun w => inl_state (f w)) Q.
Proof. intros Hf w Hw. destruct (Hf w Hw) as (a & w' & -> & Hw' & Ha). by exists (inl a), w'. Qed.

Lemma steps_inr (f : W -> res (B * W)) (Q : A + B -> Prop) : steps okw f (fun b => Q (inr b)) -> steps okw (fun w => inr_state (f w)) Q.
Proof. intros Hf w Hw. destruct (Hf w Hw) as (b & w' & -> & Hw' & Hb). by exists (inr b), w'. Qed.

Lemma no_cursor es : is_cursor uc okw (I := A) (fun _ _ => False) es.
Proof. by split. Qed.

Lemma sum_cursor RA RB es : is_cursor uc okw RA es -> is_cursor uc okw RB es -> is_cursor uc okw (in_sum RA RB) es.
Proof.
  intros HA HB. split; intros p [a|b]; cbn.
  1,2: by eauto using cur_valid.
  1,2: by eauto using cur_at.
  1,2: by eauto using cur_status.
  all: intros; first [apply steps_inl|apply steps_inr]; by eauto using cur_first, cur_last, cur_seek, cur_next, cur_prev.
Qed.
End Dispatch.

(** ** Interleavings

    The merged list, every entry with the child it comes from. *)
Abbreviation tagged_entries := (list (nat * (bytes * bytes))).

Definition part (tagged : tagged_entries) (i : nat) : entries := snd <$> filter (fun x => fst x = i) tagged.
Definition merged (tagged : tagged_entries) : entries := snd <$> tagged.

(** How many of the first [p] entries are of child [i]. *)
Definition cut (tagged : tagged_entries) (i p : nat) : nat := length (part (take p tagged) i).

(** The place before a place. *)
Definition before (l : entries) (k : nat) : nat := match k with O => length l | S q => q end.

Section Interleave.
Context (tagged : tagged_entries).

Lemma part_app l1 l2 i : part (l1 ++ l2) i = part l1 i ++ part l2 i.
Proof. unfold part. by rewrite filter_app, fmap_app. Qed.

Lemma part_split i p : part tagged i = part (take p tagged) i ++ part (drop p tagged) i.
Proof. by rewrite <- part_app, take_drop. Qed.

Lemma elem_of_part l i y : y ∈ part l i <-> (i, y) ∈ l.
Proof.
  unfold part. rewrite list_elem_of_fmap. setoid_rewrite list_elem_of_filter. split.
  - by intros ([j z] & -> & <- & H).
  - intros H. by exists (i, y).
Qed.

Lemma cut_0 i : cut tagged i 0 = 0%nat.
Proof. done. Qed.

Lemma cut_end i p : (length tagged <= p)%nat -> cut tagged i p = length (part tagged i).
Proof. intros Hp. unfold cut. by rewrite take_ge. Qed.

Lemma cut_le i p : (cut tagged i p <= length (part tagged i))%nat.
Proof. rewrite (part_split i p), length_app. unfold cut. lia. Qed.

(** What a child shows that is behind a place, and before it. *)
Lemma cut_shows i p y : part tagged i !! cut tagged i p = Some y -> exists j, (p <= j)%nat /\ tagged !! j = Some (i, y).
Proof.
  rewrite (part_split i p), lookup_app_r by done. intros Hy%list_elem_of_lookup_2. apply elem_of_part in Hy.
  apply list_elem_of_lookup in Hy as [j Hj]. rewrite lookup_drop in Hj. exists (p + j)%nat. split; [lia|done].
Qed.

Lemma cut_hides i p q y : (q < cut tagged i p)%nat -> part tagged i !! q = Some y -> exists j, (j < p)%nat /\ tagged !! j = Some (i, y).
Proof.
  intros Hq. rewrite (part_split i p), lookup_app_l by done. intros Hy%list_elem_of_lookup_2. apply elem_of_part in Hy.
  apply list_elem_of_lookup in Hy as [j Hj]. apply lookup_take_Some in Hj as [Hj Hp]. by exists j.
Qed.

Lemma cut_S p c x i : tagged !! p = Some (c, x) -> cut tagged i (S p) = (cut tagged i p + if decide (c = i) then 1 else 0)%nat.
Proof.
  intros Hp. unfold cut. rewrite (take_S_r _ _ _ Hp), part_app, length_app. f_equal. unfold part.
  case_decide; [by rewrite filter_cons_True|by rewrite filter_cons_False].
Qed.

Lemma cut_own p c x : tagged !! p = Some (c, x) -> part tagged c !! cut tagged c p = Some x.
Proof.
  intros Hp. rewrite (part_split c p), lookup_app_r by done. unfold cut. rewrite Nat.sub_diag, (drop_S _ _ _ Hp). unfold part. by rewrite filter_cons_True.
Qed.

Lemma merged_at p c x : tagged !! p = Some (c, x) -> merged tagged !! p = Some x.
Proof. intros Hp. unfold merged. by rewrite list_lookup_fmap, Hp. Qed.

Lemma merged_owner p x : merged tagged !! p = Some x -> exists c, tagged !! p = Some (c, x).
Proof. unfold merged. rewrite list_lookup_fmap. intros ([c y] & Hp & ->)%fmap_Some. by exists c. Qed.

Section Sorted.
Context (uc : comparator) {UL : CmpLaws uc}.
Context (Hdom : forall x, x ∈ merged tagged -> dom uc (fst x) = true).
Context (Hsort : forall i j x y, merged tagged !! i = Some x -> merged tagged !! j = Some y -> (i < j)%nat -> cmp uc (fst x) (fst y) < 0).

(** Seeking in all children is seeking in the merged list. *)
Lemma cut_lower t i : dom uc t = true -> lower_bound uc t (part tagged i) = cut tagged i (lower_bound uc t (merged tagged)).
Proof.
  intros Ht. set (p := lower_bound uc t (merged tagged)). rewrite (part_split i p).
  rewrite lower_app_low; [|intros y Hy%elem_of_part; apply list_elem_of_lookup in Hy as [j [Hj Hp]%lookup_take_Some]; apply (lower_below uc t (merged tagged) j); [done|by apply merged_at with i]].
  assert (forall y, y ∈ part (drop p tagged) i -> 0 <= cmp uc (fst y) t) as Hhigh.
  { intros y Hy%elem_of_part. apply list_elem_of_lookup in Hy as [j Hj]. rewrite lookup_drop in Hj. apply merged_at in Hj as Hy.
    assert (p < length (merged tagged))%nat as [z Hz]%lookup_lt_is_Some by (apply lookup_lt_Some in Hy; lia).
    pose proof (lower_found uc t (merged tagged) z Hz) as Hz0. destruct j as [|j]; [rewrite Nat.add_0_r in Hy; by simplify_eq|].
    assert (cmp uc (fst z) (fst y) < 0) as Hzy by (apply (Hsort p (p + S j)%nat); [done|done|lia]).
    assert (dom uc (fst z) = true /\ dom uc (fst y) = true) as [Dz Dy] by (split; apply Hdom; by eapply list_elem_of_lookup_2).
    destruct (Z.lt_ge_cases (cmp uc (fst y) t) 0) as [Hlt|]; [|done].
    pose proof (cmp_trans _ _ _ Dz Dy Ht Hzy Hlt). lia. }
  rewrite <- (app_nil_l (part (drop p tagged) i)), lower_app_high by done. cbn. unfold cut. lia.
Qed.

Lemma lower_self p x : merged tagged !! p = Some x -> lower_bound uc (fst x) (merged tagged) = p.
Proof.
  intros Hp. assert (dom uc (fst x) = true) as Dx by (apply Hdom; by eapply list_elem_of_lookup_2).
  destruct (Nat.lt_trichotomy (lower_bound uc (fst x) (merged tagged)) p) as [H|[H|H]]; [|done|].
  - assert (lower_bound uc (fst x) (merged tagged) < length (merged tagged))%nat as [z Hz]%lookup_lt_is_Some by (apply lookup_lt_Some in Hp; lia).
    pose proof (lower_found _ _ _ _ Hz). pose proof (Hsort _ _ _ _ Hz Hp H). lia.
  - pose proof (lower_below _ _ _ _ _ H Hp) as Hlt. rewrite cmp_refl in Hlt by done. lia.
Qed.
End Sorted.
End Interleave.

(** ** The children *)
Lemma list_choice {A} (P : nat -> nat -> A -> Prop) (l : list A) : (forall i x, l !! i = Some x -> exists p, P i p x) ->
  exists f, forall i x, l !! i = Some x -> P i (f i) x.
Proof.
  revert P. induction l as [|a l IH]; intros P H; [exists (fun _ => 0%nat); intros i x; by rewrite lookup_nil|].
  destruct (H 0%nat a eq_refl) as [p Hp]. destruct (IH (fun i => P (S i)) (fun i => H (S i))) as [f Hf].
  exists (fun i => match i with O => p | S i => f i end). intros [|i] x; cbn; [by intros [= <-]|apply Hf].
Qed.

Lemma wrap_all {W I} {IT : Iterator W I} (R : nat -> nat -> I -> Prop) (pos : nat -> nat) its : (forall i it, its !! i = Some it -> R i (pos i) it) ->
  exists cs, mapM (fun it => IteratorWrapper_new (W := W) (Some it)) its = Ok cs /\ length cs = length its /\
    forall i x, cs !! i = Some x -> wrapped (R i) (pos i) x.
Proof.
  revert R pos. induction its as [|it its IH]; intros R pos Hits; [by exists []|].
  destruct (IH (fun i => R (S i)) (fun i => pos (S i)) (fun i => Hits (S i))) as (cs & E & Hl & Hcs).
  destruct (wrap_update (R 0%nat) (pos 0%nat) it false [] (Hits 0%nat it eq_refl)) as (x & Ex & Hx). exists (x :: cs). cbn [mapM].
  change (IteratorWrapper_new (W := W) (Some it)) with (iw_Update (W := W) (MkWrapper (Some it) false [])). rewrite Ex. cbn [mbind res_bind]. rewrite E.
  split; [done|]. split; [cbn; lia|]. intros [|i] y; cbn; [by intros [= <-]|apply Hcs].
Qed.

Section Merge.
Context (uc : comparator) {UL : CmpLaws uc} {W I : Type} {IT : Iterator W I} (okw : W -> Prop).
Context (tagged : tagged_entries) (n : nat) (R : nat -> nat -> I -> Prop).
Hypothesis Hcur : forall i, (i < n)%nat -> is_cursor uc okw (R i) (part tagged i).

(** Every child at its place. *)
Definition at_places (pos : nat -> nat) (cs : list (IteratorWrapper I)) : Prop :=
  length cs = n /\ forall i x, cs !! i = Some x -> wrapped (R i) (pos i) x.

Lemma places_child pos cs i : at_places pos cs -> (i < n)%nat -> exists x, child_at cs i = Ok x /\ wrapped (R i) (pos i) x.
Proof.
  intros [Hl Hw] Hi. rewrite <- Hl in Hi. apply lookup_lt_is_Some in Hi as [x Hx]. exists x. unfold child_at. rewrite Hx. by split; [|apply Hw].
Qed.

Lemma places_ext pos pos' cs : (forall i, (i < n)%nat -> pos i = pos' i) -> at_places pos cs -> at_places pos' cs.
Proof. intros Hp [Hl Hw]. split; [done|]. intros i x Hx. rewrite <- Hp; [by apply Hw|]. rewrite <- Hl. by apply lookup_lt_Some in Hx. Qed.

Lemma each_ok_from f pos pos' cs k : (forall i x, cs !! i = Some x -> wrapped (R (k + i)%nat) (pos (k + i)%nat) x) ->
  (forall i x, (k <= i < k + length cs)%nat -> wrapped (R i) (pos i) x -> steps okw (f i x) (wrapped (R i) (pos' i))) ->
  steps okw (each_child f k cs) (fun cs' => length cs' = length cs /\ forall i x, cs' !! i = Some x -> wrapped (R (k + i)%nat) (pos' (k + i)%nat) x).
Proof.
  revert k. induction cs as [|c cs IH]; intros k Hw Hf; cbn [each_child].
  - apply steps_ret. split; [done|]. intros i x. by rewrite lookup_nil.
  - cbn [length] in Hf. eapply steps_bind; [apply (Hf k c); [lia|]; specialize (Hw 0%nat c eq_refl); by rewrite Nat.add_0_r in Hw|]. intros c' Hc'.
    eapply steps_bind.
    + apply (IH (S k)); [|intros i x Hi; apply Hf; lia]. intros i x Hx. replace (S k + i)%nat with (k + S i)%nat by lia. by apply Hw.
    + intros cs' [Hl Hcs']. apply steps_ret. split; [cbn; lia|]. intros [|i] x; cbn [lookup list_lookup].
      * intros [= <-]. by rewrite Nat.add_0_r.
      * intros Hx. replace (k + S i)%nat with (S k + i)%nat by lia. by apply Hcs'.
Qed.

Lemma each_ok f pos pos' cs : at_places pos cs ->
  (forall i x, (i < n)%nat -> wrapped (R i) (pos i) x -> steps okw (f i x) (wrapped (R i) (pos' i))) ->
  steps okw (each_child f 0 cs) (at_places pos').
Proof.
  intros [Hl Hw] Hf. eapply steps_mono; [apply (each_ok_from f pos pos' cs 0); [done|intros i x Hi; apply Hf; lia]|].
  intros cs' [Hl' Hw']. split; [lia|done].
Qed.

(** ** The child to stand on *)
Section Best.
Context (wins : Z -> bool) (pos : nat -> nat) (cs : list (IteratorWrapper I)) (Hcs : at_places pos cs).

Lemma child_shown i x : (i < n)%nat -> wrapped (R i) (pos i) x ->
  iw_valid x = true /\ (exists y, part tagged i !! pos i = Some y /\ iw_key x = fst y) \/ iw_valid x = false /\ part tagged i !! pos i = None.
Proof.
  intros Hi Hx. rewrite (wrap_valid _ _ _ _ (Hcur i Hi) _ _ Hx). destruct (part tagged i !! pos i) as [y|] eqn:Hy.
  - left. rewrite bool_decide_eq_true_2 by (by apply lookup_lt_Some in Hy). split; [done|]. exists y. split; [done|]. by apply (wrap_at _ _ _ _ (Hcur i Hi) _ _ _ Hx Hy).
  - right. rewrite bool_decide_eq_false_2; [done|]. apply lookup_ge_None in Hy. lia.
Qed.

(** None of them shows anything. *)
Lemma best_none l : (forall i, i ∈ l -> (i < n)%nat /\ part tagged i !! pos i = None) -> find_best uc wins cs l None = Ok None.
Proof.
  induction l as [|i l IH]; intros Hl; cbn [find_best]; [done|]. destruct (Hl i) as [Hi Hn]; [set_solver|]. unfold better.
  destruct (places_child pos cs i Hcs Hi) as (x & -> & Hx). cbn [mbind res_bind].
  destruct (child_shown i x Hi Hx) as [(_ & y & Hy & _)|[-> _]]; [by rewrite Hn in Hy|]. cbn [mbind res_bind]. apply IH. intros j Hj. apply Hl. set_solver.
Qed.

(** One of them wins against all others. *)
Context (c : nat) (x : bytes * bytes) (Hcx : part tagged c !! pos c = Some x).
Context (Hwin : forall i y, (i < n)%nat -> i <> c -> part tagged i !! pos i = Some y -> wins (cmp uc (fst x) (fst y)) = true /\ wins (cmp uc (fst y) (fst x)) = false).

Lemma best_step i b : (i < n)%nat -> (match b with Some j => (j < n)%nat /\ exists y, part tagged j !! pos j = Some y | None => True end) ->
  exists b', better uc wins cs b i = Ok b' /\ (match b' with Some j => (j < n)%nat /\ exists y, part tagged j !! pos j = Some y | None => True end) /\
    (b = Some c \/ i = c -> b' = Some c).
Proof.
  intros Hi Hb. unfold better. destruct (places_child pos cs i Hcs Hi) as (z & -> & Hz). cbn [mbind res_bind].
  destruct (child_shown i z Hi Hz) as [(-> & y & Hy & Hk)|[-> Hn]].
  - destruct b as [j|]; [|exists (Some i); split; [done|]; split; [by eauto|]; intros [?| ->]; done].
    destruct Hb as (Hj & y' & Hy'). destruct (places_child pos cs j Hcs Hj) as (z' & -> & Hz'). cbn [mbind res_bind].
    destruct (child_shown j z' Hj Hz') as [(_ & y2 & Hy2 & Hk')|[_ Hn]]; [|by rewrite Hn in Hy']. rewrite Hy' in Hy2. injection Hy2 as <-.
    rewrite Hk, Hk'. eexists. split; [reflexivity|]. split; [destruct (wins _); by eauto|]. intros [[= ->]| ->].
    + rewrite Hcx in Hy'. injection Hy' as <-. destruct (decide (i = c)) as [->|Hne]; [by destruct (wins _)|]. destruct (Hwin i y Hi Hne Hy) as [_ ->]. done.
    + rewrite Hcx in Hy. injection Hy as <-. destruct (decide (j = c)) as [->|Hne]; [by destruct (wins _)|]. destruct (Hwin j y' Hj Hne Hy') as [-> _]. done.
  - exists b. split; [done|]. split; [done|]. intros [->| ->]; [done|]. by rewrite Hcx in Hn.
Qed.

Lemma best_found l : forall b, (forall i, i ∈ l -> (i < n)%nat) ->
  (match b with Some j => (j < n)%nat /\ exists y, part tagged j !! pos j = Some y | None => True end) -> b = Some c \/ c ∈ l ->
  find_best uc wins cs l b = Ok (Some c).
Proof.
  induction l as [|i l IH]; intros b Hl Hb Hin; cbn [find_best].
  - destruct Hin as [->|?]; [done|set_solver].
  - destruct (best_step i b) as (b' & -> & Hb' & Hbc); [apply Hl; set_solver|done|]. cbn [mbind res_bind]. apply IH; [intros j Hj; apply Hl; set_solver|done|].
    destruct Hin as [Hin|[->|Hin]%elem_of_cons]; [left; by auto|left; by auto|by right].
Qed.
End Best.

Hypothesis Htags : forall x, x ∈ tagged -> (fst x < n)%nat.
Hypothesis Hdom : forall x, x ∈ merged tagged -> dom uc (fst x) = true.
Hypothesis Hsort : forall i j x y, merged tagged !! i = Some x -> merged tagged !! j = Some y -> (i < j)%nat -> cmp uc (fst x) (fst y) < 0.

Lemma owner_child p c x : tagged !! p = Some (c, x) -> (c < n)%nat.
Proof. intros Hp. by apply (Htags (c, x)), list_elem_of_lookup_2 with p. Qed.

(** Two entries apart in the merged list. *)
Lemma apart i j c d x y : tagged !! i = Some (c, x) -> tagged !! j = Some (d, y) -> (i < j)%nat ->
  cmp uc (fst x) (fst y) < 0 /\ 0 < cmp uc (fst y) (fst x).
Proof.
  intros Hi%merged_at Hj%merged_at Hij. pose proof (Hsort _ _ _ _ Hi Hj Hij). split; [done|].
  apply cmp_opp; [by apply Hdom; eapply list_elem_of_lookup_2..|done].
Qed.

Lemma smallest_ok p m : at_places (fun i => cut tagged i p) (mg_children m) ->
  FindSmallest uc m = Ok (MkMerging (mg_children m) (fst <$> tagged !! p) (mg_direction m)).
Proof.
  intros Hm. unfold FindSmallest. destruct (tagged !! p) as [[c x]|] eqn:Hp; cbn [fmap option_fmap option_map fst].
  - pose proof (owner_child _ _ _ Hp) as Hc. rewrite (best_found (fun r => r <? 0) _ _ Hm c x (cut_own _ _ _ _ Hp)); [done| |intros i Hi%elem_of_seq; destruct Hm as [Hl _]; lia|done|].
    + intros i y Hi Hne (j & Hj & Hy)%cut_shows. assert (p < j)%nat as Hlt by (destruct (decide (p = j)) as [->|]; [rewrite Hp in Hy; congruence|lia]).
      destruct (apart _ _ _ _ _ _ Hp Hy Hlt). rewrite Z.ltb_lt, Z.ltb_ge. lia.
    + right. apply elem_of_seq. destruct Hm as [-> _]. lia.
  - rewrite (best_none _ _ _ Hm); [done|]. intros i Hi%elem_of_seq. destruct Hm as [Hl _]. split; [lia|].
    apply lookup_ge_None in Hp. rewrite cut_end by done. apply lookup_ge_None. lia.
Qed.

Lemma largest_ok p m : (p <= length tagged)%nat -> at_places (fun i => before (part tagged i) (cut tagged i p)) (mg_children m) ->
  FindLargest uc m = Ok (MkMerging (mg_children m) (match p with O => None | S q => fst <$> tagged !! q end) (mg_direction m)).
Proof.
  intros Hp Hm. unfold FindLargest. destruct p as [|p].
  - rewrite (best_none _ _ _ Hm); [done|]. intros i Hi%elem_of_reverse%elem_of_seq. destruct Hm as [Hl _]. split; [lia|]. rewrite cut_0. apply lookup_ge_None. cbn. lia.
  - destruct (lookup_lt_is_Some_2 tagged p) as [[c x] Hx]; [lia|]. rewrite Hx. cbn [fmap option_fmap option_map fst]. pose proof (owner_child _ _ _ Hx) as Hc.
    rewrite (best_found (fun r => 0 <? r) _ _ Hm c x); [done| | |intros i Hi%elem_of_reverse%elem_of_seq; destruct Hm as [Hl _]; lia|done|].
    + rewrite (cut_S _ _ _ _ _ Hx), decide_True, Nat.add_1_r by done. by apply cut_own.
    + intros i y Hi Hne Hy. destruct (cut tagged i (S p)) as [|q] eqn:Hq; cbn [before] in Hy; [apply lookup_lt_Some in Hy; lia|].
      destruct (cut_hides tagged i (S p) q y) as (j & Hj & Hjy); [lia|done|].
      assert (j < p)%nat as Hlt by (destruct (decide (p = j)) as [->|]; [rewrite Hx in Hjy; congruence|lia]).
      destruct (apart _ _ _ _ _ _ Hjy Hx Hlt). rewrite Z.ltb_lt, Z.ltb_ge. lia.
    + right. apply elem_of_reverse, elem_of_seq. destruct Hm as [-> _]. lia.
Qed.

(** ** The places of the merging iterator

    Going forward every child is at its first entry that is not before the
    place, going backward at its last one that is not behind it. *)
Definition mg_pos (p : nat) (m : MergingIterator I) : Prop :=
  match tagged !! p with
  | Some (c, _) =>
      mg_current m = Some c /\
      match mg_direction m with
      | kForward => at_places (fun i => cut tagged i p) (mg_children m)
      | kReverse => at_places (fun i => before (part tagged i) (cut tagged i (S p))) (mg_children m)
      end
  | None => mg_current m = None /\ exists pos, at_places pos (mg_children m)
  end.

Lemma pos_places p m : mg_pos p m -> exists pos, at_places pos (mg_children m).
Proof. unfold mg_pos. destruct (tagged !! p) as [[c x]|]; [|by intros []]. intros [_ H]. destruct (mg_direction m); by eauto. Qed.

Lemma pos_forward p m : mg_direction m = kForward -> at_places (fun i => cut tagged i p) (mg_children m) -> mg_current m = fst <$> tagged !! p -> mg_pos p m.
Proof. intros Hd Hm Hc. unfold mg_pos. rewrite Hd. destruct (tagged !! p) as [[c x]|]; [done|]. by eauto. Qed.

Lemma pos_reverse p m : (p <= length tagged)%nat -> mg_direction m = kReverse -> at_places (fun i => before (part tagged i) (cut tagged i p)) (mg_children m) ->
  mg_current m = (match p with O => None | S q => fst <$> tagged !! q end) -> mg_pos (before (merged tagged) p) m.
Proof.
  intros Hp Hd Hm Hc. unfold mg_pos. rewrite Hd. destruct p as [|q]; cbn [before].
  - rewrite lookup_ge_None_2 by (unfold merged; by rewrite length_fmap). by eauto.
  - destruct (tagged !! q) as [[c x]|]; [done|]. by eauto.
Qed.

(** ** Seeking *)
Lemma before_last (l : entries) : before l (length l) = (length l - 1)%nat.
Proof. destruct l; cbn; lia. Qed.

Lemma length_merged : length (merged tagged) = length tagged.
Proof. apply length_fmap. Qed.

Lemma land_forward f p q m : mg_pos q m ->
  (forall i k x, (i < n)%nat -> wrapped (R i) k x -> steps okw (f x) (wrapped (R i) (cut tagged i p))) ->
  steps okw (fun w => '(cs, w) ← each_child (fun _ => f) 0 (mg_children m) w; m ← FindSmallest uc (with_children cs m); Ok (set_direction kForward m, w)) (mg_pos p).
Proof.
  intros [pos Hm]%pos_places Hf. eapply steps_bind; [apply (each_ok _ _ (fun i => cut tagged i p) _ Hm); intros i x Hi Hx; by eapply Hf|].
  intros cs Hcs w Hw. rewrite (smallest_ok p) by done. cbn [mbind res_bind]. eexists _, w. split; [done|]. split; [done|]. by apply pos_forward.
Qed.

Lemma mg_first_ok q m : mg_pos q m -> steps okw (mg_SeekToFirst uc m) (mg_pos 0).
Proof. intros Hm. apply (land_forward _ 0 q _ Hm). intros i k x Hi Hx. rewrite cut_0. exact (wrap_first _ _ _ _ (Hcur i Hi) _ _ Hx). Qed.

Lemma mg_seek_ok q m t : mg_pos q m -> dom uc t = true -> steps okw (mg_Seek uc t m) (mg_pos (lower_bound uc t (merged tagged))).
Proof.
  intros Hm Ht. apply (land_forward _ _ q _ Hm). intros i k x Hi Hx. rewrite <- (cut_lower tagged uc Hdom Hsort t i Ht). by apply (wrap_seek _ _ _ _ (Hcur i Hi) k).
Qed.

Lemma mg_last_ok q m : mg_pos q m -> steps okw (mg_SeekToLast uc m) (mg_pos (length (merged tagged) - 1)).
Proof.
  intros [pos Hm]%pos_places. eapply steps_bind.
  - apply (each_ok _ _ (fun i => before (part tagged i) (cut tagged i (length tagged))) _ Hm). intros i x Hi Hx.
    rewrite cut_end, before_last by done. exact (wrap_last _ _ _ _ (Hcur i Hi) _ _ Hx).
  - intros cs Hcs w Hw. rewrite (largest_ok (length tagged)) by done. cbn [mbind res_bind]. eexists _, w. split; [done|]. split; [done|].
    rewrite <- before_last, length_merged. by apply pos_reverse.
Qed.

(** ** Steps *)
Lemma current_ok f c m pos q : at_places pos (mg_children m) -> (c < n)%nat -> (forall x, wrapped (R c) (pos c) x -> steps okw (f x) (wrapped (R c) q)) ->
  steps okw (on_current f c m) (fun m' => mg_direction m' = mg_direction m /\ at_places (fun i => if decide (i = c) then q else pos i) (mg_children m')).
Proof.
  intros Hm Hc Hf w Hw. unfold on_current. destruct (places_child _ _ _ Hm Hc) as (x & -> & Hx). cbn [mbind res_bind].
  destruct (Hf x Hx w Hw) as (x' & w' & -> & Hw' & Hx'). cbn [mbind res_bind]. eexists _, w'. split; [done|]. split; [done|]. split; [done|].
  destruct Hm as [Hl Hm]. cbn [with_children mg_children]. split; [by rewrite length_insert|]. intros i y. destruct (decide (i = c)) as [->|Hne].
  - rewrite list_lookup_insert_eq by lia. by intros [= <-].
  - rewrite list_lookup_insert_ne by done. apply Hm.
Qed.

(** The child the iterator is at, whatever the direction. *)
Lemma before_own p c x : tagged !! p = Some (c, x) -> before (part tagged c) (cut tagged c (S p)) = cut tagged c p.
Proof. intros Hp. by rewrite (cut_S _ _ _ _ _ Hp), decide_True, Nat.add_1_r by done. Qed.

Lemma before_other p c x i : tagged !! p = Some (c, x) -> i <> c -> cut tagged i (S p) = cut tagged i p.
Proof. intros Hp Hi. by rewrite (cut_S _ _ _ _ _ Hp), decide_False, Nat.add_0_r by done. Qed.

Lemma seek_to_place p c x i k y : tagged !! p = Some (c, x) -> (i < n)%nat -> wrapped (R i) k y -> steps okw (iw_Seek (fst x) y) (wrapped (R i) (cut tagged i p)).
Proof.
  intros Hp Hi Hy. apply merged_at in Hp as Hx. rewrite <- (lower_self tagged uc Hdom Hsort p x Hx). assert (dom uc (fst x) = true) by (apply Hdom; by eapply list_elem_of_lookup_2).
  rewrite <- (cut_lower tagged uc Hdom Hsort) by done. by apply (wrap_seek _ _ _ _ (Hcur i Hi) k).
Qed.

Lemma child_after_ok p c x i k y : tagged !! p = Some (c, x) -> (i < n)%nat -> wrapped (R i) k y -> (i = c -> k = cut tagged i p) ->
  steps okw (child_after uc c (fst x) i y) (wrapped (R i) (cut tagged i p)).
Proof.
  intros Hp Hi Hy Hk. unfold child_after. destruct (Nat.eqb_spec i c) as [Hic|Hic]; [rewrite <- Hk by done; by apply steps_ret|].
  eapply steps_bind; [by apply (seek_to_place p c x i k)|]. intros y' Hy'. assert (iw_valid y' && (cmp uc (fst x) (iw_key y') =? 0) = false) as ->; [|by apply steps_ret].
  destruct (child_shown (fun i => cut tagged i p) i y' Hi Hy') as [(-> & z & (j & Hj & Hz)%cut_shows & ->)|[-> _]]; [|done]. cbn [andb].
  assert (p < j)%nat as Hlt by (destruct (decide (p = j)) as [->|]; [rewrite Hp in Hz; congruence|lia]).
  destruct (apart _ _ _ _ _ _ Hp Hz Hlt). apply Z.eqb_neq. lia.
Qed.

Lemma child_before_ok p c x i k y : tagged !! p = Some (c, x) -> (i < n)%nat -> wrapped (R i) k y -> (i = c -> k = cut tagged i p) ->
  steps okw (child_before c (fst x) i y) (wrapped (R i) (before (part tagged i) (cut tagged i (S p)))).
Proof.
  intros Hp Hi Hy Hk. unfold child_before. destruct (Nat.eqb_spec i c) as [Hic|Hic].
  - subst i. rewrite (before_own _ _ _ Hp), <- Hk by done. by apply steps_ret.
  - eapply steps_bind; [by apply (seek_to_place p c x i k)|]. intros y' Hy'. rewrite (before_other _ _ _ _ Hp) by done.
    rewrite (wrap_valid _ _ _ _ (Hcur i Hi) _ _ Hy'). case_bool_decide as Hv.
    + exact (wrap_prev _ _ _ _ (Hcur i Hi) _ _ Hy' Hv).
    + replace (cut tagged i p) with (length (part tagged i)) by (pose proof (cut_le tagged i p); lia). rewrite before_last. exact (wrap_last _ _ _ _ (Hcur i Hi) _ _ Hy').
Qed.

Lemma turn_ok d move (pos : nat -> nat) p c x m : tagged !! p = Some (c, x) -> mg_pos p m ->
  (mg_direction m = d -> at_places pos (mg_children m)) ->
  (forall i k y, (i < n)%nat -> wrapped (R i) k y -> (i = c -> k = cut tagged i p) -> steps okw (move c (fst x) i y) (wrapped (R i) (pos i))) ->
  steps okw (turn d move c m) (fun m' => mg_direction m' = d /\ at_places pos (mg_children m')).
Proof.
  intros Hp Hm Hd Hmove. unfold turn. case_bool_decide as Hdir; [apply steps_ret; by auto|].
  assert (exists pos0, at_places pos0 (mg_children m) /\ pos0 c = cut tagged c p) as (pos0 & Hpl & Hc0).
  { unfold mg_pos in Hm. rewrite Hp in Hm. destruct Hm as [_ Hm]. destruct (mg_direction m); eexists; (split; [exact Hm|]); [done|]. by apply before_own with x. }
  intros w Hw. destruct (places_child _ _ c Hpl) as (cur & -> & Hcur'); [by apply owner_child with p x|]. cbn [mbind res_bind].
  assert (iw_key cur = fst x) as ->.
  { rewrite Hc0 in Hcur'. by apply (wrap_at _ _ _ _ (Hcur c (owner_child _ _ _ Hp)) _ _ _ Hcur' (cut_own _ _ _ _ Hp)). }
  destruct (each_ok (move c (fst x)) pos0 pos (mg_children m) Hpl) with (w := w) as (cs & w' & -> & Hw' & Hcs).
  - intros i y Hi Hy. apply (Hmove i (pos0 i)); [done|done|]. by intros ->.
  - done.
  - eexists _, w'. split; [done|]. by split; [|split].
Qed.

Lemma mg_next_ok p m : mg_pos p m -> (p < length (merged tagged))%nat -> steps okw (mg_Next uc m) (mg_pos (S p)).
Proof.
  rewrite length_merged. intros Hm [[c x] Hp]%lookup_lt_is_Some. pose proof (owner_child _ _ _ Hp) as Hc. unfold mg_Next.
  assert (mg_current m = Some c) as -> by (unfold mg_pos in Hm; rewrite Hp in Hm; by destruct Hm). cbn [of_option mbind res_bind].
  eapply steps_bind; [apply (turn_ok kForward (child_after uc) (fun i => cut tagged i p) p c x m Hp Hm)|].
  - intros Hd. unfold mg_pos in Hm. rewrite Hp, Hd in Hm. by destruct Hm.
  - intros i k y Hi. by apply child_after_ok.
  - intros m1 [Hd1 Hm1]. eapply steps_bind; [apply (current_ok iw_Next c m1 _ (S (cut tagged c p)) Hm1 Hc)|].
    + intros y Hy. apply (wrap_next _ _ _ _ (Hcur c Hc)); [done|]. apply lookup_lt_Some with x. by apply cut_own.
    + intros m2 [Hd2 Hm2] w Hw. rewrite (smallest_ok (S p)).
      * eexists _, w. split; [done|]. split; [done|]. apply pos_forward; [cbn; congruence| |done]. eapply places_ext, Hm2. intros i Hi. cbn.
        rewrite (cut_S _ _ _ _ _ Hp). destruct (decide (i = c)) as [->|]; [rewrite decide_True by done; lia|rewrite decide_False by done; lia].
      * eapply places_ext, Hm2. intros i Hi. cbn. rewrite (cut_S _ _ _ _ _ Hp). destruct (decide (i = c)) as [->|]; [rewrite decide_True by done; lia|rewrite decide_False by done; lia].
Qed.

Lemma mg_prev_ok p m : mg_pos p m -> (p < length (merged tagged))%nat -> steps okw (mg_Prev uc m) (mg_pos (before (merged tagged) p)).
Proof.
  rewrite length_merged. intros Hm Hlt. pose proof Hlt as [[c x] Hp]%lookup_lt_is_Some. pose proof (owner_child _ _ _ Hp) as Hc. unfold mg_Prev.
  assert (mg_current m = Some c) as -> by (unfold mg_pos in Hm; rewrite Hp in Hm; by destruct Hm). cbn [of_option mbind res_bind].
  eapply steps_bind; [apply (turn_ok kReverse child_before (fun i => before (part tagged i) (cut tagged i (S p))) p c x m Hp Hm)|].
  - intros Hd. unfold mg_pos in Hm. rewrite Hp, Hd in Hm. by destruct Hm.
  - intros i k y Hi. by apply child_before_ok.
  - intros m1 [Hd1 Hm1]. eapply steps_bind; [apply (current_ok iw_Prev c m1 _ (before (part tagged c) (cut tagged c p)) Hm1 Hc)|].
    + intros y Hy. rewrite (before_own _ _ _ Hp) in Hy. apply (wrap_prev _ _ _ _ (Hcur c Hc)); [done|]. apply lookup_lt_Some with x. by apply cut_own.
    + intros m2 [Hd2 Hm2] w Hw. apply (places_ext _ (fun i => before (part tagged i) (cut tagged i p))) in Hm2.
      * rewrite (largest_ok p) by (done || lia). eexists _, w. split; [done|]. split; [done|]. apply pos_reverse; [lia|cbn; congruence|done|done].
      * intros i Hi. cbn. destruct (decide (i = c)) as [->|Hne]; [done|]. by rewrite (before_other _ _ _ _ Hp Hne).
Qed.

Lemma children_ok cs pos : at_places pos cs -> children_status cs status_OK = status_OK.
Proof.
  intros [Hl Hcs]. assert (Forall (fun x => exists it, iw_iter x = Some it /\ i_status it = status_OK) cs) as HF.
  { apply Forall_lookup. intros i x Hx. assert (i < n)%nat as Hi by (rewrite <- Hl; by apply lookup_lt_Some in Hx).
    destruct (Hcs i x Hx) as (it & k & -> & Hit & _). exists it. split; [done|]. by apply (cur_status uc okw _ _ (Hcur i Hi) (pos i)). }
  clear -HF. induction HF as [|x cs (it & Hi & Hs) _ IH]; cbn [children_status]; [done|]. by rewrite Hi, Hs.
Qed.

(** The merging iterator over cursors is a cursor in the merged list. *)
Lemma merging_cursor : is_cursor uc okw (IT := merging_iterator uc) mg_pos (merged tagged).
Proof.
  split; cbn.
  - intros p m Hm. unfold mg_Valid. rewrite length_merged. unfold mg_pos in Hm. destruct (tagged !! p) as [[c x]|] eqn:Hp; destruct Hm as [-> _].
    + rewrite !bool_decide_eq_true_2; [done| |done]. by apply lookup_lt_Some in Hp.
    + rewrite !bool_decide_eq_false_2; [done| |by intros []]. apply lookup_ge_None in Hp. lia.
  - intros p m x Hm [c Hp]%merged_owner. pose proof (owner_child _ _ _ Hp) as Hc. unfold mg_key, mg_value.
    assert (exists pos, mg_current m = Some c /\ at_places pos (mg_children m) /\ pos c = cut tagged c p) as (pos & -> & Hpl & Hpos).
    { unfold mg_pos in Hm. rewrite Hp in Hm. destruct Hm as [-> Hm]. destruct (mg_direction m); eexists; (split; [done|]; split; [exact Hm|]); [done|]. by apply before_own with x. }
    cbn [of_option mbind res_bind option_bind]. destruct (places_child _ _ c Hpl Hc) as (y & Hy & Hwy). rewrite Hy. unfold child_at in Hy.
    destruct (mg_children m !! c); [|done]. injection Hy as ->. rewrite Hpos in Hwy. exact (wrap_at _ _ _ _ (Hcur c Hc) _ _ _ Hwy (cut_own _ _ _ _ Hp)).
  - intros p m [pos Hm]%pos_places. by apply children_ok with pos.
  - apply mg_first_ok.
  - apply mg_last_ok.
  - intros p m t Hm Ht. by apply mg_seek_ok with p.
  - apply mg_next_ok.
  - apply mg_prev_ok.
Qed.

(** A new one is at no entry. *)
Lemma merging_new its : length its = n -> (forall i it, its !! i = Some it -> exists p, R i p it) ->
  exists m, MergingIterator_new (W := W) its = Ok m /\ mg_pos (length (merged tagged)) m.
Proof.
  intros Hl [pos Hpos]%list_choice. destruct (wrap_all R pos its Hpos) as (cs & E & Hlc & Hcs).
  unfold MergingIterator_new. rewrite E. cbn [mbind res_bind]. eexists. split; [done|]. unfold mg_pos. rewrite lookup_ge_None_2 by (by rewrite length_merged).
  split; [done|]. exists pos. split; [cbn; lia|done].
Qed.
End Merge.
