(* ===== verification/LvlDbIter.v ===== *)
(** * LevelDB's database iterator

    src/3rd-party/leveldb/leveldb-1.18/db/db_iter.cc: the iterator a user gets.
    It reads internal keys from an internal iterator and shows the user keys and
    values a snapshot sees, in both directions, and reports a sample of what it
    reads to the database. *)
From S2P Require Import Prelude Store LvlCoding LvlBase LvlFormat LvlBlock LvlIterator LvlSkipList LvlMerge.

Definition kReadBytesPeriod : Z := 1048576.

Definition random_Uniform (n : Z) (seed : Z) : Z * Z := let seed := random_Next seed in (seed mod wrap_u 32 n, seed).

(** [DBImpl::RecordReadSample]: may change what iterators share. *)
Class ReadSampler (W : Type) := RecordReadSample : bytes -> W -> res W.

(** The capacity of [saved_value_] decides when its memory is given back only, and
    is left out.  [bytes_counter_] is a 64-bit number that stays small. *)
Record DBIter (I : Type) := MkDBIter {
  di_iter : I; di_sequence : Z; di_status : Status; di_saved_key : bytes; di_saved_value : bytes;
  di_direction : Direction; di_valid : bool; di_rnd : Z; di_bytes_counter : Z }.
Arguments MkDBIter {I}.
Arguments di_iter {I}. Arguments di_sequence {I}. Arguments di_status {I}. Arguments di_saved_key {I}. Arguments di_saved_value {I}.
Arguments di_direction {I}. Arguments di_valid {I}. Arguments di_rnd {I}. Arguments di_bytes_counter {I}.

Section DbIter.
Context (user_comparator_ : comparator) {W I : Type} `{!Iterator W I} `{!ReadSampler W}.
(** The rounds of the loops over internal entries: one for each is enough. *)
Context (rounds : nat).

Definition RandomPeriod : Z -> Z * Z := random_Uniform (2 * kReadBytesPeriod).

Definition DBIter_new (iter : I) (s seed : Z) : DBIter I :=
  let '(period, rnd) := RandomPeriod (random_new seed) in
  MkDBIter iter s status_OK [] [] kForward false rnd period.

(** Assignments to members. *)
Definition set_iter (it : I) (d : DBIter I) : DBIter I :=
  MkDBIter it (di_sequence d) (di_status d) (di_saved_key d) (di_saved_value d) (di_direction d) (di_valid d) (di_rnd d) (di_bytes_counter d).
Definition set_status (s : Status) (d : DBIter I) : DBIter I :=
  MkDBIter (di_iter d) (di_sequence d) s (di_saved_key d) (di_saved_value d) (di_direction d) (di_valid d) (di_rnd d) (di_bytes_counter d).
Definition SaveKey (k : bytes) (d : DBIter I) : DBIter I :=
  MkDBIter (di_iter d) (di_sequence d) (di_status d) k (di_saved_value d) (di_direction d) (di_valid d) (di_rnd d) (di_bytes_counter d).
Definition save_value (v : bytes) (d : DBIter I) : DBIter I :=
  MkDBIter (di_iter d) (di_sequence d) (di_status d) (di_saved_key d) v (di_direction d) (di_valid d) (di_rnd d) (di_bytes_counter d).
Definition ClearSavedValue : DBIter I -> DBIter I := save_value [].
Definition set_dir (dir : Direction) (d : DBIter I) : DBIter I :=
  MkDBIter (di_iter d) (di_sequence d) (di_status d) (di_saved_key d) (di_saved_value d) dir (di_valid d) (di_rnd d) (di_bytes_counter d).
Definition set_valid (b : bool) (d : DBIter I) : DBIter I :=
  MkDBIter (di_iter d) (di_sequence d) (di_status d) (di_saved_key d) (di_saved_value d) (di_direction d) b (di_rnd d) (di_bytes_counter d).
Definition set_counter (rnd c : Z) (d : DBIter I) : DBIter I :=
  MkDBIter (di_iter d) (di_sequence d) (di_status d) (di_saved_key d) (di_saved_value d) (di_direction d) (di_valid d) rnd c.

(** A call of the internal iterator. *)
Definition on_iter (f : I -> W -> res (I * W)) (d : DBIter I) (w : W) : res (DBIter I * W) :=
  '(it, w) ← f (di_iter d) w; Ok (set_iter it d, w).

Fixpoint sample (fuel : nat) (k : bytes) (rnd counter : Z) (w : W) : res (Z * Z * W) :=
  match fuel with
  | O => Ub NoEnd
  | S fuel' =>
      if counter <? 0 then
        let '(period, rnd) := RandomPeriod rnd in
        w ← RecordReadSample k w;
        sample fuel' k rnd (counter + period) w
      else Ok (rnd, counter, w)
  end.

(** [None] when it returns [false]. *)
Definition ParseKey (d : DBIter I) (w : W) : res (option ParsedInternalKey * DBIter I * W) :=
  let k := i_key (di_iter d) in
  v ← i_value (di_iter d);
  let counter := di_bytes_counter d - Z.of_nat (length k + length v) in
  '(rnd, counter, w) ← sample (S (Z.to_nat (2 * - counter + 1))) k (di_rnd d) counter w;
  let d := set_counter rnd counter d in
  ikey ← ParseInternalKey k;
  Ok (ikey, match ikey with None => set_status (Corruption (lit "corrupted internal key in DBIter")) d | Some _ => d end, w).

(** [ParseKey(&ikey) && ikey.sequence <= sequence_] *)
Definition seen (ikey : option ParsedInternalKey) (d : DBIter I) : option ParsedInternalKey :=
  match ikey with Some k => if sequence k <=? di_sequence d then Some k else None | None => None end.

(** The [do] loop; [skip] is [saved_key_] in every call. *)
Fixpoint find_next (fuel : nat) (skipping : bool) (d : DBIter I) (w : W) : res (DBIter I * W) :=
  match fuel with
  | O => Ub NoEnd
  | S fuel' =>
      '(ikey, d, w) ← ParseKey d w;
      let '(stop, skipping, d) :=
        match seen ikey d with
        | Some k =>
            match type k with
            | kTypeDeletion => (false, true, SaveKey (user_key k) d)
            | kTypeValue =>
                if skipping && (cmp user_comparator_ (user_key k) (di_saved_key d) <=? 0) then (false, skipping, d)
                else (true, skipping, SaveKey [] (set_valid true d))
            end
        | None => (false, skipping, d)
        end in
      if (stop : bool) then Ok (d, w)
      else
        '(d, w) ← on_iter i_Next d w;
        if i_Valid (di_iter d) then find_next fuel' skipping d w
        else Ok (set_valid false (SaveKey [] d), w)
  end.

Definition FindNextUserEntry : bool -> DBIter I -> W -> res (DBIter I * W) := find_next rounds.

Definition di_Next (d : DBIter I) (w : W) : res (DBIter I * W) :=
  match di_direction d with
  | kReverse =>
      let d := set_dir kForward d in
      '(d, w) ← (if negb (i_Valid (di_iter d)) then on_iter i_SeekToFirst d w else on_iter i_Next d w);
      if negb (i_Valid (di_iter d)) then Ok (SaveKey [] (set_valid false d), w)
      else FindNextUserEntry true d w
  | kForward =>
      k ← ExtractUserKey (i_key (di_iter d));
      FindNextUserEntry true (SaveKey k d) w
  end.

(** The loop over the entries of previous keys, with the type of the last one taken. *)
Fixpoint find_prev (fuel : nat) (value_type : ValueType) (d : DBIter I) (w : W) : res (ValueType * DBIter I * W) :=
  match fuel with
  | O => Ub NoEnd
  | S fuel' =>
      '(ikey, d, w) ← ParseKey d w;
      '(stop, value_type, d) ← (match seen ikey d with
        | Some k =>
            if bool_decide (value_type <> kTypeDeletion) && (cmp user_comparator_ (user_key k) (di_saved_key d) <? 0) then Ok (true, value_type, d)
            else
              match type k with
              | kTypeDeletion => Ok (false, kTypeDeletion, ClearSavedValue (SaveKey [] d))
              | kTypeValue =>
                  raw_value ← i_value (di_iter d);
                  uk ← ExtractUserKey (i_key (di_iter d));
                  Ok (false, kTypeValue, save_value raw_value (SaveKey uk d))
              end
        | None => Ok (false, value_type, d)
        end);
      if (stop : bool) then Ok (value_type, d, w)
      else
        '(d, w) ← on_iter i_Prev d w;
        if i_Valid (di_iter d) then find_prev fuel' value_type d w else Ok (value_type, d, w)
  end.

Definition FindPrevUserEntry (d : DBIter I) (w : W) : res (DBIter I * W) :=
  '(value_type, d, w) ← (if i_Valid (di_iter d) then find_prev rounds kTypeDeletion d w else Ok (kTypeDeletion, d, w));
  if bool_decide (value_type = kTypeDeletion) then Ok (set_dir kForward (ClearSavedValue (SaveKey [] (set_valid false d))), w)
  else Ok (set_valid true d, w).

(** The scan of [Prev] to the previous user key; [false] when there is none. *)
Fixpoint back_over (fuel : nat) (d : DBIter I) (w : W) : res (bool * DBIter I * W) :=
  match fuel with
  | O => Ub NoEnd
  | S fuel' =>
      '(d, w) ← on_iter i_Prev d w;
      if negb (i_Valid (di_iter d)) then Ok (false, ClearSavedValue (SaveKey [] (set_valid false d)), w)
      else
        uk ← ExtractUserKey (i_key (di_iter d));
        if cmp user_comparator_ uk (di_saved_key d) <? 0 then Ok (true, d, w) else back_over fuel' d w
  end.

Definition di_Prev (d : DBIter I) (w : W) : res (DBIter I * W) :=
  match di_direction d with
  | kForward =>
      k ← ExtractUserKey (i_key (di_iter d));
      '(found, d, w) ← back_over rounds (SaveKey k d) w;
      if (found : bool) then FindPrevUserEntry (set_dir kReverse d) w else Ok (d, w)
  | kReverse => FindPrevUserEntry d w
  end.

Definition di_Seek (target : bytes) (d : DBIter I) (w : W) : res (DBIter I * W) :=
  let d := SaveKey [] (ClearSavedValue (set_dir kForward d)) in
  let d := SaveKey (AppendInternalKey (di_saved_key d) (PIK target (di_sequence d) kValueTypeForSeek)) d in
  '(d, w) ← on_iter (i_Seek (di_saved_key d)) d w;
  if i_Valid (di_iter d) then FindNextUserEntry false d w else Ok (set_valid false d, w).

Definition di_SeekToFirst (d : DBIter I) (w : W) : res (DBIter I * W) :=
  '(d, w) ← on_iter i_SeekToFirst (ClearSavedValue (set_dir kForward d)) w;
  if i_Valid (di_iter d) then FindNextUserEntry false d w else Ok (set_valid false d, w).

Definition di_SeekToLast (d : DBIter I) (w : W) : res (DBIter I * W) :=
  '(d, w) ← on_iter i_SeekToLast (ClearSavedValue (set_dir kReverse d)) w;
  FindPrevUserEntry d w.

(** Called when [Valid()] only, when the internal key has been parsed. *)
Definition di_key (d : DBIter I) : bytes :=
  match di_direction d with
  | kForward => match ExtractUserKey (i_key (di_iter d)) with Ok k => k | Ub _ => [] end
  | kReverse => di_saved_key d
  end.

Definition di_value (d : DBIter I) : res bytes :=
  match di_direction d with kForward => i_value (di_iter d) | kReverse => Ok (di_saved_value d) end.

Definition di_get_status (d : DBIter I) : Status := if status_ok (di_status d) then i_status (di_iter d) else di_status d.

Definition db_iterator : Iterator W (DBIter I) := {|
  i_Valid := di_valid; i_SeekToFirst := di_SeekToFirst; i_SeekToLast := di_SeekToLast; i_Seek := di_Seek;
  i_Next := di_Next; i_Prev := di_Prev; i_key := di_key; i_value := di_value; i_status := di_get_status |}.
End DbIter.
