(* ===== verification/LvlDbIterSpec.v ===== *)
(** * What a database iterator shows

    Over a cursor in a sorted list of internal keys, LevelDB's database iterator
    is a cursor in the list of the user keys and values that its snapshot sees:
    of each user key the newest entry that is not newer than the snapshot, unless
    that is a deletion. *)
From S2P Require Import Prelude Store LvlCoding LvlBase LvlFormat LvlBlock LvlBlockSpec LvlIterator LvlIteratorSpec LvlSkipList LvlSkipSpec LvlMerge LvlMergeSpec LvlDbIter.

(** ** The view of a snapshot *)
Abbreviation parsed_entries := (list (ParsedInternalKey * bytes)).

Definition internal_entries (l : parsed_entries) : entries := (fun x => (AppendInternalKey [] (fst x), snd x)) <$> l.

(** [taken]: the user keys that newer entries have decided. *)
Fixpoint view_from (s : Z) (taken : list bytes) (l : parsed_entries) : entries :=
  match l with
  | [] => []
  | (k, v) :: l' =>
      if bool_decide (sequence k <= s /\ user_key k ∉ taken) then
        match type k with
        | kTypeValue => (user_key k, v) :: view_from s (user_key k :: taken) l'
        | kTypeDeletion => view_from s (user_key k :: taken) l'
        end
      else view_from s taken l'
  end.

Definition view (s : Z) (l : parsed_entries) : entries := view_from s [] l.

(** The list with the entries of the view marked 1. *)
Fixpoint marks (s : Z) (taken : list bytes) (l : parsed_entries) : tagged_entries :=
  match l with
  | [] => []
  | (k, v) :: l' =>
      if bool_decide (sequence k <= s /\ user_key k ∉ taken) then
        (match type k with kTypeValue => 1 | kTypeDeletion => 0 end%nat, (user_key k, v)) :: marks s (user_key k :: taken) l'
      else (0%nat, (user_key k, v)) :: marks s taken l'
  end.

Lemma part_cons t x l i : part ((t, x) :: l) i = if decide (t = i) then x :: part l i else part l i.
Proof. unfold part. rewrite filter_cons. cbn. by case_decide. Qed.

Lemma view_marks s l : forall taken, view_from s taken l = part (marks s taken l) 1.
Proof.
  induction l as [|[k v] l IH]; intros taken; [done|]. cbn [view_from marks]. case_bool_decide; [|by rewrite part_cons, decide_False].
  destruct (type k); by rewrite part_cons, IH.
Qed.

Section View.
Context (s : Z) (raws : parsed_entries).

Definition vis (i : nat) (k : ParsedInternalKey) (v : bytes) : Prop := raws !! i = Some (k, v) /\ sequence k <= s.

Definition shown (i : nat) : Prop := exists k v, vis i k v /\ type k = kTypeValue /\
  forall j k' v', (j < i)%nat -> vis j k' v' -> user_key k' <> user_key k.

(** The place in the view of an entry. *)
Definition rank (i : nat) : nat := cut (marks s [] raws) 1 i.
End View.

Lemma marks_at s l : forall taken i k v, l !! i = Some (k, v) -> exists t, marks s taken l !! i = Some (t, (user_key k, v)) /\
  (t = 1%nat <-> shown s l i /\ user_key k ∉ taken).
Proof.
  induction l as [|[k0 v0] l IH]; intros taken i k v Hi; [done|]. destruct i as [|i].
  - injection Hi as -> ->. cbn [marks].
    assert (shown s ((k, v) :: l) 0 <-> sequence k <= s /\ type k = kTypeValue) as Hsh.
    { split; [intros (k' & v' & [[= <- <-] Hs] & Ht & _); done|]. intros [Hs Ht]. exists k, v. split; [done|]. split; [done|]. intros; lia. }
    case_bool_decide as Hb; [destruct (type k) eqn:Ht|]; (eexists; split; [reflexivity|]); rewrite Hsh; split; (done || naive_solver).
  - change (l !! i = Some (k, v)) in Hi. assert (Hsh : forall taken' : list bytes, (forall b, b ∈ taken' <-> b ∈ taken \/ b = user_key k0 /\ sequence k0 <= s) ->
      (shown s l i /\ user_key k ∉ taken' <-> shown s ((k0, v0) :: l) (S i) /\ user_key k ∉ taken)).
    { intros taken' Ht'. rewrite Ht'. split.
      - intros [(k1 & v1 & [H1 Hs1] & Ht & Hf) Hn]. rewrite Hi in H1. injection H1 as <- <-. split; [|tauto]. exists k, v. split; [by split|]; split; [done|].
        intros [|j] k' v' Hj [Hk' Hs']; cbn in Hk'; [injection Hk' as <- <-; intros E; apply Hn; by right|]. apply (Hf j k' v'); [lia|by split].
      - intros [(k1 & v1 & [H1 Hs1] & Ht & Hf) Hn]. change (l !! i = Some (k1, v1)) in H1. rewrite Hi in H1. injection H1 as <- <-. split.
        + exists k, v. split; [by split|]; split; [done|]. intros j k' v' Hj [Hk' Hs']. apply (Hf (S j) k' v'); [lia|by split].
        + intros [?|[E Hs0]]; [done|]. apply (Hf 0%nat k0 v0); [lia|by split|done]. }
    cbn [marks]. case_bool_decide as Hb.
    + destruct (IH (user_key k0 :: taken) i k v Hi) as (t & E & Ht). exists t. split; [by destruct (type k0)|]. rewrite Ht. apply Hsh. intros b. rewrite elem_of_cons. naive_solver.
    + destruct (IH taken i k v Hi) as (t & E & Ht). exists t. split; [done|]. rewrite Ht. apply Hsh. intros b. destruct (decide (sequence k0 <= s)); [|tauto].
      assert (user_key k0 ∈ taken) by (destruct (decide (user_key k0 ∈ taken)); [done|by destruct Hb]). naive_solver.
Qed.

Lemma length_marks s l : forall taken, length (marks s taken l) = length l.
Proof. induction l as [|[k v] l IH]; intros taken; [done|]. cbn [marks]. case_bool_decide; cbn; by rewrite IH. Qed.

Section Rank.
Context (s : Z) (raws : parsed_entries).

Lemma mark_at i k v : raws !! i = Some (k, v) -> exists t, marks s [] raws !! i = Some (t, (user_key k, v)) /\ (t = 1%nat <-> shown s raws i).
Proof. intros Hi. destruct (marks_at s raws [] i k v Hi) as (t & E & Ht). exists t. split; [done|]. rewrite Ht. set_solver. Qed.

Lemma shown_dec i : shown s raws i \/ ~ shown s raws i.
Proof.
  destruct (raws !! i) as [[k v]|] eqn:Hi; [|right; intros (k & v & [E _] & _); congruence].
  destruct (mark_at i k v Hi) as (t & _ & Ht). destruct (decide (t = 1%nat)); tauto.
Qed.

Lemma rank_shown i : shown s raws i -> rank s raws (S i) = S (rank s raws i).
Proof.
  intros Hs. pose proof Hs as (k & v & [Hi _] & _). destruct (mark_at i k v Hi) as (t & E & Ht). unfold rank. rewrite (cut_S _ _ _ _ _ E), decide_True by tauto. lia.
Qed.

Lemma rank_hidden i : (i < length raws)%nat -> ~ shown s raws i -> rank s raws (S i) = rank s raws i.
Proof.
  intros [[k v] Hi]%lookup_lt_is_Some Hs. destruct (mark_at i k v Hi) as (t & E & Ht). unfold rank. rewrite (cut_S _ _ _ _ _ E), decide_False by tauto. lia.
Qed.

Lemma rank_same i k : (i <= k <= length raws)%nat -> (forall j, (i <= j < k)%nat -> ~ shown s raws j) -> rank s raws k = rank s raws i.
Proof.
  intros Hk Hj. replace k with (i + (k - i))%nat in * by lia. induction (k - i)%nat as [|d IH]; [by rewrite Nat.add_0_r|].
  rewrite Nat.add_succ_r, rank_hidden, IH; [done|lia|intros j Hj'; apply Hj; lia|lia|apply Hj; lia].
Qed.

Lemma rank_end : rank s raws (length raws) = length (view s raws).
Proof. unfold rank, view. rewrite view_marks. apply cut_end. by rewrite length_marks. Qed.

Lemma view_at i k v : raws !! i = Some (k, v) -> shown s raws i -> view s raws !! rank s raws i = Some (user_key k, v).
Proof.
  intros Hi Hs. destruct (mark_at i k v Hi) as (t & E & Ht). apply Ht in Hs as ->. unfold view, rank. rewrite view_marks. exact (cut_own _ _ _ _ E).
Qed.

Lemma view_end : view s raws !! rank s raws (length raws) = None.
Proof. rewrite rank_end. by apply lookup_ge_None. Qed.
End Rank.

(** ** Samples

    [Random] gives at most one period of 0 in a row, so the counter is not
    negative any more after two rounds for each byte it is below 0. *)
Definition good_seed (r : Z) : Prop := 1 <= r < 2147483647.

Lemma random_new_good n : good_seed (random_new n).
Proof.
  unfold random_new, good_seed. assert (Z.land n 0x7fffffff = n mod 2 ^ 31) as -> by (apply (Z.land_ones n 31); lia). pose proof (Z.mod_pos_bound n (2 ^ 31) ltac:(lia)).
  destruct (Z.eqb_spec (n mod 2 ^ 31) 0); [cbn; lia|]. destruct (Z.eqb_spec (n mod 2 ^ 31) 2147483647); cbn; lia.
Qed.

Lemma period_val r : RandomPeriod r = (random_Next r mod 2 ^ 21, random_Next r).
Proof. done. Qed.

Lemma period_zero r : good_seed r -> r mod 2 ^ 21 = 0 -> random_Next r mod 2 ^ 21 <> 0.
Proof.
  intros Hr Hz. assert (forallb (fun q => negb (random_Next (Z.of_nat q * 2 ^ 21) mod 2 ^ 21 =? 0)) (seq 1 1023) = true) as Hall by (by vm_compute).
  rewrite forallb_forall in Hall. specialize (Hall (Z.to_nat (r / 2 ^ 21))). unfold good_seed in Hr.
  assert (r = 2 ^ 21 * (r / 2 ^ 21)) as Er by (rewrite (Z.div_mod r (2 ^ 21)) at 1 by lia; lia).
  rewrite Z2Nat.id in Hall by (apply Z.div_pos; lia). rewrite Z.mul_comm, <- Er in Hall.
  apply Z.eqb_neq, negb_true_iff, Hall, in_seq. change (2 ^ 21) with 2097152 in *. lia.
Qed.

(** What [RecordReadSample] leaves alone. *)
Class SamplerLaws {W : Type} {SW : ReadSampler W} (okw : W -> Prop) : Prop :=
  sample_keeps k w : okw w -> exists w', RecordReadSample k w = Ok w' /\ okw w'.

Lemma sample_ok {W : Type} {SW : ReadSampler W} (okw : W -> Prop) {SL : SamplerLaws okw} fuel k : forall r c w, good_seed r -> okw w ->
  2 * - c + 1 + (if random_Next r mod 2 ^ 21 =? 0 then 1 else 0) <= Z.of_nat fuel -> 1 <= Z.of_nat fuel ->
  exists r' c' w', sample fuel k r c w = Ok (r', c', w') /\ good_seed r' /\ okw w'.
Proof.
  induction fuel as [|fuel IH]; intros r c w Hr Hw Hf Hf1; [lia|]. cbn [sample]. destruct (Z.ltb_spec c 0) as [Hc|Hc]; [|by exists r, c, w].
  rewrite period_val. destruct (sample_keeps k w Hw) as (w1 & -> & Hw1). cbn [mbind res_bind].
  assert (good_seed (random_Next r)) as Hr1 by (by apply random_next_lehmer). pose proof (Z.mod_pos_bound (random_Next r) (2 ^ 21) ltac:(lia)).
  pose proof (period_zero _ Hr1) as Hz. apply IH; [done|done| |].
  - destruct (Z.eqb_spec (random_Next r mod 2 ^ 21) 0) as [E|E]; [rewrite (proj2 (Z.eqb_neq _ _)) by auto; lia|]. case_match; lia.
  - destruct (Z.eqb_spec (random_Next r mod 2 ^ 21) 0); lia.
Qed.

(** ** Over a cursor *)
Section DbCursor.
Context (uc : comparator) {UL : CmpLaws uc} {W I : Type} {IT : Iterator W I} {SW : ReadSampler W} (okw : W -> Prop) {SL : SamplerLaws okw}.
Context (s : Z) (raws : parsed_entries) (R : nat -> I -> Prop) (rounds : nat).
Hypothesis Hs : good_seq s.
Hypothesis Hgood : forall i k v, raws !! i = Some (k, v) -> good_seq (sequence k) /\ dom uc (user_key k) = true.
Hypothesis Hsort : forall i j x y, raws !! i = Some x -> raws !! j = Some y -> (i < j)%nat -> key_before uc (fst x) (fst y).

Lemma uk_le i j ki vi kj vj : raws !! i = Some (ki, vi) -> raws !! j = Some (kj, vj) -> (i <= j)%nat -> cmp uc (user_key ki) (user_key kj) <= 0.
Proof.
  intros Hi Hj Hij. destruct (Hgood _ _ _ Hi) as [_ Di]. destruct (decide (i = j)) as [->|Hne].
  - rewrite Hi in Hj. injection Hj as -> ->. by rewrite cmp_refl.
  - destruct (Hsort _ _ _ _ Hi Hj) as [Hlt|[E _]]; [lia|cbn in Hlt; lia|]. cbn in E. rewrite E, cmp_refl; [done|done|]. by rewrite <- E.
Qed.

Lemma uk_antisym i j ki vi kj vj : raws !! i = Some (ki, vi) -> raws !! j = Some (kj, vj) -> (i <= j)%nat -> cmp uc (user_key kj) (user_key ki) <= 0 -> user_key kj = user_key ki.
Proof.
  intros Hi Hj Hij Hle. pose proof (uk_le _ _ _ _ _ _ Hi Hj Hij) as Hle'. destruct (Hgood _ _ _ Hi) as [_ Di], (Hgood _ _ _ Hj) as [_ Dj].
  pose proof (cmp_opp (user_key ki) (user_key kj) Di Dj). apply cmp_eq; [done|done|]. pose proof (cmp_opp (user_key kj) (user_key ki) Dj Di). lia.
Qed.

(** Entries between two of one user key are of that user key. *)
Lemma uk_between i j l ki vi kj vj kl vl : raws !! i = Some (ki, vi) -> raws !! j = Some (kj, vj) -> raws !! l = Some (kl, vl) -> (i <= j <= l)%nat ->
  user_key ki = user_key kl -> user_key kj = user_key ki.
Proof. intros Hi Hj Hl Hijl E. apply (uk_antisym i j ki vi kj vj Hi Hj); [lia|]. rewrite E. apply (uk_le j l kj vj kl vl Hj Hl). lia. Qed.

Let es := internal_entries raws.
Hypothesis Hcur : is_cursor (internal_comparator uc) okw R es.

Lemma es_at i k v : raws !! i = Some (k, v) -> es !! i = Some (AppendInternalKey [] k, v).
Proof. intros Hi. unfold es, internal_entries. by rewrite list_lookup_fmap, Hi. Qed.

Lemma length_es : length es = length raws.
Proof. apply length_fmap. Qed.

Definition sound (d : DBIter I) : Prop := di_status d = status_OK /\ di_sequence d = s /\ good_seed (di_rnd d).

(** The internal iterator at an entry. *)
Lemma iter_at i it k v : R i it -> raws !! i = Some (k, v) ->
  i_key it = AppendInternalKey [] k /\ i_value it = Ok v /\ ExtractUserKey (i_key it) = Ok (user_key k) /\ ParseInternalKey (i_key it) = Ok (Some k).
Proof.
  intros Hit Hi. destruct (cur_at _ _ _ _ Hcur i it _ Hit (es_at _ _ _ Hi)) as [-> ->]. destruct (internal_key_roundtrip k) as (Hp & _ & Hu & _); [by eapply Hgood|]. done.
Qed.

Lemma iter_valid i it : R i it -> i_Valid it = bool_decide (i < length raws)%nat.
Proof. intros Hit. by rewrite (cur_valid _ _ _ _ Hcur i it Hit), length_es. Qed.

Lemma parse_ok i d k v : sound d -> R i (di_iter d) -> raws !! i = Some (k, v) ->
  steps okw (ParseKey d) (fun r => fst r = Some k /\ exists rnd c, snd r = set_counter rnd c d /\ sound (snd r)).
Proof.
  intros (Hst & Hseq & Hrnd) Hit Hi w Hw. unfold ParseKey. destruct (iter_at _ _ _ _ Hit Hi) as (Hk & -> & _ & Hp). cbn [mbind res_bind].
  set (c := di_bytes_counter d - _). destruct (sample_ok okw (S (Z.to_nat (2 * - c + 1))) (i_key (di_iter d)) (di_rnd d) c w Hrnd Hw) as (r' & c' & w' & -> & Hr' & Hw').
  - case_match; lia.
  - lia.
  - cbn [mbind res_bind]. rewrite Hp. cbn [mbind res_bind]. eexists _, w'. split; [reflexivity|]. split; [done|]. split; [done|]. by exists r', c'.
Qed.

(** ** Places *)
Definition di_pos (p : nat) (d : DBIter I) : Prop :=
  sound d /\
  match view s raws !! p with
  | Some _ => exists k key v, raws !! k = Some (key, v) /\ shown s raws k /\ rank s raws k = p /\ di_valid d = true /\
      match di_direction d with
      | kForward => R k (di_iter d)
      | kReverse => di_saved_key d = user_key key /\ di_saved_value d = v /\
          exists b, (b <= k)%nat /\ R (before es b) (di_iter d) /\ forall j kj vj, (b <= j < k)%nat -> ~ vis s raws j kj vj
      end
  | None => di_valid d = false /\ exists q, R q (di_iter d)
  end.

Lemma pos_iter p d : di_pos p d -> sound d /\ exists q, R q (di_iter d).
Proof.
  intros [Hd Hp]. split; [done|]. destruct (view s raws !! p); [|by destruct Hp]. destruct Hp as (k & key & v & _ & _ & _ & _ & Hp).
  destruct (di_direction d); [by eauto|]. destruct Hp as (_ & _ & b & _ & Hb & _). by eauto.
Qed.

Lemma pos_none p q d : sound d -> (length (view s raws) <= p)%nat -> di_valid d = false -> R q (di_iter d) -> di_pos p d.
Proof. intros Hd Hp Hv HR. split; [done|]. rewrite lookup_ge_None_2 by done. by eauto. Qed.

Lemma pos_fwd k d : sound d -> shown s raws k -> di_valid d = true -> di_direction d = kForward -> R k (di_iter d) -> di_pos (rank s raws k) d.
Proof.
  intros Hd Hk Hv Hdir HR. pose proof Hk as (key & v & [Hkey _] & _). split; [done|]. rewrite (view_at _ _ _ _ _ Hkey Hk), Hdir. by exists k, key, v.
Qed.

(** ** Forward *)

(** What is skipped from an entry on is what has been decided before it. *)
Definition skips (i : nat) (skipping : bool) (skip : bytes) : Prop := forall j k v, (i <= j)%nat -> vis s raws j k v ->
  (skipping && (cmp uc (user_key k) skip <=? 0) = true <-> exists j' k' v', (j' < i)%nat /\ vis s raws j' k' v' /\ user_key k' = user_key k).

Lemma skips_after i k v : vis s raws i k v -> skips (S i) true (user_key k).
Proof.
  intros [Hi Hv] j kj vj Hj [Hkj Hvj]. cbn [andb]. rewrite Z.leb_le. split.
  - intros Hle. exists i, k, v. split; [lia|]. split; [done|]. symmetry. apply (uk_antisym i j k v kj vj); [done|done|lia|done].
  - intros (j' & k' & v' & Hj' & [Hk' _] & E). rewrite (uk_between j' i j k' v' k v kj vj Hk' Hi Hkj ltac:(lia) E), E, cmp_refl; [done|done|]. by eapply Hgood.
Qed.

Lemma skips_next i skipping skip : skips i skipping skip ->
  (forall k v, vis s raws i k v -> exists j' k' v', (j' < i)%nat /\ vis s raws j' k' v' /\ user_key k' = user_key k) -> skips (S i) skipping skip.
Proof.
  intros Hsk Hi j k v Hj Hv. rewrite (Hsk j k v ltac:(lia) Hv). split; intros (j' & k' & v' & Hj' & Hv' & E).
  - exists j', k', v'. split; [lia|done].
  - destruct (decide (j' = i)) as [->|]; [|exists j', k', v'; split; [lia|done]]. destruct (Hi k' v' Hv') as (j'' & k'' & v'' & Hj'' & Hv'' & E').
    exists j'', k'', v''. split; [done|]. split; [done|]. congruence.
Qed.

(** To the next internal entry, or the end. *)
Lemma next_or_end fuel i skipping d Q : sound d -> R i (di_iter d) -> (i < length raws)%nat ->
  (forall it, (S i < length raws)%nat -> R (S i) it -> steps okw (find_next uc fuel skipping (set_iter it d)) Q) ->
  (forall it, S i = length raws -> R (S i) it -> Q (set_valid false (SaveKey [] (set_iter it d)))) ->
  steps okw (fun w => '(d, w) ← on_iter i_Next d w; if i_Valid (di_iter d) then find_next uc fuel skipping d w else Ok (set_valid false (SaveKey [] d), w)) Q.
Proof.
  intros Hd Hit Hi Hgo Hend. apply (steps_bind _ _ _ (fun d' => exists it, d' = set_iter it d /\ R (S i) it)).
  - intros w Hw. destruct (cur_next _ _ _ _ Hcur i _ Hit) with (w := w) as (it & w' & E & Hw' & HR); [by rewrite length_es|done|]. unfold on_iter. rewrite E. cbn. eauto 7.
  - intros d' (it & -> & HR). cbn [set_iter di_iter]. rewrite (iter_valid _ _ HR). case_bool_decide; [by apply Hgo|]. apply steps_ret, Hend; [lia|done].
Qed.

Lemma find_next_ok fuel : forall i skipping d, (i < length raws)%nat -> (length raws - i <= fuel)%nat -> sound d -> R i (di_iter d) -> di_direction d = kForward ->
  skips i skipping (di_saved_key d) -> steps okw (find_next uc fuel skipping d) (di_pos (rank s raws i)).
Proof.
  induction fuel as [|fuel IH]; intros i skipping d Hi Hf Hd Hit Hdir Hsk; [lia|]. cbn [find_next].
  pose proof Hi as [[k v] Hk]%lookup_lt_is_Some.
  assert (Hgo : forall skipping' d', ~ shown s raws i -> sound d' -> di_iter d' = di_iter d -> di_direction d' = kForward -> skips (S i) skipping' (di_saved_key d') ->
    steps okw (fun w => '(d, w) ← on_iter i_Next d' w; if i_Valid (di_iter d) then find_next uc fuel skipping' d w else Ok (set_valid false (SaveKey [] d), w)) (di_pos (rank s raws i))).
  { intros skipping' d' Hns Hd' Hit' Hdir' Hsk'. rewrite <- (rank_hidden s raws i Hi Hns). apply (next_or_end fuel i); [done|by rewrite Hit'|done| |].
    - intros it HS HR. apply IH; [done|lia|done|done|done|done].
    - intros it HS HR. rewrite HS, rank_end. by apply (pos_none _ (S i)). }
  eapply steps_bind; [by apply (parse_ok i d k v)|]. intros [o d'] (Ho & rnd & c & Ed' & Hd'). cbn [fst snd] in *. rewrite Ho. unfold seen. cbn [di_sequence].
  assert (di_sequence d' = s) as -> by (by destruct Hd' as (_ & ? & _)). assert (di_iter d' = di_iter d /\ di_direction d' = kForward /\ di_saved_key d' = di_saved_key d) as (E1 & E2 & E3) by (by subst d').
  destruct (Z.leb_spec (sequence k) s) as [Hv|Hv].
  - assert (vis s raws i k v) as Hvis by done. destruct (type k) eqn:Ht.
    + apply Hgo; [|done|done|done|by apply skips_after with v]. intros (k' & v' & [Hk' _] & Ht' & _). congruence.
    + rewrite E3. destruct (skipping && _) eqn:Hh.
      * apply (Hsk i k v) in Hh as (j' & k' & v' & Hj' & Hv' & E); [|done|done]. apply Hgo; [|done|done|done|].
        -- intros (k2 & v2 & [Hk2 _] & _ & Hn). rewrite Hk in Hk2. injection Hk2 as <- <-. by apply (Hn j' k' v').
        -- rewrite E3. apply skips_next; [done|]. intros k2 v2 [Hk2 _]. rewrite Hk in Hk2. injection Hk2 as <- <-. by exists j', k', v'.
      * apply steps_ret. apply pos_fwd; [done| |done|done|by cbn; rewrite E1]. exists k, v. split; [done|]. split; [done|]. intros j' k' v' Hj' Hv' E.
        assert (skipping && (cmp uc (user_key k) (di_saved_key d) <=? 0) = true) as Hh' by (apply (Hsk i k v); [done|done|by exists j', k', v']). congruence.
  - apply Hgo; [|done|done|done|].
    + intros (k' & v' & [Hk' Hv'] & _). rewrite Hk in Hk'. injection Hk' as <- <-. lia.
    + rewrite E3. apply skips_next; [done|]. intros k2 v2 [Hk2 Hv2]. rewrite Hk in Hk2. injection Hk2 as <- <-. lia.
Qed.

(** From before the entry the iterator is at, past it. *)
Lemma find_past_ok fuel k key v : vis s raws k key v -> type key = kTypeValue -> forall b d, (b <= k)%nat -> (length raws - b <= fuel)%nat -> sound d -> R b (di_iter d) -> di_direction d = kForward ->
  di_saved_key d = user_key key -> (forall j kj vj, (b <= j < k)%nat -> ~ vis s raws j kj vj) -> steps okw (find_next uc fuel true d) (di_pos (rank s raws (S k))).
Proof.
  intros Hvk Ht. pose proof (proj1 Hvk) as Hk. assert (k < length raws)%nat as Hlt by (by apply lookup_lt_Some in Hk).
  induction fuel as [|fuel IH]; intros b d Hb Hf Hd Hit Hdir Hsv Hinv; [lia|]. cbn [find_next].
  destruct (lookup_lt_is_Some_2 raws b) as [[kb vb] Hkb]; [lia|].
  eapply steps_bind; [by apply (parse_ok b d kb vb)|]. intros [o d'] (Ho & rnd & c & Ed' & Hd'). cbn [fst snd] in *. rewrite Ho. unfold seen.
  assert (di_sequence d' = s) as -> by (by destruct Hd' as (_ & ? & _)). assert (di_iter d' = di_iter d /\ di_direction d' = kForward /\ di_saved_key d' = di_saved_key d) as (E1 & E2 & E3) by (by subst d').
  destruct (decide (b = k)) as [->|Hne].
  - rewrite Hk in Hkb. injection Hkb as <- <-. destruct (Z.leb_spec (sequence key) s) as [_|Hv]; [|destruct Hvk; lia]. rewrite Ht, E3, Hsv, (cmp_refl uc _ (proj2 (Hgood _ _ _ Hk))). cbn [andb Z.leb Z.compare].
    apply (next_or_end fuel k); [done|by rewrite E1|done| |].
    + intros it HS HR. apply find_next_ok; [done|lia|done|done|done|]. cbn. rewrite E3, Hsv. by apply skips_after with v.
    + intros it HS HR. rewrite HS, rank_end. by apply (pos_none _ (S k)).
  - destruct (Z.leb_spec (sequence kb) s) as [Hv|_]; [exfalso; apply (Hinv b kb vb); [lia|done]|].
    apply (next_or_end fuel b); [done|by rewrite E1|lia| |intros; lia].
    intros it HS HR. apply (IH (S b)); [lia|lia|done|done|done|by rewrite <- E3 in Hsv|]. intros j kj vj Hj. apply Hinv. lia.
Qed.

(** ** Backward *)
Section Back.
Context (start : nat) (Hstart : (start < length raws)%nat).

(** After the entries from [b] to [start]: none of them is in the view, or the
    first visible one of them is kept and none after it is. *)
Definition scanned (b : nat) (value_type : ValueType) (d : DBIter I) : Prop :=
  match value_type with
  | kTypeDeletion => forall j, (b <= j <= start)%nat -> ~ shown s raws j
  | kTypeValue => exists k key v, (b <= k <= start)%nat /\ vis s raws k key v /\ type key = kTypeValue /\ di_saved_key d = user_key key /\ di_saved_value d = v /\
      (forall j kj vj, (b <= j < k)%nat -> ~ vis s raws j kj vj) /\ (forall j, (k < j <= start)%nat -> ~ shown s raws j)
  end.

(** The end of the scan. *)
Definition stopped (value_type : ValueType) (d : DBIter I) : Prop :=
  sound d /\ di_direction d = kReverse /\
  match value_type with
  | kTypeDeletion => (forall j, (j <= start)%nat -> ~ shown s raws j) /\ exists q, R q (di_iter d)
  | kTypeValue => exists k key v, (k <= start)%nat /\ raws !! k = Some (key, v) /\ shown s raws k /\ di_saved_key d = user_key key /\ di_saved_value d = v /\
      (forall j, (k < j <= start)%nat -> ~ shown s raws j) /\
      exists b, (b <= k)%nat /\ R (before es b) (di_iter d) /\ forall j kj vj, (b <= j < k)%nat -> ~ vis s raws j kj vj
  end.

Lemma not_shown i k v : raws !! i = Some (k, v) -> s < sequence k \/ type k = kTypeDeletion -> ~ shown s raws i.
Proof. intros Hi H (k' & v' & [Hk' Hv'] & Ht & _). rewrite Hi in Hk'. injection Hk' as <- <-. destruct H as [H|H]; [lia|congruence]. Qed.

Lemma stop_front value_type d : sound d -> di_direction d = kReverse -> R (before es 0) (di_iter d) -> scanned 0 value_type d -> stopped value_type d.
Proof.
  intros Hd Hdir HR Hsc. split; [done|]. split; [done|]. destruct value_type; cbn in Hsc.
  - split; [intros j Hj; apply Hsc; lia|by eauto].
  - destruct Hsc as (k & key & v & Hk & Hvis & Ht & Hsk & Hsv & Hinv & Hns). exists k, key, v. split; [lia|]. split; [apply Hvis|]. split; [|split; [done|split; [done|split; [done|exists 0%nat; split; [lia|done]]]]].
    exists key, v. split; [done|]. split; [done|]. intros j kj vj Hj Hvj. exfalso. apply (Hinv j kj vj); [lia|done].
Qed.

(** An entry that does not end the scan takes the place of what was kept. *)
Lemma scanned_taken i k v value_type d : vis s raws i k v -> (i <= start)%nat -> scanned (S i) value_type d ->
  (value_type = kTypeValue -> ~ cmp uc (user_key k) (di_saved_key d) < 0) -> forall j, (i < j <= start)%nat -> ~ shown s raws j.
Proof.
  intros Hv Hi Hsc Hn j Hj. destruct value_type; cbn in Hsc; [apply Hsc; lia|]. destruct Hsc as (k0 & key & v0 & Hk0 & Hvis & _ & Hsk & _ & Hinv & Hns).
  intros Hsh. destruct (Nat.lt_trichotomy j k0) as [Hjk|[->|Hjk]].
  - pose proof Hsh as (kj & vj & Hvj & _). apply (Hinv j kj vj); [lia|done].
  - destruct Hsh as (kj & vj & [Hkj _] & _ & Hnew). rewrite (proj1 Hvis) in Hkj. injection Hkj as <- <-. apply (Hnew i k v ltac:(lia) Hv).
    specialize (Hn eq_refl). rewrite Hsk in Hn. symmetry. apply (uk_antisym i k0 k v key v0 (proj1 Hv) (proj1 Hvis)); [lia|].
    destruct (Hgood _ _ _ (proj1 Hv)) as [_ D1], (Hgood _ _ _ (proj1 Hvis)) as [_ D2]. pose proof (cmp_opp (user_key k) (user_key key) D1 D2). lia.
  - by apply (Hns j); [lia|].
Qed.

Lemma prev_or_front fuel i value_type d : sound d -> R i (di_iter d) -> (i <= start)%nat -> di_direction d = kReverse -> scanned i value_type d ->
  (forall j it, i = S j -> R j it -> steps okw (find_prev uc fuel value_type (set_iter it d)) (fun r => stopped (fst r) (snd r))) ->
  steps okw (fun w => '(d, w) ← on_iter i_Prev d w; if i_Valid (di_iter d) then find_prev uc fuel value_type d w else Ok (value_type, d, w)) (fun r => stopped (fst r) (snd r)).
Proof.
  intros Hd Hit Hi Hdir Hsc Hgo. apply (steps_bind _ _ _ (fun d' => exists it, d' = set_iter it d /\ R (before es i) it)).
  - intros w Hw. destruct (cur_prev _ _ _ _ Hcur i _ Hit) with (w := w) as (it & w' & E & Hw' & HR); [by rewrite length_es; lia|done|]. unfold on_iter. rewrite E. cbn. eauto 7.
  - intros d' (it & -> & HR). cbn [set_iter di_iter]. rewrite (iter_valid _ _ HR). destruct i as [|i]; cbn [before] in HR |- *.
    + rewrite bool_decide_eq_false_2 by (rewrite length_es; lia). apply steps_ret. by apply stop_front.
    + rewrite bool_decide_eq_true_2 by lia. by apply (Hgo i).
Qed.

Lemma find_prev_ok fuel : forall i value_type d, (i <= start)%nat -> (i < fuel)%nat -> sound d -> R i (di_iter d) -> di_direction d = kReverse -> scanned (S i) value_type d ->
  steps okw (find_prev uc fuel value_type d) (fun r => stopped (fst r) (snd r)).
Proof.
  induction fuel as [|fuel IH]; intros i value_type d Hi Hf Hd Hit Hdir Hsc; [lia|]. cbn [find_prev].
  destruct (lookup_lt_is_Some_2 raws i) as [[k v] Hk]; [lia|]. destruct (iter_at _ _ _ _ Hit Hk) as (_ & Hval & Huk & _).
  assert (Hgo : forall vt' d', sound d' -> di_iter d' = di_iter d -> di_direction d' = kReverse -> scanned i vt' d' ->
    steps okw (fun w => '(d, w) ← on_iter i_Prev d' w; if i_Valid (di_iter d) then find_prev uc fuel vt' d w else Ok (vt', d, w)) (fun r => stopped (fst r) (snd r))).
  { intros vt' d' Hd' Hit' Hdir' Hsc'. apply (prev_or_front fuel i); [done|by rewrite Hit'|done|done|done|]. intros j it -> HR. apply (IH j); [lia|lia|done|done|done|done]. }
  eapply steps_bind; [by apply (parse_ok i d k v)|]. intros [o d'] (Ho & rnd & c & Ed' & Hd'). cbn [fst snd] in *. rewrite Ho. unfold seen.
  assert (di_sequence d' = s) as -> by (by destruct Hd' as (_ & ? & _)).
  assert (di_iter d' = di_iter d /\ di_direction d' = kReverse /\ di_saved_key d' = di_saved_key d /\ di_saved_value d' = di_saved_value d) as (E1 & E2 & E3 & E4) by (by subst d').
  rewrite E1, E3. destruct (Z.leb_spec (sequence k) s) as [Hv|Hv]; cbn [mbind res_bind].
  - assert (vis s raws i k v) as Hvis by done. destruct (bool_decide (value_type <> kTypeDeletion) && (cmp uc (user_key k) (di_saved_key d) <? 0)) eqn:Hb; cbn [mbind res_bind].
    + apply andb_true_iff in Hb as [Hvt%bool_decide_eq_true Hlt%Z.ltb_lt]. apply steps_ret. split; [done|]. split; [done|]. destruct value_type; [done|]. cbn in Hsc |- *.
      destruct Hsc as (k0 & key & v0 & Hk0 & Hvk & Ht & Hsk & Hsv & Hinv & Hns). rewrite E1, E3, E4. exists k0, key, v0. split; [lia|]. split; [apply Hvk|].
      split; [|split; [done|split; [done|split; [done|exists (S i); split; [lia|done]]]]]. exists key, v0. split; [done|]. split; [done|]. intros j kj vj Hj [Hkj Hvj] E.
      destruct (decide (j <= i)%nat); [|by apply (Hinv j kj vj); [lia|]]. pose proof (uk_le j i kj vj k v Hkj Hk ltac:(lia)) as Hle. rewrite E, <- Hsk in Hle.
      destruct (Hgood _ _ _ Hk) as [_ D1], (Hgood _ _ _ (proj1 Hvk)) as [_ D2]. rewrite <- Hsk in D2. pose proof (cmp_opp (user_key k) (di_saved_key d) D1 D2). lia.
    + assert (forall j, (i < j <= start)%nat -> ~ shown s raws j) as Hns.
      { apply (scanned_taken i k v value_type d); [done|done|done|]. intros ->. rewrite bool_decide_eq_true_2 in Hb by done. apply Z.ltb_ge in Hb. lia. }
      destruct (type k) eqn:Ht; cbn [mbind res_bind].
      * apply Hgo; [done|done|done|]. intros j Hj. destruct (decide (j = i)) as [->|]; [by apply (not_shown i k v); auto|apply Hns; lia].
      * rewrite Hval. cbn [mbind res_bind]. rewrite Huk. cbn [mbind res_bind]. apply Hgo; [done|done|done|]. exists i, k, v. split; [lia|]. split; [done|]. split; [done|]. split; [done|]. split; [done|]. split; [|done]. intros; lia.
  - apply Hgo; [done|done|done|]. assert (~ shown s raws i) as Hni by (by apply (not_shown i k v); [|left]). destruct value_type; cbn in Hsc |- *.
    + intros j Hj. destruct (decide (j = i)) as [->|]; [done|apply Hsc; lia].
    + destruct Hsc as (k0 & key & v0 & Hk0 & Hvk & Ht & Hsk & Hsv & Hinv & Hns). rewrite E3, E4. exists k0, key, v0. split; [lia|]. do 4 (split; [done|]). split; [|done].
      intros j kj vj Hj Hvj. destruct (decide (j = i)) as [->|]; [destruct Hvj as [Hkj Hvj]; rewrite Hk in Hkj; injection Hkj as <- <-; lia|]. apply (Hinv j kj vj); [lia|done].
Qed.
End Back.

(** ** Where a seek lands *)
Lemma icmp_before a b : good_seq (sequence a) -> good_seq (sequence b) -> dom uc (user_key a) = true -> dom uc (user_key b) = true ->
  (cmp (internal_comparator uc) (AppendInternalKey [] a) (AppendInternalKey [] b) < 0 <-> key_before uc a b).
Proof.
  intros Ga Gb Da Db. destruct (internal_key_order uc UL a b Ga Gb Da Db) as (r & E & Hlt & _).
  change (cmp (internal_comparator uc) ?x ?y) with (match ikc_Compare uc x y with Ok z => z | Ub _ => 0 end). by rewrite E.
Qed.

Definition seek_key (t : bytes) : ParsedInternalKey := PIK t s kValueTypeForSeek.

(** The internal entry a seek lands on divides the entries the snapshot sees. *)
Lemma seek_split t : dom uc t = true -> let i0 := lower_bound (internal_comparator uc) (AppendInternalKey [] (seek_key t)) es in
  (forall j k v, (j < i0)%nat -> vis s raws j k v -> cmp uc (user_key k) t < 0) /\ (forall j k v, (i0 <= j)%nat -> raws !! j = Some (k, v) -> 0 <= cmp uc (user_key k) t).
Proof.
  intros Dt i0. split.
  - intros j k v Hj [Hk Hv]. destruct (Hgood _ _ _ Hk) as [Gk Dk]. pose proof (lower_below _ _ _ _ _ Hj (es_at _ _ _ Hk)) as Hlt. cbn [fst] in Hlt.
    apply icmp_before in Hlt; [|done..]. destruct Hlt as [Hlt|[_ Hlt]]; [done|]. cbn in Hlt. destruct (type k); cbn in Hlt; lia.
  - intros j k v Hj Hk. destruct (Hgood _ _ _ Hk) as [Gk Dk]. destruct (Z.lt_ge_cases (cmp uc (user_key k) t) 0) as [Hlt|]; [exfalso|done].
    destruct (lookup_lt_is_Some_2 raws i0) as [[k0 v0] H0]; [apply lookup_lt_Some in Hk; lia|]. destruct (Hgood _ _ _ H0) as [G0 D0].
    pose proof (lower_found _ _ _ _ (es_at _ _ _ H0)) as Hge. cbn [fst] in Hge. assert (cmp uc (user_key k0) t < 0) as Hlt0.
    { pose proof (uk_le _ _ _ _ _ _ H0 Hk Hj) as Hle. destruct (Z.eq_dec (cmp uc (user_key k0) (user_key k)) 0) as [E|E]; [apply cmp_eq in E; [by rewrite E|done|done]|].
      apply (cmp_trans _ (user_key k)); [done|done|done|lia|done]. }
    assert (key_before uc k0 (seek_key t)) as Hb by (by left). apply icmp_before in Hb; [lia|done..].
Qed.

Lemma view_lower t i0 : (forall j k v, (j < i0)%nat -> vis s raws j k v -> cmp uc (user_key k) t < 0) ->
  (forall j k v, (i0 <= j)%nat -> raws !! j = Some (k, v) -> 0 <= cmp uc (user_key k) t) -> lower_bound uc t (view s raws) = rank s raws i0.
Proof.
  intros Hlo Hhi. unfold view, rank. rewrite view_marks, (part_split (marks s [] raws) 1 i0).
  assert (forall j y, marks s [] raws !! j = Some (1%nat, y) -> exists k v, y = (user_key k, v) /\ vis s raws j k v) as Hm.
  { intros j y Hj. destruct (lookup_lt_is_Some_2 raws j) as [[k v] Hk]; [apply lookup_lt_Some in Hj; by rewrite length_marks in Hj|].
    destruct (mark_at s raws j k v Hk) as (t' & E & Ht). rewrite E in Hj. injection Hj as -> <-. destruct (proj1 Ht eq_refl) as (k' & v' & [Hk' Hv'] & _).
    rewrite Hk in Hk'. injection Hk' as <- <-. by exists k, v. }
  rewrite lower_app_low; [|intros y Hy%elem_of_part; apply list_elem_of_lookup in Hy as [j [Hj Hji]%lookup_take_Some]; destruct (Hm j y Hj) as (k & v & -> & Hv); by apply (Hlo j k v)].
  rewrite <- (app_nil_l (part (drop _ _) _)), lower_app_high; [cbn; unfold cut; lia|].
  intros y Hy%elem_of_part. apply list_elem_of_lookup in Hy as [j Hj]. rewrite lookup_drop in Hj. destruct (Hm _ y Hj) as (k & v & -> & [Hv _]). apply (Hhi (i0 + j)%nat k v); [lia|done].
Qed.

Hypothesis Hrounds : (length raws < rounds)%nat.

(** From the place before [b], to the last entry of the view before it. *)
Lemma FindPrev_ok b d : (b <= length raws)%nat -> sound d -> di_direction d = kReverse -> R (before es b) (di_iter d) ->
  steps okw (FindPrevUserEntry uc rounds d) (di_pos (before (view s raws) (rank s raws b))).
Proof.
  intros Hb Hd Hdir HR. unfold FindPrevUserEntry. rewrite (iter_valid _ _ HR). destruct b as [|i]; cbn [before] in HR |- *.
  - rewrite bool_decide_eq_false_2 by (rewrite length_es; lia). cbn [mbind res_bind]. rewrite bool_decide_eq_true_2 by done. apply steps_ret.
    by apply (pos_none _ (length es)).
  - rewrite bool_decide_eq_true_2 by lia.
    eapply steps_bind; [apply (find_prev_ok i ltac:(lia) rounds i kTypeDeletion d); [lia|lia|done|done|done|intros j Hj; lia]|].
    intros [vt d'] (Hd' & Hdir' & Hst). cbn [fst snd] in *. destruct vt.
    + rewrite bool_decide_eq_true_2 by done. apply steps_ret. destruct Hst as [Hns [q Hq]]. apply (pos_none _ q); [done| |done|done].
      rewrite (rank_same s raws 0 (S i)) by (lia || (intros j Hj; apply Hns; lia)). done.
    + rewrite bool_decide_eq_false_2 by done. apply steps_ret. destruct Hst as (k & key & v & Hki & Hk & Hsh & Hsk & Hsv & Hns & b & Hbk & HRb & Hinv).
      rewrite (rank_same s raws (S k) (S i)) by (lia || (intros j Hj; apply Hns; lia)). rewrite rank_shown by done. cbn [before].
      split; [done|]. rewrite (view_at _ _ _ _ _ Hk Hsh). exists k, key, v. cbn [set_valid di_direction di_valid di_saved_key di_saved_value di_iter]. rewrite Hdir'. do 4 (split; [done|]). split; [done|]. split; [done|]. by exists b.
Qed.

(** Back over the entries of the user key the iterator is at. *)
Lemma back_over_ok fuel k key v : raws !! k = Some (key, v) -> forall i d, (i <= k)%nat -> (i < fuel)%nat -> sound d -> R i (di_iter d) -> di_direction d = kForward -> di_saved_key d = user_key key ->
  (forall j kj vj, (i <= j < k)%nat -> raws !! j = Some (kj, vj) -> user_key kj = user_key key) ->
  steps okw (back_over uc fuel d) (fun r => sound (snd r) /\ di_direction (snd r) = kForward /\ exists b, (b <= k)%nat /\ R (before es b) (di_iter (snd r)) /\
    (forall j kj vj, (b <= j < k)%nat -> raws !! j = Some (kj, vj) -> user_key kj = user_key key) /\ if fst r then b <> 0%nat else b = 0%nat /\ di_valid (snd r) = false).
Proof.
  intros Hk. pose proof (lookup_lt_Some _ _ _ Hk) as Hlt. induction fuel as [|fuel IH]; intros i d Hi Hf Hd Hit Hdir Hsv Hsame; [lia|]. cbn [back_over].
  apply (steps_bind _ _ _ (fun d' => exists it, d' = set_iter it d /\ R (before es i) it)).
  { intros w Hw. destruct (cur_prev _ _ _ _ Hcur i _ Hit) with (w := w) as (it & w' & E & Hw' & HR); [by rewrite length_es; lia|done|]. unfold on_iter. rewrite E. cbn. eauto 7. }
  intros d' (it & -> & HR). cbn [set_iter di_iter di_saved_key]. rewrite (iter_valid _ _ HR). destruct i as [|i]; cbn [before] in HR |- *.
  - rewrite bool_decide_eq_false_2 by (rewrite length_es; lia). cbn [negb]. apply steps_ret. cbn [fst snd]. split; [done|]. split; [done|]. exists 0%nat. by split; [lia|].
  - rewrite bool_decide_eq_true_2 by lia. cbn [negb]. destruct (lookup_lt_is_Some_2 raws i) as [[ki vi] Hki]; [lia|]. destruct (iter_at _ _ _ _ HR Hki) as (_ & _ & -> & _). cbn [mbind res_bind].
    rewrite Hsv. destruct (Z.ltb_spec (cmp uc (user_key ki) (user_key key)) 0) as [Hc|Hc].
    + apply steps_ret. cbn [fst snd]. split; [done|]. split; [done|]. exists (S i). split; [lia|]. done.
    + apply (IH i); [lia|lia|done|done|done|done|]. intros j kj vj Hj Hkj. destruct (decide (j = i)) as [->|]; [|apply (Hsame j kj vj); [lia|done]].
      rewrite Hki in Hkj. injection Hkj as <- <-. symmetry. apply (uk_antisym i k ki vi key v Hki Hk); [lia|].
      destruct (Hgood _ _ _ Hki) as [_ D1], (Hgood _ _ _ Hk) as [_ D2]. pose proof (cmp_opp (user_key ki) (user_key key) D1 D2). lia.
Qed.

Lemma di_prev_ok p d : di_pos p d -> (p < length (view s raws))%nat -> steps okw (di_Prev uc rounds d) (di_pos (before (view s raws) p)).
Proof.
  intros [Hd Hp] Hlt. apply lookup_lt_is_Some in Hlt as [x Hx]. rewrite Hx in Hp. destruct Hp as (k & key & v & Hk & Hsh & <- & Hv & Hp). pose proof (lookup_lt_Some _ _ _ Hk) as Hlt.
  unfold di_Prev. destruct (di_direction d) eqn:Hdir.
  - destruct (iter_at _ _ _ _ Hp Hk) as (_ & _ & -> & _). cbn [mbind res_bind].
    eapply steps_bind; [exact (back_over_ok rounds k key v Hk k (SaveKey (user_key key) d) ltac:(lia) ltac:(lia) Hd Hp Hdir eq_refl ltac:(intros; lia))|].
    intros [found d'] (Hd' & Hdir' & b & Hbk & HRb & Hsame & Hf). cbn [fst snd] in *.
    assert (rank s raws k = rank s raws b) as ->.
    { apply rank_same; [lia|]. intros j Hj (kj & vj & [Hkj Hvj] & _). destruct Hsh as (key' & v' & [Hk' _] & _ & Hnew). rewrite Hk in Hk'. injection Hk' as <- <-.
      apply (Hnew j kj vj); [lia|done|by apply (Hsame j kj vj)]. }
    destruct found.
    + apply FindPrev_ok; [lia|done|done|done].
    + destruct Hf as [-> Hf]. apply steps_ret. by apply (pos_none _ (length es)).
  - destruct Hp as (_ & _ & b & Hbk & HRb & Hinv). assert (rank s raws k = rank s raws b) as ->.
    { apply rank_same; [lia|]. intros j Hj (kj & vj & Hvj & _). by apply (Hinv j kj vj). }
    apply FindPrev_ok; [lia|done|done|done].
Qed.

Lemma di_next_ok p d : di_pos p d -> (p < length (view s raws))%nat -> steps okw (di_Next uc rounds d) (di_pos (S p)).
Proof.
  intros [Hd Hp] Hlt. apply lookup_lt_is_Some in Hlt as [x Hx]. rewrite Hx in Hp. destruct Hp as (k & key & v & Hk & Hsh & <- & Hv & Hp). pose proof (lookup_lt_Some _ _ _ Hk) as Hlt.
  rewrite <- rank_shown by done. assert (vis s raws k key v /\ type key = kTypeValue) as [Hvis Ht].
  { destruct Hsh as (key' & v' & Hvis & Ht & _). pose proof (proj1 Hvis) as Hk'. rewrite Hk in Hk'. by injection Hk' as <- <-. }
  unfold di_Next, FindNextUserEntry. destruct (di_direction d) eqn:Hdir.
  - destruct (iter_at _ _ _ _ Hp Hk) as (_ & _ & -> & _). cbn [mbind res_bind]. apply (find_past_ok _ k key v Hvis Ht k); [lia|lia|done|done|done|done|intros; lia].
  - destruct Hp as (Hsk & Hsv & b & Hbk & HRb & Hinv). cbn [set_dir di_iter]. rewrite (iter_valid _ _ HRb).
    apply (steps_bind _ _ _ (fun d' => exists it, d' = set_iter it (set_dir kForward d) /\ R b it)).
    + intros w Hw. destruct b as [|i]; cbn [before] in HRb |- *; [rewrite bool_decide_eq_false_2 by (rewrite length_es; lia)|rewrite bool_decide_eq_true_2 by lia]; cbn [negb]; unfold on_iter; cbn [set_dir di_iter].
      * destruct (cur_first _ _ _ _ Hcur _ _ HRb w Hw) as (it & w' & -> & Hw' & HR). cbn. eauto 7.
      * destruct (cur_next _ _ _ _ Hcur i _ HRb) with (w := w) as (it & w' & -> & Hw' & HR); [rewrite length_es; lia|done|]. cbn. eauto 7.
    + intros d' (it & -> & HR). cbn [set_iter set_dir di_iter]. rewrite (iter_valid _ _ HR), bool_decide_eq_true_2 by lia. cbn [negb].
      apply (find_past_ok _ k key v Hvis Ht b); [lia|lia|done|done|done|done|done].
Qed.

(** ** Seeks of the iterator *)

(** A move of the internal iterator, then the search forward. *)
Lemma land_ok f i d Q : sound d -> di_direction d = kForward -> steps okw (f (di_iter d)) (R i) -> (i <= length raws)%nat -> skips i false (di_saved_key d) -> Q = di_pos (rank s raws i) ->
  steps okw (fun w => '(d, w) ← on_iter f d w; if i_Valid (di_iter d) then FindNextUserEntry uc rounds false d w else Ok (set_valid false d, w)) Q.
Proof.
  intros Hd Hdir Hf Hi Hsk ->. apply (steps_bind _ _ _ (fun d' => exists it, d' = set_iter it d /\ R i it)).
  - intros w Hw. destruct (Hf w Hw) as (it & w' & E & Hw' & HR). unfold on_iter. rewrite E. cbn. eauto 7.
  - intros d' (it & -> & HR). cbn [set_iter di_iter]. rewrite (iter_valid _ _ HR). case_bool_decide.
    + apply find_next_ok; [done|lia|done|done|done|done].
    + apply steps_ret. replace i with (length raws) by lia. rewrite rank_end. by apply (pos_none _ i).
Qed.

Lemma di_first_ok p d : di_pos p d -> steps okw (di_SeekToFirst uc rounds d) (di_pos 0).
Proof.
  intros [Hd [q Hq]]%pos_iter. apply (land_ok _ 0); [done|done|exact (cur_first _ _ _ _ Hcur _ _ Hq)|lia| |done].
  intros j k v _ _. cbn. split; [done|]. intros (j' & k' & v' & Hj' & _). lia.
Qed.

Lemma di_seek_ok p d t : di_pos p d -> dom uc t = true -> steps okw (di_Seek uc rounds t d) (di_pos (lower_bound uc t (view s raws))).
Proof.
  intros [Hd [q Hq]]%pos_iter Ht. destruct (seek_split t Ht) as [Hlo Hhi]. set (i0 := lower_bound _ _ es) in *. unfold di_Seek. cbv zeta. cbn [SaveKey ClearSavedValue save_value set_dir di_saved_key di_sequence].
  assert (di_sequence d = s) as Eseq by (by destruct Hd as (_ & ? & _)). rewrite Eseq.
  apply (land_ok _ i0); [done|done| | | |by rewrite (view_lower t i0)].
  - apply (cur_seek _ _ _ _ Hcur q); [done|]. apply internal_dom. rewrite append_tagged. cbn [user_key sequence type]. destruct (split_tagged s kValueTypeForSeek t Hs) as [-> ?]. done.
  - rewrite <- length_es. apply lower_le.
  - intros j k v Hj [Hk _]. cbn [andb]. split; [done|]. intros (j' & k' & v' & Hj' & Hv' & E). pose proof (Hlo j' k' v' Hj' Hv') as H1. pose proof (Hhi j k v Hj Hk). rewrite E in H1. lia.
Qed.

Lemma di_last_ok p d : di_pos p d -> steps okw (di_SeekToLast uc rounds d) (di_pos (length (view s raws) - 1)).
Proof.
  intros [Hd [q Hq]]%pos_iter. unfold di_SeekToLast. apply (steps_bind _ _ _ (fun d' => exists it, d' = set_iter it (ClearSavedValue (set_dir kReverse d)) /\ R (before es (length raws)) it)).
  - intros w Hw. destruct (cur_last _ _ _ _ Hcur _ _ Hq w Hw) as (it & w' & E & Hw' & HR). unfold on_iter. cbn [ClearSavedValue save_value set_dir di_iter]. rewrite E. cbn.
    rewrite <- length_es, before_last. eauto 7.
  - intros d' (it & -> & HR). rewrite <- before_last, <- rank_end. by apply FindPrev_ok.
Qed.

(** The database iterator is a cursor in the view of its snapshot. *)
Lemma db_cursor : is_cursor uc okw (IT := db_iterator uc rounds) di_pos (view s raws).
Proof.
  split; cbn.
  - intros p d [_ Hp]. destruct (view s raws !! p) as [x|] eqn:Hx.
    + destruct Hp as (k & key & v & _ & _ & _ & -> & _). rewrite bool_decide_eq_true_2; [done|]. by apply lookup_lt_Some in Hx.
    + destruct Hp as [-> _]. rewrite bool_decide_eq_false_2; [done|]. apply lookup_ge_None in Hx. lia.
  - intros p d x [_ Hp] Hx. rewrite Hx in Hp. destruct Hp as (k & key & v & Hk & Hsh & <- & _ & Hp). rewrite (view_at _ _ _ _ _ Hk Hsh) in Hx. injection Hx as <-.
    unfold di_key, di_value. cbn [fst snd]. destruct (di_direction d); [|destruct Hp as (-> & -> & _); done]. by destruct (iter_at _ _ _ _ Hp Hk) as (_ & -> & -> & _).
  - intros p d [(Hst & _) [q Hq]]%pos_iter. unfold di_get_status. rewrite Hst. exact (cur_status _ _ _ _ Hcur _ _ Hq).
  - apply di_first_ok.
  - apply di_last_ok.
  - intros p d t Hd Ht. by apply di_seek_ok with p.
  - apply di_next_ok.
  - apply di_prev_ok.
Qed.

Lemma db_iter_new it seed q : R q it -> di_pos (length (view s raws)) (DBIter_new it s seed).
Proof.
  intros HR. unfold DBIter_new. rewrite period_val. apply (pos_none _ q); [|done|done|done]. split; [done|]. split; [done|]. cbn [di_rnd]. by apply random_next_lehmer, random_new_good.
Qed.
End DbCursor.
