(* ===== verification/LvlMemIter.v ===== *)
(** * Iterators of memtables

    [MemTableIterator] of src/3rd-party/leveldb/leveldb-1.18/db/memtable.cc, and
    that it is a cursor in the sorted list of the entries of its table. *)
From Stdlib Require Import Sorting.Sorted.
From stdpp Require Import sorting.
From S2P Require Import Prelude Store LvlCoding LvlBase LvlFormat LvlBlock LvlBlockSpec LvlIterator LvlIteratorSpec LvlBatch LvlSkipList LvlSkipSpec LvlMemtable LvlMerge LvlMergeSpec LvlDbIter LvlDbIterSpec.

Record MemTableIterator := MkMemIter { mi_table : memtable; mi_iter : option nat }.

Definition mt_NewIterator (m : memtable) : MemTableIterator := MkMemIter m None.

Definition of_rounds {A} (o : option (res A)) : res A := match o with Some r => r | None => Ub NoEnd end.

Section MemIterator.
Context (uc : comparator) {W : Type}.

Definition mi_move (it : MemTableIterator) (r : res (option nat)) (w : W) : res (MemTableIterator * W) :=
  x ← r; Ok (MkMemIter (mi_table it) x, w).

(** [key] is called when [Valid()] only. *)
Definition mem_iterator : Iterator W MemTableIterator := {|
  i_Valid it := iter_Valid (mi_iter it);
  i_SeekToFirst it := mi_move it (mti_SeekToFirst (mi_table it));
  i_SeekToLast it := mi_move it (of_rounds (mti_SeekToLast (mi_table it)));
  i_Seek k it := mi_move it (of_rounds (mti_Seek uc (mi_table it) k));
  i_Next it := mi_move it (mti_Next (mi_table it) (mi_iter it));
  i_Prev it := mi_move it (of_rounds (mti_Prev uc (mi_table it) (mi_iter it)));
  i_key it := match mti_key (mi_table it) (mi_iter it) with Ok k => k | Ub _ => [] end;
  i_value it := mti_value (mi_table it) (mi_iter it);
  i_status it := status_OK |}.
End MemIterator.

(** ** Sorted memtables *)
Definition as_entry (x : ParsedInternalKey * bytes) : entry := Entry (fst x) (snd x).

Section MemCursor.
Context (uc : comparator) {UL : CmpLaws uc} {W : Type} (okw : W -> Prop).
(** Keys fit the 32-bit length in front of them. *)
Context (Hbound : forall k, dom uc k = true -> Z.of_nat (length k) + 8 < 2 ^ 32).

(** The entries of a memtable in the order of its nodes [l]. *)
Record mem_list (m : memtable) (raws : parsed_entries) (l : list nat) : Prop := {
  ml_ok : Forall (fun x => entry_ok uc (as_entry x)) raws;
  ml_repr : repr (mt_table m) l ((fun x => entry_bytes (as_entry x)) <$> raws);
  ml_sorted i j x y : raws !! i = Some x -> raws !! j = Some y -> (i < j)%nat -> key_before uc (fst x) (fst y)
}.

Context (m : memtable) (raws : parsed_entries) (l : list nat) (HM : mem_list m raws l).
Let es := internal_entries raws.

Lemma ml_length : length l = length raws.
Proof. pose proof (Forall2_length _ _ _ (r_keys _ _ _ (ml_repr _ _ _ HM))) as H. by rewrite length_fmap in H. Qed.

Lemma ml_entry i x : raws !! i = Some x -> entry_ok uc (as_entry x).
Proof. intros Hx. pose proof (ml_ok _ _ _ HM) as HF. rewrite Forall_lookup in HF. by apply (HF i). Qed.

Lemma ml_node i x : raws !! i = Some x -> exists a, l !! i = Some a /\ node_key (nodes (mt_table m)) a = Ok (entry_bytes (as_entry x)).
Proof.
  intros Hx. destruct (Forall2_lookup_r _ _ _ i (entry_bytes (as_entry x)) (r_keys _ _ _ (ml_repr _ _ _ HM))) as (a & Ha & nx & Hn & _).
  { by rewrite list_lookup_fmap, Hx. }
  exists a. split; [done|]. unfold node_key. by rewrite Hn.
Qed.

Lemma es_lookup i x : es !! i = Some x -> exists k v, raws !! i = Some (k, v) /\ x = (AppendInternalKey [] k, v).
Proof. unfold es, internal_entries. rewrite list_lookup_fmap. intros ([k v] & Hi & ->)%fmap_Some. by exists k, v. Qed.

Definition mem_pos (p : nat) (it : MemTableIterator) : Prop := mi_table it = m /\ mi_iter it = l !! p.

Lemma mem_at p x : es !! p = Some x -> mti_key m (l !! p) = Ok (fst x) /\ mti_value m (l !! p) = Ok (snd x).
Proof.
  intros (k & v & Hx & ->)%es_lookup. destruct (ml_node _ _ Hx) as (a & -> & Hn). pose proof (ml_entry _ _ Hx) as He. unfold mti_key, mti_value, iter_key.
  cbn [of_option mbind res_bind]. rewrite Hn. cbn [mbind res_bind]. unfold entry_bytes. rewrite (entry_key uc) by done. cbn [mbind res_bind fst snd]. split; [done|].
  rewrite <- (app_nil_r (put_slice (e_value _))), entry_slice_put; [done|]. by destruct He as (_ & _ & _ & ?).
Qed.

Lemma chain_0 : chain (nodes (mt_table m)) 0 (head_ :: l).
Proof.
  pose proof (ml_repr _ _ _ HM) as R. pose proof (r_chain _ _ _ R 0 ltac:(unfold kMaxHeight; lia)) as C. by rewrite level_0 in C by by eapply repr_levels.
Qed.

Lemma head_out p : l !! p <> Some head_.
Proof. intros Hp%list_elem_of_lookup_2. pose proof (r_nodup _ _ _ (ml_repr _ _ _ HM)) as [ND _]%NoDup_cons. done. Qed.

(** The last of the first [p] nodes. *)
Lemma last_node p : (p <= length l)%nat -> not_head (Some (Ok (default head_ (last (head_ :: take p l))))) = Some (Ok (l !! before es p)).
Proof.
  intros Hp. assert (length es = length l) as Hl by (unfold es, internal_entries; by rewrite length_fmap, ml_length). destruct p as [|q]; cbn [before].
  - rewrite Hl, lookup_ge_None_2 by done. done.
  - destruct (lookup_lt_is_Some_2 l q) as [a Ha]; [lia|]. rewrite (take_S_r _ _ _ Ha), app_comm_cons, last_snoc. cbn. rewrite Ha, decide_False; [done|]. intros ->. by apply (head_out q).
Qed.

(** A search for a key divides the nodes at its lower bound. *)
Lemma splits_at key t : entry_good uc key = true -> entry_ik key = t -> let ks := (fun x => entry_bytes (as_entry x)) <$> raws in let p := lower_bound (internal_comparator uc) t es in
  splits (mt_compare uc) key (take p ks) (drop p ks).
Proof.
  intros Hg Ht ks p. pose proof (entries_order uc) as KO. assert (dom (internal_comparator uc) t = true) as Dt by (rewrite <- Ht; by apply (order_dom (KeyOrder := KO))).
  assert (Hc : forall i b, ks !! i = Some b -> exists k v, raws !! i = Some (k, v) /\ es !! i = Some (AppendInternalKey [] k, v) /\ mt_compare uc b key = Ok (cmp (internal_comparator uc) (AppendInternalKey [] k) t)).
  { intros i b Hb. unfold ks in Hb. rewrite list_lookup_fmap in Hb. apply fmap_Some in Hb as ([k v] & Hi & ->). exists k, v. split; [done|]. split; [unfold es, internal_entries; by rewrite list_lookup_fmap, Hi|].
    destruct (entry_bytes_ik uc _ (ml_entry _ _ Hi)) as [Eik Eg]. rewrite (order_cmp (KeyOrder := KO)), Eik, Ht by done. done. }
  split; apply Forall_lookup; intros i b Hb.
  - apply lookup_take_Some in Hb as [Hb Hp]. destruct (Hc i b Hb) as (k & v & _ & He & ->). eexists. split; [done|]. exact (lower_below _ _ _ _ _ Hp He).
  - rewrite lookup_drop in Hb. destruct (Hc _ b Hb) as (k & v & Hk & He & ->). eexists. split; [done|].
    destruct (lookup_lt_is_Some_2 raws p) as [[k0 v0] H0]; [apply lookup_lt_Some in Hk; lia|].
    assert (es !! p = Some (AppendInternalKey [] k0, v0)) as He0 by (unfold es, internal_entries; by rewrite list_lookup_fmap, H0). pose proof (lower_found _ _ _ _ He0) as Hge. cbn [fst] in Hge.
    destruct i as [|i]; [rewrite Nat.add_0_r in Hk; rewrite H0 in Hk; by injection Hk as -> ->|].
    destruct (Z.lt_ge_cases (cmp (internal_comparator uc) (AppendInternalKey [] k) t) 0) as [Hlt|]; [|done].
    pose proof (ml_entry _ _ Hk) as (Gk & Dk & _). pose proof (ml_entry _ _ H0) as (G0 & D0 & _). cbn in Gk, Dk, G0, D0.
    assert (cmp (internal_comparator uc) (AppendInternalKey [] k0) (AppendInternalKey [] k) < 0) as H1.
    { apply icmp_before; [done..|]. apply (ml_sorted _ _ _ HM p (p + S i)%nat (k0, v0) (k, v)); [done|done|lia]. }
    pose proof (cmp_trans (c := internal_comparator uc) _ _ _ (ik_dom uc k0 G0 D0) (ik_dom uc k Gk Dk) Dt H1 Hlt). lia.
Qed.

Lemma search_at key t : entry_good uc key = true -> entry_ik key = t -> let p := lower_bound (internal_comparator uc) t es in
  exists prev, search (mt_table m) (KeyIsAfterNode (mt_compare uc) (nodes (mt_table m)) key) = Some (Ok (default head_ (last (head_ :: take p l)), l !! p, prev)).
Proof.
  intros Hg Ht p. pose proof (splits_at key t Hg Ht) as Hsp. cbn zeta in Hsp. fold p in Hsp. pose proof (ml_repr _ _ _ HM) as R.
  rewrite <- (take_drop p l), <- (take_drop p ((fun x => entry_bytes (as_entry x)) <$> raws)) in R.
  destruct (find_key (mt_compare uc) _ _ _ _ _ key R) as (prev & _ & E); [rewrite !length_take, length_fmap, ml_length; lia|done|]. exists prev. rewrite E. by rewrite head_lookup, lookup_drop, Nat.add_0_r.
Qed.

Lemma icmp_self i k v : raws !! i = Some (k, v) -> lower_bound (internal_comparator uc) (AppendInternalKey [] k) es = i.
Proof.
  intros Hi. set (tagged := (fun x => (0%nat, x)) <$> es). assert (merged tagged = es) as E.
  { unfold merged, tagged. rewrite <- list_fmap_compose. apply list_fmap_id. }
  rewrite <- E. apply (lower_self tagged (internal_comparator uc)) with (x := (AppendInternalKey [] k, v)); rewrite ?E.
  - intros x (j & Hx)%list_elem_of_lookup. destruct (es_lookup _ _ Hx) as (kj & vj & Hj & ->). pose proof (ml_entry _ _ Hj) as (G & D & _). by apply ik_dom.
  - intros a b x y Hx Hy Hab. destruct (es_lookup _ _ Hx) as (ka & va & Ha & ->), (es_lookup _ _ Hy) as (kb & vb & Hb & ->). cbn [fst].
    pose proof (ml_entry _ _ Ha) as (Ga & Da & _). pose proof (ml_entry _ _ Hb) as (Gb & Db & _). apply icmp_before; [done..|]. exact (ml_sorted _ _ _ HM _ _ _ _ Ha Hb Hab).
  - unfold es, internal_entries. by rewrite list_lookup_fmap, Hi.
Qed.

Lemma mem_moved it r p : mi_table it = m -> r = Ok (l !! p) -> steps okw (mi_move it r) (mem_pos p).
Proof. intros Hm -> w Hw. eexists _, w. split; [done|]. split; [done|]. by split. Qed.

Lemma encode_key t : dom (internal_comparator uc) t = true -> entry_good uc (EncodeKey t) = true /\ entry_ik (EncodeKey t) = t.
Proof.
  intros Dt. pose proof Dt as [L D]%internal_dom. specialize (Hbound _ D). unfold split_key in Hbound. cbn [fst] in Hbound. rewrite length_take in Hbound.
  assert (entry_slice (EncodeKey t) = Ok (t, [])) as E.
  { unfold EncodeKey, PutVarint32. cbn [app]. rewrite wrap_u_small by lia. rewrite <- (app_nil_r (EncodeVarint32 _ ++ t)). apply entry_slice_put. lia. }
  unfold entry_good, entry_ik. by rewrite E.
Qed.

(** The iterator of a memtable is a cursor in its entries. *)
Lemma mem_cursor : is_cursor (internal_comparator uc) okw (IT := mem_iterator uc) mem_pos es.
Proof.
  assert (length es = length l) as Hl by (unfold es, internal_entries; by rewrite length_fmap, ml_length).
  split; cbn [mem_iterator i_Valid i_SeekToFirst i_SeekToLast i_Seek i_Next i_Prev i_key i_value i_status].
  - intros p it [_ ->]. unfold iter_Valid. rewrite Hl. apply bool_decide_ext, lookup_lt_is_Some.
  - intros p it x [-> ->] Hx. by destruct (mem_at _ _ Hx) as [-> ->].
  - done.
  - intros p it [Hm _]. apply mem_moved; [done|]. rewrite Hm. exact (chain_0 0%nat head_ eq_refl).
  - intros p it [Hm _]. apply mem_moved; [done|]. rewrite Hm, <- (before_last es). unfold mti_SeekToLast, iter_SeekToLast, FindLast.
    destruct (search_stops (mt_table m) l [] ((fun x => entry_bytes (as_entry x)) <$> raws) (fun next => Ok (bool_decide (is_Some next)))) as (prev & _ & E); [rewrite app_nil_r; exact (ml_repr _ _ _ HM)| | |done|].
    + apply Forall_forall. intros a _. by rewrite bool_decide_eq_true_2 by eauto.
    + constructor.
    + rewrite E, Hl. rewrite <- (firstn_all l) at 1. by rewrite last_node.
  - intros p it t [Hm _] Dt. apply mem_moved; [done|]. rewrite Hm. destruct (encode_key t Dt) as [Hg Hik]. destruct (search_at _ _ Hg Hik) as (prev & E).
    unfold mti_Seek, iter_Seek, FindGreaterOrEqual. by rewrite E.
  - intros p it [Hm Hi] Hp. apply mem_moved; [done|]. rewrite Hm, Hi. rewrite Hl in Hp. apply lookup_lt_is_Some in Hp as [a Ha]. unfold mti_Next, iter_Next. rewrite Ha. cbn [of_option mbind res_bind].
    exact (chain_0 (S p) a Ha).
  - intros p it [Hm Hi] Hp. apply mem_moved; [done|]. rewrite Hm, Hi. change (match p with O => length es | S q => q end) with (before es p).
    destruct (lookup_lt_is_Some_2 raws p) as [[k v] Hk]; [by rewrite <- ml_length, <- Hl|]. destruct (ml_node _ _ Hk) as (a & Ha & Hn). rewrite Ha.
    unfold mti_Prev, iter_Prev, iter_key. cbn [of_option mbind res_bind]. rewrite Hn. destruct (entry_bytes_ik uc _ (ml_entry _ _ Hk)) as [Eik Eg].
    destruct (search_at _ _ Eg Eik) as (prev & E). cbn [as_entry e_key fst] in E. rewrite (icmp_self _ _ _ Hk) in E. unfold FindLessThan. rewrite E. by rewrite last_node by lia.
Qed.

Lemma mem_new : mem_pos (length es) (mt_NewIterator m).
Proof. split; [done|]. unfold es, internal_entries. rewrite length_fmap, <- ml_length. symmetry. by apply lookup_ge_None. Qed.
End MemCursor.

(** ** Written memtables

    What has been written, in order. *)
Lemma sorted_at {A} (R : A -> A -> Prop) l i j x y : StronglySorted R l -> l !! i = Some x -> l !! j = Some y -> (i < j)%nat -> R x y.
Proof.
  intros HS Hx Hy Hij. rewrite <- (take_drop_middle l i x Hx) in HS. apply StronglySorted_app in HS as (_ & _ & HS). apply StronglySorted_inv in HS as [_ HF].
  rewrite Forall_forall in HF. apply HF. apply list_elem_of_lookup. exists (j - S i)%nat. rewrite lookup_drop, <- Hy. f_equal. lia.
Qed.

Lemma mem_holds_list uc {UL : CmpLaws uc} m held : mem_holds uc m held -> NoDup (e_key <$> held) ->
  exists raws l, mem_list uc m raws l /\ (as_entry <$> raws) ≡ₚ held.
Proof.
  intros (Hok & ks & [[Hg Hs] [l R]] & Hp) HND. apply Permutation_map_inv in Hp as (es & -> & Hp). change (map entry_bytes es) with (entry_bytes <$> es) in *.
  exists ((fun e => (e_key e, e_value e)) <$> es), l. assert (as_entry <$> ((fun e => (e_key e, e_value e)) <$> es) = es) as Eid.
  { rewrite <- list_fmap_compose. rewrite <- (list_fmap_id es) at 2. apply list_fmap_ext. by intros i []. }
  rewrite Eid. split; [|by symmetry]. assert (Forall (entry_ok uc) es) as Hok' by (by rewrite <- Hp). split.
  - apply Forall_fmap. eapply Forall_impl; [exact Hok'|]. by intros [].
  - rewrite <- list_fmap_compose. replace ((fun x => entry_bytes (as_entry x)) ∘ (fun e => (e_key e, e_value e)) <$> es) with (entry_bytes <$> es); [done|]. apply list_fmap_ext. by intros i [].
  - intros i j x y Hx Hy Hij. rewrite list_lookup_fmap in Hx, Hy. apply fmap_Some in Hx as (a & Ha & ->), Hy as (b & Hb & ->). cbn [fst].
    rewrite Forall_lookup in Hok'. pose proof (Hok' _ _ Ha) as Oa. pose proof (Hok' _ _ Hb) as Ob. destruct Oa as (Ga & Da & Oa), Ob as (Gb & Db & Ob).
    assert (cmp (internal_comparator uc) (entry_ik (entry_bytes a)) (entry_ik (entry_bytes b)) <= 0) as Hle.
    { apply (sorted_at _ _ i j _ _ Hs); [by rewrite list_lookup_fmap, Ha|by rewrite list_lookup_fmap, Hb|done]. }
    rewrite (proj1 (entry_bytes_ik uc a ltac:(by split))), (proj1 (entry_bytes_ik uc b ltac:(by split))) in Hle. apply icmp_before; [done..|].
    destruct (Z.eq_dec (cmp (internal_comparator uc) (AppendInternalKey [] (e_key a)) (AppendInternalKey [] (e_key b))) 0) as [E|]; [exfalso|lia].
    apply (cmp_eq (c := internal_comparator uc)) in E; [|by apply ik_dom..]. assert (e_key a = e_key b) as Eab.
    { pose proof (proj1 (internal_key_roundtrip _ Ga)) as Ra. rewrite E, (proj1 (internal_key_roundtrip _ Gb)) in Ra. congruence. }
    rewrite Hp in HND. assert (i = j) as ->; [|lia]. apply (NoDup_lookup _ _ _ (e_key a) HND); [by rewrite list_lookup_fmap, Ha|by rewrite list_lookup_fmap, Hb, Eab].
Qed.
