(* ===== verification/LvlVersion.v ===== *)
(** * Versions of LevelDB: reading the files of a database

    The part of src/3rd-party/leveldb/leveldb-1.18/db/version_set.cc that reads:
    the search for a file in a level, the iterator over the files of a level, the
    iterators of a version, lookups through the levels, and the counts of seeks
    that lead to compactions. *)
From stdpp Require Import sorting.
From S2P Require Import Prelude Store LvlCoding LvlBase LvlFormat LvlBlock LvlIterator LvlSkipList LvlMerge LvlDbIter.

Definition kNumLevels : nat := 7.

(** [refs] counts the versions a file is in; [allowed_seeks] of the shared objects
    is in [VersionStats], by the number of the file. *)
Record FileMetaData := MkFile { f_number : Z; f_file_size : Z; f_smallest : bytes; f_largest : bytes }.

#[export] Instance FileMetaData_eq_dec : EqDecision FileMetaData.
Proof. solve_decision. Defined.

Record Version := MkVersion { files_ : list (list FileMetaData) }.

Definition level_files (v : Version) (level : nat) : res (list FileMetaData) := of_option OobRead (files_ v !! level).

(** ** Tables by number

    [TableCache] of db/table_cache.h: iterators and lookups in the table of a file
    number and size, which open the table when they need to.  [tc_Get] gives the
    status and what the callback is called with. *)
Class TableCache (W T : Type) := {
  tc_iterator :: Iterator W T;
  tc_NewIterator : Z -> Z -> W -> res (T * W);
  tc_Get : Z -> Z -> bytes -> W -> res (Status * option (bytes * bytes) * W)
}.

Section Files.
Context (uc : comparator).

(** ** Files of a level *)
Fixpoint find_file (fuel : nat) (files : list FileMetaData) (key : bytes) (left right : Z) : res Z :=
  match fuel with
  | O => Ub NoEnd
  | S fuel' =>
      if left <? right then
        let mid := wrap_u 32 (left + right) / 2 in
        f ← of_option OobRead (files !! Z.to_nat mid);
        r ← ikc_Compare uc (f_largest f) key;
        if r <? 0 then find_file fuel' files key (mid + 1) right else find_file fuel' files key left mid
      else Ok right
  end.

Definition FindFile (files : list FileMetaData) (key : bytes) : res Z :=
  find_file (S (length files)) files key 0 (wrap_u 32 (Z.of_nat (length files))).

(** A missing bound is [None]. *)
Definition AfterFile (user_key : option bytes) (f : FileMetaData) : res bool :=
  match user_key with None => Ok false | Some k => l ← ExtractUserKey (f_largest f); Ok (0 <? cmp uc k l) end.

Definition BeforeFile (user_key : option bytes) (f : FileMetaData) : res bool :=
  match user_key with None => Ok false | Some k => s ← ExtractUserKey (f_smallest f); Ok (cmp uc k s <? 0) end.

Fixpoint some_overlaps (files : list FileMetaData) (smallest_user_key largest_user_key : option bytes) : res bool :=
  match files with
  | [] => Ok false
  | f :: files' =>
      a ← AfterFile smallest_user_key f;
      b ← (if (a : bool) then Ok true else BeforeFile largest_user_key f);
      if (b : bool) then some_overlaps files' smallest_user_key largest_user_key else Ok true
  end.

Definition SomeFileOverlapsRange (disjoint_sorted_files : bool) (files : list FileMetaData) (smallest_user_key largest_user_key : option bytes) : res bool :=
  if negb disjoint_sorted_files then some_overlaps files smallest_user_key largest_user_key
  else
    index ← (match smallest_user_key with
             | Some k => FindFile files (AppendInternalKey [] (PIK k kMaxSequenceNumber kValueTypeForSeek))
             | None => Ok 0
             end);
    match files !! Z.to_nat index with
    | None => Ok false
    | Some f => b ← BeforeFile largest_user_key f; Ok (negb b)
    end.

Definition OverlapInLevel (v : Version) (level : nat) (smallest_user_key largest_user_key : option bytes) : res bool :=
  files ← level_files v level;
  SomeFileOverlapsRange (0 <? level)%nat files smallest_user_key largest_user_key.

(** The loop of [GetOverlappingInputs]: the files still to look at, and the range,
    which grows with the files of level 0 and then starts the loop again. *)
Fixpoint overlapping (fuel : nat) (level : nat) (files todo : list FileMetaData) (user_begin user_end : option bytes) (inputs : list FileMetaData) : res (list FileMetaData) :=
  match fuel with
  | O => Ub NoEnd
  | S fuel' =>
      match todo with
      | [] => Ok inputs
      | f :: todo' =>
          file_start ← ExtractUserKey (f_smallest f);
          file_limit ← ExtractUserKey (f_largest f);
          let before k := match user_begin with Some b => cmp uc k b <? 0 | None => false end in
          let after k := match user_end with Some e => 0 <? cmp uc k e | None => false end in
          if before file_limit then overlapping fuel' level files todo' user_begin user_end inputs
          else if after file_start then overlapping fuel' level files todo' user_begin user_end inputs
          else if (level =? 0)%nat && before file_start then overlapping fuel' level files files (Some file_start) user_end []
          else if (level =? 0)%nat && after file_limit then overlapping fuel' level files files user_begin (Some file_limit) []
          else overlapping fuel' level files todo' user_begin user_end (inputs ++ [f])
      end
  end.

(** Every restart moves a bound to the bound of a file. *)
Definition GetOverlappingInputs (v : Version) (level : nat) (begin end_ : option bytes) : res (list FileMetaData) :=
  files ← level_files v level;
  user_begin ← (match begin with Some b => k ← ExtractUserKey b; Ok (Some k) | None => Ok None end);
  user_end ← (match end_ with Some e => k ← ExtractUserKey e; Ok (Some k) | None => Ok None end);
  overlapping (S ((2 * length files + 1) * S (length files))) level files files user_begin user_end [].

(** ** The files of a level as an iterator

    The key is the largest key of the file, the value its number and size. *)
Record LevelFileNumIterator := MkLevelIter { lf_flist : list FileMetaData; lf_index : Z }.

Definition LevelFileNumIterator_new (flist : list FileMetaData) : LevelFileNumIterator :=
  MkLevelIter flist (wrap_u 32 (Z.of_nat (length flist))).

Definition lf_file (it : LevelFileNumIterator) : option FileMetaData := lf_flist it !! Z.to_nat (lf_index it).

Definition lf_value (it : LevelFileNumIterator) : res bytes :=
  f ← of_option OobRead (lf_file it);
  Ok (EncodeFixed64 true (f_number f) ++ EncodeFixed64 true (f_file_size f)).

Definition level_file_iterator (W : Type) : Iterator W LevelFileNumIterator := {|
  i_Valid it := lf_index it <? Z.of_nat (length (lf_flist it));
  i_SeekToFirst it w := Ok (MkLevelIter (lf_flist it) 0, w);
  i_SeekToLast it w := Ok (MkLevelIter (lf_flist it) (match lf_flist it with [] => 0 | _ => wrap_u 32 (Z.of_nat (length (lf_flist it)) - 1) end), w);
  i_Seek target it w := index ← FindFile (lf_flist it) target; Ok (MkLevelIter (lf_flist it) (wrap_u 32 index), w);
  i_Next it w := Ok (MkLevelIter (lf_flist it) (wrap_u 32 (lf_index it + 1)), w);
  i_Prev it w := Ok (MkLevelIter (lf_flist it) (if lf_index it =? 0 then wrap_u 32 (Z.of_nat (length (lf_flist it))) else lf_index it - 1), w);
  i_key it := match lf_file it with Some f => f_largest f | None => [] end;
  i_value := lf_value;
  i_status it := status_OK |}.

(** ** Iterators of a version *)
Section Iterators.
Context {W T : Type} `{!TableCache W T}.

Definition GetFileIterator (file_value : bytes) (w : W) : res ((EmptyIterator + T) * W) :=
  if negb (length file_value =? 16)%nat then Ok (inl (NewErrorIterator (Corruption (lit "FileReader invoked with unexpected value"))), w)
  else
    number ← DecodeFixed64 true file_value;
    size ← DecodeFixed64 true (drop 8 file_value);
    '(it, w) ← tc_NewIterator number size w;
    Ok (inr it, w).

Abbreviation level_iterator := (TwoLevelIterator LevelFileNumIterator (EmptyIterator + T)).

(** The iterator over the files of a level, with the rounds its loops need. *)
Definition concatenating_iterator (rounds : nat) : Iterator W level_iterator :=
  two_level_iterator (Iterator0 := level_file_iterator W) GetFileIterator rounds.

Definition NewConcatenatingIterator (v : Version) (level : nat) : res level_iterator :=
  files ← level_files v level;
  NewTwoLevelIterator (Iterator0 := level_file_iterator W) (W := W) (LevelFileNumIterator_new files).

(** One iterator for every file of level 0, one for every other level with files. *)
Fixpoint level0_iterators (files : list FileMetaData) (w : W) : res (list (T + level_iterator) * W) :=
  match files with
  | [] => Ok ([], w)
  | f :: files' =>
      '(it, w) ← tc_NewIterator (f_number f) (f_file_size f) w;
      '(its, w) ← level0_iterators files' w;
      Ok (inl it :: its, w)
  end.

Fixpoint level_iterators (v : Version) (levels : list nat) : res (list (T + level_iterator)) :=
  match levels with
  | [] => Ok []
  | level :: levels' =>
      files ← level_files v level;
      its ← level_iterators v levels';
      match files with
      | [] => Ok its
      | _ => it ← NewConcatenatingIterator v level; Ok (inr it :: its)
      end
  end.

Definition AddIterators (v : Version) (w : W) : res (list (T + level_iterator) * W) :=
  files ← level_files v 0;
  '(its0, w) ← level0_iterators files w;
  its ← level_iterators v (seq 1 (kNumLevels - 1));
  Ok (its0 ++ its, w).
End Iterators.

(** ** Lookups *)
Inductive SaverState := SNotFound | SFound | SDeleted | SCorrupt.

(** What the callback of a lookup makes of the entry a table found. *)
Definition SaveValue (user_key : bytes) (ikey v : bytes) : res (SaverState * option bytes) :=
  parsed_key ← ParseInternalKey ikey;
  Ok (match parsed_key with
      | None => (SCorrupt, None)
      | Some k =>
          if cmp uc (LvlFormat.user_key k) user_key =? 0 then
            match type k with kTypeValue => (SFound, Some v) | kTypeDeletion => (SDeleted, None) end
          else (SNotFound, None)
      end).

Definition NewestFirst (a b : FileMetaData) : Prop := f_number b <= f_number a.
#[export] Instance NewestFirst_dec : RelDecision NewestFirst.
Proof. intros a b. unfold NewestFirst. apply _. Defined.

(** The files of level 0 whose range has the key. *)
Fixpoint files_around (user_key : bytes) (files : list FileMetaData) : res (list FileMetaData) :=
  match files with
  | [] => Ok []
  | f :: files' =>
      smallest ← ExtractUserKey (f_smallest f);
      largest ← ExtractUserKey (f_largest f);
      tmp ← files_around user_key files';
      Ok (if (0 <=? cmp uc user_key smallest) && (cmp uc user_key largest <=? 0) then f :: tmp else tmp)
  end.

(** The file of another level in which the key would be. *)
Definition file_around (user_key ikey : bytes) (files : list FileMetaData) : res (option FileMetaData) :=
  index ← FindFile files ikey;
  if Z.of_nat (length files) <=? index then Ok None
  else
    f ← of_option OobRead (files !! Z.to_nat index);
    smallest ← ExtractUserKey (f_smallest f);
    Ok (if cmp uc user_key smallest <? 0 then None else Some f).

(** The files [Get] searches in a level, in order. *)
Definition files_to_search (user_key ikey : bytes) (level : nat) (files : list FileMetaData) : res (list FileMetaData) :=
  match files with
  | [] => Ok []
  | _ =>
      if (level =? 0)%nat then tmp ← files_around user_key files; Ok (merge_sort NewestFirst tmp)
      else f ← file_around user_key ikey files; Ok (option_list f)
  end.

(** A file and its level. *)
Abbreviation seek_file := (option (FileMetaData * nat)).

Section Get.
Context {W T : Type} `{!TableCache W T}.

(** The search of the files of a level.  The result is there when [Get] returns;
    [stats] is the file charged for the lookup, and [last] the last one read. *)
Fixpoint search_files (user_key ikey : bytes) (level : nat) (files : list FileMetaData) (stats last : seek_file) (w : W) :
    res (option (Status * option bytes) * seek_file * seek_file * W) :=
  match files with
  | [] => Ok (None, stats, last, w)
  | f :: files' =>
      let stats := match last, stats with Some l, None => Some l | _, _ => stats end in
      let last := Some (f, level) in
      '(s, found, w) ← tc_Get (f_number f) (f_file_size f) ikey w;
      if negb (status_ok s) then Ok (Some (s, None), stats, last, w)
      else
        saver ← (match found with Some (k, v) => SaveValue user_key k v | None => Ok (SNotFound, None) end);
        match saver with
        | (SNotFound, _) => search_files user_key ikey level files' stats last w
        | (SFound, value) => Ok (Some (s, value), stats, last, w)
        | (SDeleted, _) => Ok (Some (NotFound [], None), stats, last, w)
        | (SCorrupt, _) => Ok (Some (status_new kCorruption (lit "corrupted key for ") user_key, None), stats, last, w)
        end
  end.

Fixpoint search_levels (user_key ikey : bytes) (level : nat) (levels : list (list FileMetaData)) (stats last : seek_file) (w : W) :
    res (Status * option bytes * seek_file * W) :=
  match levels with
  | [] => Ok (NotFound [], None, stats, w)
  | files :: levels' =>
      fs ← files_to_search user_key ikey level files;
      '(r, stats, last, w) ← search_files user_key ikey level fs stats last w;
      match r with
      | Some (s, value) => Ok (s, value, stats, w)
      | None => search_levels user_key ikey (S level) levels' stats last w
      end
  end.

Definition version_Get (v : Version) (k : LookupKey) (w : W) : res (Status * option bytes * seek_file * W) :=
  search_levels (lk_user_key k) (internal_key k) 0 (files_ v) None None w.
End Get.

(** ** Seeks

    [allowed_seeks] of the files, and [file_to_compact_] with its level. *)
Record VersionStats := MkStats { vs_allowed : gmap Z Z; vs_file_to_compact : seek_file }.

(** Whether a compaction may be needed. *)
Definition UpdateStats (stats : seek_file) (s : VersionStats) : bool * VersionStats :=
  match stats with
  | None => (false, s)
  | Some (f, level) =>
      let allowed := wrap_s 32 (default 0 (vs_allowed s !! f_number f) - 1) in
      let a := <[f_number f := allowed]> (vs_allowed s) in
      match vs_file_to_compact s with
      | None => if allowed <=? 0 then (true, MkStats a (Some (f, level))) else (false, MkStats a None)
      | Some c => (false, MkStats a (Some c))
      end
  end.

(** [func] on the files of a level; [false] when it says to stop. *)
Fixpoint for_files {A} (func : nat -> FileMetaData -> A -> bool * A) (level : nat) (files : list FileMetaData) (arg : A) : bool * A :=
  match files with
  | [] => (true, arg)
  | f :: files' => let '(go, arg) := func level f arg in if (go : bool) then for_files func level files' arg else (false, arg)
  end.

Fixpoint for_levels {A} (func : nat -> FileMetaData -> A -> bool * A) (user_key ikey : bytes) (level : nat) (levels : list (list FileMetaData)) (arg : A) : res A :=
  match levels with
  | [] => Ok arg
  | files :: levels' =>
      fs ← files_to_search user_key ikey level files;
      let '(go, arg) := for_files func level fs arg in
      if (go : bool) then for_levels func user_key ikey (S level) levels' arg else Ok arg
  end.

Definition ForEachOverlapping {A} (v : Version) (user_key internal_key : bytes) (func : nat -> FileMetaData -> A -> bool * A) : A -> res A :=
  for_levels func user_key internal_key 0 (files_ v).

(** [State::Match]: the first match is remembered, the second one ends the search. *)
Definition Match (level : nat) (f : FileMetaData) (st : seek_file * Z) : bool * (seek_file * Z) :=
  let matches := snd st + 1 in
  (matches <? 2, (if matches =? 1 then Some (f, level) else fst st, matches)).

Definition version_RecordReadSample (v : Version) (internal_key : bytes) (s : VersionStats) : res (bool * VersionStats) :=
  ikey ← ParseInternalKey internal_key;
  match ikey with
  | None => Ok (false, s)
  | Some k =>
      '(stats, matches) ← ForEachOverlapping v (user_key k) internal_key Match (None, 0);
      Ok (if 2 <=? matches then UpdateStats stats s else (false, s))
  end.
End Files.
