(* ===== verification/LvlDb.v ===== *)
(** * Reading a LevelDB database

    [Get], [NewInternalIterator], [NewIterator], [RecordReadSample] and
    [MaybeScheduleCompaction] of src/3rd-party/leveldb/leveldb-1.18/db/db_impl.cc:
    the memtables first, then the files.  The calls are those of one thread, and
    no version is installed while an iterator lives, so that reads are sampled in
    the version the iterator was made of; the references to memtables and versions
    that a call takes are given back at its end, or with the iterator, and are
    left out. *)
From S2P Require Import Prelude Store LvlCoding LvlBase LvlFormat LvlBlock LvlIterator LvlSkipList LvlMemtable LvlMerge LvlDbIter LvlMemIter LvlVersion.

(** ** The state of the database that reading changes

    [ds_other_work] stands for [imm_ != NULL || manual_compaction_ != NULL ||
    compaction_score_ >= 1]. *)
Record DbStats := MkDbStats {
  ds_stats : VersionStats; ds_bg_scheduled : bool; ds_shutting_down : bool; ds_bg_error : Status; ds_other_work : bool }.

(** It is kept with what iterators share. *)
Class DbStore (W : Type) := { get_stats : W -> DbStats; put_stats : DbStats -> W -> W }.

Definition MaybeScheduleCompaction (d : DbStats) : DbStats :=
  if ds_bg_scheduled d then d
  else if ds_shutting_down d then d
  else if negb (status_ok (ds_bg_error d)) then d
  else if negb (ds_other_work d) && bool_decide (vs_file_to_compact (ds_stats d) = None) then d
  else MkDbStats (ds_stats d) true (ds_shutting_down d) (ds_bg_error d) (ds_other_work d).

Definition set_version_stats (s : VersionStats) (d : DbStats) : DbStats :=
  MkDbStats s (ds_bg_scheduled d) (ds_shutting_down d) (ds_bg_error d) (ds_other_work d).

(** What a change of the counts leads to. *)
Definition after_stats (r : bool * VersionStats) (d : DbStats) : DbStats :=
  let d := set_version_stats (snd r) d in if fst r then MaybeScheduleCompaction d else d.

Record DBImpl := MkDb { mem_ : memtable; imm_ : option memtable; current_ : Version; LastSequence : Z; seed_ : Z }.

Section Db.
Context (uc : comparator) {W T : Type} `{!TableCache W T} `{!DbStore W}.

Definition db_sampler (v : Version) : ReadSampler W := fun key w =>
  r ← version_RecordReadSample uc v key (ds_stats (get_stats w));
  Ok (put_stats (after_stats r (get_stats w)) w).

(** ** Lookups

    The status and what is stored in [*value]. *)
Definition db_Get (snapshot : option Z) (key : bytes) (db : DBImpl) (w : W) : res (Status * option bytes * W) :=
  let lkey := lookup_key key (default (LastSequence db) snapshot) in
  '(done, value, s) ← of_rounds (mt_Get uc (mem_ db) lkey status_OK);
  if (done : bool) then Ok (s, value, w)
  else
    '(done, value, s) ← (match imm_ db with Some imm => of_rounds (mt_Get uc imm lkey s) | None => Ok (false, None, s) end);
    if (done : bool) then Ok (s, value, w)
    else
      '(s, value, stats, w) ← version_Get uc (current_ db) lkey w;
      let d := get_stats w in
      Ok (s, value, put_stats (after_stats (UpdateStats stats (ds_stats d)) d) w).

(** ** Iterators *)
Abbreviation child_iterator := (MemTableIterator + (T + TwoLevelIterator LevelFileNumIterator (EmptyIterator + T)))%type.
Abbreviation internal_iterator := (EmptyIterator + (child_iterator + MergingIterator child_iterator))%type.

(** The rounds of the loops over the files of a level. *)
Definition level_rounds (v : Version) : nat := S (max_list (length <$> files_ v)).

Definition child_iter (v : Version) : Iterator W child_iterator :=
  sum_iterator (Iterator0 := mem_iterator uc) (Iterator1 := sum_iterator (Iterator1 := concatenating_iterator uc (level_rounds v))).

Definition internal_iter (v : Version) : Iterator W internal_iterator :=
  sum_iterator (Iterator1 := sum_iterator (Iterator0 := child_iter v) (Iterator1 := merging_iterator (Iterator0 := child_iter v) (internal_comparator uc))).

(** The iterator, the latest snapshot, the seed, and the database with it. *)
Definition NewInternalIterator (db : DBImpl) (w : W) : res (internal_iterator * Z * Z * DBImpl * W) :=
  '(files, w) ← AddIterators uc (W := W) (current_ db) w;
  let list_ := inl (mt_NewIterator (mem_ db)) :: (match imm_ db with Some imm => [inl (mt_NewIterator imm)] | None => [] end) ++ (inr <$> files) in
  it ← NewMergingIterator (W := W) (Iterator0 := child_iter (current_ db)) list_;
  let seed := wrap_u 32 (seed_ db + 1) in
  Ok (it, LastSequence db, seed, MkDb (mem_ db) (imm_ db) (current_ db) (LastSequence db) seed, w).

Definition db_NewIterator (snapshot : option Z) (db : DBImpl) (w : W) : res (DBIter internal_iterator * DBImpl * W) :=
  '(iter, latest_snapshot, seed, db, w) ← NewInternalIterator db w;
  Ok (DBIter_new iter (default latest_snapshot snapshot) seed, db, w).

(** The calls of the iterator a user gets; [rounds] bounds the loops over internal
    entries. *)
Definition user_iterator (v : Version) (rounds : nat) : Iterator W (DBIter internal_iterator) :=
  db_iterator (Iterator0 := internal_iter v) (ReadSampler0 := db_sampler v) uc rounds.
End Db.
