(* ===== verification/LvlVersionSpec.v ===== *)
(** * The files of a version as sorted lists

    The binary search finds the file, the iterator over the files of a level is a
    cursor in the entries of all of them, and a lookup goes to the files that can
    have its key and finds the newest entry in the first level that has one. *)
From Stdlib Require Import Sorting.Sorted.
From stdpp Require Import sorting.
From S2P Require Import Prelude Store LvlCoding LvlBase LvlFormat LvlBlock LvlBlockSpec LvlIterator LvlIteratorSpec LvlMerge LvlMergeSpec LvlDbIter LvlDbIterSpec LvlMemIter LvlVersion.

Definition file_value (f : FileMetaData) : bytes := EncodeFixed64 true (f_number f) ++ EncodeFixed64 true (f_file_size f).

(** The entries a level iterator shows. *)
Definition index_entries (files : list FileMetaData) : entries := (fun f => (f_largest f, file_value f)) <$> files.

Lemma lower_unique c t (es : entries) p : (p <= length es)%nat -> (forall i x, (i < p)%nat -> es !! i = Some x -> cmp c (fst x) t < 0) ->
  (forall i x, (p <= i)%nat -> es !! i = Some x -> 0 <= cmp c (fst x) t) -> lower_bound c t es = p.
Proof.
  intros Hp Hlo Hhi. rewrite <- (take_drop p es), lower_app_low.
  - rewrite <- (app_nil_l (drop p es)), lower_app_high; [cbn; rewrite length_take; lia|].
    intros y [i Hi]%list_elem_of_lookup. rewrite lookup_drop in Hi. apply (Hhi (p + i)%nat); [lia|done].
  - intros y [i [Hi Hlt]%lookup_take_Some]%list_elem_of_lookup. by apply (Hlo i).
Qed.

Section Version.
Context (uc : comparator) {UL : CmpLaws uc}.
Abbreviation icmp := (internal_comparator uc).

Lemma ikc_cmp a b : dom icmp a = true -> dom icmp b = true -> ikc_Compare uc a b = Ok (cmp icmp a b).
Proof.
  intros [La _]%internal_dom [Lb _]%internal_dom. change (cmp icmp a b) with (match ikc_Compare uc a b with Ok z => z | Ub _ => 0 end). by rewrite (ikc_split uc a b La Lb).
Qed.

(** ** The newest entry a snapshot sees *)
Definition seen_by (k : bytes) (s : Z) (x : ParsedInternalKey * bytes) : Prop := user_key (fst x) = k /\ sequence (fst x) <= s.

Definition newest (k : bytes) (s : Z) (l : parsed_entries) (o : option (ParsedInternalKey * bytes)) : Prop :=
  match o with
  | Some x => x ∈ l /\ seen_by k s x /\ forall y, y ∈ l -> seen_by k s y -> y = x \/ key_before uc (fst x) (fst y)
  | None => forall y, y ∈ l -> ~ seen_by k s y
  end.

(** Entries that are newer than others of the same user key. *)
Definition newer (l1 l2 : parsed_entries) : Prop := forall x y, x ∈ l1 -> y ∈ l2 -> user_key (fst x) = user_key (fst y) -> sequence (fst y) < sequence (fst x).

Lemma newest_app_l k s l1 l2 x : newest k s l1 (Some x) -> newer l1 l2 -> newest k s (l1 ++ l2) (Some x).
Proof.
  intros (Hx & Hs & Hn) Hnew. split; [set_solver|]. split; [done|]. intros y [Hy|Hy]%elem_of_app Hsy; [by apply Hn|]. right. right.
  destruct Hs as [Ex _], Hsy as [Ey _]. split; [congruence|]. left. apply (Hnew x y Hx Hy). congruence.
Qed.

Lemma newest_app_r k s l1 l2 o : newest k s l1 None -> newest k s l2 o -> newest k s (l1 ++ l2) o.
Proof.
  intros Hno. destruct o as [x|].
  - intros (Hx & Hs & Hn). split; [set_solver|]. split; [done|]. intros y [Hy|Hy]%elem_of_app Hsy; [by destruct (Hno y Hy)|by apply Hn].
  - intros Hn y [Hy|Hy]%elem_of_app; [by apply Hno|by apply Hn].
Qed.

Lemma newest_perm k s l l' o : l ≡ₚ l' -> newest k s l o -> newest k s l' o.
Proof. intros HP. destruct o as [x|]; cbn; setoid_rewrite HP; done. Qed.

(** ** The search for a file *)
Section Files.
Context (files : list FileMetaData).
Hypothesis Hnum : Z.of_nat (length files) < 2 ^ 31.
Hypothesis Hdom : forall f, f ∈ files -> dom icmp (f_largest f) = true.
Hypothesis Hsorted : forall i j f g, files !! i = Some f -> files !! j = Some g -> (i < j)%nat -> cmp icmp (f_largest f) (f_largest g) < 0.

Lemma index_at i : index_entries files !! i = (fun f => (f_largest f, file_value f)) <$> files !! i.
Proof. apply list_lookup_fmap. Qed.

Lemma length_index : length (index_entries files) = length files.
Proof. apply length_fmap. Qed.

Lemma find_file_ok fuel key : dom icmp key = true -> forall left right, 0 <= left <= right -> right <= Z.of_nat (length files) -> right - left < Z.of_nat fuel ->
  (forall i f, (i < Z.to_nat left)%nat -> files !! i = Some f -> cmp icmp (f_largest f) key < 0) ->
  (forall i f, (Z.to_nat right <= i)%nat -> files !! i = Some f -> 0 <= cmp icmp (f_largest f) key) ->
  find_file uc fuel files key left right = Ok (Z.of_nat (lower_bound icmp key (index_entries files))).
Proof.
  intros Dk. induction fuel as [|fuel IH]; intros left right Hl Hr Hf Hlo Hhi; [lia|]. cbn [find_file]. destruct (Z.ltb_spec left right) as [Hlt|Hge].
  - rewrite wrap_u_small by lia. assert (left <= (left + right) / 2 < right) as Hm by (split; [apply Z.div_le_lower_bound|apply Z.div_lt_upper_bound]; lia). set (mid := (left + right) / 2) in *.
    destruct (lookup_lt_is_Some_2 files (Z.to_nat mid)) as [f Hmid]; [lia|]. rewrite Hmid. cbn [of_option mbind res_bind].
    pose proof (Hdom f ltac:(by eapply list_elem_of_lookup_2)) as Df. rewrite ikc_cmp by done. cbn [mbind res_bind]. destruct (Z.ltb_spec (cmp icmp (f_largest f) key) 0) as [Hc|Hc].
    + apply IH; [lia|lia|lia| |done]. intros i g Hi Hg. destruct (decide (i = Z.to_nat mid)) as [->|Hne]; [rewrite Hmid in Hg; by injection Hg as <-|].
      destruct (decide (i < Z.to_nat left)%nat); [by apply (Hlo i)|]. apply (cmp_trans (c := icmp) _ (f_largest f)); [apply Hdom; by eapply list_elem_of_lookup_2|done|done| |done].
      apply (Hsorted i (Z.to_nat mid)); [done|done|lia].
    + apply IH; [lia|lia|lia|done|]. intros i g Hi Hg. destruct (decide (i = Z.to_nat mid)) as [->|Hne]; [rewrite Hmid in Hg; by injection Hg as <-|].
      assert (cmp icmp (f_largest f) (f_largest g) < 0) as Hfg by (apply (Hsorted (Z.to_nat mid) i); [done|done|lia]). assert (dom icmp (f_largest g) = true) as Dg by (apply Hdom; by eapply list_elem_of_lookup_2).
      destruct (Z.lt_ge_cases (cmp icmp (f_largest g) key) 0) as [H|]; [|done]. pose proof (cmp_trans (c := icmp) _ _ _ Df Dg Dk Hfg H). lia.
  - f_equal. rewrite (lower_unique icmp key (index_entries files) (Z.to_nat right)); [lia|rewrite length_index; lia| |].
    + intros i x Hi. rewrite index_at. intros (f & Hfi & ->)%fmap_Some. apply (Hlo i); [lia|done].
    + intros i x Hi. rewrite index_at. intros (f & Hfi & ->)%fmap_Some. by apply (Hhi i).
Qed.

Lemma FindFile_ok key : dom icmp key = true -> FindFile uc files key = Ok (Z.of_nat (lower_bound icmp key (index_entries files))).
Proof.
  intros Dk. unfold FindFile. rewrite wrap_u_small by lia. apply find_file_ok; [done|lia|lia|lia| |].
  - intros i f Hi. lia.
  - intros i f Hi Hf. apply lookup_lt_Some in Hf. lia.
Qed.

(** ** The files as an iterator *)
Section Level.
Context {W : Type} (okw : W -> Prop).

Definition lf_pos (p : nat) (it : LevelFileNumIterator) : Prop := it = MkLevelIter files (Z.of_nat p) /\ (p <= length files)%nat.

Lemma lf_moved p : (p <= length files)%nat -> steps okw (fun w => Ok (MkLevelIter files (Z.of_nat p), w)) (lf_pos p).
Proof. intros Hp. by apply steps_ret. Qed.

Lemma level_cursor : is_cursor icmp okw (IT := level_file_iterator uc W) lf_pos (index_entries files).
Proof.
  split; cbn [level_file_iterator i_Valid i_SeekToFirst i_SeekToLast i_Seek i_Next i_Prev i_key i_value i_status]; rewrite ?length_index.
  - intros p it [-> Hp]. cbn. apply eq_true_iff_eq. rewrite Z.ltb_lt, bool_decide_eq_true. lia.
  - intros p it x [-> _] Hx. rewrite index_at in Hx. apply fmap_Some in Hx as (f & Hf & ->). unfold lf_value, lf_file. cbn [lf_flist lf_index]. by rewrite Nat2Z.id, Hf.
  - done.
  - intros p it [-> Hp]. apply (lf_moved 0). lia.
  - intros p it [-> Hp]. cbn [lf_flist]. assert ((match files with [] => 0 | _ => wrap_u 32 (Z.of_nat (length files) - 1) end) = Z.of_nat (length files - 1)) as ->.
    { destruct files as [|f fs]; [done|]. cbn [length] in Hnum |- *. rewrite wrap_u_small; lia. }
    apply lf_moved. lia.
  - intros p it t [-> Hp] Dt. cbn [lf_flist]. rewrite FindFile_ok by done. cbn [mbind res_bind]. pose proof (lower_le icmp t (index_entries files)) as Hle. rewrite length_index in Hle.
    rewrite wrap_u_small by lia. by apply lf_moved.
  - intros p it [-> Hp] Hlt. cbn [lf_flist lf_index]. rewrite wrap_u_small by lia. replace (Z.of_nat p + 1) with (Z.of_nat (S p)) by lia. apply lf_moved. lia.
  - intros p it [-> Hp] Hlt. cbn [lf_flist lf_index]. destruct p as [|q].
    + cbn. rewrite wrap_u_small by lia. by apply lf_moved.
    + rewrite (proj2 (Z.eqb_neq _ _)) by lia. replace (Z.of_nat (S q) - 1) with (Z.of_nat q) by lia. apply lf_moved. lia.
Qed.

Lemma level_new : lf_pos (length (index_entries files)) (LevelFileNumIterator_new files).
Proof. unfold LevelFileNumIterator_new. rewrite wrap_u_small by lia. rewrite length_index. by split. Qed.
End Level.
End Files.

(** ** Contents of files *)
Definition sorted_parsed (l : parsed_entries) : Prop :=
  Forall (fun x => good_seq (sequence (fst x)) /\ dom uc (user_key (fst x)) = true) l /\ StronglySorted (fun x y => key_before uc (fst x) (fst y)) l.

Lemma sp_good l i k v : sorted_parsed l -> l !! i = Some (k, v) -> good_seq (sequence k) /\ dom uc (user_key k) = true.
Proof. intros [HF _] Hi. rewrite Forall_lookup in HF. exact (HF i _ Hi). Qed.

Lemma sp_sorted l i j x y : sorted_parsed l -> l !! i = Some x -> l !! j = Some y -> (i < j)%nat -> key_before uc (fst x) (fst y).
Proof. intros [_ HS] Hi Hj Hij. exact (sorted_at _ _ _ _ _ _ HS Hi Hj Hij). Qed.

Lemma sp_app l1 l2 : sorted_parsed (l1 ++ l2) -> sorted_parsed l1 /\ sorted_parsed l2 /\ forall x y, x ∈ l1 -> y ∈ l2 -> key_before uc (fst x) (fst y).
Proof. intros [[F1 F2]%Forall_app (HS & S1 & S2)%StronglySorted_app]. split; [done|]. split; [done|]. by apply HS. Qed.

Lemma internal_dom_key k : good_seq (sequence k) -> dom uc (user_key k) = true -> dom icmp (AppendInternalKey [] k) = true.
Proof. intros Hs Hd. apply internal_dom. rewrite append_tagged. by destruct (split_tagged (sequence k) (type k) (user_key k) Hs) as [-> ?]. Qed.

(** The newest entry of a sorted list is where a seek lands. *)
Lemma newest_sorted k s raws : sorted_parsed raws -> dom uc k = true -> good_seq s ->
  newest k s raws (match raws !! lower_bound icmp (AppendInternalKey [] (PIK k s kValueTypeForSeek)) (internal_entries raws) with
                   | Some x => if decide (user_key (fst x) = k) then Some x else None
                   | None => None
                   end).
Proof.
  intros HS Dk Gs. destruct (seek_split uc s raws Gs (fun i k v => sp_good raws i k v HS) (fun i j x y => sp_sorted raws i j x y HS) k Dk) as [Hlo Hhi]. unfold seek_key in *.
  set (p := lower_bound _ _ _) in *.
  assert (Hbelow : forall j y, (j < p)%nat -> raws !! j = Some y -> ~ seen_by k s y).
  { intros j [kj vj] Hj Hy [E Hq]. pose proof (Hlo j kj vj Hj ltac:(done)) as Hlt. cbn in E. rewrite E, cmp_refl in Hlt; [lia|done..]. }
  destruct (raws !! p) as [x|] eqn:Hp.
  - destruct (sp_good raws p (fst x) (snd x) HS) as [Gx Dx]; [by destruct x|]. destruct (decide (user_key (fst x) = k)) as [E|E].
    + split; [by eapply list_elem_of_lookup_2|]. split.
      * split; [done|]. assert (~ key_before uc (fst x) (PIK k s kValueTypeForSeek)) as Hnb.
        { rewrite <- icmp_before by done. assert (internal_entries raws !! p = Some (AppendInternalKey [] (fst x), snd x)) as He by (unfold internal_entries; by rewrite list_lookup_fmap, Hp).
          pose proof (lower_found _ _ _ _ He). cbn in *. lia. }
        destruct (Z.le_gt_cases (sequence (fst x)) s); [done|]. destruct Hnb. right. cbn. split; [done|]. left. lia.
      * intros y [j Hy]%list_elem_of_lookup Hsy. destruct (Nat.lt_trichotomy j p) as [Hj|[->|Hj]]; [by destruct (Hbelow j y Hj Hy)|left; congruence|right]. by apply (sp_sorted raws p j).
    + intros y [j Hy]%list_elem_of_lookup [Ey Hsy]. destruct (Nat.lt_trichotomy j p) as [Hj|[->|Hj]]; [by destruct (Hbelow j y Hj Hy)|congruence|].
      destruct (sp_sorted raws p j _ _ HS Hp Hy Hj) as [Hlt|[E' _]]; [|congruence]. pose proof (Hhi p (fst x) (snd x) ltac:(done) ltac:(by rewrite Hp; destruct x)) as Hge. rewrite Ey in Hlt. lia.
  - intros y [j Hy]%list_elem_of_lookup. apply (Hbelow j y); [|done]. apply lookup_ge_None in Hp. apply lookup_lt_Some in Hy. lia.
Qed.

(** What a lookup of an internal key in a table gives: the first entry that is not
    before the key, and never nothing when that has the same user key. *)
Definition table_answer (raws : parsed_entries) (key : ParsedInternalKey) (r : option (bytes * bytes)) : Prop :=
  let p := lower_bound icmp (AppendInternalKey [] key) (internal_entries raws) in
  (forall x, r = Some x -> internal_entries raws !! p = Some x) /\
  (forall k v, raws !! p = Some (k, v) -> user_key k = user_key key -> r = Some (AppendInternalKey [] k, v)).

Section Contents.
Context {W T : Type} {TC : TableCache W T} (okw : W -> Prop) (held : FileMetaData -> parsed_entries).

(** A file with the entries that are held in it. *)
Record file_holds (f : FileMetaData) : Prop := {
  fh_sorted : sorted_parsed (held f);
  fh_first : exists x, head (held f) = Some x /\ f_smallest f = AppendInternalKey [] (fst x);
  fh_last : exists x, last (held f) = Some x /\ f_largest f = AppendInternalKey [] (fst x);
  fh_numbers : 0 <= f_number f < 2 ^ 64 /\ 0 <= f_file_size f < 2 ^ 64;
  fh_iter : exists R, is_cursor icmp okw R (internal_entries (held f)) /\ steps okw (tc_NewIterator (f_number f) (f_file_size f)) (fun it => exists p, R p it);
  fh_get k s : dom uc k = true -> good_seq s ->
    steps okw (tc_Get (f_number f) (f_file_size f) (AppendInternalKey [] (PIK k s kValueTypeForSeek))) (fun r => fst r = status_OK /\ table_answer (held f) (PIK k s kValueTypeForSeek) (snd r))
}.

Lemma file_bounds f : file_holds f -> exists a b, f_smallest f = AppendInternalKey [] a /\ f_largest f = AppendInternalKey [] b /\
  good_seq (sequence a) /\ good_seq (sequence b) /\ dom uc (user_key a) = true /\ dom uc (user_key b) = true /\
  (forall x, x ∈ held f -> fst x = a \/ key_before uc a (fst x)) /\ (forall x, x ∈ held f -> fst x = b \/ key_before uc (fst x) b) /\ (exists v, (b, v) ∈ held f).
Proof.
  intros HF. pose proof (fh_sorted f HF) as HS. destruct (fh_first f HF) as ([a va] & Ha & ->), (fh_last f HF) as ([b vb] & Hb & ->). rewrite head_lookup in Ha. rewrite last_lookup in Hb.
  destruct (sp_good _ _ _ _ HS Ha) as [Ga Da], (sp_good _ _ _ _ HS Hb) as [Gb Db]. exists a, b. do 6 (split; [done|]). split_and!.
  - intros x [i Hi]%list_elem_of_lookup. destruct i as [|i]; [left; rewrite Ha in Hi; by injection Hi as <-|right]. apply (sp_sorted _ 0 (S i) _ _ HS Ha Hi). lia.
  - intros x [i Hi]%list_elem_of_lookup. pose proof (lookup_lt_Some _ _ _ Hi). destruct (decide (i = pred (length (held f)))) as [->|]; [left; rewrite Hb in Hi; by injection Hi as <-|right].
    apply (sp_sorted _ i (pred (length (held f))) _ _ HS Hi Hb). lia.
  - exists vb. by eapply list_elem_of_lookup_2.
Qed.

(** ** Levels *)
Section Level.
Context (files : list FileMetaData).
Hypothesis Hfiles : forall f, f ∈ files -> file_holds f.
Hypothesis Hnum : Z.of_nat (length files) < 2 ^ 31.
Hypothesis Hnames : NoDup (f_number <$> files).
Hypothesis Hsorted : sorted_parsed (concat (held <$> files)).

Lemma file_in i f : files !! i = Some f -> file_holds f.
Proof. intros Hi. apply Hfiles. by eapply list_elem_of_lookup_2. Qed.

Lemma files_apart i j f g x y : files !! i = Some f -> files !! j = Some g -> (i < j)%nat -> x ∈ held f -> y ∈ held g -> key_before uc (fst x) (fst y).
Proof.
  intros Hi Hj Hij Hx Hy. rewrite <- (take_drop_middle files i f Hi), fmap_app, fmap_cons, concat_app in Hsorted. cbn [concat] in Hsorted.
  destruct (sp_app _ _ Hsorted) as (_ & H2 & _). destruct (sp_app _ _ H2) as (_ & _ & H3). apply H3; [done|]. apply elem_of_concat. exists (held g). split; [done|].
  apply list_elem_of_fmap. exists g. split; [done|]. apply list_elem_of_lookup. exists (j - S i)%nat. rewrite lookup_drop, <- Hj. f_equal. lia.
Qed.

Lemma largest_dom f : f ∈ files -> dom icmp (f_largest f) = true.
Proof. intros Hf. destruct (file_bounds f (Hfiles f Hf)) as (a & b & _ & -> & _ & Gb & _ & Db & _). by apply internal_dom_key. Qed.

Lemma largest_sorted i j f g : files !! i = Some f -> files !! j = Some g -> (i < j)%nat -> cmp icmp (f_largest f) (f_largest g) < 0.
Proof.
  intros Hi Hj Hij. destruct (file_bounds f (file_in _ _ Hi)) as (_ & b & _ & -> & _ & Gb & _ & Db & _ & _ & vb & Hb), (file_bounds g (file_in _ _ Hj)) as (_ & d & _ & -> & _ & Gd & _ & Dd & _ & _ & vd & Hd).
  apply icmp_before; [done..|]. exact (files_apart i j f g _ _ Hi Hj Hij Hb Hd).
Qed.

Lemma internal_concat : concat ((fun f => internal_entries (held f)) <$> files) = internal_entries (concat (held <$> files)).
Proof. clear. induction files as [|f fs IH]; [done|]. cbn. rewrite IH. unfold internal_entries. by rewrite fmap_app. Qed.

(** The places of an iterator over the table of file [i]. *)
Definition table_place (i p : nat) (it : EmptyIterator + T) : Prop :=
  exists f, files !! i = Some f /\ in_sum (fun _ _ => False) (fun p t => exists R, is_cursor icmp okw R (internal_entries (held f)) /\ R p t) p it.

Lemma table_places f : is_cursor icmp okw (IT := tc_iterator) (fun p t => exists R, is_cursor icmp okw R (internal_entries (held f)) /\ R p t) (internal_entries (held f)).
Proof. apply cursor_union. intros p t (R & HC & HR). exists R. split; [done|]. split; [done|]. by eauto. Qed.

Lemma table_place_cursor i f : files !! i = Some f -> is_cursor icmp okw (table_place i) (internal_entries (held f)).
Proof.
  intros Hi. apply cursor_union. intros p it (f' & Hf' & Hit). rewrite Hi in Hf'. injection Hf' as <-. eexists. split; [apply (sum_cursor icmp okw (fun _ _ => False)); [apply no_cursor|apply table_places]|].
  split; [exact Hit|]. intros q it' Hit'. by exists f.
Qed.

Lemma get_file_ok i f : files !! i = Some f -> steps okw (GetFileIterator (file_value f)) (fun it => exists p, table_place i p it).
Proof.
  intros Hi. pose proof (file_in _ _ Hi) as HF. destruct (fh_numbers f HF) as [Hn Hz]. unfold GetFileIterator, file_value.
  assert (length (EncodeFixed64 true (f_number f) ++ EncodeFixed64 true (f_file_size f)) = 16%nat) as -> by (by rewrite length_app, !encode64_le, !length_le_split). cbn [Nat.eqb negb].
  rewrite fixed64_get by lia. cbn [mbind res_bind]. replace (drop 8 _) with (EncodeFixed64 true (f_file_size f) ++ []).
  2:{ rewrite app_nil_r. symmetry. apply drop_app_length'. by rewrite encode64_le, length_le_split. }
  rewrite fixed64_get by lia. cbn [mbind res_bind]. destruct (fh_iter f HF) as (R & HC & HN). eapply steps_bind; [exact HN|]. intros it [p Hp]. apply steps_ret. exists p, f. split; [done|]. cbn. by exists R.
Qed.

Lemma file_value_inj f g : file_holds f -> file_holds g -> file_value f = file_value g -> f_number f = f_number g.
Proof.
  intros [_ _ _ [Hf _] _ _] [_ _ _ [Hg _] _ _] E. unfold file_value in E.
  pose proof (fixed64_get true true (f_number f) (EncodeFixed64 true (f_file_size f)) Hf) as H1. rewrite E, fixed64_get in H1 by lia. by injection H1 as ->.
Qed.

(** The iterator over the files of a level is a cursor in all their entries. *)
Lemma concat_cursor rounds : (length files < rounds)%nat -> exists R, is_cursor icmp okw (IT := concatenating_iterator uc rounds) R (internal_entries (concat (held <$> files))) /\
  exists it, NewTwoLevelIterator (Iterator0 := level_file_iterator uc W) (W := W) (D := EmptyIterator + T) (LevelFileNumIterator_new files) = Ok it /\ R (length (internal_entries (concat (held <$> files)))) it.
Proof.
  intros Hr. rewrite <- internal_concat. set (B := (fun f => internal_entries (held f)) <$> files).
  assert (HB : forall i b, B !! i = Some b -> exists f, files !! i = Some f /\ b = internal_entries (held f)) by (intros i b; unfold B; rewrite list_lookup_fmap; intros (f & Hf & ->)%fmap_Some; by exists f).
  assert (HI : forall i x, index_entries files !! i = Some x -> exists f, files !! i = Some f /\ x = (f_largest f, file_value f)) by (intros i x; rewrite index_at; intros (f & Hf & ->)%fmap_Some; by exists f).
  assert (HY : forall f y, y ∈ internal_entries (held f) -> exists x, x ∈ held f /\ y = (AppendInternalKey [] (fst x), snd x)) by (intros f y; unfold internal_entries; rewrite list_elem_of_fmap; intros (x & -> & Hx); by exists x).
  assert (HG : forall f x, file_holds f -> x ∈ held f -> good_seq (sequence (fst x)) /\ dom uc (user_key (fst x)) = true).
  { intros f [k v] HF [i Hi]%list_elem_of_lookup. by apply (sp_good (held f) i k v); [apply fh_sorted|]. }
  exists (tl_pos (IT := level_file_iterator uc W) (index_entries files) B (lf_pos files) table_place). split.
  - apply two_level_cursor.
    + apply _.
    + unfold B. by rewrite length_index, length_fmap.
    + apply level_cursor; [done|exact largest_dom|exact largest_sorted].
    + intros i b (f & Hf & ->)%HB. by apply table_place_cursor.
    + intros i x (f & Hf & ->)%HI. by apply get_file_ok.
    + intros i j x y (f & Hf & ->)%HI (g & Hg & ->)%HI E. cbn in E. apply file_value_inj in E; [|by eapply file_in..].
      apply (NoDup_lookup _ _ _ (f_number f) Hnames); [by rewrite list_lookup_fmap, Hf|by rewrite list_lookup_fmap, Hg, E].
    + intros i x (f & Hf & ->)%HI. apply largest_dom. by eapply list_elem_of_lookup_2.
    + intros i b y (f & Hf & ->)%HB (x & Hx & ->)%HY. destruct (HG f x (file_in _ _ Hf) Hx). by apply internal_dom_key.
    + intros i x b y (f & Hf & ->)%HI (g & Hg & ->)%HB (z & Hz & ->)%HY. rewrite Hf in Hg. injection Hg as <-. destruct (HG f z (file_in _ _ Hf) Hz) as [Gz Dz].
      destruct (file_bounds f (file_in _ _ Hf)) as (_ & d & _ & -> & _ & Gd & _ & Dd & _ & Hle & _). cbn [fst]. destruct (Hle z Hz) as [->|Hlt].
      * rewrite (cmp_refl icmp); [done|]. by apply internal_dom_key.
      * apply Z.lt_le_incl. by apply icmp_before.
    + intros i j x b y Hij (f & Hf & ->)%HI (g & Hg & ->)%HB (z & Hz & ->)%HY. destruct (HG g z (file_in _ _ Hg) Hz) as [Gz Dz].
      destruct (file_bounds f (file_in _ _ Hf)) as (_ & d & _ & -> & _ & Gd & _ & Dd & _ & _ & v & Hd). cbn [fst]. apply icmp_before; [done..|]. exact (files_apart i j f g _ _ Hf Hg Hij Hd Hz).
    + by rewrite length_index.
  - apply two_level_new. by apply level_new.
Qed.
(** ** The file of a level in which a key would be *)
Section Around.
Context (k : bytes) (s : Z) (Dk : dom uc k = true) (Gs : good_seq s).
Let ikey := AppendInternalKey [] (PIK k s kValueTypeForSeek).

Lemma ikey_dom : dom icmp ikey = true.
Proof. by apply internal_dom_key. Qed.

(** An entry the snapshot sees is not before the key that is sought. *)
Lemma seen_after x : good_seq (sequence (fst x)) -> dom uc (user_key (fst x)) = true -> seen_by k s x -> ~ cmp icmp (AppendInternalKey [] (fst x)) ikey < 0.
Proof.
  intros Gx Dx [E Hs]. unfold ikey. rewrite icmp_before by done. intros [Hlt|[_ Hlt]]; cbn in Hlt.
  - rewrite E, cmp_refl in Hlt; [lia|done..].
  - destruct (type (fst x)); cbn in Hlt; lia.
Qed.

Lemma held_good f x : file_holds f -> x ∈ held f -> good_seq (sequence (fst x)) /\ dom uc (user_key (fst x)) = true.
Proof. intros HF [i Hi]%list_elem_of_lookup. destruct x as [kx vx]. by apply (sp_good (held f) i kx vx); [apply fh_sorted|]. Qed.

Lemma around_below i f x : (i < lower_bound icmp ikey (index_entries files))%nat -> files !! i = Some f -> x ∈ held f -> ~ seen_by k s x.
Proof.
  intros Hi Hf Hx Hs. pose proof (file_in _ _ Hf) as HF. destruct (held_good f x HF Hx) as [Gx Dx]. apply (seen_after x Gx Dx Hs).
  assert (index_entries files !! i = Some (f_largest f, file_value f)) as He by (by rewrite index_at, Hf). pose proof (lower_below _ _ _ _ _ Hi He) as Hlt. cbn [fst] in Hlt.
  destruct (file_bounds f HF) as (_ & b & _ & Eb & _ & Gb & _ & Db & _ & Hle & _). rewrite Eb in Hlt. destruct (Hle x Hx) as [->|Hlt']; [done|].
  apply (cmp_trans (c := icmp) _ (AppendInternalKey [] b)); [by apply internal_dom_key|by apply internal_dom_key|exact ikey_dom|by apply icmp_before|done].
Qed.

Lemma in_level x : x ∈ concat (held <$> files) -> exists i f, files !! i = Some f /\ x ∈ held f.
Proof. intros (l & Hx & (f & -> & [i Hi]%list_elem_of_lookup)%list_elem_of_fmap)%elem_of_concat. by exists i, f. Qed.

(** The largest key of the file found, when it has the user key, is seen. *)
Lemma around_above i j f g x : i = lower_bound icmp ikey (index_entries files) -> files !! i = Some f -> (i < j)%nat -> files !! j = Some g -> x ∈ held g -> seen_by k s x ->
  exists y, y ∈ held f /\ seen_by k s y.
Proof.
  intros Hi Hf Hij Hg Hx [Ex Hsx]. destruct (file_bounds f (file_in _ _ Hf)) as (_ & b & _ & Eb & _ & Gb & _ & Db & _ & _ & v & Hb). exists (b, v). split; [done|].
  assert (index_entries files !! i = Some (f_largest f, file_value f)) as He by (by rewrite index_at, Hf). rewrite Hi in He. pose proof (lower_found _ _ _ _ He) as Hge. cbn [fst] in Hge. rewrite Eb in Hge.
  assert (~ key_before uc b (PIK k s kValueTypeForSeek)) as Hnb by (rewrite <- icmp_before by done; unfold ikey in Hge; lia).
  assert (user_key b = k) as E.
  { destruct (files_apart i j f g (b, v) x Hf Hg Hij Hb Hx) as [Hlt|[E _]]; [|by rewrite <- Ex]. cbn in Hlt. rewrite Ex in Hlt. destruct Hnb. by left. }
  split; [done|]. cbn. destruct (Z.le_gt_cases (sequence b) s); [done|]. destruct Hnb. right. split; [done|]. left. cbn. lia.
Qed.

Lemma file_around_ok : exists o, file_around uc k ikey files = Ok o /\
  match o with
  | Some f => f ∈ files /\ forall x, newest k s (held f) x -> newest k s (concat (held <$> files)) x
  | None => newest k s (concat (held <$> files)) None
  end.
Proof.
  unfold file_around. rewrite (FindFile_ok files Hnum largest_dom largest_sorted ikey ikey_dom). cbn [mbind res_bind]. set (i := lower_bound icmp ikey (index_entries files)).
  destruct (Z.leb_spec (Z.of_nat (length files)) (Z.of_nat i)) as [Hge|Hlt].
  { eexists. split; [done|]. intros y (j & f & Hf & Hy)%in_level. apply (around_below j f y); [|done|done]. apply lookup_lt_Some in Hf. fold i. lia. }
  rewrite Nat2Z.id. destruct (lookup_lt_is_Some_2 files i) as [f Hf]; [lia|]. rewrite Hf. cbn [of_option mbind res_bind]. pose proof (file_in _ _ Hf) as HF.
  destruct (file_bounds f HF) as (a & _ & Ea & _ & Ga & _ & Da & _ & Hle & _). rewrite Ea. rewrite (proj1 (proj2 (proj2 (internal_key_roundtrip a Ga)))). cbn [mbind res_bind].
  assert (Hother : forall y, y ∈ concat (held <$> files) -> seen_by k s y -> y ∈ held f \/ exists j g, (i < j)%nat /\ files !! j = Some g /\ y ∈ held g).
  { intros y (j & g & Hg & Hy)%in_level Hs. destruct (Nat.lt_trichotomy j i) as [Hj|[->|Hj]]; [by destruct (around_below j g y Hj Hg Hy)|left; congruence|right; by exists j, g]. }
  eexists. split; [done|]. destruct (Z.ltb_spec (cmp uc k (user_key a)) 0) as [Hc|Hc].
  - assert (Hno : forall y, y ∈ held f -> ~ seen_by k s y).
    { intros y Hy [E _]. destruct (Hle y Hy) as [Ey|[Hlt'|[E' _]]].
      - rewrite <- Ey, E, cmp_refl in Hc; [lia|done..].
      - rewrite E in Hlt'. pose proof (cmp_opp (user_key a) k Da Dk). lia.
      - rewrite E', E, cmp_refl in Hc; [lia|done..]. }
    intros y Hy Hs. destruct (Hother y Hy Hs) as [Hyf|(j & g & Hj & Hg & Hyg)]; [by apply (Hno y)|]. destruct (around_above i j f g y eq_refl Hf Hj Hg Hyg Hs) as (z & Hz & Hsz). by apply (Hno z).
  - split; [by eapply list_elem_of_lookup_2|]. intros [x|].
    + intros (Hx & Hsx & Hn). split; [apply elem_of_concat; exists (held f); split; [done|]; apply list_elem_of_fmap; exists f; split; [done|by eapply list_elem_of_lookup_2]|]. split; [done|].
      intros y Hy Hsy. destruct (Hother y Hy Hsy) as [Hyf|(j & g & Hj & Hg & Hyg)]; [by apply Hn|]. right. exact (files_apart i j f g x y Hf Hg Hj Hx Hyg).
    + intros Hn y Hy Hs. destruct (Hother y Hy Hs) as [Hyf|(j & g & Hj & Hg & Hyg)]; [by apply (Hn y)|]. destruct (around_above i j f g y eq_refl Hf Hj Hg Hyg Hs) as (z & Hz & Hsz). by apply (Hn z).
Qed.
End Around.
End Level.
(** ** Lookups *)
Section Get.
Context (k : bytes) (s : Z) (Dk : dom uc k = true) (Gs : good_seq s).
Let ikey := AppendInternalKey [] (PIK k s kValueTypeForSeek).

(** What [Get] returns for the newest entry. *)
Definition answer (x : ParsedInternalKey * bytes) : Status * option bytes :=
  match type (fst x) with kTypeValue => (status_OK, Some (snd x)) | kTypeDeletion => (NotFound [], None) end.

(** The newest entry in files that are searched one after the other. *)
Lemma search_files_ok level fs : (forall f, f ∈ fs -> file_holds f) -> (forall i j f g, fs !! i = Some f -> fs !! j = Some g -> (i < j)%nat -> newer (held f) (held g)) ->
  forall stats last, steps okw (search_files uc k ikey level fs stats last) (fun r => exists o, newest k s (concat (held <$> fs)) o /\ fst (fst r) = answer <$> o).
Proof.
  induction fs as [|f fs IH]; intros HF Hnew stats last.
  { cbn [search_files]. apply steps_ret. exists None. split; [|done]. intros y Hy. by apply elem_of_nil in Hy. }
  pose proof (HF f ltac:(set_solver)) as Hf. cbn [search_files fmap list_fmap concat]. eapply steps_bind; [by apply (fh_get f Hf k s)|]. intros [st found] [Est [Hfound Hmust]]. cbn [fst snd] in *. rewrite Est. cbn [status_ok status_OK negb].
  pose proof (newest_sorted k s (held f) (fh_sorted f Hf) Dk Gs) as Hn. set (p := lower_bound _ _ _) in *.
  assert (Hrest : newest k s (held f) None -> forall stats last, steps okw (search_files uc k ikey level fs stats last)
    (fun r => exists o, newest k s (held f ++ concat (held <$> fs)) o /\ fst (fst r) = answer <$> o)).
  { intros Hno stats' last'. eapply steps_mono; [apply IH; [intros g Hg; apply HF; set_solver|intros i j g h Hg Hh Hij; apply (Hnew (S i) (S j)); [done|done|lia]]|].
    intros r (o & Ho & Er). exists o. split; [by apply newest_app_r|done]. }
  destruct found as [[fk fv]|].
  - specialize (Hfound _ eq_refl). unfold internal_entries in Hfound. rewrite list_lookup_fmap in Hfound. apply fmap_Some in Hfound as ([kx vx] & Hp & E). injection E as -> ->. rewrite Hp in Hn, Hmust. cbn [fst] in Hn.
    destruct (sp_good _ _ _ _ (fh_sorted f Hf) Hp) as [Gx Dx]. unfold SaveValue. rewrite (proj1 (internal_key_roundtrip kx Gx)). cbn [mbind res_bind].
    destruct (Z.eqb_spec (cmp uc (user_key kx) k) 0) as [E|E].
    + apply cmp_eq in E; [|done|done]. rewrite decide_True in Hn by done.
      assert (newest k s (held f ++ concat (held <$> fs)) (Some (kx, vx))) as Hall.
      { apply newest_app_l; [done|]. intros x y Hx (l & Hy & (g & -> & [j Hg]%list_elem_of_lookup)%list_elem_of_fmap)%elem_of_concat. apply (Hnew 0%nat (S j) f g); [done|done|lia|done|done]. }
      destruct (type kx) eqn:Ht; cbn [mbind res_bind]; apply steps_ret; exists (Some (kx, vx)); (split; [done|]); cbn; unfold answer; cbn [fst snd]; by rewrite Ht.
    + rewrite decide_False in Hn by (intros E'; apply E; rewrite E'; by apply cmp_refl). apply (Hrest Hn).
  - cbn [mbind res_bind]. apply Hrest. destruct (held f !! p) as [[kx vx]|]; [|done]. cbn [fst] in Hn. case_decide as E; [|done]. by specialize (Hmust _ _ eq_refl E).
Qed.

(** The files of level 0 around a key. *)
Lemma files_around_ok files : (forall f, f ∈ files -> file_holds f) -> exists tmp, files_around uc k files = Ok tmp /\ tmp `sublist_of` files /\
  forall f, f ∈ files -> f ∈ tmp \/ newest k s (held f) None.
Proof.
  induction files as [|f fs IH]; intros HF; [exists []; split; [done|]; split; [constructor|set_solver]|]. cbn [files_around]. pose proof (HF f ltac:(set_solver)) as Hf.
  destruct (file_bounds f Hf) as (a & b & -> & -> & Ga & Gb & Da & Db & Hlo & Hhi & _). rewrite (proj1 (proj2 (proj2 (internal_key_roundtrip a Ga)))), (proj1 (proj2 (proj2 (internal_key_roundtrip b Gb)))). cbn [mbind res_bind].
  destruct IH as (tmp & -> & Hsub & Hout); [intros g Hg; apply HF; set_solver|]. cbn [mbind res_bind]. eexists. split; [done|]. destruct (_ && _) eqn:Hc.
  - split; [by apply sublist_skip|]. intros g [->|Hg]%elem_of_cons; [left; set_solver|]. destruct (Hout g Hg); [left; set_solver|by right].
  - split; [by apply sublist_cons|]. intros g [->|Hg]%elem_of_cons; [right|destruct (Hout g Hg); [by left|by right]]. intros y Hy [E _].
    pose proof (cmp_opp (user_key a) k Da Dk) as O1. pose proof (cmp_opp k (user_key b) Dk Db) as O2. pose proof (cmp_opp k (user_key a) Dk Da) as O3. pose proof (cmp_opp (user_key b) k Db Dk) as O4.
    assert (0 <= cmp uc k (user_key a)) as H1.
    { destruct (Hlo y Hy) as [Ey|[Hlt|[Ey _]]]; [rewrite <- Ey, E, cmp_refl; [done|done..]|rewrite E in Hlt; lia|rewrite Ey, E, cmp_refl; [done|done..]]. }
    assert (cmp uc k (user_key b) <= 0) as H2.
    { destruct (Hhi y Hy) as [Ey|[Hlt|[Ey _]]]; [rewrite <- Ey, E, cmp_refl; [done|done..]|rewrite E in Hlt; lia|rewrite <- Ey, E, cmp_refl; [done|done..]]. }
    apply Z.leb_le in H1, H2. by rewrite H1, H2 in Hc.
Qed.

Lemma newest_missing fs gs o : fs ⊆ gs -> (forall g, g ∈ gs -> g ∈ fs \/ newest k s (held g) None) -> newest k s (concat (held <$> fs)) o -> newest k s (concat (held <$> gs)) o.
Proof.
  intros Hsub Hout. assert (Hin : forall y, y ∈ concat (held <$> gs) -> seen_by k s y -> y ∈ concat (held <$> fs)).
  { intros y (l & Hy & (g & -> & Hg)%list_elem_of_fmap)%elem_of_concat Hs. destruct (Hout g Hg) as [Hgf|Hno]; [|by destruct (Hno y Hy)].
    apply elem_of_concat. exists (held g). split; [done|]. apply list_elem_of_fmap. by exists g. }
  destruct o as [x|].
  - intros (Hx & Hsx & Hn). split; [|split; [done|by intros y Hy Hsy; apply Hn; [apply Hin|]]]. apply elem_of_concat in Hx as (l & Hx & (g & -> & Hg)%list_elem_of_fmap).
    apply elem_of_concat. exists (held g). split; [done|]. apply list_elem_of_fmap. exists g. split; [done|]. by apply Hsub.
  - intros Hn y Hy Hs. by apply (Hn y); [apply Hin|].
Qed.
(** What a level must be: files that hold their entries, of which those of the
    levels above 0 are one sorted list, and those of level 0 are newer the higher
    the number of the file. *)
Record level_ok (level : nat) (files : list FileMetaData) : Prop := {
  lo_files f : f ∈ files -> file_holds f;
  lo_num : Z.of_nat (length files) < 2 ^ 31;
  lo_names : NoDup (f_number <$> files);
  lo_sorted : level <> 0%nat -> sorted_parsed (concat (held <$> files));
  lo_newer f g : level = 0%nat -> f ∈ files -> g ∈ files -> f_number g < f_number f -> newer (held f) (held g)
}.

#[local] Instance newest_first_order : Transitive NewestFirst.
Proof. intros a b c. unfold NewestFirst. lia. Qed.
#[local] Instance newest_first_total : Total NewestFirst.
Proof. intros a b. unfold NewestFirst. lia. Qed.

Lemma files_search_ok level files : level_ok level files -> exists fs, files_to_search uc k ikey level files = Ok fs /\ fs ⊆ files /\
  (forall i j f g, fs !! i = Some f -> fs !! j = Some g -> (i < j)%nat -> newer (held f) (held g)) /\
  (forall o, newest k s (concat (held <$> fs)) o -> newest k s (concat (held <$> files)) o).
Proof.
  intros HL. unfold files_to_search. destruct files as [|f0 fs0] eqn:Ef; [exists []; split; [done|]; split; [set_solver|]; split; [by intros i j f g; rewrite lookup_nil|done]|]. rewrite <- Ef in *. clear Ef f0 fs0.
  destruct (Nat.eqb_spec level 0) as [E0|E0].
  - destruct (files_around_ok files (lo_files _ _ HL)) as (tmp & -> & Hsub & Hout). cbn [mbind res_bind]. pose proof (merge_sort_Permutation NewestFirst tmp) as HP.
    assert (tmp ⊆ files) as Htf by (intros f Hf; by eapply elem_of_sublist).
    eexists. split; [done|]. split; [intros f Hf; apply Htf; by rewrite <- HP|]. split.
    + intros i j f g Hf Hg Hij. assert (f_number g <= f_number f) as Hle by (apply (sorted_at NewestFirst _ i j f g (StronglySorted_merge_sort NewestFirst tmp) Hf Hg Hij)).
      assert (f ∈ merge_sort NewestFirst tmp /\ g ∈ merge_sort NewestFirst tmp) as [Hf' Hg'] by (split; by eapply list_elem_of_lookup_2). rewrite HP in Hf', Hg'.
      apply (lo_newer _ _ HL); [done|by apply Htf|by apply Htf|]. assert (f_number g <> f_number f); [|lia]. intros E.
      assert (NoDup (f_number <$> merge_sort NewestFirst tmp)) as HND by (rewrite HP; eapply sublist_NoDup; [apply (lo_names _ _ HL)|by apply fmap_sublist]).
      assert (i = j); [|lia]. apply (NoDup_lookup _ _ _ (f_number f) HND); [by rewrite list_lookup_fmap, Hf|by rewrite list_lookup_fmap, Hg, <- E].
    + intros o Ho. apply (newest_missing tmp); [done|done|]. eapply newest_perm; [|exact Ho]. by rewrite HP.
  - destruct (file_around_ok files (lo_files _ _ HL) (lo_num _ _ HL) (lo_sorted _ _ HL E0) k s Dk Gs) as (o & Eo & Ho). unfold ikey. rewrite Eo. cbn [mbind res_bind]. eexists. split; [done|]. destruct o as [f|]; cbn [option_list].
    + destruct Ho as [Hf Ho]. split; [set_solver|]. split; [intros [|i] [|j] g h; cbn; (done || lia)|]. intros o. cbn. rewrite app_nil_r. apply Ho.
    + split; [set_solver|]. split; [by intros [|i]|]. intros [x|]; [intros (Hx & _); by apply elem_of_nil in Hx|done].
Qed.

Lemma search_levels_ok levels : forall level stats last, (forall i files, levels !! i = Some files -> level_ok (level + i) files) ->
  (forall i j fi fj f g, levels !! i = Some fi -> levels !! j = Some fj -> (i < j)%nat -> f ∈ fi -> g ∈ fj -> newer (held f) (held g)) ->
  steps okw (search_levels uc k ikey level levels stats last) (fun r => exists o, newest k s (concat (held <$> concat levels)) o /\ fst r = default (NotFound [], None) (answer <$> o)).
Proof.
  induction levels as [|files levels IH]; intros level stats last HL Hnew; cbn [search_levels concat].
  { apply steps_ret. exists None. split; [|done]. intros y Hy. by apply elem_of_nil in Hy. }
  pose proof (HL 0%nat files eq_refl) as H0. rewrite Nat.add_0_r in H0. destruct (files_search_ok level files H0) as (fs & -> & Hsub & Hnf & Hlift). cbn [mbind res_bind].
  eapply steps_bind; [apply search_files_ok; [intros f Hf; apply (lo_files _ _ H0); by apply Hsub|exact Hnf]|].
  intros [[r st] la] (o & Ho & Er). cbn [fst snd] in Er. apply Hlift in Ho. rewrite Er, fmap_app, concat_app. destruct o as [x|]; cbn [fmap option_fmap option_map].
  - destruct (answer x) as [sx vx] eqn:Ea. apply steps_ret. exists (Some x). split; [|by cbn; rewrite Ea]. apply newest_app_l; [done|].
    intros y z (l & Hy & (f & -> & Hf)%list_elem_of_fmap)%elem_of_concat (l' & Hz & (g & -> & (fj & Hg & [j Hj]%list_elem_of_lookup)%elem_of_concat)%list_elem_of_fmap)%elem_of_concat.
    apply (Hnew 0%nat (S j) files fj f g); [done|done|lia|done|done|done|done].
  - eapply steps_mono; [apply (IH (S level))|].
    + intros i fi Hi. replace (S level + i)%nat with (level + S i)%nat by lia. by apply (HL (S i)).
    + intros i j fi fj f g Hi Hj Hij. apply (Hnew (S i) (S j) fi fj f g Hi Hj). lia.
    + intros r' (o & Ho' & Er'). exists o. split; [by apply newest_app_r|done].
Qed.
End Get.

Lemma lookup_parts k s : lk_user_key (lookup_key k s) = k /\ internal_key (lookup_key k s) = AppendInternalKey [] (PIK k s kValueTypeForSeek).
Proof.
  unfold internal_key, lk_user_key, lookup_key. cbn [lk_start lk_kstart]. rewrite drop_app_length. split; [|done].
  rewrite !length_app, encode64_le, length_le_split. replace (_ + (length k + 8) - _ - 8)%nat with (length k) by lia. by rewrite take_app_length.
Qed.

(** ** Versions *)
Record version_ok (v : Version) : Prop := {
  vo_levels : length (files_ v) = kNumLevels;
  vo_level level files : files_ v !! level = Some files -> level_ok level files;
  vo_newer i j fi fj f g : files_ v !! i = Some fi -> files_ v !! j = Some fj -> (i < j)%nat -> f ∈ fi -> g ∈ fj -> newer (held f) (held g)
}.

(** A lookup in a version answers for the newest entry of all files. *)
Lemma version_get_ok v k s : version_ok v -> dom uc k = true -> good_seq s ->
  steps okw (version_Get uc v (lookup_key k s)) (fun r => exists o, newest k s (concat (held <$> concat (files_ v))) o /\ fst r = default (NotFound [], None) (answer <$> o)).
Proof.
  intros HV Dk Gs. unfold version_Get. destruct (lookup_parts k s) as [-> ->].
  apply search_levels_ok; [done|done|by apply vo_level|by apply vo_newer].
Qed.
End Contents.
End Version.
