(* ===== verification/LvlListIter.v ===== *)
(** * Tables kept as lists

    The reference for what a table is to the code above it: an iterator over a
    sorted list, which is at a place in it, and lookups in the list. *)
From S2P Require Import Prelude Store LvlCoding LvlBase LvlFormat LvlBlock LvlBlockSpec LvlIterator LvlIteratorSpec LvlMerge LvlMergeSpec LvlDbIter LvlDbIterSpec LvlVersion LvlVersionSpec.

Record ListIter := MkListIter { li_entries : entries; li_place : nat }.

Section ListIter.
Context (c : comparator) (W : Type).

Definition list_move (it : ListIter) (p : nat) (w : W) : res (ListIter * W) := Ok (MkListIter (li_entries it) p, w).

Definition list_iterator : Iterator W ListIter := {|
  i_Valid it := bool_decide (li_place it < length (li_entries it))%nat;
  i_SeekToFirst it := list_move it 0;
  i_SeekToLast it := list_move it (length (li_entries it) - 1);
  i_Seek t it := list_move it (lower_bound c t (li_entries it));
  i_Next it := list_move it (S (li_place it));
  i_Prev it := list_move it (before (li_entries it) (li_place it));
  i_key it := default [] (fst <$> li_entries it !! li_place it);
  i_value it := of_option OobRead (snd <$> li_entries it !! li_place it);
  i_status it := status_OK |}.

Definition list_pos (es : entries) (p : nat) (it : ListIter) : Prop := it = MkListIter es p.

Lemma list_cursor okw es : is_cursor c okw (IT := list_iterator) (list_pos es) es.
Proof.
  split; cbn.
  - by intros p it ->.
  - intros p it x -> Hx. cbn. by rewrite Hx.
  - done.
  - intros p it -> w Hw. by eexists _, w.
  - intros p it -> w Hw. by eexists _, w.
  - intros p it t -> Ht w Hw. by eexists _, w.
  - intros p it -> Hp w Hw. by eexists _, w.
  - intros p it -> Hp w Hw. by eexists _, w.
Qed.
End ListIter.

(** ** Tables by the numbers of their files *)
Section ListTables.
Context (uc : comparator) {UL : CmpLaws uc} (W : Type) (tables : Z -> parsed_entries).
Abbreviation icmp := (internal_comparator uc).

Definition list_tables : TableCache W ListIter := {|
  tc_iterator := list_iterator icmp W;
  tc_NewIterator number size w := Ok (MkListIter (internal_entries (tables number)) 0, w);
  tc_Get number size key w := let es := internal_entries (tables number) in Ok (status_OK, es !! lower_bound icmp key es, w) |}.

(** The file of a sorted list that is not empty. *)
Definition list_file (number size : Z) : FileMetaData :=
  let bound o := default [] ((fun x => AppendInternalKey [] (fst x)) <$> o) in
  MkFile number size (bound (head (tables number))) (bound (last (tables number))).

Lemma list_file_holds okw number size : 0 <= number < 2 ^ 64 -> 0 <= size < 2 ^ 64 -> sorted_parsed uc (tables number) -> tables number <> [] ->
  file_holds uc okw (TC := list_tables) (fun f => tables (f_number f)) (list_file number size).
Proof.
  intros Hn Hz HS Hne. split; cbn; [done|..].
  - destruct (tables number) as [|x l]; [done|]. by exists x.
  - destruct (last (tables number)) as [x|] eqn:E; [by exists x|]. by apply last_None in E.
  - done.
  - exists (list_pos (internal_entries (tables number))). split; [apply list_cursor|]. apply steps_ret. by exists 0%nat.
  - intros k s Dk Gs. apply steps_ret. split; [done|]. split; [by intros x|]. intros k' v Hp _.
    assert (Hq : forall q, tables number !! q = Some (k', v) -> internal_entries (tables number) !! q = Some (AppendInternalKey [] k', v)).
    { intros q Hq. unfold internal_entries. by rewrite list_lookup_fmap, Hq. }
    exact (Hq _ Hp).
Qed.
End ListTables.
