(* ===== verification/LvlDbSpec.v ===== *)
(** * Reading a LevelDB database answers as one sorted map

    A database holds entries in its two memtables and in its files; newer entries
    of a user key are in front of older ones.  The iterator of the database is a
    cursor in the view a snapshot has of all these entries, and a lookup finds in
    the same view. *)
From Stdlib Require Import Sorting.Sorted.
From stdpp Require Import sorting.
From S2P Require Import Prelude Store LvlCoding LvlBase LvlFormat LvlBlock LvlBlockSpec LvlIterator LvlIteratorSpec LvlBatch LvlSkipList LvlSkipSpec LvlMemtable LvlMerge LvlMergeSpec LvlDbIter LvlDbIterSpec LvlMemIter LvlVersion LvlVersionSpec LvlListIter LvlDb.

(** ** Interleavings of sorted lists *)
Lemma sorted_from_at {A} (R : A -> A -> Prop) l : (forall i j x y, l !! i = Some x -> l !! j = Some y -> (i < j)%nat -> R x y) -> StronglySorted R l.
Proof.
  induction l as [|x l IH]; intros H; constructor.
  - apply IH. intros i j a b Ha Hb Hij. apply (H (S i) (S j)); [done|done|lia].
  - apply Forall_lookup. intros j y Hy. apply (H 0%nat (S j)); [done|done|lia].
Qed.

Section Interleave.
Context (uc : comparator) {UL : CmpLaws uc}.

Lemma key_before_irrefl a : good_seq (sequence a) -> dom uc (user_key a) = true -> ~ key_before uc a a.
Proof. intros _ Da [Hlt|[_ Hlt]]; [rewrite cmp_refl in Hlt by done; lia|lia]. Qed.

Lemma key_before_asym a b : good_seq (sequence a) -> good_seq (sequence b) -> dom uc (user_key a) = true -> dom uc (user_key b) = true -> key_before uc a b -> ~ key_before uc b a.
Proof.
  intros Ga Gb Da Db H1 H2. apply icmp_before in H1; [|done..]. apply icmp_before in H2; [|done..].
  pose proof (cmp_opp (c := internal_comparator uc) _ _ (internal_dom_key uc a Ga Da) (internal_dom_key uc b Gb Db)). lia.
Qed.

Lemma sp_mem l x : sorted_parsed uc l -> x ∈ l -> good_seq (sequence (fst x)) /\ dom uc (user_key (fst x)) = true.
Proof. intros [HF _] Hx. rewrite Forall_forall in HF. by apply HF. Qed.

Lemma sp_cons x l : sorted_parsed uc (x :: l) -> sorted_parsed uc l /\ forall y, y ∈ l -> key_before uc (fst x) (fst y).
Proof. intros HS. destruct (sp_app uc [x] l HS) as (_ & Hl & H). split; [done|]. intros y Hy. apply H; [set_solver|done]. Qed.

Lemma concat_insert_perm {A} (ls : list (list A)) c x r : ls !! c = Some (x :: r) -> concat ls ≡ₚ x :: concat (<[c := r]> ls).
Proof.
  intros Hc. assert (c < length ls)%nat as Hlt by (by eapply lookup_lt_Some). rewrite <- (take_drop_middle ls c _ Hc) at 1. rewrite insert_take_drop by done.
  rewrite !concat_app. cbn [concat]. rewrite <- !app_comm_cons. symmetry. apply Permutation_middle.
Qed.

(** The head of the merged list is the head of one of the parts. *)
Lemma head_of_part x l srcs : sorted_parsed uc (x :: l) -> x :: l ≡ₚ concat srcs -> (forall i src, srcs !! i = Some src -> sorted_parsed uc src) -> exists c r, srcs !! c = Some (x :: r).
Proof.
  intros HS HP Hsrcs. assert (x ∈ concat srcs) as (src & Hx & [c Hc]%list_elem_of_lookup)%elem_of_concat by (rewrite <- HP; set_solver). pose proof (Hsrcs c src Hc) as Hsrc.
  destruct src as [|h r]; [by apply elem_of_nil in Hx|]. exists c, r. rewrite Hc. apply elem_of_cons in Hx as [->|Hx]; [done|]. exfalso.
  destruct (sp_cons _ _ Hsrc) as [_ Hh]. specialize (Hh x Hx). assert (h ∈ x :: l) as [->|Hl]%elem_of_cons.
  { rewrite HP. apply elem_of_concat. exists (h :: r). split; [set_solver|by eapply list_elem_of_lookup_2]. }
  - destruct (sp_mem _ x HS ltac:(set_solver)). by apply (key_before_irrefl (fst x)).
  - destruct (sp_cons _ _ HS) as [_ Hxl]. specialize (Hxl h Hl). destruct (sp_mem _ x HS ltac:(set_solver)), (sp_mem _ h HS ltac:(set_solver)). by apply (key_before_asym (fst x) (fst h)).
Qed.

Lemma interleave all : sorted_parsed uc all -> forall srcs, all ≡ₚ concat srcs -> (forall i src, srcs !! i = Some src -> sorted_parsed uc src) ->
  exists tagged : tagged_entries, merged tagged = internal_entries all /\ (forall x, x ∈ tagged -> (fst x < length srcs)%nat) /\
    forall i src, srcs !! i = Some src -> part tagged i = internal_entries src.
Proof.
  induction all as [|x all IH]; intros HS srcs HP Hsrcs.
  - exists []. split; [done|]. split; [set_solver|]. intros i src Hi. assert (src = []) as ->; [|done]. destruct src as [|y src]; [done|]. exfalso.
    assert (y ∈ @nil (ParsedInternalKey * bytes)) as Hy; [|by apply elem_of_nil in Hy]. rewrite HP. apply elem_of_concat. exists (y :: src). split; [set_solver|by eapply list_elem_of_lookup_2].
  - destruct (head_of_part x all srcs HS HP Hsrcs) as (c & r & Hc). destruct (sp_cons _ _ HS) as [HS' _]. assert (c < length srcs)%nat as Hlt by (by eapply lookup_lt_Some).
    destruct (IH HS' (<[c := r]> srcs)) as (tagged & Hm & Ht & Hp).
    + rewrite (concat_insert_perm srcs c x r Hc) in HP. by apply Permutation_cons_inv in HP.
    + intros i src. destruct (decide (i = c)) as [->|Hne]; [rewrite list_lookup_insert_eq by done; intros [= <-]; by apply sp_cons with x, (Hsrcs c)|].
      rewrite list_lookup_insert_ne by done. apply Hsrcs.
    + exists ((c, (AppendInternalKey [] (fst x), snd x)) :: tagged). split; [by unfold merged in *; cbn; rewrite Hm|]. rewrite length_insert in Ht.
      split; [intros y [->|Hy]%elem_of_cons; [done|by apply Ht]|]. intros i src Hi. rewrite part_cons. case_decide as E.
      * subst i. rewrite Hc in Hi. injection Hi as <-. rewrite (Hp c r); [done|]. by apply list_lookup_insert_eq.
      * apply Hp. by rewrite list_lookup_insert_ne.
Qed.
End Interleave.

(** ** Merged cursors *)
Section Merged.
Context (uc : comparator) {UL : CmpLaws uc} {W I : Type} {IT : Iterator W I} (okw : W -> Prop).

(** An iterator that is somewhere in the entries. *)
Definition cursor_in (it : I) (src : parsed_entries) : Prop :=
  exists R p, is_cursor (internal_comparator uc) okw R (internal_entries src) /\ R p it.

Lemma cursors_in src : is_cursor (internal_comparator uc) okw (fun p it => exists R, is_cursor (internal_comparator uc) okw R (internal_entries src) /\ R p it) (internal_entries src).
Proof. apply cursor_union. intros p it (R & HR & Hp). exists R. split; [done|]. split; [done|]. intros q it' Hq. by exists R. Qed.

Lemma sorted_entries all : sorted_parsed uc all -> (forall x, x ∈ internal_entries all -> dom (internal_comparator uc) (fst x) = true) /\
  (forall i j x y, internal_entries all !! i = Some x -> internal_entries all !! j = Some y -> (i < j)%nat -> cmp (internal_comparator uc) (fst x) (fst y) < 0).
Proof.
  intros HS. split.
  - intros x (y & -> & Hy)%list_elem_of_fmap. destruct (sp_mem uc _ y HS Hy). by apply internal_dom_key.
  - intros i j x y. unfold internal_entries. rewrite !list_lookup_fmap. intros (a & Ha & ->)%fmap_Some (b & Hb & ->)%fmap_Some Hij. cbn [fst].
    destruct (sp_mem uc _ a HS ltac:(by eapply list_elem_of_lookup_2)), (sp_mem uc _ b HS ltac:(by eapply list_elem_of_lookup_2)). apply icmp_before; [done..|]. by apply (sp_sorted uc all i j).
Qed.

(** The iterator of several sources is a cursor in their interleaving. *)
Lemma merge_new its srcs all : Forall2 cursor_in its srcs -> its <> [] -> sorted_parsed uc all -> all ≡ₚ concat srcs -> (forall i src, srcs !! i = Some src -> sorted_parsed uc src) ->
  exists it, NewMergingIterator (W := W) its = Ok it /\ exists R p,
    is_cursor (internal_comparator uc) okw (IT := sum_iterator (Iterator1 := sum_iterator (Iterator1 := merging_iterator (internal_comparator uc)))) R (internal_entries all) /\ R p it.
Proof.
  intros HF Hne HS HP Hsrcs. destruct (interleave uc all HS srcs HP Hsrcs) as (tagged & Hm & Ht & Hp). destruct (sorted_entries all HS) as [Hdom Hsort]. rewrite <- Hm in Hdom, Hsort.
  set (R i p it := exists src, srcs !! i = Some src /\ exists R', is_cursor (internal_comparator uc) okw R' (internal_entries src) /\ R' p it).
  assert (Hcur : forall i, (i < length srcs)%nat -> is_cursor (internal_comparator uc) okw (R i) (part tagged i)).
  { intros i [src Hi]%lookup_lt_is_Some_2. rewrite (Hp i src Hi). apply cursor_union. intros p it (src' & Hi' & R' & HR & Hit). rewrite Hi in Hi'. injection Hi' as <-.
    exists R'. split; [done|]. split; [done|]. intros q it' Hq. exists src. split; [done|]. by exists R'. }
  assert (Hits : forall i it, its !! i = Some it -> exists p, R i p it).
  { intros i it Hi. destruct (Forall2_lookup_l _ _ _ _ _ HF Hi) as (src & Hsrc & R' & p & HR & Hit). exists p, src. split; [done|]. by exists R'. }
  pose proof (Forall2_length _ _ _ HF) as Hlen. rewrite <- Hm. unfold NewMergingIterator. destruct its as [|it [|it2 its]]; [done| |].
  - eexists. split; [done|]. destruct (Hits 0%nat it eq_refl) as [p Hit]. exists (in_sum (fun _ _ => False) (in_sum (R 0%nat) (fun _ _ => False))), p. split; [|done].
    apply sum_cursor; [apply no_cursor|]. apply sum_cursor; [|apply no_cursor]. replace (merged tagged) with (part tagged 0); [apply Hcur; rewrite <- Hlen; cbn; lia|].
    unfold part, merged. f_equal. apply list_filter_all. apply Forall_forall. intros x Hx%Ht. cbn in Hlen. lia.
  - destruct (merging_new tagged (length srcs) R (it :: it2 :: its) Hlen Hits) as (m & -> & Hpos). cbn [mbind res_bind]. eexists. split; [done|].
    eexists (in_sum (fun _ _ => False) (in_sum (fun _ _ => False) _)), _. split; [|exact Hpos]. apply sum_cursor; [apply no_cursor|]. apply sum_cursor; [apply no_cursor|]. exact (merging_cursor (internal_comparator uc) okw tagged (length srcs) R Hcur Ht Hdom Hsort).
Qed.
End Merged.

(** ** Looking up in a view *)
Section ViewGet.
Context (uc : comparator) {UL : CmpLaws uc} (k : bytes) (s : Z) (Dk : dom uc k = true).

#[local] Instance seen_by_dec x : Decision (seen_by k s x).
Proof. unfold seen_by. apply _. Defined.

Definition entry_value (x : ParsedInternalKey * bytes) : option bytes := match type (fst x) with kTypeValue => Some (snd x) | kTypeDeletion => None end.

Lemma view_from_get l : forall taken, (forall x, x ∈ l -> dom uc (user_key (fst x)) = true) ->
  s_get uc k (view_from s taken l) = if decide (k ∈ taken) then None else head (filter (seen_by k s) l) ≫= entry_value.
Proof.
  induction l as [|[k' v'] l IH]; intros taken Hd; [by case_decide|]. cbn [view_from].
  assert (dom uc (user_key k') = true) as D' by (apply (Hd (k', v')); set_solver). assert (Hd' : forall x, x ∈ l -> dom uc (user_key (fst x)) = true) by (intros x Hx; apply Hd; set_solver).
  destruct (decide (user_key k' = k)) as [Ek|Ek].
  - rewrite Ek. destruct (decide (sequence k' <= s)) as [Hs|Hs]; [destruct (decide (k ∈ taken)) as [Ht|Ht]|].
    + rewrite bool_decide_eq_false_2 by naive_solver. by rewrite IH, decide_True.
    + rewrite bool_decide_eq_true_2, filter_cons_True by done. unfold entry_value. cbn. destruct (type k'); cbn [s_get].
      * rewrite IH, decide_True by set_solver. done.
      * by rewrite cmp_refl.
    + rewrite bool_decide_eq_false_2 by naive_solver. rewrite IH by done. rewrite filter_cons_False; [done|]. by intros [_ H].
  - rewrite filter_cons_False by (intros [H _]; done). case_bool_decide as Hv; [|by rewrite IH]. destruct Hv as [Hs Ht].
    assert (forall A (x y : A), (if decide (k ∈ user_key k' :: taken) then x else y) = (if decide (k ∈ taken) then x else y)) as Ei.
    { intros A x y. repeat case_decide; try done; set_solver. }
    destruct (type k'); cbn [s_get]; rewrite ?IH, ?Ei by done; [done|]. destruct (Z.eqb_spec (cmp uc k (user_key k')) 0) as [E0|]; [|done]. apply cmp_eq in E0; [|done..]. by destruct Ek.
Qed.

Lemma newest_head l o : sorted_parsed uc l -> newest uc k s l o -> head (filter (seen_by k s) l) = o.
Proof.
  intros HS. destruct o as [x|].
  - intros (Hx & Hsx & Hn). apply list_elem_of_split in Hx as (l1 & l2 & ->). rewrite filter_app, filter_cons_True by done. rewrite list_filter_none; [done|].
    apply Forall_forall. intros y Hy Hsy. destruct (sp_app uc _ _ HS) as (_ & _ & Hb). specialize (Hb y x Hy ltac:(set_solver)).
    destruct (sp_mem uc _ x HS ltac:(set_solver)) as [Gx Dx], (sp_mem uc _ y HS ltac:(set_solver)) as [Gy Dy].
    destruct (Hn y ltac:(set_solver) Hsy) as [->|Hc]; [by apply (key_before_irrefl uc (fst x))|by apply (key_before_asym uc (fst x) (fst y))].
  - intros Hn. rewrite list_filter_none; [done|]. apply Forall_forall. exact Hn.
Qed.

(** A lookup in the view finds the newest entry, unless that is a deletion. *)
Lemma view_get l o : sorted_parsed uc l -> newest uc k s l o -> s_get uc k (view s l) = o ≫= entry_value.
Proof.
  intros HS Hn. unfold view. rewrite view_from_get, decide_False by (apply not_elem_of_nil || (intros x Hx; by destruct (sp_mem uc _ x HS Hx))).
  by rewrite (newest_head l o HS Hn).
Qed.
End ViewGet.

(** ** What a view has *)
Section ViewKeys.
Context (uc : comparator) {UL : CmpLaws uc} (s : Z).

Lemma view_from_key l y : forall taken, y ∈ view_from s taken l -> (fst y ∉ taken) /\ exists x, x ∈ l /\ user_key (fst x) = fst y.
Proof.
  induction l as [|[k v] l IH]; intros taken; cbn [view_from]; [by intros ?%elem_of_nil|].
  assert (Hk : forall taken', taken ⊆ taken' -> y ∈ view_from s taken' l -> (fst y ∉ taken) /\ exists x, x ∈ (k, v) :: l /\ user_key (fst x) = fst y).
  { intros taken' Hsub (Hn & x & Hx & E)%IH. split; [set_solver|]. exists x. set_solver. }
  case_bool_decide as Hv; [|by apply Hk]. destruct (type k); [apply Hk; set_solver|]. intros [->|Hy]%elem_of_cons; [|revert Hy; apply Hk; set_solver].
  split; [naive_solver|]. exists (k, v). set_solver.
Qed.

Lemma view_from_sorted l : forall taken, sorted_parsed uc l -> StronglySorted (fun a b => cmp uc (fst a) (fst b) < 0) (view_from s taken l).
Proof.
  induction l as [|[k v] l IH]; intros taken HS; cbn [view_from]; [constructor|]. destruct (sp_cons uc _ _ HS) as [HS' Hb].
  case_bool_decide; [|by apply IH]. destruct (type k); [by apply IH|]. constructor; [by apply IH|]. apply Forall_forall. intros y (Hn & x & Hx & E)%view_from_key.
  destruct (Hb x Hx) as [Hlt|[Heq _]]; cbn in *; [by rewrite <- E|]. exfalso. apply Hn. rewrite <- E, <- Heq. set_solver.
Qed.

Lemma view_dom l y : sorted_parsed uc l -> y ∈ view s l -> dom uc (fst y) = true.
Proof. intros HS (_ & x & Hx & <-)%view_from_key. by destruct (sp_mem uc _ x HS Hx). Qed.

(** In a sorted list what is found is what is there. *)
Lemma s_get_sorted l k v : StronglySorted (fun a b => cmp uc (fst a) (fst b) < 0) l -> (forall y, y ∈ l -> dom uc (fst y) = true) -> dom uc k = true ->
  s_get uc k l = Some v <-> (k, v) ∈ l.
Proof.
  induction l as [|[k' v'] l IH]; intros HS Hd Dk; cbn [s_get]; [split; [done|by intros ?%elem_of_nil]|]. apply StronglySorted_inv in HS as [HS HF].
  pose proof (Hd (k', v') ltac:(set_solver)) as D'. cbn in D'. destruct (Z.eqb_spec (cmp uc k k') 0) as [E|E].
  - apply cmp_eq in E as ->; [|done..]. split; [intros [= ->]; set_solver|]. intros [[= ->]|Hin]%elem_of_cons; [done|]. rewrite Forall_forall in HF. specialize (HF _ Hin). cbn in HF. rewrite cmp_refl in HF by done. lia.
  - rewrite IH by (done || (intros y Hy; apply Hd; set_solver)). split; [set_solver|]. intros [[= -> ->]|Hin]%elem_of_cons; [|done]. by rewrite cmp_refl in E.
Qed.
End ViewKeys.

(** The newest entry of all that was written. *)
Lemma newest_history uc {UL : CmpLaws uc} k s rs all o : dom uc k = true -> (as_entry <$> all) ≡ₚ numbered 1 rs -> newest uc k s all o ->
  foldl apply_record ∅ (take (Z.to_nat s) rs) !! k = entry_value <$> o.
Proof.
  intros Dk HP Hn. pose proof (lookup_numbered k s 1 rs ∅) as HL. replace (s - 1 + 1) with s in HL by lia. rewrite HL. clear HL.
  assert (Hin : forall x, x ∈ all <-> as_entry x ∈ numbered 1 rs).
  { intros x. rewrite <- HP, list_elem_of_fmap. split; [intros Hx; by exists x|]. intros ([ky vy] & E & Hy). destruct x as [kx vx]. unfold as_entry in E. cbn in E. by injection E as -> ->. }
  destruct o as [x|].
  - destruct Hn as (Hx & Hs & Hn). rewrite (newest_last k s 1 rs (as_entry x)); [done|]. split; [rewrite elem_of_reverse; by apply Hin|]. split; [done|].
    intros [ke ve] He Hse. rewrite elem_of_reverse in He. apply (Hin (ke, ve)) in He. destruct (Hn (ke, ve) He Hse) as [<-|Hb]; [done|]. destruct Hs as [Ex _], Hse as [Ey _]. cbn in *.
    destruct Hb as [Hlt|[_ [?|[? _]]]]; [|lia..]. cbn in Hlt. exfalso. rewrite Ex, Ey, cmp_refl in Hlt; [lia|done..].
  - rewrite list_filter_none; [done|]. apply Forall_forall. intros [ke ve] He. apply (Hn (ke, ve)). by apply (Hin (ke, ve)).
Qed.

(** ** Databases *)
Section Db.
Context (uc : comparator) {UL : CmpLaws uc}.
Abbreviation icmp := (internal_comparator uc).

(** Keys fit the 32-bit length in front of them. *)
Context (Hbound : forall k, dom uc k = true -> Z.of_nat (length k) + 8 < 2 ^ 32).

Lemma mem_list_sorted m raws l : mem_list uc m raws l -> sorted_parsed uc raws.
Proof.
  intros HM. split; [|apply sorted_from_at, (ml_sorted _ _ _ _ HM)]. eapply Forall_impl; [exact (ml_ok _ _ _ _ HM)|]. by intros x (? & ? & _).
Qed.

(** A lookup in a memtable answers for its newest entry. *)
Lemma mem_get m raws l k s st : mem_list uc m raws l -> dom uc k = true -> good_seq s ->
  exists o, newest uc k s raws o /\ mt_Get uc m (lookup_key k s) st = Some (Ok (get_answer (entry_value <$> o) st)).
Proof.
  intros HM Dk Gs. eexists. split; [exact (newest_sorted uc k s raws (mem_list_sorted _ _ _ HM) Dk Gs)|]. destruct (lookup_good uc k s (Hbound k Dk) Gs Dk) as [Hik Hg].
  destruct (search_at uc m raws l HM _ _ Hg Hik) as (prev & E). unfold mt_Get, iter_Seek, FindGreaterOrEqual. rewrite E. set (p := lower_bound _ _ _).
  destruct (raws !! p) as [x|] eqn:Hx.
  - destruct (ml_node uc m raws l HM p x Hx) as (a & -> & Hn). cbn [iter_Valid]. unfold iter_key. cbn. rewrite Hn. cbn [mbind res_bind].
    rewrite check_entry by (done || by eapply ml_entry || by apply lookup_parts). cbn [as_entry e_key]. by case_decide.
  - rewrite lookup_ge_None_2; [done|]. rewrite (ml_length uc m raws l HM). by apply lookup_ge_None.
Qed.

(** *** Sampling never fails *)
Lemma find_file_total fuel files key : (8 <= length key)%nat -> (forall f, f ∈ files -> dom icmp (f_largest f) = true) -> Z.of_nat (length files) < 2 ^ 31 ->
  forall left right, 0 <= left <= right -> right <= Z.of_nat (length files) -> right - left < Z.of_nat fuel ->
  exists r, find_file uc fuel files key left right = Ok r /\ 0 <= r <= Z.of_nat (length files).
Proof.
  intros Lk Hdom Hnum. induction fuel as [|fuel IH]; intros left right Hl Hr Hf; [lia|]. cbn [find_file]. destruct (Z.ltb_spec left right) as [Hlt|Hge]; [|exists right; split; [done|lia]].
  rewrite wrap_u_small by lia. assert (left <= (left + right) / 2 < right) as Hm by (split; [apply Z.div_le_lower_bound|apply Z.div_lt_upper_bound]; lia). set (mid := (left + right) / 2) in *.
  destruct (lookup_lt_is_Some_2 files (Z.to_nat mid)) as [f Hmid]; [lia|]. rewrite Hmid. cbn [of_option mbind res_bind].
  pose proof (Hdom f ltac:(by eapply list_elem_of_lookup_2)) as [Lf _]%internal_dom. rewrite (ikc_split uc _ _ Lf Lk). cbn [mbind res_bind]. case_match; apply IH; lia.
Qed.

Lemma extract_total k : dom icmp k = true -> exists u, ExtractUserKey k = Ok u.
Proof. intros [L _]%internal_dom. unfold ExtractUserKey. rewrite (proj2 (Nat.leb_le _ _)) by lia. by eexists. Qed.

Section Store.
Context {W T : Type} {TC : TableCache W T} {DS : DbStore W} (okw : W -> Prop) (held : FileMetaData -> parsed_entries).

(** The counts can be changed freely. *)
Class StoreLaws : Prop := { put_keeps d w : okw w -> okw (put_stats d w) }.
Context {SL : StoreLaws}.

Lemma bounds_dom f : file_holds uc okw held f -> dom icmp (f_smallest f) = true /\ dom icmp (f_largest f) = true.
Proof.
  intros HF. destruct (fh_first _ _ _ _ HF) as (x & Hx & ->), (fh_last _ _ _ _ HF) as (y & Hy & ->). pose proof (fh_sorted _ _ _ _ HF) as HS.
  destruct (sp_mem uc _ x HS) as [Gx Dx]; [rewrite head_lookup in Hx; by eapply list_elem_of_lookup_2|]. destruct (sp_mem uc _ y HS) as [Gy Dy]; [rewrite last_lookup in Hy; by eapply list_elem_of_lookup_2|].
  split; by apply internal_dom_key.
Qed.

Lemma around_total u files : (forall f, f ∈ files -> file_holds uc okw held f) -> exists fs, files_around uc u files = Ok fs.
Proof.
  induction files as [|f files IH]; intros HF; [by eexists|]. cbn [files_around]. destruct (bounds_dom f (HF f ltac:(set_solver))) as [[a ->]%extract_total [b ->]%extract_total].
  destruct IH as [fs ->]; [intros g Hg; apply HF; set_solver|]. by eexists.
Qed.

Lemma search_total u key level files : (8 <= length key)%nat -> level_ok uc okw held level files -> exists fs, files_to_search uc u key level files = Ok fs.
Proof.
  intros Lk HL. pose proof (lo_files _ _ _ _ _ HL) as HF. unfold files_to_search. destruct files as [|f0 fs0] eqn:Ef; [by eexists|]. rewrite <- Ef in *. clear Ef f0 fs0.
  case_match; [destruct (around_total u files HF) as [fs ->]; by eexists|]. unfold file_around, FindFile. pose proof (lo_num _ _ _ _ _ HL) as Hnum. rewrite wrap_u_small by lia.
  destruct (find_file_total (S (length files)) files key Lk) with (left := 0) (right := Z.of_nat (length files)) as (r & -> & Hr); [intros f Hf; by apply bounds_dom, HF|done|lia|lia|lia|].
  cbn [mbind res_bind]. destruct (Z.leb_spec (Z.of_nat (length files)) r); [by eexists|]. destruct (lookup_lt_is_Some_2 files (Z.to_nat r)) as [f Hf]; [lia|]. rewrite Hf. cbn [of_option mbind res_bind].
  destruct (bounds_dom f) as [[a ->]%extract_total _]; [apply HF; by eapply list_elem_of_lookup_2|]. by eexists.
Qed.

Lemma levels_total {A} (func : nat -> FileMetaData -> A -> bool * A) u key levels : (8 <= length key)%nat ->
  forall level arg, (forall i files, levels !! i = Some files -> level_ok uc okw held (level + i) files) -> exists a, for_levels uc func u key level levels arg = Ok a.
Proof.
  intros Lk. induction levels as [|files levels IH]; intros level arg HL; [by eexists|]. cbn [for_levels].
  destruct (search_total u key level files Lk) as [fs ->]; [rewrite <- (Nat.add_0_r level); by apply HL|]. cbn [mbind res_bind]. destruct (for_files func level fs arg) as [go arg']. destruct go; [|by eexists].
  apply IH. intros i fi Hi. replace (S level + i)%nat with (level + S i)%nat by lia. by apply (HL (S i)).
Qed.

Lemma sample_total v key st : version_ok uc okw held v -> exists r, version_RecordReadSample uc v key st = Ok r.
Proof.
  intros HV. unfold version_RecordReadSample, ParseInternalKey. destruct (Nat.ltb_spec (length key) 8) as [|L]; [by eexists|]. rewrite tag_of_split by done. cbn [mbind res_bind].
  assert (Hk : forall k, exists r, ('(stats, matches) ← ForEachOverlapping uc v (user_key k) key Match (None, 0); Ok (if 2 <=? matches then UpdateStats stats st else (false, st))) = Ok r).
  { intros k. unfold ForEachOverlapping. destruct (levels_total Match (user_key k) key (files_ v) L 0%nat (None, 0)) as [[a b] ->]; [by apply vo_level|]. by eexists. }
  repeat case_match; cbn [mbind res_bind]; [apply Hk|apply Hk|by eexists].
Qed.

#[local] Instance db_sampler_laws v (HV : version_ok uc okw held v) : SamplerLaws (SW := db_sampler uc v) okw.
Proof.
  intros k w Hw. unfold RecordReadSample, db_sampler. destruct (sample_total v k (ds_stats (get_stats w)) HV) as [r ->]. eexists. split; [done|]. by apply put_keeps.
Qed.

(** *** The entries of a database

    [M] and [IM] are the entries of the memtables, [all] those of the memtables and
    of all files in the order of internal keys.  Entries in front are newer. *)
Record db_ok (db : DBImpl) (M IM all : parsed_entries) : Prop := {
  do_mem : exists l, mem_list uc (mem_ db) M l;
  do_imm : match imm_ db with Some imm => exists l, mem_list uc imm IM l | None => IM = [] end;
  do_version : version_ok uc okw held (current_ db);
  do_mem_newer : newer M (IM ++ concat (held <$> concat (files_ (current_ db))));
  do_imm_newer : newer IM (concat (held <$> concat (files_ (current_ db))));
  do_sorted : sorted_parsed uc all;
  do_all : all ≡ₚ M ++ IM ++ concat (held <$> concat (files_ (current_ db)));
  do_last : good_seq (LastSequence db)
}.

Definition found (o : option bytes) : Status * option bytes := match o with Some v => (status_OK, Some v) | None => (NotFound [], None) end.

Lemma found_answer o : default (NotFound [], None) (answer <$> o) = found (o ≫= entry_value).
Proof. destruct o as [[k v]|]; [|done]. cbn. unfold answer, entry_value. cbn. by destruct (type k). Qed.

Lemma db_get_newest db M IM all snapshot k : db_ok db M IM all -> dom uc k = true -> good_seq (default (LastSequence db) snapshot) ->
  steps okw (db_Get uc snapshot k db) (fun r => exists o, newest uc k (default (LastSequence db) snapshot) all o /\ r = found (o ≫= entry_value)).
Proof.
  intros HD Dk Gs. set (s := default _ _) in *. unfold db_Get. fold s. destruct (do_mem _ _ _ _ HD) as [l HM].
  destruct (mem_get _ _ _ k s status_OK HM Dk Gs) as (o & Ho & ->). cbn [of_rounds mbind res_bind].
  assert (Hall : forall o', newest uc k s (M ++ IM ++ concat (held <$> concat (files_ (current_ db)))) o' -> newest uc k s all o').
  { intros o'. apply newest_perm. by rewrite (do_all _ _ _ _ HD). }
  destruct o as [x|]; [|cbn [fmap option_fmap option_map get_answer]].
  { intros w Hw. exists (found (entry_value x)), w. split; [unfold get_answer; cbn; by destruct (entry_value x)|]. split; [done|]. exists (Some x). split; [|done].
    apply Hall, newest_app_l; [exact (do_mem_newer _ _ _ _ HD) || done..]. }
  assert (exists o2, newest uc k s IM o2 /\ (match imm_ db with Some imm => of_rounds (mt_Get uc imm (lookup_key k s) status_OK) | None => Ok (false, None, status_OK) end) = Ok (get_answer (entry_value <$> o2) status_OK)) as (o2 & Ho2 & E2).
  { pose proof (do_imm _ _ _ _ HD) as HI. destruct (imm_ db) as [imm|]; [|exists None; split; [rewrite HI; intros y Hy; by apply elem_of_nil in Hy|done]].
    destruct HI as [li HI]. destruct (mem_get _ _ _ k s status_OK HI Dk Gs) as (o2 & Ho2 & ->). by exists o2. }
  intros w Hw. rewrite E2. cbn [mbind res_bind]. destruct o2 as [x|]; [|cbn [fmap option_fmap option_map get_answer]].
  { exists (found (entry_value x)), w. split; [unfold get_answer; cbn; by destruct (entry_value x)|]. split; [done|]. exists (Some x). split; [|done].
    apply Hall, newest_app_r; [done..|]. apply newest_app_l; [exact (do_imm_newer _ _ _ _ HD) || done..]. }
  destruct (version_get_ok uc okw held (current_ db) k s (do_version _ _ _ _ HD) Dk Gs w Hw) as ([[st v] stats] & w' & -> & Hw' & o & Ho3 & Er). cbn [mbind res_bind fst] in *.
  eexists (st, v), _. split; [done|]. split; [by apply put_keeps|]. exists o. split; [by apply Hall, newest_app_r, newest_app_r|]. by rewrite Er, found_answer.
Qed.

(** *** The children of the iterator *)
Section Children.
Context (v : Version) (HV : version_ok uc okw held v).
Abbreviation child_in := (cursor_in uc okw (IT := child_iter uc v)).

Lemma mem_child m raws l : mem_list uc m raws l -> child_in (inl (mt_NewIterator m)) raws.
Proof.
  intros HM. exists (in_sum (mem_pos m l) (fun _ _ => False)), (length (internal_entries raws)). split; [|exact (mem_new uc m raws l HM)].
  apply sum_cursor; [exact (mem_cursor uc okw Hbound m raws l HM)|apply no_cursor].
Qed.

Lemma table_child f : file_holds uc okw held f -> steps okw (tc_NewIterator (f_number f) (f_file_size f)) (fun it => child_in (inr (inl it)) (held f)).
Proof.
  intros HF. destruct (fh_iter _ _ _ _ HF) as (R & HR & Hnew). eapply steps_mono; [exact Hnew|]. intros it [p Hp].
  exists (in_sum (fun _ _ => False) (in_sum R (fun _ _ => False))), p. split; [|done]. apply sum_cursor; [apply no_cursor|]. apply sum_cursor; [done|apply no_cursor].
Qed.

Lemma level_child level files : files_ v !! level = Some files -> level <> 0%nat ->
  exists it, NewConcatenatingIterator uc (W := W) v level = Ok it /\ child_in (inr (inr it)) (concat (held <$> files)).
Proof.
  intros Hl H0. pose proof (vo_level _ _ _ _ HV _ _ Hl) as HL. assert (length files < level_rounds v)%nat as Hr.
  { unfold level_rounds. apply Nat.lt_succ_r, max_list_elem_of_le, list_elem_of_fmap. exists files. split; [done|]. by eapply list_elem_of_lookup_2. }
  destruct (concat_cursor uc okw held files (lo_files _ _ _ _ _ HL) (lo_num _ _ _ _ _ HL) (lo_names _ _ _ _ _ HL) (lo_sorted _ _ _ _ _ HL H0) _ Hr) as (R & HR & it & E & Hit).
  exists it. split; [unfold NewConcatenatingIterator, level_files; by rewrite Hl|]. eexists (in_sum (fun _ _ => False) (in_sum (fun _ _ => False) R)), _. split; [|exact Hit].
  apply sum_cursor; [apply no_cursor|]. apply sum_cursor; [apply no_cursor|done].
Qed.

Lemma level0_children files : (forall f, f ∈ files -> file_holds uc okw held f) -> steps okw (level0_iterators files) (fun its => Forall2 child_in (inr <$> its) (held <$> files)).
Proof.
  induction files as [|f files IH]; intros HF; cbn [level0_iterators]; [by apply steps_ret|]. eapply steps_bind; [apply table_child, HF; set_solver|]. intros it Hit.
  eapply steps_bind; [apply IH; intros g Hg; apply HF; set_solver|]. intros its Hits. apply steps_ret. by constructor.
Qed.

Lemma level_children levels fss : Forall2 (fun level files => files_ v !! level = Some files /\ level <> 0%nat) levels fss ->
  exists its srcs, level_iterators uc (W := W) v levels = Ok its /\ Forall2 child_in (inr <$> its) srcs /\ concat srcs = concat (held <$> concat fss) /\ Forall (sorted_parsed uc) srcs.
Proof.
  induction 1 as [|level files levels fss [Hl H0] _ (its & srcs & E & HF & Hc & HS)]; [by exists [], []|]. cbn [level_iterators concat]. unfold level_files at 1. rewrite Hl, E. cbn [of_option mbind res_bind].
  destruct files as [|f files]; [by exists its, srcs|]. destruct (level_child level _ Hl H0) as (it & -> & Hit). cbn [mbind res_bind].
  exists (inr it :: its), (concat (held <$> f :: files) :: srcs). split; [done|]. split; [by constructor|]. split; [by rewrite fmap_app, concat_app, <- Hc|]. constructor; [|done].
  exact (lo_sorted _ _ _ _ _ (vo_level _ _ _ _ HV _ _ Hl) H0).
Qed.

Lemma add_children : steps okw (AddIterators uc v) (fun its => exists srcs, Forall2 child_in (inr <$> its) srcs /\ concat srcs = concat (held <$> concat (files_ v)) /\ Forall (sorted_parsed uc) srcs).
Proof.
  pose proof (vo_levels _ _ _ _ HV) as Hlen. destruct (files_ v) as [|f0 fss] eqn:Ev; [done|]. unfold AddIterators, level_files. rewrite Ev. cbn [lookup list_lookup of_option mbind res_bind].
  assert (HF : forall f, f ∈ f0 -> file_holds uc okw held f) by (apply (lo_files _ _ _ 0), (vo_level _ _ _ _ HV); by rewrite Ev).
  assert (Forall2 (fun level files => files_ v !! level = Some files /\ level <> 0%nat) (seq 1 (kNumLevels - 1)) fss) as Hfss.
  { rewrite Ev. apply Forall2_same_length_lookup_2; [rewrite length_seq; unfold kNumLevels in *; cbn in Hlen; lia|]. intros i level files [-> _]%lookup_seq Hf. split; [done|lia]. }
  destruct (level_children _ _ Hfss) as (its & srcs & E & Hits & Hc & HS). eapply steps_bind; [by apply level0_children|]. intros its0 H0. rewrite E. cbn [mbind res_bind]. apply steps_ret.
  exists ((held <$> f0) ++ srcs). split; [rewrite fmap_app; by apply Forall2_app|]. split; [cbn; by rewrite concat_app, Hc, fmap_app, concat_app|]. apply Forall_app. split; [|done].
  apply Forall_fmap, Forall_forall. intros f Hf. exact (fh_sorted _ _ _ _ (HF f Hf)).
Qed.
End Children.

(** *** The iterators *)
Lemma internal_new db M IM all : db_ok db M IM all -> steps okw (NewInternalIterator uc db)
  (fun r => snd (fst (fst r)) = LastSequence db /\ cursor_in uc okw (IT := internal_iter uc (current_ db)) (fst (fst (fst r))) all).
Proof.
  intros HD. pose proof (do_version _ _ _ _ HD) as HV. unfold NewInternalIterator. eapply steps_bind; [by apply add_children|]. intros its (srcs & Hits & Hc & HS).
  destruct (do_mem _ _ _ _ HD) as [l HM]. pose proof (mem_child (current_ db) _ _ _ HM) as Hmem.
  assert (exists isrcs, Forall2 (cursor_in uc okw (IT := child_iter uc (current_ db))) (match imm_ db with Some imm => [inl (mt_NewIterator imm)] | None => [] end) isrcs /\ concat isrcs = IM /\ Forall (sorted_parsed uc) isrcs) as (isrcs & Himm & Hic & HIS).
  { pose proof (do_imm _ _ _ _ HD) as HI. destruct (imm_ db) as [imm|]; [|by exists []]. destruct HI as [li HI]. exists [IM]. split; [constructor; [exact (mem_child (current_ db) _ _ _ HI)|constructor]|].
    split; [by cbn; rewrite app_nil_r|]. constructor; [by eapply mem_list_sorted|constructor]. }
  assert (Forall (sorted_parsed uc) (M :: isrcs ++ srcs)) as HFS by (constructor; [by eapply mem_list_sorted|by apply Forall_app]).
  destruct (merge_new uc okw (IT := child_iter uc (current_ db)) _ (M :: isrcs ++ srcs) all (proj2 (Forall2_cons _ _ _ _ _) (conj Hmem (Forall2_app Himm Hits)))) as (it & E & R & p & HR & Hit); [done|exact (do_sorted _ _ _ _ HD)| | |].
  - cbn [concat]. rewrite concat_app, Hic, Hc. exact (do_all _ _ _ _ HD).
  - intros i src. rewrite Forall_lookup in HFS. apply HFS.
  - intros w Hw. rewrite E. cbn [mbind res_bind]. eexists _, w. split; [done|]. split; [done|]. split; [done|]. by exists R, p.
Qed.

(** The iterator of a database is a cursor in the view of its snapshot. *)
Lemma db_iterator_cursor db M IM all snapshot rounds : db_ok db M IM all -> good_seq (default (LastSequence db) snapshot) -> (length all < rounds)%nat ->
  steps okw (db_NewIterator uc snapshot db) (fun r => exists R, is_cursor uc okw (IT := user_iterator uc (current_ db) rounds) R (view (default (LastSequence db) snapshot) all) /\
    R (length (view (default (LastSequence db) snapshot) all)) (fst r)).
Proof.
  intros HD Gs Hr. unfold db_NewIterator. eapply steps_bind; [exact (internal_new db M IM all HD)|]. intros [[[it latest] seed] db'] [El (R & p & HR & Hit)]. cbn [fst snd] in *. apply steps_ret. rewrite El. cbn [fst].
  pose proof (do_sorted _ _ _ _ HD) as HS. eexists. split; [|].
  - refine (db_cursor uc okw (SW := db_sampler uc (current_ db)) (SL := db_sampler_laws _ (do_version _ _ _ _ HD)) _ all R rounds Gs (fun i k v => sp_good uc all i k v HS) (fun i j x y => sp_sorted uc all i j x y HS) HR Hr).
  - by eapply db_iter_new.
Qed.

(** ** What reading shows *)

(** C24. The iterator of a database - over both memtables, every file of level 0 and
    one concatenation per other level, merged, with deletions and overwritten
    values skipped - is an iterator over one sorted list: any sequence of seeks and
    steps in both directions shows what a cursor in the view of its snapshot shows,
    with an OK status, however the entries are spread over memtables and files. *)
Theorem db_iterator_refines db M IM all snapshot rounds ops w :
  db_ok db M IM all -> good_seq (default (LastSequence db) snapshot) -> (length all < rounds)%nat -> okw w ->
  let es := view (default (LastSequence db) snapshot) all in
  bops_ok uc es ops (length es) -> exists it db' w1 it' w2,
    db_NewIterator uc snapshot db w = Ok (it, db', w1) /\
    run_iops (IT := user_iterator uc (current_ db) rounds) ops it w1 = Ok (spec_bops uc es ops (length es), it', w2) /\
    i_status (Iterator := user_iterator uc (current_ db) rounds) it' = status_OK.
Proof.
  intros HD Gs Hr Hw es Hops. destruct (db_iterator_cursor db M IM all snapshot rounds HD Gs Hr w Hw) as ([it db'] & w1 & -> & Hw1 & R & HC & HR).
  destruct (cursor_run uc okw R _ HC ops _ it w1 HR Hw1 Hops) as (it' & w2 & E & _ & Hst). by exists it, db', w1, it', w2.
Qed.

(** C25. [DBImpl::Get] finds a key where an iterator of the same snapshot shows it: the
    value in the view, or NotFound, whichever memtable or file holds the newest
    entry of the key. *)
Theorem db_get_refines db M IM all snapshot k w :
  db_ok db M IM all -> good_seq (default (LastSequence db) snapshot) -> dom uc k = true -> okw w ->
  exists w', db_Get uc snapshot k db w = Ok (found (s_get uc k (view (default (LastSequence db) snapshot) all)), w').
Proof.
  intros HD Gs Dk Hw. destruct (db_get_newest db M IM all snapshot k HD Dk Gs w Hw) as (r & w' & E & _ & o & Ho & ->). exists w'. rewrite E.
  by rewrite (view_get uc k _ Dk all o (do_sorted _ _ _ _ HD) Ho).
Qed.

(** C26. A database is a map with a history: when its entries are the records [rs] that
    were written, numbered from 1, a lookup at a snapshot answers as the map to
    which the first [snapshot] records were applied, and the list that iterators at
    that snapshot show has exactly the keys and values of that map, ascending. *)
Theorem db_history db M IM all s rs w :
  db_ok db M IM all -> (as_entry <$> all) ≡ₚ numbered 1 rs -> good_seq s -> okw w ->
  let map := foldl apply_record ∅ (take (Z.to_nat s) rs) in
  (forall k, dom uc k = true -> exists w', db_Get uc (Some s) k db w = Ok (found (mjoin (map !! k)), w')) /\
  StronglySorted (fun a b => cmp uc (fst a) (fst b) < 0) (view s all) /\
  forall k v, dom uc k = true -> (k, v) ∈ view s all <-> map !! k = Some (Some v).
Proof.
  intros HD HP Gs Hw map. pose proof (do_sorted _ _ _ _ HD) as HS.
  assert (Hmap : forall k, dom uc k = true -> s_get uc k (view s all) = mjoin (map !! k)).
  { intros k Dk. assert (exists o, newest uc k s all o) as [o Hn] by (eexists; exact (newest_sorted uc k s all HS Dk Gs)). rewrite (view_get uc k s Dk all _ HS Hn). unfold map. rewrite (newest_history uc k s rs all _ Dk HP Hn). by destruct o. }
  pose proof (view_from_sorted uc s all [] HS) as Hv. split; [|split; [done|]].
  - intros k Dk. destruct (db_get_newest db M IM all (Some s) k HD Dk Gs w Hw) as (r & w' & E & _ & o & Ho & ->). exists w'. rewrite E, <- (Hmap k Dk). cbn [default] in Ho.
    by rewrite (view_get uc k s Dk all o HS Ho).
  - intros k v Dk. rewrite <- (s_get_sorted uc _ k v Hv (fun y => view_dom uc s all y HS) Dk), Hmap by done. destruct (map !! k) as [[?|]|]; cbn; naive_solver.
Qed.
End Store.
End Db.

(** ** A small database

    Six records: two in a file of level 1, two in files of level 0, one in each
    memtable. *)
Definition short_lexical : comparator := Cmp lex_cmp (fun k => (length k <? 100)%nat).

#[export] Instance short_laws : CmpLaws short_lexical.
Proof. split; intros; [apply (cmp_eq (c := lexical))|apply (cmp_opp (c := lexical))|eapply (cmp_trans (c := lexical))]; done. Qed.

Lemma short_bound k : dom short_lexical k = true -> Z.of_nat (length k) + 8 < 2 ^ 32.
Proof. cbn [dom short_lexical]. intros ?%Nat.ltb_lt. lia. Qed.

Definition demo_records : list record :=
  [RPut (lit "a") (lit "1"); RPut (lit "b") (lit "2"); RDelete (lit "a"); RPut (lit "c") (lit "3"); RPut (lit "b") (lit "4"); RPut (lit "a") (lit "5")].

Definition demo_mem : parsed_entries := [(PIK (lit "a") 6 kTypeValue, lit "5")].
Definition demo_imm : parsed_entries := [(PIK (lit "b") 5 kTypeValue, lit "4")].
Definition demo_tables (number : Z) : parsed_entries :=
  if number =? 1 then [(PIK (lit "a") 1 kTypeValue, lit "1"); (PIK (lit "b") 2 kTypeValue, lit "2")]
  else if number =? 2 then [(PIK (lit "a") 3 kTypeDeletion, [])]
  else [(PIK (lit "c") 4 kTypeValue, lit "3")].
Definition demo_all : parsed_entries :=
  [(PIK (lit "a") 6 kTypeValue, lit "5"); (PIK (lit "a") 3 kTypeDeletion, []); (PIK (lit "a") 1 kTypeValue, lit "1");
   (PIK (lit "b") 5 kTypeValue, lit "4"); (PIK (lit "b") 2 kTypeValue, lit "2"); (PIK (lit "c") 4 kTypeValue, lit "3")].

Definition demo_version : Version := MkVersion [[list_file demo_tables 2 100; list_file demo_tables 3 100]; [list_file demo_tables 1 100]; []; []; []; []; []].

(** A memtable with one entry. *)
Definition mem_of (x : ParsedInternalKey * bytes) : memtable :=
  match mt_Add short_lexical memtable_new (sequence (fst x)) (type (fst x)) (user_key (fst x)) (snd x) with Some (Ok m) => m | _ => memtable_new end.

Definition demo_db : DBImpl := MkDb (mem_of (PIK (lit "a") 6 kTypeValue, lit "5")) (Some (mem_of (PIK (lit "b") 5 kTypeValue, lit "4"))) demo_version 6 0.

#[local] Instance demo_store : DbStore DbStats := {| get_stats d := d; put_stats d _ := d |}.
#[local] Instance demo_cache : TableCache DbStats ListIter := list_tables short_lexical DbStats demo_tables.
#[local] Instance demo_laws : StoreLaws (fun _ : DbStats => True).
Proof. by split. Qed.

Lemma mem_of_list x : entry_ok short_lexical (as_entry x) -> exists l, mem_list short_lexical (mem_of x) [x] l.
Proof.
  intros He. destruct x as [[k s t] v]. destruct (add_holds short_lexical memtable_new [] k s t v (new_holds _) He (not_elem_of_nil _)) as (m & E & Hm).
  unfold mem_of. cbn [fst snd sequence type user_key]. rewrite E. destruct (mem_holds_list short_lexical m _ Hm) as (raws & l & HM & HP); [apply NoDup_singleton|].
  apply Permutation_singleton_r in HP. destruct raws as [|[kr vr] [|]]; [done| |done]. unfold as_entry in HP. cbn in HP. injection HP as -> ->. by exists l.
Qed.

(** [newer], decided. *)
Definition newer_check (l1 l2 : parsed_entries) : bool :=
  forallb (fun x => forallb (fun y => negb (bool_decide (user_key (fst x) = user_key (fst y))) || (sequence (fst y) <? sequence (fst x))) l2) l1.

Lemma newer_check_ok l1 l2 : newer_check l1 l2 = true -> newer l1 l2.
Proof.
  unfold newer_check. intros H%Is_true_eq_left. rewrite forallb_True, Forall_forall in H. intros x y Hx%H Hy. apply forallb_True in Hx. rewrite Forall_forall in Hx. specialize (Hx y Hy).
  intros E. rewrite bool_decide_eq_true_2 in Hx by done. cbn in Hx. apply Is_true_eq_true, Z.ltb_lt in Hx. done.
Qed.

(** One case for every member of a list. *)
Ltac each_in H := repeat (apply elem_of_cons in H as [->|H]); [..|by apply elem_of_nil in H].

Lemma demo_sorted number : sorted_parsed short_lexical (demo_tables number).
Proof.
  unfold demo_tables. repeat case_match; (split; [by repeat constructor|]); by repeat constructor.
Qed.

Lemma demo_file number : 0 <= number < 2 ^ 64 -> file_holds short_lexical (fun _ => True) (fun f => demo_tables (f_number f)) (list_file demo_tables number 100).
Proof. intros Hn. apply list_file_holds; [done|lia|apply demo_sorted|]. unfold demo_tables. by repeat case_match. Qed.

Lemma demo_version_ok : version_ok short_lexical (fun _ => True) (fun f => demo_tables (f_number f)) demo_version.
Proof.
  split; [done|..].
  - intros level files Hl.
    assert (Hf : forall f, f ∈ files -> file_holds short_lexical (fun _ => True) (fun f => demo_tables (f_number f)) f).
    { intros f Hf. assert (f ∈ concat (files_ demo_version)) as Hc by (apply elem_of_concat; exists files; split; [done|by eapply list_elem_of_lookup_2]). cbn [concat files_ demo_version app] in Hc.
      each_in Hc; by apply demo_file. }
    destruct level as [|[|[|[|[|[|[|level]]]]]]]; [injection Hl as <-..|by destruct level]; (split; [exact Hf|done| | |]).
    all: try (repeat constructor; set_solver). all: try done.
    + intros f g _ Hx Hy Hlt. each_in Hx; each_in Hy; cbn in Hlt; try lia. apply newer_check_ok. by vm_compute.
    + intros _. cbn. apply (demo_sorted 1).
  - intros i j fi fj f g Hi Hj Hij Hf Hg.
    assert (Hnil : forall n fs h, files_ demo_version !! S (S n) = Some fs -> h ∈ fs -> False).
    { intros n fs h Hn Hh. assert (fs = []) as ->; [|by apply elem_of_nil in Hh]. destruct n as [|[|[|[|[|n]]]]]; (by injection Hn as <-) || by destruct n. }
    destruct j as [|[|j]]; [lia| |by destruct (Hnil j fj g)]. destruct i as [|i]; [|lia]. injection Hi as <-. injection Hj as <-.
    each_in Hf; each_in Hg; apply newer_check_ok; vm_compute; done.
Qed.

Lemma demo_ok : db_ok short_lexical (fun _ => True) (fun f => demo_tables (f_number f)) demo_db demo_mem demo_imm demo_all.
Proof.
  split.
  - apply mem_of_list. by repeat split.
  - apply mem_of_list. by repeat split.
  - exact demo_version_ok.
  - apply newer_check_ok. by vm_compute.
  - apply newer_check_ok. by vm_compute.
  - split; [by repeat constructor|]. repeat match goal with |- StronglySorted _ _ => constructor | |- Forall _ _ => constructor end; first [by left|right; split; [done|left; cbn; lia]].
  - apply NoDup_Permutation; [apply (NoDup_fmap_1 (fun x : ParsedInternalKey * bytes => sequence (fst x))), (bool_decide_unpack _); by vm_compute..|]. intros x. cbn. unfold demo_all. rewrite !elem_of_cons. tauto.
  - done.
Qed.

Lemma db_iterator_refines_witness : exists it db' w1 it' w2,
  db_NewIterator short_lexical (W := DbStats) (Some 5) demo_db (MkDbStats (MkStats ∅ None) false false status_OK false) = Ok (it, db', w1) /\
  run_iops (IT := user_iterator short_lexical demo_version 7) [BSeek (lit "a"); BNext; BNext; BFirst; BLast; BPrev] it w1 =
    Ok ([Some (lit "b", lit "4"); Some (lit "c", lit "3"); None; Some (lit "b", lit "4"); Some (lit "c", lit "3"); Some (lit "b", lit "4")], it', w2) /\
  i_status (Iterator := user_iterator short_lexical (W := DbStats) demo_version 7) it' = status_OK.
Proof.
  apply (db_iterator_refines short_lexical short_bound (fun _ => True) (fun f => demo_tables (f_number f)) demo_db demo_mem demo_imm demo_all (Some 5) 7
    [BSeek (lit "a"); BNext; BNext; BFirst; BLast; BPrev]); [exact demo_ok|done|cbn; lia|done|]. vm_compute. repeat split; lia.
Defined.

Lemma db_get_refines_witness : exists w',
  db_Get short_lexical (W := DbStats) None (lit "a") demo_db (MkDbStats (MkStats ∅ None) false false status_OK false) = Ok (status_OK, Some (lit "5"), w').
Proof.
  apply (db_get_refines short_lexical short_bound (fun _ => True) (fun f => demo_tables (f_number f)) demo_db demo_mem demo_imm demo_all None (lit "a")); [exact demo_ok|done..].
Defined.

Lemma db_history_witness :
  (exists w', db_Get short_lexical (W := DbStats) (Some 3) (lit "a") demo_db (MkDbStats (MkStats ∅ None) false false status_OK false) = Ok (NotFound [], None, w')) /\
  view 3 demo_all = [(lit "b", lit "2")].
Proof.
  split; [|done]. apply (db_history short_lexical short_bound (fun _ => True) (fun f => demo_tables (f_number f)) demo_db demo_mem demo_imm demo_all 3 demo_records); [exact demo_ok| |done..].
  apply NoDup_Permutation; [apply (NoDup_fmap_1 (fun e => sequence (e_key e))), (bool_decide_unpack _); by vm_compute..|]. intros x. cbn. rewrite !elem_of_cons. tauto.
Defined.
