(* ===== verification/LvlWrite.v ===== *)
(** * Writing to a LevelDB database

    [Write], [BuildBatchGroup], [MakeRoomForWrite], [RecordBackgroundError], [Put] and
    [Delete] of src/3rd-party/leveldb/leveldb-1.18/db/db_impl.cc.  The writers wait in
    a queue; the one at its front makes room, joins batches of those behind it to
    its own, writes them to the log as one record and to the memtable, and answers
    for all of them. *)
From S2P Require Import Prelude Store LvlCoding LvlBase LvlFormat LvlBatch LvlSkipList LvlMemtable LvlLog LvlBlock LvlIterator LvlMerge LvlDbIter LvlMemIter LvlVersion LvlDb.

Definition kL0_SlowdownWritesTrigger : Z := 8.
Definition kL0_StopWritesTrigger : Z := 12.

(** A waiting writer; no batch is [NULL].  Its status and [done] are what [db_Write]
    answers. *)
Record DbWriter := MkDbWriter { wr_batch : option bytes; wr_sync : bool }.

(** ** Groups

    [None] stands for [result == first->batch]; [last] is the place of
    [*last_writer] in the queue. *)
Fixpoint build_group (tmp first : bytes) (first_sync : bool) (max_size size : Z) (result : option bytes) (last : nat) (ws : list DbWriter) : res (option bytes * nat) :=
  match ws with
  | [] => Ok (result, last)
  | w :: ws' =>
      if wr_sync w && negb first_sync then Ok (result, last)
      else
        match wr_batch w with
        | Some b =>
            let size := wrap_u 64 (size + Z.of_nat (length b)) in
            if max_size <? size then Ok (result, last)
            else
              r ← (match result with None => batch_Append tmp first | Some r => Ok r end);
              r ← batch_Append r b;
              build_group tmp first first_sync max_size size (Some r) (S last) ws'
        | None => build_group tmp first first_sync max_size size result (S last) ws'
        end
  end.

(** The batch to write, whether it is [tmp_batch_], and the last writer in it. *)
Definition BuildBatchGroup (tmp : bytes) (writers : list DbWriter) : res (bytes * bool * nat) :=
  match writers with
  | MkDbWriter (Some first) sync :: ws =>
      let size := Z.of_nat (length first) in
      let max_size := if size <=? 131072 then size + 131072 else 1048576 in
      '(result, last) ← build_group tmp first sync max_size size None 0 ws;
      Ok (match result with None => (first, false, last) | Some r => (r, true, last) end)
  | _ => Ub NullDeref
  end.

(** ** The state writes change

    [wd_log] is [log_] with [logfile_]; [wd_next_file] is the next file number of the
    version set. *)
Record WriteDb (F : Type) := MkWriteDb { wd_db : DBImpl; wd_log : Writer F; wd_logfile_number : Z; wd_next_file : Z; wd_tmp : bytes }.
Arguments MkWriteDb {F}.
Arguments wd_db {F}. Arguments wd_log {F}. Arguments wd_logfile_number {F}. Arguments wd_next_file {F}. Arguments wd_tmp {F}.

Definition RecordBackgroundError (s : Status) (d : DbStats) : DbStats :=
  if status_ok (ds_bg_error d) then MkDbStats (ds_stats d) (ds_bg_scheduled d) (ds_shutting_down d) s (ds_other_work d) else d.

(** What of the environment and of other threads a write meets: new log files, the
    synchronisation of a file, and [other_threads], the work done while the mutex is
    released, to wait or to write the log. *)
Class WriteEnv (W F : Type) := {
  NewWritableFile : Z -> W -> Status * option F * W;
  file_Sync : F -> Status * F;
  other_threads : WriteDb F -> W -> res (WriteDb F * W)
}.

Section Write.
Context (uc : comparator) (kLittleEndian : bool) (data_at : bytes -> Z).
Context {W F : Type} `{!DbStore W} `{!WritableFile F} `{!WriteEnv W F}.
(** The memory the arena of a memtable has, and [options_.write_buffer_size]. *)
Context (ApproximateMemoryUsage : memtable -> Z) (write_buffer_size : Z).

Definition NumLevelFiles (v : Version) (level : nat) : res Z := files ← level_files v level; Ok (Z.of_nat (length files)).

Definition set_db (db : DBImpl) (d : WriteDb F) : WriteDb F := MkWriteDb db (wd_log d) (wd_logfile_number d) (wd_next_file d) (wd_tmp d).

Definition ReuseFileNumber (file_number : Z) (d : WriteDb F) : WriteDb F :=
  if wd_next_file d =? wrap_u 64 (file_number + 1) then MkWriteDb (wd_db d) (wd_log d) (wd_logfile_number d) file_number (wd_tmp d) else d.

(** The switch to a new log and a new memtable; [None] when it was made. *)
Definition switch_memtable (d : WriteDb F) (w : W) : res (option Status * WriteDb F * W) :=
  let new_log_number := wd_next_file d in
  let d := MkWriteDb (wd_db d) (wd_log d) (wd_logfile_number d) (wrap_u 64 (new_log_number + 1)) (wd_tmp d) in
  let '(s, lfile, w) := NewWritableFile new_log_number w in
  if negb (status_ok s) then Ok (Some s, ReuseFileNumber new_log_number d, w)
  else
    lfile ← of_option NullDeref lfile;
    log ← Writer_new kLittleEndian data_at lfile;
    let db := wd_db d in
    let db := MkDb memtable_new (Some (mem_ db)) (current_ db) (LastSequence db) (seed_ db) in
    let t := get_stats w in
    let w := put_stats (MaybeScheduleCompaction (MkDbStats (ds_stats t) (ds_bg_scheduled t) (ds_shutting_down t) (ds_bg_error t) true)) w in
    Ok (None, MkWriteDb db log new_log_number (wd_next_file d) (wd_tmp d), w).

(** The loop of [MakeRoomForWrite]; [rounds] bounds it. *)
Fixpoint make_room (rounds : nat) (force allow_delay : bool) (d : WriteDb F) (w : W) : res (Status * WriteDb F * W) :=
  match rounds with
  | O => Ub NoEnd
  | S rounds' =>
      let bg_error := ds_bg_error (get_stats w) in
      n0 ← NumLevelFiles (current_ (wd_db d)) 0;
      if negb (status_ok bg_error) then Ok (bg_error, d, w)
      else if allow_delay && (kL0_SlowdownWritesTrigger <=? n0) then
        '(d, w) ← other_threads d w; make_room rounds' force false d w
      else if negb force && (ApproximateMemoryUsage (mem_ (wd_db d)) <=? write_buffer_size) then Ok (status_OK, d, w)
      else if bool_decide (is_Some (imm_ (wd_db d))) then
        '(d, w) ← other_threads d w; make_room rounds' force allow_delay d w
      else if kL0_StopWritesTrigger <=? n0 then
        '(d, w) ← other_threads d w; make_room rounds' force allow_delay d w
      else
        '(s, d, w) ← switch_memtable d w;
        match s with
        | Some s => Ok (s, d, w)
        | None => make_room rounds' false allow_delay d w
        end
  end.

Definition MakeRoomForWrite (rounds : nat) (force : bool) : WriteDb F -> W -> res (Status * WriteDb F * W) := make_room rounds force (negb force).

(** The log and the memtable, while the mutex is released: the status, whether the
    log could not be synchronised, the log and the memtable. *)
Definition log_and_insert (updates : bytes) (sync : bool) (log : Writer F) (mem : memtable) : res (Status * bool * Writer F * memtable) :=
  '(status, log) ← AddRecord kLittleEndian data_at updates log;
  status ← of_option NoEnd status;
  let '(status, sync_error, log) :=
    if status_ok status && sync then
      let '(s, f) := file_Sync (dest_ log) in (s, negb (status_ok s), MkWriter f (block_offset_ log) (type_crc_ log))
    else (status, false, log) in
  if status_ok status then
    '(mem, status) ← of_rounds (InsertInto uc updates mem);
    Ok (status, sync_error, log, mem)
  else Ok (status, sync_error, log, mem).

(** The call of the writer at the front of the queue.  The status goes to the first
    [n] writers, which leave the queue; the third result is the batch of the caller,
    which has its sequence number when it was written alone. *)
Definition db_Write (rounds : nat) (writers : list DbWriter) (d : WriteDb F) (w : W) : res (Status * nat * option bytes * WriteDb F * W) :=
  my ← of_option OobRead (head writers);
  '(status, d, w) ← MakeRoomForWrite rounds (bool_decide (wr_batch my = None)) d w;
  if status_ok status && bool_decide (is_Some (wr_batch my)) then
    '(updates, is_tmp, last) ← BuildBatchGroup (wd_tmp d) writers;
    let last_sequence := LastSequence (wd_db d) in
    updates ← batch_SetSequence updates (wrap_u 64 (last_sequence + 1));
    n ← batch_Count updates;
    let last_sequence := wrap_u 64 (last_sequence + n) in
    '(status, sync_error, log, mem) ← log_and_insert updates (wr_sync my) (wd_log d) (mem_ (wd_db d));
    '(d, w) ← other_threads d w;
    let w := if (sync_error : bool) then put_stats (RecordBackgroundError status (get_stats w)) w else w in
    let db := MkDb mem (imm_ (wd_db d)) (current_ (wd_db d)) last_sequence (seed_ (wd_db d)) in
    let tmp := if (is_tmp : bool) then batch_Clear else wd_tmp d in
    let mine := if (is_tmp : bool) then wr_batch my else Some updates in
    Ok (status, S last, mine, MkWriteDb db log (wd_logfile_number d) (wd_next_file d) tmp, w)
  else Ok (status, 1%nat, wr_batch my, d, w).

(** [DB::Put] and [DB::Delete], when no other writer waits. *)
Definition db_Put (rounds : nat) (sync : bool) (key value : bytes) (d : WriteDb F) (w : W) : res (Status * WriteDb F * W) :=
  batch ← batch_Put WriteBatch key value;
  '(s, _, _, d, w) ← db_Write rounds [MkDbWriter (Some batch) sync] d w;
  Ok (s, d, w).

Definition db_Delete (rounds : nat) (sync : bool) (key : bytes) (d : WriteDb F) (w : W) : res (Status * WriteDb F * W) :=
  batch ← batch_Delete WriteBatch key;
  '(s, _, _, d, w) ← db_Write rounds [MkDbWriter (Some batch) sync] d w;
  Ok (s, d, w).
End Write.
