(* ===== verification/LvlWriteSpec.v ===== *)
(** * Written records are read

    A group of writers is written as the concatenation of their batches; a write
    keeps a database a map with a history, to which it adds the records of the
    group, and adds one record with them to the log. *)
From Stdlib Require Import Sorting.Sorted.
From stdpp Require Import sorting.
From S2P Require Import Prelude Store LvlCoding LvlBase LvlFormat LvlBlock LvlBlockSpec LvlIterator LvlIteratorSpec LvlBatch LvlSkipList LvlSkipSpec LvlMemtable LvlLog LvlLogSpec LvlMerge LvlMergeSpec LvlDbIter LvlDbIterSpec LvlMemIter LvlVersion LvlVersionSpec LvlListIter LvlDb LvlDbSpec LvlWrite.

(** ** Groups *)

(** The records of a writer: none for a [NULL] batch. *)
Definition wr_holds (x : DbWriter) (l : list record) : Prop :=
  match wr_batch x with Some b => exists seq, batch_is b seq l | None => l = [] end.

Lemma batch_size b seq l : batch_is b seq l -> Z.of_nat (length l) + 12 <= Z.of_nat (length b).
Proof.
  intros (_ & _ & _ & ->). rewrite !length_app, encode64_le, encode32_le, !length_le_split.
  assert (length l <= length (records_bytes l))%nat; [|lia]. induction l as [|r l IH]; [done|].
  unfold records_bytes in *. cbn [fmap list_fmap concat]. rewrite length_app. destruct r; cbn; lia.
Qed.

(** The loop takes a prefix of the waiting writers. *)
Lemma build_group_ok first seq0 lf fsync max_size ws : batch_is first seq0 lf -> max_size <= 1048576 -> forall ls result done size last,
  Forall2 wr_holds ws ls -> Forall (fun x => forall b, wr_batch x = Some b -> Z.of_nat (length b) < 2 ^ 63) ws ->
  match result with None => done = lf | Some r => batch_is r 0 done end -> Z.of_nat (length done) + 12 <= size < 2 ^ 63 ->
  exists result' n, build_group WriteBatch first fsync max_size size result last ws = Ok (result', (last + n)%nat) /\ (n <= length ws)%nat /\
    match result' with None => done ++ concat (take n ls) = lf /\ result = None | Some r => batch_is r 0 (done ++ concat (take n ls)) end.
Proof.
  intros HF Hmax. induction ws as [|x ws IH]; intros ls result done size last Hls Hsz Hres Hsize; cbn [build_group].
  { exists result, 0%nat. rewrite Nat.add_0_r, app_nil_r. split; [done|]. split; [lia|]. by destruct result. }
  assert (Hstop : exists result' n, Ok (result, last) = Ok (result', (last + n)%nat) /\ (n <= length (x :: ws))%nat /\
    match result' with None => done ++ concat (take n ls) = lf /\ result = None | Some r => batch_is r 0 (done ++ concat (take n ls)) end).
  { exists result, 0%nat. rewrite Nat.add_0_r, app_nil_r. split; [done|]. split; [lia|]. by destruct result. }
  destruct (wr_sync x && negb fsync); [done|]. inversion Hls as [|? l ? ls' Hx Hls']; subst. inversion Hsz as [|? ? Hb Hsz']; subst.
  unfold wr_holds in Hx. destruct (wr_batch x) as [b|].
  - destruct Hx as [seq Hx]. specialize (Hb b eq_refl). rewrite wrap_u_small by lia. destruct (Z.ltb_spec max_size (size + Z.of_nat (length b))) as [|Hle]; [done|].
    pose proof (batch_size b seq l Hx) as Hlen.
    assert (exists r1, (match result with None => batch_Append WriteBatch first | Some r => Ok r end) = Ok r1 /\ batch_is r1 0 done) as (r1 & -> & H1).
    { destruct result as [r|]; [by exists r|]. subst done. destruct (batch_append_ok WriteBatch 0 [] first seq0 lf batch_is_empty HF) as (r1 & -> & H1); [cbn; lia|]. by exists r1. }
    cbn [mbind res_bind]. destruct (batch_append_ok r1 0 done b seq l H1 Hx) as (r2 & -> & H2); [lia|]. cbn [mbind res_bind].
    destruct (IH ls' (Some r2) (done ++ l) (size + Z.of_nat (length b)) (S last) Hls' Hsz' H2) as (result' & n & E & Hn & Hr); [rewrite length_app; lia|].
    exists result', (S n). rewrite E. split; [f_equal; f_equal; lia|]. split; [cbn; lia|]. cbn [take concat]. rewrite app_assoc. destruct result'; [done|]. by destruct Hr.
  - subst l. destruct (IH ls' result done size (S last) Hls' Hsz' Hres Hsize) as (result' & n & E & Hn & Hr). exists result', (S n). rewrite E.
    split; [f_equal; f_equal; lia|]. split; [cbn; lia|]. done.
Qed.

Lemma group_ok first seq0 sync ws l ls : batch_is first seq0 l -> Forall2 wr_holds ws ls ->
  Forall (fun x => forall b, wr_batch x = Some b -> Z.of_nat (length b) < 2 ^ 63) (MkDbWriter (Some first) sync :: ws) ->
  exists updates is_tmp n seq, BuildBatchGroup WriteBatch (MkDbWriter (Some first) sync :: ws) = Ok (updates, is_tmp, n) /\ (n <= length ws)%nat /\
    batch_is updates seq (l ++ concat (take n ls)) /\ (is_tmp = false -> updates = first).
Proof.
  intros HF Hls Hsz. inversion Hsz as [|? ? Hb Hsz']; subst. specialize (Hb first eq_refl). pose proof (batch_size _ _ _ HF) as Hlen. unfold BuildBatchGroup.
  destruct (build_group_ok first seq0 l sync (if Z.of_nat (length first) <=? 131072 then Z.of_nat (length first) + 131072 else 1048576) ws HF ltac:(case_match; lia) ls None l (Z.of_nat (length first)) 0%nat Hls Hsz' eq_refl ltac:(lia)) as (result' & n & -> & Hn & Hr).
  cbn [mbind res_bind]. destruct result' as [r|].
  - exists r, true, n, 0. split; [done|]. by split.
  - destruct Hr as [Hr _]. exists first, false, n, seq0. rewrite Hr. by split.
Qed.

(** ** Entries by their numbers *)
Lemma mem_list_holds uc {UL : CmpLaws uc} m raws l : mem_list uc m raws l -> mem_holds uc m (as_entry <$> raws).
Proof.
  intros HM. split; [by apply Forall_fmap, (ml_ok _ _ _ _ HM)|]. exists ((fun x => entry_bytes (as_entry x)) <$> raws). split; [|by rewrite <- list_fmap_compose].
  split; [|exists l; exact (ml_repr _ _ _ _ HM)]. pose proof (ml_ok _ _ _ _ HM) as HF. split.
  - apply Forall_fmap. eapply Forall_impl; [exact HF|]. intros x Hx. by apply entry_bytes_ik.
  - apply sorted_from_at. intros i j a b. rewrite !list_lookup_fmap. intros (x & Hx & ->)%fmap_Some (y & Hy & ->)%fmap_Some Hij. rewrite Forall_lookup in HF. unfold key_le.
    rewrite (proj1 (entry_bytes_ik uc _ (HF _ _ Hx))), (proj1 (entry_bytes_ik uc _ (HF _ _ Hy))). destruct (HF _ _ Hx) as (Gx & Dx & _), (HF _ _ Hy) as (Gy & Dy & _).
    apply Z.lt_le_incl, icmp_before; [done..|]. by apply (ml_sorted _ _ _ _ HM i j).
Qed.

Lemma numbered_nodup q l : NoDup (e_key <$> numbered q l).
Proof.
  revert q. induction l as [|r l IH]; intros q; [constructor|]. assert (Hc : forall k t, PIK k q t ∉ e_key <$> numbered (q + 1) l).
  { intros k t (e & E & He)%list_elem_of_fmap. apply numbered_range in He. rewrite <- E in He. cbn in He. lia. }
  destruct r; cbn; constructor; (apply Hc || apply IH).
Qed.

(** Entries as the parts of an internal key and a value again. *)
Definition as_parsed (e : entry) : ParsedInternalKey * bytes := (e_key e, e_value e).

Lemma parsed_entry (l : list entry) : as_entry <$> (as_parsed <$> l) = l.
Proof. rewrite <- list_fmap_compose. rewrite <- (list_fmap_id l) at 2. apply list_fmap_ext. by intros i []. Qed.

Lemma entry_parsed (l : parsed_entries) : as_parsed <$> (as_entry <$> l) = l.
Proof. rewrite <- list_fmap_compose. rewrite <- (list_fmap_id l) at 2. apply list_fmap_ext. by intros i []. Qed.

(** ** Sorted insertions *)
Section Insert.
Context (uc : comparator) {UL : CmpLaws uc}.

Lemma key_before_total a b : good_seq (sequence a) -> good_seq (sequence b) -> dom uc (user_key a) = true -> dom uc (user_key b) = true -> a <> b -> key_before uc a b \/ key_before uc b a.
Proof.
  intros Ga Gb Da Db Hne. destruct (Z.lt_trichotomy (cmp uc (user_key a) (user_key b)) 0) as [?|[E|Hgt]]; [by left; left| |].
  - apply cmp_eq in E; [|done..]. unfold key_before. rewrite <- !E, cmp_refl by done. destruct a as [ka sa ta], b as [kb sb tb]. cbn in *. subst kb.
    destruct (Z.lt_trichotomy sa sb) as [?|[->|?]]; [right; right; split; [done|left; lia]| |left; right; split; [done|left; lia]].
    destruct ta, tb; try done; cbn; [right|left]; right; (split; [done|right; split; [done|lia]]).
  - right. left. apply cmp_opp in Hgt; [done..].
Qed.

Definition good_entry (x : ParsedInternalKey * bytes) : Prop := good_seq (sequence (fst x)) /\ dom uc (user_key (fst x)) = true.

Lemma sp_cons_intro x l : good_entry x -> sorted_parsed uc l -> (forall y, y ∈ l -> key_before uc (fst x) (fst y)) -> sorted_parsed uc (x :: l).
Proof. intros Hx [HF HS] Hb. split; [by constructor|]. constructor; [done|]. by apply Forall_forall. Qed.

Lemma key_before_trans a b c : good_seq (sequence a) -> good_seq (sequence b) -> good_seq (sequence c) -> dom uc (user_key a) = true -> dom uc (user_key b) = true -> dom uc (user_key c) = true ->
  key_before uc a b -> key_before uc b c -> key_before uc a c.
Proof.
  intros Ga Gb Gc Da Db Dc Hab Hbc. apply icmp_before; [done..|]. apply icmp_before in Hab, Hbc; [|done..].
  exact (cmp_trans (c := internal_comparator uc) _ _ _ (internal_dom_key uc a Ga Da) (internal_dom_key uc b Gb Db) (internal_dom_key uc c Gc Dc) Hab Hbc).
Qed.

Lemma insert_entry_sorted x l : good_entry x -> sorted_parsed uc l -> fst x ∉ fst <$> l -> exists l', sorted_parsed uc l' /\ l' ≡ₚ x :: l.
Proof.
  intros Hx. induction l as [|y l IH]; intros HS Hn; [exists [x]; split; [|done]; by apply sp_cons_intro; [done|by repeat constructor|intros y ?%elem_of_nil]|].
  destruct (sp_cons uc _ _ HS) as [HS' Hb]. destruct (sp_mem uc _ y HS ltac:(set_solver)) as [Gy Dy]. destruct Hx as [Gx Dx].
  destruct (key_before_total (fst x) (fst y) Gx Gy Dx Dy) as [Hxy|Hyx]; [set_solver| |].
  - exists (x :: y :: l). split; [|done]. apply sp_cons_intro; [done|done|]. intros z [->|Hz]%elem_of_cons; [done|]. destruct (sp_mem uc _ z HS ltac:(set_solver)) as [Gz Dz].
    by apply (key_before_trans _ (fst y)); auto.
  - destruct IH as (l' & HSl & HP); [done|set_solver|]. exists (y :: l'). split; [|rewrite HP; apply Permutation_swap]. apply sp_cons_intro; [done|done|].
    intros z. rewrite HP. intros [->|Hz]%elem_of_cons; auto.
Qed.

Lemma insert_all new l : Forall good_entry new -> NoDup (fst <$> (new ++ l)) -> sorted_parsed uc l -> exists l', sorted_parsed uc l' /\ l' ≡ₚ new ++ l.
Proof.
  induction new as [|x new IH]; intros HF HN HS; [by exists l|]. inversion HF as [|? ? Hx HF']; subst. apply NoDup_cons in HN as [Hn HN].
  destruct (IH HF' HN HS) as (l1 & HS1 & HP1). destruct (insert_entry_sorted x l1 Hx HS1) as (l2 & HS2 & HP2); [by rewrite HP1|]. exists l2. split; [done|]. by rewrite HP2, HP1.
Qed.
End Insert.

(** ** Writing *)

(** [put_stats] writes what [get_stats] reads. *)
Class StatsLaws (W : Type) `{!DbStore W} : Prop := { get_put (d : DbStats) (w : W) : get_stats (put_stats d w) = d }.

(** A new file is empty, if there is one; a file that is synchronised, with success
    or not, has what it had. *)
Class WriteLaws (W F : Type) `{!DbStore W} `{!WriteEnv W F} (contents : F -> bytes) (okw : W -> Prop) : Prop := {
  new_file n w : okw w -> exists s f w', NewWritableFile n w = (s, f, w') /\ okw w' /\ get_stats w' = get_stats w /\
    (status_ok s = true -> exists f0, f = Some f0 /\ contents f0 = []);
  sync_keeps f : contents (snd (file_Sync f)) = contents f
}.

(** What lookups show of the entries of a database: the map [m]. *)
Definition shows (uc : comparator) (last : Z) (all : parsed_entries) (m : gmap bytes (option bytes)) : Prop :=
  forall k o, dom uc k = true -> newest uc k last all o -> o ≫= entry_value = mjoin (m !! k).

(** A writer can not go on: the other memtable still has to be written, or there are
    too many files in level 0. *)
Definition waits {W F : Type} `{!DbStore W} (d : WriteDb F) (w : W) : Prop :=
  ds_bg_error (get_stats w) = status_OK /\
  (is_Some (imm_ (wd_db d)) \/ exists files, files_ (current_ (wd_db d)) !! 0%nat = Some files /\ kL0_StopWritesTrigger <= Z.of_nat (length files)).

(** Threads that run while the writer at the front of the queue has released the
    mutex leave the memtable, the log and the sequence numbers to it.  Their
    compactions write the other memtable and replace files, and may drop entries
    that no lookup shows.  [left] bounds the compactions, or the error, a waiting
    writer waits for. *)
Class ThreadLaws (uc : comparator) {W F T : Type} {TC : TableCache W T} {DS : DbStore W} {WE : WriteEnv W F} (okw : W -> Prop)
    (held : FileMetaData -> parsed_entries) (left : WriteDb F -> W -> nat) : Prop := {
  threads_run d w : okw w -> exists d' w', other_threads d w = Ok (d', w') /\ okw w' /\
    wd_log d' = wd_log d /\ wd_tmp d' = wd_tmp d /\ mem_ (wd_db d') = mem_ (wd_db d) /\ LastSequence (wd_db d') = LastSequence (wd_db d) /\
    (forall M IM all, db_ok uc okw held (wd_db d) M IM all -> exists IM' all', db_ok uc okw held (wd_db d') M IM' all' /\ all' ⊆ all /\
       forall m, shows uc (LastSequence (wd_db d)) all m -> shows uc (LastSequence (wd_db d)) all' m) /\
    (left d' w' <= left d w)%nat /\ (waits d w -> (left d' w' < left d w)%nat)
}.

Section Write.
Context (uc : comparator) {UL : CmpLaws uc} (Hbound : forall k, dom uc k = true -> Z.of_nat (length k) + 8 < 2 ^ 32).
Context (e : bool) (data_at : bytes -> Z) (data_at_pos : forall b, 0 <= data_at b).
Context {W F T : Type} {TC : TableCache W T} {DS : DbStore W} {WF : WritableFile F} {WE : WriteEnv W F}.
Context (contents : F -> bytes) (okw : W -> Prop) {SL : StoreLaws okw} {GP : StatsLaws W} {WL : WriteLaws W F contents okw}.
Context (held : FileMetaData -> parsed_entries) (left : WriteDb F -> W -> nat) {TL : ThreadLaws uc okw held left}.
Context (usage : memtable -> Z) (write_buffer_size : Z).

(** The log has the records [xs]. *)
Definition log_has (log : Writer F) (xs : list bytes) : Prop :=
  wok contents log /\ exists cs, logged 0 xs cs /\ contents (dest_ log) = concat cs.

Record write_ok (d : WriteDb F) (M IM all : parsed_entries) : Prop := {
  wo_db : db_ok uc okw held (wd_db d) M IM all;
  wo_seqs x : x ∈ all -> sequence (fst x) <= LastSequence (wd_db d);
  wo_tmp : wd_tmp d = WriteBatch;
  wo_log : wsane (wd_log d)
}.

Lemma logged_snoc p xs cs x l : logged p xs cs -> LvlLogSpec.cut true (p + length (concat cs)) x l -> logged p (xs ++ [x]) (cs ++ [log_of (p + length (concat cs)) l]).
Proof.
  induction 1 as [p|p x0 xs l0 cs Hc Hl IH]; cbn [app concat].
  - rewrite Nat.add_0_r. intros Hc. constructor; [done|constructor].
  - rewrite length_app, Nat.add_assoc. intros Hx. constructor; [done|]. by apply IH.
Qed.

Lemma log_add {RL : Reliable F contents} log xs x : log_has log xs -> exists log', AddRecord e data_at x log = Ok (Some status_OK, log') /\ log_has log' (xs ++ [x]).
Proof.
  intros (Hw & cs & Hl & Hc). destruct (add_record e data_at data_at_pos contents x log Hw) as (log' & l & E & Hw' & Hcut & Hc'). exists log'. split; [done|]. split; [done|].
  rewrite Hc in Hcut, Hc'. exists (cs ++ [log_of (0 + length (concat cs)) l]). split; [by apply logged_snoc|]. by rewrite Hc', concat_app; cbn; rewrite app_nil_r.
Qed.

Lemma log_new f log : contents f = [] -> Writer_new e data_at f = Ok log -> log_has log [].
Proof.
  intros Hf E. destruct (writer_new e data_at data_at_pos contents f Hf) as (log' & E' & Hw & Hc). rewrite E in E'. injection E' as <-. split; [done|]. exists []. split; [constructor|done].
Qed.

Lemma log_synced log xs : log_has log xs -> log_has (MkWriter (snd (file_Sync (dest_ log))) (block_offset_ log) (type_crc_ log)) xs.
Proof.
  intros [(H1 & H2 & H3) (cs & Hl & Hc)]. unfold log_has, wok. cbn [dest_ block_offset_ type_crc_]. rewrite (sync_keeps (WriteLaws := WL)). split; [done|]. by exists cs.
Qed.

(** *** Into the memtable *)
Lemma sp_nodup l : sorted_parsed uc l -> NoDup (fst <$> l).
Proof.
  induction l as [|x l IH]; intros HS; [constructor|]. destruct (sp_cons uc _ _ HS) as [HS' Hb]. cbn. constructor; [|by apply IH].
  intros (y & E & Hy)%list_elem_of_fmap. destruct (sp_mem uc _ x HS ltac:(set_solver)) as [Gx Dx]. specialize (Hb y Hy). rewrite <- E in Hb. by apply (key_before_irrefl uc (fst x)).
Qed.

Lemma keys_entries (l : parsed_entries) : e_key <$> (as_entry <$> l) = fst <$> l.
Proof. by rewrite <- list_fmap_compose. Qed.

Lemma keys_parsed (l : list entry) : fst <$> (as_parsed <$> l) = e_key <$> l.
Proof. by rewrite <- list_fmap_compose. Qed.

(** New entries with greater numbers are other entries. *)
Lemma nodup_new seq recs l : sorted_parsed uc l -> (forall x, x ∈ l -> sequence (fst x) < seq) -> NoDup (fst <$> ((as_parsed <$> numbered seq recs) ++ l)).
Proof.
  intros HS Hlt. rewrite fmap_app, keys_parsed. apply NoDup_app. split; [apply numbered_nodup|]. split; [|by apply sp_nodup].
  intros k (e1 & -> & H1%numbered_range)%list_elem_of_fmap (x & E & Hx%Hlt)%list_elem_of_fmap. rewrite <- E in Hx. lia.
Qed.

Lemma insert_memory m raws l b seq recs : mem_list uc m raws l -> batch_is b seq recs -> Forall (record_good uc) recs -> (forall x, x ∈ raws -> sequence (fst x) < seq) ->
  seq + Z.of_nat (length recs) <= kMaxSequenceNumber ->
  exists m' raws' l', InsertInto uc b m = Some (Ok (m', status_OK)) /\ mem_list uc m' raws' l' /\ raws' ≡ₚ (as_parsed <$> numbered seq recs) ++ raws.
Proof.
  intros HM HB Hg Hlt Hmax. destruct (insert_into_holds uc b seq recs m _ HB Hg (mem_list_holds uc m raws l HM)) as (m' & E & Hm'); [by intros e0 (x & -> & Hx%Hlt)%list_elem_of_fmap|done|].
  pose proof (nodup_new seq recs raws (mem_list_sorted uc m raws l HM) Hlt) as HN.
  destruct (mem_holds_list uc m' _ Hm') as (raws' & l' & HM' & HP).
  { rewrite fmap_app, fmap_reverse, keys_entries. rewrite fmap_app, keys_parsed in HN. by rewrite reverse_Permutation. }
  exists m', raws', l'. split; [done|]. split; [done|]. rewrite <- (entry_parsed raws'), HP, fmap_app, entry_parsed, fmap_reverse. by rewrite reverse_Permutation.
Qed.

Lemma good_numbered seq recs : 0 <= seq -> seq + Z.of_nat (length recs) <= kMaxSequenceNumber -> Forall (record_good uc) recs -> Forall (good_entry uc) (as_parsed <$> numbered seq recs).
Proof.
  intros H0 Hmax Hg. revert seq H0 Hmax. induction Hg as [|r recs Hr _ IH]; intros seq H0 Hmax; [constructor|]. cbn [length] in Hmax.
  destruct r; cbn in *; (constructor; [split; cbn; [unfold good_seq; lia|by apply Hr]|apply IH; lia]).
Qed.

(** *** Room *)
Lemma new_list : exists l, mem_list uc memtable_new [] l.
Proof.
  destruct (mem_holds_list uc memtable_new [] (new_holds uc)) as (raws & l & HM & HP); [constructor|]. apply Permutation_nil_r in HP. apply fmap_nil_inv in HP as ->. by exists l.
Qed.

Lemma db_switched db M IM all : db_ok uc okw held db M IM all -> imm_ db = None -> db_ok uc okw held (MkDb memtable_new (Some (mem_ db)) (current_ db) (LastSequence db) (seed_ db)) [] M all.
Proof.
  intros HD Hi. pose proof (do_imm _ _ _ _ _ _ _ HD) as HI. rewrite Hi in HI. subst IM. pose proof (do_mem_newer _ _ _ _ _ _ _ HD) as Hn. pose proof (do_all _ _ _ _ _ _ _ HD) as Ha.
  split; cbn [mem_ imm_ current_ LastSequence]; [exact new_list|exact (do_mem _ _ _ _ _ _ _ HD)|exact (do_version _ _ _ _ _ _ _ HD)| |exact Hn|exact (do_sorted _ _ _ _ _ _ _ HD)|exact Ha|exact (do_last _ _ _ _ _ _ _ HD)].
  intros x y Hx. by apply elem_of_nil in Hx.
Qed.

(** The log is the one it was, or a new one. *)
Definition log_kept (d d' : WriteDb F) : Prop :=
  wd_log d' = wd_log d \/ exists f, contents f = [] /\ Writer_new e data_at f = Ok (wd_log d').

(** What making room changes: nothing that lookups show. *)
Record room (d d' : WriteDb F) (w' : W) (m : gmap bytes (option bytes)) : Prop := {
  rm_okw : okw w';
  rm_db : exists M IM all, write_ok d' M IM all /\ shows uc (LastSequence (wd_db d')) all m;
  rm_last : LastSequence (wd_db d') = LastSequence (wd_db d);
  rm_log : log_kept d d'
}.

Lemma room_trans d d1 w1 d2 w2 m : room d d1 w1 m -> room d1 d2 w2 m -> room d d2 w2 m.
Proof.
  intros [_ _ L1 G1] [H2 H3 L2 G2]. split; [done|done|congruence|]. unfold log_kept in *. destruct G2 as [->|G2]; [exact G1|by right].
Qed.

Lemma room_threads d w M IM all m : write_ok d M IM all -> okw w -> shows uc (LastSequence (wd_db d)) all m ->
  exists d' w', other_threads d w = Ok (d', w') /\ room d d' w' m /\ (left d' w' <= left d w)%nat /\ (waits d w -> (left d' w' < left d w)%nat) /\
    mem_ (wd_db d') = mem_ (wd_db d) /\ wd_log d' = wd_log d.
Proof.
  intros HO Hw Hs. destruct (threads_run (ThreadLaws := TL) d w Hw) as (d' & w' & E & Hw' & El & Et & Em & Ela & Hdb & Hle & Hlt). exists d', w'. split; [done|]. split; [|done].
  destruct (Hdb M IM all (wo_db _ _ _ _ HO)) as (IM' & all' & HD' & Hsub & Hsh). split; [done| |done|by left]. exists M, IM', all'. split; [|rewrite Ela; by apply Hsh].
  split; [done| |by rewrite Et; apply (wo_tmp _ _ _ _ HO)|by rewrite El; apply (wo_log _ _ _ _ HO)]. intros x Hx. rewrite Ela. apply (wo_seqs _ _ _ _ HO). by apply Hsub.
Qed.

Lemma threads_tmp d w d' w' M IM all : write_ok d M IM all -> okw w -> other_threads d w = Ok (d', w') -> wd_tmp d' = WriteBatch.
Proof. intros HO Hw E. destruct (threads_run (ThreadLaws := TL) d w Hw) as (d1 & w1 & E1 & _ & _ & Et & _). rewrite E in E1. injection E1 as <- <-. rewrite Et. exact (wo_tmp _ _ _ _ HO). Qed.

Lemma switch_room d w M IM all m : write_ok d M IM all -> okw w -> shows uc (LastSequence (wd_db d)) all m -> imm_ (wd_db d) = None -> ds_bg_error (get_stats w) = status_OK ->
  exists s d' w', switch_memtable e data_at d w = Ok (s, d', w') /\ room d d' w' m /\
    match s with
    | Some s => status_ok s = false
    | None => mem_ (wd_db d') = memtable_new /\ current_ (wd_db d') = current_ (wd_db d) /\ ds_bg_error (get_stats w') = status_OK
    end.
Proof.
  intros HO Hw Hs Hi Hbg. unfold switch_memtable. destruct (new_file (WriteLaws := WL) (wd_next_file d) w Hw) as (s & f & w1 & -> & Hw1 & Hst & Hok). destruct (status_ok s) eqn:Es; cbn [negb].
  - destruct (Hok eq_refl) as (f0 & -> & Hc). cbn [of_option mbind res_bind]. destruct (writer_new_any e data_at data_at_pos f0) as (log & El & Hl). rewrite El. cbn [mbind res_bind wd_db].
    eexists None, _, _. split; [done|]. split; [split; [by apply put_keeps| |done|right; exists f0; by split]|].
    + exists [], M, all. split; [|done]. split; cbn; [exact (db_switched _ _ _ _ (wo_db _ _ _ _ HO) Hi)|exact (wo_seqs _ _ _ _ HO)|exact (wo_tmp _ _ _ _ HO)|done].
    + split; [done|]. split; [done|]. rewrite (get_put (StatsLaws := GP)), Hst. unfold MaybeScheduleCompaction. cbn. repeat case_match; cbn; done.
  - eexists (Some s), _, w1. split; [done|]. split; [|done]. unfold ReuseFileNumber. case_match; (split; [done| |done|by left]); exists M, IM, all; (split; [by destruct HO; split|done]).
Qed.

Lemma level0_files d M IM all : write_ok d M IM all -> exists files, files_ (current_ (wd_db d)) !! 0%nat = Some files.
Proof.
  intros HO. pose proof (vo_levels _ _ _ _ (do_version _ _ _ _ _ _ _ (wo_db _ _ _ _ HO))) as Hl. apply lookup_lt_is_Some_2. rewrite Hl. unfold kNumLevels. lia.
Qed.

(** The loop ends after the waits that are left, at most one delay, a switch and a
    last look. *)
Lemma make_room_ok rounds : forall force allow d M IM all m w, write_ok d M IM all -> okw w -> shows uc (LastSequence (wd_db d)) all m ->
  usage memtable_new <= write_buffer_size -> (left d w + (if (allow : bool) then 3 else 2) <= rounds)%nat ->
  exists s d' w', make_room e data_at usage write_buffer_size rounds force allow d w = Ok (s, d', w') /\ room d d' w' m /\
    (status_ok s = true -> ds_bg_error (get_stats w') = status_OK).
Proof.
  induction rounds as [|rounds IH]; intros force allow d M IM all m w HO Hw Hs Hnew Hr; [destruct allow; lia|].
  assert (Hid : room d d w m) by (split; [done|by exists M, IM, all|done|by left]).
  destruct (level0_files d M IM all HO) as [files Hf]. cbn [make_room]. unfold NumLevelFiles at 1, level_files. rewrite Hf. cbn [of_option mbind res_bind].
  destruct (ds_bg_error (get_stats w)) as [err|] eqn:Hbg; cbn [status_ok negb]; [by exists (Some err), d, w|].
  assert (Hwait : forall force' allow', waits d w \/ allow' = false /\ allow = true -> allow' = false \/ allow' = allow -> exists s d' w',
    ('(d, w) ← other_threads d w; make_room e data_at usage write_buffer_size rounds force' allow' d w) = Ok (s, d', w') /\ room d d' w' m /\ (status_ok s = true -> ds_bg_error (get_stats w') = status_OK)).
  { intros force' allow' Hwt Hal. destruct (room_threads d w M IM all m HO Hw Hs) as (d1 & w1 & -> & HR1 & Hle & Hlt & _). cbn [mbind res_bind]. destruct (rm_db _ _ _ _ HR1) as (M1 & IM1 & all1 & HO1 & Hs1).
    destruct (IH force' allow' d1 M1 IM1 all1 m w1 HO1 (rm_okw _ _ _ _ HR1) Hs1 Hnew) as (s & d2 & w2 & E & HR2 & Hst); [destruct Hwt as [Hwt%Hlt|[Ea Eb]], Hal as [Ec|Ec]; destruct allow, allow'; simplify_eq; lia|].
    exists s, d2, w2. split; [done|]. split; [by eapply room_trans|done]. }
  destruct (allow && (kL0_SlowdownWritesTrigger <=? Z.of_nat (length files))) eqn:Hslow.
  { apply andb_true_iff in Hslow as [-> _]. apply Hwait; [by right|by left]. }
  destruct (negb force && (usage (mem_ (wd_db d)) <=? write_buffer_size)) eqn:Hfits; [by exists status_OK, d, w|].
  case_bool_decide as Hi; [apply Hwait; [left; split; [done|by left]|by right]|]. apply eq_None_not_Some in Hi.
  destruct (Z.leb_spec kL0_StopWritesTrigger (Z.of_nat (length files))) as [Hstop|_]; [apply Hwait; [left; split; [done|]; right; by exists files|by right]|].
  destruct (switch_room d w M IM all m HO Hw Hs Hi Hbg) as (s & d1 & w1 & -> & HR1 & Hs1). cbn [mbind res_bind]. destruct s as [s|]; [exists s, d1, w1; split; [done|]; split; [done|by rewrite Hs1]|].
  destruct Hs1 as (Em & Ec & Hbg1). destruct rounds as [|rounds]; [destruct allow; lia|]. cbn [make_room]. unfold NumLevelFiles, level_files. rewrite Ec, Hf. cbn [of_option mbind res_bind].
  rewrite Hbg1. cbn [status_ok status_OK negb]. rewrite Hslow, Em. cbn [negb andb]. rewrite (proj2 (Z.leb_le _ _) Hnew). by exists status_OK, d1, w1.
Qed.

(** *** New entries *)
Lemma db_inserted db M IM all m' M' l' new last : db_ok uc okw held db M IM all -> mem_list uc m' M' l' -> M' ≡ₚ new ++ M -> Forall (good_entry uc) new -> NoDup (fst <$> (new ++ all)) ->
  (forall x, x ∈ new -> LastSequence db < sequence (fst x)) -> (forall x, x ∈ all -> sequence (fst x) <= LastSequence db) -> good_seq last ->
  exists all', db_ok uc okw held (MkDb m' (imm_ db) (current_ db) last (seed_ db)) M' IM all' /\ all' ≡ₚ new ++ all.
Proof.
  intros HD HM HP HG HN Hnew Hold Hl. destruct (insert_all uc new all HG HN (do_sorted _ _ _ _ _ _ _ HD)) as (all' & HS & HA). exists all'. split; [|done].
  pose proof (do_all _ _ _ _ _ _ _ HD) as Hall. split; cbn [mem_ imm_ current_ LastSequence]; [by exists l'|exact (do_imm _ _ _ _ _ _ _ HD)|exact (do_version _ _ _ _ _ _ _ HD)| |exact (do_imm_newer _ _ _ _ _ _ _ HD)|done| |done].
  - intros x y Hx Hy Ek. rewrite HP in Hx. apply elem_of_app in Hx as [Hx|Hx]; [|by apply (do_mem_newer _ _ _ _ _ _ _ HD)].
    specialize (Hnew x Hx). assert (sequence (fst y) <= LastSequence db); [|lia]. apply Hold. rewrite Hall. set_solver.
  - rewrite HA, Hall, HP. by rewrite app_assoc.
Qed.

Lemma db_renumbered db M IM all last : db_ok uc okw held db M IM all -> good_seq last -> db_ok uc okw held (MkDb (mem_ db) (imm_ db) (current_ db) last (seed_ db)) M IM all.
Proof. by intros [] Hl. Qed.

(** What the log and the memtable get: all of the records, or none with an error.  A
    file that takes what is appended has one more record. *)
Lemma log_and_insert_ok updates seq recs sync log m M l : batch_is updates seq recs -> Forall (record_good uc) recs -> wsane log -> mem_list uc m M l ->
  (forall x, x ∈ M -> sequence (fst x) < seq) -> seq + Z.of_nat (length recs) <= kMaxSequenceNumber ->
  exists status sync_error log' m' M' l', log_and_insert uc e data_at (W := W) updates sync log m = Ok (status, sync_error, log', m') /\ wsane log' /\ mem_list uc m' M' l' /\
    (status = status_OK /\ sync_error = false /\ M' ≡ₚ (as_parsed <$> numbered seq recs) ++ M \/ status_ok status = false /\ m' = m /\ M' = M) /\
    (forall xs, Reliable F contents -> log_has log xs -> log_has log' (xs ++ [updates]) /\ (status_ok status = false -> sync = true /\ sync_error = true)).
Proof.
  intros HB Hg Hlog HM Hlt Hmax. unfold log_and_insert. destruct (add_record_any e data_at data_at_pos updates log Hlog) as (st1 & log1 & E1 & Hl1). rewrite E1. cbn [of_option mbind res_bind].
  assert (Hrel : forall xs, Reliable F contents -> log_has log xs -> st1 = status_OK /\ log_has log1 (xs ++ [updates])).
  { intros xs RL Hx. destruct (log_add log xs updates Hx) as (log2 & E2 & H2). rewrite E1 in E2. by injection E2 as -> ->. }
  destruct (insert_memory m M l updates seq recs HM HB Hg Hlt Hmax) as (m' & M' & l' & E & HM' & HP). destruct (status_ok st1) eqn:E0; cbn [andb].
  2: { rewrite E0. exists st1, false, log1, m, M, l. split_and!; try done; [by right|]. intros xs RL Hx. destruct (Hrel xs RL Hx) as [-> _]. done. }
  destruct sync; [|rewrite E0, E; exists status_OK, false, log1, m', M', l'; split_and!; try done; [by left|]; intros xs RL Hx; by destruct (Hrel xs RL Hx)].
  assert (Hsync : forall xs, Reliable F contents -> log_has log xs -> log_has (MkWriter (snd (file_Sync (dest_ log1))) (block_offset_ log1) (type_crc_ log1)) (xs ++ [updates])).
  { intros xs RL Hx. apply log_synced. by destruct (Hrel xs RL Hx). }
  destruct (file_Sync (dest_ log1)) as [st f]. cbn [snd] in Hsync. destruct (status_ok st) eqn:Est; cbn [negb].
  - rewrite E. cbn [of_rounds mbind res_bind]. eexists status_OK, false, _, m', M', l'. split; [done|]. split_and!; try done; [by left|]. intros xs RL Hx. split; [by apply Hsync|done].
  - eexists st, true, _, m, M, l. split; [done|]. split_and!; try done; [by right|]. intros xs RL Hx. split; [by apply Hsync|done].
Qed.

(** *** What lookups show *)
Lemma newest_below k last last' all o : (forall x, x ∈ all -> sequence (fst x) <= last) -> last <= last' -> newest uc k last' all o -> newest uc k last all o.
Proof.
  intros Hs Hl. assert (Hsee : forall x, x ∈ all -> seen_by k last' x <-> seen_by k last x) by (intros x Hx; specialize (Hs x Hx); unfold seen_by; naive_solver lia).
  destruct o as [x|]; cbn; [|intros Hn y Hy Hv; apply (Hn y Hy); by apply Hsee]. intros (Hx & Hv & Hn). split; [done|]. split; [by apply Hsee|]. intros y Hy Hvy. apply Hn; [done|]. by apply Hsee.
Qed.

Lemma shows_later last last' all m : shows uc last all m -> (forall x, x ∈ all -> sequence (fst x) <= last) -> last <= last' -> shows uc last' all m.
Proof. intros Hs Hq Hl k o Dk Hn. apply Hs; [done|]. by eapply newest_below. Qed.

Lemma shows_add last all all' m recs : shows uc last all m -> (forall x, x ∈ all -> sequence (fst x) <= last) -> all' ≡ₚ (as_parsed <$> numbered (last + 1) recs) ++ all ->
  shows uc (last + Z.of_nat (length recs)) all' (foldl apply_record m recs).
Proof.
  intros Hs Hq HP k o Dk Hn. set (s := last + Z.of_nat (length recs)) in *. apply (newest_perm _ _ _ _ _ _ HP) in Hn. pose proof (lookup_numbered k s (last + 1) recs m) as HL.
  replace (Z.to_nat (s - (last + 1) + 1)) with (length recs) in HL by lia. rewrite firstn_all in HL. rewrite HL. clear HL.
  assert (Hvis : forall e0, e0 ∈ numbered (last + 1) recs -> visible k s e0 -> exists x, o = Some x /\ (x = as_parsed e0 \/ sequence (e_key e0) <= sequence (fst x)) /\ user_key (fst x) = k).
  { intros e0 He0 Hv. assert (as_parsed e0 ∈ (as_parsed <$> numbered (last + 1) recs) ++ all) as Hin by (apply elem_of_app; left; apply list_elem_of_fmap; by exists e0).
    destruct o as [x|]; [|by destruct (Hn _ Hin)]. destruct Hn as (_ & [Hk _] & Hn). exists x. split; [done|]. split; [|done]. destruct (Hn _ Hin Hv) as [->|Hb]; [by left|]. right. destruct Hv as [Ek _].
    destruct Hb as [Hlt|[_ [?|[? _]]]]; [|cbn in *; lia..]. cbn in Hlt. rewrite Hk, Ek, cmp_refl in Hlt by done. lia. }
  destruct (list.last (filter (visible k s) (numbered (last + 1) recs))) as [e1|] eqn:El.
  - pose proof El as He1. apply last_Some_elem_of, list_elem_of_filter in He1 as [Hv1 He1]. destruct (Hvis e1 He1 Hv1) as (x & -> & Hx & Hk). destruct Hn as (Hin & [_ Hsx] & Hn).
    assert (exists e0, x = as_parsed e0 /\ e0 ∈ numbered (last + 1) recs) as (e0 & -> & He0).
    { destruct Hx as [->|Hx]; [by exists e1|]. apply elem_of_app in Hin as [(e0 & -> & He0)%list_elem_of_fmap|Hin%Hq]; [by exists e0|]. apply numbered_range in He1. lia. }
    rewrite (newest_last k s (last + 1) recs e0) in El; [by injection El as <-|]. split; [by apply elem_of_reverse|]. split; [by split|]. intros e2 He2 Hv2. rewrite elem_of_reverse in He2.
    destruct (Hvis e2 He2 Hv2) as (x & [= <-] & [E|?] & _); [|done]. injection E as E _. by rewrite E.
  - assert (Hno : forall x, x ∈ as_parsed <$> numbered (last + 1) recs -> ~ seen_by k s x).
    { intros x (e0 & -> & He0)%list_elem_of_fmap Hv. apply last_None in El. apply (elem_of_nil e0). rewrite <- El. by apply list_elem_of_filter. }
    apply Hs; [done|]. apply (newest_below k last s); [done|lia|]. destruct o as [x|]; cbn in Hn |- *; [|intros y Hy; apply Hn; set_solver].
    destruct Hn as (Hin & Hv & Hn). split; [apply elem_of_app in Hin as [Hin|Hin]; [by destruct (Hno x Hin)|done]|]. split; [done|]. intros y Hy. apply Hn. set_solver.
Qed.

(** The records a database was written with, numbered from 1, show the map they make. *)
Lemma shows_history all rs : (as_entry <$> all) ≡ₚ numbered 1 rs -> shows uc (Z.of_nat (length rs)) all (foldl apply_record ∅ rs).
Proof. intros HP k o Dk Hn. pose proof (newest_history uc k _ rs all o Dk HP Hn) as E. rewrite Nat2Z.id, firstn_all in E. rewrite E. by destruct o. Qed.

(** *** The step *)

(** A group that is written: all of its records, or none with an error. *)
Lemma write_group first sync ws ls l d M IM all m w :
  write_ok d M IM all -> okw w -> shows uc (LastSequence (wd_db d)) all m -> ds_bg_error (get_stats w) = status_OK ->
  Forall2 wr_holds (MkDbWriter (Some first) sync :: ws) (l :: ls) -> Forall (Forall (record_good uc)) (l :: ls) ->
  Forall (fun x => forall b, wr_batch x = Some b -> Z.of_nat (length b) < 2 ^ 63) (MkDbWriter (Some first) sync :: ws) ->
  LastSequence (wd_db d) + Z.of_nat (length (concat (l :: ls))) < kMaxSequenceNumber ->
  exists updates is_tmp n b status sync_error log mem d1 w1 M' IM' all',
    BuildBatchGroup (wd_tmp d) (MkDbWriter (Some first) sync :: ws) = Ok (updates, is_tmp, n) /\ (n <= length ws)%nat /\
    let recs := concat (take (S n) (l :: ls)) in let last := LastSequence (wd_db d) + Z.of_nat (length recs) in
    batch_SetSequence updates (wrap_u 64 (LastSequence (wd_db d) + 1)) = Ok b /\ batch_Count b = Ok (Z.of_nat (length recs)) /\ wrap_u 64 last = last /\
    log_and_insert uc e data_at (W := W) b sync (wd_log d) (mem_ (wd_db d)) = Ok (status, sync_error, log, mem) /\
    other_threads d w = Ok (d1, w1) /\ okw w1 /\
    (forall lf nf tmp, tmp = WriteBatch -> write_ok (MkWriteDb (MkDb mem (imm_ (wd_db d1)) (current_ (wd_db d1)) last (seed_ (wd_db d1))) log lf nf tmp) M' IM' all') /\
    shows uc last all' (if status_ok status then foldl apply_record m recs else m) /\ (sync_error = true -> status_ok status = false) /\
    (forall xs, Reliable F contents -> log_has (wd_log d) xs -> batch_is b (LastSequence (wd_db d) + 1) recs /\ log_has log (xs ++ [b]) /\
       (status_ok status = false -> sync = true /\ sync_error = true)).
Proof.
  intros HO Hw Hs Hbg HL Hg Hsz Hmax. apply Forall2_cons in HL as [Hf Hls]. unfold wr_holds in Hf. cbn in Hf. destruct Hf as [seq0 HF]. rewrite (wo_tmp _ _ _ _ HO).
  destruct (group_ok first seq0 sync ws l ls HF Hls Hsz) as (updates & is_tmp & n & seq & Egr & Hn & HB & _). cbn [take concat]. set (recs := l ++ concat (take n ls)) in *. cbv zeta.
  pose proof (do_last _ _ _ _ _ _ _ (wo_db _ _ _ _ HO)) as [L0 _]. pose proof max_seq as Emax.
  assert (length recs <= length (concat (l :: ls)))%nat as Hlen.
  { unfold recs. cbn [concat]. rewrite !length_app. rewrite <- (take_drop n ls) at 2. rewrite concat_app, length_app. lia. }
  destruct (batch_set_sequence updates seq recs HB (LastSequence (wd_db d) + 1)) as (b & Eb & HB'); [lia|].
  assert (Forall (record_good uc) recs) as Hgr by (inversion Hg as [|? ? Hgl Hgls]; subst; apply Forall_app; split; [done|]; by apply Forall_concat, Forall_take).
  destruct (room_threads d w M IM all m HO Hw Hs) as (d1 & w1 & Et & [Hw1 (M1 & IM1 & all1 & HO1 & Hs1) El1 _] & _ & _ & Em1 & Elog). destruct (do_mem _ _ _ _ _ _ _ (wo_db _ _ _ _ HO1)) as [lm HM]. rewrite Em1 in HM.
  rewrite El1 in Hs1. assert (Hseq : forall x, x ∈ all1 -> sequence (fst x) <= LastSequence (wd_db d)) by (intros x Hx%(wo_seqs _ _ _ _ HO1); by rewrite <- El1).
  destruct (log_and_insert_ok b _ recs sync (wd_log d) _ M1 lm HB' Hgr (wo_log _ _ _ _ HO) HM) as (status & sync_error & log & mem & M' & l' & E & Hlog & HM' & Hcase & Hrel); [|lia|].
  { intros x Hx. apply Z.lt_succ_r, Hseq. rewrite (do_all _ _ _ _ _ _ _ (wo_db _ _ _ _ HO1)). set_solver. }
  assert (exists all', db_ok uc okw held (MkDb mem (imm_ (wd_db d1)) (current_ (wd_db d1)) (LastSequence (wd_db d) + Z.of_nat (length recs)) (seed_ (wd_db d1))) M' IM1 all' /\
    (forall x, x ∈ all' -> sequence (fst x) <= LastSequence (wd_db d) + Z.of_nat (length recs)) /\ shows uc (LastSequence (wd_db d) + Z.of_nat (length recs)) all' (if status_ok status then foldl apply_record m recs else m) /\
    (sync_error = true -> status_ok status = false)) as (all' & HD' & Hq' & Hs' & Hse).
  { destruct Hcase as [(-> & -> & HP)|(Hst & -> & ->)].
    - destruct (db_inserted (wd_db d1) M1 IM1 all1 mem M' l' (as_parsed <$> numbered (LastSequence (wd_db d) + 1) recs) (LastSequence (wd_db d) + Z.of_nat (length recs)) (wo_db _ _ _ _ HO1) HM' HP) as (all' & HD' & HA').
      + apply good_numbered; [lia|lia|done].
      + apply nodup_new; [exact (do_sorted _ _ _ _ _ _ _ (wo_db _ _ _ _ HO1))|]. intros x Hx%Hseq. lia.
      + intros x (y & -> & Hy%numbered_range)%list_elem_of_fmap. cbn. lia.
      + by rewrite El1.
      + split; lia.
      + exists all'. split; [done|]. split; [|split; [by eapply shows_add|done]]. intros x. rewrite HA'. intros [(y & -> & Hy%numbered_range)%list_elem_of_fmap|Hx%Hseq]%elem_of_app; cbn; lia.
    - exists all1. split; [rewrite <- Em1; apply db_renumbered; [exact (wo_db _ _ _ _ HO1)|split; lia]|]. split; [intros x Hx%Hseq; lia|]. rewrite Hst. split; [|done]. apply (shows_later (LastSequence (wd_db d))); [done|done|lia]. }
  exists updates, is_tmp, n, b, status, sync_error, log, mem, d1, w1, M', IM1, all'. rewrite !wrap_u_small by lia. split_and!; try done.
  - by apply (batch_count b _ recs HB').
  - fold recs. rewrite wrap_u_small; [done|lia].
  - intros xs RL Hx. by destruct (Hrel xs RL Hx).
Qed.

(** C27. A write of a LevelDB database by the writer at the front of the queue ends,
    and answers for a prefix of the waiting writers.  With an OK status their
    batches, in the order of the queue, are applied as a whole, and every later
    lookup answers as the map with the records of the group applied; with any other
    status - an earlier error of a compaction, a new log that can not be made, a log
    that can not be written or synchronised - lookups answer as before.  That holds
    whether the write is delayed, waits for compactions, switches the memtable or
    not, and whatever compactions run meanwhile; the invariant of the database is
    kept.  On a log file that takes what is appended, the log has one more record
    with the records of the group when the status is OK; it has it, too, when only
    the synchronisation failed, and then later writes meet an error. *)
Theorem db_write_read rounds first sync ws ls l d M IM all m w :
  write_ok d M IM all -> shows uc (LastSequence (wd_db d)) all m -> okw w ->
  usage memtable_new <= write_buffer_size -> (left d w + 3 <= rounds)%nat ->
  Forall2 wr_holds (MkDbWriter first sync :: ws) (l :: ls) -> Forall (Forall (record_good uc)) (l :: ls) ->
  Forall (fun x => forall b, wr_batch x = Some b -> Z.of_nat (length b) < 2 ^ 63) (MkDbWriter first sync :: ws) ->
  LastSequence (wd_db d) + Z.of_nat (length (concat (l :: ls))) < kMaxSequenceNumber ->
  exists status n mine d' w' M' IM' all',
    db_Write uc e data_at usage write_buffer_size rounds (MkDbWriter first sync :: ws) d w = Ok (status, n, mine, d', w') /\ (0 < n <= S (length ws))%nat /\
    let recs := concat (take n (l :: ls)) in let m' := if status_ok status then foldl apply_record m recs else m in
    okw w' /\ write_ok d' M' IM' all' /\ shows uc (LastSequence (wd_db d')) all' m' /\
    (forall k, dom uc k = true -> exists w'', db_Get uc None k (wd_db d') w' = Ok (found (mjoin (m' !! k)), w'')) /\
    LastSequence (wd_db d) <= LastSequence (wd_db d') <= LastSequence (wd_db d) + Z.of_nat (length recs) /\
    (forall xs, Reliable F contents -> log_has (wd_log d) xs -> exists xs', (xs' = xs \/ xs' = []) /\
       (log_has (wd_log d') xs' /\ (first = None \/ status_ok status = false) \/
        exists b, batch_is b (LastSequence (wd_db d) + 1) recs /\ log_has (wd_log d') (xs' ++ [b]) /\
          (status = status_OK \/ sync = true /\ status_ok (ds_bg_error (get_stats w')) = false))).
Proof.
  intros HO Hs Hw Hnew Hr HL Hg Hsz Hmax. unfold db_Write. cbn [head of_option mbind res_bind wr_batch wr_sync]. unfold MakeRoomForWrite.
  destruct (make_room_ok rounds (bool_decide (first = None)) (negb (bool_decide (first = None))) d M IM all m w HO Hw Hs Hnew) as (s1 & d1 & w1 & -> & [Hw1 (M1 & IM1 & all1 & HO1 & Hs1) El Hlog] & Hbg); [case_match; lia|]. cbn [mbind res_bind].
  assert (Hxs : forall xs, log_has (wd_log d) xs -> exists xs', (xs' = xs \/ xs' = []) /\ log_has (wd_log d1) xs').
  { intros xs Hx. destruct Hlog as [->|(f & Hf & E)]; [exists xs; auto|]. exists []. split; [by right|]. by eapply log_new. }
  assert (Hget : forall d' w' M' IM' all' m', okw w' -> write_ok d' M' IM' all' -> shows uc (LastSequence (wd_db d')) all' m' ->
    forall k, dom uc k = true -> exists w'', db_Get uc None k (wd_db d') w' = Ok (found (mjoin (m' !! k)), w'')).
  { intros d' w' M' IM' all' m' Hw' HO' Hs' k Dk. pose proof (wo_db _ _ _ _ HO') as HD'.
    destruct (db_get_newest uc Hbound okw held (wd_db d') M' IM' all' None k HD' Dk (do_last _ _ _ _ _ _ _ HD') w' Hw') as (r & w'' & E & _ & o & Ho & ->). exists w''. rewrite E. by rewrite (Hs' k o Dk Ho). }
  destruct (status_ok s1 && bool_decide (is_Some first)) eqn:Hgo.
  - apply andb_true_iff in Hgo as [Hst [first0 ->]%bool_decide_eq_true]. rewrite <- El in Hmax. destruct (write_group first0 sync ws ls l d1 M1 IM1 all1 m w1 HO1 Hw1 Hs1 (Hbg Hst) HL Hg Hsz Hmax)
      as (updates & is_tmp & n & b & status & sync_error & log & mem & d2 & w2 & M' & IM' & all' & E1 & Hn & E2 & E3 & Hwr & E4 & Et & Hw2 & HO' & Hs' & Hse & Hrel). rewrite E1. cbn [mbind res_bind]. rewrite E2. cbn [mbind res_bind]. rewrite E3. cbn [mbind res_bind]. rewrite E4. cbn [mbind res_bind]. rewrite Et, Hwr. cbn [mbind res_bind].
    eexists status, (S n), _, _, _, M', IM', all'. split; [done|]. split; [lia|]. cbv zeta. set (w3 := if sync_error then _ else w2). assert (Hw3 : okw w3) by (unfold w3; destruct sync_error; [by apply put_keeps|done]).
    set (d' := MkWriteDb _ log _ _ _). assert (HOd : write_ok d' M' IM' all') by (apply HO'; destruct is_tmp; [done|]; exact (threads_tmp d1 w1 d2 w2 M1 IM1 all1 HO1 Hw1 Et)).
    split; [done|]. split; [done|]. split; [done|]. split; [by eapply Hget|]. rewrite <- El. cbn [wd_db d' LastSequence]. split; [lia|]. intros xs RL (xs' & Hor & Hx)%Hxs. exists xs'. split; [done|]. right.
    destruct (Hrel xs' RL Hx) as (HB & Hlog' & Hfail). exists b. split; [done|]. split; [done|]. destruct status as [err|]; [right|by left]. destruct (Hfail eq_refl) as [-> ->]. split; [done|].
    unfold w3. rewrite (get_put (StatsLaws := GP)). unfold RecordBackgroundError. destruct (status_ok (ds_bg_error (get_stats w2))) eqn:Eb; [done|by rewrite Eb].
  - eexists s1, 1%nat, _, d1, w1, M1, IM1, all1. split; [done|]. split; [lia|]. cbv zeta.
    assert (Hm : (if status_ok s1 then foldl apply_record m (concat (take 1 (l :: ls))) else m) = m).
    { destruct (status_ok s1); [|done]. cbn in Hgo. apply bool_decide_eq_false in Hgo. destruct first; [by destruct Hgo|]. apply Forall2_cons in HL as [Hl _]. unfold wr_holds in Hl. cbn in Hl. by subst l. }
    rewrite Hm. split; [done|]. split; [done|]. split; [done|]. split; [by eapply Hget|]. rewrite El. split; [lia|]. intros xs _ [xs' [? ?]]%Hxs. exists xs'. split; [done|]. left. split; [done|].
    apply andb_false_iff in Hgo as [?|Hgo%bool_decide_eq_false]; [by right|]. left. by apply eq_None_not_Some.
Qed.
End Write.

(** ** Two writers on the small database *)
#[local] Instance demo_store' : DbStore DbStats := {| get_stats d := d; put_stats d _ := d |}.
#[local] Instance demo_cache' : TableCache DbStats ListIter := list_tables short_lexical DbStats demo_tables.
#[local] Instance demo_laws' : StoreLaws (fun _ : DbStats => True).
Proof. by split. Qed.
#[local] Instance demo_stats : StatsLaws DbStats.
Proof. by split. Qed.
(** Background threads whose compactions fail: a writer that waits meets the error. *)
Definition demo_waits (d : WriteDb bytes) (w : DbStats) : bool :=
  status_ok (ds_bg_error w) && (bool_decide (is_Some (imm_ (wd_db d))) || (kL0_StopWritesTrigger <=? Z.of_nat (length (default [] (files_ (current_ (wd_db d)) !! 0%nat))))).
Definition demo_left (d : WriteDb bytes) (w : DbStats) : nat := if demo_waits d w then 1 else 0.

#[local] Instance demo_env : WriteEnv DbStats bytes :=
  {| NewWritableFile _ w := (status_OK, Some [], w); file_Sync f := (status_OK, f);
     other_threads d w := Ok (d, if demo_waits d w then RecordBackgroundError (IOError (lit "compaction") []) w else w) |}.
#[local] Instance demo_env_laws : WriteLaws DbStats bytes (fun f => f) (fun _ => True).
Proof. split; [|done]. intros n w _. exists status_OK, (Some []), w. split_and!; try done. intros _. by exists []. Qed.

#[local] Instance demo_threads : ThreadLaws short_lexical (fun _ : DbStats => True) (fun f => demo_tables (f_number f)) demo_left.
Proof.
  split. intros d w _. eexists d, _. split; [reflexivity|]. split_and!; try done.
  - intros M IM all HD. by exists IM, all.
  - unfold demo_left at 1. destruct (demo_waits d w) eqn:E; [|by rewrite E; unfold demo_left; rewrite E]. unfold demo_waits, RecordBackgroundError.
    apply andb_true_iff in E as [-> _]. cbn. lia.
  - intros [Hbg Hw]. assert (demo_waits d w = true) as E.
    { unfold demo_waits. change (get_stats w) with w in Hbg. rewrite Hbg. cbn. apply orb_true_iff. destruct Hw as [Hi|(files & -> & Hf)]; [left; by apply bool_decide_eq_true|right; by apply Z.leb_le]. }
    unfold demo_left. rewrite E. unfold demo_waits, RecordBackgroundError. change (get_stats w) with w in Hbg. rewrite Hbg. cbn. lia.
Qed.

Definition demo_log : Writer bytes := match Writer_new true (fun _ => 0) ([] : bytes) with Ok l => l | Ub _ => MkWriter [] 0 [] end.
Definition demo_write : WriteDb bytes := MkWriteDb demo_db demo_log 4 5 WriteBatch.
Definition demo_stats0 : DbStats := MkDbStats (MkStats ∅ None) false false status_OK false.

Definition batch_of (l : list record) : bytes := match batch_add_all WriteBatch l with Ok b => b | Ub _ => [] end.
Definition demo_writers : list DbWriter := [MkDbWriter (Some (batch_of [RPut (lit "d") (lit "6")])) true; MkDbWriter (Some (batch_of [RDelete (lit "b")])) false].

Lemma demo_write_ok : write_ok short_lexical (fun _ => True) (fun f => demo_tables (f_number f)) demo_write demo_mem demo_imm demo_all.
Proof.
  split; [exact demo_ok| |done|].
  - intros x Hx. apply Z.leb_le. assert (Forall (fun x => (sequence (fst x) <=? 6) = true) demo_all) as HF by (by repeat constructor). rewrite Forall_forall in HF. by apply HF.
  - unfold demo_write, demo_log. cbn [wd_log]. destruct (writer_new_any true (fun _ => 0) (fun _ => Z.le_refl 0) ([] : bytes)) as (log & -> & Hl). exact Hl.
Qed.

Lemma demo_shows : shows short_lexical 6 demo_all (foldl apply_record ∅ demo_records).
Proof.
  apply (shows_history short_lexical demo_all demo_records). apply NoDup_Permutation; [apply (NoDup_fmap_1 (fun e => sequence (e_key e))), (bool_decide_unpack _); by vm_compute..|]. intros x. cbn. rewrite !elem_of_cons. tauto.
Qed.

Lemma db_write_read_witness : exists status n mine d' w',
  db_Write short_lexical true (fun _ => 0) (fun _ => 0) 4096 4 demo_writers demo_write demo_stats0 = Ok (status, n, mine, d', w') /\ (0 < n <= 2)%nat.
Proof.
  destruct (db_write_read short_lexical short_bound true (fun _ => 0) (fun _ => Z.le_refl 0) (fun f : bytes => f) (fun _ => True) (fun f => demo_tables (f_number f)) demo_left (fun _ => 0) 4096
    4 (Some (batch_of [RPut (lit "d") (lit "6")])) true [MkDbWriter (Some (batch_of [RDelete (lit "b")])) false] [[RDelete (lit "b")]] [RPut (lit "d") (lit "6")]
    demo_write demo_mem demo_imm demo_all (foldl apply_record ∅ demo_records) demo_stats0) as (status & n & mine & d' & w' & M' & IM' & all' & E & Hn & _).
  - exact demo_write_ok.
  - exact demo_shows.
  - done.
  - lia.
  - vm_compute. lia.
  - repeat constructor; exists 0; by repeat constructor.
  - by repeat constructor.
  - repeat constructor; intros b [= <-]; vm_compute; done.
  - vm_compute. done.
  - exists status, n, mine, d', w'. by split.
Defined.
