(* ===== verification/LvlEdit.v ===== *)
(** * LevelDB's version edits

    src/3rd-party/leveldb/leveldb-1.18/db/version_edit.h and version_edit.cc: what a
    record of the manifest says of the change from one version to the next, and
    that decoding gives back what was encoded. *)
From Stdlib Require Import Sorting.Sorted.
From stdpp Require Import sorting.
From S2P Require Import Prelude Store LvlCoding LvlBase LvlFormat LvlBatch LvlBlock LvlIterator LvlMerge LvlDbIter LvlVersion.

Inductive Tag := kComparator | kLogNumber | kNextFileNumber | kLastSequence | kCompactPointer | kDeletedFile | kNewFile | kPrevLogNumber.

Definition tag_val (t : Tag) : Z :=
  match t with
  | kComparator => 1 | kLogNumber => 2 | kNextFileNumber => 3 | kLastSequence => 4
  | kCompactPointer => 5 | kDeletedFile => 6 | kNewFile => 7 | kPrevLogNumber => 9
  end.

(** A member with its [has_] flag is an option; [deleted_files_] is a [std::set], the
    ascending list of its elements. *)
Record VersionEdit := MkEdit {
  ve_comparator : option bytes; ve_log_number : option Z; ve_prev_log_number : option Z; ve_next_file_number : option Z; ve_last_sequence : option Z;
  ve_compact_pointers : list (Z * bytes); ve_deleted_files : list (Z * Z); ve_new_files : list (Z * FileMetaData) }.

(** [compact_pointers_] is not cleared. *)
Definition ve_Clear (e : VersionEdit) : VersionEdit := MkEdit None None None None None (ve_compact_pointers e) [] [].

Definition VersionEdit_new : VersionEdit := ve_Clear (MkEdit None None None None None [] [] []).

(** ** Members *)
Definition SetComparatorName (name : bytes) (e : VersionEdit) : VersionEdit :=
  MkEdit (Some name) (ve_log_number e) (ve_prev_log_number e) (ve_next_file_number e) (ve_last_sequence e) (ve_compact_pointers e) (ve_deleted_files e) (ve_new_files e).
Definition SetLogNumber (num : Z) (e : VersionEdit) : VersionEdit :=
  MkEdit (ve_comparator e) (Some num) (ve_prev_log_number e) (ve_next_file_number e) (ve_last_sequence e) (ve_compact_pointers e) (ve_deleted_files e) (ve_new_files e).
Definition SetPrevLogNumber (num : Z) (e : VersionEdit) : VersionEdit :=
  MkEdit (ve_comparator e) (ve_log_number e) (Some num) (ve_next_file_number e) (ve_last_sequence e) (ve_compact_pointers e) (ve_deleted_files e) (ve_new_files e).
Definition SetNextFile (num : Z) (e : VersionEdit) : VersionEdit :=
  MkEdit (ve_comparator e) (ve_log_number e) (ve_prev_log_number e) (Some num) (ve_last_sequence e) (ve_compact_pointers e) (ve_deleted_files e) (ve_new_files e).
Definition SetLastSequence (seq : Z) (e : VersionEdit) : VersionEdit :=
  MkEdit (ve_comparator e) (ve_log_number e) (ve_prev_log_number e) (ve_next_file_number e) (Some seq) (ve_compact_pointers e) (ve_deleted_files e) (ve_new_files e).
Definition SetCompactPointer (level : Z) (key : bytes) (e : VersionEdit) : VersionEdit :=
  MkEdit (ve_comparator e) (ve_log_number e) (ve_prev_log_number e) (ve_next_file_number e) (ve_last_sequence e) (ve_compact_pointers e ++ [(level, key)]) (ve_deleted_files e) (ve_new_files e).

(** [std::set::insert] with the order of pairs. *)
Definition pair_lt (a b : Z * Z) : bool := (fst a <? fst b) || (fst a =? fst b) && (snd a <? snd b).

Fixpoint set_insert (x : Z * Z) (l : list (Z * Z)) : list (Z * Z) :=
  match l with
  | [] => [x]
  | y :: l' => if pair_lt x y then x :: l else if pair_lt y x then y :: set_insert x l' else l
  end.

Definition DeleteFile (level file : Z) (e : VersionEdit) : VersionEdit :=
  MkEdit (ve_comparator e) (ve_log_number e) (ve_prev_log_number e) (ve_next_file_number e) (ve_last_sequence e) (ve_compact_pointers e) (set_insert (level, file) (ve_deleted_files e)) (ve_new_files e).
Definition AddFile (level : Z) (f : FileMetaData) (e : VersionEdit) : VersionEdit :=
  MkEdit (ve_comparator e) (ve_log_number e) (ve_prev_log_number e) (ve_next_file_number e) (ve_last_sequence e) (ve_compact_pointers e) (ve_deleted_files e) (ve_new_files e ++ [(level, f)]).

(** ** Encoding *)
Definition put_number (t : Tag) (o : option Z) (dst : bytes) : res bytes :=
  match o with Some n => of_option NoEnd (PutVarint64 (PutVarint32 dst (tag_val t)) n) | None => Ok dst end.

(** [InternalKey::Encode] *)
Definition ik_Encode (rep : bytes) : res bytes := if decide (rep = []) then Ub AssertFail else Ok rep.

Fixpoint put_pointers (l : list (Z * bytes)) (dst : bytes) : res bytes :=
  match l with
  | [] => Ok dst
  | (level, key) :: l' =>
      key ← ik_Encode key;
      put_pointers l' (PutLengthPrefixedSlice (PutVarint32 (PutVarint32 dst (tag_val kCompactPointer)) (wrap_u 32 level)) key)
  end.

Fixpoint put_deleted (l : list (Z * Z)) (dst : bytes) : res bytes :=
  match l with
  | [] => Ok dst
  | (level, number) :: l' =>
      dst ← of_option NoEnd (PutVarint64 (PutVarint32 (PutVarint32 dst (tag_val kDeletedFile)) (wrap_u 32 level)) number);
      put_deleted l' dst
  end.

Fixpoint put_files (l : list (Z * FileMetaData)) (dst : bytes) : res bytes :=
  match l with
  | [] => Ok dst
  | (level, f) :: l' =>
      dst ← of_option NoEnd (PutVarint64 (PutVarint32 (PutVarint32 dst (tag_val kNewFile)) (wrap_u 32 level)) (f_number f));
      dst ← of_option NoEnd (PutVarint64 dst (f_file_size f));
      smallest ← ik_Encode (f_smallest f);
      largest ← ik_Encode (f_largest f);
      put_files l' (PutLengthPrefixedSlice (PutLengthPrefixedSlice dst smallest) largest)
  end.

Definition ve_EncodeTo (e : VersionEdit) (dst : bytes) : res bytes :=
  let dst := match ve_comparator e with Some c => PutLengthPrefixedSlice (PutVarint32 dst (tag_val kComparator)) c | None => dst end in
  dst ← put_number kLogNumber (ve_log_number e) dst;
  dst ← put_number kPrevLogNumber (ve_prev_log_number e) dst;
  dst ← put_number kNextFileNumber (ve_next_file_number e) dst;
  dst ← put_number kLastSequence (ve_last_sequence e) dst;
  dst ← put_pointers (ve_compact_pointers e) dst;
  dst ← put_deleted (ve_deleted_files e) dst;
  put_files (ve_new_files e) dst.

(** ** Decoding *)
Definition GetInternalKey (input : bytes) : option bytes * bytes := GetLengthPrefixedSlice input.

Definition GetLevel (input : bytes) : option Z * bytes :=
  match GetVarint32 input with
  | (Some v, input) => (if v <? Z.of_nat kNumLevels then Some v else None, input)
  | (None, input) => (None, input)
  end.

(** [f] on what is read, or the end of a chain of [&&]. *)
Definition andThen {A B} (r : option A * bytes) (f : A -> bytes -> option B * bytes) : option B * bytes :=
  match r with (Some a, input) => f a input | (None, input) => (None, input) end.

Definition get_number (set : Z -> VersionEdit -> VersionEdit) (e : VersionEdit) (input : bytes) : option VersionEdit * bytes :=
  andThen (GetVarint64 input) (fun n input => (Some (set n e), input)).

(** What follows a tag, and the message when it cannot be read. *)
Definition get_field (tag : Z) (e : VersionEdit) (input : bytes) : option VersionEdit * bytes * bytes :=
  if tag =? tag_val kComparator then (andThen (GetLengthPrefixedSlice input) (fun s input => (Some (SetComparatorName s e), input)), lit "comparator name")
  else if tag =? tag_val kLogNumber then (get_number SetLogNumber e input, lit "log number")
  else if tag =? tag_val kPrevLogNumber then (get_number SetPrevLogNumber e input, lit "previous log number")
  else if tag =? tag_val kNextFileNumber then (get_number SetNextFile e input, lit "next file number")
  else if tag =? tag_val kLastSequence then (get_number SetLastSequence e input, lit "last sequence number")
  else if tag =? tag_val kCompactPointer then
    (andThen (GetLevel input) (fun level input => andThen (GetInternalKey input) (fun key input => (Some (SetCompactPointer level key e), input))), lit "compaction pointer")
  else if tag =? tag_val kDeletedFile then
    (andThen (GetLevel input) (fun level input => andThen (GetVarint64 input) (fun number input => (Some (DeleteFile level number e), input))), lit "deleted file")
  else if tag =? tag_val kNewFile then
    (andThen (GetLevel input) (fun level input => andThen (GetVarint64 input) (fun number input => andThen (GetVarint64 input) (fun size input =>
      andThen (GetInternalKey input) (fun smallest input => andThen (GetInternalKey input) (fun largest input =>
        (Some (AddFile level (MkFile number size smallest largest) e), input)))))), lit "new-file entry")
  else ((None, input), lit "unknown tag").

(** The loop; every round reads a tag. *)
Fixpoint decode_loop (rounds : nat) (input : bytes) (e : VersionEdit) : res (option bytes * VersionEdit) :=
  match rounds with
  | O => Ub NoEnd
  | S rounds' =>
      match GetVarint32 input with
      | (Some tag, input) =>
          match get_field tag e input with
          | ((Some e, input), _) => decode_loop rounds' input e
          | ((None, _), msg) => Ok (Some msg, e)
          end
      | (None, input) => Ok (match input with [] => None | _ => Some (lit "invalid tag") end, e)
      end
  end.

Definition ve_DecodeFrom (src : bytes) (e : VersionEdit) : res (Status * VersionEdit) :=
  '(msg, e) ← decode_loop (S (length src)) src (ve_Clear e);
  Ok (match msg with Some m => status_new kCorruption (lit "VersionEdit") m | None => status_OK end, e).

(** ** Fields

    An edit as the list of what its encoding has. *)
Inductive field :=
| FComparator (name : bytes) | FNumber (t : Tag) (n : Z) | FPointer (level : Z) (key : bytes) | FDeleted (level number : Z) | FNew (level : Z) (f : FileMetaData).

Definition number_tag (t : Tag) : bool := match t with kLogNumber | kPrevLogNumber | kNextFileNumber | kLastSequence => true | _ => false end.

Definition apply_field (e : VersionEdit) (f : field) : VersionEdit :=
  match f with
  | FComparator name => SetComparatorName name e
  | FNumber kLogNumber n => SetLogNumber n e
  | FNumber kPrevLogNumber n => SetPrevLogNumber n e
  | FNumber kNextFileNumber n => SetNextFile n e
  | FNumber kLastSequence n => SetLastSequence n e
  | FNumber _ _ => e
  | FPointer level key => SetCompactPointer level key e
  | FDeleted level number => DeleteFile level number e
  | FNew level f => AddFile level f e
  end.

Definition good_level (l : Z) : Prop := 0 <= l < Z.of_nat kNumLevels.
Definition good_number (n : Z) : Prop := 0 <= n < 2 ^ 64.
Definition good_string (s : bytes) : Prop := Z.of_nat (length s) < 2 ^ 32.
Definition good_ikey (s : bytes) : Prop := good_string s /\ s <> [].
Definition good_file (f : FileMetaData) : Prop := good_number (f_number f) /\ good_number (f_file_size f) /\ good_ikey (f_smallest f) /\ good_ikey (f_largest f).

Definition good_field (f : field) : Prop :=
  match f with
  | FComparator name => good_string name
  | FNumber t n => number_tag t = true /\ good_number n
  | FPointer level key => good_level level /\ good_ikey key
  | FDeleted level number => good_level level /\ good_number number
  | FNew level f => good_level level /\ good_file f
  end.

Definition varint64 (n : Z) : bytes := default [] (EncodeVarint64 n).

Definition field_bytes (f : field) : bytes :=
  match f with
  | FComparator name => EncodeVarint32 (tag_val kComparator) ++ put_slice name
  | FNumber t n => EncodeVarint32 (tag_val t) ++ varint64 n
  | FPointer level key => EncodeVarint32 (tag_val kCompactPointer) ++ EncodeVarint32 level ++ put_slice key
  | FDeleted level number => EncodeVarint32 (tag_val kDeletedFile) ++ EncodeVarint32 level ++ varint64 number
  | FNew level f => EncodeVarint32 (tag_val kNewFile) ++ EncodeVarint32 level ++ varint64 (f_number f) ++ varint64 (f_file_size f) ++ put_slice (f_smallest f) ++ put_slice (f_largest f)
  end.

Definition number_field (t : Tag) (o : option Z) : list field := option_list (FNumber t <$> o).

Definition fields (e : VersionEdit) : list field :=
  option_list (FComparator <$> ve_comparator e) ++ number_field kLogNumber (ve_log_number e) ++ number_field kPrevLogNumber (ve_prev_log_number e) ++
  number_field kNextFileNumber (ve_next_file_number e) ++ number_field kLastSequence (ve_last_sequence e) ++
  ((fun x => FPointer (fst x) (snd x)) <$> ve_compact_pointers e) ++ ((fun x => FDeleted (fst x) (snd x)) <$> ve_deleted_files e) ++ ((fun x => FNew (fst x) (snd x)) <$> ve_new_files e).

(** *** Reading fields *)
Lemma put_varint64 dst n : good_number n -> PutVarint64 dst n = Some (dst ++ varint64 n).
Proof.
  intros Hn. unfold PutVarint64, varint64. destruct (encode_loop_enough 9 n) as [bs E]; [unfold good_number in Hn; cbn; lia|]. unfold EncodeVarint64. by rewrite E.
Qed.

Lemma read_varint64 n rest : good_number n -> GetVarint64 (varint64 n ++ rest) = (Some n, rest).
Proof.
  intros Hn. unfold varint64. destruct (encode_loop_enough 9 n) as [bs E]; [unfold good_number in Hn; cbn; lia|]. unfold EncodeVarint64. rewrite E. change (default [] (Some bs)) with bs. unfold GetVarint64. by rewrite (varint64_get n bs rest Hn E).
Qed.

Lemma read_varint32 n rest : 0 <= n < 2 ^ 32 -> GetVarint32 (EncodeVarint32 n ++ rest) = (Some n, rest).
Proof. intros Hn. unfold GetVarint32. by rewrite varint32_get. Qed.

Lemma read_level l rest : good_level l -> GetLevel (EncodeVarint32 l ++ rest) = (Some l, rest).
Proof.
  intros Hl. unfold GetLevel. unfold good_level, kNumLevels in *. rewrite read_varint32 by lia. by rewrite (proj2 (Z.ltb_lt _ _)) by lia.
Qed.

Lemma read_field f rest e : good_field f -> exists tag, 0 <= tag < 2 ^ 32 /\ GetVarint32 (field_bytes f ++ rest) = (Some tag, drop (length (EncodeVarint32 tag)) (field_bytes f) ++ rest) /\
  fst (get_field tag e (drop (length (EncodeVarint32 tag)) (field_bytes f) ++ rest)) = (Some (apply_field e f), rest).
Proof.
  assert (Ht : forall t more, GetVarint32 ((EncodeVarint32 (tag_val t) ++ more) ++ rest) = (Some (tag_val t), drop (length (EncodeVarint32 (tag_val t))) (EncodeVarint32 (tag_val t) ++ more) ++ rest)).
  { intros t more. rewrite <- app_assoc, read_varint32 by (destruct t; cbn; lia). by rewrite drop_app_length. }
  destruct f as [name|t n|level key|level number|level f]; cbn [good_field field_bytes]; intros Hg.
  - exists (tag_val kComparator). split; [cbn; lia|]. split; [apply Ht|]. rewrite drop_app_length. unfold get_field; cbn [tag_val Z.eqb Pos.eqb fst apply_field]. unfold andThen. by rewrite get_slice.
  - destruct Hg as [Hnt Hn]. exists (tag_val t). split; [destruct t; cbn; lia|]. split; [apply Ht|]. rewrite drop_app_length. destruct t; try done; unfold get_field; cbn [tag_val Z.eqb Pos.eqb fst apply_field]; unfold get_number, andThen; by rewrite read_varint64.
  - destruct Hg as [Hl [Hk _]]. exists (tag_val kCompactPointer). split; [cbn; lia|]. split; [apply Ht|]. rewrite drop_app_length, <- app_assoc. unfold get_field; cbn [tag_val Z.eqb Pos.eqb fst apply_field]. rewrite read_level by done. cbn [andThen]. unfold GetInternalKey. by rewrite get_slice.
  - destruct Hg as [Hl Hn]. exists (tag_val kDeletedFile). split; [cbn; lia|]. split; [apply Ht|]. rewrite drop_app_length, <- app_assoc. unfold get_field; cbn [tag_val Z.eqb Pos.eqb fst apply_field]. rewrite read_level by done. cbn [andThen]. by rewrite read_varint64.
  - destruct Hg as [Hl (Hn & Hz & [Hs _] & [Hb _])]. exists (tag_val kNewFile). split; [cbn; lia|]. split; [apply Ht|]. rewrite drop_app_length, <- !app_assoc. unfold get_field; cbn [tag_val Z.eqb Pos.eqb fst apply_field]. rewrite read_level by done. cbn [andThen].
    rewrite read_varint64 by done. cbn [andThen]. rewrite read_varint64 by done. cbn [andThen]. unfold GetInternalKey. rewrite get_slice by done. cbn [andThen]. rewrite get_slice by done. cbn [andThen]. by destruct f.
Qed.

Lemma read_fields l : forall rounds e, Forall good_field l -> (length l < rounds)%nat -> decode_loop rounds (concat (field_bytes <$> l)) e = Ok (None, foldl apply_field e l).
Proof.
  induction l as [|f l IH]; intros rounds e HF Hr; (destruct rounds as [|rounds]; [cbn in Hr; lia|]); cbn [decode_loop fmap list_fmap concat]; [done|].
  inversion HF as [|? ? Hf HF']; subst. destruct (read_field f (concat (field_bytes <$> l)) e Hf) as (tag & _ & -> & Hg). destruct (get_field _ _ _) as [[o input] msg]. cbn [fst] in Hg. injection Hg as -> ->.
  apply IH; [done|]. cbn in Hr. lia.
Qed.

Lemma field_length f : (1 <= length (field_bytes f))%nat.
Proof.
  assert (Ht : forall t more, (1 <= length (EncodeVarint32 (tag_val t) ++ more))%nat) by (intros t more; rewrite length_app; destruct (varint32_length (tag_val t)); [destruct t; cbn; lia|lia]).
  destruct f; apply Ht.
Qed.

Lemma fields_length l : (length l <= length (concat (field_bytes <$> l)))%nat.
Proof. induction l as [|f l IH]; [done|]. cbn. rewrite length_app. pose proof (field_length f). lia. Qed.

(** *** Writing fields *)
Definition good_edit (e : VersionEdit) : Prop := Forall good_field (fields e) /\ StronglySorted (fun a b => pair_lt a b = true) (ve_deleted_files e).

Lemma put_string dst s : good_string s -> PutLengthPrefixedSlice dst s = dst ++ put_slice s.
Proof. intros Hs. by apply put_slice_eq. Qed.

Lemma put_number_ok t o dst : Forall good_field (number_field t o) -> put_number t o dst = Ok (dst ++ concat (field_bytes <$> number_field t o)).
Proof.
  destruct o as [n|]; cbn -[field_bytes PutVarint64 PutVarint32 varint64 PutLengthPrefixedSlice EncodeVarint32]; [|by rewrite app_nil_r]. intros [[_ Hn] _]%Forall_cons. rewrite put_varint64 by done. unfold PutVarint32. cbn [field_bytes]. by rewrite app_nil_r, <- app_assoc.
Qed.

Lemma ik_encode s : s <> [] -> ik_Encode s = Ok s.
Proof. intros Hs. unfold ik_Encode. by rewrite decide_False. Qed.

Lemma put_pointers_ok l : forall dst, Forall good_field ((fun x => FPointer (fst x) (snd x)) <$> l) -> put_pointers l dst = Ok (dst ++ concat (field_bytes <$> ((fun x => FPointer (fst x) (snd x)) <$> l))).
Proof.
  induction l as [|[level key] l IH]; intros dst; cbn -[field_bytes PutVarint64 PutVarint32 varint64 PutLengthPrefixedSlice EncodeVarint32]; [by rewrite app_nil_r|]. intros [[Hl [Hk Hne]] HF]%Forall_cons. rewrite ik_encode by done. cbn [mbind res_bind]. rewrite IH, put_string by done. unfold good_level, kNumLevels in Hl. rewrite wrap_u_small by lia.
  unfold PutVarint32. cbn [field_bytes fst snd]. by rewrite <- !app_assoc.
Qed.

Lemma put_deleted_ok l : forall dst, Forall good_field ((fun x => FDeleted (fst x) (snd x)) <$> l) -> put_deleted l dst = Ok (dst ++ concat (field_bytes <$> ((fun x => FDeleted (fst x) (snd x)) <$> l))).
Proof.
  induction l as [|[level n] l IH]; intros dst; cbn -[field_bytes PutVarint64 PutVarint32 varint64 PutLengthPrefixedSlice EncodeVarint32]; [by rewrite app_nil_r|]. intros [[Hl Hn] HF]%Forall_cons. rewrite put_varint64 by done. cbn [of_option mbind res_bind]. rewrite IH by done.
  unfold good_level, kNumLevels in Hl. rewrite wrap_u_small by lia. unfold PutVarint32. cbn [field_bytes fst snd]. by rewrite <- !app_assoc.
Qed.

Lemma put_files_ok l : forall dst, Forall good_field ((fun x => FNew (fst x) (snd x)) <$> l) -> put_files l dst = Ok (dst ++ concat (field_bytes <$> ((fun x => FNew (fst x) (snd x)) <$> l))).
Proof.
  induction l as [|[level f] l IH]; intros dst; cbn -[field_bytes PutVarint64 PutVarint32 varint64 PutLengthPrefixedSlice EncodeVarint32]; [by rewrite app_nil_r|]. intros [[Hl (Hn & Hz & [Hs Hs0] & [Hb Hb0])] HF]%Forall_cons. rewrite put_varint64 by done. cbn [of_option mbind res_bind].
  rewrite put_varint64 by done. cbn [of_option mbind res_bind]. rewrite !ik_encode by done. cbn [mbind res_bind]. rewrite IH, !put_string by done. unfold good_level, kNumLevels in Hl. rewrite wrap_u_small by lia. unfold PutVarint32. cbn [field_bytes fst snd]. by rewrite <- !app_assoc.
Qed.

Lemma encode_fields e dst : Forall good_field (fields e) -> ve_EncodeTo e dst = Ok (dst ++ concat (field_bytes <$> fields e)).
Proof.
  unfold fields, ve_EncodeTo. rewrite !Forall_app. intros (H1 & H2 & H3 & H4 & H5 & H6 & H7 & H8).
  assert ((match ve_comparator e with Some c => PutLengthPrefixedSlice (PutVarint32 dst (tag_val kComparator)) c | None => dst end) = dst ++ concat (field_bytes <$> option_list (FComparator <$> ve_comparator e))) as ->.
  { destruct (ve_comparator e) as [c|]; cbn -[field_bytes PutVarint64 PutVarint32 varint64 PutLengthPrefixedSlice EncodeVarint32]; [|by rewrite app_nil_r]. apply Forall_cons in H1 as [Hc _]. rewrite put_string by done. unfold PutVarint32. cbn [field_bytes]. by rewrite app_nil_r, <- app_assoc. }
  rewrite put_number_ok by done. cbn [mbind res_bind]. rewrite put_number_ok by done. cbn [mbind res_bind]. rewrite put_number_ok by done. cbn [mbind res_bind]. rewrite put_number_ok by done. cbn [mbind res_bind].
  rewrite put_pointers_ok by done. cbn [mbind res_bind]. rewrite put_deleted_ok by done. cbn [mbind res_bind]. rewrite put_files_ok by done. by rewrite !fmap_app, !concat_app, <- !app_assoc.
Qed.

(** *** From fields to the edit *)
Lemma insert_last x l : StronglySorted (fun a b => pair_lt a b = true) (l ++ [x]) -> set_insert x l = l ++ [x].
Proof.
  induction l as [|y l IH]; [done|]. cbn [app]. intros [HS HF]%StronglySorted_inv. cbn [set_insert]. apply Forall_app in HF as [_ [Hyx _]%Forall_cons].
  assert (pair_lt x y = false) as -> by (unfold pair_lt in *; destruct (Z.ltb_spec (fst x) (fst y)), (Z.ltb_spec (fst y) (fst x)), (Z.eqb_spec (fst x) (fst y)), (Z.eqb_spec (fst y) (fst x)), (Z.ltb_spec (snd x) (snd y)), (Z.ltb_spec (snd y) (snd x)); cbn in *; (done || lia)).
  rewrite Hyx. by rewrite IH.
Qed.

Lemma apply_deleted l : forall e, StronglySorted (fun a b => pair_lt a b = true) (ve_deleted_files e ++ l) -> foldl apply_field e ((fun x => FDeleted (fst x) (snd x)) <$> l) =
  MkEdit (ve_comparator e) (ve_log_number e) (ve_prev_log_number e) (ve_next_file_number e) (ve_last_sequence e) (ve_compact_pointers e) (ve_deleted_files e ++ l) (ve_new_files e).
Proof.
  induction l as [|x l IH]; intros e HS; cbn [fmap list_fmap foldl]; [rewrite app_nil_r; by destruct e|]. rewrite (cons_middle x), app_assoc in HS. cbn [apply_field]. rewrite IH; unfold DeleteFile; cbn.
  - rewrite <- surjective_pairing, insert_last; [by rewrite <- app_assoc|]. by apply StronglySorted_app in HS as (_ & HS & _).
  - rewrite <- surjective_pairing, insert_last; [done|]. by apply StronglySorted_app in HS as (_ & HS & _).
Qed.

Lemma apply_pointers l : forall e, foldl apply_field e ((fun x => FPointer (fst x) (snd x)) <$> l) =
  MkEdit (ve_comparator e) (ve_log_number e) (ve_prev_log_number e) (ve_next_file_number e) (ve_last_sequence e) (ve_compact_pointers e ++ l) (ve_deleted_files e) (ve_new_files e).
Proof.
  induction l as [|[level key] l IH]; intros e; cbn [fmap list_fmap foldl]; [rewrite app_nil_r; by destruct e|]. rewrite IH. cbn. by rewrite <- app_assoc.
Qed.

Lemma apply_files l : forall e, foldl apply_field e ((fun x => FNew (fst x) (snd x)) <$> l) =
  MkEdit (ve_comparator e) (ve_log_number e) (ve_prev_log_number e) (ve_next_file_number e) (ve_last_sequence e) (ve_compact_pointers e) (ve_deleted_files e) (ve_new_files e ++ l).
Proof.
  induction l as [|[level f] l IH]; intros e; cbn [fmap list_fmap foldl]; [rewrite app_nil_r; by destruct e|]. rewrite IH. cbn. by rewrite <- app_assoc.
Qed.

Lemma apply_fields e old : StronglySorted (fun a b => pair_lt a b = true) (ve_deleted_files e) -> foldl apply_field (ve_Clear old) (fields e) =
  MkEdit (ve_comparator e) (ve_log_number e) (ve_prev_log_number e) (ve_next_file_number e) (ve_last_sequence e) (ve_compact_pointers old ++ ve_compact_pointers e) (ve_deleted_files e) (ve_new_files e).
Proof.
  intros HS. unfold fields. rewrite !foldl_app, apply_files, apply_deleted, apply_pointers.
  - destruct e as [[c|] [n1|] [n2|] [n3|] [n4|] cp df nf]; done.
  - rewrite apply_pointers. cbn [ve_deleted_files]. destruct e as [[c|] [n1|] [n2|] [n3|] [n4|] cp df nf]; exact HS.
Qed.

(** *** Any input *)
Lemma varint32_left input : (length (snd (GetVarint32 input)) <= length input)%nat /\ (is_Some (fst (GetVarint32 input)) -> (length (snd (GetVarint32 input)) < length input)%nat).
Proof. unfold GetVarint32. destruct (GetVarint32Ptr input) as [[v q]|] eqn:E; cbn; [pose proof (varint32_rest _ _ _ E); lia|]. split; [lia|]. by intros []. Qed.

Lemma varint64_left input : (length (snd (GetVarint64 input)) <= length input)%nat.
Proof.
  unfold GetVarint64. destruct (GetVarint64Ptr input) as [[v q]|] eqn:E; cbn; [|lia]. unfold GetVarint64Ptr in E. rewrite get_loop_64 in E. apply get_loop_rest in E. lia.
Qed.

Lemma level_left input : (length (snd (GetLevel input)) <= length input)%nat.
Proof. unfold GetLevel. pose proof (proj1 (varint32_left input)) as H. destruct (GetVarint32 input) as [[v|] q]; done. Qed.

Lemma then_left {A B} (r : option A * bytes) (f : A -> bytes -> option B * bytes) n : (length (snd r) <= n)%nat -> (forall a input, (length (snd (f a input)) <= length input)%nat) -> (length (snd (andThen r f)) <= n)%nat.
Proof. intros Hr Hf. destruct r as [[a|] input]; cbn in *; [|done]. pose proof (Hf a input). lia. Qed.

Lemma field_left tag e input : (length (snd (fst (get_field tag e input))) <= length input)%nat.
Proof.
  unfold get_field, get_number. repeat case_match; cbn [fst snd]; try done.
  all: repeat (first [apply then_left; [first [apply length_prefixed_rest|apply varint64_left|apply level_left]|intros ? ?]|done]).
Qed.

Lemma decode_total rounds : forall input e, (length input < rounds)%nat -> exists r, decode_loop rounds input e = Ok r.
Proof.
  induction rounds as [|rounds IH]; intros input e Hr; [lia|]. cbn [decode_loop]. destruct (varint32_left input) as [_ Hlt]. destruct (GetVarint32 input) as [[tag|] q]; [|by eexists]. cbn in Hlt.
  specialize (Hlt ltac:(by eexists)). pose proof (field_left tag e q) as Hf. destruct (get_field tag e q) as [[[e'|] q'] msg]; [|by eexists]. apply IH. cbn in Hf. lia.
Qed.

(** An invalid key is not encoded. *)
Lemma pointers_valid l : forall dst r, put_pointers l dst = Ok r -> forall x, x ∈ l -> snd x <> [].
Proof.
  induction l as [|[level key] l IH]; intros dst r; cbn; [by intros _ x ?%elem_of_nil|]. unfold ik_Encode. case_decide; [done|]. cbn [mbind res_bind]. intros E x [->|Hx]%elem_of_cons; [done|by eapply IH].
Qed.

Lemma files_valid l : forall dst r, put_files l dst = Ok r -> forall x, x ∈ l -> f_smallest (snd x) <> [] /\ f_largest (snd x) <> [].
Proof.
  induction l as [|[level f] l IH]; intros dst r; cbn [put_files]; [by intros _ x ?%elem_of_nil|]. destruct (PutVarint64 _ _) as [d1|]; [|done]. cbn [of_option mbind res_bind].
  destruct (PutVarint64 _ _) as [d2|]; [|done]. cbn [of_option mbind res_bind]. unfold ik_Encode. destruct (decide (f_smallest f = [])) as [|H1]; [done|]. cbn [mbind res_bind].
  destruct (decide (f_largest f = [])) as [|H2]; [done|]. cbn [mbind res_bind]. intros E x [->|Hx]%elem_of_cons; [done|by eapply IH].
Qed.

Lemma encoded_valid e dst enc : ve_EncodeTo e dst = Ok enc ->
  (forall x, x ∈ ve_compact_pointers e -> snd x <> []) /\ (forall x, x ∈ ve_new_files e -> f_smallest (snd x) <> [] /\ f_largest (snd x) <> []).
Proof.
  unfold ve_EncodeTo. do 4 (destruct (put_number _ _ _); [cbn [mbind res_bind]|done]). destruct (put_pointers _ _) as [d1|] eqn:E1; [|done]. cbn [mbind res_bind]. destruct (put_deleted _ _) as [d2|]; [|done].
  cbn [mbind res_bind]. intros E2. split; [by eapply pointers_valid|by eapply files_valid].
Qed.

(** C28. Version edits: decoding ends on any bytes, and what an edit was encoded to is
    decoded with an OK status to the same comparator name, numbers, deleted and new
    files and compaction pointers - the latter behind those the decoding edit had
    before, since [Clear] does not remove them.  An edit with an empty internal key,
    which is an invalid one, is not encoded: an assertion fails. *)
Theorem version_edit_roundtrip e old src :
  (exists r, ve_DecodeFrom src old = Ok r) /\
  (good_edit e -> exists enc, ve_EncodeTo e [] = Ok enc /\
    ve_DecodeFrom enc old = Ok (status_OK, MkEdit (ve_comparator e) (ve_log_number e) (ve_prev_log_number e) (ve_next_file_number e) (ve_last_sequence e)
      (ve_compact_pointers old ++ ve_compact_pointers e) (ve_deleted_files e) (ve_new_files e))) /\
  (forall enc, ve_EncodeTo e [] = Ok enc ->
    (forall x, x ∈ ve_compact_pointers e -> snd x <> []) /\ (forall x, x ∈ ve_new_files e -> f_smallest (snd x) <> [] /\ f_largest (snd x) <> [])).
Proof.
  split; [|split; [|intros enc; apply encoded_valid]].
  - unfold ve_DecodeFrom. destruct (decode_total (S (length src)) src (ve_Clear old)) as [[msg e'] ->]; [lia|]. by eexists.
  - intros [HF HS]. exists (concat (field_bytes <$> fields e)). split; [by rewrite encode_fields|]. unfold ve_DecodeFrom.
    rewrite read_fields; [|done|pose proof (fields_length (fields e)); lia]. cbn [mbind res_bind]. by rewrite apply_fields.
Qed.

Definition demo_edit : VersionEdit :=
  DeleteFile 1 3 (DeleteFile 0 7 (AddFile 2 (MkFile 9 4096 (lit "aaaaaaaa1") (lit "zzzzzzzz2")) (SetCompactPointer 1 (lit "mmmmmmmm3") (SetLastSequence 77 (SetNextFile 10 (SetLogNumber 8 VersionEdit_new)))))).

Lemma version_edit_roundtrip_witness : exists enc, ve_EncodeTo demo_edit [] = Ok enc /\ ve_DecodeFrom enc VersionEdit_new = Ok (status_OK, demo_edit).
Proof.
  apply (version_edit_roundtrip demo_edit VersionEdit_new []). split; [|by repeat constructor].
  repeat (apply Forall_cons; split); try apply Forall_nil; try done; repeat split; vm_compute; done.
Defined.
